(* ===== verification/_CoqProject ===== *)
-Q . S2P
Prelude.v
Str.v
Pagination.v
Routes.v
Budget.v
Json.v
Request.v
RateLimit.v
GitHub.v
Repository.v
Checks.v
PatternMatch.v
RefMatching.v
BranchProtection.v
SecurityPolicy.v
Dependabot.v
CodeownersParser.v
Codeowners.v
Time.v
Evidence.v
Metrics.v
Ghas.v
Inventory.v
LastCommit.v
Aggregate.v
Run.v
Auth.v
Client.v
ClientRequests.v
ClientState.v
ClientAnswers.v
ClientRuns.v
Projection.v
WritePolicy.v
InventoryAuthority.v
Baseline.v
Publisher.v
Publication.v
Errors.v
Store.v
StoreSession.v
Events.v
Convert.v
Codec.v
Schema.v
AppState.v
Delivery.v
Config.v
Startup.v
Wire.v
StateReads.v
NatsConnect.v
TeamMembership.v
Artifact.v
EphemeralStore.v
TeamRefresh.v
Webhook.v
SweepTimeout.v
Evaluator.v
Sweep.v
SweepReport.v
Daemon.v
Slugs.v
Diagnostics.v
ViewModel.v
Orphans.v
OwnerPages.v
Denominators.v
Dashboard.v
TableSort.v
Markdown.v
LintTool.v
CloudLogging.v
BuildVersion.v
Binary.v
