(* ===== verification/Prelude.v ===== *)
(** * gh-report: a verification library

    gh-report ([crates/gh-report]) watches the repositories of one GitHub
    organization.  Collectors ask the GitHub API about each repository's
    security posture; what they observe becomes evidence; evidence is written
    as events to append-only stores and folded into a read model, the
    projection; metrics are aggregated over the projection and rendered into
    report pages that a server publishes.  The central concern of the code is
    honesty about ignorance: a failed or denied read must never pass for an
    observation, an incomplete observation must never replace a complete one,
    and a write that may or may not have landed must never be repeated or
    ignored.  The theorems state those promises and the functional behaviour
    of the parts that keep them.

    ** Layout

    Every path is relative to [crates/gh-report/src].  Definitions keep the
    names of the code, with a prefix where two types share a method name.

    - [Prelude]: results, saturating and checked arithmetic, loops over lists,
      a stable sort, maps kept in key order; [Str]: Rust's string functions on
      byte strings; [Json]: JSON values behind a class, since [serde_json] is a
      library; [Request] and [GitHub] ([api_outcome.rs], [github/client.rs]):
      what a request ends with, and the client as the interface the collectors
      are proved against.
    - The client ([github/*.rs]): [Pagination] (link headers), [Routes] (the
      route a request is counted under), [Budget] (the checkpoints that
      concurrent requests cross), [RateLimit] (the limits GitHub states and the
      waits they lead to), [Auth] (credentials, scopes, the App's key), and
      [Client], every operation of [github/client.rs] in a state monad over its
      environment; [ClientRequests], [ClientState] and [ClientRuns] hold its
      theorems.
    - Domain: [Repository] ([domain/repository.rs]), [Checks]
      ([domain/checks.rs], [domain/codeowners.rs]), [Time] ([domain/time.rs]),
      [Evidence] ([domain/evidence.rs]), [Metrics] ([domain/metrics.rs],
      [domain/status.rs]), [Run] ([domain/run.rs], [domain/auth.rs]).
    - Collectors ([collector/*.rs], [pattern_match.rs]): [BranchProtection] and
      [RefMatching] with [PatternMatch]; [SecurityPolicy]; [Dependabot];
      [CodeownersParser] and [Codeowners]; [Ghas]; [Inventory]; [LastCommit];
      [TeamMembership], which runs in the client's monad, with [ClientAnswers]
      for what a request that fails was answered.
    - [Aggregate] ([aggregate/metrics.rs]): metrics over the evidence.
    - [Projection] ([projection.rs]): the fold of the events, and the read model.
    - Writing: [WritePolicy] ([app/write_policy.rs]), [Errors] ([error.rs]),
      [Store] and [StoreSession] ([store/mod.rs]: the operations of a store, and
      the creating and opening of its session) and [AppState]
      ([app/state/mod.rs]), where a write passes admission, is appended to the
      stores and folded into the projection, with [Startup] for the start over
      existing stores, [NatsConnect] for the connection to them and [StateReads]
      for what the handlers read; the events it writes are those of [Events]
      ([event/mod.rs]), reached through [Convert] ([event/convert.rs]), laid out as
      bytes by [Codec] and described by [Schema] ([event/mod.rs]); [Wire] gives the
      stores these forms, so that the restart of [Startup] runs over bytes.
    - Collecting and publishing, from [app/collect.rs] and [infra/baseline.rs]:
      [InventoryAuthority] (which repositories may be declared deleted),
      [Baseline] (which earlier evidence may be reused), [Publisher] (the task
      that renders while a collection is paused) and [Publication] (which
      report is shown); [Artifact] (the report built from the evidence),
      [Delivery] (the task that writes the outcomes of jobs, its fence and the
      barrier of a batch), [Evaluator] (one repository), [SweepTimeout] (how
      long a batch may take), and a whole run in [Sweep], with [SweepReport]
      for what it ends with.
    - Running: [Daemon] ([app/daemon.rs]), the schedule of the runs and the
      start and end of the service; [EphemeralStore] ([app/ephemeral_store.rs]),
      the store of the run's own events; [Config] ([config/*.rs]).
    - Rendering ([report/view_model.rs], [report/html.rs]): [Slugs] (the names
      of the owners' pages), [Diagnostics] (the admin page), [ViewModel] (the
      report), [Orphans], [OwnerPages], [Denominators] (the pages behind the
      cards) and [Dashboard] (which pages there are); [Markdown]
      ([report/markdown.rs]) renders the operations guide.
    - Beside the service, in crates of their own: [TableSort]
      ([gh-report-web-client/src]), which sorts the
      tables of the pages in the reader's browser, and [LintTool]
      ([non-exhaustive-check/src]), a gate of the build.
    - [CloudLogging] ([infra/cloud_logging.rs]): the structured log lines, and
      the calendar the code works their times out with; [Binary]
      ([bin/gh-report.rs], [infra/signal.rs], [server.rs]): the command line and
      the two modes of the program; [BuildVersion] ([build.rs], [build_env.rs],
      beside [src]): the version that the build script hands to Cargo.
    - [TeamRefresh] ([app/team_refresh.rs]): the task that keeps the rosters of
      teams, from the requests it makes to the events it writes.
    - [Webhook] ([webhook/*.rs], [app/webhook_context.rs]): what a delivery of
      GitHub's leads to, against an interface that [AppState] implements.

    ** How the code is modelled

    - Pure Rust functions are Rocq functions; a [&mut] accumulator is a state
      passed through a fold; [Result] is [result] and [Option] is [option]; a
      panic is the [None] of an outer option where a theorem rules it out.
    - A machine integer is an [N] or a [Z] whose overflow behaviour is written
      out ([sat_add], [checked_add], [clamp]) at the width the code has.
    - A [str] is a [string] of UTF-8 bytes.  A [HashMap] or [BTreeMap] is a
      [gmap]; where the code iterates a [BTreeMap] the entries are sorted by key.
    - Behind a class or a parameter stand: the GitHub API ([GitHubClient]), JSON
      values, the parsing and formatting of timestamps, Base64, Unicode
      lowercasing, the page templates, and the pardosa session that appends to
      a store ([Backend]).  Laws, where a theorem needs them, are classes of
      their own with a concrete instance among the witnesses.
    - The bounded types and timestamps of pardosa are the class [Pardosa], its
      encodings of base types the class [PardosaCodecs]; [JiffLaws] relates
      the parsing and the formatting of timestamps.
    - Concurrency appears where the code's correctness depends on it: the
      publisher runs against an environment that may notify, shut down or
      disappear between any two of its steps; the calls that share the budget
      checkpoints are interleaved one atomic operation at a time.  The client
      is modelled as one task sees it: between two of its steps the world may
      change, its own fields do not.  While the team refresh waits for the
      network, other tasks may change the service's state in any way.
    - The client's monad ends in [None] where the code panics (the release
      profile checks for overflow).  Its trace of events is there for the
      theorems only.
    - Binary floating point is [SpecFloat]'s: the rates, their rounding and
      their texts are computed as the code computes them; [ln] and [exp], of the
      score of an organization, are parameters.
    - What is logged, other than its level, the form of the lines and the lines
      of a connection to NATS, metrics counters, cloning and locks,
      including lock poisoning, are not modelled, nor are the text of the page
      templates, the compression of pages, the HTTP server beyond its limits on
      bodies, TLS, the profiling harness of the binary and the files of the
      operating system: they are glue over libraries.  The derived serde forms of
      the types that are not events are generated code.

    ** What is shown

    - Reads: for each check, which answers of the API lead to which result, so
      that a definite result is only given on the answers that justify it
      ([protected_iff], [absence_is_confirmed], [policy_absent_iff],
      [dependabot_reason_iff], [codeowners_precedence], [no_lost_alert]); the
      matcher against the denotation of its patterns
      ([path_pattern_matches_exact]) and the parser against what a line means
      ([parse_codeowners_reference]).
    - Counting: every rate against the enumeration of its population
      ([coverage_matches_population], [alert_prevalence_partition],
      [owner_metrics_exact]).
    - Runs: what the delivery of outcomes writes and reports
      ([batch_result_exact], [barrier_exact]) and that a fenced run writes
      nothing more ([aborted_run_is_silent]); when a run publishes and what
      ([sweep_publishes_when_settled], [sweep_report_exact]); how often runs are
      started ([converge_exact], [collection_loop_runs]); the stream of a run's
      events ([stream_invariant]).
    - Pages: the names of the owners' pages ([unique_slugs_exact]), the
      operator's flags and sections ([red_flags_exact],
      [health_sections_exact]), the numbers as they are shown
      ([rates_shown_exactly]), the scores against the dots
      ([repo_score_matches_dots]), the lists behind the cards
      ([control_page_matches_card], [alert_free_page_matches_card]), the
      orphans ([orphans_exact]), the set of pages, and that each owner's row
      links to the page that shows that owner ([dashboard_pages_exact]).  One link does lead nowhere:
      [orphan_group_link_dead].  What the browser makes of a table
      ([table_shows_its_state], [rate_cells_sort_by_rate],
      [status_unknown_last]); that rendered Markdown is well-formed HTML
      ([render_writes_html]).
    - The client: what a request may cost ([request_bounds]) and where it may go
      ([requests_stay_home]), that it returns ([request_returns]), that a
      listing not marked as truncated is complete ([untruncated_is_complete]),
      what the client remembers ([client_ok_preserved],
      [repo_details_memoized], [cache_roundtrip]); the scanners against the
      forms they scan ([link_header_exact], [rsa_key_size_exact]); the waits ([waits_exact]); the checkpoints under
      every interleaving ([checkpoints_exact], [record_wait_free]).
    - The read model: the state after any events as a function of each fiber's
      own history ([projection_repository_exact], [projection_team_exact]),
      its idempotence and its snapshots.
    - Writes: retries, latches, and that a rebuild from the journals shows what
      the running service shows, where no removal meets a repository that is
      shown without an active fiber ([write_with_policy_exact], [store_latch_exact],
      [write_latch_exact], [rebuild_equals_runtime]); that a store opened again
      holds what was acknowledged ([reopen_exact]), and that a service started
      over its stores shows what it showed before ([restart_equals_runtime]). For
      teams it does not: [restart_resurrects_detached_team].
    - The event form: what converts comes back, with the same verdicts
      ([evidence_conversion_roundtrip], [conversion_keeps_verdicts],
      [org_conversion_roundtrip]), what cannot be converted
      ([unstorable_codeowners]), the bytes of every event read back
      unambiguously ([domain_event_roundtrip]) and laid out as its schema says
      ([schema_describes_events]).
    - Collection: validation, admission and deletion ([reconcile_safe]), reuse
      ([baseline_reuse_exact]), and publication that never loses evidence
      ([publication_keeps_evidence]) nor a signal ([publisher_no_signal_lost]).
    - Teams: what a roster rests on ([roster_rests_on_answers]), who has left
      ([departure_is_observed]), what a refresh leaves ([tick_exact]) and that it
      hides a team only for a reason that GitHub gave
      ([tick_detaches_gone_teams]).
    - Webhooks: the answer to every delivery and what it changes
      ([delivery_exact]), the window of pushes ([debounce_exact]), and that a
      delivery answered with an error is not executed again
      ([redelivery_is_skipped]).
    - Operating: that the times of the log lines are those of the calendar and
      sort as the times do ([log_time_exact]), what the lines of a process share
      ([lines_share_ids]), what is logged of the address of a store
      ([endpoints_show_no_secret], [startup_line_shows_no_secret]), that
      readiness does not depend on the stores it asks
      ([readiness_ignores_backends]), that the baseline is printed from the
      daemon's stores ([dump_finds_the_daemons_stores]) but for names with white
      space around them ([dump_looks_elsewhere]), and that no version or commit
      smuggles a directive into the build ([directives_not_injected]).
    - The build's gate: what it lets pass and what it reports ([lint_exact]).

    ** Fuel and bounds

    Recursion follows the data.  The recursion bounds in [PatternMatch] are the
    code's own and are part of what is proved; the retry loop runs over the
    code's range.  The loop of the publisher is a step relation, with a
    measure that decreases once shutdown was sent.  The scanners of link headers
    and of octal digits run on fuel longer than their text, which
    [link_header_exact] shows to be enough; the walk over pages recurses on the
    pages the code still allows, the loop over attempts on the code's range.
    The Markdown renderer runs on the bytes and the lines left, which
    [render_inline_eq] and [render_eq] show to be enough.
    The search for a free page name tries one more candidate than there are
    names in use, which [unique_slugs_exact] shows to be enough.
    The compare-and-swap loop of the checkpoints is a step relation, and
    thirty-five steps of a call end it whatever the others do. *)

From stdpp Require Export base gmap sets list strings sorting option.
From stdpp Require Export numbers pretty.
From Stdlib Require Export ZArith NArith.
From stdpp Require Export ssreflect.

#[global] Open Scope general_if_scope.

(** ** Results: Rust's [Result<A, E>] *)

Inductive result (E A : Type) : Type :=
| Ok (a : A)
| Err (e : E).
Arguments Ok {E A} a.
Arguments Err {E A} e.

Declare Scope ghr_scope.
Delimit Scope ghr_scope with ghr.

(** The [?] operator: run [c], bind its value, propagate its error. *)
Notation "'let?' x := c 'in' k" :=
  (match c with Ok x => k | Err e => Err e end)
  (at level 10, x name, c at level 100, k at level 200) : ghr_scope.
#[global] Open Scope ghr_scope.

Definition ok {E A} (r : result E A) : option A :=
  match r with Ok a => Some a | Err _ => None end.

Definition result_map {E A B} (f : A -> B) (r : result E A) : result E B :=
  match r with Ok a => Ok (f a) | Err e => Err e end.

Definition map_err {E E' A} (f : E -> E') (r : result E A) : result E' A :=
  match r with Ok a => Ok a | Err e => Err (f e) end.

(** [Option::map(f).transpose()]. *)
Definition opt_transpose {E A B} (f : A -> result E B) (o : option A) : result E (option B) :=
  match o with
  | None => Ok None
  | Some a => let? b := f a in Ok (Some b)
  end.

(** [iter.map(f).collect::<Result<Vec<_>, _>>()]. *)
Fixpoint collect {E A B} (f : A -> result E B) (l : list A) : result E (list B) :=
  match l with
  | [] => Ok []
  | a :: l => let? b := f a in let? bs := collect f l in Ok (b :: bs)
  end.

(** Runs through a successful chain of [let?] steps. *)
Ltac conv_chain H :=
  repeat match type of H with
  | match ?c with Ok _ => _ | Err _ => _ end = Ok _ =>
    let E := fresh "E" in destruct c eqn:E; [|discriminate H]
  end;
  injection H as <-.

(** ** Machine-width unsigned integers, kept as [N] with their bound *)

Definition u8_max : N := 255.
Definition u16_max : N := 65535.
Definition u32_max : N := 4294967295.
Definition u64_max : N := 18446744073709551615.
(** [usize] on the 64-bit targets the service is built for. *)
Definition usize_max : N := u64_max.

(** [a.saturating_add(b)] at the width whose largest value is [max]. *)
Definition sat_add (max a b : N) : N := N.min (a + b) max.
(** [a.saturating_sub(b)] for unsigned integers: truncated subtraction. *)
Definition sat_sub (a b : N) : N := (a - b)%N.
Definition sat_mul (max a b : N) : N := N.min (a * b) max.
(** [uN::try_from(n).unwrap_or(uN::MAX)]. *)
Definition clamp (max n : N) : N := if (n <=? max)%N then n else max.
Definition checked_add (max a b : N) : option N :=
  if (a + b <=? max)%N then Some (a + b)%N else None.

Lemma clamp_min max n : clamp max n = N.min n max.
Proof. unfold clamp. destruct (N.leb_spec n max); lia. Qed.

Lemma sat_add_le max a b : (sat_add max a b <= max)%N.
Proof. unfold sat_add. lia. Qed.

Lemma sat_add_small max a b : (a + b <= max)%N -> sat_add max a b = (a + b)%N.
Proof. unfold sat_add. lia. Qed.

(** Saturating increments commute with clamping an exact count. *)
Lemma sat_add_clamp max a b : sat_add max (N.min a max) b = N.min (a + b) max.
Proof. unfold sat_add. lia. Qed.

(** ** Automation shared by the components *)

(** Case analysis on every match of the goal, closing what computes. *)
Ltac crush_cases :=
  repeat (case_match; simplify_eq/=; try done).

(** The same on a boolean guard of Rust's [if]. *)
Ltac bool_cases :=
  repeat match goal with
  | H : andb _ _ = true |- _ => apply andb_prop in H as [??]
  | H : orb _ _ = false |- _ => apply orb_false_elim in H as [??]
  | H : negb _ = true |- _ => apply negb_true_iff in H
  | H : negb _ = false |- _ => apply negb_false_iff in H
  | H : bool_decide _ = true |- _ => apply bool_decide_eq_true in H
  | H : bool_decide _ = false |- _ => apply bool_decide_eq_false in H
  end.

(** ** Checking every number below a bound by computation *)

Definition below (n : nat) : list N := map N.of_nat (List.seq 0 n).

Lemma below_spec n i : i ∈ below n <-> (i < N.of_nat n)%N.
Proof.
  unfold below. rewrite list_elem_of_fmap. split.
  - intros (j & -> & Hj%elem_of_seq). lia.
  - intros Hi. exists (N.to_nat i). split; [lia|]. apply elem_of_seq. lia.
Qed.

Lemma forall_below (p : N -> bool) n :
  forallb p (below n) = true -> forall i, (i < N.of_nat n)%N -> p i = true.
Proof. intros H i Hi%below_spec. rewrite forallb_forall in H. by apply H, list_elem_of_In. Qed.

(** ** Lists *)

(** [iter.min_by_key(key)]: the first element of least key. *)
Fixpoint min_by_key {A} (key : A -> N) (l : list A) : option A :=
  match l with
  | [] => None
  | a :: l =>
    match min_by_key key l with
    | None => Some a
    | Some b => if (key b <? key a)%N then Some b else Some a
    end
  end.

Lemma min_by_key_Some {A} (key : A -> N) (l : list A) a :
  min_by_key key l = Some a -> a ∈ l /\ forall b, b ∈ l -> (key a <= key b)%N.
Proof.
  revert a. induction l as [|x l IH]; intros a; simpl; [done|].
  destruct (min_by_key key l) as [b|] eqn:E.
  - destruct (IH b eq_refl) as [Hin Hmin].
    destruct (N.ltb_spec (key b) (key x)); intros [= <-]; (split; [set_solver|]);
      intros c [->|Hc]%elem_of_cons; try lia; specialize (Hmin c Hc); lia.
  - destruct l as [|y l].
    + intros [= <-]. split; [set_solver|]. intros b ->%list_elem_of_singleton. lia.
    + simpl in E. destruct (min_by_key key l); [destruct (_ <? _)%N|]; discriminate.
Qed.

Lemma min_by_key_None {A} (key : A -> N) (l : list A) :
  min_by_key key l = None -> l = [].
Proof.
  destruct l as [|x l]; [done|]; simpl.
  destruct (min_by_key key l); [destruct (_ <? _)%N|]; discriminate.
Qed.

(** [Vec::dedup]: drop consecutive repetitions. *)
Fixpoint dedup {A} `{EqDecision A} (l : list A) : list A :=
  match l with
  | [] => []
  | a :: l =>
    match dedup l with
    | b :: l' => if decide (a = b) then b :: l' else a :: b :: l'
    | [] => [a]
    end
  end.

Lemma elem_of_dedup {A} `{EqDecision A} (l : list A) a : a ∈ dedup l <-> a ∈ l.
Proof.
  induction l as [|b l IH]; simpl; [done|].
  rewrite elem_of_cons -IH.
  destruct (dedup l) as [|c l']; simpl; [set_solver|].
  case_decide; set_solver.
Qed.

(** On a sorted list dropping consecutive repetitions drops all of them. *)
Lemma dedup_sorted {A} `{EqDecision A} (R : relation A) `{!AntiSymm (=) R} (l : list A) :
  StronglySorted R l -> StronglySorted R (dedup l) /\ NoDup (dedup l).
Proof.
  induction 1 as [|a l Hl [IH1 IH2] Ha]; simpl; [by split; constructor|].
  assert (Forall (R a) (dedup l)) as Ha'.
  { rewrite !Forall_forall in Ha *. intros b. rewrite elem_of_dedup. apply Ha. }
  destruct (dedup l) as [|b l'] eqn:E; [split; repeat constructor; set_solver|].
  case_decide as Hab; [done|]. split; [by constructor|].
  constructor; [|done]. rewrite elem_of_cons. intros [->|Hin]; [done|].
  inversion_clear IH1 as [|?? _ Hb]. rewrite Forall_forall in Hb.
  apply Hab. apply (anti_symm R); [by inversion_clear Ha'|by apply Hb].
Qed.

(** ** Stable sorting: [Vec::sort_by] *)

Section SortBy.
  Context {A : Type} (R : relation A) `{!RelDecision R}.

Fixpoint insert_by (a : A) (l : list A) : list A :=
  match l with
  | [] => [a]
  | b :: l' => if decide (R a b) then a :: l else b :: insert_by a l'
  end.

Definition sort_by (l : list A) : list A := foldr insert_by [] l.

Lemma insert_by_Permutation a l : Permutation (insert_by a l) (a :: l).
Proof.
  induction l as [|b l IH]; simpl; [done|]. case_decide; [done|].
  rewrite IH. apply perm_swap.
Qed.

Lemma sort_by_Permutation l : Permutation (sort_by l) l.
Proof.
  induction l as [|a l IH]; simpl; [done|]. by rewrite insert_by_Permutation IH.
Qed.

(** An order need only be total and transitive on the elements sorted. *)
Lemma insert_by_sorted_on (P : A -> Prop) a l :
  (forall b c, P b -> P c -> R b c \/ R c b) ->
  (forall b c d, P b -> P c -> P d -> R b c -> R c d -> R b d) ->
  P a -> Forall P l -> StronglySorted R l -> StronglySorted R (insert_by a l).
Proof.
  intros Htot Htr Ha HP. induction 1 as [|b l Hl IH Hb]; simpl; [by repeat constructor|].
  inversion_clear HP as [|?? Pb Pl]. case_decide as Hab.
  - constructor; [by constructor|]. constructor; [done|].
    rewrite !Forall_forall in Hb Pl |- *. intros c Hc. apply (Htr a b c); auto.
  - constructor; [by apply IH|]. rewrite insert_by_Permutation. constructor; [|done].
    by destruct (Htot a b Ha Pb).
Qed.

Lemma sort_by_sorted_on (P : A -> Prop) l :
  (forall b c, P b -> P c -> R b c \/ R c b) ->
  (forall b c d, P b -> P c -> P d -> R b c -> R c d -> R b d) ->
  Forall P l -> StronglySorted R (sort_by l).
Proof.
  intros Htot Htr. induction 1 as [|a l Ha Hl IH]; simpl; [constructor|].
  eapply insert_by_sorted_on; try done. by rewrite sort_by_Permutation.
Qed.

Lemma sort_by_sorted `{!Total R, !Transitive R} l : StronglySorted R (sort_by l).
Proof.
  apply (sort_by_sorted_on (fun _ => True)); [| |by apply Forall_true]; intros; [apply (total R)|by etrans].
Qed.

(** Elements the order ties keep their relative order. *)
Lemma sort_by_stable (p : A -> bool) l :
  (forall a b, p a = true -> p b = true -> R a b) ->
  List.filter p (sort_by l) = List.filter p l.
Proof.
  intros Hp. induction l as [|a l IH]; simpl; [done|]. rewrite -IH. clear IH.
  induction (sort_by l) as [|b l' IH']; simpl; [done|].
  case_decide as Hab; [done|]. simpl in *. rewrite IH'.
  destruct (p a) eqn:Ea, (p b) eqn:Eb; simpl; try done.
  destruct Hab. by apply Hp.
Qed.
End SortBy.

(** The entries of a [BTreeMap], in key order. *)
Definition key_le {A} (p q : string * A) : Prop := String.le (fst p) (fst q).
#[export] Instance key_le_dec {A} : RelDecision (@key_le A).
Proof. intros p q. unfold key_le. apply _. Defined.
#[export] Instance key_le_total {A} : Total (@key_le A).
Proof. intros p q. apply (total String.le). Qed.
#[export] Instance key_le_trans {A} : Transitive (@key_le A).
Proof. intros p q r. unfold key_le. apply transitivity. Qed.

Definition btree_entries {A} (m : gmap string A) : list (string * A) :=
  sort_by key_le (map_to_list m).

(** How many elements of [l] satisfy [p]. *)
Definition countb {A} (p : A -> bool) (l : list A) : N :=
  N.of_nat (length (List.filter p l)).

Lemma countb_nil {A} (p : A -> bool) : countb p [] = 0%N.
Proof. done. Qed.

Lemma countb_cons {A} (p : A -> bool) a l :
  countb p (a :: l) = ((if p a then 1 else 0) + countb p l)%N.
Proof. unfold countb; simpl. destruct (p a); simpl; lia. Qed.

Lemma countb_ext {A} (p q : A -> bool) l :
  (forall a, a ∈ l -> p a = q a) -> countb p l = countb q l.
Proof.
  induction l as [|a l IH]; intros H; [done|].
  rewrite !countb_cons H; [|set_solver]. rewrite IH; [done|]. set_solver.
Qed.

Lemma countb_le_length {A} (p : A -> bool) l : (countb p l <= N.of_nat (length l))%N.
Proof.
  induction l as [|a l IH]; [done|].
  rewrite countb_cons; simpl. destruct (p a); lia.
Qed.

Lemma countb_app {A} (p : A -> bool) l l' : countb p (l ++ l') = (countb p l + countb p l')%N.
Proof. induction l as [|a l IH]; [done|]. rewrite /= !countb_cons IH. lia. Qed.

Lemma countb_Permutation {A} (p : A -> bool) l l' : Permutation l l' -> countb p l = countb p l'.
Proof. induction 1; rewrite ?countb_cons; lia. Qed.

Lemma countb_zero {A} (p : A -> bool) l : countb p l = 0%N <-> forall a, a ∈ l -> p a = false.
Proof.
  induction l as [|a l IH]; [split; [by intros _ a ?%elem_of_nil|done]|].
  rewrite countb_cons. destruct (p a) eqn:E.
  - split; [lia|]. intros H. specialize (H a (list_elem_of_here _ _)). congruence.
  - rewrite N.add_0_l IH. split; [intros H b [->|Hb]%elem_of_cons; auto|].
    intros H b Hb. apply H. by apply list_elem_of_further.
Qed.

(** Disjoint, exhaustive classes partition the count. *)
Lemma countb_or {A} (p q : A -> bool) l :
  (forall a, a ∈ l -> p a && q a = false) ->
  countb (fun a => p a || q a) l = (countb p l + countb q l)%N.
Proof.
  induction l as [|a l IH]; intros H; [done|].
  rewrite !countb_cons IH; [|set_solver].
  pose proof (H a (list_elem_of_here _ _)) as Ha. destruct (p a), (q a); simpl in *; try done; lia.
Qed.

Create HintDb ghr_count discriminated.
#[export] Hint Rewrite @countb_nil @countb_cons : ghr_count.

(** The sum of [f] over the values of a map. *)
Definition map_sum {A} (f : A -> N) (m : gmap string A) : N :=
  map_fold (fun _ a acc => f a + acc)%N 0%N m.

Lemma map_sum_empty {A} (f : A -> N) : map_sum f (∅ : gmap string A) = 0%N.
Proof. unfold map_sum. by rewrite map_fold_empty. Qed.

Lemma map_sum_insert_new {A} (f : A -> N) (m : gmap string A) k a :
  m !! k = None -> map_sum f (<[k := a]> m) = (f a + map_sum f m)%N.
Proof.
  intros Hk. unfold map_sum. rewrite map_fold_insert_L //. intros. lia.
Qed.

(** Replacing a value changes the sum by the difference. *)
Lemma map_sum_insert {A} (f : A -> N) (m : gmap string A) k a :
  (map_sum f (<[k := a]> m) + default 0 (f <$> m !! k) = map_sum f m + f a)%N.
Proof.
  destruct (m !! k) as [b|] eqn:E; simpl.
  - rewrite -(insert_delete_eq m k a) -{2}(insert_delete_id m k b E).
    rewrite !map_sum_insert_new ?lookup_delete_eq //. lia.
  - rewrite map_sum_insert_new //. lia.
Qed.

(** ** Maps from lists of pairs *)

(** [iter.collect()] of pairs into a map: the last of a key stays. *)
Definition collect_map {A} (l : list (string * A)) : gmap string A :=
  fold_left (fun m kv => <[fst kv := snd kv]> m) l ∅.

Lemma fold_insert_lookup {A} (l : list (string * A)) (m : gmap string A) k :
  NoDup l.*1 ->
  fold_left (fun m kv => <[fst kv := snd kv]> m) l m !! k =
    match (list_to_map l : gmap string A) !! k with Some a => Some a | None => m !! k end.
Proof.
  revert m. induction l as [|[k' a] l IH]; intros m; [done|]. cbn [fold_left fst snd fmap list_fmap].
  intros [Hk Hl]%NoDup_cons. rewrite (IH _ Hl). cbn [list_to_map foldr uncurry].
  destruct (decide (k' = k)) as [<-|Hne].
  - by rewrite (not_elem_of_list_to_map_1 l k' Hk) !lookup_insert_eq.
  - rewrite !lookup_insert_ne //.
Qed.

(** Any order of a map's own pairs collects to the map. *)
Lemma collect_map_Permutation {A} (l : list (string * A)) (m : gmap string A) :
  Permutation l (map_to_list m) -> collect_map l = m.
Proof.
  intros Hp. assert (NoDup l.*1) as Hl by (rewrite Hp; apply NoDup_fst_map_to_list).
  apply map_eq. intros k. unfold collect_map. rewrite (fold_insert_lookup l _ k Hl).
  rewrite (list_to_map_proper l (map_to_list m)) // list_to_map_to_list lookup_empty.
  by destruct (m !! k).
Qed.
