(* ===== verification/Str.v ===== *)
(** * Rust's [str]

    A Rust [str] is kept as a [string] of its UTF-8 bytes.  This file holds
    the operations of the Standard Library of Rust the components use: prefix
    and suffix stripping, substring search, splitting, lines, trimming of the
    Unicode white space, ASCII case folding.  Each is the documented behaviour
    of the [str] method its name says. *)

From S2P Require Import Prelude.
From Stdlib Require Ascii String.
Export (notations) Stdlib.Strings.Ascii.

Fixpoint strip_prefix (p s : string) : option string :=
  match p, s with
  | EmptyString, _ => Some s
  | String a p, String b s => if Ascii.eqb a b then strip_prefix p s else None
  | String _ _, EmptyString => None
  end.

Definition starts_with (p s : string) : bool :=
  match strip_prefix p s with Some _ => true | None => false end.

Definition strip_suffix (p s : string) : option string :=
  option_map String.rev (strip_prefix (String.rev p) (String.rev s)).

Definition ends_with (p s : string) : bool :=
  match strip_suffix p s with Some _ => true | None => false end.

Definition is_empty (s : string) : bool :=
  match s with EmptyString => true | _ => false end.

(** [s.find(p)]: the text before the first occurrence and after it. *)
Fixpoint split_once (p s : string) : option (string * string) :=
  match strip_prefix p s with
  | Some rest => Some (EmptyString, rest)
  | None =>
    match s with
    | EmptyString => None
    | String a s =>
      match split_once p s with
      | Some (l, r) => Some (String a l, r)
      | None => None
      end
    end
  end.

(** [s.contains(p)]. *)
Definition contains (p s : string) : bool :=
  match split_once p s with Some _ => true | None => false end.

(** [s.split(c)] for an ASCII character: always at least one part. *)
Fixpoint split_char (c : Ascii.ascii) (s : string) : list string :=
  match s with
  | EmptyString => [EmptyString]
  | String a s =>
    if Ascii.eqb a c then EmptyString :: split_char c s
    else match split_char c s with
         | p :: ps => String a p :: ps
         | [] => [String a EmptyString]
         end
  end.

(** [parts.join(c)]. *)
Fixpoint join_char (c : Ascii.ascii) (ps : list string) : string :=
  match ps with
  | [] => EmptyString
  | [p] => p
  | p :: ps => p +:+ String c (join_char c ps)
  end.

Fixpoint contains_char (c : Ascii.ascii) (s : string) : bool :=
  match s with
  | EmptyString => false
  | String a s => Ascii.eqb a c || contains_char c s
  end.

(** [char::is_whitespace]: the 25 code points of [White_Space], in UTF-8. *)
Definition byte (n : N) : Ascii.ascii := Ascii.ascii_of_N n.
Definition bytes (l : list N) : string :=
  fold_right (fun n s => String (byte n) s) EmptyString l.

Definition white_space : list string :=
  map bytes
    ([ [9]; [10]; [11]; [12]; [13]; [32];
       [194; 133]; [194; 160];
       [225; 154; 128];
       [226; 128; 128]; [226; 128; 129]; [226; 128; 130]; [226; 128; 131];
       [226; 128; 132]; [226; 128; 133]; [226; 128; 134]; [226; 128; 135];
       [226; 128; 136]; [226; 128; 137]; [226; 128; 138];
       [226; 128; 168]; [226; 128; 169]; [226; 128; 175];
       [226; 129; 159];
       [227; 128; 128] ]%N).

(** Strip one white-space character off the front. *)
Definition strip_any (ws : list string) (s : string) : option string :=
  fold_right (fun w k => match strip_prefix w s with Some r => Some r | None => k end)
    None ws.

Fixpoint trim_with (ws : list string) (fuel : nat) (s : string) : string :=
  match fuel with
  | O => s
  | S fuel =>
    match strip_any ws s with
    | Some r => trim_with ws fuel r
    | None => s
    end
  end.

(** Every step removes at least a byte, so the length is enough fuel. *)
Definition trim_start (s : string) : string :=
  trim_with white_space (String.length s) s.
Definition trim_end (s : string) : string :=
  String.rev (trim_with (map String.rev white_space) (String.length s) (String.rev s)).
Definition trim (s : string) : string := trim_end (trim_start s).

(** [s.split_whitespace()]: the maximal runs free of white space. [cur] is
    the current run, reversed. *)
Definition flush (cur : string) : list string :=
  if is_empty cur then [] else [String.rev cur].

Fixpoint split_ws (fuel : nat) (cur s : string) : list string :=
  match fuel with
  | O => flush cur
  | S fuel =>
    match strip_any white_space s with
    | Some r => flush cur ++ split_ws fuel EmptyString r
    | None =>
      match s with
      | EmptyString => flush cur
      | String a s => split_ws fuel (String a cur) s
      end
    end
  end.

Definition split_whitespace (s : string) : list string :=
  split_ws (S (String.length s)) EmptyString s.

(** [s.lines()]: split after each newline, drop the newline and one carriage
    return before it; no line follows a final newline. *)
Definition cr : Ascii.ascii := byte 13.
Definition nl : Ascii.ascii := byte 10.

Definition chomp_cr (l : string) : string :=
  match strip_suffix (String cr EmptyString) l with Some l => l | None => l end.

Fixpoint lines_of (ps : list string) : list string :=
  match ps with
  | [] => []
  | [p] => if is_empty p then [] else [p]
  | p :: ps => chomp_cr p :: lines_of ps
  end.

Definition lines (s : string) : list string := lines_of (split_char nl s).

(** ASCII case folding. *)
Definition lower_byte (a : Ascii.ascii) : Ascii.ascii :=
  let n := Ascii.N_of_ascii a in
  if (65 <=? n)%N && (n <=? 90)%N then Ascii.ascii_of_N (n + 32) else a.

Fixpoint map_bytes (f : Ascii.ascii -> Ascii.ascii) (s : string) : string :=
  match s with
  | EmptyString => EmptyString
  | String a s => String (f a) (map_bytes f s)
  end.

Definition to_ascii_lowercase : string -> string := map_bytes lower_byte.

Definition eq_ignore_ascii_case (a b : string) : bool :=
  bool_decide (to_ascii_lowercase a = to_ascii_lowercase b).

(** The bytes of a string. *)
Fixpoint to_bytes (s : string) : list N :=
  match s with
  | EmptyString => []
  | String a s => Ascii.N_of_ascii a :: to_bytes s
  end.

(** [s.find(p)]: the byte offset of the first occurrence. *)
Definition find (p s : string) : option nat :=
  option_map (fun lr => String.length (fst lr)) (split_once p s).

(** [&s[..n]]. *)
Fixpoint take_bytes (n : nat) (s : string) : string :=
  match n, s with
  | S n, String a s => String a (take_bytes n s)
  | _, _ => EmptyString
  end.

(** [s.chars().filter(p)] for a predicate on ASCII characters that keeps every
    other byte. *)
Fixpoint filter_bytes (p : Ascii.ascii -> bool) (s : string) : string :=
  match s with
  | EmptyString => EmptyString
  | String a s => if p a then String a (filter_bytes p s) else filter_bytes p s
  end.

(** [String::from_utf8]: the well-formed byte sequences of the Unicode
    standard (no overlong form, no surrogate, nothing above U+10FFFF). *)
Definition in_range (lo hi n : N) : bool := (lo <=? n)%N && (n <=? hi)%N.

Fixpoint utf8_valid (l : list N) : bool :=
  match l with
  | [] => true
  | a :: l =>
    if in_range 0 127 a then utf8_valid l
    else
      match l with
      | [] => false
      | b :: l =>
        if in_range 194 223 a then in_range 128 191 b && utf8_valid l
        else
          match l with
          | [] => false
          | c :: l =>
            if in_range 224 239 a then
              in_range (if a =? 224 then 160 else 128)%N (if a =? 237 then 159 else 191)%N b
              && in_range 128 191 c && utf8_valid l
            else
              match l with
              | [] => false
              | d :: l =>
                in_range 240 244 a
                && in_range (if a =? 240 then 144 else 128)%N
                     (if a =? 244 then 143 else 191)%N b
                && in_range 128 191 c && in_range 128 191 d && utf8_valid l
              end
          end
      end
  end.

Definition from_utf8 (s : string) : option string :=
  if utf8_valid (to_bytes s) then Some s else None.

(** [is_ascii_alphanumeric]. *)
Definition is_alphanumeric (c : Ascii.ascii) : bool :=
  let n := Ascii.N_of_ascii c in in_range 48 57 n || in_range 65 90 n || in_range 97 122 n.

(** The 256 bytes: what is decided over all of them. *)
Definition all_chars : list Ascii.ascii := map byte (map N.of_nat (List.seq 0 256)).

Fixpoint all_bytes (p : Ascii.ascii -> bool) (s : string) : bool :=
  match s with EmptyString => true | String c s => p c && all_bytes p s end.

(** ** Laws *)

Lemma strip_prefix_Some p s r : strip_prefix p s = Some r <-> s = p +:+ r.
Proof.
  revert s. induction p as [|a p IH]; intros s; simpl.
  - split; [by intros [= ->]|intros ->; done].
  - destruct s as [|b s]; [split; discriminate|].
    destruct (Ascii.eqb_spec a b) as [->|Hne].
    + rewrite IH. unfold String.app; simpl. split; [by intros ->|by intros [= ->]].
    + split; [discriminate|]. unfold String.app; simpl. intros [= <- _]. done.
Qed.

Lemma starts_with_spec p s : starts_with p s = true <-> exists r, s = p +:+ r.
Proof.
  unfold starts_with. destruct (strip_prefix p s) as [r|] eqn:E.
  - apply strip_prefix_Some in E. split; [by exists r|done].
  - split; [done|]. intros [r ->]. exfalso.
    assert (strip_prefix p (p +:+ r) = Some r) as E' by by apply strip_prefix_Some.
    congruence.
Qed.

Lemma str_app_cons c a b : String c a +:+ b = String c (a +:+ b).
Proof. done. Qed.

Lemma str_length_app a b : String.length (a +:+ b) = (String.length a + String.length b)%nat.
Proof. induction a as [|c a IH]; [done|]. rewrite str_app_cons /=. by rewrite IH. Qed.

Lemma str_app_nil_r s : s +:+ EmptyString = s.
Proof. induction s as [|a s IH]; [done|]. unfold String.app in *; simpl. by rewrite IH. Qed.

Lemma str_app_assoc a b c : a +:+ (b +:+ c) = (a +:+ b) +:+ c.
Proof. induction a as [|x a IH]; [done|]. unfold String.app in *; simpl. by rewrite IH. Qed.

Lemma split_once_Some p s l r : split_once p s = Some (l, r) -> s = l +:+ p +:+ r.
Proof.
  revert l. induction s as [|a s IH]; intros l; cbn [split_once].
  - destruct (strip_prefix p EmptyString) as [rest|] eqn:E; [|done].
    intros [= <- <-]. by apply strip_prefix_Some in E.
  - destruct (strip_prefix p (String a s)) as [rest|] eqn:E.
    + intros [= <- <-]. by apply strip_prefix_Some in E.
    + destruct (split_once p s) as [[l' r']|]; [|done].
      intros [= <- <-]. rewrite (IH l' eq_refl). done.
Qed.

Lemma contains_char_app c a b : contains_char c (a +:+ b) = contains_char c a || contains_char c b.
Proof. induction a as [|d a IH]; [done|]. rewrite str_app_cons /= IH. by rewrite orb_assoc. Qed.

Lemma split_once_char c s r :
  contains_char c s = false -> split_once (String c EmptyString) (s +:+ String c r) = Some (s, r).
Proof.
  induction s as [|d s IH]; intros Hs.
  - simpl. by rewrite Ascii.eqb_refl.
  - rewrite str_app_cons. simpl in *. apply orb_false_iff in Hs as [Hd Hs].
    rewrite Ascii.eqb_sym Hd IH //.
Qed.

(** A separator whose first character does not occur before it. *)
Lemma split_once_first c p s r : contains_char c s = false ->
  split_once (String c p) (s +:+ String c (p +:+ r)) = Some (s, r).
Proof.
  induction s as [|d s IH]; intros Hs.
  - change ("" +:+ String c (p +:+ r)) with (String c (p +:+ r)). simpl.
    by rewrite Ascii.eqb_refl (proj2 (strip_prefix_Some p _ r) eq_refl).
  - rewrite str_app_cons. simpl in *. apply orb_false_iff in Hs as [Hd Hs].
    rewrite Ascii.eqb_sym Hd IH //.
Qed.

Lemma split_once_no_char c s : contains_char c s = false -> split_once (String c EmptyString) s = None.
Proof.
  induction s as [|d s IH]; [done|]. simpl. intros [Hd Hs]%orb_false_iff.
  by rewrite Ascii.eqb_sym Hd IH.
Qed.

Lemma split_char_nonempty c s : split_char c s <> [].
Proof.
  destruct s as [|a s]; simpl; [done|].
  destruct (Ascii.eqb a c); [done|]. by destruct (split_char c s).
Qed.

(** Joining what was split gives the text back. *)
Lemma join_split_char c s : join_char c (split_char c s) = s.
Proof.
  induction s as [|a s IH]; [done|]; cbn [split_char].
  destruct (Ascii.eqb_spec a c) as [->|Hne].
  - destruct (split_char c s) as [|p ps] eqn:E; [by apply split_char_nonempty in E|].
    cbn [join_char]. cbn [join_char] in IH. by rewrite IH.
  - destruct (split_char c s) as [|p ps] eqn:E; [by apply split_char_nonempty in E|].
    destruct ps as [|q ps]; cbn [join_char] in *; by rewrite -IH.
Qed.

Lemma split_char_no_sep c s : Forall (fun p => contains_char c p = false) (split_char c s).
Proof.
  induction s as [|a s IH]; simpl; [by repeat constructor|].
  destruct (Ascii.eqb a c) eqn:E; [by constructor|].
  destruct (split_char c s) as [|p ps]; simpl.
  - repeat constructor. simpl. by rewrite E.
  - inversion_clear IH as [|?? Hp Hps]. constructor; [|done]. simpl. by rewrite E.
Qed.

Lemma split_char_app c p s :
  contains_char c p = false ->
  split_char c (p +:+ String c s) = p :: split_char c s.
Proof.
  induction p as [|a p IH]; intros H.
  - unfold String.app; simpl. by rewrite Ascii.eqb_refl.
  - simpl in H. apply orb_false_elim in H as [Ha Hp].
    unfold String.app in *; simpl. rewrite Ha. by rewrite (IH Hp).
Qed.

Lemma split_char_single c p :
  contains_char c p = false -> split_char c p = [p].
Proof.
  induction p as [|a p IH]; intros H; [done|].
  simpl in *. apply orb_false_elim in H as [Ha Hp]. rewrite Ha. by rewrite (IH Hp).
Qed.

(** Splitting a join of separator-free parts gives the parts back. *)
Lemma split_join_char c ps :
  ps <> [] -> Forall (fun p => contains_char c p = false) ps ->
  split_char c (join_char c ps) = ps.
Proof.
  induction ps as [|p ps IH]; [done|]. intros _ H.
  inversion_clear H as [|?? Hp Hps].
  destruct ps as [|q ps]; [by apply split_char_single|].
  rewrite (split_char_app c p (join_char c (q :: ps)) Hp). by rewrite IH.
Qed.

Lemma eq_ignore_ascii_case_refl s : eq_ignore_ascii_case s s = true.
Proof. by apply bool_decide_eq_true. Qed.

Lemma lower_byte_idem a : lower_byte (lower_byte a) = lower_byte a.
Proof. destruct a as [[] [] [] [] [] [] [] []]; reflexivity. Qed.

Lemma to_ascii_lowercase_idem s :
  to_ascii_lowercase (to_ascii_lowercase s) = to_ascii_lowercase s.
Proof.
  unfold to_ascii_lowercase.
  induction s as [|a s IH]; simpl; [done|]. by rewrite lower_byte_idem IH.
Qed.

Lemma string_compare_trans a b c :
  String.compare a b <> Gt -> String.compare b c <> Gt -> String.compare a c <> Gt.
Proof.
  intros H1 H2.
  assert (forall x y, String.compare x y <> Gt <-> String.le x y) as Hle.
  { intros x y. unfold String.le, String.leb. destruct (String.compare x y); naive_solver. }
  rewrite Hle. etrans; by apply Hle.
Qed.

Lemma all_bytes_app p a b : all_bytes p (a +:+ b) = all_bytes p a && all_bytes p b.
Proof. induction a as [|c a IH]; [done|]. rewrite str_app_cons /= IH. by rewrite andb_assoc. Qed.

Lemma all_bytes_impl (p q : Ascii.ascii -> bool) s :
  (forall c, p c = true -> q c = true) -> all_bytes p s = true -> all_bytes q s = true.
Proof.
  intros Hpq. induction s as [|c s IH]; simpl; [done|].
  rewrite !andb_true_iff. intros [Hc Hs]. by rewrite Hpq // IH.
Qed.

Lemma all_chars_complete c : c ∈ all_chars.
Proof.
  unfold all_chars. rewrite -(Ascii.ascii_N_embedding c) -/(byte _).
  apply list_elem_of_fmap_2. apply list_elem_of_fmap. exists (N.to_nat (Ascii.N_of_ascii c)).
  split; [lia|]. apply elem_of_seq. pose proof (Ascii.N_ascii_bounded c). lia.
Qed.

Lemma forall_chars (p : Ascii.ascii -> bool) : forallb p all_chars = true -> forall c, p c = true.
Proof.
  intros H c. rewrite forallb_forall in H. apply H, list_elem_of_In, all_chars_complete.
Qed.

Lemma rev_app_spec a : forall b, String.rev_app a b = String.rev a +:+ b.
Proof.
  induction a as [|c a IH]; intros b; [done|]. unfold String.rev. simpl.
  rewrite (IH (String c b)) (IH (String c "")) -str_app_assoc //.
Qed.

Lemma str_rev_app a b : String.rev (a +:+ b) = String.rev b +:+ String.rev a.
Proof.
  induction a as [|c a IH]; [by rewrite str_app_nil_r|]. rewrite str_app_cons. unfold String.rev. simpl.
  rewrite !rev_app_spec IH ?str_app_nil_r -str_app_assoc //.
Qed.

Lemma str_rev_involutive a : String.rev (String.rev a) = a.
Proof.
  induction a as [|c a IH]; [done|]. unfold String.rev at 2. simpl.
  rewrite rev_app_spec str_rev_app IH //.
Qed.

Lemma strip_suffix_Some p s r : strip_suffix p s = Some r <-> s = r +:+ p.
Proof.
  unfold strip_suffix. split.
  - destruct (strip_prefix _ _) as [t|] eqn:E; [|done]. intros [= <-].
    apply strip_prefix_Some in E. by rewrite -(str_rev_involutive s) E str_rev_app str_rev_involutive.
  - intros ->. rewrite str_rev_app (proj2 (strip_prefix_Some _ _ (String.rev r)) eq_refl) /=.
    by rewrite str_rev_involutive.
Qed.

(** ** Searching and trimming *)

(** The first occurrence is the one with the shortest text before it. *)
Lemma split_once_shortest p s l r a b :
  split_once p s = Some (l, r) -> s = a +:+ p +:+ b -> (String.length l <= String.length a)%nat.
Proof.
  revert l a. induction s as [|c s IH]; intros l a H E.
  - destruct p; [|done]. injection H as <- <-. simpl. lia.
  - cbn [split_once] in H. destruct (strip_prefix p (String c s)) as [r'|] eqn:Ep; [injection H as <- <-; simpl; lia|].
    destruct (split_once p s) as [[l' r']|] eqn:Es; [|done]. injection H as <- <-.
    destruct a as [|c' a].
    + rewrite (proj2 (strip_prefix_Some p _ b) E) in Ep. done.
    + injection E as _ E. simpl. pose proof (IH _ _ eq_refl E). lia.
Qed.

Lemma split_once_None p s a b : split_once p s = None -> s <> a +:+ p +:+ b.
Proof.
  revert a. induction s as [|c s IH]; intros a H E.
  - destruct a, p; done.
  - cbn [split_once] in H. destruct (strip_prefix p (String c s)) as [r'|] eqn:Ep; [done|].
    destruct (split_once p s) as [[l' r']|] eqn:Es; [done|]. destruct a as [|c' a].
    + by rewrite (proj2 (strip_prefix_Some p _ b) E) in Ep.
    + injection E as _ E. by apply (IH _ eq_refl E).
Qed.

Lemma take_bytes_app a b : take_bytes (String.length a) (a +:+ b) = a.
Proof. induction a as [|c a IH]; simpl; [by destruct b|by rewrite IH]. Qed.

Lemma strip_any_Some ws s r : strip_any ws s = Some r -> exists w, w ∈ ws /\ s = w +:+ r.
Proof.
  induction ws as [|w ws IH]; [done|]. simpl. destruct (strip_prefix w s) as [r'|] eqn:E.
  - intros [= ->]. exists w. split; [left|by apply strip_prefix_Some].
  - intros (w' & ? & ?)%IH. exists w'. split; [by right|done].
Qed.

Lemma strip_any_None ws w r : w ∈ ws -> strip_any ws (w +:+ r) <> None.
Proof.
  induction ws as [|w' ws IH]; intros Hw; [by apply not_elem_of_nil in Hw|]. simpl.
  destruct (strip_prefix w' (w +:+ r)) eqn:E; [done|].
  apply elem_of_cons in Hw as [->|Hw]; [|by apply IH].
  by rewrite (proj2 (strip_prefix_Some w' _ r) eq_refl) in E.
Qed.

(** A text that begins with no white space. *)
Definition no_leading (s : string) : Prop := strip_any white_space s = None.

Lemma no_leading_prefix a b : no_leading (a +:+ b) -> no_leading a.
Proof.
  unfold no_leading. intros H. destruct (strip_any white_space a) as [r|] eqn:E; [|done].
  apply strip_any_Some in E as (w & Hw & ->). rewrite -str_app_assoc in H. by apply strip_any_None in H.
Qed.

Lemma trim_with_suffix ws fuel s : exists w, s = w +:+ trim_with ws fuel s.
Proof.
  revert s. induction fuel as [|fuel IH]; intros s; [by exists ""|]. cbn [trim_with].
  destruct (strip_any ws s) as [r|] eqn:E; [|by exists ""].
  apply strip_any_Some in E as (w & _ & ->). destruct (IH r) as [w' E]. exists (w +:+ w').
  by rewrite -str_app_assoc -E.
Qed.

Lemma trim_end_prefix s : exists w, s = trim_end s +:+ w.
Proof.
  unfold trim_end. destruct (trim_with_suffix (map String.rev white_space) (String.length s) (String.rev s)) as [w E].
  exists (String.rev w). by rewrite -str_rev_app -E str_rev_involutive.
Qed.

Lemma white_space_pos w : w ∈ white_space -> (0 < String.length w)%nat.
Proof. revert w. apply Forall_forall. repeat (constructor; [vm_compute; lia|]). constructor. Qed.

Lemma trim_with_done fuel s : (String.length s <= fuel)%nat -> no_leading (trim_with white_space fuel s).
Proof.
  revert s. induction fuel as [|fuel IH]; intros s Hf.
  { destruct s; [vm_compute; reflexivity|simpl in Hf; lia]. }
  cbn [trim_with]. destruct (strip_any white_space s) as [r|] eqn:E; [|exact E]. apply IH.
  apply strip_any_Some in E as (w & Hw%white_space_pos & ->). rewrite str_length_app in Hf. lia.
Qed.

Lemma trim_no_leading s : no_leading (trim s).
Proof.
  unfold trim. destruct (trim_end_prefix (trim_start s)) as [w E]. apply (no_leading_prefix _ w).
  rewrite -E. by apply trim_with_done.
Qed.

(** Only white space is trimmed away to nothing. *)
Lemma trim_end_not_empty s : s <> "" -> no_leading s -> trim_end s <> "".
Proof.
  intros Hs Hn E. unfold trim_end in E. apply (f_equal String.rev) in E. rewrite str_rev_involutive in E.
  assert (forall fuel t, t <> "" -> trim_with (map String.rev white_space) fuel t = "" ->
    strip_any white_space (String.rev t) <> None) as H.
  { clear. induction fuel as [|fuel IH]; intros t Ht E; [done|]. cbn [trim_with] in E.
    destruct (strip_any _ t) as [r|] eqn:Er; [|done].
    apply strip_any_Some in Er as (w & (w' & -> & Hw)%list_elem_of_fmap & ->).
    rewrite str_rev_app str_rev_involutive. destruct (decide (r = "")) as [->|Hr].
    - change (String.rev "" +:+ w') with w'. rewrite -(str_app_nil_r w'). by apply strip_any_None.
    - specialize (IH r Hr E). intros Hnone. by apply IH, (no_leading_prefix _ w'). }
  apply (H _ _ (fun E' => Hs (eq_trans (eq_sym (str_rev_involutive s)) (f_equal String.rev E'))) E).
  by rewrite str_rev_involutive.
Qed.

Lemma split_ws_run fuel : forall cur s, cur <> "" -> split_ws fuel cur s <> [].
Proof.
  induction fuel as [|fuel IH]; intros cur s Hc; cbn [split_ws].
  - by destruct cur.
  - destruct (strip_any white_space s); [by destruct cur|]. destruct s; [by destruct cur|by apply IH].
Qed.

Lemma split_whitespace_not_nil s : s <> "" -> no_leading s -> split_whitespace s <> [].
Proof.
  intros Hs Hn. unfold split_whitespace. cbn [split_ws]. rewrite Hn.
  destruct s as [|c s]; [done|]. by apply split_ws_run.
Qed.

Lemma str_app_inj_length a b a' b' :
  a +:+ b = a' +:+ b' -> String.length a = String.length a' -> a = a'.
Proof. intros E L. rewrite -(take_bytes_app a b) E L. apply take_bytes_app. Qed.
