(* ===== verification/Pagination.v ===== *)
(** * Page links ([github/pagination.rs], [github/client.rs])

    The interpretation of the [Link] header: which page follows, or that the
    header cannot be interpreted and the enumeration cannot be called complete;
    and the admission of a link to the client's own origin.  Slices of a string
    are its suffixes; parsing a URL is a parameter. *)

From S2P Require Import Prelude Str.

(** ** Characters *)

Definition quote_char : Ascii.ascii := byte 34.
Definition backslash_char : Ascii.ascii := byte 92.

Definition is_blank (c : Ascii.ascii) : bool := Ascii.eqb c " " || Ascii.eqb c (byte 9).
Definition is_blank_or_comma (c : Ascii.ascii) : bool := is_blank c || Ascii.eqb c ",".

(** [trim_start_matches], [trim_end_matches]. *)
Fixpoint trim_start_matches (p : Ascii.ascii -> bool) (s : string) : string :=
  match s with
  | EmptyString => EmptyString
  | String c s' => if p c then trim_start_matches p s' else s
  end.

Fixpoint trim_end_matches (p : Ascii.ascii -> bool) (s : string) : string :=
  match s with
  | EmptyString => EmptyString
  | String c s =>
    let r := trim_end_matches p s in
    if is_empty r && p c then EmptyString else String c r
  end.

Definition is_token_byte (c : Ascii.ascii) : bool :=
  is_alphanumeric c || contains_char c "!#$%&'*+-.^_`|~".

Definition is_token (text : string) : bool := negb (is_empty text) && all_bytes is_token_byte text.

(** ** Scanning *)

Inductive NextLink := NL_None | NL_One (url : string) | NL_Uninterpretable.

(** [skip_whitespace]. *)
Definition skip_whitespace : string -> string := trim_start_matches is_blank.

(** [scan_quoted], after the opening quote: what is quoted, and what follows
    the closing quote. *)
Fixpoint scan_quoted (s : string) : option (string * string) :=
  match s with
  | EmptyString => None
  | String c s' =>
    if Ascii.eqb c backslash_char then
      match s' with
      | EmptyString => None
      | String d s'' =>
        match scan_quoted s'' with
        | Some (q, r) => Some (String c (String d q), r)
        | None => None
        end
      end
    else if Ascii.eqb c quote_char then Some (EmptyString, s')
    else
      match scan_quoted s' with
      | Some (q, r) => Some (String c q, r)
      | None => None
      end
  end.

(** The loop of [scan_one_parameter]: the text up to a separator outside quotes. *)
Fixpoint scan_value (fuel : nat) (s : string) : option (string * string) :=
  match fuel with
  | O => Some (EmptyString, s)
  | S fuel =>
    match s with
    | EmptyString => Some (EmptyString, EmptyString)
    | String c s' =>
      if Ascii.eqb c ";" || Ascii.eqb c "," then Some (EmptyString, s)
      else if Ascii.eqb c quote_char then
        match scan_quoted s' with
        | None => None
        | Some (q, r) =>
          match scan_value fuel r with
          | Some (v, r') => Some (String c (q +:+ String c v), r')
          | None => None
          end
        end
      else
        match scan_value fuel s' with
        | Some (v, r) => Some (String c v, r)
        | None => None
        end
    end
  end.

Definition scan_one_parameter (input : string) : option (string * string) :=
  let input := skip_whitespace input in
  match scan_value (String.length input) input with
  | Some (v, r) => Some (trim_end_matches is_blank v, r)
  | None => None
  end.

Fixpoint scan_params (fuel : nat) (s : string) : option (list string * string) :=
  match fuel with
  | O => None
  | S fuel =>
    match s with
    | EmptyString => Some ([], EmptyString)
    | String c s' =>
      if Ascii.eqb c "," then Some ([], s)
      else if Ascii.eqb c ";" then
        match scan_one_parameter s' with
        | None => None
        | Some (param, next) =>
          match scan_params fuel next with
          | Some (params, r) => Some (param :: params, r)
          | None => None
          end
        end
      else None
    end
  end.

Definition scan_parameters (input : string) : option (list string * string) :=
  let s := skip_whitespace input in scan_params (S (String.length s)) s.

Definition relation_types (value : string) : option (list string) :=
  let types := split_whitespace value in
  match types with
  | [] => None
  | _ => if forallb is_token types then Some types else None
  end.

Definition parameter_value (value : string) : option string :=
  match value with
  | String c rest =>
    if Ascii.eqb c quote_char then
      match scan_quoted rest with
      | Some (q, EmptyString) => Some q
      | _ => None
      end
    else if is_token value then Some value else None
  | EmptyString => None
  end.

(** The loop of [parameters_name_next]. *)
Fixpoint find_relations (relations : option (list string)) (params : list string)
    : option (option (list string)) :=
  match params with
  | [] => Some relations
  | param :: params =>
    match split_once "=" param with
    | None => None
    | Some (name, value) =>
      let name := trim_end_matches is_blank name in
      if negb (is_token name) then None
      else
        match parameter_value (trim_start_matches is_blank value) with
        | None => None
        | Some value =>
          if eq_ignore_ascii_case name "rel" then
            match relations with
            | Some _ => None
            | None =>
              match relation_types value with
              | None => None
              | Some types => find_relations (Some types) params
              end
            end
          else find_relations relations params
        end
    end
  end.

Definition names_next (relations : list string) : bool :=
  existsb (fun rel => eq_ignore_ascii_case rel "next") relations.

Definition parameters_name_next (params : list string) : option bool :=
  match find_relations None params with
  | None => None
  | Some None => Some false
  | Some (Some relations) => Some (names_next relations)
  end.

(** [collect_next_targets]: the targets of one field. *)
Fixpoint collect_next_targets (fuel : nat) (remaining : string) : option (list string) :=
  match fuel with
  | O => None
  | S fuel =>
    match trim_start_matches is_blank_or_comma remaining with
    | EmptyString => Some []
    | String c head =>
      if negb (Ascii.eqb c "<") then None
      else
        match split_once ">" head with
        | None => None
        | Some (url, after) =>
          match scan_parameters after with
          | None => None
          | Some (params, rest) =>
            match parameters_name_next params with
            | None => None
            | Some next =>
              match collect_next_targets fuel rest with
              | None => None
              | Some targets => Some (if next then url :: targets else targets)
              end
            end
          end
        end
    end
  end.

Definition field_targets (field : string) : option (list string) :=
  collect_next_targets (S (String.length field)) field.

(** The fields, each [None] when it is not visible text. *)
Fixpoint all_targets (fields : list (option string)) : option (list string) :=
  match fields with
  | [] => Some []
  | None :: _ => None
  | Some text :: fields =>
    match field_targets text with
    | None => None
    | Some targets =>
      match all_targets fields with
      | None => None
      | Some more => Some (targets ++ more)
      end
    end
  end.

Definition next_link (fields : list (option string)) : NextLink :=
  match all_targets fields with
  | None => NL_Uninterpretable
  | Some targets =>
    match dedup targets with
    | [] => NL_None
    | [url] => NL_One url
    | _ => NL_Uninterpretable
    end
  end.

Definition next_url (fields : list (option string)) : option string :=
  match next_link fields with NL_One url => Some url | NL_None | NL_Uninterpretable => None end.

(** ** Origins *)

(** [same_origin::extract_origin], on strings. *)
Definition extract_origin_text (url : string) : option string :=
  match split_once "://" url with
  | None => None
  | Some (scheme, after_scheme) =>
    Some (scheme +:+ "://" +:+
      match split_once "/" after_scheme with Some (host, _) => host | None => after_scheme end)
  end.

Definition same_origin_text (a b : string) : bool :=
  match extract_origin_text a, extract_origin_text b with
  | Some oa, Some ob => eq_ignore_ascii_case oa ob
  | _, _ => false
  end.

Definition next_url_same_origin (fields : list (option string)) (original_url : string)
    : option string :=
  match next_url fields with
  | Some candidate => if same_origin_text candidate original_url then Some candidate else None
  | None => None
  end.

Section Origin.
  (** [Url::parse]: the scheme, the host and the explicit port. *)
  Context (parse_url : string -> option (string * option string * option N)).

(** [client::extract_origin]. *)
Definition extract_origin (url_str : string) : option string :=
  match parse_url url_str with
  | Some (scheme, Some host, Some port) => Some (scheme +:+ "://" +:+ host +:+ ":" +:+ pretty port)
  | Some (scheme, Some host, None) => Some (scheme +:+ "://" +:+ host)
  | Some (_, None, _) | None => None
  end.

Definition is_same_origin (url_str trusted_origin : string) : bool :=
  match extract_origin url_str with
  | Some origin => String.eqb origin trusted_origin
  | None => false
  end.

Inductive Continuation := Exhausted | Follow (url : string) | Refused | Uninterpretable.

Definition trusted_continuation (fields : list (option string)) (trusted_origin : string)
    : Continuation :=
  match next_link fields with
  | NL_None => Exhausted
  | NL_Uninterpretable => Uninterpretable
  | NL_One url => if is_same_origin url trusted_origin then Follow url else Refused
  end.
End Origin.

(** ** Printed fields *)

(** A link value: its target and its parameters, quoted or not. *)
Record LinkParam := mkLinkParam { lp_name : string; lp_value : string; lp_quoted : bool }.
Record LinkValue := mkLinkValue { lv_url : string; lv_params : list LinkParam }.

Definition quoted (s : string) : string :=
  String quote_char (s +:+ String quote_char EmptyString).

Definition print_value (p : LinkParam) : string :=
  if lp_quoted p then quoted (lp_value p) else lp_value p.
Definition print_param (p : LinkParam) : string := lp_name p +:+ "=" +:+ print_value p.
Fixpoint print_params (ps : list LinkParam) : string :=
  match ps with [] => EmptyString | p :: ps => "; " +:+ print_param p +:+ print_params ps end.
Definition print_link (l : LinkValue) : string :=
  "<" +:+ lv_url l +:+ ">" +:+ print_params (lv_params l).
(** Links separated by a comma and a space. *)
Fixpoint print_field (ls : list LinkValue) : string :=
  match ls with
  | [] => EmptyString
  | [l] => print_link l
  | l :: ls => print_link l +:+ ", " +:+ print_field ls
  end.

Definition plain_byte (c : Ascii.ascii) : bool :=
  negb (Ascii.eqb c quote_char) && negb (Ascii.eqb c backslash_char).

(** What the grammar asks of a parameter and of a link. *)
Definition param_wf (p : LinkParam) : bool :=
  is_token (lp_name p)
  && (if lp_quoted p then all_bytes plain_byte (lp_value p) else is_token (lp_value p)).
Definition link_wf (l : LinkValue) : bool :=
  negb (contains_char ">" (lv_url l)) && forallb param_wf (lv_params l).

(** What a link says: its target when its one [rel] names [next]; [None] when
    it has two [rel]s or one that is no list of relation types. *)
Definition rel_params (l : LinkValue) : list LinkParam :=
  List.filter (fun p => eq_ignore_ascii_case (lp_name p) "rel") (lv_params l).
Definition link_target (l : LinkValue) : option (list string) :=
  match rel_params l with
  | [] => Some []
  | [p] =>
    match relation_types (lp_value p) with
    | None => None
    | Some types => Some (if names_next types then [lv_url l] else [])
    end
  | _ => None
  end.
Fixpoint link_targets (ls : list LinkValue) : option (list string) :=
  match ls with
  | [] => Some []
  | l :: ls =>
    match link_target l, link_targets ls with
    | Some t, Some ts => Some (t ++ ts)
    | _, _ => None
    end
  end.

(** ** Lemmas *)

(** A token has no separator, no quote, no blank and no equals sign. *)
Lemma token_byte_plain c :
  is_token_byte c = true ->
  Ascii.eqb c ";" = false /\ Ascii.eqb c "," = false /\ Ascii.eqb c quote_char = false /\
  is_blank c = false /\ Ascii.eqb c "=" = false /\ Ascii.eqb c backslash_char = false.
Proof. by destruct c as [[] [] [] [] [] [] [] []]; vm_compute. Qed.

Lemma is_token_all s : is_token s = true -> all_bytes is_token_byte s = true /\ is_empty s = false.
Proof. unfold is_token. rewrite andb_true_iff negb_true_iff. tauto. Qed.

Lemma trim_start_token s r : is_token s = true -> trim_start_matches is_blank (s +:+ r) = s +:+ r.
Proof.
  intros [Hs Hn]%is_token_all. destruct s as [|c s]; [done|]. rewrite str_app_cons; simpl in *.
  apply andb_true_iff in Hs as [Hc _].
  destruct (token_byte_plain c Hc) as (_ & _ & _ & Hb & _). by rewrite Hb.
Qed.

Lemma trim_end_token s : is_token s = true -> trim_end_matches is_blank s = s.
Proof.
  intros [Hs _]%is_token_all. induction s as [|c s IH]; [done|]. simpl in *.
  apply andb_true_iff in Hs as [Hc Hs]. rewrite IH //.
  destruct (token_byte_plain c Hc) as (_ & _ & _ & Hb & _). by rewrite Hb andb_false_r.
Qed.

(** Appending to a text whose end survives trimming. *)
Lemma trim_end_app p s t :
  is_empty (trim_end_matches p t) = false ->
  trim_end_matches p (s +:+ t) = s +:+ trim_end_matches p t.
Proof.
  intros Ht. induction s as [|c s IH]; [done|]. rewrite !str_app_cons; simpl. rewrite IH.
  destruct s; simpl; [|done]. change ("" +:+ trim_end_matches p t) with (trim_end_matches p t).
  by rewrite Ht.
Qed.

Lemma scan_quoted_app s r : all_bytes plain_byte s = true ->
  scan_quoted (s +:+ String quote_char r) = Some (s, r).
Proof.
  induction s as [|c s IH]; [done|]. rewrite str_app_cons; simpl.
  unfold plain_byte at 1. rewrite !andb_true_iff !negb_true_iff. intros [[Hq Hb] Hs].
  by rewrite Hb Hq IH.
Qed.

Lemma scan_quoted_length n : forall s q r, (String.length s <= n)%nat ->
  scan_quoted s = Some (q, r) -> (String.length r <= String.length s)%nat.
Proof.
  induction n as [|n IH]; intros [|d s] q r Hl; simpl in *; try done; [lia|].
  destruct (Ascii.eqb d backslash_char).
  - destruct s as [|e s]; [done|]. simpl in Hl.
    destruct (scan_quoted s) as [[q' r']|] eqn:E; [|done]. intros [= <- <-].
    specialize (IH s _ _ ltac:(lia) E). simpl. lia.
  - destruct (Ascii.eqb d quote_char); [intros [= <- <-]; lia|].
    destruct (scan_quoted s) as [[q' r']|] eqn:E; [|done]. intros [= <- <-].
    specialize (IH s _ _ ltac:(lia) E). lia.
Qed.

(** Fuel beyond the end of the text changes nothing. *)
Lemma scan_value_mono fuel : forall fuel' s x,
  scan_value fuel s = Some x -> (String.length s <= fuel)%nat -> (fuel <= fuel')%nat ->
  scan_value fuel' s = Some x.
Proof.
  induction fuel as [|fuel IH]; intros fuel' s x Hx Hs Hf.
  - destruct s; [|simpl in Hs; lia]. injection Hx as <-. by destruct fuel'.
  - destruct fuel' as [|fuel']; [lia|]. destruct s as [|c s]; [done|]. simpl in *.
    destruct (Ascii.eqb c ";" || Ascii.eqb c ","); [done|].
    destruct (Ascii.eqb c quote_char).
    + destruct (scan_quoted s) as [[q r]|] eqn:E; [|done].
      pose proof (scan_quoted_length _ _ _ _ (le_n _) E) as Hq.
      destruct (scan_value fuel r) as [[v r']|] eqn:E2; [|done].
      by rewrite (IH fuel' _ _ E2 ltac:(lia) ltac:(lia)).
    + destruct (scan_value fuel s) as [[v r']|] eqn:E2; [|done].
      by rewrite (IH fuel' _ _ E2 ltac:(lia) ltac:(lia)).
Qed.

(** What ends a parameter: nothing, or a separator. *)
Definition ends_param (r : string) : bool :=
  match r with EmptyString => true | String c _ => Ascii.eqb c ";" || Ascii.eqb c "," end.

Lemma scan_value_end fuel r : ends_param r = true -> scan_value fuel r = Some (EmptyString, r).
Proof. destruct fuel, r as [|c r]; simpl; [done..|]. by intros ->. Qed.

Lemma scan_value_token fuel s r v r' :
  all_bytes (fun c => is_token_byte c || Ascii.eqb c "=") s = true ->
  scan_value fuel r = Some (v, r') ->
  scan_value (String.length s + fuel) (s +:+ r) = Some (s +:+ v, r').
Proof.
  intros Hs Hr. induction s as [|c s IH]; [done|]. rewrite !str_app_cons. simpl in *.
  apply andb_true_iff in Hs as [Hc Hs].
  assert (Hp : Ascii.eqb c ";" = false /\ Ascii.eqb c "," = false /\ Ascii.eqb c quote_char = false).
  { apply orb_true_iff in Hc as [Hc|Hc].
    - by destruct (token_byte_plain c Hc) as (? & ? & ? & _).
    - by apply Ascii.eqb_eq in Hc as ->. }
  destruct Hp as (H1 & H2 & H3). rewrite H1 H2 H3 /=. by rewrite IH.
Qed.

Lemma skip_blank_token s r :
  is_token s = true -> skip_whitespace (" " +:+ s +:+ r) = s +:+ r.
Proof. intros Hs. change (skip_whitespace (s +:+ r) = s +:+ r). by apply trim_start_token. Qed.

Lemma is_token_eq s : is_token s = true ->
  all_bytes (fun c => is_token_byte c || Ascii.eqb c "=") s = true.
Proof.
  intros [Hs _]%is_token_all. revert Hs. apply all_bytes_impl. by intros c ->.
Qed.

(** A printed parameter is scanned whole. *)
Lemma scan_print_param p r :
  param_wf p = true -> ends_param r = true ->
  scan_one_parameter (" " +:+ print_param p +:+ r) = Some (print_param p, r).
Proof.
  unfold param_wf. rewrite andb_true_iff. intros [Hn Hv] Hr.
  unfold scan_one_parameter, print_param.
  replace (" " +:+ (lp_name p +:+ "=" +:+ print_value p) +:+ r)
    with (" " +:+ lp_name p +:+ ("=" +:+ print_value p) +:+ r) by by rewrite !str_app_assoc.
  rewrite skip_blank_token //.
  assert (Hn' : all_bytes (fun c => is_token_byte c || Ascii.eqb c "=") (lp_name p +:+ "=") = true)
    by (rewrite all_bytes_app is_token_eq //).
  replace (lp_name p +:+ ("=" +:+ print_value p) +:+ r)
    with ((lp_name p +:+ "=") +:+ print_value p +:+ r) by by rewrite !str_app_assoc.
  rewrite str_length_app.
  erewrite scan_value_token with (v := print_value p) (r' := r); [|done|].
  - rewrite -str_app_assoc trim_end_app.
    + rewrite (trim_end_app _ "=") //. all: unfold print_value; destruct (lp_quoted p).
      * rewrite /quoted -str_app_cons trim_end_app //.
      * by rewrite trim_end_token.
      * rewrite /quoted -str_app_cons trim_end_app //.
      * rewrite trim_end_token //. by apply is_token_all in Hv as [_ ->].
    + rewrite trim_end_app //. unfold print_value; destruct (lp_quoted p).
      * rewrite /quoted -str_app_cons trim_end_app //.
      * rewrite trim_end_token //. by apply is_token_all in Hv as [_ ->].
  - unfold print_value. destruct (lp_quoted p).
    + unfold quoted. rewrite str_app_cons -str_app_assoc.
      change (String quote_char "" +:+ r) with (String quote_char r). simpl.
      by rewrite scan_quoted_app // scan_value_end.
    + rewrite str_length_app. erewrite scan_value_token; [|by apply is_token_eq|by apply scan_value_end].
      by rewrite str_app_nil_r.
Qed.

Lemma print_params_ends ps r : ends_param r = true -> ends_param (print_params ps +:+ r) = true.
Proof. destruct ps; [done|]. done. Qed.

Lemma print_params_length ps : (length ps <= String.length (print_params ps))%nat.
Proof.
  induction ps as [|p ps IH]; simpl; [lia|].
  rewrite !str_length_app /=. lia.
Qed.

(** Printed parameters, up to a comma or the end. *)
Lemma scan_print_params ps : forall fuel r,
  forallb param_wf ps = true ->
  match r with EmptyString => true | String c _ => Ascii.eqb c "," end = true ->
  (length ps < fuel)%nat ->
  scan_params fuel (print_params ps +:+ r) = Some (map print_param ps, r).
Proof.
  induction ps as [|p ps IH]; intros [|fuel] r Hps Hr Hf; try (simpl in Hf; lia).
  - change (print_params [] +:+ r) with r. destruct r as [|c r]; [done|]. cbn [scan_params].
    by rewrite Hr.
  - simpl in Hps, Hf. apply andb_true_iff in Hps as [Hp Hps].
    change (print_params (p :: ps) +:+ r)
      with (String ";" ((" " +:+ print_param p +:+ print_params ps) +:+ r)).
    cbn [scan_params Ascii.eqb Bool.eqb].
    replace ((" " +:+ print_param p +:+ print_params ps) +:+ r)
      with (" " +:+ print_param p +:+ (print_params ps +:+ r)) by by rewrite !str_app_assoc.
    rewrite scan_print_param //; [|apply print_params_ends; by destruct r as [|c r]; [|rewrite /= Hr orb_true_r]].
    by rewrite IH //; lia.
Qed.

Lemma contains_char_bytes (p : Ascii.ascii -> bool) c s :
  p c = false -> all_bytes p s = true -> contains_char c s = false.
Proof.
  intros Hc. induction s as [|d s IH]; simpl; [done|].
  rewrite andb_true_iff. intros [Hd Hs]. rewrite IH // orb_false_r.
  destruct (Ascii.eqb_spec d c); [congruence|done].
Qed.

Lemma parameter_value_print p :
  param_wf p = true -> parameter_value (trim_start_matches is_blank (print_value p)) = Some (lp_value p).
Proof.
  unfold param_wf, print_value. rewrite andb_true_iff. intros [_ Hv]. destruct (lp_quoted p).
  - unfold quoted. simpl. by rewrite scan_quoted_app.
  - rewrite -(str_app_nil_r (lp_value p)) trim_start_token // str_app_nil_r.
    pose proof Hv as [Ha He]%is_token_all. destruct (lp_value p) as [|c s] eqn:E; [done|].
    simpl in *. apply andb_true_iff in Ha as [Hc _].
    destruct (token_byte_plain c Hc) as (_ & _ & Hq & _). by rewrite Hq Hv.
Qed.

(** The relations of printed parameters. *)
Definition expect_relations (relations : option (list string)) (rels : list LinkParam)
    : option (option (list string)) :=
  match relations, rels with
  | _, [] => Some relations
  | None, [p] => option_map Some (relation_types (lp_value p))
  | _, _ => None
  end.

Lemma find_relations_print ps : forall relations,
  forallb param_wf ps = true ->
  find_relations relations (map print_param ps) =
  expect_relations relations
    (List.filter (fun p => eq_ignore_ascii_case (lp_name p) "rel") ps).
Proof.
  induction ps as [|p ps IH]; intros relations; [by destruct relations|].
  cbn [forallb]. rewrite andb_true_iff. intros [Hp Hps].
  pose proof Hp as [Hn _]%andb_true_iff. cbn [map find_relations List.filter].
  unfold print_param. rewrite split_once_char.
  2: { eapply contains_char_bytes; [|apply (proj1 (is_token_all _ Hn))]. done. }
  rewrite trim_end_token // Hn parameter_value_print //; simpl.
  destruct (eq_ignore_ascii_case (lp_name p) "rel"); [|by apply IH].
  destruct relations as [t|]; simpl.
  - done.
  - destruct (relation_types (lp_value p)) as [types|] eqn:Et.
    + rewrite IH //; destruct (List.filter _ ps); simpl; by rewrite ?Et.
    + destruct (List.filter _ ps); simpl; by rewrite ?Et.
Qed.

Lemma parameters_name_next_print l :
  forallb param_wf (lv_params l) = true ->
  link_target l =
  match parameters_name_next (map print_param (lv_params l)) with
  | None => None
  | Some next => Some (if next then [lv_url l] else [])
  end.
Proof.
  intros Hps. unfold link_target, parameters_name_next, rel_params.
  rewrite find_relations_print //.
  destruct (List.filter _ _) as [|p [|q ps]]; simpl; [done| |done].
  by destruct (relation_types _).
Qed.

(** A link, then a separator or the end. *)
Lemma collect_print_link fuel l r :
  link_wf l = true ->
  match r with EmptyString => true | String c _ => Ascii.eqb c "," end = true ->
  collect_next_targets (S fuel) (print_link l +:+ r) =
  match link_target l, collect_next_targets fuel r with
  | Some t, Some ts => Some (t ++ ts)
  | _, _ => None
  end.
Proof.
  unfold link_wf. rewrite andb_true_iff negb_true_iff. intros [Hu Hps] Hr.
  unfold print_link.
  replace (("<" +:+ lv_url l +:+ ">" +:+ print_params (lv_params l)) +:+ r)
    with (String "<" (lv_url l +:+ String ">" (print_params (lv_params l) +:+ r)))
    by (rewrite -!str_app_assoc; done).
  cbn [collect_next_targets].
  change (trim_start_matches is_blank_or_comma (String "<" ?x)) with (String "<" x).
  cbn [negb Ascii.eqb Bool.eqb]. rewrite split_once_char //.
  assert (Hscan : scan_parameters (print_params (lv_params l) +:+ r) =
    Some (map print_param (lv_params l), r)).
  { unfold scan_parameters.
    assert (skip_whitespace (print_params (lv_params l) +:+ r) = print_params (lv_params l) +:+ r)
      as ->.
    { destruct (lv_params l); [|done]. change (print_params [] +:+ r) with r.
      destruct r as [|c r]; [done|]. by apply Ascii.eqb_eq in Hr as ->. }
    apply scan_print_params; [done..|]. rewrite str_length_app.
    pose proof (print_params_length (lv_params l)). lia. }
  rewrite Hscan parameters_name_next_print //.
  destruct (parameters_name_next _) as [[]|]; [..|done]; by destruct (collect_next_targets _ _).
Qed.

Lemma collect_next_targets_comma fuel s :
  collect_next_targets fuel (", " +:+ s) = collect_next_targets fuel s.
Proof. by destruct fuel. Qed.

Lemma print_field_length ls : (length ls <= String.length (print_field ls))%nat.
Proof.
  induction ls as [|l ls IH]; [simpl; lia|]. destruct ls as [|l' ls].
  - simpl. unfold print_link. simpl. lia.
  - change (print_field (l :: l' :: ls)) with (print_link l +:+ ", " +:+ print_field (l' :: ls)).
    rewrite !str_length_app. cbn [length] in *. unfold print_link. simpl. simpl in IH. lia.
Qed.

Lemma collect_print_field ls : forall fuel,
  forallb link_wf ls = true -> (length ls < fuel)%nat ->
  collect_next_targets fuel (print_field ls) = link_targets ls.
Proof.
  induction ls as [|l ls IH]; intros [|fuel] Hls Hf; try (simpl in Hf; lia); [done|].
  cbn [forallb] in Hls. apply andb_true_iff in Hls as [Hl Hls]. cbn [length] in Hf.
  destruct ls as [|l' ls].
  - change (print_field [l]) with (print_link l). rewrite -(str_app_nil_r (print_link l)).
    rewrite collect_print_link //. destruct fuel; [simpl in Hf; lia|]. simpl.
    destruct (link_target l); [|done]. by rewrite app_nil_r.
  - change (print_field (l :: l' :: ls)) with (print_link l +:+ ", " +:+ print_field (l' :: ls)).
    rewrite collect_print_link // collect_next_targets_comma IH //. lia.
Qed.

Lemma field_targets_print ls :
  forallb link_wf ls = true -> field_targets (print_field ls) = link_targets ls.
Proof.
  intros Hls. apply collect_print_field; [done|]. pose proof (print_field_length ls). lia.
Qed.

Lemma link_targets_app a b :
  link_targets (a ++ b) =
  match link_targets a, link_targets b with
  | Some ta, Some tb => Some (ta ++ tb)
  | _, _ => None
  end.
Proof.
  induction a as [|l a IH]; simpl; [by destruct (link_targets b)|]. rewrite IH.
  destruct (link_target l), (link_targets a), (link_targets b); simpl; try done.
  by rewrite app_assoc.
Qed.

Lemma all_targets_print fields :
  forallb (forallb link_wf) fields = true ->
  all_targets (map (fun f => Some (print_field f)) fields) = link_targets (concat fields).
Proof.
  induction fields as [|f fields IH]; simpl; [done|]. rewrite andb_true_iff. intros [Hf Hfs].
  rewrite field_targets_print // IH // link_targets_app.
  destruct (link_targets f); [|done]. by destruct (link_targets _).
Qed.

(** ** Every scan returns a suffix, so fuel as long as the text is enough *)

Definition suffix_of (r s : string) : Prop := exists l, s = l +:+ r.

Lemma suffix_of_refl s : suffix_of s s.
Proof. by exists "". Qed.
Lemma suffix_of_trans a b c : suffix_of a b -> suffix_of b c -> suffix_of a c.
Proof. intros [l ->] [l' ->]. exists (l' +:+ l). by rewrite str_app_assoc. Qed.
Lemma suffix_of_cons c r s : suffix_of r s -> suffix_of r (String c s).
Proof. intros [l ->]. by exists (String c l). Qed.
Lemma suffix_of_app l r s : suffix_of r s -> suffix_of r (l +:+ s).
Proof. intros [l' ->]. exists (l +:+ l'). by rewrite str_app_assoc. Qed.
Lemma suffix_of_length r s : suffix_of r s -> (String.length r <= String.length s)%nat.
Proof. intros [l ->]. rewrite str_length_app. lia. Qed.
#[local] Hint Resolve suffix_of_refl suffix_of_cons : suffix.

Lemma trim_start_suffix p s : suffix_of (trim_start_matches p s) s.
Proof. induction s as [|c s IH]; simpl; [eauto with suffix|]. destruct (p c); eauto with suffix. Qed.

Lemma scan_quoted_suffix n : forall s q r, (String.length s <= n)%nat ->
  scan_quoted s = Some (q, r) -> suffix_of r s.
Proof.
  induction n as [|n IH]; intros [|d s] q r Hl; simpl in *; try done; [lia|].
  destruct (Ascii.eqb d backslash_char).
  - destruct s as [|e s]; [done|]. simpl in Hl.
    destruct (scan_quoted s) as [[q' r']|] eqn:E; [|done]. intros [= <- <-].
    eauto using IH with suffix lia.
  - destruct (Ascii.eqb d quote_char); [intros [= <- <-]; eauto with suffix|].
    destruct (scan_quoted s) as [[q' r']|] eqn:E; [|done]. intros [= <- <-].
    eauto using IH with suffix lia.
Qed.

Lemma scan_value_suffix fuel : forall s v r, scan_value fuel s = Some (v, r) -> suffix_of r s.
Proof.
  induction fuel as [|fuel IH]; intros s v r; simpl; [intros [= <- <-]; eauto with suffix|].
  destruct s as [|c s]; [intros [= <- <-]; eauto with suffix|].
  destruct (_ || _); [intros [= <- <-]; eauto with suffix|].
  destruct (Ascii.eqb c quote_char).
  - destruct (scan_quoted s) as [[q r1]|] eqn:E1; [|done].
    destruct (scan_value fuel r1) as [[v2 r2]|] eqn:E2; [|done]. intros [= <- <-].
    apply suffix_of_cons. eapply suffix_of_trans; [by eapply IH|].
    by eapply scan_quoted_suffix.
  - destruct (scan_value fuel s) as [[v2 r2]|] eqn:E2; [|done]. intros [= <- <-].
    apply suffix_of_cons. by eapply IH.
Qed.

Lemma scan_one_parameter_suffix s v r : scan_one_parameter s = Some (v, r) -> suffix_of r s.
Proof.
  unfold scan_one_parameter.
  destruct (scan_value _ _) as [[v' r']|] eqn:E; [|done]. intros [= <- <-].
  eapply suffix_of_trans; [by eapply scan_value_suffix|apply trim_start_suffix].
Qed.

Lemma scan_params_suffix fuel : forall s ps r, scan_params fuel s = Some (ps, r) -> suffix_of r s.
Proof.
  induction fuel as [|fuel IH]; intros [|c s] ps r; simpl; try done;
    [intros [= <- <-]; eauto with suffix|].
  destruct (Ascii.eqb c ","); [intros [= <- <-]; eauto with suffix|].
  destruct (Ascii.eqb c ";"); [|done].
  destruct (scan_one_parameter s) as [[v r1]|] eqn:E1; [|done].
  destruct (scan_params fuel r1) as [[ps2 r2]|] eqn:E2; [|done]. intros [= <- <-].
  apply suffix_of_cons. eapply suffix_of_trans; [by eapply IH|by eapply scan_one_parameter_suffix].
Qed.

Lemma scan_params_fuel fuel : forall fuel' s,
  (String.length s < fuel)%nat -> (String.length s < fuel')%nat ->
  scan_params fuel s = scan_params fuel' s.
Proof.
  induction fuel as [|fuel IH]; intros [|fuel'] s H H'; try lia.
  destruct s as [|c s]; simpl in *; [done|]. repeat (destruct (Ascii.eqb c _); try done).
  destruct (scan_one_parameter s) as [[v r1]|] eqn:E1; [|done].
  apply scan_one_parameter_suffix, suffix_of_length in E1.
  by rewrite (IH fuel' r1); [|lia..].
Qed.

Lemma scan_parameters_suffix s ps r : scan_parameters s = Some (ps, r) -> suffix_of r s.
Proof.
  unfold scan_parameters. intros H%scan_params_suffix.
  eapply suffix_of_trans; [done|apply trim_start_suffix].
Qed.

(** Fuel beyond the length of the field changes nothing: the scan never runs out. *)
Lemma collect_fuel fuel : forall fuel' s,
  (String.length s < fuel)%nat -> (String.length s < fuel')%nat ->
  collect_next_targets fuel s = collect_next_targets fuel' s.
Proof.
  induction fuel as [|fuel IH]; intros [|fuel'] s H H'; try lia. simpl.
  pose proof (suffix_of_length _ _ (trim_start_suffix is_blank_or_comma s)) as Hl.
  destruct (trim_start_matches is_blank_or_comma s) as [|c head]; [done|]. simpl in Hl.
  destruct (Ascii.eqb c "<"); [|done]. simpl.
  destruct (split_once ">" head) as [[url after]|] eqn:Eu; [|done].
  apply split_once_Some in Eu as ->. rewrite !str_length_app /= in Hl.
  destruct (scan_parameters after) as [[ps rest]|] eqn:Ep; [|done].
  apply scan_parameters_suffix, suffix_of_length in Ep.
  destruct (parameters_name_next ps); [|done]. by rewrite (IH fuel' rest); [|lia..].
Qed.

(** A target is written between angle brackets in its field. *)
Definition bracketed (url text : string) : Prop :=
  exists l r, text = l +:+ "<" +:+ url +:+ ">" +:+ r.

Lemma bracketed_suffix url r s : suffix_of r s -> bracketed url r -> bracketed url s.
Proof.
  intros [l ->] (l' & r' & ->). exists (l +:+ l'), r'. by rewrite -!str_app_assoc.
Qed.

Lemma collect_bracketed fuel : forall s ts,
  collect_next_targets fuel s = Some ts -> Forall (fun url => bracketed url s) ts.
Proof.
  induction fuel as [|fuel IH]; intros s ts; [done|]. simpl.
  pose proof (trim_start_suffix is_blank_or_comma s) as Hsuf.
  destruct (trim_start_matches is_blank_or_comma s) as [|c head]; [intros [= <-]; constructor|].
  destruct (Ascii.eqb_spec c "<") as [->|]; [|done]. simpl.
  destruct (split_once ">" head) as [[url after]|] eqn:Eu; [|done].
  apply split_once_Some in Eu as ->.
  destruct (scan_parameters after) as [[ps rest]|] eqn:Ep; [|done].
  apply scan_parameters_suffix in Ep.
  destruct (parameters_name_next ps) as [next|]; [|done].
  destruct (collect_next_targets fuel rest) as [targets|] eqn:Et; [|done].
  intros [= <-].
  assert (Hrest : Forall (fun u => bracketed u s) targets).
  { eapply Forall_impl; [by apply IH|]. intros u. apply bracketed_suffix.
    eapply suffix_of_trans; [|exact Hsuf]. apply suffix_of_cons, suffix_of_app.
    by apply suffix_of_cons. }
  destruct next; [|done]. constructor; [|done].
  eapply bracketed_suffix; [exact Hsuf|]. by exists "", after.
Qed.

Lemma all_targets_bracketed fields ts : all_targets fields = Some ts ->
  Forall (fun url => exists text, Some text ∈ fields /\ bracketed url text) ts.
Proof.
  revert ts. induction fields as [|[text|] fields IH]; intros ts; simpl; [| |done].
  - by intros [= <-].
  - destruct (field_targets text) as [t|] eqn:Et; [|done].
    destruct (all_targets fields) as [more|]; [|done]. intros [= <-].
    apply Forall_app; split.
    + eapply Forall_impl; [by eapply collect_bracketed|]. intros u Hu. exists text.
      split; [left|done].
    + eapply Forall_impl; [by apply IH|]. intros u (t' & Hin & Hb). exists t'. by split; [right|].
Qed.

(** ** What a header means *)

Definition verdict (targets : option (list string)) : NextLink :=
  match targets with
  | None => NL_Uninterpretable
  | Some targets =>
    match dedup targets with
    | [] => NL_None
    | [url] => NL_One url
    | _ => NL_Uninterpretable
    end
  end.

Lemma next_link_verdict fields : next_link fields = verdict (all_targets fields).
Proof. done. Qed.

(** The scanner of [Link] headers computes the meaning of the links in
    them.  For every way of writing well-formed links into fields the answer
    is the one target whose single [rel] names [next], nothing when no link
    does, and [Uninterpretable] when targets differ or a [rel] is repeated or
    malformed.  On any text at all the scanner never runs out of fuel and
    names only a target that stands between angle brackets in a field. *)
Lemma link_header_exact fields :
  (forall links, forallb (forallb link_wf) links = true ->
     next_link (map (fun f => Some (print_field f)) links) =
       verdict (link_targets (concat links))) /\
  (forall text fuel, Some text ∈ fields -> (String.length text < fuel)%nat ->
     collect_next_targets fuel text = field_targets text) /\
  (forall url, next_link fields = NL_One url ->
     exists text, Some text ∈ fields /\ bracketed url text) /\
  (None ∈ fields -> next_link fields = NL_Uninterpretable).
Proof.
  split_and!.
  - intros links H. by rewrite next_link_verdict all_targets_print.
  - intros text fuel _ Hf. apply collect_fuel; lia.
  - intros url. rewrite next_link_verdict. unfold verdict.
    destruct (all_targets fields) as [ts|] eqn:E; [|done].
    destruct (dedup ts) as [|u [|? ?]] eqn:Ed; [done| |done]. intros [= ->].
    apply all_targets_bracketed in E. rewrite Forall_forall in E. apply E.
    apply elem_of_dedup. rewrite Ed. by left.
  - intros Hin. rewrite next_link_verdict.
    assert (all_targets fields = None) as ->; [|done].
    induction fields as [|[t|] fields IH]; [by inversion Hin| |done].
    inversion Hin; subst. simpl. rewrite IH //. by destruct (field_targets t).
Qed.

(** [GET /orgs/.../repos]: a [next] and a [last] link. *)
Definition sample_links : list LinkValue :=
  [mkLinkValue "https://api.github.com/r?page=2" [mkLinkParam "rel" "next" true];
   mkLinkValue "https://api.github.com/r?page=5" [mkLinkParam "rel" "last" true]].

Example sample_next :
  next_link [Some (print_field sample_links)] = NL_One "https://api.github.com/r?page=2".
Proof. reflexivity. Qed.

Section OriginLemmas.
  Context (parse_url : string -> option (string * option string * option N)).

(** What is followed is on the trusted origin. *)
Lemma trusted_continuation_origin fields origin url :
  trusted_continuation parse_url fields origin = Follow url ->
  is_same_origin parse_url url origin = true /\ next_link fields = NL_One url.
Proof.
  unfold trusted_continuation. destruct (next_link fields) as [|u|]; [done| |done].
  by destruct (is_same_origin parse_url u origin) eqn:E; intros [= <-].
Qed.
End OriginLemmas.
