(* ===== verification/Budget.v ===== *)
(** * Budget checkpoints ([github/budget_checkpoint.rs])

    The milestones of a run's API consumption: a lock-free cursor over eight
    thresholds, advanced by compare-and-swap from any number of concurrent
    requests, and per-route counters read for the message of a milestone.  A
    call of [record] is a sequence of atomic steps on the shared state; any
    interleaving of the calls is a run. *)

From S2P Require Import Prelude Str Routes.

Open Scope N_scope.

Definition MAX_CHECKPOINTS_PER_RUN : nat := 8.
Definition ASCENDING_THRESHOLD_PERMILLE_OF_CEILING : list N :=
  [250; 500; 750; 1000; 2000; 4000; 8000; 16000].
Definition ROUTES_NAMED_PER_CHECKPOINT : nat := 3.

Definition threshold_calls (ceiling permille : N) : N :=
  N.max (sat_mul u64_max ceiling permille / 1000) 1.

(** The slots of [ApproxTopRoutes]. *)
Definition ApproxTopRoutes : Type := list (option (Route * N)).

Record BudgetCheckpoint := mkBudgetCheckpoint {
  calls : N;
  ceiling : N;
  approx_top_routes : ApproxTopRoutes;
}.

(** The shared state: the per-route counters and the cursor. *)
Record BudgetCheckpoints := mkBudgetCheckpoints {
  counts : list N;
  next_threshold : nat;
  baseline_calls : N;
}.

Definition for_run (baseline_calls : N) : BudgetCheckpoints :=
  mkBudgetCheckpoints (replicate Route_COUNT 0) 0 baseline_calls.

(** [fetch_add(1)]: wraps. *)
Definition fetch_add (i : nat) (c : BudgetCheckpoints) : BudgetCheckpoints :=
  mkBudgetCheckpoints (alter (fun n => (n + 1) mod (u64_max + 1)) i (counts c))
    (next_threshold c) (baseline_calls c).

(** ** The ranking of the loaded counters *)

Definition rank_le (a b : Route * N) : Prop :=
  snd b < snd a \/ snd a = snd b /\ (index (fst a) <= index (fst b))%nat.
#[export] Instance rank_le_dec : RelDecision rank_le.
Proof. intros a b. unfold rank_le. apply _. Defined.

(** The first slots take the first entries. *)
Definition top_slots (ranked : list (Route * N)) : ApproxTopRoutes :=
  take ROUTES_NAMED_PER_CHECKPOINT
    (map Some ranked ++ replicate ROUTES_NAMED_PER_CHECKPOINT None).

Definition rank (loaded : list N) : ApproxTopRoutes :=
  top_slots (sort_by rank_le
    (List.filter (fun rc => 0 <? snd rc) (zip Route_ALL loaded))).

(** [fmt::Display]. *)
Definition display_top (t : ApproxTopRoutes) : string :=
  match omap id t with
  | [] => "none"
  | entries =>
    join_char " " (map (fun rc => template (fst rc) +:+ "=" +:+ pretty (snd rc)) entries)
  end.

(** ** [record], one atomic step at a time *)

Record RecordCall := mkRecordCall {
  rc_route : Route;
  rc_total_calls_made : N;
  rc_ceiling : N;
}.

Inductive Phase :=
| P_Add
| P_Load
| P_Cas (index : nat)
| P_Rank (loaded : list N)
| P_Done (checkpoint : option BudgetCheckpoint).

Definition run_calls (rc : RecordCall) (c : BudgetCheckpoints) : N :=
  sat_sub (rc_total_calls_made rc) (baseline_calls c).

(** The step of a call: its phase and the shared state after it. *)
Definition call_step (rc : RecordCall) (ph : Phase) (c : BudgetCheckpoints)
    : Phase * BudgetCheckpoints :=
  match ph with
  | P_Add => (P_Load, fetch_add (index (rc_route rc)) c)
  | P_Load =>
    let index := next_threshold c in
    match ASCENDING_THRESHOLD_PERMILLE_OF_CEILING !! index with
    | None => (P_Done None, c)
    | Some permille =>
      if run_calls rc c <? threshold_calls (rc_ceiling rc) permille then (P_Done None, c)
      else (P_Cas index, c)
    end
  | P_Cas index =>
    if (next_threshold c =? index)%nat then
      (P_Rank [], mkBudgetCheckpoints (counts c) (S index) (baseline_calls c))
    else (P_Load, c)
  | P_Rank loaded =>
    match counts c !! length loaded with
    | Some n => (P_Rank (loaded ++ [n]), c)
    | None =>
      (P_Done (Some (mkBudgetCheckpoint (run_calls rc c) (rc_ceiling rc) (rank loaded))), c)
    end
  | P_Done _ => (ph, c)
  end.

(** ** Concurrent calls *)

Record System := mkSystem {
  threads : list (RecordCall * Phase);
  shared : BudgetCheckpoints;
}.

(** Thread [i] takes a step. *)
Definition step (i : nat) (s : System) : System :=
  match threads s !! i with
  | None => s
  | Some (rc, ph) =>
    let '(ph, c) := call_step rc ph (shared s) in
    mkSystem (<[i := (rc, ph)]> (threads s)) c
  end.

Definition run (schedule : list nat) (s : System) : System :=
  fold_left (fun s i => step i s) schedule s.

Definition start (baseline : N) (rcs : list RecordCall) : System :=
  mkSystem (map (fun rc => (rc, P_Add)) rcs) (for_run baseline).

(** ** Emissions *)

Record Emission := mkEmission { em_index : nat; em_calls : N; em_ceiling : N }.

(** The milestone a step crosses: a compare-and-swap that succeeds. *)
Definition emits (i : nat) (s : System) : list Emission :=
  match threads s !! i with
  | Some (rc, P_Cas index) =>
    if (next_threshold (shared s) =? index)%nat
    then [mkEmission index (run_calls rc (shared s)) (rc_ceiling rc)] else []
  | _ => []
  end.

Fixpoint emissions (schedule : list nat) (s : System) : list Emission :=
  match schedule with [] => [] | i :: schedule => emits i s ++ emissions schedule (step i s) end.

(** A call that crossed a milestone. *)
Definition crossed (ph : Phase) : bool :=
  match ph with P_Rank _ | P_Done (Some _) => true | _ => false end.

(** A call that was counted. *)
Definition counted (ph : Phase) : bool := match ph with P_Add => false | _ => true end.

Definition counted_route (r : Route) (t : RecordCall * Phase) : bool :=
  bool_decide (rc_route (fst t) = r) && counted (snd t).

(** ** Lemmas *)

Lemma thresholds_lookup i : is_Some (ASCENDING_THRESHOLD_PERMILLE_OF_CEILING !! i) <->
  (i < MAX_CHECKPOINTS_PER_RUN)%nat.
Proof. apply lookup_lt_is_Some. Qed.

(** What every reachable phase satisfies of the cursor and of its own call. *)
Definition phase_ok (c : BudgetCheckpoints) (t : RecordCall * Phase) : Prop :=
  match snd t with
  | P_Cas index =>
    (index <= next_threshold c)%nat /\
    exists permille, ASCENDING_THRESHOLD_PERMILLE_OF_CEILING !! index = Some permille /\
      threshold_calls (rc_ceiling (fst t)) permille <= run_calls (fst t) c
  | P_Rank loaded => (length loaded <= Route_COUNT)%nat
  | P_Done (Some cp) =>
    calls cp = run_calls (fst t) c /\ ceiling cp = rc_ceiling (fst t) /\
    length (approx_top_routes cp) = ROUTES_NAMED_PER_CHECKPOINT
  | P_Add | P_Load | P_Done None => True
  end.

Record system_ok (s : System) : Prop := {
  so_counts : length (counts (shared s)) = Route_COUNT;
  so_cursor : (next_threshold (shared s) <= MAX_CHECKPOINTS_PER_RUN)%nat;
  so_phases : Forall (phase_ok (shared s)) (threads s);
  so_crossed : countb (fun t => crossed (snd t)) (threads s) =
    N.of_nat (next_threshold (shared s));
}.

Lemma top_slots_length ranked : length (top_slots ranked) = ROUTES_NAMED_PER_CHECKPOINT.
Proof. unfold top_slots. rewrite length_take length_app length_replicate. lia. Qed.

(** The cursor only grows, and the baseline is fixed. *)
Lemma phase_ok_mono c c' t :
  (next_threshold c <= next_threshold c')%nat -> baseline_calls c' = baseline_calls c ->
  phase_ok c t -> phase_ok c' t.
Proof.
  intros Hn Hb. unfold phase_ok, run_calls. rewrite Hb. destruct t as [rc [| |index|loaded|[cp|]]]; simpl; try done.
  intros (? & ?). split; [lia|done].
Qed.

Lemma countb_insert {A} (p : A -> bool) l i a b : l !! i = Some a ->
  countb p (<[i := b]> l) + (if p a then 1 else 0) = countb p l + (if p b then 1 else 0).
Proof.
  revert i. induction l as [|x l IH]; intros [|i]; simpl; try done.
  - intros [= ->]. rewrite !countb_cons. lia.
  - intros Hi. rewrite !countb_cons. specialize (IH i Hi). lia.
Qed.

(** One step of a call in a reachable state. *)
Lemma call_step_ok rc ph c :
  length (counts c) = Route_COUNT -> (next_threshold c <= MAX_CHECKPOINTS_PER_RUN)%nat ->
  phase_ok c (rc, ph) ->
  let '(ph', c') := call_step rc ph c in
  length (counts c') = Route_COUNT /\ phase_ok c' (rc, ph') /\
  baseline_calls c' = baseline_calls c /\
  N.of_nat (next_threshold c') + (if crossed ph then 1 else 0) =
    N.of_nat (next_threshold c) + (if crossed ph' then 1 else 0) /\
  (next_threshold c' <= MAX_CHECKPOINTS_PER_RUN)%nat.
Proof.
  intros Hc Hn Hp. unfold phase_ok in Hp. destruct ph as [| |index|loaded|cp]; simpl in *.
  - split_and!; [by rewrite length_alter|done|done|lia|done].
  - destruct (_ !! next_threshold c) as [permille|] eqn:Ep; [|by split_and!].
    destruct (N.ltb_spec (run_calls rc c) (threshold_calls (rc_ceiling rc) permille));
      split_and!; try done. unfold phase_ok; simpl. split; [lia|]. by exists permille.
  - destruct (Nat.eqb_spec (next_threshold c) index) as [->|]; simpl; [|by split_and!].
    destruct Hp as (_ & permille & Ep & _).
    assert (index < MAX_CHECKPOINTS_PER_RUN)%nat by (apply thresholds_lookup; by eexists).
    split_and!; [done| |done|lia|lia]. unfold phase_ok; simpl. unfold Route_COUNT. lia.
  - destruct (counts c !! length loaded) as [n|] eqn:En; simpl; split_and!; try done.
    + unfold phase_ok; simpl. rewrite length_app /=. apply lookup_lt_Some in En. lia.
    + unfold phase_ok; simpl. split_and!; [done..|]. apply top_slots_length.
  - by split_and!.
Qed.

Lemma step_ok i s : system_ok s -> system_ok (step i s).
Proof.
  intros [Hc Hn Hp Hx]. unfold step. destruct (threads s !! i) as [[rc ph]|] eqn:Ei; [|done].
  pose proof (call_step_ok rc ph (shared s) Hc Hn) as Hs.
  rewrite Forall_lookup in Hp. specialize (Hs (Hp _ _ Ei)).
  destruct (call_step rc ph (shared s)) as [ph' c'] eqn:Es. simpl in Hs.
  destruct Hs as (Hc' & Hp' & Hb & Hcr & Hn').
  assert (Hmono : (next_threshold (shared s) <= next_threshold c')%nat).
  { destruct ph; simpl in Es; repeat case_match; simplify_eq/=; lia. }
  split; simpl; try done.
  - rewrite Forall_lookup. intros j t. destruct (decide (i = j)) as [<-|Hne].
    + rewrite list_lookup_insert_eq; [|by eapply lookup_lt_Some]. by intros [= <-].
    + rewrite list_lookup_insert_ne //. intros Hj. eapply phase_ok_mono; [done..|by eapply Hp].
  - pose proof (countb_insert (fun t => crossed (snd t)) _ i _ (rc, ph') Ei) as H.
    simpl in H. lia.
Qed.

Lemma run_ok schedule s : system_ok s -> system_ok (run schedule s).
Proof.
  unfold run. revert s. induction schedule as [|i schedule IH]; intros s Hs; [done|].
  by apply IH, step_ok.
Qed.

Lemma start_ok baseline rcs : system_ok (start baseline rcs).
Proof.
  split; simpl; [done|lia| |].
  - apply Forall_forall. intros t (rc & -> & _)%list_elem_of_fmap. done.
  - induction rcs as [|rc rcs IH]; [done|]. by rewrite /= countb_cons IH.
Qed.

(** A step advances the cursor by the milestones it crosses, each at its
    threshold. *)
Lemma step_emits i s : system_ok s ->
  map em_index (emits i s) =
    List.seq (next_threshold (shared s))
      (next_threshold (shared (step i s)) - next_threshold (shared s)) /\
  (next_threshold (shared s) <= next_threshold (shared (step i s)))%nat /\
  Forall (fun e => exists permille,
      ASCENDING_THRESHOLD_PERMILLE_OF_CEILING !! em_index e = Some permille /\
      threshold_calls (em_ceiling e) permille <= em_calls e) (emits i s).
Proof.
  intros [_ _ Hp _]. unfold emits, step.
  destruct (threads s !! i) as [[rc ph]|] eqn:Ei; simpl; [|by rewrite Nat.sub_diag; split_and!].
  rewrite Forall_lookup in Hp. specialize (Hp _ _ Ei). unfold phase_ok in Hp.
  destruct ph as [| |index|loaded|cp]; simpl in *.
  - by rewrite Nat.sub_diag.
  - repeat case_match; simplify_eq/=; by rewrite Nat.sub_diag.
  - destruct (Nat.eqb_spec (next_threshold (shared s)) index) as [<-|]; simpl.
    + replace (S _ - _)%nat with 1%nat by lia. simpl. split_and!; [done|lia|].
      constructor; [|done]. simpl. tauto.
    + by rewrite Nat.sub_diag.
  - repeat case_match; simplify_eq/=; by rewrite Nat.sub_diag.
  - by rewrite Nat.sub_diag.
Qed.

Lemma emissions_exact schedule : forall s, system_ok s ->
  map em_index (emissions schedule s) =
    List.seq (next_threshold (shared s))
      (next_threshold (shared (run schedule s)) - next_threshold (shared s)) /\
  (next_threshold (shared s) <= next_threshold (shared (run schedule s)))%nat /\
  Forall (fun e => exists permille,
      ASCENDING_THRESHOLD_PERMILLE_OF_CEILING !! em_index e = Some permille /\
      threshold_calls (em_ceiling e) permille <= em_calls e) (emissions schedule s).
Proof.
  induction schedule as [|i schedule IH]; intros s Hs.
  - simpl. by rewrite Nat.sub_diag.
  - destruct (step_emits i s Hs) as (H1 & H2 & H3).
    destruct (IH (step i s) (step_ok _ _ Hs)) as (H4 & H5 & H6).
    change (run (i :: schedule) s) with (run schedule (step i s)) in *.
    split_and!; [|lia|by apply Forall_app]. simpl. rewrite map_app H1 H4.
    replace (next_threshold (shared (run schedule (step i s))) - next_threshold (shared s))%nat
      with ((next_threshold (shared (step i s)) - next_threshold (shared s)) +
            (next_threshold (shared (run schedule (step i s))) - next_threshold (shared (step i s))))%nat
      by lia.
    rewrite List.seq_app. do 2 f_equal. lia.
Qed.

(** The counters count the calls that passed them. *)
Definition counts_ok (s : System) : Prop :=
  forall r, counts (shared s) !! index r =
    Some (countb (counted_route r) (threads s) mod (u64_max + 1)).

Lemma call_step_counts rc ph c :
  ph = P_Add \/
  counts (snd (call_step rc ph c)) = counts c /\ counted (fst (call_step rc ph c)) = counted ph.
Proof. destruct ph; simpl; [by left|right..]; by repeat case_match. Qed.

Lemma counts_step i s : counts_ok s -> counts_ok (step i s).
Proof.
  intros Hc r. unfold step. destruct (threads s !! i) as [[rc ph]|] eqn:Ei; [|apply Hc].
  destruct (call_step rc ph (shared s)) as [ph' c'] eqn:Es. simpl.
  pose proof (countb_insert (counted_route r) _ i _ (rc, ph') Ei) as H.
  assert (Hsame : counted ph' = counted ph -> counts c' = counts (shared s) ->
    counts c' !! index r =
    Some (countb (counted_route r) (<[i:=(rc, ph')]> (threads s)) mod (u64_max + 1))).
  { intros E ->. rewrite Hc. unfold counted_route in H; simpl in H. rewrite E in H.
    unfold counted_route. do 2 f_equal. lia. }
  destruct (call_step_counts rc ph (shared s)) as [->|[E1 E2]];
    [|rewrite Es in E1, E2; by apply Hsame].
  injection Es as <- <-. clear Hsame. unfold counted_route in H; simpl in H.
  rewrite andb_false_r andb_true_r in H. simpl.
  destruct (decide (rc_route rc = r)) as [<-|Hne].
  - rewrite bool_decide_true // in H. rewrite list_lookup_alter_eq Hc /=. f_equal.
    unfold counted_route. rewrite N.Div0.add_mod_idemp_l. f_equal. lia.
  - rewrite bool_decide_false // in H. rewrite list_lookup_alter_ne.
    + rewrite Hc. unfold counted_route. do 2 f_equal. lia.
    + intros E. by apply index_inj in E.
Qed.

Lemma counts_run schedule s : counts_ok s -> counts_ok (run schedule s).
Proof.
  unfold run. revert s. induction schedule as [|i schedule IH]; intros s Hs; [done|].
  by apply IH, counts_step.
Qed.

Lemma counts_start baseline rcs : counts_ok (start baseline rcs).
Proof.
  intros r. unfold start, for_run. cbn [shared counts threads].
  rewrite lookup_replicate_2; [|apply index_lt].
  assert (countb (counted_route r) (map (fun rc => (rc, P_Add)) rcs) = 0) as ->; [|done].
  induction rcs as [|rc rcs IH]; [done|]. simpl. rewrite countb_cons IH.
  unfold counted_route at 1. simpl. by rewrite andb_false_r.
Qed.

(** ** Every call finishes on its own *)

(** An upper bound on the steps a call still takes. *)
Definition remaining (c : BudgetCheckpoints) (ph : Phase) : nat :=
  match ph with
  | P_Add => 2 * (MAX_CHECKPOINTS_PER_RUN - 0) + Route_COUNT + 4
  | P_Load => 2 * (MAX_CHECKPOINTS_PER_RUN - next_threshold c) + Route_COUNT + 3
  | P_Cas index => 2 * (MAX_CHECKPOINTS_PER_RUN - index) + Route_COUNT + 2
  | P_Rank loaded => Route_COUNT - length loaded + 1
  | P_Done _ => 0
  end%nat.

Definition finished (ph : Phase) : bool := match ph with P_Done _ => true | _ => false end.

Lemma remaining_mono c c' ph :
  (next_threshold c <= next_threshold c')%nat -> (remaining c' ph <= remaining c ph)%nat.
Proof. destruct ph; simpl; lia. Qed.

Lemma call_step_remaining rc ph c :
  length (counts c) = Route_COUNT -> phase_ok c (rc, ph) -> finished ph = false ->
  (remaining (snd (call_step rc ph c)) (fst (call_step rc ph c)) < remaining c ph)%nat.
Proof.
  intros Hc Hp Hf. unfold phase_ok in Hp. destruct ph as [| |index|loaded|cp]; simpl in *; try done.
  - unfold MAX_CHECKPOINTS_PER_RUN, Route_COUNT. lia.
  - destruct (_ !! next_threshold c) eqn:E; simpl; [|lia].
    destruct (_ <? _); simpl; lia.
  - destruct Hp as (Hle & permille & E & _).
    assert (index < MAX_CHECKPOINTS_PER_RUN)%nat by (apply thresholds_lookup; by eexists).
    destruct (Nat.eqb_spec (next_threshold c) index); simpl; unfold Route_COUNT in *; lia.
  - destruct (counts c !! length loaded) eqn:E; simpl; [|lia].
    rewrite length_app /=. apply lookup_lt_Some in E. lia.
Qed.

Lemma done_stays sch i rc cp : forall s, threads s !! i = Some (rc, P_Done cp) ->
  threads (run sch s) !! i = Some (rc, P_Done cp).
Proof.
  induction sch as [|k sch IH]; intros s Hi; [done|]. simpl. apply IH.
  unfold step. destruct (threads s !! k) as [[rck phk]|] eqn:Ek; [|done].
  destruct (call_step rck phk (shared s)) as [p1 c1] eqn:Es. simpl.
  destruct (decide (k = i)) as [->|]; [|by rewrite list_lookup_insert_ne].
  rewrite Ek in Hi. injection Hi as -> ->. injection Es as <- _.
  apply list_lookup_insert_eq. by eapply lookup_lt_Some.
Qed.

Lemma run_remaining schedule i : forall s rc ph, system_ok s -> threads s !! i = Some (rc, ph) ->
  exists ph', threads (run schedule s) !! i = Some (rc, ph') /\
    (finished ph' = true \/
     remaining (shared (run schedule s)) ph' + count_occ Nat.eq_dec schedule i
       <= remaining (shared s) ph)%nat.
Proof.
  induction schedule as [|j schedule IH]; intros s rc ph Hs Hi.
  - exists ph. split; [done|right; simpl; lia].
  - change (run (j :: schedule) s) with (run schedule (step j s)).
    pose proof (step_ok j s Hs) as Hs'. destruct (step_emits j s Hs) as (_ & Hmono & _).
    destruct (decide (j = i)) as [->|Hne].
    + pose proof Hs as [Hc _ Hp _]. rewrite Forall_lookup in Hp. specialize (Hp _ _ Hi).
      assert (Hst : threads (step i s) !! i = Some (rc, fst (call_step rc ph (shared s))) /\
        shared (step i s) = snd (call_step rc ph (shared s))).
      { unfold step. rewrite Hi. destruct (call_step rc ph (shared s)) as [ph1 c1]. simpl.
        rewrite list_lookup_insert_eq //. by eapply lookup_lt_Some. }
      destruct Hst as [Hi' Hsh]. destruct (IH _ _ _ Hs' Hi') as (ph' & E & Hr).
      exists ph'. split; [done|]. destruct Hr as [|Hr]; [by left|].
      destruct (finished ph) eqn:Ef.
      * left. destruct ph as [| | | |cp]; try done.
        rewrite (done_stays _ _ _ _ _ Hi') in E. by injection E as <-.
      * right. pose proof (call_step_remaining rc ph (shared s) Hc Hp Ef) as Hd.
        rewrite -Hsh in Hd. rewrite count_occ_cons_eq //. lia.
    + assert (Hi' : threads (step j s) !! i = Some (rc, ph)).
      { unfold step. destruct (threads s !! j) as [[rcj phj]|]; [|done].
        destruct (call_step rcj phj (shared s)). by rewrite /= list_lookup_insert_ne. }
      destruct (IH _ _ _ Hs' Hi') as (ph' & E & Hr). exists ph'. split; [done|].
      destruct Hr as [|Hr]; [by left|right]. rewrite count_occ_cons_neq //.
      pose proof (remaining_mono _ _ ph Hmono). lia.
Qed.

(** Any number of concurrent requests, interleaved in any way, cross the
    thresholds one at a time in ascending order, each at most once, so that a
    run emits at most eight milestones; each is emitted only by a request whose
    call count has reached it, exactly as many requests report one as the
    cursor has passed, and each route's counter is the number of requests
    counted on it (modulo its width). *)
Lemma checkpoints_exact baseline rcs schedule :
  let s := run schedule (start baseline rcs) in
  let es := emissions schedule (start baseline rcs) in
  map em_index es = List.seq 0 (next_threshold (shared s)) /\
  (length es <= MAX_CHECKPOINTS_PER_RUN)%nat /\
  Forall (fun e => exists permille,
      ASCENDING_THRESHOLD_PERMILLE_OF_CEILING !! em_index e = Some permille /\
      threshold_calls (em_ceiling e) permille <= em_calls e) es /\
  countb (fun t => crossed (snd t)) (threads s) = N.of_nat (length es) /\
  (forall r, counts (shared s) !! index r =
     Some (countb (counted_route r) (threads s) mod (u64_max + 1))).
Proof.
  intros s es. pose proof (start_ok baseline rcs) as Hst.
  destruct (emissions_exact schedule _ Hst) as (H1 & _ & H3).
  destruct (run_ok schedule _ Hst) as [_ Hn _ Hx]. fold s in Hn, Hx, H1. fold es in H1, H3.
  simpl in H1. rewrite Nat.sub_0_r in H1.
  assert (Hl : length es = next_threshold (shared s)).
  { by rewrite -(length_map em_index) H1 List.length_seq. }
  split_and!; [done|lia|done|by rewrite Hx Hl|].
  apply counts_run, counts_start.
Qed.

(** [record] is wait-free: whatever the other requests do, a request that
    has taken thirty-five steps of its own has returned, because each lost
    compare-and-swap means that the cursor has advanced. *)
Lemma record_wait_free baseline rcs schedule i rc :
  rcs !! i = Some rc -> (35 <= count_occ Nat.eq_dec schedule i)%nat ->
  exists checkpoint,
    threads (run schedule (start baseline rcs)) !! i = Some (rc, P_Done checkpoint).
Proof.
  intros Hi Hn.
  assert (Ht : threads (start baseline rcs) !! i = Some (rc, P_Add)).
  { simpl. by rewrite list_lookup_fmap Hi. }
  destruct (run_remaining schedule i _ _ _ (start_ok baseline rcs) Ht) as (ph & E & [Hf|Hr]).
  - destruct ph as [| | | |cp]; try done. by exists cp.
  - unfold remaining in Hr at 2. unfold Route_COUNT, MAX_CHECKPOINTS_PER_RUN in Hr.
    assert (ph = P_Add \/ (1 <= remaining (shared (run schedule (start baseline rcs))) ph)%nat
      \/ finished ph = true) as [->|[|Hf]].
    { destruct ph; simpl; unfold Route_COUNT; auto; right; left; lia. }
    + simpl in Hr. unfold Route_COUNT, MAX_CHECKPOINTS_PER_RUN in Hr. lia.
    + lia.
    + destruct ph as [| | | |cp]; try done. by exists cp.
Qed.

(** Two requests that race for the first milestone, in lock step. *)
Definition racing_call : RecordCall := mkRecordCall OrgRepos 300 1000.
Definition lock_step : list nat := concat (replicate 35 [0; 1]%nat).

Lemma record_wait_free_witness :
  exists checkpoint,
    threads (run lock_step (start 0 [racing_call; racing_call])) !! 1%nat =
      Some (racing_call, P_Done checkpoint).
Proof.
  apply (record_wait_free 0 [racing_call; racing_call] lock_step 1 racing_call).
  - reflexivity.
  - apply Nat.leb_le. vm_compute. reflexivity.
Defined.

(** The first wins; the second, seeing the next threshold, reports nothing. *)
Example race_has_one_winner :
  map snd (threads (run lock_step (start 0 [racing_call; racing_call]))) =
    [P_Done (Some (mkBudgetCheckpoint 300 1000 [Some (OrgRepos, 2); None; None])); P_Done None].
Proof. vm_compute. reflexivity. Qed.
