(* ===== verification/Json.v ===== *)
(** * JSON values and API outcomes

    [serde_json::Value] belongs to a library, so the components see it through
    an interface: the accessors they call, with the documented fact that each
    variant answers one of them only.  [ApiOutcome] is the service's own type
    ([src/crates/gh-report/src/api_outcome.rs]). *)

From S2P Require Import Prelude Str.

(** The accessors of [serde_json::Value] the service calls. *)
Class JsonValue (V : Type) := {
  as_str : V -> option string;
  as_bool : V -> option bool;
  as_u64 : V -> option N;
  as_array : V -> option (list V);
  is_object : V -> bool;
  is_null : V -> bool;
  (** [value.get(key)]: a member of an object, [None] on every other variant. *)
  get : string -> V -> option V;
}.

(** Documented facts of the accessors: the variants are exclusive. *)
Class JsonLaws (V : Type) `{JsonValue V} := {
  get_is_object : forall k v w, get k v = Some w -> is_object v = true;
  array_not_object : forall v l, as_array v = Some l -> is_object v = false;
  str_not_object : forall v s, as_str v = Some s -> is_object v = false;
}.

(** [value.get(key).and_then(Value::as_str)] and its variants. *)
Definition get_str `{JsonValue V} (k : string) (v : V) : option string :=
  get k v ≫= as_str.
Definition get_bool `{JsonValue V} (k : string) (v : V) : option bool :=
  get k v ≫= as_bool.
Definition get_array `{JsonValue V} (k : string) (v : V) : option (list V) :=
  get k v ≫= as_array.

(** A concrete instance, to run the components on values. *)
Inductive Json :=
| JNull
| JBool (b : bool)
| JNum (n : N)
| JStr (s : string)
| JArr (l : list Json)
| JObj (fields : list (string * Json)).

Fixpoint field (k : string) (l : list (string * Json)) : option Json :=
  match l with
  | [] => None
  | (k', v) :: l => if String.eqb k k' then Some v else field k l
  end.

#[export] Instance Json_value : JsonValue Json := {
  as_str v := match v with JStr s => Some s | _ => None end;
  as_bool v := match v with JBool b => Some b | _ => None end;
  as_u64 v := match v with JNum n => Some n | _ => None end;
  as_array v := match v with JArr l => Some l | _ => None end;
  is_object v := match v with JObj _ => true | _ => false end;
  is_null v := match v with JNull => true | _ => false end;
  get k v := match v with JObj l => field k l | _ => None end;
}.

#[export] Instance Json_laws : JsonLaws Json.
Proof. split; [intros ? [] ?|intros [] ?|intros [] ?]; simpl; congruence. Qed.

(** ** [ApiOutcome] *)

Inductive ApiOutcome (V : Type) : Type :=
| Success (status_code : N) (data : option V) (headers : option (gmap string string))
    (truncated : bool)
| Failure (status_code : option N) (error : string) (retryable : bool).
Arguments Success {V} _ _ _ _.
Arguments Failure {V} _ _ _.

Section ApiOutcome.
  Context {V : Type}.
  Implicit Type o : ApiOutcome V.

Definition outcome_is_ok o : bool :=
    match o with Success _ _ _ _ => true | Failure _ _ _ => false end.

Definition outcome_is_err o : bool := negb (outcome_is_ok o).

Definition outcome_data o : option V :=
    match o with Success _ data _ _ => data | Failure _ _ _ => None end.

Definition outcome_status_code o : option N :=
    match o with Success s _ _ _ => Some s | Failure s _ _ => s end.

Definition outcome_headers o : option (gmap string string) :=
    match o with Success _ _ h _ => h | Failure _ _ _ => None end.

Definition outcome_is_retryable o : bool :=
    match o with Failure _ _ true => true | _ => false end.

Definition outcome_error_message o : option string :=
    match o with Failure _ e _ => Some e | Success _ _ _ _ => None end.

Definition outcome_success (data : V) : ApiOutcome V :=
    Success 200 (Some data) None false.

Definition outcome_is_truncated o : bool :=
    match o with Success _ _ _ true => true | _ => false end.

Definition outcome_failure (status_code : option N) (error : string) (retryable : bool)
    : ApiOutcome V := Failure status_code error retryable.
End ApiOutcome.
