(* ===== verification/Request.v ===== *)
(** * The result of a request ([github/client.rs], result types)

    What one attempt and a whole run of attempts end with, and the conversion
    of a run to the [ApiOutcome] its callers see. *)

From S2P Require Import Prelude Str Json.

Open Scope N_scope.

(** [rate_limit::HALT_THRESHOLD], [rate_limit::WARN_THRESHOLD]. *)
Definition HALT_THRESHOLD : N := 50.
Definition WARN_THRESHOLD : N := 100.

(** [config::DEFAULT_MAX_RETRIES], [config::DEFAULT_REQUEST_TIMEOUT_SECS]. *)
Definition DEFAULT_MAX_RETRIES : N := 2.
Definition DEFAULT_REQUEST_TIMEOUT_SECS : N := 30.

Inductive PreDispatchFailure :=
| PD_HaltedBeforeDispatch
| PD_CredentialRefreshFailed (cause : string)
| PD_BudgetAcquireCancelled.

Inductive MalformedPayloadKind := MP_InvalidJson | MP_EmptyBody | MP_NotAnArray | MP_InvalidUtf8.
#[export] Instance MalformedPayloadKind_eq_dec : EqDecision MalformedPayloadKind.
Proof. solve_decision. Defined.

Inductive RequestFailureKind :=
| RF_CredentialRefreshFailed (cause : string)
| RF_Transport (error : string) (timeout : bool)
| RF_Http (status_code : N) (error : string) (retryable : bool)
| RF_BodyRead (status_code : option N) (error : string)
| RF_MalformedPayload (status_code : N) (kind : MalformedPayloadKind) (error : string).

Definition failure_kind_status_code (f : RequestFailureKind) : option N :=
  match f with
  | RF_CredentialRefreshFailed _ | RF_Transport _ _ => None
  | RF_Http s _ _ | RF_MalformedPayload s _ _ => Some s
  | RF_BodyRead s _ => s
  end.

Definition failure_kind_is_retryable (f : RequestFailureKind) : bool :=
  match f with
  | RF_Transport _ _ => true
  | RF_Http _ _ retryable => retryable
  | RF_CredentialRefreshFailed _ | RF_BodyRead _ _ | RF_MalformedPayload _ _ _ => false
  end.

Definition failure_kind_into_api_outcome {V} (f : RequestFailureKind) : ApiOutcome V :=
  match f with
  | RF_CredentialRefreshFailed cause =>
    outcome_failure None ("credential refresh failed: " +:+ cause) false
  | RF_Transport error timeout => outcome_failure None (if timeout then "timeout" else error) true
  | RF_Http s error retryable => outcome_failure (Some s) error retryable
  | RF_BodyRead s error => outcome_failure s ("body read error: " +:+ error) false
  | RF_MalformedPayload s _ error => outcome_failure (Some s) error false
  end.

(** ** Error bodies *)

Definition MAX_ERROR_BODY_LEN : nat := 1024.

(** [body.floor_char_boundary(n)], for [n] within the string: back over the
    continuation bytes. *)
Definition is_continuation (b : N) : bool := (128 <=? b) && (b <=? 191).

Fixpoint floor_char_boundary (l : list N) (n : nat) : nat :=
  match n with
  | 0%nat => 0%nat
  | S n' =>
    match l !! n with
    | Some b => if is_continuation b then floor_char_boundary l n' else n
    | None => n
    end
  end.

(** The bytes of the ellipsis and its label. *)
Definition TRUNCATED : string := bytes [226; 128; 166] +:+ "[truncated]".

Definition truncate_error_body (body : string) : string :=
  if (String.length body <=? MAX_ERROR_BODY_LEN)%nat then body
  else take_bytes (floor_char_boundary (to_bytes body) MAX_ERROR_BODY_LEN) body +:+ TRUNCATED.

Inductive RequestClassification :=
| RC_Success (status_code : N) (truncated : bool)
| RC_MalformedPayload (status_code : N) (kind : MalformedPayloadKind)
| RC_BodyRead (status_code : option N)
| RC_HttpError (status_code : option N)
| RC_TransportError
| RC_CredentialRefreshFailed
| RC_BudgetAcquireCancelled
| RC_HaltedBeforeDispatch.

Section Run.
  Context {V : Type}.

Inductive AttemptResult :=
| AttemptSuccess (status_code : N) (data : option V) (headers : option (gmap string string))
    (truncated : bool)
| AttemptFailure (failure : RequestFailureKind).

Definition attempt_is_retryable (a : AttemptResult) : bool :=
  match a with
  | AttemptSuccess _ _ _ _ => false
  | AttemptFailure f => failure_kind_is_retryable f
  end.

Definition attempt_status_code (a : AttemptResult) : option N :=
  match a with
  | AttemptSuccess s _ _ _ => Some s
  | AttemptFailure f => failure_kind_status_code f
  end.

(** [AttemptResult::into_api_outcome]. *)
Definition attempt_into_api_outcome (a : AttemptResult) : ApiOutcome V :=
  match a with
  | AttemptSuccess s d h t => Success s d h t
  | AttemptFailure f => failure_kind_into_api_outcome f
  end.

(** [attempts] is a [NonZeroU32]. *)
Inductive RunResult :=
| NeverDispatched (cause : PreDispatchFailure)
| RunSuccess (status_code : N) (data : option V) (headers : option (gmap string string))
    (truncated : bool) (attempts : N)
| RunFailed (failure : RequestFailureKind) (attempts : N).

Record RequestRun := mkRequestRun {
  run_result : RunResult;
  halt_triggered : bool;
}.

(** [NonZeroU32::new(attempt.saturating_add(1))]. *)
Definition attempts_after (attempt : N) : N := sat_add u32_max attempt 1.

(** [RequestRun::never_dispatched]. *)
Definition never_dispatched (cause : PreDispatchFailure) : RequestRun :=
  mkRequestRun (NeverDispatched cause) false.

(** [RequestRun::from_attempt]. *)
Definition from_attempt (result : AttemptResult) (attempt : N) (halt_triggered : bool)
    : RequestRun :=
  let attempts := attempts_after attempt in
  mkRequestRun
    match result with
    | AttemptSuccess s d h t => RunSuccess s d h t attempts
    | AttemptFailure f => RunFailed f attempts
    end halt_triggered.

Definition run_is_success (r : RequestRun) : bool :=
  match run_result r with RunSuccess _ _ _ _ _ => true | _ => false end.

Definition run_is_truncated (r : RequestRun) : bool :=
  match run_result r with RunSuccess _ _ _ t _ => t | _ => false end.

Definition is_retries_exhausted (r : RequestRun) : bool :=
  negb (halt_triggered r)
  && match run_result r with
     | RunFailed f _ => failure_kind_is_retryable f
     | _ => false
     end.

Definition run_attempts (r : RequestRun) : N :=
  match run_result r with
  | NeverDispatched _ => 0
  | RunSuccess _ _ _ _ a | RunFailed _ a => a
  end.

Definition run_status_code (r : RequestRun) : option N :=
  match run_result r with
  | NeverDispatched _ => None
  | RunSuccess s _ _ _ _ => Some s
  | RunFailed f _ => failure_kind_status_code f
  end.

Definition classification (r : RequestRun) : RequestClassification :=
  match run_result r with
  | NeverDispatched cause =>
    match cause with
    | PD_HaltedBeforeDispatch => RC_HaltedBeforeDispatch
    | PD_CredentialRefreshFailed _ => RC_CredentialRefreshFailed
    | PD_BudgetAcquireCancelled => RC_BudgetAcquireCancelled
    end
  | RunSuccess s _ _ t _ => RC_Success s t
  | RunFailed f _ =>
    match f with
    | RF_CredentialRefreshFailed _ => RC_CredentialRefreshFailed
    | RF_Transport _ _ => RC_TransportError
    | RF_Http s _ _ => RC_HttpError (Some s)
    | RF_BodyRead s _ => RC_BodyRead s
    | RF_MalformedPayload s kind _ => RC_MalformedPayload s kind
    end
  end.

Definition terminal_category (r : RequestRun) : string :=
  match run_result r with
  | NeverDispatched PD_HaltedBeforeDispatch => "halted_before_dispatch"
  | NeverDispatched (PD_CredentialRefreshFailed _) => "credential_refresh_failed"
  | NeverDispatched PD_BudgetAcquireCancelled => "budget_acquire_cancelled"
  | RunSuccess _ _ _ _ _ => "success"
  | RunFailed f _ =>
    if halt_triggered r then "rate_limit_halt"
    else if failure_kind_is_retryable f then "retry_exhausted"
    else
      match f with
      | RF_CredentialRefreshFailed _ => "credential_refresh_failed"
      | RF_Transport _ _ => "transport_error"
      | RF_Http _ _ _ => "http_error"
      | RF_BodyRead _ _ => "body_read_error"
      | RF_MalformedPayload _ _ _ => "malformed_payload"
      end
  end.

(** [RequestRun::outcome]. *)
Definition run_outcome (r : RequestRun) : ApiOutcome V :=
  match run_result r with
  | NeverDispatched PD_HaltedBeforeDispatch =>
    outcome_failure None ("rate limit halt: remaining < " +:+ pretty HALT_THRESHOLD) false
  | NeverDispatched (PD_CredentialRefreshFailed cause) =>
    outcome_failure None ("credential refresh failed: " +:+ cause) false
  | NeverDispatched PD_BudgetAcquireCancelled =>
    outcome_failure None "budget acquire cancelled" false
  | RunSuccess s d h t _ => Success s d h t
  | RunFailed f _ => failure_kind_into_api_outcome f
  end.

(** ** Lemmas *)

(** The outcome of a run from an attempt is the attempt's own. *)
Lemma run_outcome_from_attempt a n h :
  run_outcome (from_attempt a n h) = attempt_into_api_outcome a.
Proof. by destruct a. Qed.

Lemma outcome_retryable_failure_kind f :
  outcome_is_retryable (V := V) (failure_kind_into_api_outcome f) = failure_kind_is_retryable f.
Proof. by destruct f as [|? []|? ? []| |]. Qed.

Lemma outcome_status_failure_kind f :
  outcome_status_code (V := V) (failure_kind_into_api_outcome f) = failure_kind_status_code f.
Proof. by destruct f. Qed.

(** The outcome keeps what the run observed: its success, status and
    truncation, and its retryability when it was dispatched. *)
Lemma run_outcome_faithful r :
  outcome_is_ok (run_outcome r) = run_is_success r /\
  outcome_status_code (run_outcome r) = run_status_code r /\
  outcome_is_truncated (run_outcome r) = run_is_truncated r /\
  (outcome_is_retryable (run_outcome r) = true <->
     exists f n, run_result r = RunFailed f n /\ failure_kind_is_retryable f = true).
Proof.
  unfold run_outcome, run_is_success, run_is_truncated, run_status_code.
  destruct (run_result r) as [[]|s d h [] n|f n]; simpl;
    try (split_and!; [done..|split; [done|by intros (? & ? & ? & ?)]]).
  rewrite outcome_status_failure_kind outcome_retryable_failure_kind.
  split_and!; [by destruct f|done|by destruct f|naive_solver].
Qed.
End Run.
Arguments AttemptResult V : clear implicits.
Arguments RunResult V : clear implicits.
Arguments RequestRun V : clear implicits.
