(* ===== verification/RateLimit.v ===== *)
(** * Rate limits and the budget's replenishment
    ([github/rate_limit.rs], [github/replenish.rs])

    The headers GitHub reports its limits in, the wait a secondary limit asks
    for, and the decision how long to wait for the primary window to roll and
    how many calls the next epoch gets.  Instants are nanoseconds since an
    arbitrary origin; the clock and the parsing of an HTTP date are parameters,
    and the largest instant is a parameter of the platform. *)

From S2P Require Import Prelude Str Pagination Request.

Open Scope N_scope.

(** ** [str::parse] for unsigned integers: an optional plus sign and digits *)

Definition digit (c : Ascii.ascii) : option N :=
  let n := Ascii.N_of_ascii c in if in_range 48 57 n then Some (n - 48) else None.

Fixpoint digits (max acc : N) (s : string) : option N :=
  match s with
  | EmptyString => Some acc
  | String c s =>
    match digit c with
    | None => None
    | Some d => let n := acc * 10 + d in if n <=? max then digits max n s else None
    end
  end.

Definition parse_unsigned (max : N) (s : string) : option N :=
  match s with
  | EmptyString => None
  | String c rest =>
    if Ascii.eqb c "+" then (if is_empty rest then None else digits max 0 rest)
    else digits max 0 s
  end.

(** ** [rate_limit.rs] *)

(** A header, when its value is visible text. *)
Definition Headers : Type := string -> option string.

Definition parse_header (max : N) (headers : Headers) (name : string) : option N :=
  headers name ≫= parse_unsigned max.

Record RateLimitObservation := mkRateLimitObservation {
  obs_limit : option N;
  obs_remaining : option N;
  obs_reset : option N;
}.

(** What [update_from_headers] hands to the observer. *)
Definition update_from_headers (headers : Headers) : RateLimitObservation :=
  mkRateLimitObservation (parse_header u32_max headers "x-ratelimit-limit")
    (parse_header u32_max headers "x-ratelimit-remaining")
    (parse_header u64_max headers "x-ratelimit-reset").

Definition SECONDARY_LIMIT_BODY_MARKER : string := "secondary rate limit".

Definition NANOS_PER_SEC : N := 1000000000.

(** [ceil_to_whole_secs], on nanoseconds. *)
Definition ceil_to_whole_secs (d : N) : N :=
  d / NANOS_PER_SEC + (if 0 <? d mod NANOS_PER_SEC then 1 else 0).

Section RetryAfter.
  Context (instant_max : N) (instant_now system_now : N) (parse_http_date : string -> option N).

(** [Instant + Duration] panics past the largest instant: [None]. *)
Definition instant_add (secs : N) : option N :=
  checked_add instant_max instant_now (secs * NANOS_PER_SEC).

(** [parse_retry_after]; the outer [None] is the panic. *)
Definition parse_retry_after (headers : Headers) : option (option N) :=
  match headers "retry-after" with
  | None => Some None
  | Some text =>
    let raw := trim text in
    match parse_unsigned u64_max raw with
    | Some secs => option_map Some (instant_add secs)
    | None =>
      match parse_http_date raw with
      | Some target => option_map Some (instant_add (ceil_to_whole_secs (sat_sub target system_now)))
      | None => Some None
      end
    end
  end.

Definition secondary_limit_resume_at (status : N) (headers : Headers) (body : string)
    : option (option N) :=
  let is_secondary_signal :=
    (status =? 429)
    || ((status =? 403) && contains SECONDARY_LIMIT_BODY_MARKER (to_ascii_lowercase body)) in
  if negb is_secondary_signal then Some None else parse_retry_after headers.
End RetryAfter.

(** ** [replenish.rs] *)

Definition CEILING_BUFFER : N := 100.
Definition CEILING_FLOOR : N := 10.
Definition RESET_SLACK_SECS : N := 5.
Definition MAX_PLAUSIBLE_RESET_SECS : N := 24 * 3600.
Definition API_BUDGET_LIMIT : N := 4000.
Definition API_BUDGET_WAIT_SECS : N := 3600.

Inductive RejectedReset := Absent | Elapsed | ImplausiblyDistant.
Inductive ResetWait := Stated (wait : N) | Fallback (rejected : RejectedReset).

Definition wait (w : ResetWait) : N :=
  match w with Stated wait => wait | Fallback _ => API_BUDGET_WAIT_SECS end.

Definition source (w : ResetWait) : string :=
  match w with
  | Stated _ => "stated-reset"
  | Fallback Absent => "fallback-no-reset-reported"
  | Fallback Elapsed => "fallback-reset-elapsed"
  | Fallback ImplausiblyDistant => "fallback-reset-implausibly-distant"
  end.

Definition wait_for_reset (reset : option N) (now : N) : ResetWait :=
  match reset with
  | None => Fallback Absent
  | Some reset =>
    if reset <=? now then Fallback Elapsed
    else
      let distance := reset - now in
      if MAX_PLAUSIBLE_RESET_SECS <? distance then Fallback ImplausiblyDistant
      else Stated (distance + RESET_SLACK_SECS)
  end.

Definition window_entitlement (limit : option N) : N :=
  match limit with Some limit => limit | None => API_BUDGET_LIMIT end.

(** [NonZeroU64::new(..).unwrap_or(CEILING_FLOOR)]. *)
Definition ceiling_from_entitlement (entitlement : N) : N :=
  let n := sat_sub entitlement CEILING_BUFFER in if n =? 0 then CEILING_FLOOR else n.

Inductive Replenished := Cancelled | Ceiling (ceiling : N).

(** [replenish]: the wait, then the answer, unless cancelled before. *)
Definition replenish (reset limit : option N) (now : N) (cancelled : bool) : N * Replenished :=
  (wait (wait_for_reset reset now),
   if cancelled then Cancelled else Ceiling (ceiling_from_entitlement (window_entitlement limit))).

(** ** Lemmas *)

Lemma ceil_ge d : d <= ceil_to_whole_secs d * NANOS_PER_SEC.
Proof.
  unfold ceil_to_whole_secs, NANOS_PER_SEC.
  pose proof (N.div_mod d 1000000000 ltac:(lia)) as H.
  pose proof (N.mod_lt d 1000000000 ltac:(lia)).
  destruct (N.ltb_spec 0 (d mod 1000000000)); lia.
Qed.

Lemma ceil_lt d : ceil_to_whole_secs d * NANOS_PER_SEC < d + NANOS_PER_SEC.
Proof.
  unfold ceil_to_whole_secs, NANOS_PER_SEC.
  pose proof (N.div_mod d 1000000000 ltac:(lia)) as H.
  pose proof (N.mod_lt d 1000000000 ltac:(lia)).
  revert H H0. generalize (d / 1000000000) (d mod 1000000000). intros q m -> Hm.
  destruct (N.ltb_spec 0 m); lia.
Qed.

(** The digits a number is printed with are read back, within the bound. *)
Lemma digits_bound max s : forall acc n, acc <= max -> digits max acc s = Some n -> n <= max.
Proof.
  induction s as [|c s IH]; intros acc n Ha; simpl; [by intros [= <-]|].
  destruct (digit c) as [d|]; [|done].
  destruct (N.leb_spec (acc * 10 + d) max); [|done]. by apply IH.
Qed.

Lemma parse_unsigned_bound max s n : parse_unsigned max s = Some n -> n <= max.
Proof.
  unfold parse_unsigned. destruct s as [|c s]; [done|].
  destruct (Ascii.eqb c "+"); [destruct (is_empty s); [done|]|]; apply digits_bound; lia.
Qed.

Section RetryLemmas.
  Context (instant_max instant_now system_now : N) (parse_http_date : string -> option N).

Lemma instant_add_Some secs t :
  instant_add instant_max instant_now secs = Some t -> t = instant_now + secs * NANOS_PER_SEC.
Proof. unfold instant_add, checked_add. case_match; [by intros [= <-]|done]. Qed.

Lemma instant_add_None secs :
  instant_add instant_max instant_now secs = None <->
  instant_max < instant_now + secs * NANOS_PER_SEC.
Proof.
  unfold instant_add, checked_add. destruct (N.leb_spec (instant_now + secs * NANOS_PER_SEC) instant_max);
    split; try done; lia.
Qed.
End RetryLemmas.

(** No wait the server asked for is shortened, and none is without bound.
    A reported reset that is ahead by at most a day is waited for in full and
    five seconds more; any other report, absent, past or implausible, gives an
    hour; so a wait is never zero nor longer than a day and five seconds.  The
    next epoch has at least one call, and stays the buffer below an entitlement
    above it.  A secondary limit's [Retry-After] is honoured to the second,
    rounded up, or it panics: exactly when the instant does not fit. *)
Lemma waits_exact reset limit now cancelled instant_max instant_now system_now parse_date headers
    body :
  let w := wait_for_reset reset now in
  (forall r, reset = Some r -> now < r -> r <= now + 24 * 3600 ->
     w = Stated (r - now + 5) /\ r + 5 = now + wait w) /\
  (w = Fallback Absent \/ w = Fallback Elapsed \/ w = Fallback ImplausiblyDistant ->
     wait w = 3600) /\
  5 < wait w <= 24 * 3600 + 5 /\
  (snd (replenish reset limit now cancelled) = Cancelled <-> cancelled = true) /\
  (forall c, snd (replenish reset limit now cancelled) = Ceiling c ->
     0 < c /\ (forall l, limit = Some l -> 100 < l -> c + 100 = l)) /\
  (forall text secs, headers "retry-after" = Some text ->
     parse_unsigned u64_max (trim text) = Some secs ->
     secondary_limit_resume_at instant_max instant_now system_now parse_date 429 headers body =
       if instant_max <? instant_now + secs * NANOS_PER_SEC then None
       else Some (Some (instant_now + secs * NANOS_PER_SEC))) /\
  (forall text target resume, headers "retry-after" = Some text ->
     parse_unsigned u64_max (trim text) = None -> parse_date (trim text) = Some target ->
     secondary_limit_resume_at instant_max instant_now system_now parse_date 429 headers body =
       Some (Some resume) ->
     instant_now + (target - system_now) <= resume < instant_now + (target - system_now) + NANOS_PER_SEC).
Proof.
  intros w. refine (conj _ (conj _ (conj _ (conj _ (conj _ (conj _ _)))))).
  - intros r -> H1 H2. subst w. unfold wait_for_reset.
    rewrite (proj2 (N.leb_gt _ _) H1).
    rewrite (proj2 (N.ltb_ge _ _)); [|unfold MAX_PLAUSIBLE_RESET_SECS; lia].
    unfold RESET_SLACK_SECS; simpl. split; [done|lia].
  - by intros [->|[->| ->]].
  - subst w. unfold wait_for_reset, wait, API_BUDGET_WAIT_SECS, RESET_SLACK_SECS.
    destruct reset as [r|]; [|simpl; lia]. destruct (N.leb_spec r now); [simpl; lia|].
    unfold MAX_PLAUSIBLE_RESET_SECS in *.
    destruct (N.ltb_spec (24 * 3600) (r - now)); simpl; lia.
  - destruct cancelled; simpl; by split.
  - intros c. destruct cancelled; simpl; [done|]. intros [= <-].
    unfold ceiling_from_entitlement, sat_sub, CEILING_BUFFER, CEILING_FLOOR. split.
    + destruct (N.eqb_spec (window_entitlement limit - 100) 0); lia.
    + intros l -> Hl. simpl. rewrite (proj2 (N.eqb_neq _ _)); lia.
  - intros text secs Hh Hp. unfold secondary_limit_resume_at, parse_retry_after. simpl.
    rewrite Hh Hp. unfold instant_add, checked_add.
    destruct (N.leb_spec (instant_now + secs * NANOS_PER_SEC) instant_max);
      [rewrite (proj2 (N.ltb_ge _ _)) //|rewrite (proj2 (N.ltb_lt _ _)) //].
  - intros text target resume Hh Hp Hd. unfold secondary_limit_resume_at, parse_retry_after. simpl.
    rewrite Hh Hp Hd. destruct (instant_add _ _ _) as [t|] eqn:E; [|done]. intros [= <-].
    apply instant_add_Some in E as ->. unfold sat_sub.
    pose proof (ceil_ge (target - system_now)). pose proof (ceil_lt (target - system_now)). lia.
Qed.

(** A server that asks for 2^64-1 seconds. *)
Definition huge_headers : Headers := fun name =>
  if String.eqb name "retry-after" then Some "18446744073709551615" else None.

(** On a platform whose instants count seconds in 63 bits, that is a panic. *)
Example huge_retry_after_panics :
  secondary_limit_resume_at (9223372036854775807 * NANOS_PER_SEC + 999999999) 0 0 (fun _ => None)
    429 huge_headers "" = None.
Proof. vm_compute. reflexivity. Qed.
