(* ===== verification/GitHub.v ===== *)
(** * What the collectors need of the GitHub client

    The collectors call the client through a few operations.  The interface
    states them as functions of the request, which is what one evaluation
    sees: no collector issues the same request twice.  [sanitize_path_segment]
    ([cherry_pit_web]) and [utf8_percent_encode] come from libraries and are
    members of the interface too. *)

From S2P Require Import Prelude Str Json Request.

Open Scope N_scope.

Class GitHubClient (V : Type) := {
  org_name : string;
  (** [client.request(path, paginate, max_retries, timeout_secs)]. *)
  request : string -> bool -> N -> N -> ApiOutcome V;
  (** [client.request_run(..)]: the same with the run's classification. *)
  request_run : string -> bool -> N -> N -> RequestRun V;
  repo_details : string -> ApiOutcome V;
  (** [sanitize_path_segment(value, "repo_name").ok()]. *)
  sanitize_path_segment : string -> option string;
  (** [utf8_percent_encode(s, NON_ALPHANUMERIC)]. *)
  percent_encode : string -> string;
}.

Section GitHub.
  Context {V : Type} `{GitHubClient V}.

(** The call every collector makes. *)
Definition request_default (path : string) : ApiOutcome V :=
    request path false DEFAULT_MAX_RETRIES DEFAULT_REQUEST_TIMEOUT_SECS.

(** [format!("/repos/{}/{}/...", client.org_name, safe_name)]. *)
Definition repo_path (safe_name rest : string) : string :=
    "/repos/" +:+ org_name +:+ "/" +:+ safe_name +:+ rest.
End GitHub.

(** A client over a table of answers, to run the collectors on examples. *)
Definition outcome_run {V} (o : ApiOutcome V) : RequestRun V :=
  match o with
  | Success s d h t => mkRequestRun (RunSuccess s d h t 1) false
  | Failure (Some s) e r => mkRequestRun (RunFailed (RF_Http s e r) 1) false
  | Failure None e _ => mkRequestRun (RunFailed (RF_Transport e false) 1) false
  end.

Definition table_answer {V} (answers : list (string * ApiOutcome V)) (path : string)
    : ApiOutcome V :=
  match List.find (fun p => String.eqb (fst p) path) answers with
  | Some (_, o) => o
  | None => Failure (Some 404) "not found" false
  end.

Definition table_client {V} (org : string) (answers : list (string * ApiOutcome V))
    (details : ApiOutcome V) : GitHubClient V := {|
  org_name := org;
  request path _ _ _ := table_answer answers path;
  request_run path _ _ _ := outcome_run (table_answer answers path);
  repo_details _ := details;
  sanitize_path_segment s := if is_empty s || contains_char "/"%char s then None else Some s;
  percent_encode s := s;
|}.
