(* ===== verification/Repository.v ===== *)
(** * Repositories ([domain/repository.rs])

    The inventory record of a repository with its partial equality (identity
    and structural fields only) and its ordering. *)

From S2P Require Import Prelude Str.

Inductive Visibility := Public | Internal | Private.
#[export] Instance Visibility_eq_dec : EqDecision Visibility.
Proof. solve_decision. Defined.

Definition Visibility_display (v : Visibility) : string :=
  match v with Public => "Public" | Internal => "Internal" | Private => "Private" end.

(** [UpdatedAt::new]: the nonempty spellings. *)
Definition UpdatedAt_new (raw : string) : option string :=
  if is_empty raw then None else Some raw.

Record Repository := mkRepository {
  repo_id : string;
  node_id : option string;
  repo_name : string;
  visibility : Visibility;
  language : option string;
  default_branch : string;
  archived : bool;
  inventory_key : string;
  updated_at : option string;
  has_issues : bool;
  pushed_at : option string;
  created_at : option string;
  description : option string;
  fork : bool;
  repo_is_empty : bool;
  html_url : option string;
  topics : list string;
  license_spdx : option string;
}.
#[export] Instance Repository_eq_dec : EqDecision Repository.
Proof. solve_decision. Defined.

(** [impl PartialEq for Repository]. *)
Definition Repository_eqb (a b : Repository) : bool :=
  bool_decide (repo_id a = repo_id b)
  && bool_decide (repo_name a = repo_name b)
  && bool_decide (visibility a = visibility b)
  && bool_decide (default_branch a = default_branch b)
  && bool_decide (archived a = archived b)
  && bool_decide (inventory_key a = inventory_key b)
  && bool_decide (updated_at a = updated_at b).

Definition is_public (r : Repository) : bool := bool_decide (visibility r = Public).

(** [impl Ord for Repository]. *)
Definition Repository_cmp (a b : Repository) : comparison :=
  match String.compare (repo_id a) (repo_id b) with
  | Eq => String.compare (repo_name a) (repo_name b)
  | c => c
  end.

(** ** Lemmas *)

(** The identity and structural fields, which the equality compares. *)
Definition structural (r : Repository) :=
  (repo_id r, repo_name r, visibility r, default_branch r, archived r,
   inventory_key r, updated_at r).

Lemma Repository_eqb_spec a b : Repository_eqb a b = true <-> structural a = structural b.
Proof.
  unfold Repository_eqb, structural. rewrite !andb_true_iff !bool_decide_eq_true.
  split; [intuition congruence|intros [=]; tauto].
Qed.

#[export] Instance Repository_eqb_equiv :
  Equivalence (fun a b => Repository_eqb a b = true).
Proof. split; repeat intro; rewrite ->Repository_eqb_spec in *; congruence. Qed.

Lemma compare_eq s1 s2 : String.compare s1 s2 = Eq <-> s1 = s2.
Proof.
  split; [apply String.compare_eq_iff|]. intros ->.
  pose proof (String.compare_antisym s2 s2) as H.
  destruct (String.compare s2 s2); simpl in H; congruence.
Qed.

(** The ordering separates less than the equality does: it ties exactly on
    the identifier and the name. *)
Lemma Repository_cmp_eq a b :
  Repository_cmp a b = Eq <-> repo_id a = repo_id b /\ repo_name a = repo_name b.
Proof.
  unfold Repository_cmp. pose proof (compare_eq (repo_id a) (repo_id b)) as Hi.
  pose proof (compare_eq (repo_name a) (repo_name b)) as Hn.
  destruct (String.compare (repo_id a) (repo_id b)); intuition congruence.
Qed.

Lemma Repository_cmp_antisym a b : Repository_cmp b a = CompOpp (Repository_cmp a b).
Proof.
  unfold Repository_cmp. rewrite (String.compare_antisym (repo_id b)).
  rewrite (String.compare_antisym (repo_name b)).
  by destruct (String.compare (repo_id a) (repo_id b)).
Qed.
