(* ===== verification/Checks.v ===== *)
(** * Check results ([domain/checks.rs], [domain/codeowners.rs])

    The outcome types of the five per-repository checks, their status, reason
    and score functions, and the merge of history-protection signals.  Each
    Rust enum is an inductive type; its constructors carry the initials of the
    enum.  Timestamps are the ISO strings the code stores; HTTP statuses are
    [N] ([u16]). *)

From S2P Require Import Prelude Str.

(** ** Reasons and score categories *)

Inductive IndeterminateReason :=
| IR_PermissionDenied | IR_PermissionSuspected | IR_Transient | IR_RateLimited
| IR_Invalid | IR_Pending.
#[export] Instance IndeterminateReason_eq_dec : EqDecision IndeterminateReason.
Proof. solve_decision. Defined.

Inductive ExclusionReason :=
| ER_PermissionDenied | ER_Unknown | ER_NotApplicable | ER_Other.
#[export] Instance ExclusionReason_eq_dec : EqDecision ExclusionReason.
Proof. solve_decision. Defined.

Definition ExclusionReason_display (r : ExclusionReason) : string :=
  match r with
  | ER_PermissionDenied => "permission_denied"
  | ER_Unknown => "unknown"
  | ER_NotApplicable => "not_applicable"
  | ER_Other => "other"
  end.

Inductive ScoreCategory :=
| SC_Pass | SC_Fail | SC_Excluded (r : ExclusionReason).
#[export] Instance ScoreCategory_eq_dec : EqDecision ScoreCategory.
Proof. solve_decision. Defined.

Inductive CheckType :=
| CT_SecurityPolicy | CT_SecretScanning | CT_Dependabot | CT_BranchProtection
| CT_Codeowners.
#[export] Instance CheckType_eq_dec : EqDecision CheckType.
Proof. solve_decision. Defined.

(** [CheckType::ALL]. *)
Definition CheckType_ALL : list CheckType :=
  [CT_SecurityPolicy; CT_SecretScanning; CT_Dependabot; CT_BranchProtection;
   CT_Codeowners].

(** ** Security policy *)

Record SecurityPolicyPath := mkSecurityPolicyPath { policy_path : string }.
#[export] Instance SecurityPolicyPath_eq_dec : EqDecision SecurityPolicyPath.
Proof. solve_decision. Defined.

Definition SecurityPolicyPath_new (raw : string) : option SecurityPolicyPath :=
  if is_empty raw then None else Some (mkSecurityPolicyPath raw).

Definition SecurityPolicyPath_try_from (value : string)
    : result string SecurityPolicyPath :=
  match SecurityPolicyPath_new value with
  | Some p => Ok p
  | None => Err "security policy path must not be empty"
  end.

Inductive SecurityPolicyResult :=
| SPR_EnabledBySetting (timestamp : string)
| SPR_EnabledByFile (path : SecurityPolicyPath) (timestamp : string)
| SPR_Absent (timestamp : string)
| SPR_Unobservable (reason : IndeterminateReason) (timestamp : string)
| SPR_NotApplicable (timestamp : string).
#[export] Instance SecurityPolicyResult_eq_dec : EqDecision SecurityPolicyResult.
Proof. solve_decision. Defined.

Inductive SecurityPolicyStatus := SPS_Pass | SPS_Fail | SPS_Unknown | SPS_NotApplicable.
#[export] Instance SecurityPolicyStatus_eq_dec : EqDecision SecurityPolicyStatus.
Proof. solve_decision. Defined.

Inductive SecurityPolicyEvidence :=
| SPE_Setting | SPE_File | SPE_Absent | SPE_PermissionDenied | SPE_TransientError
| SPE_CollectionError | SPE_NotApplicable.
#[export] Instance SecurityPolicyEvidence_eq_dec : EqDecision SecurityPolicyEvidence.
Proof. solve_decision. Defined.

Definition SecurityPolicyResult_status (r : SecurityPolicyResult) : SecurityPolicyStatus :=
  match r with
  | SPR_EnabledBySetting _ | SPR_EnabledByFile _ _ => SPS_Pass
  | SPR_Absent _ => SPS_Fail
  | SPR_Unobservable _ _ => SPS_Unknown
  | SPR_NotApplicable _ => SPS_NotApplicable
  end.

Definition SecurityPolicyResult_evidence (r : SecurityPolicyResult)
    : SecurityPolicyEvidence :=
  match r with
  | SPR_EnabledBySetting _ => SPE_Setting
  | SPR_EnabledByFile _ _ => SPE_File
  | SPR_Absent _ => SPE_Absent
  | SPR_NotApplicable _ => SPE_NotApplicable
  | SPR_Unobservable reason _ =>
    match reason with
    | IR_PermissionDenied | IR_PermissionSuspected => SPE_PermissionDenied
    | IR_Transient => SPE_TransientError
    | IR_RateLimited | IR_Invalid | IR_Pending => SPE_CollectionError
    end
  end.

Definition SecurityPolicyResult_path (r : SecurityPolicyResult) : option string :=
  match r with
  | SPR_EnabledByFile path _ => Some (policy_path path)
  | SPR_EnabledBySetting _ | SPR_Absent _ | SPR_Unobservable _ _
  | SPR_NotApplicable _ => None
  end.

Definition SecurityPolicyResult_timestamp (r : SecurityPolicyResult) : string :=
  match r with
  | SPR_EnabledBySetting t | SPR_EnabledByFile _ t | SPR_Absent t
  | SPR_Unobservable _ t | SPR_NotApplicable t => t
  end.

(** [From<SecurityPolicyStatus> for ScoreCategory]. *)
Definition ScoreCategory_of_policy_status (s : SecurityPolicyStatus) : ScoreCategory :=
  match s with
  | SPS_Pass => SC_Pass
  | SPS_Fail => SC_Fail
  | SPS_Unknown => SC_Excluded ER_Unknown
  | SPS_NotApplicable => SC_Excluded ER_NotApplicable
  end.

(** [From<&SecurityPolicyResult> for ScoreCategory]. *)
Definition ScoreCategory_of_policy (r : SecurityPolicyResult) : ScoreCategory :=
  match r with
  | SPR_Unobservable reason _ =>
    SC_Excluded
      match reason with
      | IR_PermissionDenied | IR_PermissionSuspected => ER_PermissionDenied
      | IR_Transient | IR_RateLimited | IR_Invalid | IR_Pending => ER_Other
      end
  | SPR_EnabledBySetting _ | SPR_EnabledByFile _ _ | SPR_Absent _
  | SPR_NotApplicable _ => ScoreCategory_of_policy_status (SecurityPolicyResult_status r)
  end.

(** ** Secret scanning *)

Inductive SecretScanningFailureReason :=
| SF_PermissionDenied | SF_PermissionSuspected | SF_RateLimited | SF_Transient
| SF_Unavailable | SF_InsufficientEvidence | SF_Conflict | SF_Invalid | SF_Pending.
#[export] Instance SecretScanningFailureReason_eq_dec :
  EqDecision SecretScanningFailureReason.
Proof. solve_decision. Defined.

Inductive ProbeSource := PS_OrgSummary | PS_PerRepoEndpoint.
#[export] Instance ProbeSource_eq_dec : EqDecision ProbeSource.
Proof. solve_decision. Defined.

Inductive MetadataUnavailable :=
| MU_Missing (http_status : option N)
| MU_Malformed (http_status : option N)
| MU_Failure (reason : SecretScanningFailureReason) (http_status : option N).
#[export] Instance MetadataUnavailable_eq_dec : EqDecision MetadataUnavailable.
Proof. solve_decision. Defined.

Definition MetadataUnavailable_failure_reason (m : MetadataUnavailable)
    : SecretScanningFailureReason :=
  match m with
  | MU_Missing _ => SF_InsufficientEvidence
  | MU_Malformed _ => SF_Invalid
  | MU_Failure reason _ => reason
  end.

Inductive SecretScanningAlerts :=
| SA_Observable (source : ProbeSource) (has_open_alerts : bool) (http_status : option N)
| SA_Unobservable (source : ProbeSource) (reason : SecretScanningFailureReason)
    (http_status : option N).
#[export] Instance SecretScanningAlerts_eq_dec : EqDecision SecretScanningAlerts.
Proof. solve_decision. Defined.

Inductive EnabledProvenance :=
| EP_Metadata (http_status : option N) (alerts : SecretScanningAlerts)
| EP_Fallback (metadata : MetadataUnavailable) (has_open_alerts : bool)
    (http_status : option N).
#[export] Instance EnabledProvenance_eq_dec : EqDecision EnabledProvenance.
Proof. solve_decision. Defined.

Inductive DisabledObservation :=
| DO_NoMismatch (source : ProbeSource) (http_status : option N)
| DO_StatusMismatch (source : ProbeSource) (http_status : option N)
| DO_ProbeFailed (source : ProbeSource) (reason : SecretScanningFailureReason)
    (http_status : option N).
#[export] Instance DisabledObservation_eq_dec : EqDecision DisabledObservation.
Proof. solve_decision. Defined.

Inductive UnobservableProbe :=
| UP_Failed (source : ProbeSource) (reason : SecretScanningFailureReason)
    (http_status : option N)
| UP_OrgSummaryObserved (has_open_alerts : bool) (http_status : option N).
#[export] Instance UnobservableProbe_eq_dec : EqDecision UnobservableProbe.
Proof. solve_decision. Defined.

Inductive SecretScanningResult :=
| SSR_Enabled (provenance : EnabledProvenance) (timestamp : string)
| SSR_Disabled (metadata_http_status : option N) (observation : DisabledObservation)
    (timestamp : string)
| SSR_Unobservable (metadata : MetadataUnavailable) (probe : UnobservableProbe)
    (timestamp : string).
#[export] Instance SecretScanningResult_eq_dec : EqDecision SecretScanningResult.
Proof. solve_decision. Defined.

Inductive SecretScanningStatus := SSS_Enabled | SSS_Disabled | SSS_PermissionDenied | SSS_Unknown.
#[export] Instance SecretScanningStatus_eq_dec : EqDecision SecretScanningStatus.
Proof. solve_decision. Defined.

Definition SecretScanningResult_status (r : SecretScanningResult) : SecretScanningStatus :=
  match r with
  | SSR_Enabled _ _ => SSS_Enabled
  | SSR_Disabled _ _ _ => SSS_Disabled
  | SSR_Unobservable (MU_Failure (SF_PermissionDenied | SF_PermissionSuspected) _) _ _
  | SSR_Unobservable _ (UP_Failed _ (SF_PermissionDenied | SF_PermissionSuspected) _) _ =>
    SSS_PermissionDenied
  | SSR_Unobservable _ _ _ => SSS_Unknown
  end.

Definition SecretScanningResult_timestamp (r : SecretScanningResult) : string :=
  match r with
  | SSR_Enabled _ t | SSR_Disabled _ _ t | SSR_Unobservable _ _ t => t
  end.

Definition SecretScanningResult_with_timestamp (value : string) (r : SecretScanningResult)
    : SecretScanningResult :=
  match r with
  | SSR_Enabled p _ => SSR_Enabled p value
  | SSR_Disabled m o _ => SSR_Disabled m o value
  | SSR_Unobservable m p _ => SSR_Unobservable m p value
  end.

Definition has_open_alerts (r : SecretScanningResult) : option bool :=
  match r with
  | SSR_Enabled (EP_Metadata _ (SA_Observable _ b _)) _
  | SSR_Enabled (EP_Fallback _ b _) _ => Some b
  | SSR_Enabled _ _ | SSR_Disabled _ _ _ | SSR_Unobservable _ _ _ => None
  end.

Definition alerts_observable (r : SecretScanningResult) : bool :=
  match has_open_alerts r with Some _ => true | None => false end.

Definition status_mismatch (r : SecretScanningResult) : bool :=
  match r with
  | SSR_Disabled _ (DO_StatusMismatch _ _) _ => true
  | _ => false
  end.

Definition SecretScanningResult_failure_reason (r : SecretScanningResult)
    : option SecretScanningFailureReason :=
  match r with
  | SSR_Enabled (EP_Metadata _ (SA_Unobservable _ reason _)) _
  | SSR_Disabled _ (DO_ProbeFailed _ reason _) _
  | SSR_Unobservable _ (UP_Failed _ reason _) _ => Some reason
  | SSR_Unobservable metadata _ _ => Some (MetadataUnavailable_failure_reason metadata)
  | SSR_Enabled _ _ | SSR_Disabled _ _ _ => None
  end.

Definition SecretScanningResult_reason (r : SecretScanningResult) : option string :=
  match status_mismatch r, SecretScanningResult_failure_reason r with
  | true, _ => Some "status_mismatch"
  | _, Some (SF_PermissionDenied | SF_PermissionSuspected) => Some "permission_denied"
  | _, Some SF_RateLimited => Some "rate_limited"
  | _, Some SF_Transient => Some "transient_error"
  | _, Some SF_Unavailable => Some "alerts_unavailable"
  | _, Some SF_InsufficientEvidence => Some "insufficient_evidence"
  | _, Some SF_Conflict => Some "conflict"
  | _, Some SF_Invalid => Some "collection_error"
  | _, Some SF_Pending => Some "pending"
  | _, None => None
  end.

(** [SecretScanningResult::unobservable]. *)
Definition SecretScanningResult_unobservable (reason : SecretScanningFailureReason)
    (timestamp : string) : SecretScanningResult :=
  SSR_Unobservable (MU_Failure reason None)
    (UP_Failed PS_PerRepoEndpoint reason None) timestamp.

Definition SecretScanningStatus_display (s : SecretScanningStatus) : string :=
  match s with
  | SSS_Enabled => "enabled"
  | SSS_Disabled => "disabled"
  | SSS_PermissionDenied => "permission_denied"
  | SSS_Unknown => "unknown"
  end.

(** [From<SecretScanningStatus> for ScoreCategory]. *)
Definition ScoreCategory_of_secret_status (s : SecretScanningStatus) : ScoreCategory :=
  match s with
  | SSS_Enabled => SC_Pass
  | SSS_Disabled => SC_Fail
  | SSS_PermissionDenied => SC_Excluded ER_PermissionDenied
  | SSS_Unknown => SC_Excluded ER_Unknown
  end.

(** [From<&SecretScanningResult> for ScoreCategory]. *)
Definition ScoreCategory_of_secret (r : SecretScanningResult) : ScoreCategory :=
  match SecretScanningResult_status r with
  | SSS_Enabled => SC_Pass
  | SSS_Disabled => SC_Fail
  | SSS_PermissionDenied => SC_Excluded ER_PermissionDenied
  | SSS_Unknown =>
    SC_Excluded
      match SecretScanningResult_failure_reason r with
      | Some (SF_RateLimited | SF_Transient | SF_Invalid | SF_Pending) => ER_Other
      | _ => ER_Unknown
      end
  end.

(** ** Dependabot security updates *)

Inductive DependabotStatus := DS_Enabled | DS_Paused | DS_Disabled | DS_Unknown.
#[export] Instance DependabotStatus_eq_dec : EqDecision DependabotStatus.
Proof. solve_decision. Defined.

Record DependabotResult := mkDependabotResult {
  dependabot_status : DependabotStatus;
  dependabot_reason : option string;
  dependabot_timestamp : string;
}.
#[export] Instance DependabotResult_eq_dec : EqDecision DependabotResult.
Proof. solve_decision. Defined.

Definition DependabotStatus_display (s : DependabotStatus) : string :=
  match s with
  | DS_Enabled => "enabled"
  | DS_Paused => "paused"
  | DS_Disabled => "disabled"
  | DS_Unknown => "unknown"
  end.

(** [From<DependabotStatus> for ScoreCategory]. *)
Definition ScoreCategory_of_dependabot (s : DependabotStatus) : ScoreCategory :=
  match s with
  | DS_Enabled => SC_Pass
  | DS_Paused | DS_Disabled => SC_Fail
  | DS_Unknown => SC_Excluded ER_Unknown
  end.

(** ** Branch protection *)

Inductive HistoryProtectionGap :=
| HG_Absent (confirmed_not_found : bool) (http_status : option N)
| HG_NeitherBlocked
| HG_ForcePushAllowed
| HG_DeletionAllowed.
#[export] Instance HistoryProtectionGap_eq_dec : EqDecision HistoryProtectionGap.
Proof. solve_decision. Defined.

Definition HistoryProtectionGap_is_absent (g : HistoryProtectionGap) : bool :=
  match g with HG_Absent _ _ => true | _ => false end.

Definition HistoryProtectionGap_http_status (g : HistoryProtectionGap) : option N :=
  match g with
  | HG_Absent _ http_status => http_status
  | HG_NeitherBlocked | HG_ForcePushAllowed | HG_DeletionAllowed => None
  end.

Inductive BranchProtectionResult :=
| BPR_Protected (default_branch timestamp : string)
| BPR_Unprotected (default_branch : string) (gap : HistoryProtectionGap)
    (timestamp : string)
| BPR_Unobservable (default_branch : string) (reason : IndeterminateReason)
    (http_status : option N) (timestamp : string).
#[export] Instance BranchProtectionResult_eq_dec : EqDecision BranchProtectionResult.
Proof. solve_decision. Defined.

Inductive CollectionFailureReason :=
| CF_PermissionDenied | CF_PermissionSuspected | CF_NotFoundAbsent | CF_Transient
| CF_RateLimited | CF_Invalid.
#[export] Instance CollectionFailureReason_eq_dec : EqDecision CollectionFailureReason.
Proof. solve_decision. Defined.

Definition CollectionFailureReason_display (r : CollectionFailureReason) : string :=
  match r with
  | CF_PermissionDenied => "permission_denied"
  | CF_PermissionSuspected => "permission_suspected"
  | CF_NotFoundAbsent => "not_found_absent"
  | CF_Transient => "transient"
  | CF_RateLimited => "rate_limited"
  | CF_Invalid => "invalid"
  end.

Record HistorySignals := mkHistorySignals {
  force_push_blocked : option bool;
  deletion_blocked : option bool;
}.
#[export] Instance HistorySignals_eq_dec : EqDecision HistorySignals.
Proof. solve_decision. Defined.

(** The loop of [merge_optional_blocking_signal], with its accumulator. *)
Fixpoint merge_loop (select : HistorySignals -> option bool) (saw_unblocked : bool)
    (signals : list HistorySignals) : option bool :=
  match signals with
  | [] => if saw_unblocked then Some false else None
  | signal :: signals =>
    match select signal with
    | Some true => Some true
    | Some false => merge_loop select true signals
    | None => merge_loop select saw_unblocked signals
    end
  end.

Definition merge_optional_blocking_signal (signals : list HistorySignals)
    (select : HistorySignals -> option bool) : option bool :=
  merge_loop select false signals.

Definition HistorySignals_merge (signals : list HistorySignals) : option HistorySignals :=
  match signals with
  | [] => None
  | _ =>
    Some (mkHistorySignals
      (merge_optional_blocking_signal signals force_push_blocked)
      (merge_optional_blocking_signal signals deletion_blocked))
  end.

Definition BranchProtectionResult_timestamp (r : BranchProtectionResult) : string :=
  match r with
  | BPR_Protected _ t | BPR_Unprotected _ _ t | BPR_Unobservable _ _ _ t => t
  end.

Definition BranchProtectionResult_default_branch (r : BranchProtectionResult) : string :=
  match r with
  | BPR_Protected b _ | BPR_Unprotected b _ _ | BPR_Unobservable b _ _ _ => b
  end.

Definition is_protected (r : BranchProtectionResult) : bool :=
  match r with BPR_Protected _ _ => true | _ => false end.

Definition is_observed (r : BranchProtectionResult) : bool :=
  match r with BPR_Unobservable _ _ _ _ => false | _ => true end.

Definition is_pending (r : BranchProtectionResult) : bool :=
  match r with BPR_Unobservable _ IR_Pending _ _ => true | _ => false end.

Definition BranchProtectionResult_gap (r : BranchProtectionResult)
    : option HistoryProtectionGap :=
  match r with
  | BPR_Unprotected _ gap _ => Some gap
  | BPR_Protected _ _ | BPR_Unobservable _ _ _ _ => None
  end.

Definition BranchProtectionResult_http_status (r : BranchProtectionResult) : option N :=
  match r with
  | BPR_Unobservable _ _ http_status _ => http_status
  | BPR_Unprotected _ gap _ => HistoryProtectionGap_http_status gap
  | BPR_Protected _ _ => None
  end.

(** [BranchProtectionResult::score_category]. *)
Definition score_category (r : BranchProtectionResult) : ScoreCategory :=
  match r with
  | BPR_Protected _ _ => SC_Pass
  | BPR_Unprotected _ _ _ => SC_Fail
  | BPR_Unobservable _ reason _ _ =>
    SC_Excluded
      match reason with
      | IR_PermissionDenied | IR_PermissionSuspected => ER_PermissionDenied
      | IR_Transient | IR_RateLimited | IR_Invalid | IR_Pending => ER_Other
      end
  end.

Definition from_history_signals (default_branch : string)
    (force_push_blocked deletion_blocked : option bool) (timestamp : string)
    : BranchProtectionResult :=
  match default false force_push_blocked, default false deletion_blocked with
  | true, true => BPR_Protected default_branch timestamp
  | false, true => BPR_Unprotected default_branch HG_ForcePushAllowed timestamp
  | true, false => BPR_Unprotected default_branch HG_DeletionAllowed timestamp
  | false, false => BPR_Unprotected default_branch HG_NeitherBlocked timestamp
  end.

(** ** CODEOWNERS *)

Inductive CodeownersTruncationReason :=
| TR_NotBase64Encoded | TR_OversizedBase64 | TR_ContentMissing | TR_DecodeFailed
| TR_InvalidUtf8.
#[export] Instance CodeownersTruncationReason_eq_dec :
  EqDecision CodeownersTruncationReason.
Proof. solve_decision. Defined.

Record CodeownersEntry := mkCodeownersEntry {
  entry_pattern : string;
  entry_owners : list string;
}.
#[export] Instance CodeownersEntry_eq_dec : EqDecision CodeownersEntry.
Proof. solve_decision. Defined.

Record ParsedCodeowners := mkParsedCodeowners {
  entries : list CodeownersEntry;
  unique_owners : list string;
  skipped_lines : N;
}.
#[export] Instance ParsedCodeowners_eq_dec : EqDecision ParsedCodeowners.
Proof. solve_decision. Defined.

Inductive CodeownersContent :=
| CC_Parsed (parsed : ParsedCodeowners)
| CC_Truncated (reason : CodeownersTruncationReason)
| CC_Unparsed.
#[export] Instance CodeownersContent_eq_dec : EqDecision CodeownersContent.
Proof. solve_decision. Defined.

Inductive CodeownersNonConformingLocation := CL_Root | CL_Docs.
#[export] Instance CodeownersNonConformingLocation_eq_dec :
  EqDecision CodeownersNonConformingLocation.
Proof. solve_decision. Defined.

Inductive CodeownersResult :=
| COR_Conforming (content : CodeownersContent) (timestamp : string)
| COR_NonConforming (location : CodeownersNonConformingLocation)
    (content : CodeownersContent) (timestamp : string)
| COR_Absent (timestamp : string)
| COR_Unobservable (reason : IndeterminateReason) (timestamp : string).
#[export] Instance CodeownersResult_eq_dec : EqDecision CodeownersResult.
Proof. solve_decision. Defined.

Inductive CodeownersStatus := COS_Conforming | COS_NonConforming | COS_Absent | COS_Unknown.
#[export] Instance CodeownersStatus_eq_dec : EqDecision CodeownersStatus.
Proof. solve_decision. Defined.

Definition CodeownersResult_status (r : CodeownersResult) : CodeownersStatus :=
  match r with
  | COR_Conforming _ _ => COS_Conforming
  | COR_NonConforming _ _ _ => COS_NonConforming
  | COR_Absent _ => COS_Absent
  | COR_Unobservable _ _ => COS_Unknown
  end.

Definition CodeownersResult_path (r : CodeownersResult) : option string :=
  match r with
  | COR_Conforming _ _ => Some ".github/CODEOWNERS"
  | COR_NonConforming CL_Root _ _ => Some "CODEOWNERS"
  | COR_NonConforming CL_Docs _ _ => Some "docs/CODEOWNERS"
  | COR_Absent _ | COR_Unobservable _ _ => None
  end.

Definition CodeownersResult_timestamp (r : CodeownersResult) : string :=
  match r with
  | COR_Conforming _ t | COR_NonConforming _ _ t | COR_Absent t
  | COR_Unobservable _ t => t
  end.

Definition CodeownersResult_with_timestamp (value : string) (r : CodeownersResult)
    : CodeownersResult :=
  match r with
  | COR_Conforming c _ => COR_Conforming c value
  | COR_NonConforming l c _ => COR_NonConforming l c value
  | COR_Absent _ => COR_Absent value
  | COR_Unobservable reason _ => COR_Unobservable reason value
  end.

Definition CodeownersResult_parsed (r : CodeownersResult) : option ParsedCodeowners :=
  match r with
  | COR_Conforming (CC_Parsed parsed) _
  | COR_NonConforming _ (CC_Parsed parsed) _ => Some parsed
  | COR_Conforming _ _ | COR_NonConforming _ _ _ | COR_Absent _
  | COR_Unobservable _ _ => None
  end.

Definition CodeownersResult_truncation (r : CodeownersResult)
    : option CodeownersTruncationReason :=
  match r with
  | COR_Conforming (CC_Truncated reason) _
  | COR_NonConforming _ (CC_Truncated reason) _ => Some reason
  | COR_Conforming _ _ | COR_NonConforming _ _ _ | COR_Absent _
  | COR_Unobservable _ _ => None
  end.

(** [From<CodeownersStatus> for ScoreCategory]. *)
Definition ScoreCategory_of_codeowners_status (s : CodeownersStatus) : ScoreCategory :=
  match s with
  | COS_Conforming => SC_Pass
  | COS_NonConforming | COS_Absent => SC_Fail
  | COS_Unknown => SC_Excluded ER_Unknown
  end.

(** [From<&CodeownersResult> for ScoreCategory]. *)
Definition ScoreCategory_of_codeowners (r : CodeownersResult) : ScoreCategory :=
  match r with
  | COR_Unobservable reason _ =>
    SC_Excluded
      match reason with
      | IR_PermissionDenied | IR_PermissionSuspected => ER_PermissionDenied
      | IR_Transient | IR_RateLimited | IR_Invalid | IR_Pending => ER_Other
      end
  | COR_Conforming _ _ | COR_NonConforming _ _ _ | COR_Absent _ =>
    ScoreCategory_of_codeowners_status (CodeownersResult_status r)
  end.

Definition CodeownersStatus_display (s : CodeownersStatus) : string :=
  match s with
  | COS_Conforming => "conforming"
  | COS_NonConforming => "non_conforming"
  | COS_Absent => "absent"
  | COS_Unknown => "unknown"
  end.

(** ** The five checks together *)

Record RepositoryChecks := mkRepositoryChecks {
  security_policy : SecurityPolicyResult;
  secret_scanning : SecretScanningResult;
  dependabot_security_updates : DependabotResult;
  branch_protection : BranchProtectionResult;
  codeowners : CodeownersResult;
}.
#[export] Instance RepositoryChecks_eq_dec : EqDecision RepositoryChecks.
Proof. solve_decision. Defined.

Definition observed_at (c : RepositoryChecks) : string :=
  BranchProtectionResult_timestamp (branch_protection c).

(** ** Lemmas *)

Lemma merge_loop_spec select saw signals :
  merge_loop select saw signals =
  if existsb (fun s => bool_decide (select s = Some true)) signals then Some true
  else if saw || existsb (fun s => bool_decide (select s = Some false)) signals
       then Some false
       else None.
Proof.
  revert saw. induction signals as [|s signals IH]; intros saw; simpl.
  - by rewrite orb_false_r.
  - destruct (select s) as [[]|]; rewrite ?IH; simpl; try done.
    by rewrite orb_true_r.
Qed.

(** The merged signal as a specification: a block anywhere decides, then an
    observed non-block, and silence only when every source is silent. *)
Definition merge_signal_spec (os : list (option bool)) : option bool :=
  if decide (Some true ∈ os) then Some true
  else if decide (Some false ∈ os) then Some false else None.

Lemma existsb_select (select : HistorySignals -> option bool) o signals :
  existsb (fun s => bool_decide (select s = o)) signals = bool_decide (o ∈ map select signals).
Proof.
  induction signals as [|s signals IH]; simpl; [done|].
  rewrite IH. repeat case_bool_decide; set_solver.
Qed.

Lemma merge_optional_blocking_signal_spec signals select :
  merge_optional_blocking_signal signals select =
  merge_signal_spec (map select signals).
Proof.
  unfold merge_optional_blocking_signal, merge_signal_spec.
  rewrite merge_loop_spec !existsb_select. simpl.
  by repeat (case_bool_decide || case_decide).
Qed.

Lemma elem_of_map {A B} (f : A -> B) l y : y ∈ map f l <-> exists x, x ∈ l /\ f x = y.
Proof.
  rewrite list_elem_of_In in_map_iff. setoid_rewrite list_elem_of_In. naive_solver.
Qed.

Lemma merge_blocking_true signals select :
  merge_optional_blocking_signal signals select = Some true <->
  exists x, x ∈ signals /\ select x = Some true.
Proof.
  rewrite merge_optional_blocking_signal_spec /merge_signal_spec -elem_of_map.
  repeat case_decide; naive_solver.
Qed.

Lemma is_protected_from_history_signals b fp del t :
  is_protected (from_history_signals b fp del t) = true <->
  fp = Some true /\ del = Some true.
Proof. destruct fp as [[]|], del as [[]|]; simpl; naive_solver. Qed.

Lemma is_observed_from_history_signals b fp del t :
  is_observed (from_history_signals b fp del t) = true.
Proof. by destruct fp as [[]|], del as [[]|]. Qed.

(** A definite score is a definite observation. *)
Lemma score_category_excluded r :
  (exists e, score_category r = SC_Excluded e) <-> is_observed r = false.
Proof. destruct r as [| |? [] ]; simpl; naive_solver. Qed.

Lemma alerts_only_when_enabled r b :
  has_open_alerts r = Some b -> SecretScanningResult_status r = SSS_Enabled.
Proof. destruct r as [[? []|]| |]; naive_solver. Qed.

Lemma mismatch_only_when_disabled r :
  status_mismatch r = true -> SecretScanningResult_status r = SSS_Disabled.
Proof. destruct r as [|? []|]; naive_solver. Qed.

Lemma no_failure_reason r :
  SecretScanningResult_failure_reason r = None ->
  SecretScanningResult_status r = SSS_Enabled \/ SecretScanningResult_status r = SSS_Disabled.
Proof. destruct r as [| |? []]; naive_solver. Qed.

Lemma SecurityPolicyPath_new_wf raw p :
  SecurityPolicyPath_new raw = Some p -> policy_path p = raw /\ policy_path p <> "".
Proof. unfold SecurityPolicyPath_new. destruct raw; simpl; naive_solver. Qed.
