(* ===== verification/PatternMatch.v ===== *)
(** * Wildcard matching ([pattern_match.rs])

    The slash-sensitive matcher with its two recursion bounds, and the
    relations that say what a pattern denotes.  The matcher is characterised
    exactly: it answers [true] when the pattern denotes the candidate and the
    pattern fits the two depth bounds. *)

From S2P Require Import Prelude Str.
From Stdlib Require Ascii.

Open Scope N_scope.

(** ** The matcher *)

(** [&candidate[i..]] for [i] in [0..=candidate.len()], in order. *)
Fixpoint suffixes (s : string) : list string :=
  s :: match s with EmptyString => [] | String _ s => suffixes s end.

Fixpoint fnmatch_bytes (pattern candidate : string) (depth max_depth : N) : bool :=
  if max_depth <? depth then false
  else
    match pattern with
    | EmptyString => is_empty candidate
    | String ch pattern =>
      if Ascii.eqb ch "*"%char then
        existsb (fun c => fnmatch_bytes pattern c (depth + 1) max_depth)
          (suffixes candidate)
      else if Ascii.eqb ch "?"%char then
        match candidate with
        | EmptyString => false
        | String _ candidate => fnmatch_bytes pattern candidate (depth + 1) max_depth
        end
      else
        match candidate with
        | EmptyString => false
        | String b candidate =>
          if negb (Ascii.eqb b ch) then false
          else fnmatch_bytes pattern candidate (depth + 1) max_depth
        end
    end.

(** The loop of [fnmatch_segment]: [last] is [out.last()]. *)
Fixpoint collapse_stars (last : option Ascii.ascii) (raw : string) : string :=
  match raw with
  | EmptyString => EmptyString
  | String b raw =>
    if Ascii.eqb b "*"%char && bool_decide (last = Some "*"%char)
    then collapse_stars last raw
    else String b (collapse_stars (Some b) raw)
  end.

Definition fnmatch_segment (pattern candidate : string) (max_depth : N) : bool :=
  fnmatch_bytes (collapse_stars None pattern) candidate 0 max_depth.

Definition MAX_SEGMENT_RECURSION_DEPTH : N := 64.

(** [&candidate_parts[i..]] for [i] in [0..=len]. *)
Fixpoint list_suffixes {A} (l : list A) : list (list A) :=
  l :: match l with [] => [] | _ :: l => list_suffixes l end.

Fixpoint match_path_segments (pattern_parts candidate_parts : list string)
    (depth max_fnmatch_depth : N) : bool :=
  if MAX_SEGMENT_RECURSION_DEPTH <? depth then false
  else
    match pattern_parts with
    | [] => match candidate_parts with [] => true | _ => false end
    | head :: tail =>
      if bool_decide (head = "**") then
        match tail with
        | [] => true
        | _ =>
          existsb (fun cs => match_path_segments tail cs (depth + 1) max_fnmatch_depth)
            (list_suffixes candidate_parts)
        end
      else
        match candidate_parts with
        | [] => false
        | c :: cs =>
          if negb (fnmatch_segment head c max_fnmatch_depth) then false
          else match_path_segments tail cs (depth + 1) max_fnmatch_depth
        end
    end.

(** [pattern_match::path_pattern_matches]. *)
Definition path_pattern_matches (pattern candidate : string) (max_fnmatch_depth : N) : bool :=
  match_path_segments (split_char "/"%char pattern) (split_char "/"%char candidate) 0 max_fnmatch_depth.

(** ** What a pattern denotes *)

Inductive fn_denotes : string -> string -> Prop :=
| fn_end : fn_denotes EmptyString EmptyString
| fn_star p u c : fn_denotes p c -> fn_denotes (String "*"%char p) (u +:+ c)
| fn_question p b c : fn_denotes p c -> fn_denotes (String "?"%char p) (String b c)
| fn_literal ch p c :
    ch <> "*"%char -> ch <> "?"%char ->
    fn_denotes p c -> fn_denotes (String ch p) (String ch c).

Inductive path_denotes : list string -> list string -> Prop :=
| path_end : path_denotes [] []
| path_stars ps u cs : path_denotes ps cs -> path_denotes ("**" :: ps) (u ++ cs)
| path_rest cs : path_denotes ["**"] cs
| path_segment p ps c cs :
    p <> "**" -> fn_denotes p c -> path_denotes ps cs ->
    path_denotes (p :: ps) (c :: cs).

(** A pattern within the bounds: every ordinary segment fits the byte-level
    bound once its runs of stars are collapsed, and the number of segments,
    less a final [**] that needs no recursion, fits the segment-level one. *)
Definition segment_fits (m : N) (p : string) : Prop :=
  p = "**" \/ N.of_nat (String.length (collapse_stars None p)) <= m.

Fixpoint segment_steps (ps : list string) : N :=
  match ps with
  | [] => 0
  | [p] => if bool_decide (p = "**") then 0 else 1
  | _ :: ps => 1 + segment_steps ps
  end.

Definition pattern_fits (m : N) (pattern : string) : Prop :=
  Forall (segment_fits m) (split_char "/"%char pattern) /\
  segment_steps (split_char "/"%char pattern) <= MAX_SEGMENT_RECURSION_DEPTH.

(** ** The byte-level engine *)

Lemma in_suffixes c s : In c (suffixes s) <-> exists u, s = u +:+ c.
Proof.
  induction s as [|a s IH]; cbn [suffixes In].
  - split; [intros [<-|[]]; by exists EmptyString|].
    intros [u Hu]. destruct u; [by left|discriminate].
  - rewrite IH. split.
    + intros [<-|[u ->]]; [by exists EmptyString|by exists (String a u)].
    + intros [[|b u] Hu]; [by left|]. injection Hu as -> ->. right. by exists u.
Qed.

Lemma fn_denotes_star p c :
  fn_denotes (String "*"%char p) c <-> exists u c', c = u +:+ c' /\ fn_denotes p c'.
Proof.
  split.
  - intros H. inversion H; subst; [by eauto|done].
  - intros (u & c' & -> & H). by constructor.
Qed.

Lemma fnmatch_bytes_spec p c d m :
  fnmatch_bytes p c d m = true <->
  fn_denotes p c /\ d + N.of_nat (String.length p) <= m.
Proof.
  revert c d. induction p as [|ch p IH]; intros c d; cbn [fnmatch_bytes String.length].
  - destruct (N.ltb_spec m d).
    + split; [done|]. intros [_ ?]. lia.
    + destruct c; simpl; split; try done.
      * intros _. split; [constructor|lia].
      * intros [H' _]. inversion H'.
  - destruct (N.ltb_spec m d).
    { split; [done|]. intros [_ ?]. lia. }
    destruct (Ascii.eqb_spec ch "*"%char) as [->|Hs].
    + rewrite existsb_exists fn_denotes_star. split.
      * intros (c' & [u ->]%in_suffixes & [H1 H2]%IH). split; [by eauto|lia].
      * intros [(u & c' & -> & H1) H2]. exists c'. split; [apply in_suffixes; by eauto|].
        apply IH. split; [done|lia].
    + destruct (Ascii.eqb_spec ch "?"%char) as [->|Hq].
      * destruct c as [|b c].
        { split; [done|]. intros [H' _]. inversion H'; congruence. }
        rewrite IH. split; intros [H1 H2]; (split; [|lia]); [by constructor|].
        inversion H1; subst; congruence.
      * destruct c as [|b c].
        { split; [done|]. intros [H' _]. inversion H'; subst; congruence. }
        destruct (Ascii.eqb_spec b ch) as [->|Hb]; simpl.
        { rewrite IH. split; intros [H1 H2]; (split; [|lia]); [by constructor|].
          inversion H1; subst; congruence. }
        split; [done|]. intros [H1 _]. inversion H1; subst; congruence.
Qed.

(** ** Collapsing runs of stars keeps the meaning *)

Lemma fn_denotes_star_star p c :
  fn_denotes (String "*"%char (String "*"%char p)) c <-> fn_denotes (String "*"%char p) c.
Proof.
  rewrite (fn_denotes_star (String _ _)). setoid_rewrite fn_denotes_star. split.
  - intros (u & c' & -> & v & c'' & -> & H). exists (u +:+ v), c''.
    by rewrite -str_app_assoc.
  - intros (u & c' & -> & H). exists EmptyString, (u +:+ c'). split; [done|]. by eauto.
Qed.

(** Equal meanings stay equal under a common first character. *)
Lemma fn_denotes_cons ch p q :
  (forall c, fn_denotes p c <-> fn_denotes q c) ->
  forall c, fn_denotes (String ch p) c <-> fn_denotes (String ch q) c.
Proof.
  intros H c. split; intros H1; inversion H1; subst; constructor; try done; by apply H.
Qed.

Lemma collapse_stars_denotes p :
  (forall last, last <> Some "*"%char ->
     forall c, fn_denotes (collapse_stars last p) c <-> fn_denotes p c) /\
  (forall c, fn_denotes (String "*"%char (collapse_stars (Some "*"%char) p)) c <->
             fn_denotes (String "*"%char p) c).
Proof.
  induction p as [|b p [IH1 IH2]]; cbn [collapse_stars]; [done|].
  destruct (Ascii.eqb_spec b "*"%char) as [->|Hb]; simpl.
  - split.
    + intros last Hlast c. rewrite (bool_decide_eq_false_2 _ Hlast). apply IH2.
    + intros c. by rewrite IH2 fn_denotes_star_star.
  - assert (forall c, fn_denotes (String b (collapse_stars (Some b) p)) c <->
                      fn_denotes (String b p) c) as Hcons.
    { apply fn_denotes_cons, IH1. congruence. }
    split; [by intros last _|]. by apply fn_denotes_cons.
Qed.

Lemma fnmatch_segment_spec p c m :
  fnmatch_segment p c m = true <->
  fn_denotes p c /\ N.of_nat (String.length (collapse_stars None p)) <= m.
Proof.
  unfold fnmatch_segment. rewrite fnmatch_bytes_spec N.add_0_l.
  destruct (collapse_stars_denotes p) as [H _]. by rewrite H.
Qed.

(** ** The segment-level engine *)

Lemma in_list_suffixes {A} (c s : list A) : In c (list_suffixes s) <-> exists u, s = u ++ c.
Proof.
  induction s as [|a s IH]; cbn [list_suffixes In].
  - split; [intros [<-|[]]; by exists []|].
    intros [u Hu]. destruct u; [by left|discriminate].
  - rewrite IH. split.
    + intros [<-|[u ->]]; [by exists []|by exists (a :: u)].
    + intros [[|b u] Hu]; [by left|]. injection Hu as -> ->. right. by exists u.
Qed.

Lemma path_denotes_stars ps cs :
  ps <> [] ->
  path_denotes ("**" :: ps) cs <-> exists u cs', cs = u ++ cs' /\ path_denotes ps cs'.
Proof.
  intros Hps. split.
  - intros H. inversion H; subst; [by eauto|done|done].
  - intros (u & cs' & -> & H). by constructor.
Qed.

Lemma path_denotes_segment p ps cs :
  p <> "**" ->
  path_denotes (p :: ps) cs <->
  exists c cs', cs = c :: cs' /\ fn_denotes p c /\ path_denotes ps cs'.
Proof.
  intros Hp. split.
  - intros H. inversion H; subst; naive_solver.
  - intros (c & cs' & -> & H1 & H2). by constructor.
Qed.

Lemma segment_steps_cons p ps :
  p <> "**" \/ ps <> [] -> segment_steps (p :: ps) = 1 + segment_steps ps.
Proof.
  destruct ps as [|q ps]; simpl; [|done].
  intros [H|H]; [by rewrite bool_decide_eq_false_2|done].
Qed.

Lemma segment_fits_ordinary m p :
  p <> "**" -> segment_fits m p <-> N.of_nat (String.length (collapse_stars None p)) <= m.
Proof. unfold segment_fits. naive_solver. Qed.

Lemma match_path_segments_spec ps cs d m :
  match_path_segments ps cs d m = true <->
  path_denotes ps cs /\ Forall (segment_fits m) ps /\
  d + segment_steps ps <= MAX_SEGMENT_RECURSION_DEPTH.
Proof.
  revert cs d. induction ps as [|p ps IH]; intros cs d; cbn [match_path_segments].
  - destruct (N.ltb_spec MAX_SEGMENT_RECURSION_DEPTH d); simpl.
    { split; [done|]. intros (_ & _ & ?). lia. }
    destruct cs; split; try done.
    + intros _. split; [constructor|]. split; [done|lia].
    + intros [H' _]. inversion H'.
  - destruct (N.ltb_spec MAX_SEGMENT_RECURSION_DEPTH d).
    { split; [done|]. intros (_ & _ & ?). lia. }
    rewrite Forall_cons. case_bool_decide as Hp; [subst p|].
    + destruct ps as [|q ps].
      { split; [|done]. intros _. split; [constructor|].
        split; [|simpl; lia]. split; [by left|done]. }
      rewrite existsb_exists path_denotes_stars // segment_steps_cons; [|by right].
      split.
      * intros (cs' & [u ->]%in_list_suffixes & (H1 & H2 & H3)%IH).
        split_and!; [by eauto|by left|done|lia].
      * intros [(u & cs' & -> & H1) [[_ H2] H3]]. exists cs'.
        split; [apply in_list_suffixes; by eauto|].
        apply IH. split_and!; [done|done|lia].
    + rewrite segment_steps_cons; [|by left].
      rewrite path_denotes_segment // segment_fits_ordinary //.
      destruct cs as [|c cs]; [split; [done|naive_solver]|].
      destruct (fnmatch_segment p c m) eqn:E; simpl.
      * apply fnmatch_segment_spec in E as [E1 E2].
        rewrite IH. split.
        { intros (H1 & H2 & H3). split_and!; [naive_solver|done|done|lia]. }
        intros [(c' & cs' & [= <- <-] & _ & H1) [[_ H2] H3]].
        split_and!; [done|done|lia].
      * split; [done|]. intros [(c' & cs' & [= <- <-] & H1 & _) [[H2 _] _]].
        rewrite -E. by apply fnmatch_segment_spec.
Qed.

Lemma path_pattern_matches_iff pattern candidate m :
  path_pattern_matches pattern candidate m = true <->
  path_denotes (split_char "/"%char pattern) (split_char "/"%char candidate) /\
  pattern_fits m pattern.
Proof. unfold path_pattern_matches, pattern_fits. by rewrite match_path_segments_spec N.add_0_l. Qed.

(** C14: the matcher is exact.  It accepts a candidate when, and only when, the
    pattern denotes it segment by segment (a star stays within a segment, a
    double star spans segments) and the pattern fits the two recursion bounds;
    a pattern beyond a bound matches nothing. *)
Theorem path_pattern_matches_exact pattern candidate m :
  path_pattern_matches pattern candidate m = true <->
  path_denotes (split_char "/"%char pattern) (split_char "/"%char candidate) /\
  pattern_fits m pattern.
Proof. apply path_pattern_matches_iff. Qed.

Example double_star : path_pattern_matches "release/**/v*" "release/a/b/v1" 256 = true.
Proof. vm_compute. reflexivity. Qed.

Example single_star : path_pattern_matches "release/*" "release/a/b" 256 = false.
Proof. vm_compute. reflexivity. Qed.
