(* ===== verification/RefMatching.v ===== *)
(** * Ruleset reference matching ([collector/ref_matching.rs])

    The closed wire enums of a ruleset, the normalisation of a branch name to
    a full reference, the pattern forms ([~ALL], [~DEFAULT_BRANCH], exact,
    wildcard) and the decision whether a ruleset applies to a branch. *)

From S2P Require Import Prelude Str PatternMatch.

Inductive RulesetTarget := RT_Branch | RT_Tag | RT_Push.
#[export] Instance RulesetTarget_eq_dec : EqDecision RulesetTarget.
Proof. solve_decision. Defined.

Definition RulesetTarget_parse (value : string) : option RulesetTarget :=
  if bool_decide (value = "branch") then Some RT_Branch
  else if bool_decide (value = "tag") then Some RT_Tag
  else if bool_decide (value = "push") then Some RT_Push
  else None.

Definition RulesetTarget_display (t : RulesetTarget) : string :=
  match t with RT_Branch => "branch" | RT_Tag => "tag" | RT_Push => "push" end.

Inductive RulesetEnforcement := RE_Disabled | RE_Active | RE_Evaluate.
#[export] Instance RulesetEnforcement_eq_dec : EqDecision RulesetEnforcement.
Proof. solve_decision. Defined.

Definition RulesetEnforcement_parse (value : string) : option RulesetEnforcement :=
  if bool_decide (value = "disabled") then Some RE_Disabled
  else if bool_decide (value = "active") then Some RE_Active
  else if bool_decide (value = "evaluate") then Some RE_Evaluate
  else None.

Definition RulesetEnforcement_display (e : RulesetEnforcement) : string :=
  match e with
  | RE_Disabled => "disabled"
  | RE_Active => "active"
  | RE_Evaluate => "evaluate"
  end.

Definition normalize_branch_ref (branch : string) : string :=
  if starts_with "refs/heads/" branch then branch else "refs/heads/" +:+ branch.

(** [config::FNMATCH_MAX_RECURSION_DEPTH]. *)
Definition FNMATCH_MAX_RECURSION_DEPTH : N := 256.

(** [ref_matching::path_pattern_matches]. *)
Definition ref_path_pattern_matches (pattern candidate : string) : bool :=
  path_pattern_matches pattern candidate FNMATCH_MAX_RECURSION_DEPTH.

Definition ref_name_matches (pattern branch default_branch : string) : bool :=
  let branch_ref := normalize_branch_ref branch in
  let branch_name := default branch_ref (strip_prefix "refs/heads/" branch_ref) in
  let default_branch_ref := normalize_branch_ref default_branch in
  if bool_decide (pattern = "~ALL") then true
  else if bool_decide (pattern = "~DEFAULT_BRANCH")
  then bool_decide (branch_ref = default_branch_ref)
  else if bool_decide (pattern = branch_ref) || bool_decide (pattern = branch_name)
  then true
  else
    let candidate := if starts_with "refs/" pattern then branch_ref else branch_name in
    ref_path_pattern_matches pattern candidate.

Definition ruleset_applies_to_branch (target : option RulesetTarget)
    (enforcement : option RulesetEnforcement) (include exclude : list string)
    (branch default_branch : string) : bool :=
  if negb (bool_decide (target = Some RT_Branch)) then false
  else if negb match enforcement with None | Some RE_Active => true | _ => false end
  then false
  else
    let include_patterns := match include with [] => ["~ALL"] | _ => include end in
    let included :=
      existsb (fun p => ref_name_matches p branch default_branch) include_patterns in
    let excluded := existsb (fun p => ref_name_matches p branch default_branch) exclude in
    included && negb excluded.

(** ** Lemmas *)

Lemma RulesetTarget_parse_display t : RulesetTarget_parse (RulesetTarget_display t) = Some t.
Proof. by destruct t. Qed.

Lemma RulesetTarget_parse_Some v t :
  RulesetTarget_parse v = Some t -> v = RulesetTarget_display t.
Proof. unfold RulesetTarget_parse. repeat case_bool_decide; naive_solver. Qed.

Lemma RulesetEnforcement_parse_display e :
  RulesetEnforcement_parse (RulesetEnforcement_display e) = Some e.
Proof. by destruct e. Qed.

Lemma RulesetEnforcement_parse_Some v e :
  RulesetEnforcement_parse v = Some e -> v = RulesetEnforcement_display e.
Proof. unfold RulesetEnforcement_parse. repeat case_bool_decide; naive_solver. Qed.

Lemma normalize_branch_ref_prefix b : starts_with "refs/heads/" (normalize_branch_ref b) = true.
Proof.
  unfold normalize_branch_ref. destruct (starts_with _ b) eqn:E; [done|].
  apply starts_with_spec. by eexists.
Qed.

Lemma normalize_branch_ref_idem b :
  normalize_branch_ref (normalize_branch_ref b) = normalize_branch_ref b.
Proof.
  unfold normalize_branch_ref at 1. by rewrite normalize_branch_ref_prefix.
Qed.

(** The short name of a branch: what follows [refs/heads/]. *)
Lemma normalize_branch_ref_name b :
  exists name, normalize_branch_ref b = "refs/heads/" +:+ name /\
    strip_prefix "refs/heads/" (normalize_branch_ref b) = Some name.
Proof.
  pose proof (normalize_branch_ref_prefix b) as H.
  apply starts_with_spec in H as [name H]. exists name. split; [done|].
  by apply strip_prefix_Some.
Qed.

(** A ref matches whether it is given short or in full. *)
Lemma ref_name_matches_normal p b d :
  ref_name_matches p (normalize_branch_ref b) (normalize_branch_ref d) =
  ref_name_matches p b d.
Proof. unfold ref_name_matches. by rewrite !normalize_branch_ref_idem. Qed.

(** The patterns in force: an empty include list stands for [~ALL]. *)
Definition effective_include (include : list string) : list string :=
  match include with [] => ["~ALL"] | _ => include end.

Lemma ruleset_applies_iff t e incl excl b d :
  ruleset_applies_to_branch t e incl excl b d = true <->
  t = Some RT_Branch /\ (e = None \/ e = Some RE_Active) /\
  (exists p, p ∈ effective_include incl /\ ref_name_matches p b d = true) /\
  (forall p, p ∈ excl -> ref_name_matches p b d = false).
Proof.
  unfold ruleset_applies_to_branch. change (match incl with [] => _ | _ => _ end)
    with (effective_include incl).
  case_bool_decide as Ht; simpl; [|naive_solver].
  assert (match e with None | Some RE_Active => true | _ => false end = true <->
          e = None \/ e = Some RE_Active) as He by (destruct e as [[]|]; naive_solver).
  destruct (match e with None | Some RE_Active => true | _ => false end); simpl;
    [|naive_solver].
  rewrite andb_true_iff negb_true_iff existsb_exists.
  rewrite -not_true_iff_false existsb_exists.
  setoid_rewrite list_elem_of_In. setoid_rewrite <-not_true_iff_false. naive_solver.
Qed.

(** What a ruleset pattern denotes, for a branch given short or in full. *)
Definition ref_denotes (pattern b d : string) : Prop :=
  let branch_ref := normalize_branch_ref b in
  let name := default branch_ref (strip_prefix "refs/heads/" branch_ref) in
  pattern = "~ALL" \/
  (pattern = "~DEFAULT_BRANCH" /\ branch_ref = normalize_branch_ref d) \/
  (pattern <> "~DEFAULT_BRANCH" /\
   (pattern = branch_ref \/ pattern = name \/
    (path_denotes (split_char "/"%char pattern)
       (split_char "/"%char (if starts_with "refs/" pattern then branch_ref else name)) /\
     pattern_fits FNMATCH_MAX_RECURSION_DEPTH pattern))).

Lemma ref_name_matches_iff p b d : ref_name_matches p b d = true <-> ref_denotes p b d.
Proof.
  unfold ref_name_matches, ref_denotes, ref_path_pattern_matches.
  case_bool_decide as H1; [naive_solver|].
  case_bool_decide as H2; [rewrite bool_decide_eq_true; naive_solver|].
  rewrite -path_pattern_matches_iff.
  case_bool_decide as H3; simpl; [naive_solver|].
  case_bool_decide as H4; simpl; naive_solver.
Qed.

(** A ruleset applies to a branch exactly when it targets branches, its
    enforcement is active or unstated, some include pattern denotes the branch
    (every branch when the list is empty) and no exclude pattern does. *)
Lemma ruleset_applies_exact t e incl excl b d :
  ruleset_applies_to_branch t e incl excl b d = true <->
  t = Some RT_Branch /\ (e = None \/ e = Some RE_Active) /\
  (exists p, p ∈ effective_include incl /\ ref_denotes p b d) /\
  (forall p, p ∈ excl -> ~ ref_denotes p b d).
Proof.
  rewrite ruleset_applies_iff. setoid_rewrite <-ref_name_matches_iff.
  setoid_rewrite not_true_iff_false. done.
Qed.
