(* ===== verification/BranchProtection.v ===== *)
(** * Branch protection ([collector/branch_protection.rs])

    The evaluation of a repository's history protection from its rulesets and
    its legacy protection.  Each endpoint's answer is classified as observed
    signals, a confirmed absence, or an indeterminate failure; the pieces are
    merged into a [BranchProtectionResult].  The theorems show that the
    verdict is never better, nor worse, than what was observed. *)

From S2P Require Import Prelude Str Json GitHub Repository Checks PatternMatch RefMatching.

Open Scope N_scope.

Inductive AdminAccess := Admin | NotAdmin | AdminUnknown.

Inductive ProtectionEndpoint := Rulesets | Legacy.

Inductive ConfirmedAbsence := NoControls | AuthorityConfirmedNotFound.

Definition confirmed_not_found (a : ConfirmedAbsence) : bool :=
  match a with AuthorityConfirmedNotFound => true | NoControls => false end.

Record EndpointFailure := mkEndpointFailure {
  failure_reason : IndeterminateReason;
  failure_http_status : option N;
}.

Inductive ProtectionEvidence :=
| Complete (signals : HistorySignals)
| Incomplete (failure : EndpointFailure)
| AbsentControls (absence : ConfirmedAbsence) (http_status : option N).

(** [EndpointFailure::precedence]. *)
Definition failure_precedence (f : EndpointFailure) : N :=
  match failure_reason f with
  | IR_PermissionDenied => 0
  | IR_RateLimited => 1
  | IR_PermissionSuspected => 2
  | IR_Transient => 3
  | IR_Invalid => 4
  | IR_Pending => 5
  end.

Inductive EndpointEvidence :=
| Observed (signals : list HistorySignals)
| ConfirmedAbsent (http_status : option N)
| Indeterminate (failure : EndpointFailure).

(** [build_protection_result]. *)
Definition build_protection_result (evidence : ProtectionEvidence)
    (default_branch run_timestamp : string) : BranchProtectionResult :=
  match evidence with
  | Incomplete failure =>
    BPR_Unobservable default_branch (failure_reason failure)
      (failure_http_status failure) run_timestamp
  | AbsentControls absence http_status =>
    BPR_Unprotected default_branch
      (HG_Absent (confirmed_not_found absence) http_status) run_timestamp
  | Complete signals =>
    from_history_signals default_branch (force_push_blocked signals)
      (deletion_blocked signals) run_timestamp
  end.

Section BranchProtection.
  Context {V : Type} `{JsonValue V}.

(** The loop over the rules of one ruleset. *)
Definition summarize_rule (acc : option bool * option bool) (rule : V)
    : option bool * option bool :=
  let rule_type := default "" (get_str "type" rule) in
  let force_push :=
    if bool_decide (rule_type = "non_fast_forward") then Some true else fst acc in
  let deletion :=
    if bool_decide (rule_type = "deletion") then Some true else snd acc in
  (force_push, deletion).

Definition summarize_ruleset (ruleset : V) : HistorySignals :=
  let signals :=
    match get_array "rules" ruleset with
    | Some rules => fold_left summarize_rule rules (Some false, Some false)
    | None => (Some false, Some false)
    end in
  mkHistorySignals (fst signals) (snd signals).

Definition summarize_legacy_protection (protection : V) : HistorySignals :=
  mkHistorySignals
    (option_map negb (get "allow_force_pushes" protection ≫= get_bool "enabled"))
    (option_map negb (get "allow_deletions" protection ≫= get_bool "enabled")).

(** The closure [extract_patterns] of [ruleset_applies]. *)
Definition extract_patterns (ref_name : option V) (key : string) : list string :=
  match ref_name ≫= get_array key with
  | Some arr => omap as_str arr
  | None => []
  end.

Definition ruleset_applies (ruleset : V) (default_branch : string) : bool :=
  let target := get_str "target" ruleset ≫= RulesetTarget_parse in
  let enforcement := get_str "enforcement" ruleset ≫= RulesetEnforcement_parse in
  let ref_name := get "conditions" ruleset ≫= get "ref_name" in
  ruleset_applies_to_branch target enforcement
    (extract_patterns ref_name "include") (extract_patterns ref_name "exclude")
    default_branch default_branch.

(** [ProtectionEndpoint::parse_payload]. *)
Definition parse_payload (endpoint : ProtectionEndpoint) (data : option V)
    (default_branch : string) : option (list HistorySignals) :=
  match data with
  | None => None
  | Some data =>
    match endpoint with
    | Rulesets =>
      match as_array data with
      | None => None
      | Some rulesets =>
        Some (map summarize_ruleset
          (List.filter (fun ruleset => ruleset_applies ruleset default_branch) rulesets))
      end
    | Legacy =>
      if negb (is_object data) then None
      else Some [summarize_legacy_protection data]
    end
  end.

Definition repo_admin_signal (repo_details_result : ApiOutcome V) : AdminAccess :=
  if negb (outcome_is_ok repo_details_result) then AdminUnknown
  else
    match (outcome_data repo_details_result ≫= get "permissions") ≫= get_bool "admin" with
    | Some true => Admin
    | Some false => NotAdmin
    | None => AdminUnknown
    end.

Definition classify_endpoint (outcome : ApiOutcome V) (endpoint : ProtectionEndpoint)
    (default_branch : string) (admin : AdminAccess) : EndpointEvidence :=
  match outcome with
  | Success status_code data _ _ =>
    match parse_payload endpoint data default_branch with
    | None => Indeterminate (mkEndpointFailure IR_Invalid (Some status_code))
    | Some signals => Observed signals
    end
  | Failure status_code _ retryable =>
    let failed reason := Indeterminate (mkEndpointFailure reason status_code) in
    match status_code, admin with
    | Some 403, _ => failed IR_PermissionDenied
    | Some 429, _ => failed IR_RateLimited
    | Some 404, Admin => ConfirmedAbsent status_code
    | Some 404, (NotAdmin | AdminUnknown) => failed IR_PermissionSuspected
    | _, _ => if retryable then failed IR_Transient else failed IR_Invalid
    end
  end.

Definition endpoint_failure (e : EndpointEvidence) : option EndpointFailure :=
  match e with Indeterminate failure => Some failure | _ => None end.

Definition endpoint_signals (e : EndpointEvidence) : list HistorySignals :=
  match e with Observed signals => signals | _ => [] end.

Definition classify_evidence (rulesets_result legacy_result : ApiOutcome V)
    (default_branch : string) (admin : AdminAccess) : ProtectionEvidence :=
  let rulesets := classify_endpoint rulesets_result Rulesets default_branch admin in
  let legacy := classify_endpoint legacy_result Legacy default_branch admin in
  let endpoints := [rulesets; legacy] in
  match min_by_key failure_precedence (omap endpoint_failure endpoints) with
  | Some failure => Incomplete failure
  | None =>
    match HistorySignals_merge (concat (map endpoint_signals endpoints)) with
    | Some signals => Complete signals
    | None =>
      match rulesets, legacy with
      | ConfirmedAbsent http_status, _ | _, ConfirmedAbsent http_status =>
        AbsentControls AuthorityConfirmedNotFound http_status
      | _, _ =>
        AbsentControls NoControls
          match outcome_status_code rulesets_result with
          | Some s => Some s
          | None => outcome_status_code legacy_result
          end
      end
    end
  end.

Definition evaluate_outcomes (rulesets_result legacy_result : ApiOutcome V)
    (default_branch : string) (admin : AdminAccess) (run_timestamp : string)
    : BranchProtectionResult :=
  build_protection_result
    (classify_evidence rulesets_result legacy_result default_branch admin)
    default_branch run_timestamp.

(** [branch_protection::evaluate]: the three requests run concurrently and do
    not depend on each other. *)
Definition branch_protection_evaluate `{GitHubClient V} (repo : Repository)
    (run_timestamp : string) : BranchProtectionResult :=
  match sanitize_path_segment (repo_name repo) with
  | None => BPR_Unobservable (default_branch repo) IR_Invalid None run_timestamp
  | Some safe_name =>
    let encoded_branch := percent_encode (default_branch repo) in
    let rulesets_result := request_default (repo_path safe_name "/rulesets") in
    let legacy_result :=
      request_default
        (repo_path safe_name ("/branches/" +:+ encoded_branch +:+ "/protection")) in
    let admin := repo_admin_signal (repo_details (repo_name repo)) in
    evaluate_outcomes rulesets_result legacy_result (default_branch repo) admin
      run_timestamp
  end.
End BranchProtection.

(** ** Lemmas *)

Section Lemmas.
  Context {V : Type} `{JsonValue V}.
  Implicit Types (o rs lg : ApiOutcome V) (b t : string).

Lemma summarize_rules_spec rules fp del :
  fold_left summarize_rule rules (fp, del) =
  (if existsb (fun r => bool_decide (get_str "type" r = Some "non_fast_forward")) rules
   then Some true else fp,
   if existsb (fun r => bool_decide (get_str "type" r = Some "deletion")) rules
   then Some true else del).
Proof.
  revert fp del. induction rules as [|r rules IH]; intros fp del; [done|].
  cbn [fold_left existsb]. unfold summarize_rule at 2. rewrite IH. simpl.
  destruct (get_str "type" r) as [s|]; simpl.
  - repeat case_bool_decide; simplify_eq; simpl;
      repeat match goal with |- context [existsb ?f ?l] => destruct (existsb f l) end;
      naive_solver.
  - done.
Qed.

(** A ruleset always answers, and blocks what it has a rule for. *)
Lemma summarize_ruleset_spec v :
  exists fp del, summarize_ruleset v = mkHistorySignals (Some fp) (Some del) /\
    (fp = true <-> exists rules r, get_array "rules" v = Some rules /\ r ∈ rules /\
                     get_str "type" r = Some "non_fast_forward") /\
    (del = true <-> exists rules r, get_array "rules" v = Some rules /\ r ∈ rules /\
                     get_str "type" r = Some "deletion").
Proof.
  unfold summarize_ruleset. destruct (get_array "rules" v) as [rules|].
  - rewrite summarize_rules_spec. simpl.
    exists (existsb (fun r => bool_decide (get_str "type" r = Some "non_fast_forward")) rules),
      (existsb (fun r => bool_decide (get_str "type" r = Some "deletion")) rules).
    rewrite !existsb_exists. setoid_rewrite bool_decide_eq_true.
    setoid_rewrite <-list_elem_of_In.
    split_and!; [|naive_solver..].
    by repeat match goal with |- context [existsb ?f ?l] => destruct (existsb f l) end.
  - exists false, false. naive_solver.
Qed.

(** An endpoint's evidence is a failure exactly when it has a reason. *)
Lemma classify_endpoint_cases o e b a :
  match classify_endpoint o e b a with
  | Observed signals => exists s d h tr, o = Success s d h tr /\ parse_payload e d b = Some signals
  | ConfirmedAbsent s => s = Some 404 /\ a = Admin /\ exists m r, o = Failure s m r
  | Indeterminate f => failure_http_status f = outcome_status_code o
  end.
Proof.
  destruct o as [s d h tr|s m r]; simpl.
  - destruct (parse_payload e d b) as [l|] eqn:E; [by eauto 10|done].
  - destruct s as [n|]; [|by destruct r].
    repeat (case_match; simpl; try done); naive_solver.
Qed.

(** The whole classification, by what the two endpoints gave. *)
Lemma classify_evidence_cases rs lg b a :
  let r := classify_endpoint rs Rulesets b a in
  let l := classify_endpoint lg Legacy b a in
  match classify_evidence rs lg b a with
  | Incomplete f =>
    (r = Indeterminate f \/ l = Indeterminate f) /\
    forall g, r = Indeterminate g \/ l = Indeterminate g ->
      failure_precedence f <= failure_precedence g
  | Complete s =>
    endpoint_failure r = None /\ endpoint_failure l = None /\
    HistorySignals_merge (endpoint_signals r ++ endpoint_signals l) = Some s
  | AbsentControls abs st =>
    endpoint_failure r = None /\ endpoint_failure l = None /\
    endpoint_signals r = [] /\ endpoint_signals l = [] /\
    match abs with
    | AuthorityConfirmedNotFound => r = ConfirmedAbsent st \/ l = ConfirmedAbsent st
    | NoControls => exists sr sl, r = Observed sr /\ l = Observed sl
    end
  end.
Proof.
  intros r l. unfold classify_evidence. fold r l.
  destruct (min_by_key _ _) as [f|] eqn:Hmin.
  - apply min_by_key_Some in Hmin as [Hin Hle].
    split.
    + apply list_elem_of_omap in Hin as (e & He & Hf).
      apply elem_of_cons in He as [->|He%list_elem_of_singleton]; [left|right; subst e].
      * by destruct r; simplify_eq/=.
      * by destruct l; simplify_eq/=.
    + intros g Hg. apply Hle. apply list_elem_of_omap.
      destruct Hg as [Hg|Hg]; [exists r|exists l]; rewrite Hg; set_solver.
  - apply min_by_key_None in Hmin.
    assert (endpoint_failure r = None /\ endpoint_failure l = None) as [Hr Hl].
    { destruct r, l; simpl in *; naive_solver. }
    cbn [map concat]. rewrite app_nil_r.
    destruct (HistorySignals_merge _) as [s|] eqn:Hm; [done|].
    assert (endpoint_signals r = [] /\ endpoint_signals l = []) as [Hr' Hl'].
    { destruct (endpoint_signals r ++ endpoint_signals l) eqn:E; [|done].
      by apply app_eq_nil in E. }
    destruct r, l; simpl in *; naive_solver.
Qed.

(** The legacy endpoint yields at most one record of signals. *)
Lemma legacy_payload_nonempty data b signals :
  parse_payload Legacy data b = Some signals -> signals <> [].
Proof. destruct data as [v|]; simpl; [|done]. destruct (is_object v); naive_solver. Qed.
End Lemmas.

(** ** Theorems *)

Section Theorems.
  Context {V : Type} `{JsonValue V}.
  Implicit Types (rs lg : ApiOutcome V) (b t : string).

Lemma evaluate_outcomes_unobservable rs lg b a t :
  is_observed (evaluate_outcomes rs lg b a t) = false <->
  exists f, classify_evidence rs lg b a = Incomplete f.
Proof.
  unfold evaluate_outcomes. destruct (classify_evidence rs lg b a); simpl.
  - rewrite is_observed_from_history_signals. naive_solver.
  - naive_solver.
  - naive_solver.
Qed.

Lemma merge_blocks signals s :
  HistorySignals_merge signals = Some s ->
  (force_push_blocked s = Some true <->
   exists x, x ∈ signals /\ force_push_blocked x = Some true) /\
  (deletion_blocked s = Some true <->
   exists x, x ∈ signals /\ deletion_blocked x = Some true).
Proof.
  unfold HistorySignals_merge. destruct signals as [|x l]; [done|].
  intros [= <-]. split; apply merge_blocking_true.
Qed.

Lemma from_history_signals_gap b fp del t c st :
  BranchProtectionResult_gap (from_history_signals b fp del t) <> Some (HG_Absent c st).
Proof. destruct fp as [[]|], del as [[]|]; done. Qed.

(** C10: the branch is reported protected exactly when neither endpoint is
    indeterminate and, among all the signals the two endpoints gave, one
    blocks force pushes and one blocks deletions. *)
Theorem protected_iff rs lg b a t :
  let r := classify_endpoint rs Rulesets b a in
  let l := classify_endpoint lg Legacy b a in
  is_protected (evaluate_outcomes rs lg b a t) = true <->
  endpoint_failure r = None /\ endpoint_failure l = None /\
  (exists s, s ∈ endpoint_signals r ++ endpoint_signals l /\
     force_push_blocked s = Some true) /\
  (exists s, s ∈ endpoint_signals r ++ endpoint_signals l /\
     deletion_blocked s = Some true).
Proof.
  intros r l. pose proof (classify_evidence_cases rs lg b a) as Hc.
  fold r l in Hc. unfold evaluate_outcomes.
  destruct (classify_evidence rs lg b a) as [s|f|abs st]; simpl.
  - destruct Hc as (Hr & Hl & Hm). apply merge_blocks in Hm as [<- <-].
    rewrite is_protected_from_history_signals. tauto.
  - split; [done|]. intros (Hr & Hl & _). destruct Hc as [[E|E] _]; rewrite E in Hr, Hl; done.
  - destruct Hc as (_ & _ & -> & -> & _). split; [done|]. set_solver.
Qed.

(** C11: a verdict of absent protection is always an authority's: it carries
    [confirmed_not_found], it is only given to a caller known to be an
    administrator, and the legacy endpoint answered 404. *)
Theorem absence_is_confirmed rs lg b a t c st :
  BranchProtectionResult_gap (evaluate_outcomes rs lg b a t) = Some (HG_Absent c st) ->
  c = true /\ st = Some 404 /\ a = Admin /\ outcome_status_code lg = Some 404 /\
  outcome_is_err lg = true.
Proof.
  intros Hg. pose proof (classify_evidence_cases rs lg b a) as Hc.
  pose proof (classify_endpoint_cases lg Legacy b a) as Hl.
  pose proof (classify_endpoint_cases rs Rulesets b a) as Hr.
  unfold evaluate_outcomes in Hg.
  destruct (classify_evidence rs lg b a) as [s|f|abs st']; simpl in Hg.
  - by apply from_history_signals_gap in Hg.
  - done.
  - injection Hg as <- ->. destruct Hc as (_ & Hf & _ & Hs & Hc).
    destruct (classify_endpoint lg Legacy b a) as [sl|s|f].
    + destruct Hl as (? & d & ? & ? & -> & Hp%legacy_payload_nonempty). done.
    + destruct Hl as (-> & -> & m & r & ->).
      destruct abs; [naive_solver|]. destruct Hc as [E|[= <-]]; [|done].
      rewrite E in Hr. naive_solver.
    + done.
Qed.

(** The result is unobservable exactly when an endpoint is
    indeterminate, and then it reports the failure of least precedence
    number among the two, with the HTTP status of its endpoint. *)
Lemma unobservable_iff rs lg b a t :
  let fs := omap endpoint_failure
    [classify_endpoint rs Rulesets b a; classify_endpoint lg Legacy b a] in
  (is_observed (evaluate_outcomes rs lg b a t) = false <-> fs <> []) /\
  forall b' reason st t',
    evaluate_outcomes rs lg b a t = BPR_Unobservable b' reason st t' ->
    b' = b /\ t' = t /\ mkEndpointFailure reason st ∈ fs /\
    (forall g, g ∈ fs -> failure_precedence (mkEndpointFailure reason st) <=
                        failure_precedence g).
Proof.
  intros fs. unfold evaluate_outcomes, classify_evidence. fold fs.
  destruct (min_by_key failure_precedence fs) as [f|] eqn:Hmin; simpl.
  - apply min_by_key_Some in Hmin as [Hin Hle]. split.
    + split; [|done]. intros _ ->. set_solver.
    + intros b' reason st t' [= <- <- <- <-]. by destruct f.
  - apply min_by_key_None in Hmin. rewrite Hmin.
    destruct (HistorySignals_merge _) as [s|]; simpl.
    + rewrite is_observed_from_history_signals. split; [done|].
      intros ????. unfold from_history_signals. by repeat case_match.
    + split; [by repeat case_match|]. intros ????. by repeat case_match.
Qed.
End Theorems.

(** ** Concrete runs *)

Definition not_found_outcome : ApiOutcome Json := Failure (Some 404) "not found" false.

Lemma absence_is_confirmed_witness :
  BranchProtectionResult_gap
    (evaluate_outcomes not_found_outcome not_found_outcome "main" Admin "t")
    = Some (HG_Absent true (Some 404)) /\
  true = true /\ Some 404 = Some 404 /\ Admin = Admin /\
  outcome_status_code not_found_outcome = Some 404 /\
  outcome_is_err not_found_outcome = true.
Proof.
  split; [reflexivity|].
  exact (absence_is_confirmed not_found_outcome not_found_outcome "main" Admin "t" true
           (Some 404) eq_refl).
Defined.

Lemma unobservable_iff_witness :
  evaluate_outcomes not_found_outcome not_found_outcome "main" NotAdmin "t" =
    BPR_Unobservable "main" IR_PermissionSuspected (Some 404) "t" /\
  "main" = "main".
Proof.
  split; [reflexivity|].
  exact (proj1 (proj2 (unobservable_iff not_found_outcome not_found_outcome "main" NotAdmin "t")
    "main" IR_PermissionSuspected (Some 404) "t" eq_refl)).
Defined.

(** An evaluation through the client, with one ruleset in force that blocks
    force pushes and a legacy protection that forbids deletion. *)
Definition sample_ruleset : Json :=
  JObj [("target", JStr "branch"); ("enforcement", JStr "active");
        ("conditions", JObj [("ref_name", JObj [("include", JArr [JStr "~DEFAULT_BRANCH"]);
                                                ("exclude", JArr [])])]);
        ("rules", JArr [JObj [("type", JStr "non_fast_forward")]])].

Definition sample_legacy : Json :=
  JObj [("allow_force_pushes", JObj [("enabled", JBool true)]);
        ("allow_deletions", JObj [("enabled", JBool false)])].

Definition sample_repo : Repository :=
  mkRepository "1" None "svc" Public None "main" false "1" None true None None None
    false false None [] None.

Example sample_evaluation :
  @branch_protection_evaluate Json _
    (table_client "org"
      [("/repos/org/svc/rulesets", outcome_success (JArr [sample_ruleset]));
       ("/repos/org/svc/branches/main/protection", outcome_success sample_legacy)]
      not_found_outcome)
    sample_repo "t" = BPR_Protected "main" "t".
Proof. vm_compute. reflexivity. Qed.
