(* ===== verification/SecurityPolicy.v ===== *)
(** * Security policy ([collector/security_policy.rs])

    The evaluation prefers the repository setting, then probes the standard
    files, and otherwise reports the failure that keeps absence from being
    established.  The mutable flags of the code are threaded as a record. *)

From S2P Require Import Prelude Str Json GitHub Repository Checks.

Open Scope N_scope.

Definition SECURITY_POLICY_PATHS : list string :=
  ["SECURITY.md"; ".github/SECURITY.md"; "docs/SECURITY.md"].

(** [security_policy::build_result]. *)
Definition policy_build_result (status : SecurityPolicyStatus)
    (evidence : SecurityPolicyEvidence) (path : option string) (timestamp : string)
    : SecurityPolicyResult :=
  match status, evidence, path with
  | SPS_Pass, SPE_Setting, _ => SPR_EnabledBySetting timestamp
  | SPS_Pass, SPE_File, Some path =>
    match SecurityPolicyPath_new path with
    | Some path => SPR_EnabledByFile path timestamp
    | None => SPR_Unobservable IR_Invalid timestamp
    end
  | SPS_Fail, SPE_Absent, _ => SPR_Absent timestamp
  | SPS_NotApplicable, _, _ => SPR_NotApplicable timestamp
  | _, SPE_PermissionDenied, _ => SPR_Unobservable IR_PermissionDenied timestamp
  | _, SPE_TransientError, _ => SPR_Unobservable IR_Transient timestamp
  | _, _, _ => SPR_Unobservable IR_Invalid timestamp
  end.

(** [record_policy_failure] and its inner [priority]. *)
Definition policy_priority (reason : IndeterminateReason) : N :=
  match reason with
  | IR_PermissionDenied => 0
  | IR_PermissionSuspected => 1
  | IR_RateLimited => 2
  | IR_Transient => 3
  | IR_Invalid => 4
  | IR_Pending => 5
  end.

Definition record_policy_failure (current : option IndeterminateReason)
    (next : IndeterminateReason) : option IndeterminateReason :=
  match current with
  | None => Some next
  | Some previous =>
    if policy_priority next <? policy_priority previous then Some next else current
  end.

(** The three [&mut] arguments of [check_policy_files]. *)
Record PolicyFlags := mkPolicyFlags {
  saw_permission_denied : bool;
  saw_retryable_error : bool;
  other_failure : option IndeterminateReason;
}.

(** [matches!(status, Some(401 | 403))]. *)
Definition denied (status : option N) : bool :=
  match status with Some 401 | Some 403 => true | _ => false end.

Section SecurityPolicy.
  Context {V : Type} `{JsonValue V}.

Definition policy_failure (outcome : ApiOutcome V) (contents : bool)
    : option IndeterminateReason :=
  if outcome_is_ok outcome then
    let valid :=
      match contents, outcome_data outcome with
      | true, Some data =>
        match as_array data with
        | Some _ => true
        | None =>
          match get_str "type" data with
          | Some ty =>
            bool_decide (ty ∈ ["file"; "dir"; "submodule"; "symlink"])
          | None => false
          end
        end
      | false, Some data =>
        is_object data
        && match get "is_security_policy_enabled" data with
           | None => true
           | Some v => match as_bool v with Some _ => true | None => is_null v end
           end
      | _, None => false
      end in
    if valid then None else Some IR_Invalid
  else if denied (outcome_status_code outcome) then Some IR_PermissionDenied
  else if bool_decide (outcome_status_code outcome = Some 404) && contents then None
  else if bool_decide (outcome_status_code outcome = Some 429) then Some IR_RateLimited
  else if outcome_is_retryable outcome then Some IR_Transient
  else Some IR_Invalid.

Definition is_file (outcome : ApiOutcome V) : bool :=
  outcome_is_ok outcome
  && bool_decide (outcome_data outcome ≫= get_str "type" = Some "file").

(** [outcome.is_retryable() && outcome.status_code() != Some(429)]. *)
Definition retryable_not_limited (outcome : ApiOutcome V) : bool :=
  outcome_is_retryable outcome && negb (bool_decide (outcome_status_code outcome = Some 429)).

Fixpoint check_policy_files `{GitHubClient V} (paths : list string) (safe_name : string)
    (flags : PolicyFlags) (run_timestamp : string)
    : option SecurityPolicyResult * PolicyFlags :=
  match paths with
  | [] => (None, flags)
  | file_path :: paths =>
    let content := request_default (repo_path safe_name ("/contents/" +:+ file_path)) in
    if is_file content then
      (Some (policy_build_result SPS_Pass SPE_File (Some file_path) run_timestamp), flags)
    else
      check_policy_files paths safe_name
        (mkPolicyFlags
          (denied (outcome_status_code content) || saw_permission_denied flags)
          (retryable_not_limited content || saw_retryable_error flags)
          match policy_failure content true with
          | Some reason => record_policy_failure (other_failure flags) reason
          | None => other_failure flags
          end) run_timestamp
  end.

(** [security_policy::evaluate]. *)
Definition security_policy_evaluate `{GitHubClient V} (repo : Repository)
    (run_timestamp : string) : SecurityPolicyResult :=
  match sanitize_path_segment (repo_name repo) with
  | None => policy_build_result SPS_Unknown SPE_CollectionError None run_timestamp
  | Some safe_name =>
    if negb (is_public repo) then
      policy_build_result SPS_NotApplicable SPE_NotApplicable None run_timestamp
    else
      let details := repo_details safe_name in
      if outcome_is_ok details
         && default false (outcome_data details ≫= get_bool "is_security_policy_enabled")
      then policy_build_result SPS_Pass SPE_Setting None run_timestamp
      else
        let flags :=
          mkPolicyFlags (denied (outcome_status_code details))
            (retryable_not_limited details) (policy_failure details false) in
        let '(found, flags) :=
          check_policy_files SECURITY_POLICY_PATHS safe_name flags run_timestamp in
        match found with
        | Some result => result
        | None =>
          if saw_permission_denied flags then
            policy_build_result SPS_Unknown SPE_PermissionDenied None run_timestamp
          else if saw_retryable_error flags
                  && negb (bool_decide (other_failure flags = Some IR_RateLimited))
          then policy_build_result SPS_Unknown SPE_TransientError None run_timestamp
          else
            match other_failure flags with
            | Some reason => SPR_Unobservable reason run_timestamp
            | None => policy_build_result SPS_Fail SPE_Absent None run_timestamp
            end
        end
  end.
End SecurityPolicy.

(** ** Lemmas *)

(** Recording keeps the failure of least priority number. *)
Lemma record_policy_failure_le current next r :
  record_policy_failure current next = Some r ->
  policy_priority r <= policy_priority next /\
  (forall p, current = Some p -> policy_priority r <= policy_priority p) /\
  (r = next \/ current = Some r).
Proof.
  unfold record_policy_failure. destruct current as [p|].
  - destruct (N.ltb_spec (policy_priority next) (policy_priority p)); intros [= <-];
      split_and!; naive_solver lia.
  - intros [= <-]. split_and!; naive_solver lia.
Qed.

Lemma record_policy_failure_Some current next : record_policy_failure current next <> None.
Proof. unfold record_policy_failure. destruct current; [by case_match|done]. Qed.

Section Lemmas.
  Context {V : Type} `{JsonValue V, GitHubClient V}.
  Implicit Types (o : ApiOutcome V) (t name : string).

(** An answer that neither shows a policy nor casts doubt on its absence. *)
Definition quiet o (contents : bool) : Prop :=
  policy_failure o contents = None /\ denied (outcome_status_code o) = false /\
  retryable_not_limited o = false.

Definition clear (f : PolicyFlags) : Prop :=
  f = mkPolicyFlags false false None.

Definition policy_content name (p : string) : ApiOutcome V :=
  request_default (repo_path name ("/contents/" +:+ p)).

Lemma check_policy_files_found paths name flags t r flags' :
  check_policy_files paths name flags t = (Some r, flags') ->
  exists pre p post, paths = pre ++ p :: post /\
    Forall (fun q => is_file (policy_content name q) = false) pre /\
    is_file (policy_content name p) = true /\
    r = policy_build_result SPS_Pass SPE_File (Some p) t.
Proof.
  revert flags. induction paths as [|p paths IH]; intros flags; simpl; [done|].
  destruct (is_file _) eqn:E.
  - intros [= <- _]. exists [], p, paths. split_and!; [done|constructor|done|done].
  - intros (pre & q & post & -> & H1 & H2 & H3)%IH.
    exists (p :: pre), q, post. split_and!; [done|by constructor|done|done].
Qed.

Lemma check_policy_files_none paths name flags t flags' :
  check_policy_files paths name flags t = (None, flags') ->
  Forall (fun q => is_file (policy_content name q) = false) paths /\
  (clear flags' <-> clear flags /\
     Forall (fun q => quiet (policy_content name q) true) paths).
Proof.
  revert flags. induction paths as [|p paths IH]; intros flags; simpl.
  { intros [= <-]. split; [constructor|]. naive_solver. }
  destruct (is_file _) eqn:E; [done|]. fold (policy_content name p) in *.
  intros [Hf Hc]%IH. split; [by constructor|]. rewrite Hc Forall_cons. clear IH Hc.
  unfold clear, quiet. destruct flags as [d re f]; simpl.
  destruct (policy_failure (policy_content name p) true) as [x|]; simpl.
  - pose proof (record_policy_failure_Some f x). naive_solver.
  - destruct (denied _), (retryable_not_limited _); simpl; naive_solver.
Qed.

(** A non-absent record whatever the flags say. *)
Lemma policy_build_file_not_absent p t t' :
  policy_build_result SPS_Pass SPE_File (Some p) t <> SPR_Absent t'.
Proof. simpl. by destruct (SecurityPolicyPath_new p). Qed.

(** The policy is reported absent exactly when the name is valid, the
    repository is public, its details are well formed and do not enable the
    setting, and every standard file was probed with an answer that neither
    shows a file nor leaves its absence in doubt. *)
Lemma policy_absent_iff repo t :
  security_policy_evaluate repo t = SPR_Absent t <->
  exists name, sanitize_path_segment (repo_name repo) = Some name /\
    is_public repo = true /\
    default false (outcome_data (repo_details name) ≫=
                   get_bool "is_security_policy_enabled") = false /\
    quiet (repo_details name) false /\
    Forall (fun p => is_file (policy_content name p) = false /\
                     quiet (policy_content name p) true) SECURITY_POLICY_PATHS.
Proof.
  unfold security_policy_evaluate.
  destruct (sanitize_path_segment (repo_name repo)) as [name|]; [|naive_solver].
  destruct (is_public repo); cbn [negb]; [|naive_solver].
  set (enabled := default false _).
  assert (outcome_is_ok (repo_details name) = false -> enabled = false) as Hok.
  { unfold enabled. by destruct (repo_details name). }
  destruct (outcome_is_ok (repo_details name) && enabled) eqn:Een.
  { apply andb_prop in Een as [_ Een]. naive_solver congruence. }
  assert (enabled = false) as Hen.
  { destruct (outcome_is_ok _); simpl in Een; auto. }
  destruct (check_policy_files _ _ _ _) as [[r|] flags] eqn:Ec.
  - apply check_policy_files_found in Ec as (pre & p & post & Hp & _ & Hf & ->).
    split; [intros Ha; by apply policy_build_file_not_absent in Ha|].
    intros (n & [= <-] & _ & _ & _ & Hall). rewrite Hp in Hall.
    apply Forall_app in Hall as [_ [[Hf' _] _]%Forall_cons]. congruence.
  - apply check_policy_files_none in Ec as [Hf Hc].
    assert (clear (mkPolicyFlags (denied (outcome_status_code (repo_details name)))
      (retryable_not_limited (repo_details name)) (policy_failure (repo_details name) false))
      <-> quiet (repo_details name) false) as Hq.
    { unfold clear, quiet. split; [by intros [= -> -> ->]|by intros (-> & -> & ->)]. }
    rewrite Hq in Hc. transitivity (clear flags).
    { clear. unfold clear. destruct flags as [[] [] [[]|]]; simpl; naive_solver. }
    rewrite Hc. split.
    + intros [H1 H2]. exists name. split_and!; [done..|]. by apply Forall_and.
    + intros (n & [= <-] & _ & _ & H1 & H2). apply Forall_and in H2. tauto.
Qed.
End Lemmas.

Definition gone : ApiOutcome Json := Failure (Some 404) "not found" false.

Example sample_policy_absent :
  @security_policy_evaluate Json _ (table_client "org" [] (outcome_success (JObj [])))
    (mkRepository "1" None "svc" Public None "main" false "1" None true None None None
       false false None [] None) "t" = SPR_Absent "t".
Proof. vm_compute. reflexivity. Qed.
