(* ===== verification/Dependabot.v ===== *)
(** * Dependabot security updates ([collector/dependabot.rs]) *)

From S2P Require Import Prelude Str Json GitHub Repository Checks.

Open Scope N_scope.

(** [dependabot::build_result]. *)
Definition dependabot_build_result (status : DependabotStatus) (timestamp : string)
    (reason : option string) : DependabotResult :=
  mkDependabotResult status reason timestamp.

Section Dependabot.
  Context {V : Type} `{JsonValue V}.

Definition extract_status (data : V) : option DependabotStatus :=
  match (get "security_and_analysis" data ≫= get "dependabot_security_updates")
        ≫= get_str "status" with
  | None => None
  | Some status_str =>
    if bool_decide (status_str = "enabled") then Some DS_Enabled
    else if bool_decide (status_str = "paused") then Some DS_Paused
    else if bool_decide (status_str = "disabled") then Some DS_Disabled
    else None
  end.

(** [dependabot::evaluate]. *)
Definition dependabot_evaluate `{GitHubClient V} (repo : Repository)
    (run_timestamp : string) : DependabotResult :=
  match sanitize_path_segment (repo_name repo) with
  | None => dependabot_build_result DS_Unknown run_timestamp (Some "invalid_repo_name")
  | Some safe_name =>
    let details := repo_details safe_name in
    match (if outcome_is_ok details then outcome_data details ≫= extract_status else None) with
    | Some status => dependabot_build_result status run_timestamp None
    | None =>
      if bool_decide (outcome_status_code details = Some 403) then
        dependabot_build_result DS_Unknown run_timestamp (Some "permission_denied")
      else if outcome_is_retryable details then
        dependabot_build_result DS_Unknown run_timestamp (Some "transient_error")
      else
        dependabot_build_result DS_Unknown run_timestamp (Some "insufficient_evidence")
    end
  end.

Lemma extract_status_definite v s : extract_status v = Some s -> s <> DS_Unknown.
Proof. unfold extract_status. repeat case_match; naive_solver. Qed.

(** The status is definite exactly when no reason is given, and then it
    is the one the repository details state; an unknown status always comes
    with a reason, and is excluded from the score. *)
Lemma dependabot_reason_iff `{GitHubClient V} repo t :
  let r := dependabot_evaluate repo t in
  dependabot_timestamp r = t /\
  (dependabot_reason r = None <-> dependabot_status r <> DS_Unknown) /\
  (dependabot_reason r = None <->
     exists name v s, sanitize_path_segment (repo_name repo) = Some name /\
       outcome_data (repo_details name) = Some v /\ extract_status v = Some s /\
       dependabot_status r = s) /\
  (dependabot_reason r <> None <->
     ScoreCategory_of_dependabot (dependabot_status r) = SC_Excluded ER_Unknown).
Proof.
  intros r. unfold r, dependabot_evaluate. clear r.
  destruct (sanitize_path_segment (repo_name repo)) as [name|];
    [|simpl; split_and!; [done|by split|split; [done|by intros (? & ? & ? & ? & _)]|by split]].
  assert ((if outcome_is_ok (repo_details name)
           then outcome_data (repo_details name) ≫= extract_status else None) =
          outcome_data (repo_details name) ≫= extract_status) as ->.
  { by destruct (repo_details name). }
  destruct (outcome_data (repo_details name) ≫= extract_status) as [s|] eqn:Es.
  - apply bind_Some in Es as (v & Ev & Es).
    pose proof (extract_status_definite v s Es). simpl.
    split_and!; [done|split; congruence| |destruct s; split; done].
    split; [intros _; by exists name, v, s|done].
  - assert (forall m : option string, m <> None -> (m = None <-> exists (n : string) v s, Some name = Some n /\
      outcome_data (repo_details n) = Some v /\ extract_status v = Some s /\
      DS_Unknown = s)) as Hno.
    { intros m Hm. split; [done|]. intros (n & v & s & [= <-] & Ev & Es' & _).
      rewrite Ev in Es. simpl in Es. congruence. }
    repeat case_match; simpl; (split_and!; [done|by split|by apply Hno|by split]).
Qed.
End Dependabot.
