(* ===== verification/CodeownersParser.v ===== *)
(** * The CODEOWNERS parser ([collector/codeowners_parser.rs])

    The parser reads the file line by line with an accumulator; the relation
    [line_means] says what a line of the file contributes, without the parser's
    definitions, and the parser is shown to compute it.  [to_lowercase] is [str::to_lowercase], which folds
    every Unicode letter: it stays a parameter, and no theorem needs more of
    it than that it is a function. *)

From S2P Require Import Prelude Str Checks.

Open Scope N_scope.

Definition MAX_LINE_LENGTH : N := 10 * 1024.

Definition str_len (s : string) : N := N.of_nat (String.length s).

Definition strip_inline_comment (line : string) : string :=
  let positions :=
    omap id [find " #" line; find (String (byte 9) "#") line] in
  match min_by_key N.of_nat positions with
  | Some pos => trim_end (take_bytes pos line)
  | None => line
  end.

(** The owners of a line: its tokens that start with an at sign, sorted and
    without repetition. *)
Definition token_owners (tokens : list string) : list string :=
  dedup (sort_by String.le (List.filter (starts_with "@") tokens)).

Section Parser.
  Context (to_lowercase : string -> string).

(** The mutable locals of [parse_codeowners]. *)
Record ParserState := mkParserState {
  st_entries : list CodeownersEntry;
  st_seen_owners : gset string;
  st_unique_owners : list string;
  st_skipped_lines : N;
}.

(** [for owner in &owners]. *)
Fixpoint record_owners (owners : list string) (seen : gset string) (unique : list string)
    : gset string * list string :=
  match owners with
  | [] => (seen, unique)
  | owner :: owners =>
    let lower := to_lowercase owner in
    if decide (lower ∈ seen) then record_owners owners seen unique
    else record_owners owners ({[lower]} ∪ seen) (unique ++ [owner])
  end.

(** The body of the loop over [content.lines()]. *)
Definition parse_line (st : ParserState) (line : string) : ParserState :=
  if MAX_LINE_LENGTH <? str_len line then
    mkParserState (st_entries st) (st_seen_owners st) (st_unique_owners st)
      (sat_add u32_max (st_skipped_lines st) 1)
  else
    let trimmed := trim line in
    if is_empty trimmed || starts_with "#" trimmed then st
    else
      let effective := strip_inline_comment trimmed in
      match split_whitespace effective with
      | [] => st
      | pattern :: tokens =>
        let owners := token_owners tokens in
        let '(seen, unique) :=
          record_owners owners (st_seen_owners st) (st_unique_owners st) in
        mkParserState (st_entries st ++ [mkCodeownersEntry pattern owners]) seen unique
          (st_skipped_lines st)
      end.

Definition parse_codeowners (content : string) : ParsedCodeowners :=
  let st := fold_left parse_line (lines content) (mkParserState [] ∅ [] 0) in
  mkParsedCodeowners (st_entries st) (st_unique_owners st) (st_skipped_lines st).
End Parser.

(** ** What a line of the file means *)

(** An inline comment starts with a hash after a space or a tab. *)
Definition comment_mark (b : string) : Prop :=
  exists r, b = " #" +:+ r \/ b = String (byte 9) "#" +:+ r.

(** [k] is what [t] says before its first inline comment. *)
Definition before_comment (t k : string) : Prop :=
  (exists a b, t = a +:+ b /\ comment_mark b /\
     (forall a' b', t = a' +:+ b' -> comment_mark b' -> (String.length a <= String.length a')%nat) /\
     k = trim_end a) \/
  ((forall a b, t = a +:+ b -> ~ comment_mark b) /\ k = t).

(** Lines longer than 10 KB, blank lines and comments say nothing. *)
Definition says_nothing (line : string) : Prop :=
  10240 < str_len line \/ trim line = "" \/ exists r, trim line = "#" +:+ r.

(** Any other line is an entry: its pattern is its first word, and its owners
    are, in order and once each, the words after it that start with an at sign. *)
Inductive line_means (line : string) : option CodeownersEntry -> Prop :=
| LM_nothing : says_nothing line -> line_means line None
| LM_entry k pattern words owners :
    ~ says_nothing line -> before_comment (trim line) k ->
    split_whitespace k = pattern :: words ->
    StronglySorted String.le owners -> NoDup owners ->
    (forall o, o ∈ owners <-> o ∈ words /\ exists r, o = "@" +:+ r) ->
    line_means line (Some (mkCodeownersEntry pattern owners)).

(** ** The parser's contribution of a line *)

Definition overlong (line : string) : bool := MAX_LINE_LENGTH <? str_len line.

(** What one line contributes. *)
Definition line_entry (line : string) : option CodeownersEntry :=
  if overlong line then None
  else if is_empty (trim line) || starts_with "#" (trim line) then None
  else
    match split_whitespace (strip_inline_comment (trim line)) with
    | [] => None
    | pattern :: tokens => Some (mkCodeownersEntry pattern (token_owners tokens))
    end.

(** The first spelling of each owner, up to case. *)
Fixpoint first_spellings (to_lowercase : string -> string) (seen : gset string)
    (owners : list string) : list string :=
  match owners with
  | [] => []
  | owner :: owners =>
    if decide (to_lowercase owner ∈ seen) then first_spellings to_lowercase seen owners
    else owner :: first_spellings to_lowercase ({[to_lowercase owner]} ∪ seen) owners
  end.

(** ** Lemmas *)

Lemma token_owners_sorted tokens :
  StronglySorted String.le (token_owners tokens) /\ NoDup (token_owners tokens).
Proof. apply dedup_sorted; [apply _|]. apply sort_by_sorted; apply _. Qed.

Lemma elem_of_token_owners tokens o :
  o ∈ token_owners tokens <-> o ∈ tokens /\ starts_with "@" o = true.
Proof.
  unfold token_owners. rewrite elem_of_dedup sort_by_Permutation.
  rewrite !list_elem_of_In filter_In. tauto.
Qed.

Lemma line_entry_owners line e :
  line_entry line = Some e -> exists tokens, entry_owners e = token_owners tokens.
Proof.
  unfold line_entry. destruct (overlong line); [done|].
  destruct (_ || _); [done|]. destruct (split_whitespace _) as [|p tokens]; [done|].
  intros [= <-]. by exists tokens.
Qed.

Lemma before_comment_unique t k k' : before_comment t k -> before_comment t k' -> k = k'.
Proof.
  intros [(a & b & E & Hm & Hf & ->)|[Hn ->]] [(a' & b' & E' & Hm' & Hf' & ->)|[Hn' ->]]; [|..|done].
  - f_equal. apply (str_app_inj_length _ b _ b'); [by rewrite -E -E'|].
    pose proof (Hf _ _ E' Hm'). pose proof (Hf' _ _ E Hm). lia.
  - by destruct (Hn' _ _ E).
  - by destruct (Hn _ _ E').
Qed.

Lemma find_Some p s n : find p s = Some n -> exists l r, s = l +:+ p +:+ r /\ n = String.length l /\
  forall a b, s = a +:+ p +:+ b -> (n <= String.length a)%nat.
Proof.
  unfold find. destruct (split_once p s) as [[l r]|] eqn:E; [|done]. intros [= <-]. exists l, r.
  split_and!; [by apply split_once_Some|done|]. intros a b. by apply (split_once_shortest p s l r).
Qed.

Lemma find_None p s : find p s = None -> forall a b, s <> a +:+ p +:+ b.
Proof. unfold find. destruct (split_once p s) eqn:E; [done|]. intros _ a b. by apply split_once_None. Qed.

Lemma strip_inline_before t : before_comment t (strip_inline_comment t).
Proof.
  unfold strip_inline_comment, before_comment. destruct (min_by_key _ _) as [n|] eqn:E.
  - left. apply min_by_key_Some in E as [Hin Hmin].
    assert (forall m p, find p t = Some m -> comment_mark p -> n = m ->
      exists a b, t = a +:+ b /\ comment_mark b /\ n = String.length a) as H.
    { intros m p (l & r & -> & -> & _)%find_Some [r' Hp] ->. exists l, (p +:+ r). split_and!; [done| |done].
      exists (r' +:+ r). rewrite !str_app_assoc. destruct Hp as [->| ->]; auto. }
    assert (exists a b, t = a +:+ b /\ comment_mark b /\ n = String.length a) as (a & b & Et & Hb & Hn).
    { apply list_elem_of_omap in Hin as (o & Ho & E). simpl in E. subst o.
      rewrite !elem_of_cons elem_of_nil in Ho. destruct Ho as [Ho|[Ho|[]]]; (eapply H; [exact (eq_sym Ho)| |done]); exists "";
        [by left|by right]. }
    exists a, b. split_and!; [done..| |by rewrite Et Hn take_bytes_app].
    assert (forall p a' r, p ∈ [" #"; String (byte 9) "#"] -> t = a' +:+ p +:+ r -> (n <= String.length a')%nat) as Hle.
    { intros p a' r Hp Et'. destruct (find p t) as [m|] eqn:Em; [|by destruct (find_None _ _ Em a' r)].
      pose proof Em as (? & ? & _ & _ & Hm)%find_Some. specialize (Hm _ _ Et').
      assert (n <= m)%nat; [|lia]. specialize (Hmin m). enough (N.of_nat n <= N.of_nat m) by lia. apply Hmin.
      apply list_elem_of_omap. exists (Some m). split; [|done]. rewrite -Em. set_solver. }
    intros a' b' Et' [r [-> | ->]]; subst n; eapply Hle; [|done| |done]; set_solver.
  - right. split; [|done]. apply min_by_key_None in E.
    destruct (find " #" t) eqn:E1; [discriminate E|].
    destruct (find (String (byte 9) "#") t) eqn:E2; [discriminate E|].
    intros a b Et [r [-> | ->]]; [by destruct (find_None _ _ E1 a r)|by destruct (find_None _ _ E2 a r)].
Qed.

(** A line that is no comment has a first word. *)
Lemma before_comment_words t k :
  t <> "" -> no_leading t -> before_comment t k -> split_whitespace k <> [].
Proof.
  intros Ht Hn [(a & b & -> & [r Hb] & _ & ->)|[_ ->]]; [|by apply split_whitespace_not_nil].
  assert (a <> "") as Ha.
  { intros ->. destruct Hb as [-> | ->]; revert Hn; vm_compute; done. }
  apply no_leading_prefix in Hn as Hna. apply split_whitespace_not_nil; [by apply trim_end_not_empty|].
  destruct (trim_end_prefix a) as [w E]. apply (no_leading_prefix _ w). by rewrite -E.
Qed.

Lemma says_nothing_spec line :
  says_nothing line <-> overlong line || (is_empty (trim line) || starts_with "#" (trim line)) = true.
Proof.
  unfold says_nothing, overlong. change 10240 with MAX_LINE_LENGTH.
  rewrite !orb_true_iff N.ltb_lt starts_with_spec.
  assert (is_empty (trim line) = true <-> trim line = "") as -> by (by destruct (trim line)). done.
Qed.

Lemma line_means_entry line : line_means line (line_entry line).
Proof.
  unfold line_entry. pose proof (says_nothing_spec line) as H.
  destruct (overlong line); [by apply LM_nothing, H|]. destruct (_ || _) eqn:E; [by apply LM_nothing, H|].
  pose proof (strip_inline_before (trim line)) as Hk.
  assert (~ says_nothing line) as Hs by (by intros ?%H).
  destruct (split_whitespace _) as [|pattern words] eqn:Ew.
  { destruct (before_comment_words _ _ (fun E => Hs (or_intror (or_introl E))) (trim_no_leading _) Hk Ew). }
  pose proof (token_owners_sorted words) as [??].
  eapply LM_entry; [done..|]. intros o. by rewrite elem_of_token_owners starts_with_spec.
Qed.

Lemma line_means_unique line o o' : line_means line o -> line_means line o' -> o = o'.
Proof.
  intros [H|k p ws os Hn Hk Hw Hs Hd Ho] [H'|k' p' ws' os' Hn' Hk' Hw' Hs' Hd' Ho']; [done..|].
  rewrite (before_comment_unique _ _ _ Hk' Hk) Hw in Hw'. injection Hw' as <- <-. do 2 f_equal.
  apply (StronglySorted_unique String.le); [done..|]. apply NoDup_Permutation; [done..|].
  intros x. by rewrite Ho Ho'.
Qed.

Section Lemmas.
  Context (lc : string -> string).

Lemma record_owners_spec owners seen unique :
  record_owners lc owners seen unique =
  (list_to_set (map lc owners) ∪ seen, unique ++ first_spellings lc seen owners).
Proof.
  revert seen unique. induction owners as [|o owners IH]; intros seen unique; simpl.
  - f_equal; [set_solver|by rewrite app_nil_r].
  - case_decide as Hin; rewrite IH.
    + f_equal. set_solver.
    + f_equal; [set_solver|]. by rewrite -app_assoc.
Qed.

Lemma first_spellings_app seen l1 l2 :
  first_spellings lc seen (l1 ++ l2) =
  first_spellings lc seen l1 ++ first_spellings lc (list_to_set (map lc l1) ∪ seen) l2.
Proof.
  revert seen. induction l1 as [|o l1 IH]; intros seen; simpl.
  - f_equal. set_solver.
  - set (L := list_to_set (map lc l1) : gset string). case_decide as Hin; rewrite IH; simpl.
    + replace ({[lc o]} ∪ L ∪ seen) with (L ∪ seen) by set_solver. done.
    + by replace ({[lc o]} ∪ L ∪ seen) with (L ∪ ({[lc o]} ∪ seen)) by set_solver.
Qed.

Lemma elem_of_first_spellings seen l o :
  o ∈ first_spellings lc seen l -> o ∈ l /\ lc o ∉ seen.
Proof.
  revert seen. induction l as [|x l IH]; intros seen; simpl; [set_solver|].
  case_decide.
  - intros [??]%IH. split; [by right|done].
  - rewrite elem_of_cons. intros [->|[??]%IH]; [by split; [left|]|].
    split; [by right|set_solver].
Qed.

Lemma first_spellings_NoDup seen l : NoDup (map lc (first_spellings lc seen l)).
Proof.
  revert seen. induction l as [|x l IH]; intros seen; simpl; [constructor|].
  case_decide; [done|]. simpl. constructor; [|done].
  rewrite elem_of_map. intros (y & [_ Hy]%elem_of_first_spellings & Hxy). set_solver.
Qed.

Lemma first_spellings_complete seen l o :
  o ∈ l -> lc o ∉ seen -> exists o', o' ∈ first_spellings lc seen l /\ lc o' = lc o.
Proof.
  revert seen. induction l as [|x l IH]; intros seen; simpl; [set_solver|].
  rewrite elem_of_cons. intros Ho Hn. case_decide as Hx.
  - destruct Ho as [->|Ho]; [done|]. by apply IH.
  - destruct (decide (lc x = lc o)) as [E|E]; [exists x; split; [left|done]|].
    destruct Ho as [->|Ho]; [done|].
    destruct (IH ({[lc x]} ∪ seen) Ho) as (o' & H1 & H2); [set_solver|].
    exists o'. split; [by right|done].
Qed.

(** All the owners of the entries, in reading order. *)
Definition all_owners (es : list CodeownersEntry) : list string :=
  concat (map entry_owners es).

(** The state of the parser after the entries [es] and [n] overlong lines. *)
Definition state_of (es : list CodeownersEntry) (n : N) : ParserState :=
  mkParserState es (list_to_set (map lc (all_owners es)))
    (first_spellings lc ∅ (all_owners es)) (N.min n u32_max).

Lemma all_owners_snoc es e : all_owners (es ++ [e]) = all_owners es ++ entry_owners e.
Proof. unfold all_owners. by rewrite map_app concat_app /= app_nil_r. Qed.

Lemma parse_line_spec es n line :
  parse_line lc (state_of es n) line =
  state_of (es ++ option_list (line_entry line)) (n + if overlong line then 1 else 0).
Proof.
  unfold parse_line, line_entry. fold (overlong line).
  destruct (overlong line); simpl.
  { rewrite app_nil_r /state_of. f_equal. apply sat_add_clamp. }
  rewrite N.add_0_r. destruct (is_empty _ || starts_with _ _); simpl; [by rewrite app_nil_r|].
  destruct (split_whitespace _) as [|pattern tokens]; simpl; [by rewrite app_nil_r|].
  rewrite record_owners_spec /state_of all_owners_snoc. simpl.
  rewrite first_spellings_app map_app list_to_set_app_L union_empty_r_L.
  f_equal; set_solver.
Qed.

Lemma parse_lines_spec ls es n :
  fold_left (parse_line lc) ls (state_of es n) =
  state_of (es ++ omap line_entry ls) (n + countb overlong ls).
Proof.
  revert es n. induction ls as [|l ls IH]; intros es n; cbn [fold_left].
  - by rewrite /= app_nil_r countb_nil N.add_0_r.
  - rewrite parse_line_spec IH countb_cons -app_assoc N.add_assoc.
    by destruct (line_entry l) eqn:E; simpl; rewrite E.
Qed.

Lemma parsed_entries content :
  parse_codeowners lc content =
  let es := omap line_entry (lines content) in
  mkParsedCodeowners es (first_spellings lc ∅ (all_owners es))
    (N.min (countb overlong (lines content)) u32_max).
Proof.
  unfold parse_codeowners. change (mkParserState [] ∅ [] 0) with (state_of [] 0).
  rewrite parse_lines_spec. done.
Qed.

(** C15: the parser reads a file line by line.  There is exactly one way to
    read the lines of a file by [line_means], and the parsed file is that
    reading: its entries are those of the lines, in order; its unique owners
    are the first spelling of each owner up to case; its skip count is the
    number of lines longer than 10 KB, saturated at 32 bits. *)
Theorem parse_codeowners_reference content :
  exists readings, Forall2 line_means (lines content) readings /\
    (forall readings', Forall2 line_means (lines content) readings' -> readings' = readings) /\
    parse_codeowners lc content =
      mkParsedCodeowners (omap id readings) (first_spellings lc ∅ (all_owners (omap id readings)))
        (N.min (countb (fun line => 10240 <? str_len line) (lines content)) u32_max).
Proof.
  exists (map line_entry (lines content)). split_and!.
  - apply Forall2_fmap_r, Forall_Forall2_diag, Forall_true, line_means_entry.
  - intros rs. generalize (lines content). induction rs as [|r rs IH]; intros ls Hrs;
      inversion Hrs as [|l ? ls' ? Hl Hls]; subst; [done|]. simpl. f_equal; [|by apply IH].
    eapply line_means_unique; [done|apply line_means_entry].
  - rewrite parsed_entries. assert (omap id (map line_entry (lines content)) = omap line_entry (lines content)) as ->; [|done].
    generalize (lines content) as ls. induction ls as [|l ls IH]; [done|]. cbn. rewrite IH. by destruct (line_entry l).
Qed.

(** What the parsed file promises its readers: each entry has a pattern
    that came from a kept line and owners that start with an at sign, sorted
    and without repetition; no two unique owners agree up to case; an owner
    is listed among the unique owners, up to case, exactly when an entry
    names it; and the skip count fits 32 bits. *)
Lemma parse_codeowners_wf content :
  let p := parse_codeowners lc content in
  Forall (fun e => StronglySorted String.le (entry_owners e) /\ NoDup (entry_owners e) /\
                   Forall (fun o => starts_with "@" o = true) (entry_owners e)) (entries p) /\
  NoDup (map lc (unique_owners p)) /\
  (forall o, o ∈ unique_owners p -> exists e, e ∈ entries p /\ o ∈ entry_owners e) /\
  (forall e o, e ∈ entries p -> o ∈ entry_owners e ->
     exists o', o' ∈ unique_owners p /\ lc o' = lc o) /\
  skipped_lines p <= u32_max.
Proof.
  intros p. unfold p. rewrite parsed_entries. simpl.
  set (es := omap line_entry (lines content)).
  assert (forall o, o ∈ all_owners es <-> exists e, e ∈ es /\ o ∈ entry_owners e) as Hall.
  { intros o. unfold all_owners. rewrite list_elem_of_In in_concat.
    setoid_rewrite <-list_elem_of_In. setoid_rewrite elem_of_map. naive_solver. }
  split_and!.
  - apply Forall_forall. intros e (line & Hl & He)%list_elem_of_omap.
    apply line_entry_owners in He as [tokens ->].
    pose proof (token_owners_sorted tokens) as [??]. split_and!; [done..|].
    apply Forall_forall. intros o [_ ?]%elem_of_token_owners. done.
  - apply first_spellings_NoDup.
  - intros o [Ho _]%elem_of_first_spellings. by apply Hall.
  - intros e o He Ho. apply first_spellings_complete; [|set_solver].
    apply Hall. by exists e.
  - lia.
Qed.
End Lemmas.

Example sample_parse :
  parse_codeowners to_ascii_lowercase
    "# owners
*  @org/team @b @a @b   # default
*.js @B dev@example.com
" =
  mkParsedCodeowners
    [mkCodeownersEntry "*" ["@a"; "@b"; "@org/team"]; mkCodeownersEntry "*.js" ["@B"]]
    ["@a"; "@b"; "@org/team"] 0.
Proof. vm_compute. reflexivity. Qed.
