(* ===== verification/Codeowners.v ===== *)
(** * CODEOWNERS ([collector/codeowners.rs])

    The probes of the three locations in GitHub's search order, the extraction
    of the file's content, and the resulting [CodeownersResult].  Base64
    decoding ([base64]) is a parameter; the size cap, the newline filter and
    the UTF-8 check around it are the code's. *)

From S2P Require Import Prelude Str Json GitHub Repository Checks CodeownersParser.

Open Scope N_scope.

Definition CONFORMING_CODEOWNERS_PATH : string := ".github/CODEOWNERS".
Definition NON_CONFORMING_CODEOWNERS_PATH : string := "CODEOWNERS".
Definition DOCS_CODEOWNERS_PATH : string := "docs/CODEOWNERS".
Definition MAX_BASE64_LENGTH : N := 133 * 1024.

(** [codeowners::build_result]. *)
Definition codeowners_build_result (status : CodeownersStatus) (path : option string)
    (timestamp : string) : CodeownersResult :=
  match status with
  | COS_Conforming => COR_Conforming CC_Unparsed timestamp
  | COS_NonConforming =>
    if bool_decide (path = Some "docs/CODEOWNERS")
    then COR_NonConforming CL_Docs CC_Unparsed timestamp
    else COR_NonConforming CL_Root CC_Unparsed timestamp
  | COS_Absent => COR_Absent timestamp
  | COS_Unknown => COR_Unobservable IR_Invalid timestamp
  end.

Definition build_result_with_parsed (status : CodeownersStatus) (path timestamp : string)
    (parsed_or_truncation : result CodeownersTruncationReason ParsedCodeowners)
    : CodeownersResult :=
  let content :=
    match parsed_or_truncation with
    | Ok p => CC_Parsed p
    | Err reason => CC_Truncated reason
    end in
  match codeowners_build_result status (Some path) timestamp with
  | COR_Conforming _ timestamp => COR_Conforming content timestamp
  | COR_NonConforming location _ timestamp => COR_NonConforming location content timestamp
  | other => other
  end.

Inductive PathProbe (V : Type) :=
| Found (status : CodeownersStatus) (path : string) (data : option V)
| ProbeIndeterminate (reason : IndeterminateReason)
| NotFound.
Arguments Found {V} _ _ _.
Arguments ProbeIndeterminate {V} _.
Arguments NotFound {V}.

Section Codeowners.
  Context {V : Type} `{JsonValue V}.
  Context (base64_decode : string -> option string) (to_lowercase : string -> string).

Definition is_file_response (result : ApiOutcome V) : bool :=
  outcome_is_ok result
  && bool_decide (outcome_data result ≫= get_str "type" = Some "file").

Definition not_newline (c : Ascii.ascii) : bool :=
  negb (Ascii.eqb c nl) && negb (Ascii.eqb c cr).

(** [try_parse_content]; [None] stands for the [Value::Null] of a file
    response without data, on which every lookup fails. *)
Definition try_parse_content (data : option V)
    : result CodeownersTruncationReason ParsedCodeowners :=
  match data ≫= get_str "encoding" with
  | None => Err TR_NotBase64Encoded
  | Some encoding =>
    if negb (bool_decide (encoding = "base64")) then Err TR_NotBase64Encoded
    else
      match data ≫= get_str "content" with
      | None => Err TR_ContentMissing
      | Some raw_content =>
        if MAX_BASE64_LENGTH <? str_len raw_content then Err TR_OversizedBase64
        else
          let cleaned := filter_bytes not_newline raw_content in
          match base64_decode cleaned with
          | None => Err TR_DecodeFailed
          | Some decoded =>
            match from_utf8 decoded with
            | None => Err TR_InvalidUtf8
            | Some text => Ok (parse_codeowners to_lowercase text)
            end
          end
      end
  end.

(** The classification of one answer by [probe_path]. *)
Definition probe_outcome (path : string) (status : CodeownersStatus) (outcome : ApiOutcome V)
    : PathProbe V :=
  if is_file_response outcome then Found status path (outcome_data outcome)
  else
    match outcome_is_ok outcome, outcome_status_code outcome with
    | false, Some 401 | false, Some 403 => ProbeIndeterminate IR_PermissionDenied
    | false, Some 404 => NotFound
    | false, Some 429 => ProbeIndeterminate IR_RateLimited
    | false, _ =>
      if outcome_is_retryable outcome then ProbeIndeterminate IR_Transient
      else ProbeIndeterminate IR_Invalid
    | true, _ =>
      match outcome_data outcome with
      | Some data =>
        if (match as_array data with Some _ => true | None => false end)
           || match get_str "type" data with
              | Some ty => bool_decide (ty ∈ ["dir"; "symlink"; "submodule"])
              | None => false
              end
        then NotFound
        else ProbeIndeterminate IR_Invalid
      | None => ProbeIndeterminate IR_Invalid
      end
    end.

Definition probe_path `{GitHubClient V} (safe_name path : string)
    (status : CodeownersStatus) : PathProbe V :=
  probe_outcome path status (request_default (repo_path safe_name ("/contents/" +:+ path))).

Definition codeowners_candidates : list (string * CodeownersStatus) :=
  [(CONFORMING_CODEOWNERS_PATH, COS_Conforming);
   (NON_CONFORMING_CODEOWNERS_PATH, COS_NonConforming);
   (DOCS_CODEOWNERS_PATH, COS_NonConforming)].

(** The loop over the candidates. *)
Fixpoint probe_candidates `{GitHubClient V} (candidates : list (string * CodeownersStatus))
    (safe_name run_timestamp : string) : CodeownersResult :=
  match candidates with
  | [] => codeowners_build_result COS_Absent None run_timestamp
  | (path, status) :: candidates =>
    match probe_path safe_name path status with
    | Found status path data =>
      build_result_with_parsed status path run_timestamp (try_parse_content data)
    | ProbeIndeterminate reason => COR_Unobservable reason run_timestamp
    | NotFound => probe_candidates candidates safe_name run_timestamp
    end
  end.

(** [codeowners::evaluate]. *)
Definition codeowners_evaluate `{GitHubClient V} (repo : Repository)
    (run_timestamp : string) : CodeownersResult :=
  match sanitize_path_segment (repo_name repo) with
  | None => codeowners_build_result COS_Unknown None run_timestamp
  | Some safe_name => probe_candidates codeowners_candidates safe_name run_timestamp
  end.

(** ** Lemmas *)

(** What a probe found was an answer that says [file]. *)
Lemma probe_path_Found `{GitHubClient V} name p s s' p' d :
  probe_path name p s = Found s' p' d -> s' = s /\ p' = p.
Proof.
  unfold probe_path, probe_outcome. destruct (is_file_response _).
  - by intros [= <- <- _].
  - by repeat case_match.
Qed.

(** The content a located file is recorded with. *)
Definition content_of (d : option V) : CodeownersContent :=
  match try_parse_content d with Ok p => CC_Parsed p | Err r => CC_Truncated r end.

(** The location follows GitHub's search order.  A file is reported at a
    location exactly when the probe of that location found it and the probes
    of the locations before it found no file; absence is reported exactly
    when the three probes found no file. *)
Lemma codeowners_precedence `{GitHubClient V} name t :
  let r := probe_candidates codeowners_candidates name t in
  let conforming := probe_path name ".github/CODEOWNERS" COS_Conforming in
  let root := probe_path name "CODEOWNERS" COS_NonConforming in
  let docs := probe_path name "docs/CODEOWNERS" COS_NonConforming in
  (forall c, r = COR_Conforming c t <->
     exists d, conforming = Found COS_Conforming ".github/CODEOWNERS" d /\ c = content_of d) /\
  (forall c, r = COR_NonConforming CL_Root c t <->
     conforming = NotFound /\
     exists d, root = Found COS_NonConforming "CODEOWNERS" d /\ c = content_of d) /\
  (forall c, r = COR_NonConforming CL_Docs c t <->
     conforming = NotFound /\ root = NotFound /\
     exists d, docs = Found COS_NonConforming "docs/CODEOWNERS" d /\ c = content_of d) /\
  (r = COR_Absent t <-> conforming = NotFound /\ root = NotFound /\ docs = NotFound).
Proof.
  intros r conforming root docs. unfold r, codeowners_candidates.
  cbn [probe_candidates]. unfold CONFORMING_CODEOWNERS_PATH,
    NON_CONFORMING_CODEOWNERS_PATH, DOCS_CODEOWNERS_PATH.
  fold conforming root docs.
  destruct conforming as [s p d|reason|] eqn:Ec;
    [apply probe_path_Found in Ec as [-> ->]; unfold build_result_with_parsed; simpl;
     fold (content_of d); split_and!; intros; naive_solver
    |split_and!; intros; naive_solver|].
  destruct root as [s p d|reason|] eqn:Er;
    [apply probe_path_Found in Er as [-> ->]; unfold build_result_with_parsed; simpl;
     fold (content_of d); split_and!; intros; naive_solver
    |split_and!; intros; naive_solver|].
  destruct docs as [s p d|reason|] eqn:Ed;
    [apply probe_path_Found in Ed as [-> ->]; unfold build_result_with_parsed; simpl;
     fold (content_of d); split_and!; intros; naive_solver
    |split_and!; intros; naive_solver
    |split_and!; intros; naive_solver].
Qed.
End Codeowners.
