(* ===== verification/Time.v ===== *)
(** * Time ([domain/time.rs])

    Timestamps are nanoseconds since the epoch ([Z]).  The parser of ISO 8601 text
    belongs to [jiff] and is a parameter; the normalisation of a trailing [Z]
    around it is the code's. *)

From S2P Require Import Prelude Str.

Open Scope Z_scope.

Definition STALE_THRESHOLD_DAYS : Z := 730.
Definition DEPENDABOT_INACTIVITY_THRESHOLD_DAYS : Z := 90.

Section Time.
  (** [value.parse::<Timestamp>().ok()]. *)
  Context (parse_timestamp : string -> option Z).

Definition parse_iso8601 (value : string) : option Z :=
  let normalized :=
    match strip_suffix "Z" value with
    | Some stripped => stripped +:+ "+00:00"
    | None => value
    end in
  parse_timestamp normalized.

(** [(generated.duration_since(t).as_secs() / 86_400).max(0)]: both the whole
    seconds of a duration and the division of Rust truncate towards zero. *)
Definition duration_secs (generated t : Z) : Z := Z.quot (generated - t) 1000000000.
Definition age_days (generated t : Z) : Z :=
  Z.max (Z.quot (duration_secs generated t) 86400) 0.

Definition is_repo_stale (updated_at : option string) (run_timestamp : string) : bool :=
  match updated_at ≫= parse_iso8601 with
  | None => false
  | Some updated =>
    match parse_iso8601 run_timestamp with
    | None => false
    | Some generated => STALE_THRESHOLD_DAYS <? age_days generated updated
    end
  end.

Definition is_dependabot_inactive (pushed_at : option string) (run_timestamp : string) : bool :=
  match pushed_at ≫= parse_iso8601 with
  | None => false
  | Some pushed =>
    match parse_iso8601 run_timestamp with
    | None => false
    | Some generated => DEPENDABOT_INACTIVITY_THRESHOLD_DAYS <? age_days generated pushed
    end
  end.

(** A repository more than [d] days old: at least [d + 1] whole days. *)
Lemma age_days_lt generated t d :
  0 <= d ->
  (d < age_days generated t <-> (d + 1) * 86400 * 1000000000 <= generated - t).
Proof.
  intros Hd. unfold age_days, duration_secs. Z.to_euclidean_division_equations. lia.
Qed.

(** Stale is: at least 731 whole days old. *)
Lemma stale_iff u r t g :
  parse_iso8601 u = Some t -> parse_iso8601 r = Some g ->
  is_repo_stale (Some u) r = true <-> 731 * 86400 * 1000000000 <= g - t.
Proof.
  intros Hu Hr. unfold is_repo_stale. simpl. rewrite Hu Hr Z.ltb_lt.
  rewrite age_days_lt; [|done]. unfold STALE_THRESHOLD_DAYS. lia.
Qed.
End Time.
