(* ===== verification/Evidence.v ===== *)
(** * Evidence ([domain/evidence.rs])

    The evidence of one repository, its read state and completeness, and the
    coverage bounds of a collection run. *)

From S2P Require Import Prelude Str Repository Checks.

Open Scope N_scope.

Inductive RepositoryReadState := RS_Pending | RS_Failed | RS_Observed.
#[export] Instance RepositoryReadState_eq_dec : EqDecision RepositoryReadState.
Proof. solve_decision. Defined.

(** [cond.then_some(x)]. *)
Definition then_some {A} (b : bool) (a : A) : option A := if b then Some a else None.

Definition observed_check_timestamps (c : RepositoryChecks) : list (option string) :=
  [ then_some (bool_decide (SecurityPolicyResult_status (security_policy c) ∈ [SPS_Pass; SPS_Fail]))
      (SecurityPolicyResult_timestamp (security_policy c));
    then_some (bool_decide (SecretScanningResult_status (secret_scanning c)
                              ∈ [SSS_Enabled; SSS_Disabled]))
      (SecretScanningResult_timestamp (secret_scanning c));
    then_some (negb (bool_decide (dependabot_status (dependabot_security_updates c) = DS_Unknown)))
      (dependabot_timestamp (dependabot_security_updates c));
    then_some (is_observed (branch_protection c))
      (BranchProtectionResult_timestamp (branch_protection c));
    then_some (negb (bool_decide (CodeownersResult_status (codeowners c) = COS_Unknown)))
      (CodeownersResult_timestamp (codeowners c)) ].

Definition PENDING_REASON : string := "pending".

(** [RepositoryReadState::from_checks]. *)
Definition read_state_from_checks (c : RepositoryChecks) : RepositoryReadState :=
  let has_observation :=
    existsb (fun at_ => match at_ with Some _ => true | None => false end)
      (observed_check_timestamps c) in
  let pending :=
    forallb (fun reason => bool_decide (reason = Some PENDING_REASON))
      [ SecretScanningResult_reason (secret_scanning c);
        dependabot_reason (dependabot_security_updates c);
        then_some (is_pending (branch_protection c)) PENDING_REASON ] in
  match has_observation, pending with
  | true, _ => RS_Observed
  | false, true => RS_Pending
  | false, false => RS_Failed
  end.

Record LastCommitInfo := mkLastCommitInfo {
  committer_login : option string;
  committer_name : option string;
  commit_date : option string;
}.
#[export] Instance LastCommitInfo_eq_dec : EqDecision LastCommitInfo.
Proof. solve_decision. Defined.

Record RepositoryEvidence := mkRepositoryEvidence {
  repository : Repository;
  checks : RepositoryChecks;
  last_commit : option LastCommitInfo;
  repo_details_not_modified : bool;
}.
#[export] Instance RepositoryEvidence_eq_dec : EqDecision RepositoryEvidence.
Proof. solve_decision. Defined.

(** [RepositoryEvidence::is_complete]. *)
Definition is_complete (e : RepositoryEvidence) : bool :=
  negb (bool_decide (SecurityPolicyResult_status (security_policy (checks e)) = SPS_Unknown))
  && negb (bool_decide (SecretScanningResult_status (secret_scanning (checks e)) = SSS_Unknown))
  && negb (bool_decide
       (dependabot_status (dependabot_security_updates (checks e)) = DS_Unknown))
  && is_observed (branch_protection (checks e))
  && negb (bool_decide (CodeownersResult_status (codeowners (checks e)) = COS_Unknown)).

(** ** Coverage of a collection run *)

(** [limit] is a [NonZeroU64]; it is positive in a value the code builds. *)
Inductive CollectionCoverage :=
| CoverageUnknown
| CoverageKnown (total limit : N).
#[export] Instance CollectionCoverage_eq_dec : EqDecision CollectionCoverage.
Proof. solve_decision. Defined.

Definition coverage_is_unknown (c : CollectionCoverage) : bool :=
  match c with CoverageUnknown => true | _ => false end.
Definition coverage_is_known (c : CollectionCoverage) : bool :=
  match c with CoverageKnown _ _ => true | _ => false end.

Definition coverage_selected (c : CollectionCoverage) : option N :=
  match c with
  | CoverageUnknown => None
  | CoverageKnown total limit => Some (N.min total (clamp usize_max limit))
  end.

Definition coverage_is_capped (c : CollectionCoverage) : bool :=
  match c with
  | CoverageUnknown => false
  | CoverageKnown total limit => clamp usize_max limit <? total
  end.

Definition coverage_total (c : CollectionCoverage) : option N :=
  match c with CoverageUnknown => None | CoverageKnown total _ => Some total end.
Definition coverage_limit (c : CollectionCoverage) : option N :=
  match c with CoverageUnknown => None | CoverageKnown _ limit => Some limit end.

(** The fields of the serialized form ([impl Serialize]). *)
Inductive RawCoverage :=
| RawUnknownCoverage
| RawKnownCoverage (total limit : N) (selected : option N) (capped : option bool).

Definition coverage_serialize (c : CollectionCoverage) : RawCoverage :=
  match c with
  | CoverageUnknown => RawUnknownCoverage
  | CoverageKnown total limit =>
    let limit_val := clamp usize_max limit in
    RawKnownCoverage total limit (Some (N.min total limit_val)) (Some (limit_val <? total))
  end.

(** [impl Deserialize], past the tag and the field types. *)
Inductive CoverageError := ContradictorySelected | ContradictoryCapped.

Definition coverage_deserialize (raw : RawCoverage) : result CoverageError CollectionCoverage :=
  match raw with
  | RawUnknownCoverage => Ok CoverageUnknown
  | RawKnownCoverage total limit selected capped =>
    let limit_val := clamp usize_max limit in
    let derived_selected := N.min total limit_val in
    let derived_capped := limit_val <? total in
    match selected with
    | Some s =>
      if negb (s =? derived_selected) then Err ContradictorySelected
      else
        match capped with
        | Some c =>
          if negb (Bool.eqb c derived_capped) then Err ContradictoryCapped
          else Ok (CoverageKnown total limit)
        | None => Ok (CoverageKnown total limit)
        end
    | None =>
      match capped with
      | Some c =>
        if negb (Bool.eqb c derived_capped) then Err ContradictoryCapped
        else Ok (CoverageKnown total limit)
      | None => Ok (CoverageKnown total limit)
      end
    end
  end.

(** ** Lemmas *)

Lemma coverage_roundtrip c : coverage_deserialize (coverage_serialize c) = Ok c.
Proof. destruct c as [|t l]; simpl; [done|]. by rewrite N.eqb_refl Bool.eqb_reflx. Qed.

(** What is read back never contradicts itself. *)
Lemma coverage_deserialize_consistent raw c :
  coverage_deserialize raw = Ok c ->
  match raw with
  | RawUnknownCoverage => c = CoverageUnknown
  | RawKnownCoverage t l s k =>
    c = CoverageKnown t l /\ (forall x, s = Some x -> coverage_selected c = Some x) /\
    (forall x, k = Some x -> coverage_is_capped c = x)
  end.
Proof.
  destruct raw as [|t l s k]; simpl; [by intros [= <-]|].
  destruct s as [s|]; [destruct (N.eqb_spec s (N.min t (clamp usize_max l)))|]; simpl; try done;
    (destruct k as [k|]; [destruct (Bool.eqb k _) eqn:E|]; simpl; try done;
      [apply Bool.eqb_prop in E|]; intros [= <-]; simpl; split_and!; naive_solver).
Qed.

Lemma coverage_capped_iff c n t :
  coverage_selected c = Some n -> coverage_total c = Some t ->
  n <= t /\ (coverage_is_capped c = true <-> n < t).
Proof.
  destruct c as [|t' l]; simpl; [done|]. intros [= <-] [= <-]. rewrite N.ltb_lt. lia.
Qed.

(** A serialized coverage whose derived fields, where present, are right. *)
Definition coverage_consistent (raw : RawCoverage) (c : CollectionCoverage) : Prop :=
  match raw with
  | RawUnknownCoverage => c = CoverageUnknown
  | RawKnownCoverage t l s k =>
    c = CoverageKnown t l /\ (forall x, s = Some x -> coverage_selected c = Some x) /\
    (forall x, k = Some x -> coverage_is_capped c = x)
  end.

(** Reading a coverage back succeeds exactly on the forms whose selected
    count and capped flag agree with their bounds, and undoes writing. *)
Lemma coverage_wire_exact raw c :
  (coverage_deserialize raw = Ok c <-> coverage_consistent raw c) /\
  coverage_deserialize (coverage_serialize c) = Ok c.
Proof.
  split; [|apply coverage_roundtrip]. split; [apply coverage_deserialize_consistent|].
  destruct raw as [|t l s k]; simpl; [by intros ->|]. intros (-> & Hs & Hk).
  destruct s as [s|]; [injection (Hs s eq_refl) as <-; rewrite N.eqb_refl|]; simpl;
    (destruct k as [k|]; [|done]); rewrite -(Hk k eq_refl) Bool.eqb_reflx; done.
Qed.

(** A complete evidence was observed, and a pending one is not complete. *)
Lemma complete_observed e :
  is_complete e = true -> read_state_from_checks (checks e) = RS_Observed.
Proof.
  unfold is_complete, read_state_from_checks. intros H.
  apply andb_prop in H as [_ H]. simpl. rewrite H !orb_true_r. done.
Qed.
