(* ===== verification/Metrics.v ===== *)
(** * Metric types ([domain/metrics.rs], [domain/status.rs])

    Rates, counts, owners and the org-level alert summary.  A rate is computed
    with IEEE 754 double precision through the Standard Library's [SpecFloat],
    rounding as [f64] does; [f64::round] is written out. *)

From S2P Require Import Prelude Str Repository Checks Evidence.
From Stdlib Require Import Floats.SpecFloat.

Open Scope N_scope.

(** ** Rates *)

Definition f64_div := SFdiv 53 1024.
Definition f64_mul := SFmul 53 1024.
(** [f64::from(n)] for a 32-bit [n], which is exact. *)
Definition f64_of_Z (z : Z) : spec_float := binary_normalize 53 1024 z 0 false.
Definition f64_of_N (n : N) : spec_float := f64_of_Z (Z.of_N n).

(** [x.round()]: to the nearest integer, halves away from zero. *)
Definition f64_round (x : spec_float) : spec_float :=
  match x with
  | S754_finite s m e =>
    if (0 <=? e)%Z then x
    else
      let unit := Z.shiftl 1 (- e) in
      let q := (Z.pos m / unit)%Z in
      let r := (Z.pos m - q * unit)%Z in
      let n := if (unit <=? 2 * r)%Z then (q + 1)%Z else q in
      if (n =? 0)%Z then S754_zero s
      else f64_of_Z (if s then - n else n)%Z
  | _ => x
  end.

Record RateMetric := mkRateMetric {
  numerator : N;
  denominator : N;
  rate : option spec_float;
  extra : gmap string N;
}.

Definition RateMetric_new (numerator denominator : N) : RateMetric :=
  let rate :=
    if 0 <? denominator then
      Some (f64_div
        (f64_round
          (f64_mul (f64_div (f64_of_N numerator) (f64_of_N denominator)) (f64_of_N 1000)))
        (f64_of_N 10))
    else None in
  mkRateMetric numerator denominator rate ∅.

(** The keys that [with_extra] refuses. *)
Definition reserved_key (key : string) : bool :=
  bool_decide (key = "numerator") || bool_decide (key = "denominator")
  || bool_decide (key = "rate").

(** [RateMetric::with_extra]; every value the service inserts is a count. *)
Definition with_extra (key : string) (value : N) (m : RateMetric) : RateMetric :=
  if reserved_key key then m
  else mkRateMetric (numerator m) (denominator m) (rate m) (<[key := value]> (extra m)).

Example rate_3_10 : rate (RateMetric_new 3 10) = Some (f64_of_N 30).
Proof. vm_compute. reflexivity. Qed.

Example rate_2_3 :
  rate (RateMetric_new 2 3) = Some (f64_div (f64_of_N 667) (f64_of_N 10)).
Proof. vm_compute. reflexivity. Qed.

(** ** Texts of rates

    [{:.n}]: the exact value rounded to [n] decimal places, halves to the even
    digit. *)

Definition round_half_even (n unit : Z) : Z :=
  let q := (n / unit)%Z in
  let r := (n - q * unit)%Z in
  if (2 * r <? unit)%Z then q
  else if (unit <? 2 * r)%Z then (q + 1)%Z
  else if Z.even q then q else (q + 1)%Z.

(** [m * 2^e * 10^digits], rounded. *)
Definition f64_scaled (digits : N) (m : positive) (e : Z) : N :=
  let n := (Z.pos m * 10 ^ Z.of_N digits)%Z in
  Z.to_N (if (0 <=? e)%Z then Z.shiftl n e else round_half_even n (Z.shiftl 1 (- e))).

Definition pad_zeros (digits : N) (s : string) : string :=
  Nat.iter (N.to_nat digits - String.length s) (String "0") s.

Definition fixed_text (digits n : N) : string :=
  pretty (n / 10 ^ digits)
  +:+ (if digits =? 0 then "" else "." +:+ pad_zeros digits (pretty (n mod 10 ^ digits))).

Definition f64_fixed (digits : N) (x : spec_float) : string :=
  let sign (s : bool) := if s then "-" else "" in
  match x with
  | S754_nan => "NaN"
  | S754_infinity s => sign s +:+ "inf"
  | S754_zero s => sign s +:+ fixed_text digits 0
  | S754_finite s m e => sign s +:+ fixed_text digits (f64_scaled digits m e)
  end.

Definition rate_text (digits : N) (m : RateMetric) : string :=
  let ratio := " (" +:+ pretty (numerator m) +:+ "/" +:+ pretty (denominator m) +:+ ")" in
  match rate m with
  | Some rate => f64_fixed digits rate +:+ "%" +:+ ratio
  | None => "N/A" +:+ ratio
  end.
(** [impl Display for RateMetric]. *)
Definition RateMetric_display : RateMetric -> string := rate_text 1.
Definition to_table_string : RateMetric -> string := rate_text 0.

Example rate_text_1 : RateMetric_display (RateMetric_new 2 3) = "66.7% (2/3)".
Proof. vm_compute. reflexivity. Qed.
Example rate_text_2 : to_table_string (RateMetric_new 13 200) = "6% (13/200)".
Proof. vm_compute. reflexivity. Qed.
Example rate_text_3 : RateMetric_display (RateMetric_new 0 0) = "N/A (0/0)".
Proof. vm_compute. reflexivity. Qed.

(** ** Count buckets *)

Record PolicyCounts := mkPolicyCounts {
  via_setting : N; via_file : N; policy_unknown : N; policy_missing : N;
}.

Record SecretScanningCounts := mkSecretScanningCounts {
  secret_enabled : N; secret_disabled : N; secret_permission_denied : N; secret_unknown : N;
}.

Record DependabotCounts := mkDependabotCounts {
  dep_enabled : N; dep_paused : N; dep_disabled : N; dep_unknown : N;
}.

Record BranchProtectionCounts := mkBranchProtectionCounts {
  branch_pass : N; branch_fail : N; branch_unknown : N;
}.

Record CodeownersCounts := mkCodeownersCounts {
  co_conforming : N; co_non_conforming : N; co_absent : N; co_unknown : N; co_truncated : N;
}.

Record SecretAlertCounts := mkSecretAlertCounts {
  repos_with_open_alerts : N; repos_without_open_alerts : N; alerts_unobservable : N;
}.

Inductive CollectionHealthCheckKind :=
| CK_BranchProtection | CK_SecretScanning | CK_Dependabot | CK_Codeowners
| CK_SecurityPolicy | CK_Inventory | CK_Rulesets.
#[export] Instance CollectionHealthCheckKind_eq_dec : EqDecision CollectionHealthCheckKind.
Proof. solve_decision. Defined.

Record CollectionHealthCount := mkCollectionHealthCount {
  chc_check_kind : CollectionHealthCheckKind;
  chc_reason : CollectionFailureReason;
  chc_count : N;
}.

Record ScoreExclusionCount := mkScoreExclusionCount {
  sec_check_kind : CollectionHealthCheckKind;
  sec_reason : ExclusionReason;
  sec_count : N;
}.

(** ** Owners and teams *)

Inductive OwnerType := Team | AmbiguousTeamShaped | User.
#[export] Instance OwnerType_eq_dec : EqDecision OwnerType.
Proof. solve_decision. Defined.

Definition OwnerType_display (t : OwnerType) : string :=
  match t with Team => "Team" | AmbiguousTeamShaped => "Ambiguous" | User => "User" end.

Inductive TeamMemberRole := Maintainer | Member | RoleUnknown.
#[export] Instance TeamMemberRole_eq_dec : EqDecision TeamMemberRole.
Proof. solve_decision. Defined.

Definition TeamMemberRole_display (r : TeamMemberRole) : string :=
  match r with Maintainer => "Maintainer" | Member => "Member" | RoleUnknown => "Unknown" end.

Record TeamMember := mkTeamMember {
  login : string; role : TeamMemberRole; member_in_org : option bool;
}.
#[export] Instance TeamMember_eq_dec : EqDecision TeamMember.
Proof. solve_decision. Defined.

Inductive TeamRosterStatus := TRS_Complete | TRS_Deleted | TRS_PermissionDenied | TRS_TransientError.
#[export] Instance TeamRosterStatus_eq_dec : EqDecision TeamRosterStatus.
Proof. solve_decision. Defined.

Record TeamRoster := mkTeamRoster {
  canonical_owner : string;
  team_slug : string;
  roster_status : TeamRosterStatus;
  members : list TeamMember;
  fetched_at : option string;
}.
#[export] Instance TeamRoster_eq_dec : EqDecision TeamRoster.
Proof. solve_decision. Defined.

(** The glob metacharacters a slug may not hold. *)
Definition glob_metacharacters : list Ascii.ascii :=
  ["*"%char; "?"%char; "["%char; "]"%char; "!"%char].

Definition team_slug_from_canonical_owner (canonical_owner : string) : option string :=
  match strip_prefix "@" canonical_owner with
  | None => None
  | Some stripped =>
    match split_once "/" stripped with
    | None => None
    | Some (_, slug) =>
      if negb (is_empty slug)
         && negb (existsb (fun c => contains_char c slug) glob_metacharacters)
      then Some slug else None
    end
  end.

Definition is_wildcard_owner (canonical_owner : string) : bool :=
  starts_with "@" canonical_owner && contains "/" canonical_owner
  && match team_slug_from_canonical_owner canonical_owner with None => true | Some _ => false end.

(** The classification in [build_owner_metrics]. *)
Definition owner_type_of (canonical : string) : OwnerType :=
  match team_slug_from_canonical_owner canonical with
  | Some _ => Team
  | None => if contains "/" canonical then AmbiguousTeamShaped else User
  end.

Record OwnerMetrics := mkOwnerMetrics {
  owner : string;
  display_name : string;
  owner_type : OwnerType;
  total_repos : N;
  per_control_coverage : gmap string RateMetric;
  owner_score_exclusion_counts : list ScoreExclusionCount;
  owner_in_org : option bool;
}.

(** ** The org-level alert summary *)

Inductive CollectionStatus :=
| CS_Success | CS_NotCollected | CS_PermissionDenied | CS_TransientError | CS_Unavailable.
#[export] Instance CollectionStatus_eq_dec : EqDecision CollectionStatus.
Proof. solve_decision. Defined.

Definition CollectionStatus_display (s : CollectionStatus) : string :=
  match s with
  | CS_Success => "success"
  | CS_NotCollected => "not_collected"
  | CS_PermissionDenied => "permission_denied"
  | CS_TransientError => "transient_error"
  | CS_Unavailable => "unavailable"
  end.

Record RepoAlertSummary := mkRepoAlertSummary {
  open_alert_count : N;
  oldest_open_alert_created_at : option string;
  newest_open_alert_created_at : option string;
}.

(** [RepoAlertSummary::default()]. *)
Definition RepoAlertSummary_default : RepoAlertSummary := mkRepoAlertSummary 0 None None.

Record OrgAlertSummary := mkOrgAlertSummary {
  collection_status : CollectionStatus;
  collection_reason : option string;
  summary_http_status : option N;
  per_repo : gmap string RepoAlertSummary;
  open_secret_alert_age_buckets : gmap string N;
  total_open_secret_alerts : N;
  oldest_open_secret_alert_created_at : option string;
  newest_open_secret_alert_created_at : option string;
}.

(** [config::SECRET_ALERT_AGE_BUCKETS] and the empty bucket map. *)
Definition SECRET_ALERT_AGE_BUCKETS : list (string * N * option N) :=
  [("0_7_days", 0, Some 7); ("8_30_days", 8, Some 30); ("31_90_days", 31, Some 90);
   ("91_plus_days", 91, None)].
Definition SECRET_ALERT_UNKNOWN_AGE_BUCKET : string := "unknown".

Definition empty_age_buckets : gmap string N :=
  <[SECRET_ALERT_UNKNOWN_AGE_BUCKET := 0]>
    (fold_left (fun m b => <[fst (fst b) := 0]> m) SECRET_ALERT_AGE_BUCKETS ∅).

(** ** Owners and their repositories *)

Definition active (repositories : list RepositoryEvidence) : list RepositoryEvidence :=
  List.filter (fun r => negb (archived (repository r))) repositories.

Definition OwnerRepoMap := gmap string (string * list RepositoryEvidence).

Section OwnerMap.
  Context (to_lowercase : string -> string).

(** [owner_repos.entry(key).or_insert_with(..).1.push(repo)]. *)
Definition push_owner (repo : RepositoryEvidence) (m : OwnerRepoMap) (owner : string)
    : OwnerRepoMap :=
  let key := to_lowercase owner in
  let '(name, repos) := default (owner, []) (m !! key) in
  <[key := (name, repos ++ [repo])]> m.

Definition push_repo (m : OwnerRepoMap) (repo : RepositoryEvidence) : OwnerRepoMap :=
  match CodeownersResult_parsed (codeowners (checks repo)) with
  | None => m
  | Some parsed => fold_left (push_owner repo) (unique_owners parsed) m
  end.

Definition build_owner_repo_map (repositories : list RepositoryEvidence) : OwnerRepoMap :=
  fold_left push_repo (active repositories) ∅.

(** [pairs.sort()]: on distinct canonical owners, by the owner. *)
Definition team_owner_slugs (repositories : list RepositoryEvidence) : list (string * string) :=
  sort_by key_le
    (omap (fun kv => option_map (pair (fst kv)) (team_slug_from_canonical_owner (fst kv)))
       (map_to_list (build_owner_repo_map repositories))).
End OwnerMap.

(** ** Lemmas *)

Lemma with_extra_numbers k v m :
  numerator (with_extra k v m) = numerator m /\
  denominator (with_extra k v m) = denominator m /\
  rate (with_extra k v m) = rate m.
Proof. unfold with_extra. by destruct (reserved_key k). Qed.

(** A slug is only extracted where there is one, and never a wildcard. *)
Lemma team_slug_spec o slug :
  team_slug_from_canonical_owner o = Some slug ->
  (exists org, o = "@" +:+ org +:+ "/" +:+ slug) /\ slug <> "" /\
  is_wildcard_owner o = false.
Proof.
  intros H. unfold is_wildcard_owner. rewrite H andb_false_r. revert H.
  unfold team_slug_from_canonical_owner.
  destruct (strip_prefix "@" o) as [s|] eqn:Es; [|done].
  apply strip_prefix_Some in Es as ->.
  destruct (split_once "/" s) as [[org sl]|] eqn:E; [|done].
  apply split_once_Some in E as ->.
  destruct sl as [|c sl]; simpl; [done|].
  case_match; [|done]. intros [= <-]. split_and!; [by exists org|done|done].
Qed.

(** The three owner types partition the canonical owners, and the wildcard
    anomaly only arises on the ambiguous ones. *)
Lemma owner_type_wildcard o :
  is_wildcard_owner o = true -> owner_type_of o = AmbiguousTeamShaped.
Proof.
  unfold is_wildcard_owner, owner_type_of.
  destruct (team_slug_from_canonical_owner o); [by rewrite andb_false_r|].
  intros [[_ ->]%andb_prop _]%andb_prop. done.
Qed.

Section OwnerMapLemmas.
  Context (lc : string -> string).

(** The owners a repository's CODEOWNERS file names. *)
Definition owners_of (r : RepositoryEvidence) : list string :=
  match CodeownersResult_parsed (codeowners (checks r)) with
  | Some p => unique_owners p
  | None => []
  end.

Definition owns (key : string) (r : RepositoryEvidence) : bool :=
  bool_decide (key ∈ map lc (owners_of r)).

(** The repositories recorded under a key. *)
Definition repos_at (m : OwnerRepoMap) (key : string) : list RepositoryEvidence :=
  match m !! key with Some (_, rs) => rs | None => [] end.

Lemma push_owner_repos r m o key :
  repos_at (push_owner lc r m o) key =
  repos_at m key ++ if bool_decide (lc o = key) then [r] else [].
Proof.
  unfold push_owner, repos_at.
  destruct (default (o, []) (m !! lc o)) as [name rs] eqn:E.
  case_bool_decide as Hk.
  - subst key. rewrite lookup_insert_eq.
    destruct (m !! lc o) as [[n' rs']|]; simpl in E; by simplify_eq.
  - rewrite lookup_insert_ne // app_nil_r. done.
Qed.

Lemma push_owners_repos r os m key :
  NoDup (map lc os) ->
  repos_at (fold_left (push_owner lc r) os m) key =
  repos_at m key ++ if bool_decide (key ∈ map lc os) then [r] else [].
Proof.
  revert m. induction os as [|o os IH]; intros m Hnd; cbn [fold_left map].
  - rewrite bool_decide_eq_false_2 ?app_nil_r //. set_solver.
  - inversion_clear Hnd as [|?? Hn Hnd']. rewrite IH // push_owner_repos -app_assoc.
    f_equal. repeat case_bool_decide; simpl; set_solver.
Qed.

Lemma push_repos_repos rs m key :
  Forall (fun r => NoDup (map lc (owners_of r))) rs ->
  repos_at (fold_left (push_repo lc) rs m) key =
  repos_at m key ++ List.filter (owns key) rs.
Proof.
  revert m. induction rs as [|r rs IH]; intros m Hall; cbn [fold_left List.filter].
  - by rewrite app_nil_r.
  - inversion_clear Hall as [|?? Hr Hrs]. rewrite IH //.
    assert (push_repo lc m r = fold_left (push_owner lc r) (owners_of r) m) as ->.
    { unfold push_repo, owners_of. by destruct (CodeownersResult_parsed _). }
    rewrite push_owners_repos // -app_assoc. f_equal. unfold owns.
    by case_bool_decide.
Qed.

(** The repositories recorded under an owner. *)
Lemma owner_map_repos repositories key :
  Forall (fun r => NoDup (map lc (owners_of r))) repositories ->
  repos_at (build_owner_repo_map lc repositories) key =
  List.filter (owns key) (active repositories).
Proof.
  intros Hall. unfold build_owner_repo_map. rewrite push_repos_repos.
  - unfold repos_at. by rewrite lookup_empty.
  - rewrite !Forall_forall in Hall *. intros r Hr. apply Hall.
    apply list_elem_of_In. apply list_elem_of_In in Hr. by apply filter_In in Hr as [? _].
Qed.

(** When every parsed file lists each owner once up to case, as the
    parser guarantees, the map records under an owner exactly the
    non-archived repositories that name it, each once and in inventory
    order. *)
Lemma owner_map_exact repositories key :
  Forall (fun r => NoDup (map lc (owners_of r))) repositories ->
  repos_at (build_owner_repo_map lc repositories) key =
  List.filter (owns key) (active repositories).
Proof. apply owner_map_repos. Qed.
End OwnerMapLemmas.

(** Two repositories that spell one owner in two ways. *)
Definition sample_owned (name owner : string) (is_archived : bool) : RepositoryEvidence :=
  mkRepositoryEvidence
    (mkRepository name None name Public None "main" is_archived name None false None None
       None false false None [] None)
    (mkRepositoryChecks (SPR_Absent "t") (SecretScanningResult_unobservable SF_Pending "t")
       (mkDependabotResult DS_Unknown None "t")
       (BPR_Unobservable "main" IR_Pending None "t")
       (COR_Conforming
          (CC_Parsed (mkParsedCodeowners [mkCodeownersEntry "*" [owner]] [owner] 0)) "t"))
    None false.

Definition sample_fleet : list RepositoryEvidence :=
  [sample_owned "a" "@Org/Team" false; sample_owned "b" "@org/team" true;
   sample_owned "c" "@org/team" false].

Lemma owner_map_exact_witness :
  repos_at (build_owner_repo_map to_ascii_lowercase sample_fleet) "@org/team" =
    List.filter (owns to_ascii_lowercase "@org/team") (active sample_fleet) /\
  map (fun r => repo_name (repository r))
    (repos_at (build_owner_repo_map to_ascii_lowercase sample_fleet) "@org/team") = ["a"; "c"].
Proof.
  split; [|vm_compute; reflexivity].
  apply (owner_map_exact to_ascii_lowercase sample_fleet "@org/team").
  repeat constructor; apply not_elem_of_nil.
Defined.
