(* ===== verification/Ghas.v ===== *)
(** * Secret scanning ([collector/ghas_scanning.rs])

    The org-level alert collection, which correlates each open alert with a
    repository of the inventory, and the evaluation of one repository from its
    metadata and an alert probe.  Parsing and formatting of timestamps
    ([jiff]) are parameters; the u64 counters are exact, since a summary
    counts the alerts of one response. *)

From S2P Require Import Prelude Str Json Request GitHub Repository Checks Time Evidence Metrics.

Open Scope N_scope.

(** [ghas_scanning::scope_key]. *)
Definition scope_key (repo : Repository) : string := repo_id repo.

Definition track_timestamp (current : option string) (candidate : string)
    (keep_oldest : bool) : option string :=
  match current with
  | None => Some candidate
  | Some existing =>
    if (keep_oldest && String.ltb candidate existing)
       || (negb keep_oldest && String.ltb existing candidate)
    then Some candidate else current
  end.

(** The loop of [age_bucket] over the configured buckets. *)
Fixpoint find_bucket (age : N) (buckets : list (string * N * option N)) : option string :=
  match buckets with
  | [] => None
  | (label, min_days, max_days) :: buckets =>
    if age <? min_days then find_bucket age buckets
    else if match max_days with None => true | Some m => age <=? m end then Some label
    else find_bucket age buckets
  end.

Inductive AlertCorrelation :=
| Matched (repo : Repository)
| OutOfScope
| Conflicting
| Unidentifiable.

Inductive RepoMetadata :=
| MetaEnabled (http_status : option N)
| MetaDisabled (http_status : option N)
| MetaUnavailable (metadata : MetadataUnavailable).

Definition Scope := gmap string Repository.

(** One turn of the loop that builds [known_scope]. *)
Definition register_repo (st : Scope * bool) (repo : Repository) : Scope * bool :=
  let '(known_scope, scope_collision) := st in
  let key := scope_key repo in
  let differs e := negb (bool_decide (repo_id e = repo_id repo)) in
  let collides k := match (known_scope : Scope) !! k with Some e => differs e | None => false end in
  let collision := scope_collision || collides key in
  let known_scope := <[key := repo]> known_scope in
  match node_id repo with
  | None => (known_scope, collision)
  | Some nid =>
    let collision :=
      collision || match known_scope !! nid with Some e => differs e | None => false end in
    (<[nid := repo]> known_scope, collision)
  end.

Definition build_scope (repositories : list Repository) : Scope * bool :=
  fold_left register_repo repositories (∅, false).

(** The empty summary [collect_org_alerts] starts from. *)
Definition initial_summary (status : CollectionStatus) (reason : option string)
    (http_status : option N) : OrgAlertSummary :=
  mkOrgAlertSummary status reason http_status ∅ empty_age_buckets 0 None None.

Definition with_status (status : CollectionStatus) (reason : string) (s : OrgAlertSummary)
    : OrgAlertSummary :=
  mkOrgAlertSummary status (Some reason) (summary_http_status s) (per_repo s)
    (open_secret_alert_age_buckets s) (total_open_secret_alerts s)
    (oldest_open_secret_alert_created_at s) (newest_open_secret_alert_created_at s).

Section Ghas.
  Context {V : Type} `{JsonValue V}.
  Context (parse_timestamp : string -> option Z) (format_timestamp : Z -> string).

(** [ts.strftime("%Y-%m-%dT%H:%M:%S%:z")] of the parsed value. *)
Definition normalize_iso8601 (value : string) : option string :=
  option_map format_timestamp (parse_iso8601 parse_timestamp value).

Definition age_bucket (created_at : string) (now : Z) : option string :=
  match parse_iso8601 parse_timestamp created_at with
  | None => None
  | Some created => find_bucket (Z.to_N (age_days now created)) SECRET_ALERT_AGE_BUCKETS
  end.

Definition build_failure_summary (result : ApiOutcome V) : OrgAlertSummary :=
  let '(collection_status, reason) :=
    match outcome_status_code result with
    | Some 401 | Some 403 => (CS_PermissionDenied, "permission_denied")
    | Some 429 => (CS_Unavailable, "rate_limited")
    | Some 404 => (CS_Unavailable, "alerts_unavailable")
    | _ =>
      if outcome_is_retryable result then (CS_TransientError, "transient_error")
      else (CS_Unavailable, "alerts_unavailable")
    end in
  initial_summary collection_status (Some reason) (outcome_status_code result).

Definition evaluate_org_alert_outcome (result_ : ApiOutcome V)
    : result OrgAlertSummary (list V) :=
  match result_ with
  | Success _ data _ false =>
    match data ≫= as_array with
    | Some items => Ok items
    | None =>
      let s := build_failure_summary result_ in
      Err (with_status (collection_status s) "malformed_response" s)
    end
  | Success _ _ _ true | Failure _ _ _ => Err (build_failure_summary result_)
  end.

Definition classified_org_outcome (run : RequestRun V) : result OrgAlertSummary (ApiOutcome V) :=
  let result_ := run_outcome run in
  match classification run with
  | RC_MalformedPayload _ _ =>
    let s := build_failure_summary result_ in
    Err (with_status (collection_status s) "malformed_response" s)
  | _ => Ok result_
  end.

(** The repository's numeric identifier as text, when usable. *)
Definition alert_num_id (repository : V) : option string :=
  match get "id" repository with
  | None => None
  | Some v =>
    match (match as_u64 v with Some n => Some (pretty n) | None => as_str v end) with
    | Some id => if is_empty id then None else Some id
    | None => None
    end
  end.

Definition alert_node_id (repository : V) : option string :=
  match get_str "node_id" repository with
  | Some nid => if is_empty nid then None else Some nid
  | None => None
  end.

Definition correlate_alert (alert : V) (known_scope : Scope) : AlertCorrelation :=
  match get "repository" alert with
  | None => Unidentifiable
  | Some repository =>
    if negb (is_object repository) then Unidentifiable
    else
      let num_id := alert_num_id repository in
      let nid := alert_node_id repository in
      let numeric_match := num_id ≫= (fun id => known_scope !! id) in
      let node_match := nid ≫= (fun n => known_scope !! n) in
      match numeric_match, node_match with
      | Some repo_num, Some repo_node =>
        if negb (bool_decide (repo_id repo_num = repo_id repo_node)) then Conflicting
        else Matched repo_num
      | Some repo, None | None, Some repo => Matched repo
      | None, None =>
        if bool_decide (num_id = None) && bool_decide (nid = None) then Unidentifiable
        else OutOfScope
      end
  end.

(** [*buckets.entry(key).or_insert(0) += 1]. *)
Definition bump (key : string) (buckets : gmap string N) : gmap string N :=
  <[key := default 0 (buckets !! key) + 1]> buckets.

(** The update of [process_alert] for a matched repository. *)
Definition count_alert (alert : V) (repo : Repository) (summary : OrgAlertSummary) (now : Z)
    : OrgAlertSummary :=
  let key := scope_key repo in
  let r := default RepoAlertSummary_default (per_repo summary !! key) in
  let count := open_alert_count r + 1 in
  let total := total_open_secret_alerts summary + 1 in
  let created_at := get_str "created_at" alert in
  let normalised := created_at ≫= normalize_iso8601 in
  let track current keep_oldest :=
    match normalised with
    | Some t => track_timestamp current t keep_oldest
    | None => current
    end in
  let bucket_key :=
    match created_at with
    | Some s => default SECRET_ALERT_UNKNOWN_AGE_BUCKET (age_bucket s now)
    | None => SECRET_ALERT_UNKNOWN_AGE_BUCKET
    end in
  mkOrgAlertSummary (collection_status summary) (collection_reason summary)
    (summary_http_status summary)
    (<[key := mkRepoAlertSummary count (track (oldest_open_alert_created_at r) true)
                (track (newest_open_alert_created_at r) false)]> (per_repo summary))
    (bump bucket_key (open_secret_alert_age_buckets summary)) total
    (track (oldest_open_secret_alert_created_at summary) true)
    (track (newest_open_secret_alert_created_at summary) false).

Definition process_alert (known_scope : Scope) (now : Z) (summary : OrgAlertSummary) (alert : V)
    : OrgAlertSummary :=
  match correlate_alert alert known_scope with
  | Matched repo => count_alert alert repo summary now
  | OutOfScope => summary
  | Conflicting => with_status CS_Unavailable "alert_coordinate_conflict" summary
  | Unidentifiable => with_status CS_Unavailable "alert_correlation_unidentifiable" summary
  end.

(** The summary of a fetched list of alerts. *)
Definition summarize_alerts (repositories : list Repository) (http_status : option N) (now : Z)
    (alert_items : list V) : OrgAlertSummary :=
  let '(known_scope, scope_collision) := build_scope repositories in
  let '(init_status, init_reason) :=
    if scope_collision then (CS_Unavailable, Some "repository_alias_collision")
    else (CS_Success, None) in
  fold_left (process_alert known_scope now) alert_items
    (initial_summary init_status init_reason http_status).

(** [collect_org_alerts]; [wall_clock] is [Timestamp::now()]. *)
Definition collect_org_alerts `{GitHubClient V} (repositories : list Repository)
    (run_timestamp : string) (wall_clock : Z) : OrgAlertSummary :=
  let now := default wall_clock (parse_iso8601 parse_timestamp run_timestamp) in
  let run :=
    request_run ("/orgs/" +:+ org_name +:+
      "/secret-scanning/alerts?state=open&per_page=100&hide_secret=true") true 1 60 in
  match classified_org_outcome run with
  | Err summary => summary
  | Ok result_ =>
    match evaluate_org_alert_outcome result_ with
    | Err summary => summary
    | Ok alert_items =>
      summarize_alerts repositories (outcome_status_code result_) now alert_items
    end
  end.

(** ** The evaluation of one repository *)

(** [ghas_scanning::failure_reason]. *)
Definition scanning_failure_reason (outcome : ApiOutcome V) : SecretScanningFailureReason :=
  match outcome_status_code outcome with
  | Some 401 | Some 403 => SF_PermissionDenied
  | Some 404 => SF_Unavailable
  | Some 429 => SF_RateLimited
  | _ => if outcome_is_retryable outcome then SF_Transient else SF_Invalid
  end.

(** The loop over [security_and_analysis], [secret_scanning], [status]. *)
Fixpoint walk_metadata (fields : list string) (http_status : option N) (node : V)
    : MetadataUnavailable + V :=
  match fields with
  | [] => inr node
  | field :: fields =>
    match get field node with
    | None => inl (MU_Missing http_status)
    | Some value =>
      if is_null value then inl (MU_Missing http_status)
      else if negb (bool_decide (field = "status")) && negb (is_object value)
      then inl (MU_Malformed http_status)
      else walk_metadata fields http_status value
    end
  end.

Definition extract_repo_metadata (outcome : ApiOutcome V) : RepoMetadata :=
  let http_status := outcome_status_code outcome in
  if negb (outcome_is_ok outcome) then
    MetaUnavailable (MU_Failure (scanning_failure_reason outcome) http_status)
  else
    match outcome_data outcome with
    | None => MetaUnavailable (MU_Malformed http_status)
    | Some node =>
      if negb (is_object node) then MetaUnavailable (MU_Malformed http_status)
      else
        match walk_metadata ["security_and_analysis"; "secret_scanning"; "status"]
                http_status node with
        | inl unavailable => MetaUnavailable unavailable
        | inr node =>
          match as_str node with
          | Some s =>
            if bool_decide (s = "enabled") then MetaEnabled http_status
            else if bool_decide (s = "disabled") then MetaDisabled http_status
            else MetaUnavailable (MU_Malformed http_status)
          | None => MetaUnavailable (MU_Malformed http_status)
          end
        end
    end.

Definition endpoint_probe (outcome : ApiOutcome V) : SecretScanningAlerts :=
  let source := PS_PerRepoEndpoint in
  let http_status := outcome_status_code outcome in
  match outcome_is_ok outcome, outcome_is_truncated outcome, outcome_data outcome ≫= as_array with
  | true, false, Some items =>
    SA_Observable source (match items with [] => false | _ => true end) http_status
  | true, _, _ => SA_Unobservable source SF_Invalid http_status
  | _, _, _ => SA_Unobservable source (scanning_failure_reason outcome) http_status
  end.

Definition org_probe (repo : Repository) (summary : OrgAlertSummary) : SecretScanningAlerts :=
  let source := PS_OrgSummary in
  let http_status := summary_http_status summary in
  let failed reason := SA_Unobservable source reason http_status in
  match collection_status summary with
  | CS_Success =>
    SA_Observable source
      match per_repo summary !! scope_key repo with
      | Some s => 0 <? open_alert_count s
      | None => false
      end http_status
  | CS_PermissionDenied => failed SF_PermissionDenied
  | CS_TransientError => failed SF_Transient
  | CS_NotCollected | CS_Unavailable =>
    match collection_reason summary with
    | Some r =>
      if bool_decide (r ∈ ["malformed_response"; "malformed_alert_item";
                           "alert_correlation_unidentifiable"])
      then failed SF_Invalid
      else if bool_decide (r ∈ ["alert_coordinate_conflict"; "repository_alias_collision"])
      then failed SF_Conflict
      else if bool_decide (r = "rate_limited") then failed SF_RateLimited
      else failed SF_Unavailable
    | None => failed SF_Unavailable
    end
  end.

Definition from_observations (metadata : RepoMetadata) (probe : SecretScanningAlerts)
    (timestamp : string) : SecretScanningResult :=
  match metadata, probe with
  | MetaEnabled http_status, alerts =>
    SSR_Enabled (EP_Metadata http_status alerts) timestamp
  | MetaDisabled metadata_http_status, probe =>
    SSR_Disabled metadata_http_status
      match probe with
      | SA_Observable source false http_status => DO_NoMismatch source http_status
      | SA_Observable source true http_status => DO_StatusMismatch source http_status
      | SA_Unobservable source reason http_status => DO_ProbeFailed source reason http_status
      end timestamp
  | MetaUnavailable metadata, SA_Observable PS_PerRepoEndpoint has_open_alerts http_status =>
    SSR_Enabled (EP_Fallback metadata has_open_alerts http_status) timestamp
  | MetaUnavailable metadata, SA_Observable PS_OrgSummary has_open_alerts http_status =>
    SSR_Unobservable metadata (UP_OrgSummaryObserved has_open_alerts http_status) timestamp
  | MetaUnavailable metadata, SA_Unobservable source reason http_status =>
    SSR_Unobservable metadata (UP_Failed source reason http_status) timestamp
  end.

Definition evaluate_fallback `{GitHubClient V} (safe_name run_timestamp : string)
    (metadata : RepoMetadata) : SecretScanningResult :=
  let alerts :=
    request_default
      (repo_path safe_name "/secret-scanning/alerts?state=open&per_page=1") in
  from_observations metadata (endpoint_probe alerts) run_timestamp.

(** [ghas_scanning::evaluate]. *)
Definition secret_scanning_evaluate `{GitHubClient V} (repo : Repository)
    (run_timestamp : string) (org_summary : option OrgAlertSummary) : SecretScanningResult :=
  match sanitize_path_segment (repo_name repo) with
  | None => SecretScanningResult_unobservable SF_Invalid run_timestamp
  | Some safe_name =>
    let metadata := extract_repo_metadata (repo_details safe_name) in
    match org_summary with
    | Some summary => from_observations metadata (org_probe repo summary) run_timestamp
    | None => evaluate_fallback safe_name run_timestamp metadata
    end
  end.

(** ** Lemmas *)

(** The repository an alert is counted for. *)
Definition counted_for (scope : Scope) (alert : V) : option Repository :=
  match correlate_alert alert scope with Matched r => Some r | _ => None end.

(** An alert that leaves the summary trustworthy. *)
Definition identified (scope : Scope) (alert : V) : bool :=
  match correlate_alert alert scope with Matched _ | OutOfScope => true | _ => false end.

Definition is_counted (scope : Scope) (alert : V) : bool :=
  match counted_for scope alert with Some _ => true | None => false end.

Definition is_counted_at (scope : Scope) (key : string) (alert : V) : bool :=
  match counted_for scope alert with
  | Some r => bool_decide (scope_key r = key)
  | None => false
  end.

Definition alerts_at (s : OrgAlertSummary) (key : string) : N :=
  match per_repo s !! key with Some r => open_alert_count r | None => 0 end.

Lemma count_alert_counts alert r s now key :
  total_open_secret_alerts (count_alert alert r s now) = total_open_secret_alerts s + 1 /\
  alerts_at (count_alert alert r s now) key =
    alerts_at s key + (if bool_decide (scope_key r = key) then 1 else 0) /\
  map_sum open_alert_count (per_repo (count_alert alert r s now)) =
    map_sum open_alert_count (per_repo s) + 1 /\
  map_sum id (open_secret_alert_age_buckets (count_alert alert r s now)) =
    map_sum id (open_secret_alert_age_buckets s) + 1.
Proof.
  unfold count_alert, alerts_at; cbn [total_open_secret_alerts per_repo
    open_secret_alert_age_buckets]. split_and!.
  - done.
  - case_bool_decide as Hk.
    + subst key. rewrite lookup_insert_eq. simpl. by destruct (per_repo s !! scope_key r).
    + rewrite lookup_insert_ne //. lia.
  - match goal with |- map_sum ?f (<[?k := ?a]> ?m) = _ =>
      pose proof (map_sum_insert f m k a) as Hs end.
    destruct (per_repo s !! scope_key r); simpl in *; lia.
  - unfold bump. match goal with |- map_sum ?f (<[?k := ?a]> ?m) = _ =>
      pose proof (map_sum_insert f m k a) as Hs; destruct (m !! k) end; simpl in *; lia.
Qed.

(** The invariant of the loop over the alerts, after the list [l]. *)
Record summary_of (scope : Scope) (init s : OrgAlertSummary) (l : list V) : Prop := {
  so_total : total_open_secret_alerts s =
    total_open_secret_alerts init + countb (is_counted scope) l;
  so_at : forall key, alerts_at s key = alerts_at init key + countb (is_counted_at scope key) l;
  so_repos : map_sum open_alert_count (per_repo s) =
    map_sum open_alert_count (per_repo init) + countb (is_counted scope) l;
  so_buckets : map_sum id (open_secret_alert_age_buckets s) =
    map_sum id (open_secret_alert_age_buckets init) + countb (is_counted scope) l;
  so_http : summary_http_status s = summary_http_status init;
  so_status : collection_status s =
    if forallb (identified scope) l then collection_status init else CS_Unavailable;
}.

Definition one (b : bool) : N := if b then 1 else 0.

Lemma process_alert_step scope now s alert :
  let s' := process_alert scope now s alert in
  total_open_secret_alerts s' = total_open_secret_alerts s + one (is_counted scope alert) /\
  (forall key, alerts_at s' key = alerts_at s key + one (is_counted_at scope key alert)) /\
  map_sum open_alert_count (per_repo s') =
    map_sum open_alert_count (per_repo s) + one (is_counted scope alert) /\
  map_sum id (open_secret_alert_age_buckets s') =
    map_sum id (open_secret_alert_age_buckets s) + one (is_counted scope alert) /\
  summary_http_status s' = summary_http_status s /\
  collection_status s' =
    if identified scope alert then collection_status s else CS_Unavailable.
Proof.
  unfold process_alert, is_counted, is_counted_at, counted_for, identified.
  destruct (correlate_alert alert scope) as [r| | |]; cbn [one].
  - pose proof (count_alert_counts alert r s now) as Hc.
    destruct (Hc "") as (H1 & _ & H3 & H4).
    split_and!; [done| |done|done|done|done].
    intros key. destruct (Hc key) as (_ & H2 & _). rewrite H2. by case_bool_decide.
  - split_and!; intros; try done; lia.
  - split_and!; intros; try done; unfold alerts_at; simpl; lia.
  - split_and!; intros; try done; unfold alerts_at; simpl; lia.
Qed.

Lemma summarize_loop scope now l init :
  summary_of scope init (fold_left (process_alert scope now) l init) l.
Proof.
  revert init. induction l as [|alert l IH]; intros init; cbn [fold_left].
  - split; intros; rewrite ?countb_nil; try done; lia.
  - destruct (process_alert_step scope now init alert) as (H1 & H2 & H3 & H4 & H5 & H6).
    destruct (IH (process_alert scope now init alert)) as [Ht Ha Hr Hb Hh Hs].
    split; try intros key; rewrite ?countb_cons; fold (one (is_counted scope alert));
      try (fold (one (is_counted_at scope key alert))).
    + lia.
    + rewrite Ha H2. lia.
    + lia.
    + lia.
    + by rewrite Hh H5.
    + rewrite Hs H6. cbn [forallb]. destruct (identified scope alert); simpl; [done|].
      by destruct (forallb _ l).
Qed.

(** The scope without a collision: each repository answers to its identifier
    and to its node identifier. *)
Definition scope_covers (scope : Scope) (r : Repository) : Prop :=
  (exists e, scope !! repo_id r = Some e /\ repo_id e = repo_id r) /\
  (forall nid, node_id r = Some nid ->
     exists e, scope !! nid = Some e /\ repo_id e = repo_id r).

Lemma insert_covers scope k (repo r : Repository) :
  scope_covers scope r ->
  (forall e, scope !! k = Some e -> repo_id e = repo_id repo) ->
  scope_covers (<[k := repo]> scope) r.
Proof.
  intros [(e & He & Hi) Hn] Hk. split.
  - destruct (decide (k = repo_id r)) as [->|Hne].
    + exists repo. rewrite lookup_insert_eq. split; [done|]. rewrite -(Hk e He). done.
    + exists e. by rewrite lookup_insert_ne.
  - intros nid Hnid. destruct (Hn nid Hnid) as (e' & He' & Hi').
    destruct (decide (k = nid)) as [->|Hne].
    + exists repo. rewrite lookup_insert_eq. split; [done|]. rewrite -(Hk e' He'). done.
    + exists e'. by rewrite lookup_insert_ne.
Qed.

Lemma register_repo_covers scope coll repo scope' :
  register_repo (scope, coll) repo = (scope', false) ->
  coll = false /\ scope_covers scope' repo /\
  forall r, scope_covers scope r -> scope_covers scope' r.
Proof.
  unfold register_repo, scope_key.
  assert (forall (m : Scope) k,
    match m !! k with Some e => negb (bool_decide (repo_id e = repo_id repo)) | None => false end
    = false -> forall e, m !! k = Some e -> repo_id e = repo_id repo) as Hd.
  { intros m k Hm e He. rewrite He in Hm. apply negb_false_iff in Hm.
    by apply bool_decide_eq_true in Hm. }
  destruct (node_id repo) as [nid|] eqn:En; intros [= <- Hc].
  - apply orb_false_elim in Hc as [[Hc Hk]%orb_false_elim Hn].
    pose proof (Hd _ _ Hk) as Hk'. pose proof (Hd _ _ Hn) as Hn'.
    split; [done|]. split; [|intros r Hr; by do 2 (apply insert_covers; [|done])].
    split.
    + destruct (decide (nid = repo_id repo)) as [->|Hne].
      * exists repo. by rewrite lookup_insert_eq.
      * exists repo. by rewrite lookup_insert_ne // lookup_insert_eq.
    + intros nid' E. rewrite En in E. injection E as <-. exists repo.
      by rewrite lookup_insert_eq.
  - apply orb_false_elim in Hc as [Hc Hk]. pose proof (Hd _ _ Hk) as Hk'.
    split; [done|]. split; [|intros r Hr; by apply insert_covers].
    split; [exists repo; by rewrite lookup_insert_eq|]. by rewrite En.
Qed.

Lemma build_scope_covers repositories scope :
  build_scope repositories = (scope, false) -> Forall (scope_covers scope) repositories.
Proof.
  unfold build_scope. revert scope.
  induction repositories as [|r rs IH] using rev_ind; intros scope; [constructor|].
  rewrite fold_left_app. simpl. destruct (fold_left _ _ _) as [scope0 coll0].
  intros Hr. apply register_repo_covers in Hr as (-> & Hcov & Hkeep).
  apply Forall_app. split; [|by apply Forall_singleton].
  eapply Forall_impl; [by apply IH|]. done.
Qed.

(** What a correlated alert was matched with. *)
Lemma identified_counted scope r alert v :
  scope_covers scope r ->
  get "repository" alert = Some v ->
  (alert_num_id v = Some (repo_id r) \/
   exists nid, node_id r = Some nid /\ alert_node_id v = Some nid) ->
  identified scope alert = true ->
  is_counted_at scope (scope_key r) alert = true.
Proof.
  intros [(e & He & Hie) Hn] Hv Hid. unfold identified, is_counted_at, counted_for, scope_key.
  unfold correlate_alert. rewrite Hv. destruct (is_object v); simpl; [|done].
  destruct Hid as [Hid|(nid & Hnid & Hid)]; rewrite Hid; simpl.
  - rewrite He. destruct (alert_node_id v ≫= _) as [e'|]; simpl.
    + case_bool_decide; simpl; [|done]. intros _. by apply bool_decide_eq_true.
    + intros _. by apply bool_decide_eq_true.
  - destruct (Hn nid Hnid) as (e' & He' & Hie'). rewrite He'.
    destruct (alert_num_id v ≫= _) as [e0|]; simpl.
    + case_bool_decide; simpl; [|done]. intros _. apply bool_decide_eq_true. congruence.
    + intros _. by apply bool_decide_eq_true.
Qed.

Lemma countb_pos {A} (p : A -> bool) l : 0 < countb p l <-> exists a, a ∈ l /\ p a = true.
Proof.
  induction l as [|a l IH].
  - rewrite countb_nil. split; [lia|set_solver].
  - rewrite countb_cons. destruct (p a) eqn:E.
    + split; [exists a; set_solver|lia].
    + rewrite N.add_0_l IH. split; intros (b & Hb & Hp); exists b.
      * split; [by right|done].
      * apply elem_of_cons in Hb as [->|Hb]; [congruence|done].
Qed.

Lemma forallb_Forall {A} (p : A -> bool) l :
  forallb p l = true <-> Forall (fun a => p a = true) l.
Proof. rewrite forallb_forall Forall_forall. by setoid_rewrite list_elem_of_In. Qed.

Lemma empty_buckets_sum : map_sum id empty_age_buckets = 0.
Proof. vm_compute. reflexivity. Qed.

Lemma summary_of_initial scope st reason http s l :
  summary_of scope (initial_summary st reason http) s l ->
  total_open_secret_alerts s = countb (is_counted scope) l /\
  (forall key, alerts_at s key = countb (is_counted_at scope key) l) /\
  map_sum open_alert_count (per_repo s) = countb (is_counted scope) l /\
  map_sum id (open_secret_alert_age_buckets s) = countb (is_counted scope) l /\
  summary_http_status s = http /\
  collection_status s = if forallb (identified scope) l then st else CS_Unavailable.
Proof.
  intros [Ht Ha Hr Hb Hh Hs]. unfold initial_summary, alerts_at in *.
  cbn [per_repo open_secret_alert_age_buckets total_open_secret_alerts summary_http_status
    collection_status] in *.
  rewrite map_sum_empty in Hr. rewrite empty_buckets_sum in Hb.
  split_and!; done.
Qed.

Lemma summarize_alerts_spec repositories http now items :
  let s := summarize_alerts repositories http now items in
  let scope := fst (build_scope repositories) in
  total_open_secret_alerts s = countb (is_counted scope) items /\
  (forall key, alerts_at s key = countb (is_counted_at scope key) items) /\
  map_sum open_alert_count (per_repo s) = countb (is_counted scope) items /\
  map_sum id (open_secret_alert_age_buckets s) = countb (is_counted scope) items /\
  summary_http_status s = http /\
  (collection_status s = CS_Success <->
     snd (build_scope repositories) = false /\ Forall (fun a => identified scope a = true) items).
Proof.
  unfold summarize_alerts. destruct (build_scope repositories) as [scope coll].
  cbn [fst snd]. rewrite -forallb_Forall.
  destruct coll; cbv beta iota zeta;
    match goal with |- context [fold_left _ items (initial_summary ?st ?rs _)] =>
      destruct (summary_of_initial scope st rs http _ items
        (summarize_loop scope now items (initial_summary st rs http)))
        as (Ht & Ha & Hr & Hb & Hh & Hs) end;
    (split; [exact Ht|]); (split; [exact Ha|]); (split; [exact Hr|]);
    (split; [exact Hb|]); (split; [exact Hh|]);
    rewrite Hs; destruct (forallb _ items); split; intros; destruct_and?; done.
Qed.

(** The summary's counts agree with each other and with the response: the
    total, the sum over repositories and the sum over age buckets are all the
    number of alerts that correlate with an inventoried repository, and a
    repository's count is the number of alerts that correlate with it.  The
    summary claims success exactly when no two repositories share an
    identifier and every alert could be identified without conflict. *)
Lemma org_summary_exact repositories http now items key :
  let s := summarize_alerts repositories http now items in
  let scope := fst (build_scope repositories) in
  total_open_secret_alerts s = countb (is_counted scope) items /\
  map_sum open_alert_count (per_repo s) = total_open_secret_alerts s /\
  map_sum id (open_secret_alert_age_buckets s) = total_open_secret_alerts s /\
  alerts_at s key = countb (is_counted_at scope key) items /\
  (collection_status s = CS_Success <->
     snd (build_scope repositories) = false /\
     Forall (fun a => identified scope a = true) items).
Proof.
  intros s scope.
  destruct (summarize_alerts_spec repositories http now items) as (Ht & Ha & Hr & Hb & _ & Hs).
  unfold s, scope. split_and!; [done|by rewrite Hr Ht|by rewrite Hb Ht|done|done].
Qed.

(** C13: no alert is lost.  When the summary claims success, an open alert that
    carries the numeric or the node identifier of an inventoried repository
    makes the evaluation of that repository observe open alerts, so a
    repository is only reported free of alerts when no alert names it. *)
Theorem no_lost_alert repositories http now items repo alert v :
  let s := summarize_alerts repositories http now items in
  collection_status s = CS_Success -> repo ∈ repositories -> alert ∈ items ->
  get "repository" alert = Some v ->
  (alert_num_id v = Some (repo_id repo) \/
   exists nid, node_id repo = Some nid /\ alert_node_id v = Some nid) ->
  org_probe repo s = SA_Observable PS_OrgSummary true http.
Proof.
  intros s Hs Hrepo Halert Hv Hid.
  destruct (summarize_alerts_spec repositories http now items)
    as (_ & Ha & _ & _ & Hh & Hiff).
  fold s in Ha, Hh, Hiff. pose proof (proj1 Hiff Hs) as [Hcoll Hall].
  destruct (build_scope repositories) as [scope coll] eqn:Eb. simpl in *. subst coll.
  apply build_scope_covers in Eb. rewrite Forall_forall in Eb.
  rewrite Forall_forall in Hall.
  pose proof (identified_counted scope repo alert v (Eb repo Hrepo) Hv Hid (Hall alert Halert))
    as Hc.
  assert (0 < alerts_at s (scope_key repo)) as Hpos.
  { rewrite Ha. apply countb_pos. by exists alert. }
  unfold org_probe. rewrite Hs Hh. unfold alerts_at in Hpos.
  destruct (per_repo s !! scope_key repo) as [r|]; [|lia].
  by apply N.ltb_lt in Hpos as ->.
Qed.

(** Metadata decides the state and the probe the alerts.  A repository is
    disabled only when its metadata says so; it is enabled when its metadata
    says so, or when the metadata is unavailable and its own alert endpoint
    answered; the org summary alone never enables it.  Open alerts are
    reported exactly when the probe observed them on an enabled repository,
    and a mismatch exactly when it observed open alerts on a disabled one. *)
Lemma from_observations_table metadata probe t :
  let r := from_observations metadata probe t in
  SecretScanningResult_timestamp r = t /\
  (SecretScanningResult_status r = SSS_Disabled <-> exists h, metadata = MetaDisabled h) /\
  (SecretScanningResult_status r = SSS_Enabled <->
     (exists h, metadata = MetaEnabled h) \/
     (exists m b h, metadata = MetaUnavailable m /\
        probe = SA_Observable PS_PerRepoEndpoint b h)) /\
  (forall b, has_open_alerts r = Some b <->
     SecretScanningResult_status r = SSS_Enabled /\ exists src h, probe = SA_Observable src b h) /\
  (status_mismatch r = true <->
     SecretScanningResult_status r = SSS_Disabled /\ exists src h, probe = SA_Observable src true h).
Proof.
  intros r. unfold r, from_observations.
  destruct metadata as [h|h|m], probe as [src b h'|src reason h'];
    [| |destruct b| |destruct src|]; simpl;
    repeat match goal with
    | |- context [match ?m with MU_Missing _ => _ | _ => _ end] => destruct m as [| |[]]
    | |- context [match ?x with SF_PermissionDenied => _ | _ => _ end] => destruct x
    end; split_and!; try (split); naive_solver.
Qed.
End Ghas.

(** ** A concrete run *)

Definition no_time (s : string) : option Z := None.
Definition no_format (z : Z) : string := "".

Definition scanned_repo (id : string) (nid : option string) : Repository :=
  mkRepository id nid "svc" Public None "main" false id None true None None None false
    false None [] None.

Definition scanned_fleet : list Repository :=
  [scanned_repo "7" (Some "N7"); scanned_repo "8" None].

Definition sample_alert (id : N) : Json :=
  JObj [("repository", JObj [("id", JNum id)]); ("created_at", JStr "2026-01-01T00:00:00Z")].

Lemma no_lost_alert_witness :
  collection_status
    (summarize_alerts no_time no_format scanned_fleet (Some 200) 0
       [sample_alert 7; sample_alert 99]) = CS_Success /\
  org_probe (scanned_repo "7" (Some "N7"))
    (summarize_alerts no_time no_format scanned_fleet (Some 200) 0
       [sample_alert 7; sample_alert 99])
    = SA_Observable PS_OrgSummary true (Some 200) /\
  org_probe (scanned_repo "8" None)
    (summarize_alerts no_time no_format scanned_fleet (Some 200) 0
       [sample_alert 7; sample_alert 99])
    = SA_Observable PS_OrgSummary false (Some 200).
Proof.
  split; [vm_compute; reflexivity|]. split; [|vm_compute; reflexivity].
  apply (no_lost_alert no_time no_format scanned_fleet (Some 200) 0
    [sample_alert 7; sample_alert 99] (scanned_repo "7" (Some "N7")) (sample_alert 7)
    (JObj [("id", JNum 7)])).
  - vm_compute; reflexivity.
  - apply list_elem_of_here.
  - apply list_elem_of_here.
  - reflexivity.
  - left. vm_compute. reflexivity.
Defined.
