(* ===== verification/Inventory.v ===== *)
(** * The repository inventory ([collector/inventory.rs], [github/dto.rs])

    The organization's repository list, normalised and sorted.  The typed
    parse of the response ([serde_json::from_value]) and the formatting of
    timestamps are parameters; [now] and [fetched] are the two readings of the
    clock. *)

From S2P Require Import Prelude Str Json Request GitHub Repository Checks.

Open Scope N_scope.

(** The fields of [GhRepository] the inventory reads. *)
Record GhRepository := mkGhRepository {
  gh_id : option N;
  gh_node_id : option string;
  gh_name : string;
  gh_visibility : option string;
  gh_private : option bool;
  gh_language : option string;
  gh_default_branch : option string;
  gh_archived : option bool;
  gh_has_issues : option bool;
  gh_updated_at : option string;
  gh_pushed_at : option string;
  gh_created_at : option string;
  gh_description : option string;
  gh_fork : option bool;
  gh_size : option N;
  gh_html_url : option string;
  gh_topics : option (list string);
  gh_license_spdx : option (option string);
}.

Record InventoryPayload := mkInventoryPayload {
  schema_version : string;
  organization : string;
  generated_at : string;
  repositories : list Repository;
  complete : bool;
  inventory_fetched_at : option string;
}.

(** [InventoryError::ApiFetchFailed]. *)
Record InventoryError := ApiFetchFailed { reason : string }.

Definition INVENTORY_SCHEMA_VERSION : string := "1.0".

Definition sanitize_default_branch (raw : string) : string :=
  let trimmed := trim raw in
  if is_empty trimmed || starts_with "refs/" trimmed then "main" else trimmed.

Definition resolve_visibility (vis : option string) (priv : option bool) : Visibility :=
  if bool_decide (vis = Some "public") then Public
  else if bool_decide (vis = Some "internal") then Internal
  else if bool_decide (vis = Some "private") then Private
  else if default false priv then Private else Public.

Definition derive_is_empty (size : option N) : bool :=
  match size with Some size => size =? 0 | None => false end.

(** The body of the loop over the raw repositories. *)
Definition normalize_repository (r : GhRepository) : Repository :=
  mkRepository
    match gh_id r with Some id => pretty id | None => "legacy:" +:+ gh_name r end
    (gh_node_id r) (gh_name r)
    (resolve_visibility (gh_visibility r) (gh_private r))
    (gh_language r)
    (sanitize_default_branch (default "main" (gh_default_branch r)))
    (default false (gh_archived r))
    match gh_id r with Some id => pretty id | None => default (gh_name r) (gh_node_id r) end
    (gh_updated_at r ≫= UpdatedAt_new)
    (default false (gh_has_issues r))
    (gh_pushed_at r) (gh_created_at r) (gh_description r)
    (default false (gh_fork r))
    (derive_is_empty (gh_size r))
    (gh_html_url r)
    (default [] (gh_topics r))
    (gh_license_spdx r ≫= id).

(** [repos.sort()], by [Ord for Repository]; the sort is stable. *)
Definition repository_le (a b : Repository) : Prop := Repository_cmp a b <> Gt.
#[export] Instance repository_le_dec : RelDecision repository_le.
Proof. intros a b. unfold repository_le. apply _. Defined.

Definition sort_repositories (repos : list Repository) : list Repository :=
  sort_by repository_le repos.

Section Inventory.
  Context {V : Type} `{GitHubClient V}.
  Context (parse_repositories : V -> result string (list GhRepository))
    (format_utc : Z -> string).

(** [build_inventory_from_api]. *)
Definition build_inventory_from_api (now fetched : Z) : result InventoryError InventoryPayload :=
  let response :=
    request ("/orgs/" +:+ org_name +:+ "/repos?type=all&per_page=100") true 1 60 in
  if negb (outcome_is_ok response) then
    Err (ApiFetchFailed
      match outcome_error_message response with
      | Some e => e
      | None =>
        match outcome_status_code response with Some c => pretty c | None => "unknown" end
      end)
  else
    let complete := negb (outcome_is_truncated response) in
    match outcome_data response with
    | None => Err (ApiFetchFailed "empty response")
    | Some data =>
      match parse_repositories data with
      | Err e => Err (ApiFetchFailed ("failed to parse repository list: " +:+ e))
      | Ok raw_repos =>
        Ok (mkInventoryPayload INVENTORY_SCHEMA_VERSION org_name (format_utc now)
              (sort_repositories (map normalize_repository raw_repos)) complete
              (Some (format_utc fetched)))
      end
    end.
End Inventory.

(** ** Lemmas *)

Lemma sanitize_default_branch_safe raw :
  sanitize_default_branch raw <> "" /\
  starts_with "refs/" (sanitize_default_branch raw) = false.
Proof.
  unfold sanitize_default_branch. destruct (is_empty _) eqn:E; simpl; [done|].
  destruct (starts_with _ _) eqn:E'; [done|]. split; [|done].
  intros Ht. by rewrite Ht in E.
Qed.

#[export] Instance repository_le_total : Total repository_le.
Proof.
  intros a b. unfold repository_le. rewrite (Repository_cmp_antisym b a).
  destruct (Repository_cmp b a); simpl; naive_solver.
Qed.

#[export] Instance repository_le_trans : Transitive repository_le.
Proof.
  intros a b c. unfold repository_le, Repository_cmp.
  pose proof (string_compare_trans (repo_id a) (repo_id b) (repo_id c)) as Hi.
  pose proof (string_compare_trans (repo_name a) (repo_name b) (repo_name c)) as Hn.
  pose proof (compare_eq (repo_id a) (repo_id b)) as Eab.
  pose proof (compare_eq (repo_id b) (repo_id c)) as Ebc.
  pose proof (compare_eq (repo_id a) (repo_id c)) as Eac.
  destruct (String.compare (repo_id a) (repo_id b)) eqn:E1,
    (String.compare (repo_id b) (repo_id c)) eqn:E2,
    (String.compare (repo_id a) (repo_id c)) eqn:E3; try done; intros;
    try (by apply Hn); try (exfalso; by apply Hi).
  all: exfalso; assert (repo_id a = repo_id c) as Hac by tauto.
  all: pose proof (String.compare_antisym (repo_id a) (repo_id b)) as Hab.
  all: rewrite E1 Hac E2 in Hab; done.
Qed.

(** An inventory is built exactly when the response succeeded with a list
    that parses.  It then holds one repository per entry of the response, in a
    sorted order that does not depend on the response's, claims to be complete
    exactly when the pages were not truncated, and every default branch is
    safe to put in a URL path: nonempty and without the [refs/] prefix. *)
Lemma inventory_spec {V} `{GitHubClient V} parse fmt now fetched :
  let response := request (V := V)
    ("/orgs/" +:+ org_name +:+ "/repos?type=all&per_page=100") true 1 60 in
  let r := build_inventory_from_api parse fmt now fetched in
  ((exists p, r = Ok p) <-> exists d raw, outcome_data response = Some d /\ parse d = Ok raw) /\
  forall p, r = Ok p ->
    (exists d raw, outcome_data response = Some d /\ parse d = Ok raw /\
       Permutation (repositories p) (map normalize_repository raw)) /\
    StronglySorted repository_le (repositories p) /\
    (complete p = true <-> outcome_is_truncated response = false) /\
    Forall (fun r => default_branch r <> "" /\ starts_with "refs/" (default_branch r) = false)
      (repositories p).
Proof.
  intros response r. unfold r, build_inventory_from_api. fold response.
  destruct response as [s d h tr|s e rt]; cbn [outcome_is_ok outcome_data negb].
  - destruct d as [d|]; [|split; [split; [by intros [p ?]|by intros (? & ? & ? & _)]|done]].
    destruct (parse d) as [raw|e] eqn:Ep; [|].
    2: { split; [split; [by intros [p ?]|]|done]. intros (d' & raw & [= <-] & E). congruence. }
    split; [split; [by eauto|by eauto]|]. intros p [= <-]. cbn [repositories complete].
    unfold sort_repositories. split_and!.
    + exists d, raw. split_and!; [done..|]. apply sort_by_Permutation.
    + apply sort_by_sorted; apply _.
    + rewrite negb_true_iff. done.
    + apply Forall_forall. intros x. rewrite sort_by_Permutation.
      intros (g & _ & <-)%elem_of_map. apply sanitize_default_branch_safe.
  - split; [split; [by intros [p ?]|by intros (? & ? & ? & _)]|done].
Qed.
