(* ===== verification/LastCommit.v ===== *)
(** * Collector: the last commit ([collector/last_commit.rs])

    The most recent commit on the default branch.  It informs and never blocks:
    whatever goes wrong leaves no information. *)

From S2P Require Import Prelude Str Json Request GitHub Repository Checks Evidence.

Open Scope N_scope.

Section LastCommit.
  Context {V : Type} `{JsonValue V} `{GitHubClient V}.

(** [first.get("commit")?.get("committer")?.get(key)?.as_str()]. *)
Definition committer_field (first : V) (key : string) : option string :=
  get "commit" first ≫= fun c => get "committer" c ≫= fun c => get_str key c.

Definition last_commit_path (safe_name encoded_branch : string) : string :=
  repo_path safe_name ("/commits?sha=" +:+ encoded_branch +:+ "&per_page=1").

Definition fetch_last_commit (repo : Repository) : option LastCommitInfo :=
  match sanitize_path_segment (repo_name repo) with
  | None => None
  | Some safe_name =>
    let result := request_default (last_commit_path safe_name (percent_encode (default_branch repo))) in
    if negb (outcome_is_ok result) then None
    else
      data ← outcome_data result;
      commits ← as_array data;
      first ← head commits;
      let committer_login := get "committer" first ≫= get_str "login" in
      Some (mkLastCommitInfo committer_login (committer_field first "name")
              (committer_field first "date"))
  end.

(** The last commit is known exactly when the one request that was made for the
    branch succeeded with a list that is not empty, and it is the list's first
    entry: each of its three fields is what that entry says. *)
Lemma last_commit_exact repo info :
  fetch_last_commit repo = Some info <->
  exists safe data first rest,
    sanitize_path_segment (repo_name repo) = Some safe /\
    outcome_data (request_default (last_commit_path safe (percent_encode (default_branch repo))))
      = Some data /\
    as_array data = Some (first :: rest) /\
    committer_login info = (get "committer" first ≫= get_str "login") /\
    committer_name info = committer_field first "name" /\
    commit_date info = committer_field first "date".
Proof.
  unfold fetch_last_commit. destruct (sanitize_path_segment (repo_name repo)) as [safe|].
  2: { split; [done|]. by intros (? & ? & ? & ? & ? & ?). }
  set (result := request_default _). destruct (outcome_is_ok result) eqn:Eok; cbn [negb].
  2: { split; [done|]. intros (sf & d & f & r & [= <-] & Hd & _). fold result in Hd.
       by destruct result. }
  destruct (outcome_data result) as [data|] eqn:Ed; cbn [mbind option_bind].
  2: { split; [done|]. intros (sf & d & f & r & [= <-] & Hd & _). fold result in Hd. congruence. }
  split.
  - destruct (as_array data) as [[|first rest]|] eqn:Ea; [done| |done]. intros [= <-].
    by exists safe, data, first, rest.
  - intros (sf & d & f & r & [= <-] & Hd & Ha & H1 & H2 & H3). fold result in Hd.
    rewrite Ed in Hd. injection Hd as <-. rewrite Ha. simpl. destruct info; simpl in *. by subst.
Qed.
End LastCommit.

(** A commit by someone whose account is gone keeps its name and date. *)
Example commit_without_account :
  let entry := JObj [("committer", JNull);
    ("commit", JObj [("committer", JObj [("name", JStr "Ada"); ("date", JStr "2026-07-01")])])] in
  fetch_last_commit (H0 := table_client "acme"
      [("/repos/acme/web/commits?sha=main&per_page=1", outcome_success (JArr [entry; JNull]))]
      (outcome_failure None "unused" false))
    (mkRepository "1" None "web" Public None "main" false "1" None false None None None false false
       None [] None)
  = Some (mkLastCommitInfo None (Some "Ada") (Some "2026-07-01")).
Proof. vm_compute. reflexivity. Qed.
