(* ===== verification/Aggregate.v ===== *)
(** * Metrics aggregation ([aggregate/metrics.rs])

    Counts, coverage rates, owner metrics and the observability summary over
    the evidence of all repositories.  Counts are 32-bit and saturate.  The
    theorems relate every count to the repositories it stands for, and the
    rates to the enumeration of their denominators. *)

From S2P Require Import Prelude Str Repository Checks Time Evidence Metrics.

Open Scope N_scope.

(** [counts.f = counts.f.saturating_add(1)]. *)
Definition inc (n : N) : N := sat_add u32_max n 1.
Arguments inc : simpl never.

(** [count_as_u32] of a [usize] count. *)
Definition count_as_u32 (n : N) : N := clamp u32_max n.

(** [iter.filter(p).count()]. *)
Definition filter_count {A} (p : A -> bool) (l : list A) : N := countb p l.

Record CollectionStatistics := mkCollectionStatistics {
  total_repos_count : N; public_repos : N; internal_repos : N; private_repos : N;
  archived_repos : N;
}.

Definition count_by_visibility (active : list RepositoryEvidence) (v : Visibility) : N :=
  count_as_u32 (filter_count (fun r => bool_decide (visibility (repository r) = v)) active).

Definition build_collection_statistics (repositories : list RepositoryEvidence)
    : CollectionStatistics :=
  let act := active repositories in
  mkCollectionStatistics (count_as_u32 (N.of_nat (length act)))
    (count_by_visibility act Public) (count_by_visibility act Internal)
    (count_by_visibility act Private)
    (count_as_u32 (filter_count (fun r => archived (repository r)) repositories)).

(** ** Exclusion tallies and coverage *)

Record ExclusionTally := mkExclusionTally {
  tally_permission_denied : N; tally_unknown : N; tally_not_applicable : N; tally_other : N;
}.

Definition ExclusionTally_default : ExclusionTally := mkExclusionTally 0 0 0 0.

Definition has_measurement_failure (t : ExclusionTally) : bool :=
  (0 <? tally_permission_denied t) || (0 <? tally_unknown t) || (0 <? tally_other t).

(** [ExclusionTally::record]. *)
Definition tally_record (t : ExclusionTally) (reason : ExclusionReason) : ExclusionTally :=
  let '(mkExclusionTally pd un na ot) := t in
  match reason with
  | ER_PermissionDenied => mkExclusionTally (inc pd) un na ot
  | ER_Unknown => mkExclusionTally pd (inc un) na ot
  | ER_NotApplicable => mkExclusionTally pd un (inc na) ot
  | ER_Other => mkExclusionTally pd un na (inc ot)
  end.

Definition push_counts (t : ExclusionTally) (check_kind : CollectionHealthCheckKind)
    (out : list ScoreExclusionCount) : list ScoreExclusionCount :=
  out ++ omap (fun rc => if 0 <? snd rc then Some (mkScoreExclusionCount check_kind (fst rc) (snd rc))
                         else None)
    [ (ER_PermissionDenied, tally_permission_denied t); (ER_Unknown, tally_unknown t);
      (ER_NotApplicable, tally_not_applicable t); (ER_Other, tally_other t) ].

Definition coverage_metric (pass fail : N) (tally : ExclusionTally) : RateMetric :=
  let denominator := sat_add u32_max pass fail in
  if (denominator =? 0) && has_measurement_failure tally then RateMetric_new 0 1
  else RateMetric_new pass denominator.

Definition exclusion_tally_from_policy (c : PolicyCounts) : ExclusionTally :=
  mkExclusionTally 0 (policy_unknown c) 0 0.
Definition exclusion_tally_from_secret_scanning (c : SecretScanningCounts) : ExclusionTally :=
  mkExclusionTally (secret_permission_denied c) (secret_unknown c) 0 0.
Definition exclusion_tally_from_dependabot (c : DependabotCounts) : ExclusionTally :=
  mkExclusionTally 0 (dep_unknown c) 0 0.
Definition exclusion_tally_from_codeowners (c : CodeownersCounts) : ExclusionTally :=
  mkExclusionTally 0 (co_unknown c) 0 0.

Definition count_branch_protection_exclusion_reasons (act : list RepositoryEvidence)
    : ExclusionTally :=
  fold_left (fun tally r =>
      match score_category (branch_protection (checks r)) with
      | SC_Excluded reason => tally_record tally reason
      | _ => tally
      end) act ExclusionTally_default.

(** ** Status counts *)

(** [count_policy_statuses], in a release build. *)
Definition count_policy (counts : PolicyCounts) (r : RepositoryEvidence) : PolicyCounts :=
  let '(mkPolicyCounts set file un miss) := counts in
  let policy := security_policy (checks r) in
  match SecurityPolicyResult_status policy with
  | SPS_Pass =>
    if bool_decide (SecurityPolicyResult_evidence policy = SPE_Setting)
    then mkPolicyCounts (inc set) file un miss
    else mkPolicyCounts set (inc file) un miss
  | SPS_Fail => mkPolicyCounts set file un (inc miss)
  | SPS_Unknown | SPS_NotApplicable => mkPolicyCounts set file (inc un) miss
  end.

Definition count_policy_statuses (public_repos : list RepositoryEvidence) : PolicyCounts :=
  fold_left count_policy public_repos (mkPolicyCounts 0 0 0 0).

(** [count_statuses]: fold a classifier over the repositories. *)
Definition count_statuses {T} (start : T) (classify : T -> RepositoryEvidence -> T)
    (repos : list RepositoryEvidence) : T :=
  fold_left classify repos start.

Definition count_secret_scanning_statuses (act : list RepositoryEvidence)
    : SecretScanningCounts :=
  count_statuses (mkSecretScanningCounts 0 0 0 0)
    (fun counts r =>
       let '(mkSecretScanningCounts en di pd un) := counts in
       match SecretScanningResult_status (secret_scanning (checks r)) with
       | SSS_Enabled => mkSecretScanningCounts (inc en) di pd un
       | SSS_Disabled => mkSecretScanningCounts en (inc di) pd un
       | SSS_PermissionDenied => mkSecretScanningCounts en di (inc pd) un
       | SSS_Unknown => mkSecretScanningCounts en di pd (inc un)
       end) act.

Definition count_dependabot_statuses (act : list RepositoryEvidence) : DependabotCounts :=
  count_statuses (mkDependabotCounts 0 0 0 0)
    (fun counts r =>
       let '(mkDependabotCounts en pa di un) := counts in
       match dependabot_status (dependabot_security_updates (checks r)) with
       | DS_Enabled => mkDependabotCounts (inc en) pa di un
       | DS_Paused => mkDependabotCounts en (inc pa) di un
       | DS_Disabled => mkDependabotCounts en pa (inc di) un
       | DS_Unknown => mkDependabotCounts en pa di (inc un)
       end) act.

Definition count_branch_protection_statuses (act : list RepositoryEvidence)
    : BranchProtectionCounts :=
  count_statuses (mkBranchProtectionCounts 0 0 0)
    (fun counts r =>
       let '(mkBranchProtectionCounts pa fa un) := counts in
       match branch_protection (checks r) with
       | BPR_Protected _ _ => mkBranchProtectionCounts (inc pa) fa un
       | BPR_Unprotected _ _ _ => mkBranchProtectionCounts pa (inc fa) un
       | BPR_Unobservable _ _ _ _ => mkBranchProtectionCounts pa fa (inc un)
       end) act.

Definition count_codeowners_statuses (act : list RepositoryEvidence) : CodeownersCounts :=
  count_statuses (mkCodeownersCounts 0 0 0 0 0)
    (fun counts r =>
       let '(mkCodeownersCounts co nc ab un tr) := counts in
       let tr :=
         match CodeownersResult_truncation (codeowners (checks r)) with
         | Some _ => inc tr
         | None => tr
         end in
       match CodeownersResult_status (codeowners (checks r)) with
       | COS_Conforming => mkCodeownersCounts (inc co) nc ab un tr
       | COS_NonConforming => mkCodeownersCounts co (inc nc) ab un tr
       | COS_Absent => mkCodeownersCounts co nc (inc ab) un tr
       | COS_Unknown => mkCodeownersCounts co nc ab (inc un) tr
       end) act.

Definition count_secret_alert_observability (act : list RepositoryEvidence)
    : SecretAlertCounts :=
  fold_left (fun counts r =>
      let '(mkSecretAlertCounts op no un) := counts in
      let ss := secret_scanning (checks r) in
      if alerts_observable ss && bool_decide (SecretScanningResult_status ss = SSS_Enabled) then
        if bool_decide (has_open_alerts ss = Some true) then mkSecretAlertCounts (inc op) no un
        else if bool_decide (has_open_alerts ss = Some false) then
          mkSecretAlertCounts op (inc no) un
        else mkSecretAlertCounts op no (inc un)
      else mkSecretAlertCounts op no (inc un))
    act (mkSecretAlertCounts 0 0 0).

(** The gate of [count_alert_observable_enabled] and of the owners' rate. *)
Definition alert_observable_enabled (r : RepositoryEvidence) : bool :=
  bool_decide (SecretScanningResult_status (secret_scanning (checks r)) = SSS_Enabled)
  && alerts_observable (secret_scanning (checks r))
  && match has_open_alerts (secret_scanning (checks r)) with Some _ => true | None => false end.

Definition count_alert_observable_enabled (act : list RepositoryEvidence) : N :=
  count_as_u32 (filter_count alert_observable_enabled act).

(** ** The collection-health taxonomy *)

Record CollectionHealthTaxonomyCounts := mkTaxonomy {
  tx_secret_scanning_permission_denied : N;
  tx_permission_suspected : N;
  tx_not_found_absent : N;
  tx_permission_denied : N;
  tx_transient : N;
  tx_rate_limited : N;
  tx_invalid : N;
}.

(** One turn of [count_collection_health_reasons]. *)
Definition count_health (c : CollectionHealthTaxonomyCounts) (r : RepositoryEvidence)
    : CollectionHealthTaxonomyCounts :=
  let '(mkTaxonomy ss su nf pd tr rl iv) := c in
  let ss :=
    if bool_decide (SecretScanningResult_status (secret_scanning (checks r))
                    = SSS_PermissionDenied) then inc ss else ss in
  match branch_protection (checks r) with
  | BPR_Unobservable _ reason _ _ =>
    match reason with
    | IR_PermissionDenied => mkTaxonomy ss su nf (inc pd) tr rl iv
    | IR_PermissionSuspected => mkTaxonomy ss (inc su) nf pd tr rl iv
    | IR_Transient => mkTaxonomy ss su nf pd (inc tr) rl iv
    | IR_RateLimited => mkTaxonomy ss su nf pd tr (inc rl) iv
    | IR_Invalid => mkTaxonomy ss su nf pd tr rl (inc iv)
    | IR_Pending => mkTaxonomy ss su nf pd tr rl iv
    end
  | BPR_Unprotected _ (HG_Absent true _) _ => mkTaxonomy ss su (inc nf) pd tr rl iv
  | BPR_Protected _ _ | BPR_Unprotected _ _ _ => mkTaxonomy ss su nf pd tr rl iv
  end.

Definition count_collection_health_reasons (act : list RepositoryEvidence)
    : CollectionHealthTaxonomyCounts :=
  fold_left count_health act (mkTaxonomy 0 0 0 0 0 0 0).

Definition push_collection_health_count (counts : list CollectionHealthCount)
    (check_kind : CollectionHealthCheckKind) (reason : CollectionFailureReason) (count : N)
    : list CollectionHealthCount :=
  if 0 <? count then counts ++ [mkCollectionHealthCount check_kind reason count] else counts.

(** The derived orders, by declaration position. *)
Definition check_kind_rank (k : CollectionHealthCheckKind) : N :=
  match k with
  | CK_BranchProtection => 0 | CK_SecretScanning => 1 | CK_Dependabot => 2
  | CK_Codeowners => 3 | CK_SecurityPolicy => 4 | CK_Inventory => 5 | CK_Rulesets => 6
  end.
Definition failure_reason_rank (r : CollectionFailureReason) : N :=
  match r with
  | CF_PermissionDenied => 0 | CF_PermissionSuspected => 1 | CF_NotFoundAbsent => 2
  | CF_Transient => 3 | CF_RateLimited => 4 | CF_Invalid => 5
  end.

(** [(entry.check_kind, entry.reason)] as one key; there are six reasons. *)
Definition health_key (c : CollectionHealthCount) : N :=
  6 * check_kind_rank (chc_check_kind c) + failure_reason_rank (chc_reason c).
Definition health_le (a b : CollectionHealthCount) : Prop := health_key a <= health_key b.
#[local] Instance health_le_dec : RelDecision health_le.
Proof. intros a b. unfold health_le. apply _. Defined.

(** [CollectionHealthTaxonomyCounts::into_counts]. *)
Definition into_counts (t : CollectionHealthTaxonomyCounts) : list CollectionHealthCount :=
  sort_by health_le
    (fold_left (fun counts e =>
         let '(kind, reason, count) := e in
         push_collection_health_count counts kind reason count)
       [ (CK_SecretScanning, CF_PermissionDenied, tx_secret_scanning_permission_denied t);
         (CK_BranchProtection, CF_PermissionSuspected, tx_permission_suspected t);
         (CK_BranchProtection, CF_NotFoundAbsent, tx_not_found_absent t);
         (CK_BranchProtection, CF_PermissionDenied, tx_permission_denied t);
         (CK_BranchProtection, CF_Transient, tx_transient t);
         (CK_BranchProtection, CF_RateLimited, tx_rate_limited t);
         (CK_BranchProtection, CF_Invalid, tx_invalid t) ] []).

(** ** Coverage metrics *)

Record CoverageInputs := mkCoverageInputs {
  in_policy : PolicyCounts;
  in_secret : SecretScanningCounts;
  in_dependabot : DependabotCounts;
  in_branch : BranchProtectionCounts;
  in_codeowners : CodeownersCounts;
  in_alerts : SecretAlertCounts;
  in_taxonomy : CollectionHealthTaxonomyCounts;
  in_alert_observable_enabled : N;
  in_policy_tally : ExclusionTally;
  in_secret_tally : ExclusionTally;
  in_dependabot_tally : ExclusionTally;
  in_branch_tally : ExclusionTally;
  in_codeowners_tally : ExclusionTally;
}.

Record CoverageMetrics := mkCoverageMetrics {
  cov_security_policy : RateMetric;
  cov_secret_scanning : RateMetric;
  cov_dependabot : RateMetric;
  cov_open_secret_alerts : RateMetric;
  cov_branch_protection : RateMetric;
  cov_codeowners : RateMetric;
}.

Definition secret_scanning_coverage (i : CoverageInputs) : RateMetric :=
  let c := in_secret i in
  let observable := sat_add u32_max (secret_enabled c) (secret_disabled c) in
  with_extra "collection_health_secret_scanning_permission_denied"
    (tx_secret_scanning_permission_denied (in_taxonomy i))
    (with_extra "observable_repositories" observable
      (with_extra "unknown" (secret_unknown c)
        (with_extra "permission_denied" (secret_permission_denied c)
          (with_extra "disabled" (secret_disabled c)
            (coverage_metric (secret_enabled c) (secret_disabled c) (in_secret_tally i)))))).

Definition dependabot_coverage (i : CoverageInputs) : RateMetric :=
  let c := in_dependabot i in
  let non_enabled := sat_add u32_max (dep_paused c) (dep_disabled c) in
  let observable := sat_add u32_max (dep_enabled c) non_enabled in
  with_extra "observable_repositories" observable
    (with_extra "unknown" (dep_unknown c)
      (with_extra "disabled" (dep_disabled c)
        (with_extra "paused" (dep_paused c)
          (coverage_metric (dep_enabled c) non_enabled (in_dependabot_tally i))))).

Definition open_secret_alert_prevalence (i : CoverageInputs) : RateMetric :=
  with_extra "unobservable" (alerts_unobservable (in_alerts i))
    (with_extra "repos_without_open_alerts" (repos_without_open_alerts (in_alerts i))
      (RateMetric_new (repos_with_open_alerts (in_alerts i)) (in_alert_observable_enabled i))).

Definition branch_protection_coverage (i : CoverageInputs) : RateMetric :=
  let non_pass := branch_fail (in_branch i) in
  let observable := sat_add u32_max (branch_pass (in_branch i)) non_pass in
  with_extra "collection_health_branch_protection_not_found_absent"
    (tx_not_found_absent (in_taxonomy i))
    (with_extra "collection_health_branch_protection_permission_suspected"
      (tx_permission_suspected (in_taxonomy i))
      (with_extra "observable_repositories" observable
        (with_extra "unknown" (branch_unknown (in_branch i))
          (with_extra "insufficient" non_pass
            (coverage_metric (branch_pass (in_branch i)) non_pass (in_branch_tally i)))))).

Definition codeowners_coverage (i : CoverageInputs) : RateMetric :=
  let c := in_codeowners i in
  let codeowners_present := sat_add u32_max (co_conforming c) (co_non_conforming c) in
  let observable := sat_add u32_max codeowners_present (co_absent c) in
  with_extra "observable_repositories" observable
    (with_extra "truncated" (co_truncated c)
      (with_extra "unknown" (co_unknown c)
        (with_extra "absent" (co_absent c)
          (with_extra "non_conforming" (co_non_conforming c)
            (coverage_metric codeowners_present (co_absent c) (in_codeowners_tally i)))))).

Definition build_coverage_metrics (i : CoverageInputs) : CoverageMetrics :=
  let c := in_policy i in
  let policy_pass := sat_add u32_max (via_setting c) (via_file c) in
  let policy_observable := sat_add u32_max policy_pass (policy_missing c) in
  mkCoverageMetrics
    (with_extra "unknown" (policy_unknown c)
      (with_extra "observable_repositories" policy_observable
        (coverage_metric policy_pass (policy_missing c) (in_policy_tally i))))
    (secret_scanning_coverage i) (dependabot_coverage i) (open_secret_alert_prevalence i)
    (branch_protection_coverage i) (codeowners_coverage i).

(** ** Owner metrics *)

Record OwnerControlCoverage := mkOwnerControlCoverage {
  occ_coverage : gmap string RateMetric;
  occ_exclusions : list ScoreExclusionCount;
}.

(** The pass, fail and exclusion counters of one control. *)
Record ControlTally := mkControlTally { ct_pass : N; ct_fail : N; ct_tally : ExclusionTally }.

Definition tally_score (t : ControlTally) (s : ScoreCategory) : ControlTally :=
  match s with
  | SC_Pass => mkControlTally (inc (ct_pass t)) (ct_fail t) (ct_tally t)
  | SC_Fail => mkControlTally (ct_pass t) (inc (ct_fail t)) (ct_tally t)
  | SC_Excluded reason => mkControlTally (ct_pass t) (ct_fail t) (tally_record (ct_tally t) reason)
  end.

(** CODEOWNERS counts a file in either kind of location as present. *)
Definition codeowners_owner_score (r : CodeownersResult) : ScoreCategory :=
  match ScoreCategory_of_codeowners r with
  | SC_Excluded reason => SC_Excluded reason
  | SC_Pass | SC_Fail =>
    if bool_decide (CodeownersResult_status r ∈ [COS_Conforming; COS_NonConforming])
    then SC_Pass else SC_Fail
  end.

(** The counters of one control after the loop over the repositories. *)
Definition control_tally (score : RepositoryChecks -> ScoreCategory)
    (repos : list RepositoryEvidence) : ControlTally :=
  fold_left (fun t r => tally_score t (score (checks r))) repos
    (mkControlTally 0 0 ExclusionTally_default).

Definition tally_coverage (t : ControlTally) : RateMetric :=
  coverage_metric (ct_pass t) (ct_fail t) (ct_tally t).

Definition build_per_control_coverage (repos : list RepositoryEvidence)
    : OwnerControlCoverage :=
  let sp := control_tally (fun c => ScoreCategory_of_policy (security_policy c)) repos in
  let secret := control_tally (fun c => ScoreCategory_of_secret (secret_scanning c)) repos in
  let db :=
    control_tally (fun c => ScoreCategory_of_dependabot
                              (dependabot_status (dependabot_security_updates c))) repos in
  let bp := control_tally (fun c => score_category (branch_protection c)) repos in
  let co := control_tally (fun c => codeowners_owner_score (codeowners c)) repos in
  mkOwnerControlCoverage
    (<["codeowners" := tally_coverage co]>
      (<["branch_protection" := tally_coverage bp]>
        (<["dependabot_security_updates" := tally_coverage db]>
          (<["secret_scanning" := tally_coverage secret]>
            (<["security_policy" := tally_coverage sp]> ∅)))))
    (push_counts (ct_tally co) CK_Codeowners
      (push_counts (ct_tally bp) CK_BranchProtection
        (push_counts (ct_tally db) CK_Dependabot
          (push_counts (ct_tally secret) CK_SecretScanning
            (push_counts (ct_tally sp) CK_SecurityPolicy []))))).

Definition type_rank (t : OwnerType) : N :=
  match t with Team => 0 | AmbiguousTeamShaped => 1 | User => 2 end.

(** The order of [result.sort_by]: by type, then by owner. *)
Definition owner_le (a b : OwnerMetrics) : Prop :=
  type_rank (owner_type a) < type_rank (owner_type b) \/
  (type_rank (owner_type a) = type_rank (owner_type b) /\ String.le (owner a) (owner b)).
#[export] Instance owner_le_dec : RelDecision owner_le.
Proof. intros a b. unfold owner_le. apply _. Defined.

Section Owners.
  Context (to_lowercase : string -> string) (parse_timestamp : string -> option Z).

Definition owner_entry (canonical display_name : string) (repos : list RepositoryEvidence)
    : OwnerMetrics :=
  let coverage := build_per_control_coverage repos in
  mkOwnerMetrics canonical display_name (owner_type_of canonical)
    (count_as_u32 (N.of_nat (length repos))) (occ_coverage coverage) (occ_exclusions coverage)
    None.

Definition build_owner_metrics (repositories : list RepositoryEvidence) : list OwnerMetrics :=
  sort_by owner_le
    (map (fun kv => owner_entry (fst kv) (fst (snd kv)) (snd (snd kv)))
       (map_to_list (build_owner_repo_map to_lowercase repositories))).

(** The two lifecycle rates of one owner's repositories. *)
Definition lifecycle_rates (repos : list RepositoryEvidence) (run_timestamp : string)
    : RateMetric * RateMetric :=
  let total := count_as_u32 (N.of_nat (length repos)) in
  let stale_count :=
    count_as_u32 (filter_count
      (fun r => is_repo_stale parse_timestamp (updated_at (repository r)) run_timestamp) repos) in
  let non_stale := RateMetric_new (sat_sub total stale_count) total in
  let observable := List.filter alert_observable_enabled repos in
  let observable_count := count_as_u32 (N.of_nat (length observable)) in
  let alert_free_count :=
    count_as_u32 (filter_count
      (fun r => bool_decide (has_open_alerts (secret_scanning (checks r)) = Some false))
      observable) in
  (non_stale,
   with_extra "unobservable" (sat_sub total observable_count)
     (RateMetric_new alert_free_count observable_count)).

Definition with_coverage (o : OwnerMetrics) (key : string) (m : RateMetric) : OwnerMetrics :=
  mkOwnerMetrics (owner o) (display_name o) (owner_type o) (total_repos o)
    (<[key := m]> (per_control_coverage o)) (owner_score_exclusion_counts o) (owner_in_org o).

Definition enrich_owner_metrics_with_lifecycle (owners : list OwnerMetrics)
    (repositories : list RepositoryEvidence) (run_timestamp : string) : list OwnerMetrics :=
  let owner_repo_map := build_owner_repo_map to_lowercase repositories in
  map (fun o =>
      match owner_repo_map !! owner o with
      | None => o
      | Some (_, repos) =>
        let '(non_stale, alert_free) := lifecycle_rates repos run_timestamp in
        with_coverage (with_coverage o "non_stale" non_stale) "alert_free" alert_free
      end) owners.

Definition enrich_owner_metrics_with_org_membership (owners : list OwnerMetrics)
    (org_members : option (gset string)) : list OwnerMetrics :=
  map (fun o =>
      if negb (bool_decide (owner_type o = User)) then o
      else
        let login := to_lowercase (default (owner o) (strip_prefix "@" (owner o))) in
        mkOwnerMetrics (owner o) (display_name o) (owner_type o) (total_repos o)
          (per_control_coverage o) (owner_score_exclusion_counts o)
          (option_map (fun set => bool_decide (login ∈ set)) org_members)) owners.

(** ** The aggregation *)

Record AggregatedMetrics := mkAggregatedMetrics {
  security_policy_coverage : RateMetric;
  policy_counts : PolicyCounts;
  agg_secret_scanning_coverage : RateMetric;
  secret_scanning_counts : SecretScanningCounts;
  dependabot_security_updates_coverage : RateMetric;
  dependabot_security_updates_counts : DependabotCounts;
  agg_open_secret_alert_prevalence : RateMetric;
  secret_alert_counts : SecretAlertCounts;
  agg_branch_protection_coverage : RateMetric;
  branch_protection_counts : BranchProtectionCounts;
  agg_codeowners_coverage : RateMetric;
  codeowners_counts : CodeownersCounts;
  owner_metrics : list OwnerMetrics;
  collection_health_counts : list CollectionHealthCount;
  score_exclusion_counts : list ScoreExclusionCount;
  team_rosters : list TeamRoster;
}.

Definition public_repositories (repositories : list RepositoryEvidence)
    : list RepositoryEvidence :=
  List.filter (fun r => bool_decide (visibility (repository r) = Public)) repositories.

Definition aggregate_metrics (repositories : list RepositoryEvidence) : AggregatedMetrics :=
  let act := active repositories in
  let policy := count_policy_statuses (public_repositories repositories) in
  let secret := count_secret_scanning_statuses act in
  let dependabot := count_dependabot_statuses act in
  let branch := count_branch_protection_statuses act in
  let codeowners := count_codeowners_statuses act in
  let alerts := count_secret_alert_observability act in
  let taxonomy := count_collection_health_reasons act in
  let policy_tally := exclusion_tally_from_policy policy in
  let secret_tally := exclusion_tally_from_secret_scanning secret in
  let dependabot_tally := exclusion_tally_from_dependabot dependabot in
  let branch_tally := count_branch_protection_exclusion_reasons act in
  let codeowners_tally := exclusion_tally_from_codeowners codeowners in
  let coverage :=
    build_coverage_metrics
      (mkCoverageInputs policy secret dependabot branch codeowners alerts taxonomy
         (count_alert_observable_enabled act) policy_tally secret_tally dependabot_tally
         branch_tally codeowners_tally) in
  let exclusions :=
    push_counts codeowners_tally CK_Codeowners
      (push_counts branch_tally CK_BranchProtection
        (push_counts dependabot_tally CK_Dependabot
          (push_counts secret_tally CK_SecretScanning
            (push_counts policy_tally CK_SecurityPolicy [])))) in
  mkAggregatedMetrics (cov_security_policy coverage) policy (cov_secret_scanning coverage) secret
    (cov_dependabot coverage) dependabot (cov_open_secret_alerts coverage) alerts
    (cov_branch_protection coverage) branch (cov_codeowners coverage) codeowners
    (build_owner_metrics repositories) (into_counts taxonomy) exclusions [].
End Owners.

(** ** The enumeration of a denominator *)

Inductive CoverageControl :=
| CtlSecurityPolicy | CtlSecretScanning | CtlDependabot | CtlCodeowners | CtlBranchProtection.
#[export] Instance CoverageControl_eq_dec : EqDecision CoverageControl.
Proof. solve_decision. Defined.

Definition CoverageControl_ALL : list CoverageControl :=
  [CtlSecurityPolicy; CtlSecretScanning; CtlDependabot; CtlCodeowners; CtlBranchProtection].

Inductive UnmeasuredReason := UR_PermissionDenied | UR_Unknown | UR_NotApplicable.
Inductive ControlOutcome := Met | Unmet.
Inductive DenominatorMembership :=
| Eligible (o : ControlOutcome)
| Excluded (r : UnmeasuredReason).

(** [CoverageControl::coverage]. *)
Definition control_coverage (c : CoverageControl) (m : AggregatedMetrics) : RateMetric :=
  match c with
  | CtlSecurityPolicy => security_policy_coverage m
  | CtlSecretScanning => agg_secret_scanning_coverage m
  | CtlDependabot => dependabot_security_updates_coverage m
  | CtlCodeowners => agg_codeowners_coverage m
  | CtlBranchProtection => agg_branch_protection_coverage m
  end.

Definition in_population (c : CoverageControl) (r : RepositoryEvidence) : bool :=
  match c with
  | CtlSecurityPolicy => bool_decide (visibility (repository r) = Public)
  | CtlSecretScanning | CtlDependabot | CtlCodeowners | CtlBranchProtection =>
    negb (archived (repository r))
  end.

Definition classify_control (c : CoverageControl) (r : RepositoryEvidence)
    : DenominatorMembership :=
  match c with
  | CtlSecurityPolicy =>
    match SecurityPolicyResult_status (security_policy (checks r)) with
    | SPS_Pass => Eligible Met
    | SPS_Fail => Eligible Unmet
    | SPS_Unknown => Excluded UR_Unknown
    | SPS_NotApplicable => Excluded UR_NotApplicable
    end
  | CtlSecretScanning =>
    match SecretScanningResult_status (secret_scanning (checks r)) with
    | SSS_Enabled => Eligible Met
    | SSS_Disabled => Eligible Unmet
    | SSS_PermissionDenied => Excluded UR_PermissionDenied
    | SSS_Unknown => Excluded UR_Unknown
    end
  | CtlDependabot =>
    match dependabot_status (dependabot_security_updates (checks r)) with
    | DS_Enabled => Eligible Met
    | DS_Paused | DS_Disabled => Eligible Unmet
    | DS_Unknown => Excluded UR_Unknown
    end
  | CtlCodeowners =>
    match CodeownersResult_status (codeowners (checks r)) with
    | COS_Conforming | COS_NonConforming => Eligible Met
    | COS_Absent => Eligible Unmet
    | COS_Unknown => Excluded UR_Unknown
    end
  | CtlBranchProtection =>
    match branch_protection (checks r) with
    | BPR_Protected _ _ => Eligible Met
    | BPR_Unprotected _ _ _ => Eligible Unmet
    | BPR_Unobservable _ reason _ _ =>
      Excluded
        match reason with
        | IR_PermissionDenied | IR_PermissionSuspected => UR_PermissionDenied
        | IR_Transient | IR_RateLimited | IR_Invalid | IR_Pending => UR_Unknown
        end
    end
  end.

Definition control_denominator_population (c : CoverageControl)
    (repositories : list RepositoryEvidence)
    : list (RepositoryEvidence * DenominatorMembership) :=
  map (fun r => (r, classify_control c r)) (List.filter (in_population c) repositories).

Definition is_eligible (m : DenominatorMembership) : bool :=
  match m with Eligible _ => true | Excluded _ => false end.
Definition is_met (m : DenominatorMembership) : bool :=
  match m with Eligible Met => true | _ => false end.

Definition denominator_repo_count
    (population : list (RepositoryEvidence * DenominatorMembership)) : N :=
  count_as_u32 (filter_count (fun rm => is_eligible (snd rm)) population).

Definition denominator_met_count
    (population : list (RepositoryEvidence * DenominatorMembership)) : N :=
  count_as_u32 (filter_count (fun rm => is_met (snd rm)) population).

(** ** The observability summary *)

Record SecretScanningObservability := mkObservability {
  obs_collection_status : CollectionStatus;
  obs_collection_reason : option string;
  obs_total_open_secret_alerts : N;
  obs_age_buckets : gmap string N;
  obs_oldest : option string;
  obs_newest : option string;
  status_mismatch_count : N;
  observable_enabled_repositories : N;
  unobservable_repositories : N;
}.

(** [merge_age_buckets], onto the empty bucket map of [empty_age_buckets_u32]. *)
Definition merge_age_buckets (source : gmap string N) : gmap string N :=
  map_fold (fun key value buckets => <[key := clamp u32_max value]> buckets)
    empty_age_buckets source.

Definition new_observability_summary : SecretScanningObservability :=
  mkObservability CS_NotCollected None 0 empty_age_buckets None None 0 0 0.

(** The three counters of the loop over the active repositories. *)
Definition observe_repo (per_repo : gmap string RepoAlertSummary) (c : N * N * N)
    (r : RepositoryEvidence) : N * N * N :=
  let '(mismatch, enabled, unobservable) := c in
  let ss := secret_scanning (checks r) in
  let open_alert_count :=
    match per_repo !! inventory_key (repository r) with
    | Some s => open_alert_count s
    | None => 0
    end in
  let status := SecretScanningResult_status ss in
  (if status_mismatch ss || (bool_decide (status = SSS_Disabled) && (0 <? open_alert_count))
   then inc mismatch else mismatch,
   if bool_decide (status = SSS_Enabled) && alerts_observable ss then inc enabled else enabled,
   if negb (alerts_observable ss) then inc unobservable else unobservable).

Definition build_secret_scanning_observability_summary
    (repositories : list RepositoryEvidence) (org_alert_summary : option OrgAlertSummary)
    : SecretScanningObservability :=
  let per_repo :=
    match org_alert_summary with Some s => per_repo s | None => ∅ end in
  let '(mismatch, enabled, unobservable) :=
    fold_left (observe_repo per_repo) (active repositories) (0, 0, 0) in
  match org_alert_summary with
  | None => mkObservability CS_NotCollected None 0 empty_age_buckets None None
              mismatch enabled unobservable
  | Some a =>
    mkObservability (collection_status a) (collection_reason a)
      (clamp u32_max (total_open_secret_alerts a))
      (merge_age_buckets (open_secret_alert_age_buckets a))
      (oldest_open_secret_alert_created_at a) (newest_open_secret_alert_created_at a)
      mismatch enabled unobservable
  end.

(** ** Lemmas *)

(** A counter that a fold increments on the elements of a class holds the
    size of the class, saturated. *)
Lemma fold_count {T A} (step : T -> A -> T) (proj : T -> N) (p : A -> bool) l t n :
  (forall t a, proj (step t a) = if p a then inc (proj t) else proj t) ->
  proj t = N.min n u32_max ->
  proj (fold_left step l t) = N.min (n + countb p l) u32_max.
Proof.
  intros Hstep. revert t n. induction l as [|a l IH]; intros t n Ht; cbn [fold_left].
  - by rewrite countb_nil N.add_0_r.
  - rewrite countb_cons. destruct (p a) eqn:E.
    + rewrite (IH _ (n + 1)); [f_equal; lia|]. rewrite Hstep E Ht. apply sat_add_clamp.
    + rewrite (IH _ n); [done|]. by rewrite Hstep E.
Qed.

(** The same from a zero counter, below the saturation bound. *)
Lemma fold_count_0 {T A} (step : T -> A -> T) (proj : T -> N) (p : A -> bool) l t :
  (forall t a, proj (step t a) = if p a then inc (proj t) else proj t) ->
  proj t = 0 -> N.of_nat (length l) <= u32_max ->
  proj (fold_left step l t) = countb p l.
Proof.
  intros Hstep Ht Hl. rewrite (fold_count step proj p l t 0 Hstep).
  - pose proof (countb_le_length p l). lia.
  - by rewrite Ht.
Qed.

Lemma count_as_u32_small n : n <= u32_max -> count_as_u32 n = n.
Proof. unfold count_as_u32. rewrite clamp_min. lia. Qed.

Lemma countb_map {A B} (f : A -> B) (p : B -> bool) l :
  countb p (map f l) = countb (fun a => p (f a)) l.
Proof. induction l as [|a l IH]; [done|]. by rewrite /= !countb_cons IH. Qed.

Lemma filter_length_le {A} (p : A -> bool) l : (length (List.filter p l) <= length l)%nat.
Proof. induction l as [|a l IH]; simpl; [lia|]. destruct (p a); simpl; lia. Qed.

(** Replace the count of a class by the field that counts it. *)
Ltac count_field step proj l z :=
  rewrite -(fold_count_0 step proj _ l z) //; [|intros [] r; unfold step; simpl; by repeat case_match].

(** Every status count is the number of repositories of that status. *)
Definition secret_status_is (s : SecretScanningStatus) (r : RepositoryEvidence) : bool :=
  match s, SecretScanningResult_status (secret_scanning (checks r)) with
  | SSS_Enabled, SSS_Enabled | SSS_Disabled, SSS_Disabled
  | SSS_PermissionDenied, SSS_PermissionDenied | SSS_Unknown, SSS_Unknown => true
  | _, _ => false
  end.

Lemma count_secret_scanning_exact l :
  N.of_nat (length l) <= u32_max ->
  count_secret_scanning_statuses l =
  mkSecretScanningCounts
    (countb (secret_status_is SSS_Enabled) l) (countb (secret_status_is SSS_Disabled) l)
    (countb (secret_status_is SSS_PermissionDenied) l) (countb (secret_status_is SSS_Unknown) l).
Proof.
  intros Hl. unfold count_secret_scanning_statuses, count_statuses.
  match goal with |- fold_left ?f _ ?z = _ => set (step := f); set (start := z) end.
  unfold secret_status_is.
  count_field step secret_enabled l start. count_field step secret_disabled l start.
  count_field step secret_permission_denied l start. count_field step secret_unknown l start.
  by destruct (fold_left step l start).
Qed.

Definition dependabot_status_is (s : DependabotStatus) (r : RepositoryEvidence) : bool :=
  match s, dependabot_status (dependabot_security_updates (checks r)) with
  | DS_Enabled, DS_Enabled | DS_Paused, DS_Paused | DS_Disabled, DS_Disabled
  | DS_Unknown, DS_Unknown => true
  | _, _ => false
  end.

Lemma count_dependabot_exact l :
  N.of_nat (length l) <= u32_max ->
  count_dependabot_statuses l =
  mkDependabotCounts
    (countb (dependabot_status_is DS_Enabled) l) (countb (dependabot_status_is DS_Paused) l)
    (countb (dependabot_status_is DS_Disabled) l) (countb (dependabot_status_is DS_Unknown) l).
Proof.
  intros Hl. unfold count_dependabot_statuses, count_statuses.
  match goal with |- fold_left ?f _ ?z = _ => set (step := f); set (start := z) end.
  unfold dependabot_status_is.
  count_field step dep_enabled l start. count_field step dep_paused l start.
  count_field step dep_disabled l start. count_field step dep_unknown l start.
  by destruct (fold_left step l start).
Qed.

Definition branch_unprotected (r : RepositoryEvidence) : bool :=
  match branch_protection (checks r) with BPR_Unprotected _ _ _ => true | _ => false end.

Lemma count_branch_exact l :
  N.of_nat (length l) <= u32_max ->
  count_branch_protection_statuses l =
  mkBranchProtectionCounts
    (countb (fun r => is_protected (branch_protection (checks r))) l)
    (countb branch_unprotected l)
    (countb (fun r => negb (is_observed (branch_protection (checks r)))) l).
Proof.
  intros Hl. unfold count_branch_protection_statuses, count_statuses.
  match goal with |- fold_left ?f _ ?z = _ => set (step := f); set (start := z) end.
  unfold branch_unprotected, is_protected, is_observed.
  count_field step branch_pass l start. count_field step branch_fail l start.
  count_field step branch_unknown l start. by destruct (fold_left step l start).
Qed.

Definition codeowners_status_is (s : CodeownersStatus) (r : RepositoryEvidence) : bool :=
  match s, CodeownersResult_status (codeowners (checks r)) with
  | COS_Conforming, COS_Conforming | COS_NonConforming, COS_NonConforming
  | COS_Absent, COS_Absent | COS_Unknown, COS_Unknown => true
  | _, _ => false
  end.

Definition codeowners_truncated (r : RepositoryEvidence) : bool :=
  match CodeownersResult_truncation (codeowners (checks r)) with Some _ => true | None => false end.

Lemma count_codeowners_exact l :
  N.of_nat (length l) <= u32_max ->
  count_codeowners_statuses l =
  mkCodeownersCounts
    (countb (codeowners_status_is COS_Conforming) l)
    (countb (codeowners_status_is COS_NonConforming) l)
    (countb (codeowners_status_is COS_Absent) l) (countb (codeowners_status_is COS_Unknown) l)
    (countb codeowners_truncated l).
Proof.
  intros Hl. unfold count_codeowners_statuses, count_statuses.
  match goal with |- fold_left ?f _ ?z = _ => set (step := f); set (start := z) end.
  unfold codeowners_status_is, codeowners_truncated.
  count_field step co_conforming l start. count_field step co_non_conforming l start.
  count_field step co_absent l start. count_field step co_unknown l start.
  count_field step co_truncated l start. by destruct (fold_left step l start).
Qed.

Definition policy_is (file : bool) (s : SecurityPolicyStatus) (r : RepositoryEvidence) : bool :=
  match s, SecurityPolicyResult_status (security_policy (checks r)) with
  | SPS_Pass, SPS_Pass =>
    Bool.eqb file
      (negb (bool_decide (SecurityPolicyResult_evidence (security_policy (checks r))
                          = SPE_Setting)))
  | SPS_Fail, SPS_Fail | SPS_Unknown, (SPS_Unknown | SPS_NotApplicable) => true
  | _, _ => false
  end.

Lemma count_policy_exact l :
  N.of_nat (length l) <= u32_max ->
  count_policy_statuses l =
  mkPolicyCounts (countb (policy_is false SPS_Pass) l) (countb (policy_is true SPS_Pass) l)
    (countb (policy_is false SPS_Unknown) l) (countb (policy_is false SPS_Fail) l).
Proof.
  intros Hl. unfold count_policy_statuses.
  match goal with |- fold_left ?f _ ?z = _ => set (step := f); set (start := z) end.
  unfold policy_is.
  count_field step via_setting l start. count_field step via_file l start.
  count_field step policy_unknown l start. count_field step policy_missing l start.
  by destruct (fold_left step l start).
Qed.

Lemma countb_split {A} (p q r : A -> bool) l :
  (forall a, r a = p a || q a) -> (forall a, p a && q a = false) ->
  countb r l = countb p l + countb q l.
Proof.
  intros Hr Hpq. rewrite (countb_ext r (fun a => p a || q a)); [|done].
  by apply countb_or.
Qed.

(** The population of a control, and its three classes. *)
Definition population (c : CoverageControl) (repositories : list RepositoryEvidence)
    : list RepositoryEvidence := List.filter (in_population c) repositories.

Definition met (c : CoverageControl) (r : RepositoryEvidence) : bool :=
  is_met (classify_control c r).
Definition unmet (c : CoverageControl) (r : RepositoryEvidence) : bool :=
  is_eligible (classify_control c r) && negb (is_met (classify_control c r)).
Definition unmeasured (c : CoverageControl) (r : RepositoryEvidence) : bool :=
  negb (is_eligible (classify_control c r)).

(** The pass, fail and tally a coverage metric is built from. *)
Definition counted_as (c : CoverageControl) (l : list RepositoryEvidence)
    (pass fail : N) (t : ExclusionTally) : Prop :=
  pass = countb (met c) l /\ fail = countb (unmet c) l /\
  has_measurement_failure t = (0 <? countb (unmeasured c) l).

Lemma classes_partition c l :
  countb (met c) l + countb (unmet c) l + countb (unmeasured c) l = N.of_nat (length l).
Proof.
  induction l as [|r l IH]; [done|]. rewrite !countb_cons. simpl.
  unfold met, unmet, unmeasured in *. destruct (classify_control c r) as [[]|]; simpl; lia.
Qed.

Lemma coverage_metric_numbers c l pass fail t :
  N.of_nat (length l) <= u32_max -> counted_as c l pass fail t ->
  numerator (coverage_metric pass fail t) = countb (met c) l /\
  denominator (coverage_metric pass fail t) =
    if countb (met c) l + countb (unmet c) l =? 0 then (if l then 0 else 1)
    else countb (met c) l + countb (unmet c) l.
Proof.
  intros Hl (-> & -> & Ht). pose proof (classes_partition c l) as Hp.
  unfold coverage_metric. rewrite Ht sat_add_small; [|lia].
  destruct (N.eqb_spec (countb (met c) l + countb (unmet c) l) 0) as [Hz|Hnz]; cbn [andb];
    [|by split].
  destruct l as [|r l]; [by split|].
  assert (0 <? countb (unmeasured c) (r :: l) = true) as ->.
  { apply N.ltb_lt. cbn [length] in Hp. lia. }
  cbn [numerator denominator RateMetric_new]. lia.
Qed.

Lemma count_alerts_exact l :
  N.of_nat (length l) <= u32_max ->
  count_secret_alert_observability l =
  mkSecretAlertCounts
    (countb (fun r => bool_decide (has_open_alerts (secret_scanning (checks r)) = Some true)) l)
    (countb (fun r => bool_decide (has_open_alerts (secret_scanning (checks r)) = Some false)) l)
    (countb (fun r => negb (alerts_observable (secret_scanning (checks r)))) l).
Proof.
  intros Hl. unfold count_secret_alert_observability.
  match goal with |- fold_left ?f _ ?z = _ => set (step := f); set (start := z) end.
  assert (forall r b, has_open_alerts (secret_scanning (checks r)) = Some b ->
    alerts_observable (secret_scanning (checks r)) = true /\
    SecretScanningResult_status (secret_scanning (checks r)) = SSS_Enabled) as Hen.
  { intros r b Hb. split; [unfold alerts_observable; by rewrite Hb|by eapply alerts_only_when_enabled]. }
  assert (forall t r, step t r =
    match has_open_alerts (secret_scanning (checks r)), t with
    | Some true, mkSecretAlertCounts op no un => mkSecretAlertCounts (inc op) no un
    | Some false, mkSecretAlertCounts op no un => mkSecretAlertCounts op (inc no) un
    | None, mkSecretAlertCounts op no un => mkSecretAlertCounts op no (inc un)
    end) as Hstep.
  { intros [op no un] r. unfold step.
    destruct (has_open_alerts (secret_scanning (checks r))) as [b|] eqn:E.
    - destruct (Hen r b E) as [-> ->]. by destruct b.
    - unfold alerts_observable. by rewrite E. }
  rewrite -(fold_count_0 step repos_with_open_alerts _ l start) //;
    [|intros [] r; rewrite Hstep; by destruct (has_open_alerts _) as [[]|]].
  rewrite -(fold_count_0 step repos_without_open_alerts _ l start) //;
    [|intros [] r; rewrite Hstep; by destruct (has_open_alerts _) as [[]|]].
  rewrite -(fold_count_0 step alerts_unobservable _ l start) //;
    [|intros [] r; rewrite Hstep; unfold alerts_observable;
      by destruct (has_open_alerts _) as [[]|]].
  by destruct (fold_left step l start).
Qed.

(** The exclusion tally of branch protection is positive exactly when some
    branch was not observed. *)
Lemma branch_tally_failure l :
  has_measurement_failure (count_branch_protection_exclusion_reasons l) =
  (0 <? countb (unmeasured CtlBranchProtection) l).
Proof.
  unfold count_branch_protection_exclusion_reasons.
  match goal with |- context [fold_left ?f _ _] => set (step := f) end.
  assert (forall t, has_measurement_failure (fold_left step l t) =
    has_measurement_failure t || (0 <? countb (unmeasured CtlBranchProtection) l)) as Hl.
  { induction l as [|r l IH]; intros t; cbn [fold_left].
    - rewrite countb_nil. by rewrite orb_false_r.
    - rewrite IH countb_cons. generalize (countb (unmeasured CtlBranchProtection) l).
      intros k. unfold step at 1, unmeasured, classify_control.
      assert (forall n, inc n <> 0) as Hinc by (intros n; unfold inc, sat_add, u32_max; lia).
      assert (forall n, 0 <? inc n = true) as Hpos by (intros n; apply N.ltb_lt; specialize (Hinc n); lia).
      assert (forall n, 0 <? 1 + n = true) as Hone by (intros n; apply N.ltb_lt; lia).
      destruct t as [pd un na ot]. simpl.
      destruct (branch_protection (checks r)) as [| |? []]; simpl;
        rewrite ?N.add_0_l ?Hone ?orb_true_r; try done;
        unfold has_measurement_failure; simpl; rewrite ?Hpos ?orb_true_r; done. }
  rewrite Hl. done.
Qed.

(** How the aggregation fills the coverage of each control.  Each class of
    the enumeration is a status class, or the sum of two. *)
Ltac same_class := apply countb_ext; intros r _;
  unfold met, unmet, unmeasured, classify_control, policy_is, secret_status_is,
    dependabot_status_is, codeowners_status_is, branch_unprotected, is_protected, is_observed;
  by repeat case_match.
Ltac two_classes := symmetry; apply countb_split; intros r;
  unfold met, unmet, unmeasured, classify_control, policy_is, secret_status_is,
    dependabot_status_is, codeowners_status_is; simpl;
  by repeat (case_match; simpl).

Lemma policy_counted l :
  N.of_nat (length l) <= u32_max ->
  let c := count_policy_statuses l in
  counted_as CtlSecurityPolicy l (sat_add u32_max (via_setting c) (via_file c))
    (policy_missing c) (exclusion_tally_from_policy c).
Proof.
  intros Hl c. unfold c. rewrite count_policy_exact //. clear c.
  pose proof (countb_le_length (met CtlSecurityPolicy) l) as Hm.
  assert (countb (policy_is false SPS_Pass) l + countb (policy_is true SPS_Pass) l =
          countb (met CtlSecurityPolicy) l) as Hsum by two_classes.
  split_and!; simpl.
  - rewrite sat_add_small; lia.
  - same_class.
  - unfold has_measurement_failure; simpl. rewrite orb_false_r. f_equal. same_class.
Qed.

Lemma secret_counted l :
  N.of_nat (length l) <= u32_max ->
  let c := count_secret_scanning_statuses l in
  counted_as CtlSecretScanning l (secret_enabled c) (secret_disabled c)
    (exclusion_tally_from_secret_scanning c).
Proof.
  intros Hl c. unfold c. rewrite count_secret_scanning_exact //. clear c.
  split_and!; simpl; [same_class|same_class|].
  assert (countb (secret_status_is SSS_PermissionDenied) l + countb (secret_status_is SSS_Unknown) l
    = countb (unmeasured CtlSecretScanning) l) as <- by two_classes.
  unfold has_measurement_failure; simpl. rewrite orb_false_r.
  generalize (countb (secret_status_is SSS_PermissionDenied) l) as a.
  generalize (countb (secret_status_is SSS_Unknown) l) as b. intros b a.
  destruct (N.ltb_spec 0 a), (N.ltb_spec 0 b), (N.ltb_spec 0 (a + b)); simpl; lia.
Qed.

Lemma dependabot_counted l :
  N.of_nat (length l) <= u32_max ->
  let c := count_dependabot_statuses l in
  counted_as CtlDependabot l (dep_enabled c) (sat_add u32_max (dep_paused c) (dep_disabled c))
    (exclusion_tally_from_dependabot c).
Proof.
  intros Hl c. unfold c. rewrite count_dependabot_exact //. clear c.
  pose proof (countb_le_length (unmet CtlDependabot) l) as Hm.
  assert (countb (dependabot_status_is DS_Paused) l + countb (dependabot_status_is DS_Disabled) l
    = countb (unmet CtlDependabot) l) as Hsum by two_classes.
  split_and!; simpl.
  - same_class.
  - rewrite sat_add_small; lia.
  - unfold has_measurement_failure; simpl. rewrite orb_false_r. f_equal. same_class.
Qed.

Lemma codeowners_counted l :
  N.of_nat (length l) <= u32_max ->
  let c := count_codeowners_statuses l in
  counted_as CtlCodeowners l (sat_add u32_max (co_conforming c) (co_non_conforming c))
    (co_absent c) (exclusion_tally_from_codeowners c).
Proof.
  intros Hl c. unfold c. rewrite count_codeowners_exact //. clear c.
  pose proof (countb_le_length (met CtlCodeowners) l) as Hm.
  assert (countb (codeowners_status_is COS_Conforming) l +
          countb (codeowners_status_is COS_NonConforming) l
    = countb (met CtlCodeowners) l) as Hsum by two_classes.
  split_and!; simpl.
  - rewrite sat_add_small; lia.
  - same_class.
  - unfold has_measurement_failure; simpl. rewrite orb_false_r. f_equal. same_class.
Qed.

Lemma branch_counted l :
  N.of_nat (length l) <= u32_max ->
  let c := count_branch_protection_statuses l in
  counted_as CtlBranchProtection l (branch_pass c) (branch_fail c)
    (count_branch_protection_exclusion_reasons l).
Proof.
  intros Hl c. unfold c. rewrite count_branch_exact //. clear c.
  split_and!; simpl; [same_class|same_class|apply branch_tally_failure].
Qed.

Lemma aggregate_coverage lc repositories c :
  N.of_nat (length repositories) <= u32_max ->
  exists pass fail t,
    counted_as c (population c repositories) pass fail t /\
    let m := control_coverage c (aggregate_metrics lc repositories) in
    numerator m = numerator (coverage_metric pass fail t) /\
    denominator m = denominator (coverage_metric pass fail t).
Proof.
  intros Hlen.
  assert (N.of_nat (length (population c repositories)) <= u32_max) as Hl.
  { pose proof (filter_length_le (in_population c) repositories). unfold population. lia. }
  destruct c; do 3 eexists;
    (split; [first [by apply policy_counted|by apply secret_counted|by apply dependabot_counted
                   |by apply codeowners_counted|by apply branch_counted]|]);
    unfold control_coverage, aggregate_metrics;
    cbn [security_policy_coverage agg_secret_scanning_coverage
      dependabot_security_updates_coverage agg_codeowners_coverage
      agg_branch_protection_coverage build_coverage_metrics cov_security_policy
      cov_secret_scanning cov_dependabot cov_codeowners cov_branch_protection];
    unfold secret_scanning_coverage, dependabot_coverage, codeowners_coverage,
      branch_protection_coverage;
    rewrite ?(proj1 (with_extra_numbers _ _ _)) ?(proj1 (proj2 (with_extra_numbers _ _ _)));
    by split.
Qed.

Lemma population_counts c repositories :
  N.of_nat (length repositories) <= u32_max ->
  let pop := control_denominator_population c repositories in
  let l := population c repositories in
  denominator_met_count pop = countb (met c) l /\
  denominator_repo_count pop = countb (met c) l + countb (unmet c) l.
Proof.
  intros Hlen pop l.
  assert (N.of_nat (length l) <= u32_max) as Hl.
  { pose proof (filter_length_le (in_population c) repositories). unfold l, population. lia. }
  pose proof (classes_partition c l) as Hp.
  unfold pop, denominator_met_count, denominator_repo_count, filter_count,
    control_denominator_population. fold (population c repositories). fold l.
  rewrite !countb_map. cbn [snd].
  assert (countb (fun r => is_eligible (classify_control c r)) l =
          countb (met c) l + countb (unmet c) l) as Hel.
  { apply countb_split; intros r; unfold met, unmet; by destruct (classify_control c r) as [[]|]. }
  rewrite Hel. split; apply count_as_u32_small; unfold met in *; lia.
Qed.

(** The drill-down agrees with the rate.  For each control the numerator
    is the number of repositories the enumeration marks as met, and the
    denominator the number it marks as eligible, except that a population in
    which nothing was measurable scores 0 out of 1 instead of 0 out of 0. *)
Lemma coverage_matches_population lc c repositories :
  N.of_nat (length repositories) <= u32_max ->
  let m := control_coverage c (aggregate_metrics lc repositories) in
  let pop := control_denominator_population c repositories in
  numerator m = denominator_met_count pop /\
  denominator m =
    if denominator_repo_count pop =? 0 then (if pop then 0 else 1)
    else denominator_repo_count pop.
Proof.
  intros Hlen m pop. unfold m, pop.
  destruct (aggregate_coverage lc repositories c Hlen) as (pass & fail & t & Hc & Hn & Hd).
  assert (N.of_nat (length (population c repositories)) <= u32_max) as Hl.
  { pose proof (filter_length_le (in_population c) repositories). unfold population. lia. }
  destruct (population_counts c repositories Hlen) as [Hm He].
  destruct (coverage_metric_numbers c _ pass fail t Hl Hc) as [Hn' Hd'].
  rewrite Hn Hn' Hm Hd Hd' He. split; [done|].
  unfold control_denominator_population. fold (population c repositories).
  by destruct (population c repositories).
Qed.

(** The numerator of a coverage rate never exceeds its denominator. *)
Lemma coverage_bounded lc c repositories :
  N.of_nat (length repositories) <= u32_max ->
  let m := control_coverage c (aggregate_metrics lc repositories) in
  numerator m <= denominator m <= N.max 1 (N.of_nat (length repositories)).
Proof.
  intros Hlen m. unfold m.
  destruct (aggregate_coverage lc repositories c Hlen) as (pass & fail & t & Hc & Hn & Hd).
  pose proof (filter_length_le (in_population c) repositories) as Hf.
  fold (population c repositories) in Hf.
  destruct (coverage_metric_numbers c (population c repositories) pass fail t ltac:(lia) Hc)
    as [Hn' Hd'].
  pose proof (classes_partition c (population c repositories)) as Hp.
  rewrite Hn Hn' Hd Hd'. case_match eqn:E; [|lia].
  apply N.eqb_eq in E. destruct (population c repositories); simpl; lia.
Qed.

(** The open-alert prevalence is a rate over the repositories whose alerts
    were observed: the repositories with and without open alerts add up to its
    denominator, and with the unobservable ones to all active repositories. *)
Lemma alert_prevalence_partition lc repositories :
  N.of_nat (length repositories) <= u32_max ->
  let m := aggregate_metrics lc repositories in
  let c := secret_alert_counts m in
  numerator (agg_open_secret_alert_prevalence m) = repos_with_open_alerts c /\
  denominator (agg_open_secret_alert_prevalence m) =
    repos_with_open_alerts c + repos_without_open_alerts c /\
  repos_with_open_alerts c + repos_without_open_alerts c + alerts_unobservable c =
    N.of_nat (length (active repositories)).
Proof.
  intros Hlen m c. unfold c, m, aggregate_metrics.
  cbn [secret_alert_counts agg_open_secret_alert_prevalence build_coverage_metrics
    cov_open_secret_alerts].
  unfold open_secret_alert_prevalence.
  rewrite !(proj1 (with_extra_numbers _ _ _)) !(proj1 (proj2 (with_extra_numbers _ _ _))).
  cbn [in_alerts in_alert_observable_enabled numerator denominator RateMetric_new].
  pose proof (filter_length_le (fun r => negb (archived (repository r))) repositories) as Hf.
  fold (active repositories) in Hf. set (l := active repositories) in *.
  rewrite count_alerts_exact; [|lia].
  cbn [repos_with_open_alerts repos_without_open_alerts alerts_unobservable].
  set (op := fun r : RepositoryEvidence => bool_decide (_ = Some true)).
  set (no := fun r : RepositoryEvidence => bool_decide (_ = Some false)).
  assert (countb (fun r => alerts_observable (secret_scanning (checks r))) l =
          countb op l + countb no l) as Hsum.
  { apply countb_split; intros r; unfold op, no, alerts_observable;
      by destruct (has_open_alerts _) as [[]|]. }
  assert (countb (fun _ => true) l =
          countb (fun r => alerts_observable (secret_scanning (checks r))) l +
          countb (fun r => negb (alerts_observable (secret_scanning (checks r)))) l) as Hall.
  { apply countb_split; intros r; by destruct (alerts_observable _). }
  assert (countb (fun _ : RepositoryEvidence => true) l = N.of_nat (length l)) as Htrue.
  { clear. induction l as [|r l IH]; [done|]. rewrite countb_cons IH. simpl. lia. }
  split; [done|]. split; [|lia].
  unfold count_alert_observable_enabled, filter_count.
  rewrite count_as_u32_small; [|pose proof (countb_le_length alert_observable_enabled l); lia].
  rewrite -Hsum. apply countb_ext. intros r _. unfold alert_observable_enabled, alerts_observable.
  destruct (has_open_alerts (secret_scanning (checks r))) as [b|] eqn:E; [|by rewrite andb_false_r].
  by rewrite (alerts_only_when_enabled _ _ E).
Qed.

(** ** Owners *)

Definition nonempty_repos (m : OwnerRepoMap) : Prop :=
  forall k name rs, m !! k = Some (name, rs) -> rs <> [].

Lemma push_owner_nonempty lc r m o : nonempty_repos m -> nonempty_repos (push_owner lc r m o).
Proof.
  intros Hm k name rs. unfold push_owner.
  destruct (default (o, []) (m !! lc o)) as [n' rs'].
  destruct (decide (lc o = k)) as [<-|Hk].
  - rewrite lookup_insert_eq. intros [= <- <-]. by destruct rs'.
  - rewrite lookup_insert_ne //. apply Hm.
Qed.

Lemma owner_map_nonempty lc repositories : nonempty_repos (build_owner_repo_map lc repositories).
Proof.
  unfold build_owner_repo_map.
  assert (forall m, nonempty_repos m ->
    nonempty_repos (fold_left (push_repo lc) (active repositories) m)) as H.
  { induction (active repositories) as [|r l IH]; intros m Hm; cbn [fold_left]; [done|].
    apply IH. unfold push_repo. destruct (CodeownersResult_parsed _) as [p|]; [|done].
    clear IH. revert m Hm. induction (unique_owners p) as [|o os IHo]; intros m Hm;
      cbn [fold_left]; [done|]. by apply IHo, push_owner_nonempty. }
  apply H. by intros k name rs; rewrite lookup_empty.
Qed.

(** The key of an entry is its owner's name in lower case. *)
Lemma owner_map_names lc repositories k name rs :
  build_owner_repo_map lc repositories !! k = Some (name, rs) -> lc name = k.
Proof.
  set (keyed := fun m : OwnerRepoMap => forall k name rs, m !! k = Some (name, rs) -> lc name = k).
  assert (forall m, keyed m -> keyed (fold_left (push_repo lc) (active repositories) m)) as H.
  { induction (active repositories) as [|r l IH]; intros m Hm; cbn [fold_left]; [done|].
    apply IH. unfold push_repo. destruct (CodeownersResult_parsed _) as [p|]; [|done].
    clear IH. revert m Hm. induction (unique_owners p) as [|o os IHo]; intros m Hm;
      cbn [fold_left]; [done|]. apply IHo. intros k' name' rs'. unfold push_owner.
    destruct (m !! lc o) as [[n' rs'']|] eqn:E; cbn [default from_option];
      (destruct (decide (lc o = k')) as [<-|Hk]; [rewrite lookup_insert_eq|rewrite lookup_insert_ne //; apply Hm]);
      intros [= <- <-]; [by eapply Hm|done]. }
  apply (H ∅). by intros k' name' rs'; rewrite lookup_empty.
Qed.

#[export] Instance owner_le_total : Total owner_le.
Proof.
  intros a b. unfold owner_le.
  destruct (N.lt_trichotomy (type_rank (owner_type a)) (type_rank (owner_type b))) as [?|[E|?]];
    [by left; left| |by right; left].
  destruct (total String.le (owner a) (owner b)); [left|right]; right; by split.
Qed.

#[export] Instance owner_le_trans : Transitive owner_le.
Proof.
  intros a b c. unfold owner_le. intros [H1|[H1 H1']] [H2|[H2 H2']]; try (left; lia).
  right. split; [lia|by etrans].
Qed.

Lemma owner_fields lc repositories o :
  o ∈ build_owner_metrics lc repositories ->
  exists name rs, build_owner_repo_map lc repositories !! owner o = Some (name, rs) /\
    o = owner_entry (owner o) name rs.
Proof.
  unfold build_owner_metrics. rewrite sort_by_Permutation.
  intros ([k [name rs]] & Hin & <-)%elem_of_map.
  apply elem_of_map_to_list in Hin. exists name, rs. by split.
Qed.

(** No two owners are shown under one name. *)
Lemma owner_names_distinct lc repositories : NoDup (map display_name (build_owner_metrics lc repositories)).
Proof.
  apply (NoDup_fmap_1 lc).
  assert (lc <$> map display_name (build_owner_metrics lc repositories) = map owner (build_owner_metrics lc repositories))
    as ->.
  { rewrite -list_fmap_compose. apply list_fmap_ext. intros i o Ho%list_elem_of_lookup_2.
    destruct (owner_fields _ _ _ Ho) as (name & rs & Hmap & ->). by apply owner_map_names in Hmap. }
  unfold build_owner_metrics. rewrite sort_by_Permutation map_map. cbn. apply NoDup_fst_map_to_list.
Qed.

(** The owner table is sorted by type and name, lists each owner once, and
    lists an owner exactly when an active repository names it; its repository
    count is the number of active repositories that do. *)
Lemma owner_metrics_exact lc repositories :
  Forall (fun r => NoDup (map lc (owners_of r))) repositories ->
  N.of_nat (length repositories) <= u32_max ->
  let os := build_owner_metrics lc repositories in
  StronglySorted owner_le os /\ NoDup (map owner os) /\
  (forall o, o ∈ os -> total_repos o = countb (owns lc (owner o)) (active repositories)) /\
  (forall k, (exists o, o ∈ os /\ owner o = k) <->
             exists r, r ∈ active repositories /\ owns lc k r = true).
Proof.
  intros Hnd Hlen os. unfold os. split_and!.
  - apply sort_by_sorted; apply _.
  - unfold build_owner_metrics.
    rewrite (Permutation_map owner (sort_by_Permutation owner_le _)).
    rewrite map_map. cbn [owner owner_entry].
    change (map (fun x => fst x) (map_to_list (build_owner_repo_map lc repositories)))
      with ((map_to_list (build_owner_repo_map lc repositories)).*1).
    apply NoDup_fst_map_to_list.
  - intros o (name & rs & Hm & ->)%owner_fields. cbn [total_repos owner_entry owner].
    pose proof (owner_map_repos lc repositories (owner o) Hnd) as Hx.
    unfold repos_at in Hx. rewrite Hm in Hx. rewrite Hx. unfold countb.
    pose proof (filter_length_le (owns lc (owner o)) (active repositories)).
    pose proof (filter_length_le (fun r => negb (archived (repository r))) repositories).
    unfold active in *. apply count_as_u32_small. lia.
  - intros k. pose proof (owner_map_repos lc repositories k Hnd) as Hx. unfold repos_at in Hx.
    split.
    + intros (o & (name & rs & Hm & _)%owner_fields & <-). rewrite Hm in Hx.
      destruct rs as [|r rs]; [by apply owner_map_nonempty in Hm|].
      assert (In r (List.filter (owns lc (owner o)) (active repositories))) as Hr.
      { rewrite -Hx. by left. }
      apply filter_In in Hr as [Hr Ho]. exists r. by rewrite list_elem_of_In.
    + intros (r & Hr & Ho).
      assert (In r (List.filter (owns lc k) (active repositories))) as Hin.
      { apply filter_In. by rewrite -list_elem_of_In. }
      rewrite -Hx in Hin.
      destruct (build_owner_repo_map lc repositories !! k) as [[name rs]|] eqn:Hm; [|done].
      exists (owner_entry k name rs). split; [|done].
      unfold build_owner_metrics. rewrite sort_by_Permutation. apply elem_of_map.
      exists (k, (name, rs)). split; [by apply elem_of_map_to_list|done].
Qed.

(** ** Concrete inputs *)

Lemma sample_fleet_small : N.of_nat (length sample_fleet) <= u32_max.
Proof. vm_compute. discriminate. Qed.

Lemma coverage_matches_population_witness :
  N.of_nat (length sample_fleet) <= u32_max /\
  denominator (control_coverage CtlDependabot (aggregate_metrics to_ascii_lowercase sample_fleet))
    = 1 /\
  denominator_repo_count (control_denominator_population CtlDependabot sample_fleet) = 0.
Proof.
  split; [exact sample_fleet_small|]. split; [|vm_compute; reflexivity].
  rewrite (proj2 (coverage_matches_population to_ascii_lowercase CtlDependabot sample_fleet
    sample_fleet_small)).
  vm_compute. reflexivity.
Defined.

Lemma coverage_bounded_witness :
  N.of_nat (length sample_fleet) <= u32_max /\
  numerator (control_coverage CtlCodeowners (aggregate_metrics to_ascii_lowercase sample_fleet))
    <= denominator (control_coverage CtlCodeowners
         (aggregate_metrics to_ascii_lowercase sample_fleet)).
Proof.
  split; [exact sample_fleet_small|].
  exact (proj1 (coverage_bounded to_ascii_lowercase CtlCodeowners sample_fleet
    sample_fleet_small)).
Defined.

Lemma alert_prevalence_partition_witness :
  N.of_nat (length sample_fleet) <= u32_max /\
  numerator (agg_open_secret_alert_prevalence
    (aggregate_metrics to_ascii_lowercase sample_fleet)) = 0.
Proof.
  split; [exact sample_fleet_small|].
  rewrite (proj1 (alert_prevalence_partition to_ascii_lowercase sample_fleet
    sample_fleet_small)).
  vm_compute. reflexivity.
Defined.

Lemma owner_metrics_exact_witness :
  NoDup (map owner (build_owner_metrics to_ascii_lowercase sample_fleet)) /\
  map owner (build_owner_metrics to_ascii_lowercase sample_fleet) = ["@org/team"].
Proof.
  split; [|vm_compute; reflexivity].
  refine (proj1 (proj2 (owner_metrics_exact to_ascii_lowercase sample_fleet _
    sample_fleet_small))).
  repeat constructor; apply not_elem_of_nil.
Defined.
