(* ===== verification/Run.v ===== *)
(** * Collection runs ([domain/run.rs], [domain/auth.rs], org snapshots)

    Authentication enums, run metadata with its hexadecimal identifier, and
    the organization snapshot a run stores.  A panic is [None]; the random
    bytes of an identifier and the clock are arguments. *)

From S2P Require Import Prelude Str Evidence Metrics.

Open Scope N_scope.

(** ** Authentication *)

Inductive AuthMode := AM_Pat | AM_GitHubApp | AM_GhCliFallback | AM_Unknown.
#[export] Instance AuthMode_eq_dec : EqDecision AuthMode.
Proof. solve_decision. Defined.

Definition AuthMode_display (m : AuthMode) : string :=
  match m with
  | AM_Pat => "pat"
  | AM_GitHubApp => "github_app"
  | AM_GhCliFallback => "gh_cli_fallback"
  | AM_Unknown => "unknown"
  end.

Inductive TokenTier := TT_Full | TT_Limited | TT_Unknown.
#[export] Instance TokenTier_eq_dec : EqDecision TokenTier.
Proof. solve_decision. Defined.

Definition TokenTier_display (t : TokenTier) : string :=
  match t with TT_Full => "Full" | TT_Limited => "Limited" | TT_Unknown => "Unknown" end.

Inductive Capability := Cap_OrgSecretScanningAlerts | Cap_PrivateBranchProtectionRead.
#[export] Instance Capability_eq_dec : EqDecision Capability.
Proof. solve_decision. Defined.

Definition Capability_ALL : list Capability :=
  [Cap_OrgSecretScanningAlerts; Cap_PrivateBranchProtectionRead].

Definition Capability_display (c : Capability) : string :=
  match c with
  | Cap_OrgSecretScanningAlerts => "org_secret_scanning_alerts"
  | Cap_PrivateBranchProtectionRead => "private_branch_protection_read"
  end.

(** ** Metadata of a run *)

Record AssessmentMetadata := mkAssessmentMetadata {
  am_date : string;
  am_organization : string;
  am_schema_version : string;
  am_run_timestamp : string;
  am_run_id : string;
  am_token_tier : TokenTier;
  am_token_scopes : string;
  am_auth_mode : AuthMode;
  am_rate_limit_warnings : N;
  am_unavailable_capabilities : list Capability;
  am_inventory_fetched_at : option string;
  am_warm_start : bool;
  am_coverage : CollectionCoverage;
}.
#[export] Instance AssessmentMetadata_eq_dec : EqDecision AssessmentMetadata.
Proof. solve_decision. Defined.

Record OrgStateSnapshot := mkOrgStateSnapshot {
  os_archived_repos : N;
  os_assessment_metadata : AssessmentMetadata;
  os_alert_summary : OrgAlertSummary;
}.

Inductive RunStatus := Run_InProgress | Run_Completed.
#[export] Instance RunStatus_eq_dec : EqDecision RunStatus.
Proof. solve_decision. Defined.

Record RunMetadata := mkRunMetadata {
  run_id : string;
  started_at : Z;
  completed_at : option Z;
  run_organization : string;
  run_schema_version : string;
  run_status : RunStatus;
  run_coverage : CollectionCoverage;
}.

(** [format!("{b:02x}")]. *)
Definition hex_nibble (n : N) : Ascii.ascii :=
  byte (if n <? 10 then 48 + n else 87 + n).

Fixpoint hex_encode (bytes : list N) : string :=
  match bytes with
  | [] => ""
  | b :: bytes => String (hex_nibble (b / 16)) (String (hex_nibble (b mod 16)) (hex_encode bytes))
  end.

(** [generate_run_id], from the sixteen random bytes. *)
Definition generate_run_id (random : list N) : string := hex_encode random.

(** [RunMetadata::new]. *)
Definition RunMetadata_new (random : list N) (now : Z) (organization schema_version : string)
    : RunMetadata :=
  mkRunMetadata (generate_run_id random) now None organization schema_version Run_InProgress
    CoverageUnknown.

(** [RunMetadata::complete]. *)
Definition run_complete (now : Z) (r : RunMetadata) : RunMetadata :=
  mkRunMetadata (run_id r) (started_at r) (Some now) (run_organization r)
    (run_schema_version r) Run_Completed (run_coverage r).

Definition decode_hex_nibble (c : N) : option N :=
  if (48 <=? c) && (c <=? 57) then Some (c - 48)
  else if (97 <=? c) && (c <=? 102) then Some (c - 97 + 10)
  else None.

(** The loop of [correlation_context] over the pairs of digits. *)
Fixpoint decode_pairs (hex : list N) : option (list N) :=
  match hex with
  | [] => Some []
  | [_] => None
  | h :: l :: hex =>
    match decode_hex_nibble h, decode_hex_nibble l, decode_pairs hex with
    | Some hi, Some lo, Some bytes => Some (N.lor (N.shiftl hi 4) lo :: bytes)
    | _, _, _ => None
    end
  end.

(** [RunMetadata::correlation_context]: the bytes of the UUID, or a panic. *)
Definition correlation_context (r : RunMetadata) : option (list N) :=
  let hex := to_bytes (run_id r) in
  if negb (N.of_nat (length hex) =? 32) then None else decode_pairs hex.

(** ** Lemmas *)

Lemma hex_nibble_roundtrip n :
  n < 16 -> decode_hex_nibble (Ascii.N_of_ascii (hex_nibble n)) = Some n.
Proof.
  intros Hn. unfold hex_nibble, byte. rewrite Ascii.N_ascii_embedding.
  - unfold decode_hex_nibble. destruct (N.ltb_spec n 10).
    + rewrite (proj2 (N.leb_le 48 (48 + n))); [|lia].
      rewrite (proj2 (N.leb_le (48 + n) 57)); [|lia]. cbn [andb]. f_equal. lia.
    + rewrite (proj2 (N.leb_gt (87 + n) 57)); [|lia]. rewrite andb_false_r.
      rewrite (proj2 (N.leb_le 97 (87 + n))); [|lia].
      rewrite (proj2 (N.leb_le (87 + n) 102)); [|lia]. cbn [andb]. f_equal. lia.
  - destruct (n <? 10); lia.
Qed.

Lemma nibbles_lor b : b < 256 -> N.lor (N.shiftl (b / 16) 4) (b mod 16) = b.
Proof.
  intros Hb.
  assert (forallb (fun k => let b := N.of_nat k in
    N.lor (N.shiftl (b / 16) 4) (b mod 16) =? b) (List.seq 0 256) = true) as H by by vm_compute.
  rewrite forallb_forall in H.
  specialize (H (N.to_nat b)). rewrite N2Nat.id in H.
  apply N.eqb_eq, H. apply List.in_seq. lia.
Qed.

Lemma hex_roundtrip bytes :
  Forall (fun b => b < 256) bytes -> decode_pairs (to_bytes (hex_encode bytes)) = Some bytes.
Proof.
  induction 1 as [|b bytes Hb _ IH]; [done|].
  cbn [hex_encode to_bytes decode_pairs].
  rewrite hex_nibble_roundtrip; [|apply N.Div0.div_lt_upper_bound; lia].
  rewrite hex_nibble_roundtrip; [|apply N.mod_lt; lia].
  by rewrite IH nibbles_lor.
Qed.

Lemma hex_encode_length bytes : length (to_bytes (hex_encode bytes)) = (2 * length bytes)%nat.
Proof. induction bytes as [|b bytes IH]; simpl; lia. Qed.

(** A run's identifier always has a correlation context, and it is the
    sixteen bytes the identifier was made from: the decoder never panics on a
    generated identifier and distinct runs correlate apart. *)
Lemma run_id_roundtrip random now org schema :
  length random = 16%nat -> Forall (fun b => b < 256) random ->
  correlation_context (RunMetadata_new random now org schema) = Some random.
Proof.
  intros Hl Hb. unfold correlation_context. cbn [RunMetadata_new run_id].
  unfold generate_run_id. rewrite hex_encode_length Hl. cbn.
  by apply hex_roundtrip.
Qed.

Lemma run_id_roundtrip_witness :
  correlation_context (RunMetadata_new [0; 255; 16; 1; 2; 3; 4; 5; 6; 7; 8; 9; 10; 11; 171; 205]
    0 "org" "25.0") = Some [0; 255; 16; 1; 2; 3; 4; 5; 6; 7; 8; 9; 10; 11; 171; 205].
Proof. apply run_id_roundtrip; [reflexivity|repeat constructor]. Defined.
