(* ===== verification/Auth.v ===== *)
(** * Authentication ([github/auth.rs], [error.rs])

    Credentials and where they come from, OAuth scopes, the configuration of a
    GitHub App, the check of its key's size over the DER encoding, the claims
    of its token, and the capabilities probed at startup.  The environment, the
    output of the command line client, the file system, PEM decoding and the
    signing of tokens are arguments.  A panic is the [None] of an outer option. *)

From S2P Require Import Prelude Str Json RateLimit Run.

Open Scope N_scope.

(** ** Errors *)

(** [GitHubApiError]; [Http] carries the displayed transport error. *)
Inductive GitHubApiError :=
| HttpError (text : string)
| AuthenticationFailed (reason : string)
| AuthorizationDenied (reason : string)
| InvalidResponse (reason : string)
| ClientConfigError (reason : string).

Definition GitHubApiError_display (e : GitHubApiError) : string :=
  match e with
  | HttpError text => "http error: " +:+ text
  | AuthenticationFailed reason => "authentication failed: " +:+ reason
  | AuthorizationDenied reason => "authorization denied: " +:+ reason
  | InvalidResponse reason => "invalid response: " +:+ reason
  | ClientConfigError reason => "configuration error: " +:+ reason
  end.

(** ** Credentials *)

(** A [Timestamp], in nanoseconds since the epoch. *)
Definition Timestamp : Type := Z.
Definition NANOS : Z := 1000000000.

(** [Timestamp::as_second]: rounded towards the epoch. *)
Definition as_second (t : Timestamp) : Z := Z.quot t NANOS.
(** [i64::cast_unsigned]. *)
Definition cast_unsigned (z : Z) : N := Z.to_N (z mod 2 ^ 64)%Z.

Record GitHubCredential := mkGitHubCredential {
  cred_mode : AuthMode;
  cred_token : string;
  cred_expires_at : option Timestamp;
}.

(** [gh auth token]: it did not run, or its status and its output. *)
Inductive GhOutput := NotExecuted | Executed (success : bool) (stdout : string).

Definition from_gh_cli (output : GhOutput) : result GitHubApiError GitHubCredential :=
  match output with
  | NotExecuted => Err (AuthenticationFailed "failed to execute 'gh auth token'")
  | Executed false _ =>
    Err (AuthenticationFailed "gh auth token failed; run 'gh auth login' first")
  | Executed true stdout =>
    match from_utf8 stdout with
    | None => Err (AuthenticationFailed "gh auth token returned non-UTF-8 output")
    | Some raw_token =>
      let token := trim raw_token in
      if is_empty token then Err (AuthenticationFailed "gh auth token returned empty token")
      else Ok (mkGitHubCredential AM_GhCliFallback token None)
    end
  end.

(** [std::env::var(name).ok()]. *)
Definition Environment : Type := string -> option string.

(** [Ok(v) if !v.is_empty()]. *)
Definition set_var (env : Environment) (name : string) : option string :=
  match env name with
  | Some v => if is_empty v then None else Some v
  | None => None
  end.

Definition credential_from_environment (env : Environment) (gh : GhOutput)
    : result GitHubApiError GitHubCredential :=
  match set_var env "GITHUB_TOKEN" with
  | Some token => Ok (mkGitHubCredential AM_Pat token None)
  | None => from_gh_cli gh
  end.

Definition from_installation_token (token : string) (expires_at : Timestamp) : GitHubCredential :=
  mkGitHubCredential AM_GitHubApp token (Some expires_at).

(** [needs_refresh(buffer)], the buffer in nanoseconds. *)
Definition needs_refresh (c : GitHubCredential) (now : Timestamp) (buffer : Z) : bool :=
  match cred_expires_at c with
  | Some expires => (expires <=? now + buffer)%Z
  | None => false
  end.

Definition expires_at_unix (c : GitHubCredential) : N :=
  match cred_expires_at c with Some ts => cast_unsigned (as_second ts) | None => 0 end.

(** ** Scopes *)

Definition FULL_TIER_SCOPES : list string := ["repo"; "read:org"; "security_events"].

Definition has_scope (scopes : list string) (s : string) : bool :=
  bool_decide (s ∈ scopes) || (String.eqb s "security_events" && bool_decide ("repo" ∈ scopes)).

Definition classify_token_tier (scopes : list string) : TokenTier :=
  match scopes with
  | [] => TT_Unknown
  | _ => if forallb (has_scope scopes) FULL_TIER_SCOPES then TT_Full else TT_Limited
  end.

Definition parse_oauth_scopes (header_value : string) : list string :=
  List.filter (fun s => negb (is_empty s)) (map trim (split_char ","%char header_value)).

Record AuthMetadata := mkAuthMetadata {
  md_token_tier : TokenTier;
  md_token_scopes : string;
  md_auth_mode : AuthMode;
}.

Definition AuthMetadata_default : AuthMetadata := mkAuthMetadata TT_Unknown "unknown" AM_Unknown.

(** [slice.join(sep)]. *)
Fixpoint join (sep : string) (l : list string) : string :=
  match l with
  | [] => EmptyString
  | [s] => s
  | s :: l => s +:+ sep +:+ join sep l
  end.

Definition from_scopes (scopes : list string) (mode : AuthMode) : AuthMetadata :=
  mkAuthMetadata (classify_token_tier scopes)
    match scopes with [] => "unknown" | _ => join ", " scopes end mode.

Definition for_github_app : AuthMetadata :=
  mkAuthMetadata TT_Unknown "github-app-installation" AM_GitHubApp.

(** ** The configuration of an App *)

Definition parse_positive_u64 (raw field_name : string) : result GitHubApiError N :=
  match parse_unsigned u64_max (trim raw) with
  | None =>
    Err (ClientConfigError (field_name +:+ " must be a positive integer, got: " +:+ raw))
  | Some id =>
    if id =? 0 then
      Err (ClientConfigError (field_name +:+ " must be a positive integer (got 0)"))
    else Ok id
  end.

Definition parse_app_id (raw : string) : result GitHubApiError N :=
  parse_positive_u64 raw "GH_APP_ID".

Record GitHubAppConfig := mkGitHubAppConfig {
  app_id : N;
  private_key_pem : string;
  installation_id : N;
}.

(** What the file system says of a path: its mode if its metadata can be read,
    and its content or the error of reading it. *)
Record KeyFile := mkKeyFile {
  kf_exists : bool;
  kf_mode : option N;
  kf_content : result string string;
}.

(** [{:o}]. *)
Fixpoint octal_digits (fuel : nat) (n : N) (rest : string) : string :=
  match fuel with
  | O => rest
  | S fuel =>
    let rest := String (byte (48 + n mod 8)) rest in
    if n <? 8 then rest else octal_digits fuel (n / 8) rest
  end.
Definition octal (n : N) : string := octal_digits (S (N.size_nat n)) n EmptyString.

Definition read_private_key_file (files : string -> KeyFile) (path : string)
    : result GitHubApiError string :=
  let f := files path in
  if negb (kf_exists f) then
    Err (ClientConfigError ("GH_APP_PRIVATE_KEY_PATH does not exist: " +:+ path))
  else
    let permissive :=
      match kf_mode f with
      | Some mode => if N.land mode 63 =? 0 then None else Some mode
      | None => None
      end in
    match permissive with
    | Some mode =>
      Err (ClientConfigError ("private key file " +:+ path
        +:+ " has overly permissive permissions (mode " +:+ octal (N.land mode 511)
        +:+ "); expected no group/other access (e.g., chmod 600)"))
    | None =>
      match kf_content f with
      | Err e =>
        Err (ClientConfigError ("failed to read private key from " +:+ path +:+ ": " +:+ e))
      | Ok content =>
        if is_empty (trim content) then Err (ClientConfigError "private key file is empty")
        else if negb (contains "-----BEGIN" content) then
          Err (ClientConfigError
            "private key file does not appear to contain a PEM-encoded key")
        else Ok content
      end
    end.

Definition app_config_from_environment (env : Environment) (files : string -> KeyFile)
    : result GitHubApiError (option GitHubAppConfig) :=
  match set_var env "GH_APP_ID" with
  | None => Ok None
  | Some app_id_str =>
    let? app_id := parse_app_id app_id_str in
    let? private_key_pem :=
      match env "GH_APP_PRIVATE_KEY" with
      | Some key =>
        if is_empty key then Err (ClientConfigError "GH_APP_PRIVATE_KEY is set but empty")
        else Ok key
      | None =>
        match env "GH_APP_PRIVATE_KEY_PATH" with
        | Some path => read_private_key_file files path
        | None =>
          Err (ClientConfigError
            "GH_APP_ID set but neither GH_APP_PRIVATE_KEY nor GH_APP_PRIVATE_KEY_PATH provided")
        end
      end in
    let? installation_id :=
      match set_var env "GH_APP_INSTALLATION_ID" with
      | Some v => parse_positive_u64 v "GH_APP_INSTALLATION_ID"
      | None =>
        Err (ClientConfigError "GH_APP_INSTALLATION_ID is required when GH_APP_ID is set")
      end in
    Ok (Some (mkGitHubAppConfig app_id private_key_pem installation_id))
  end.

(** ** The size of the key *)

Definition MIN_RSA_BITS : N := 2048.

(** [&data[start..]] panics past the end. *)
Definition slice_from (start : N) (data : list N) : option (list N) :=
  if start <=? N.of_nat (length data) then Some (drop (N.to_nat start) data) else None.
(** [&data[start..end]] panics past the end. *)
Definition slice (start stop : N) (data : list N) : option (list N) :=
  if (start <=? stop) && (stop <=? N.of_nat (length data))
  then Some (take (N.to_nat (stop - start)) (drop (N.to_nat start) data)) else None.

Definition decode_der_length (data : list N) : option (option (N * N)) :=
  match data with
  | [] => Some None
  | first :: _ =>
    if first <? 128 then Some (Some (first, 1))
    else
      let num_bytes := N.land first 127 in
      if (num_bytes =? 0) || (4 <? num_bytes) || (N.of_nat (length data) <? 1 + num_bytes)
      then Some None
      else
        bs ← slice 1 (num_bytes + 1) data;
        let len := fold_left (fun len b => N.lor (N.shiftl len 8 mod 2 ^ 64) b) bs 0 in
        Some (Some (len, 1 + num_bytes))
  end.

(** [usize] addition panics on overflow. *)
Definition usize_add (a b : N) : option N := checked_add usize_max a b.

Definition skip_der_tag_len (data : list N) (expected_tag : N) : option (option (list N)) :=
  match data with
  | [] => Some None
  | tag :: _ =>
    if negb (tag =? expected_tag) then Some None
    else
      tail ← slice_from 1 data;
      r ← decode_der_length tail;
      match r with
      | None => Some None
      | Some (len, hdr) =>
        start ← usize_add 1 hdr;
        stop ← usize_add start len;
        if N.of_nat (length data) <? stop then Some None
        else option_map Some (slice_from start data)
      end
  end.

Definition skip_der_tlv (data : list N) : option (option (list N)) :=
  match data with
  | [] => Some None
  | _ =>
    tail ← slice_from 1 data;
    r ← decode_der_length tail;
    match r with
    | None => Some None
    | Some (len, hdr) =>
      start ← usize_add 1 hdr;
      total ← usize_add start len;
      if N.of_nat (length data) <? total then Some None
      else option_map Some (slice_from total data)
    end
  end.

Definition read_der_integer_value_len (data : list N) : option (option N) :=
  match data with
  | [] => Some None
  | tag :: _ =>
    if negb (tag =? 2) then Some None
    else
      tail ← slice_from 1 data;
      r ← decode_der_length tail;
      match r with
      | None => Some None
      | Some (len, hdr) =>
        start ← usize_add 1 hdr;
        stop ← usize_add start len;
        if (N.of_nat (length data) <? stop) || (len =? 0) then Some None
        else
          val ← slice start stop data;
          first ← head val;
          Some (Some (if (first =? 0) && (1 <? len) then len - 1 else len))
      end
  end.

Definition extract_rsa_modulus_len (der : list N) : option (option N) :=
  r ← skip_der_tag_len der 48;
  match r with
  | None => Some None
  | Some rest =>
    r ← skip_der_tlv rest;
    match r with
    | None => Some None
    | Some rest => read_der_integer_value_len rest
    end
  end.

Section AppToken.
  (** [pem::parse(..).contents()], with the error's text; [RS256] signing. *)
  Context (parse_pem : string -> result string (list N))
          (encode_jwt : string -> Z * Z * string -> result string string).

Definition validate_rsa_key_size (pem_str : string) : option (result GitHubApiError ()) :=
  match parse_pem pem_str with
  | Err e => Some (Err (AuthenticationFailed ("invalid PEM: " +:+ e)))
  | Ok der =>
    r ← extract_rsa_modulus_len der;
    match r with
    | None =>
      Some (Err (AuthenticationFailed
        "could not parse RSA key structure to determine key size"))
    | Some modulus_bytes =>
      let modulus_bits := modulus_bytes * 8 in
      if usize_max <? modulus_bits then None
      else if modulus_bits <? MIN_RSA_BITS then
        Some (Err (AuthenticationFailed ("RSA key is " +:+ pretty modulus_bits
          +:+ " bits; minimum " +:+ pretty MIN_RSA_BITS +:+ " required")))
      else Some (Ok ())
    end
  end.

(** [AppJwtClaims]: issued at, expires, issuer. *)
Definition app_jwt_claims (app_config : GitHubAppConfig) (now : Timestamp) : Z * Z * string :=
  (as_second (now - 60 * NANOS)%Z, as_second (now + 600 * NANOS)%Z, pretty (app_id app_config)).

(** The errors of the key's import and of the signing differ in their prefix
    only; the encoder's text carries it. *)
Definition generate_app_jwt (app_config : GitHubAppConfig) (now : Timestamp)
    : option (result GitHubApiError string) :=
  r ← validate_rsa_key_size (private_key_pem app_config);
  match r with
  | Err e => Some (Err e)
  | Ok _ =>
    Some (map_err AuthenticationFailed
      (encode_jwt (private_key_pem app_config) (app_jwt_claims app_config now)))
  end.
End AppToken.

(** ** Capabilities *)

Inductive CapabilityStatus := CS_Available | CS_PermissionDenied | CS_Unavailable | CS_NotProbed.
#[export] Instance CapabilityStatus_eq_dec : EqDecision CapabilityStatus.
Proof. solve_decision. Defined.

Record CapabilitySet := mkCapabilitySet {
  repos_list : CapabilityStatus;
  org_secret_scanning_alerts : CapabilityStatus;
  private_branch_protection_read : CapabilityStatus;
}.

Definition can_run (c : CapabilitySet) : bool := bool_decide (repos_list c = CS_Available).

Definition is_available (c : CapabilitySet) (capability : Capability) : bool :=
  match capability with
  | Cap_OrgSecretScanningAlerts => bool_decide (org_secret_scanning_alerts c = CS_Available)
  | Cap_PrivateBranchProtectionRead =>
    bool_decide (private_branch_protection_read c = CS_Available)
  end.

Definition unavailable_capabilities (c : CapabilitySet) : list Capability :=
  (if bool_decide (org_secret_scanning_alerts c = CS_Available) then []
   else [Cap_OrgSecretScanningAlerts])
  ++ (if bool_decide (private_branch_protection_read c = CS_Available) then []
      else [Cap_PrivateBranchProtectionRead]).

(** [classify_capability_probe] of [github/client.rs]. *)
Definition classify_capability_probe {V} (result : ApiOutcome V) : CapabilityStatus :=
  match outcome_status_code result with
  | Some status =>
    if (200 <=? status) && (status <? 300) then CS_Available
    else if (status =? 403) || (status =? 404) then CS_PermissionDenied
    else CS_Unavailable
  | None => CS_Unavailable
  end.

(** ** DER: the encodings the walk understands *)

Definition is_byte (b : N) : Prop := b < 256.

(** A big-endian number. *)
Definition be_value (bs : list N) : N := fold_left (fun a b => a * 256 + b) bs 0.

(** The ways to write a length: one byte below 128, or up to four bytes after
    their number. *)
Inductive encodes_length : N -> list N -> Prop :=
| short_length n : n < 128 -> encodes_length n [n]
| long_length bs : (1 <= length bs <= 4)%nat -> Forall is_byte bs ->
    encodes_length (be_value bs) (128 + N.of_nat (length bs) :: bs).

(** [tlv tag value e]: [e] is [value] under [tag]. *)
Inductive tlv (tag : N) (value : list N) : list N -> Prop :=
| mk_tlv ls : encodes_length (N.of_nat (length value)) ls -> tlv tag value (tag :: ls ++ value).

(** The bytes of a positive integer, without the byte that keeps its sign. *)
Definition significant (value : list N) : N :=
  let len := N.of_nat (length value) in
  if bool_decide (head value = Some 0) && (1 <? len) then len - 1 else len.

(** ** Lemmas *)

Lemma lor_shift a b : a * 256 < 2 ^ 64 -> b < 256 -> N.lor (N.shiftl a 8 mod 2 ^ 64) b = a * 256 + b.
Proof.
  intros Ha Hb. rewrite N.shiftl_mul_pow2 -[2 ^ 8]/256 N.mod_small //.
  assert (N.land (a * 256) b = 0) as Hl.
  { apply N.bits_inj. intros n. rewrite N.land_spec N.bits_0 -[256]/(2 ^ 8) -N.shiftl_mul_pow2.
    destruct (N.lt_ge_cases n 8) as [Hn|Hn].
    - by rewrite N.shiftl_spec_low.
    - rewrite andb_comm. destruct (N.eq_dec b 0) as [->|Hb0]; [by rewrite N.bits_0|].
      rewrite N.bits_above_log2 //. apply N.log2_lt_pow2; [lia|].
      apply (N.lt_le_trans _ (2 ^ 8)); [done|]. apply N.pow_le_mono_r; lia. }
  by rewrite -N.lxor_lor // -N.add_nocarry_lxor.
Qed.

Lemma fold_be (bs : list N) a : Forall is_byte bs -> a * 256 ^ N.of_nat (length bs) + 256 ^ N.of_nat (length bs) <= 2 ^ 64 ->
  fold_left (fun len b => N.lor (N.shiftl len 8 mod 2 ^ 64) b) bs a
    = fold_left (fun a b => a * 256 + b) bs a /\
  fold_left (fun a b => a * 256 + b) bs a < (a + 1) * 256 ^ N.of_nat (length bs).
Proof.
  revert a. induction bs as [|b bs IH]; intros a Hb Ha; [simpl; lia|].
  inversion Hb as [|? ? Hb1 Hb2]; subst. unfold is_byte in Hb1.
  change (length (b :: bs)) with (S (length bs)) in *. rewrite Nat2N.inj_succ N.pow_succ_r' in Ha |- *.
  cbn [fold_left].
  assert (0 < 256 ^ N.of_nat (length bs)) by (apply N.neq_0_lt_0, N.pow_nonzero; lia).
  rewrite lor_shift //; [|nia]. destruct (IH (a * 256 + b) Hb2) as [H1 H2]; [nia|].
  split; [done|]. nia.
Qed.

Lemma slice_from_1 a (l : list N) : slice_from 1 (a :: l) = Some l.
Proof. unfold slice_from. rewrite (proj2 (N.leb_le _ _)) //. simpl. lia. Qed.

Lemma num_bytes_long k : k < 128 -> N.land (128 + k) 127 = k.
Proof.
  intros Hk. rewrite -[127]/(N.ones 7) N.land_ones -[2 ^ 7]/128.
  rewrite -{1}[128]N.mul_1_l N.add_comm N.Div0.mod_add. by apply N.mod_small.
Qed.

(** Decoding a length never panics, and stays within its bounds. *)
Lemma decode_der_length_safe data : Forall is_byte data ->
  exists r, decode_der_length data = Some r /\
    forall len hdr, r = Some (len, hdr) ->
      len < 2 ^ 32 /\ 1 <= hdr <= 5 /\ hdr <= N.of_nat (length data).
Proof.
  intros Hd. unfold decode_der_length. destruct data as [|first data']; [by exists None|].
  remember (first :: data') as data eqn:Edata.
  assert (1 <= N.of_nat (length data)) by (subst; simpl; lia).
  destruct (N.ltb_spec first 128) as [Hf|Hf].
  { eexists; split; [done|]. intros ? ? [= <- <-]. split; [|lia]. by transitivity 128. }
  set (k := N.land first 127).
  destruct ((k =? 0) || (4 <? k) || (N.of_nat (length data) <? 1 + k)) eqn:Eg; [by exists None|].
  apply orb_false_elim in Eg as [[Eg1 Eg2]%orb_false_elim Eg3].
  apply N.eqb_neq in Eg1. apply N.ltb_ge in Eg2, Eg3.
  unfold slice. rewrite (proj2 (N.leb_le 1 (k + 1))); [|lia].
  rewrite (proj2 (N.leb_le (k + 1) _)); [|lia]. cbn [andb mbind option_bind].
  set (bs := take (N.to_nat (k + 1 - 1)) (drop (N.to_nat 1) data)).
  assert (Hb : Forall is_byte bs) by (by apply Forall_take, Forall_drop).
  assert (Hl : N.of_nat (length bs) = k).
  { unfold bs. rewrite length_take length_drop. lia. }
  eexists; split; [done|]. intros ? ? [= <- <-].
  assert (256 ^ N.of_nat (length bs) <= 2 ^ 32).
  { rewrite Hl. transitivity (256 ^ 4); [|done]. by apply N.pow_le_mono_r. }
  destruct (fold_be bs 0 Hb) as [-> Hlt]; [transitivity (2 ^ 32); [|done]; lia|]. lia.
Qed.

Lemma decode_der_length_exact len ls rest :
  encodes_length len ls ->
  decode_der_length (ls ++ rest) = Some (Some (len, N.of_nat (length ls))) /\
  len < 2 ^ 32 /\ (length ls <= 5)%nat.
Proof.
  intros [n Hn|bs Hb Hl].
  - simpl. rewrite (proj2 (N.ltb_lt _ _)) //. split_and!; [done| |lia]. by transitivity 128.
  - cbn [decode_der_length app]. set (k := N.of_nat (length bs)).
    assert (1 <= k <= 4) by (unfold k; lia).
    rewrite (proj2 (N.ltb_ge _ _)); [|lia]. rewrite num_bytes_long; [|lia].
    rewrite (proj2 (N.eqb_neq k 0)); [|lia]. rewrite (proj2 (N.ltb_ge 4 k)); [|lia].
    rewrite (proj2 (N.ltb_ge _ (1 + k))); [|cbn [length]; rewrite length_app; unfold k; lia].
    cbn [orb]. unfold slice. rewrite (proj2 (N.leb_le 1 _)); [|lia].
    rewrite (proj2 (N.leb_le (k + 1) _)); [|cbn [length]; rewrite length_app; unfold k; lia].
    cbn [andb mbind option_bind].
    replace (take _ _) with bs; last first.
    { replace (N.to_nat (k + 1 - 1)) with (length bs) by (unfold k; lia).
      simpl. by rewrite firstn_app Nat.sub_diag firstn_all app_nil_r. }
    assert (256 ^ k <= 2 ^ 32).
    { transitivity (256 ^ 4); [|done]. apply N.pow_le_mono_r; lia. }
    destruct (fold_be bs 0 Hl) as [-> Hlt]; [fold k; transitivity (2 ^ 32); [|done]; lia|].
    split_and!; [|unfold be_value; fold k in Hlt; lia|simpl; lia].
    cbn [length]. rewrite Nat2N.inj_succ. fold k. do 4 f_equal. lia.
Qed.

Lemma usize_add_small a b : a + b < 2 ^ 33 -> usize_add a b = Some (a + b).
Proof.
  intros H. unfold usize_add, checked_add. rewrite (proj2 (N.leb_le _ _)) //.
  assert (2 ^ 33 <= usize_max) by done. lia.
Qed.

Lemma slice_from_within n (l : list N) : n <= N.of_nat (length l) ->
  slice_from n l = Some (drop (N.to_nat n) l).
Proof. intros H. unfold slice_from. by rewrite (proj2 (N.leb_le _ _)). Qed.

(** Takes a guarded step of the walk: its decoded length, then its guard. *)
Ltac der_step Hd :=
  rewrite slice_from_1; cbn [mbind option_bind];
  match type of Hd with Forall _ (_ :: ?data) =>
    let r := fresh "r" in let E := fresh "E" in let Hr := fresh "Hr" in
    destruct (decode_der_length_safe data) as (r & E & Hr); [by inversion Hd|];
    rewrite E; cbn [mbind option_bind];
    destruct r as [[len hdr]|]; [|by exists None];
    destruct (Hr _ _ eq_refl) as (Hlen & Hhdr & Hin);
    assert (2 ^ 33 = 2 * 2 ^ 32) by done;
    do 2 (rewrite usize_add_small; [|lia]; cbn [mbind option_bind])
  end.

Lemma skip_der_tag_len_safe data tag : Forall is_byte data ->
  exists r, skip_der_tag_len data tag = Some r /\
    forall rest, r = Some rest -> Forall is_byte rest /\ (length rest <= length data)%nat.
Proof.
  intros Hd. unfold skip_der_tag_len. destruct data as [|t data]; [by exists None|].
  destruct (negb _); [by exists None|].
  der_step Hd.
  destruct (N.ltb_spec (N.of_nat (length (t :: data))) (1 + hdr + len)); [by exists None|].
  rewrite slice_from_within; [|lia]. eexists; split; [done|]. intros ? [= <-].
  split; [by apply Forall_drop|]. rewrite length_drop. lia.
Qed.

Lemma skip_der_tlv_safe data : Forall is_byte data ->
  exists r, skip_der_tlv data = Some r /\
    forall rest, r = Some rest -> Forall is_byte rest /\ (length rest <= length data)%nat.
Proof.
  intros Hd. unfold skip_der_tlv. destruct data as [|t data]; [by exists None|]. der_step Hd.
  destruct (N.ltb_spec (N.of_nat (length (t :: data))) (1 + hdr + len)); [by exists None|].
  rewrite slice_from_within; [|lia]. eexists; split; [done|]. intros ? [= <-].
  split; [by apply Forall_drop|]. rewrite length_drop. lia.
Qed.

Lemma read_der_integer_value_len_safe data : Forall is_byte data ->
  exists r, read_der_integer_value_len data = Some r /\
    forall n, r = Some n -> 1 <= n < N.of_nat (length data) /\ n < 2 ^ 32.
Proof.
  intros Hd. unfold read_der_integer_value_len. destruct data as [|t data]; [by exists None|].
  destruct (negb _); [by exists None|]. der_step Hd.
  destruct (N.ltb_spec (N.of_nat (length (t :: data))) (1 + hdr + len)); [by exists None|].
  destruct (N.eqb_spec len 0); [by exists None|]. cbn [orb]. unfold slice.
  rewrite !(proj2 (N.leb_le _ _)); [|lia..]. cbn [andb mbind option_bind].
  destruct (take _ _) as [|x l] eqn:Et.
  { apply (f_equal length) in Et. rewrite length_take length_drop in Et. simpl in Et, H0. lia. }
  cbn [head mbind option_bind]. eexists; split; [done|]. intros ? [= <-].
  destruct ((x =? 0) && (1 <? len)) eqn:Ez; [|lia].
  apply andb_prop in Ez as [_ Ez%N.ltb_lt]. lia.
Qed.

Lemma extract_rsa_modulus_len_safe der : Forall is_byte der ->
  exists r, extract_rsa_modulus_len der = Some r /\
    forall n, r = Some n -> 1 <= n < N.of_nat (length der) /\ n < 2 ^ 32.
Proof.
  intros Hd. unfold extract_rsa_modulus_len.
  destruct (skip_der_tag_len_safe der 48 Hd) as (r & -> & Hr). cbn [mbind option_bind].
  destruct r as [rest|]; [|by exists None]. destruct (Hr _ eq_refl) as [Hb Hl].
  destruct (skip_der_tlv_safe rest Hb) as (r & -> & Hr'). cbn [mbind option_bind].
  destruct r as [rest'|]; [|by exists None]. destruct (Hr' _ eq_refl) as [Hb' Hl'].
  destruct (read_der_integer_value_len_safe rest' Hb') as (r & -> & Hn).
  eexists; split; [done|]. intros n E. specialize (Hn n E). lia.
Qed.

(** The walk over well-formed encodings. *)
Lemma skip_der_tag_len_exact tag value e suffix : tlv tag value e ->
  skip_der_tag_len (e ++ suffix) tag = Some (Some (value ++ suffix)).
Proof.
  intros [ls Hls]. destruct (decode_der_length_exact _ _ (value ++ suffix) Hls) as (E & Hb & H5).
  assert (2 ^ 33 = 2 * 2 ^ 32) by done.
  unfold skip_der_tag_len. cbn [app]. rewrite N.eqb_refl. cbn [negb].
  rewrite slice_from_1. cbn [mbind option_bind]. rewrite -app_assoc E. cbn [mbind option_bind].
  do 2 (rewrite usize_add_small; [|lia]; cbn [mbind option_bind]).
  rewrite (proj2 (N.ltb_ge _ _)); [|cbn [length]; rewrite !length_app; lia].
  rewrite slice_from_within; [|cbn [length]; rewrite !length_app; lia]. simpl.
  replace (N.to_nat (1 + N.of_nat (length ls))) with (S (length ls)) by lia.
  cbn [drop]. by rewrite skipn_app Nat.sub_diag skipn_all.
Qed.

Lemma skip_der_tlv_exact tag value e suffix : tlv tag value e ->
  skip_der_tlv (e ++ suffix) = Some (Some suffix).
Proof.
  intros [ls Hls]. destruct (decode_der_length_exact _ _ (value ++ suffix) Hls) as (E & Hb & H5).
  assert (2 ^ 33 = 2 * 2 ^ 32) by done.
  unfold skip_der_tlv. cbn [app].
  rewrite slice_from_1. cbn [mbind option_bind]. rewrite -app_assoc E. cbn [mbind option_bind].
  do 2 (rewrite usize_add_small; [|lia]; cbn [mbind option_bind]).
  rewrite (proj2 (N.ltb_ge _ _)); [|cbn [length]; rewrite !length_app; lia].
  rewrite slice_from_within; [|cbn [length]; rewrite !length_app; lia]. simpl.
  replace (N.to_nat _) with (S (length (ls ++ value))) by (rewrite length_app; lia).
  cbn [drop]. by rewrite app_assoc skipn_app Nat.sub_diag skipn_all.
Qed.

Lemma read_der_integer_value_len_exact value e suffix : tlv 2 value e -> value <> [] ->
  read_der_integer_value_len (e ++ suffix) = Some (Some (significant value)).
Proof.
  intros [ls Hls] Hne. destruct (decode_der_length_exact _ _ (value ++ suffix) Hls) as (E & Hb & H5).
  assert (2 ^ 33 = 2 * 2 ^ 32) by done.
  unfold read_der_integer_value_len. cbn [app]. rewrite N.eqb_refl. cbn [negb].
  rewrite slice_from_1. cbn [mbind option_bind]. rewrite -app_assoc E. cbn [mbind option_bind].
  do 2 (rewrite usize_add_small; [|lia]; cbn [mbind option_bind]).
  rewrite (proj2 (N.ltb_ge _ _)); [|cbn [length]; rewrite !length_app; lia].
  rewrite (proj2 (N.eqb_neq _ 0)); [|destruct value; simpl; [done|lia]]. cbn [orb].
  unfold slice. rewrite !(proj2 (N.leb_le _ _)); [|cbn [length]; rewrite ?length_app; lia..].
  cbn [andb mbind option_bind].
  replace (take _ _) with value; last first.
  { replace (N.to_nat (1 + N.of_nat (length ls))) with (S (length ls)) by lia.
    replace (N.to_nat (_ - _)) with (length value) by lia. cbn [drop].
    by rewrite skipn_app Nat.sub_diag skipn_all /= firstn_app Nat.sub_diag firstn_all app_nil_r. }
  destruct value as [|x value]; [done|]. cbn [head mbind option_bind].
  unfold significant. do 3 f_equal. cbn [head]. destruct (N.eqb_spec x 0) as [->|Hx].
  - by rewrite bool_decide_true.
  - by rewrite bool_decide_false; [|congruence].
Qed.

Lemma validate_rsa_key_size_total parse_pem pem :
  (forall der, parse_pem pem = Ok der -> Forall is_byte der) ->
  validate_rsa_key_size parse_pem pem <> None.
Proof.
  intros H. unfold validate_rsa_key_size. destruct (parse_pem pem) as [der|]; [|done].
  destruct (extract_rsa_modulus_len_safe der (H _ eq_refl)) as (r & -> & Hr). simpl.
  destruct r as [n|]; [|done]. destruct (Hr n eq_refl) as [_ Hn].
  assert (2 ^ 32 * 8 <= usize_max) by done.
  rewrite (proj2 (N.ltb_ge usize_max _)); [|lia]. by destruct (_ <? MIN_RSA_BITS).
Qed.

(** A token is [Full] exactly when it has [repo] and [read:org], since [repo]
    implies the third scope. *)
Lemma tier_full_iff scopes :
  classify_token_tier scopes = TT_Full <-> "repo" ∈ scopes /\ "read:org" ∈ scopes.
Proof.
  unfold classify_token_tier. destruct scopes as [|s scopes].
  { split; [done|]. intros [H _]. by apply elem_of_nil in H. }
  remember (s :: scopes) as l. clear Heql. unfold FULL_TIER_SCOPES, has_scope.
  cbn [forallb String.eqb Ascii.eqb Bool.eqb andb orb]. rewrite !orb_false_r andb_true_r.
  destruct (bool_decide_reflect ("repo" ∈ l)); destruct (bool_decide_reflect ("read:org" ∈ l));
    simpl; try (split; [done|tauto]).
  rewrite orb_true_r. split; [done|done].
Qed.

(** The bytes after a SEQUENCE are read as if they belonged to it: a key whose
    SEQUENCE holds the version only gets the INTEGER that follows it. *)
Example modulus_outside_sequence :
  extract_rsa_modulus_len [48; 3; 2; 1; 0; 2; 1; 5] = Some (Some 1).
Proof. reflexivity. Qed.

(** The check of an App key's size is safe on every input and exact on
    every key.  On any bytes at all the walk over the DER stays within them, so
    it never panics, and a length it returns lies within them.  On every
    encoding of a SEQUENCE that begins with two INTEGERs, in short or long
    form, it returns the number of significant bytes of the second, so that a
    key is accepted exactly when that is at least 2048 bits. *)
Lemma rsa_key_size_exact parse_pem pem :
  (forall der, Forall is_byte der ->
     exists r, extract_rsa_modulus_len der = Some r /\
       forall n, r = Some n -> 1 <= n < N.of_nat (length der)) /\
  (forall version modulus suffix trailing ev em ek,
     tlv 2 version ev -> tlv 2 modulus em -> modulus <> [] ->
     tlv 48 (ev ++ em ++ suffix) ek ->
     extract_rsa_modulus_len (ek ++ trailing) = Some (Some (significant modulus)) /\
     (parse_pem pem = Ok (ek ++ trailing) ->
        validate_rsa_key_size parse_pem pem = Some (Ok ()) <-> 2048 <= 8 * significant modulus)).
Proof.
  split.
  { intros der Hd. destruct (extract_rsa_modulus_len_safe der Hd) as (r & E & H).
    exists r. split; [done|]. intros n En. by destruct (H n En). }
  intros version modulus suffix trailing ev em ek Hv Hm Hne Hk.
  assert (extract_rsa_modulus_len (ek ++ trailing) = Some (Some (significant modulus))) as E.
  { unfold extract_rsa_modulus_len. rewrite (skip_der_tag_len_exact _ _ _ _ Hk).
    cbn [mbind option_bind]. rewrite -!app_assoc (skip_der_tlv_exact _ _ _ _ Hv).
    cbn [mbind option_bind]. by apply read_der_integer_value_len_exact. }
  split; [done|]. intros Hp. unfold validate_rsa_key_size. rewrite Hp E. cbn [mbind option_bind].
  assert (significant modulus < 2 ^ 32).
  { destruct Hm as [ls Hls]. destruct (decode_der_length_exact _ _ [] Hls) as (_ & Hb & _).
    unfold significant. destruct (_ && _); lia. }
  assert (2 ^ 32 * 8 <= usize_max) by done.
  rewrite (proj2 (N.ltb_ge usize_max _)); [|lia]. unfold MIN_RSA_BITS.
  destruct (N.ltb_spec (significant modulus * 8) 2048); split; (done || lia).
Qed.
