(* ===== verification/Client.v ===== *)
(** * The GitHub client ([github/client.rs])

    The client's own state, its requests with their retries, pages, credential
    refresh and halts, the memo of repository details with its revalidation,
    the startup probes.  The code runs in a state monad whose [None] is a panic;
    the network, the clocks, the shared budget gate, rate limit state and
    backoff regulator ([cherry_pit_wq]) are the environment [ClientEnv].  The
    client also keeps a trace of what it did to the outside, which only the
    theorems read. *)

From S2P Require Import Prelude Str Json Request Pagination Routes Budget RateLimit Run Auth.

Open Scope N_scope.

(** [config]. *)
Definition MAX_PAGINATION_PAGES : N := 500.
Definition MAX_RESPONSE_BODY_BYTES : N := 50 * 1024 * 1024.
Definition MAX_PAGINATED_ITEMS : N := 500000.
Definition REPO_CACHE_TTL_HOURS : N := 24.
(** [TOKEN_REFRESH_BUFFER], in seconds. *)
Definition TOKEN_REFRESH_BUFFER : N := 300.

(** ** The environment *)

Record HttpRequest := mkHttpRequest {
  hr_url : string;
  hr_auth : string;
  hr_if_none_match : option string;
  hr_timeout_secs : N;
}.

(** A response; the body arrives in chunks, any of which may fail to. *)
Record Response := mkResponse {
  rs_status : N;
  rs_headers : Headers;
  rs_links : list (option string);
  rs_content_length : option N;
  rs_chunks : list (result string string);
}.

Inductive SendResult := Sent (r : Response) | SendFailed (error : string) (timeout : bool).

Class ClientEnv (V W : Type) := {
  (** [SystemTime::now()], in seconds since the epoch, or 0 before it. *)
  unix_now : W -> N * W;
  (** [Timestamp::now()]. *)
  timestamp_now : W -> Timestamp * W;
  (** [Instant::now()] and [SystemTime::now()], in nanoseconds. *)
  instant_now : W -> N * W;
  system_now : W -> N * W;
  instant_max : N;
  send : HttpRequest -> W -> SendResult * W;
  (** A [POST] with an [Authorization] header. *)
  post : string -> string -> W -> SendResult * W;
  sleep : N -> W -> W;
  (** [fastrand::u64(0..max)]. *)
  random_below : N -> W -> N * W;
  (** [BudgetGate]. *)
  budget_acquire : W -> bool * W;
  budget_refund : W -> W;
  budget_total_calls_made : W -> N;
  budget_epoch_limit : W -> N;
  (** [RateLimitState]. *)
  rl_observe : RateLimitObservation -> W -> W;
  rl_should_halt : W -> bool;
  rl_load_reset : W -> option N;
  (** [BackoffRegulator]: instants in nanoseconds. *)
  set_backoff : N -> W -> W;
  resume_at : W -> option N;
  (** Libraries without state: [serde_json], [httpdate], [url], [http], [jiff],
      [pem], [jsonwebtoken], [cherry_pit_web]. *)
  parse_json : string -> result string V;
  parse_token_response : string -> result string (string * string);
  parse_timestamp : string -> result string Timestamp;
  parse_http_date : string -> option N;
  parse_url : string -> option (string * option string * option N);
  url_error : string -> string;
  header_value_ok : string -> bool;
  parse_pem : string -> result string (list N);
  encode_jwt : string -> Z * Z * string -> result string string;
  sanitize_path_segment : string -> string -> result string string;
  mk_string : string -> V;
  mk_bool : bool -> V;
  mk_array : list V -> V;
  (** [Value::Object] of a map the entries were inserted into. *)
  mk_object : list (string * V) -> V;
}.

(** ** State *)

(** What [GitHubClient::new] fixes. *)
Record ClientConfig := mkClientConfig {
  base_url : string;
  trusted_origin : string;
  org_name : string;
  app_config : option GitHubAppConfig;
}.

Record CachedResult (V : Type) := mkCachedResult {
  cr_status_code : N;
  cr_data : option V;
  cr_etag : option string;
  cr_stale : bool;
}.
Arguments mkCachedResult {V}.
Arguments cr_status_code {V}. Arguments cr_data {V}.
Arguments cr_etag {V}. Arguments cr_stale {V}.

(** What the client did to the outside. *)
Inductive Event :=
| E_Get (rq : HttpRequest) (r : SendResult)
| E_Post (url : string) (r : SendResult)
| E_Acquire (granted : bool)
| E_Refund
| E_Sleep (nanos : N).

(** The mutable fields of [GitHubClient], the environment, and the trace. *)
Record Client (V W : Type) := mkClient {
  halted_until : N;
  credential : GitHubCredential;
  auth_header : string;
  credential_expires_at : N;
  rate_limit_warnings : N;
  repo_detail_cache : gmap string (CachedResult V);
  last_response_etags : gmap string string;
  not_modified_repos : gset string;
  deleted_team_slugs : gset string;
  auth_metadata : option AuthMetadata;
  budget_checkpoints : BudgetCheckpoints;
  world : W;
  trace : list Event;
}.
Arguments mkClient {V W}.
Arguments halted_until {V W}. Arguments credential {V W}. Arguments auth_header {V W}.
Arguments credential_expires_at {V W}. Arguments rate_limit_warnings {V W}.
Arguments repo_detail_cache {V W}. Arguments last_response_etags {V W}.
Arguments not_modified_repos {V W}. Arguments deleted_team_slugs {V W}.
Arguments auth_metadata {V W}. Arguments budget_checkpoints {V W}.
Arguments world {V W}. Arguments trace {V W}.

Section State.
  Context {V W : Type}.
  Implicit Type s : Client V W.

(** Field updates. *)
Definition with_halted (until : N) s : Client V W :=
  mkClient until (credential s) (auth_header s) (credential_expires_at s) (rate_limit_warnings
    s) (repo_detail_cache s) (last_response_etags s) (not_modified_repos s) (deleted_team_slugs
    s) (auth_metadata s) (budget_checkpoints s) (world s) (trace s).
Definition with_credential (cred : GitHubCredential) (header : string) (expiry : N) s : Client V W :=
  mkClient (halted_until s) cred header expiry (rate_limit_warnings s) (repo_detail_cache s)
    (last_response_etags s) (not_modified_repos s) (deleted_team_slugs s) (auth_metadata s)
    (budget_checkpoints s) (world s) (trace s).
Definition with_warnings (n : N) s : Client V W :=
  mkClient (halted_until s) (credential s) (auth_header s) (credential_expires_at s) n
    (repo_detail_cache s) (last_response_etags s) (not_modified_repos s) (deleted_team_slugs s)
    (auth_metadata s) (budget_checkpoints s) (world s) (trace s).
Definition with_cache (cache : gmap string (CachedResult V)) s : Client V W :=
  mkClient (halted_until s) (credential s) (auth_header s) (credential_expires_at s)
    (rate_limit_warnings s) cache (last_response_etags s) (not_modified_repos s)
    (deleted_team_slugs s) (auth_metadata s) (budget_checkpoints s) (world s) (trace s).
Definition with_etags (etags : gmap string string) s : Client V W :=
  mkClient (halted_until s) (credential s) (auth_header s) (credential_expires_at s)
    (rate_limit_warnings s) (repo_detail_cache s) etags (not_modified_repos s)
    (deleted_team_slugs s) (auth_metadata s) (budget_checkpoints s) (world s) (trace s).
Definition with_not_modified (repos : gset string) s : Client V W :=
  mkClient (halted_until s) (credential s) (auth_header s) (credential_expires_at s)
    (rate_limit_warnings s) (repo_detail_cache s) (last_response_etags s) repos
    (deleted_team_slugs s) (auth_metadata s) (budget_checkpoints s) (world s) (trace s).
Definition with_deleted (slugs : gset string) s : Client V W :=
  mkClient (halted_until s) (credential s) (auth_header s) (credential_expires_at s)
    (rate_limit_warnings s) (repo_detail_cache s) (last_response_etags s) (not_modified_repos s)
    slugs (auth_metadata s) (budget_checkpoints s) (world s) (trace s).
Definition with_auth_metadata (meta : option AuthMetadata) s : Client V W :=
  mkClient (halted_until s) (credential s) (auth_header s) (credential_expires_at s)
    (rate_limit_warnings s) (repo_detail_cache s) (last_response_etags s) (not_modified_repos s)
    (deleted_team_slugs s) meta (budget_checkpoints s) (world s) (trace s).
Definition with_checkpoints (c : BudgetCheckpoints) s : Client V W :=
  mkClient (halted_until s) (credential s) (auth_header s) (credential_expires_at s)
    (rate_limit_warnings s) (repo_detail_cache s) (last_response_etags s) (not_modified_repos s)
    (deleted_team_slugs s) (auth_metadata s) c (world s) (trace s).
Definition with_world (w : W) s : Client V W :=
  mkClient (halted_until s) (credential s) (auth_header s) (credential_expires_at s)
    (rate_limit_warnings s) (repo_detail_cache s) (last_response_etags s) (not_modified_repos s)
    (deleted_team_slugs s) (auth_metadata s) (budget_checkpoints s) w (trace s).
Definition with_event (e : Event) s : Client V W :=
  mkClient (halted_until s) (credential s) (auth_header s) (credential_expires_at s)
    (rate_limit_warnings s) (repo_detail_cache s) (last_response_etags s) (not_modified_repos s)
    (deleted_team_slugs s) (auth_metadata s) (budget_checkpoints s) (world s) (trace s ++ [e]).

(** ** The monad: a panic, or a value and the state after it *)

Definition M (A : Type) : Type := Client V W -> option (A * Client V W).
#[global] Instance M_ret : MRet M := fun A a s => Some (a, s).
#[global] Instance M_bind : MBind M := fun A B f c s =>
  match c s with Some (a, s') => f a s' | None => None end.

Definition panic {A} : M A := fun _ => None.
Definition gets {A} (f : Client V W -> A) : M A := fun s => Some (f s, s).
Definition modify (f : Client V W -> Client V W) : M () := fun s => Some ((), f s).
(** A call to the environment. *)
Definition call {A} (f : W -> A * W) : M A := fun s =>
  let '(a, w) := f (world s) in Some (a, with_world w s).
Definition unwrap {A} (o : option A) : M A :=
  match o with Some a => mret a | None => panic end.
End State.
Arguments M : clear implicits.

(** ** Bodies *)

Inductive BodyReadError :=
| ContentLengthExceeded (len max_bytes : N)
| BodyLengthExceeded (max_bytes : N)
| ChunkError (e : string).

Definition BodyReadError_display (e : BodyReadError) : string :=
  match e with
  | ContentLengthExceeded len max_bytes =>
    "response Content-Length (" +:+ pretty len +:+ ") exceeds " +:+ pretty max_bytes
      +:+ " byte limit"
  | BodyLengthExceeded max_bytes =>
    "response body exceeds " +:+ pretty max_bytes +:+ " byte limit"
  | ChunkError e => "body read error: " +:+ e
  end.

Definition byte_len (s : string) : N := N.of_nat (String.length s).

Fixpoint read_chunks (max_bytes : N) (body : string) (chunks : list (result string string))
    : result BodyReadError string :=
  match chunks with
  | [] => Ok body
  | Err e :: _ => Err (ChunkError e)
  | Ok chunk :: chunks =>
    if max_bytes <? byte_len body + byte_len chunk then Err (BodyLengthExceeded max_bytes)
    else read_chunks max_bytes (body +:+ chunk) chunks
  end.

Definition read_body_bytes_limited (response : Response) (max_bytes : N)
    : result BodyReadError string :=
  match rs_content_length response with
  | Some len =>
    if max_bytes <? len then Err (ContentLengthExceeded len max_bytes)
    else read_chunks max_bytes EmptyString (rs_chunks response)
  | None => read_chunks max_bytes EmptyString (rs_chunks response)
  end.

(** [Utf8Error] of [l], from index [i]: the number of valid bytes, and the
    length of the invalid sequence unless the input ends within it. *)
Fixpoint utf8_error (i : N) (l : list N) : option (N * option N) :=
  match l with
  | [] => None
  | a :: l =>
    if in_range 0 127 a then utf8_error (i + 1) l
    else if in_range 194 223 a then
      match l with
      | [] => Some (i, None)
      | b :: l => if in_range 128 191 b then utf8_error (i + 2) l else Some (i, Some 1)
      end
    else if in_range 224 239 a then
      match l with
      | [] => Some (i, None)
      | b :: l =>
        let ok :=
          if a =? 224 then in_range 160 191 b
          else if a =? 237 then in_range 128 159 b else in_range 128 191 b in
        if negb ok then Some (i, Some 1)
        else
          match l with
          | [] => Some (i, None)
          | c :: l => if in_range 128 191 c then utf8_error (i + 3) l else Some (i, Some 2)
          end
      end
    else if in_range 240 244 a then
      match l with
      | [] => Some (i, None)
      | b :: l =>
        let ok :=
          if a =? 240 then in_range 144 191 b
          else if a =? 244 then in_range 128 143 b else in_range 128 191 b in
        if negb ok then Some (i, Some 1)
        else
          match l with
          | [] => Some (i, None)
          | c :: l =>
            if negb (in_range 128 191 c) then Some (i, Some 2)
            else
              match l with
              | [] => Some (i, None)
              | d :: l => if in_range 128 191 d then utf8_error (i + 4) l else Some (i, Some 3)
              end
          end
      end
    else Some (i, Some 1)
  end.

Definition Utf8Error_display (e : N * option N) : string :=
  match e with
  | (valid, Some len) =>
    "invalid utf-8 sequence of " +:+ pretty len +:+ " bytes from index " +:+ pretty valid
  | (valid, None) => "incomplete utf-8 byte sequence from index " +:+ pretty valid
  end.

(** [String::from_utf8], with its error's text. *)
Definition string_from_utf8 (bytes : string) : result string string :=
  match utf8_error 0 (to_bytes bytes) with
  | None => Ok bytes
  | Some e => Err (Utf8Error_display e)
  end.

Definition read_body_limited (response : Response) (max_bytes : N)
    : result GitHubApiError string :=
  let? bytes := map_err (fun e => InvalidResponse (BodyReadError_display e))
                  (read_body_bytes_limited response max_bytes) in
  map_err (fun e => InvalidResponse ("response body is not valid UTF-8: " +:+ e))
    (string_from_utf8 bytes).

(** [.unwrap_or_default()] on a body. *)
Definition body_or_default (r : result GitHubApiError string) : string :=
  match r with Ok body => body | Err _ => EmptyString end.

(** [response.status().is_success()]. *)
Definition is_success (response : Response) : bool :=
  (200 <=? rs_status response) && (rs_status response <? 300).

Definition OAUTH_HEADERS : list string :=
  ["x-oauth-scopes"; "x-accepted-oauth-scopes"; "x-oauth-client-id"].

Definition extract_oauth_headers (headers : Headers) : gmap string string :=
  fold_left (fun map key =>
      match headers key with Some s => <[key := s]> map | None => map end)
    OAUTH_HEADERS ∅.

Section Client.
  Context {V W : Type} `{!JsonValue V, !ClientEnv V W} (config : ClientConfig).
  Notation M := (M V W).
  Implicit Type s : Client V W.

(** ** Calls to the outside *)

Definition http_get (rq : HttpRequest) : M SendResult :=
  r ← call (send rq);
  modify (with_event (E_Get rq r));;
  mret r.

Definition http_post (url auth : string) : M SendResult :=
  r ← call (post url auth);
  modify (with_event (E_Post url r));;
  mret r.

Definition acquire : M bool :=
  granted ← call budget_acquire;
  modify (with_event (E_Acquire granted));;
  mret granted.

Definition refund : M () :=
  modify (fun s => with_event E_Refund (with_world (budget_refund (world s)) s)).

Definition sleep_for (nanos : N) : M () :=
  modify (fun s => with_event (E_Sleep nanos) (with_world (sleep nanos (world s)) s)).

(** ** Halts *)

Definition is_halted : M bool :=
  until ← gets halted_until;
  if until =? 0 then mret false
  else
    now ← call unix_now;
    mret (now <? until).

Definition reset_halt : M () := modify (with_halted 0).

Definition note_rate_limit_halt : M () :=
  reset ← gets (fun s => rl_load_reset (world s));
  halt_until ←
    match reset with
    | Some reset => mret reset
    | None => now ← call unix_now; mret (sat_add u64_max now 3600)
    end;
  modify (fun s => with_halted (N.max (halted_until s) halt_until) s).

(** Both clocks are read, where the code reads those it needs. *)
Definition record_secondary_limit_backoff (status : N) (headers : Headers) (body : string) : M () :=
  now ← call instant_now;
  system ← call system_now;
  resume ← unwrap (secondary_limit_resume_at instant_max now system parse_http_date
                     status headers body);
  match resume with
  | Some resume_at => modify (fun s => with_world (set_backoff resume_at (world s)) s)
  | None => mret ()
  end.

Definition http_failure_kind (status : N) (response : Response) : M RequestFailureKind :=
  let retryable := existsb (N.eqb status) [429; 500; 502; 503; 504] in
  let body := body_or_default (read_body_limited response MAX_RESPONSE_BODY_BYTES) in
  record_secondary_limit_backoff status (rs_headers response) body;;
  mret (RF_Http status (truncate_error_body body) retryable).

(** ** Credentials *)

Definition credential_needs_refresh : M bool :=
  exp ← gets credential_expires_at;
  if exp =? 0 then mret false
  else
    now ← call unix_now;
    deadline ← unwrap (checked_add u64_max now TOKEN_REFRESH_BUFFER);
    mret (exp <=? deadline).

Definition exchange_installation_token (app_config : GitHubAppConfig)
    : M (result GitHubApiError GitHubCredential) :=
  now ← call timestamp_now;
  jwt ← unwrap (generate_app_jwt parse_pem encode_jwt app_config now);
  match jwt with
  | Err e => mret (Err e)
  | Ok jwt =>
    if negb (header_value_ok ("Bearer " +:+ jwt)) then
      mret (Err (AuthenticationFailed "invalid JWT characters"))
    else
      let url := base_url config +:+ "/app/installations/"
        +:+ pretty (installation_id app_config) +:+ "/access_tokens" in
      sent ← http_post url ("Bearer " +:+ jwt);
      match sent with
      | SendFailed e _ =>
        mret (Err (AuthenticationFailed ("installation token exchange failed: " +:+ e)))
      | Sent response =>
        if negb (is_success response) then
          let body := body_or_default (read_body_limited response MAX_RESPONSE_BODY_BYTES) in
          mret (Err (AuthenticationFailed ("installation token exchange returned "
            +:+ pretty (rs_status response) +:+ ": " +:+ truncate_error_body body)))
        else
          mret (
            let? body := map_err
              (fun e => AuthenticationFailed ("failed to read installation token response: "
                 +:+ GitHubApiError_display e))
              (read_body_limited response MAX_RESPONSE_BODY_BYTES) in
            let? token_response := map_err
              (fun e => AuthenticationFailed ("invalid installation token response: " +:+ e))
              (parse_token_response body) in
            let? expires_at := map_err
              (fun e => AuthenticationFailed ("invalid expires_at in token response: " +:+ e))
              (parse_timestamp (snd token_response)) in
            Ok (from_installation_token (fst token_response) expires_at))
      end
  end.

Definition ensure_credential : M (result GitHubApiError ()) :=
  needed ← credential_needs_refresh;
  if negb needed then mret (Ok ())
  else
    (* behind the refresh lock *)
    needed ← credential_needs_refresh;
    if negb needed then mret (Ok ())
    else
      match app_config config with
      | None =>
        mret (Err (AuthenticationFailed
          "token expired but no GitHub App config available for refresh"))
      | Some app_config =>
        new_cred ← exchange_installation_token app_config;
        match new_cred with
        | Err e => mret (Err e)
        | Ok new_cred =>
          let auth_value := "Bearer " +:+ cred_token new_cred in
          if negb (header_value_ok auth_value) then
            mret (Err (AuthenticationFailed "invalid token characters"))
          else
            modify (with_credential new_cred auth_value (expires_at_unix new_cred));;
            mret (Ok ())
        end
      end.

(** ** One attempt *)

(** [BudgetCheckpoints::record], run to its end by one task: thirty-five steps
    are enough ([Budget.record_wait_free]). *)
Definition record_checkpoint (route : Route) (total ceiling : N) (c : BudgetCheckpoints)
    : BudgetCheckpoints :=
  shared (run (replicate 35 0%nat) (mkSystem [(mkRecordCall route total ceiling, P_Add)] c)).

Definition record_request_attempt (target : string) : M () :=
  modify (fun s =>
    with_checkpoints
      (record_checkpoint (route_of_target target) (budget_total_calls_made (V := V) (world s))
         (budget_epoch_limit (V := V) (world s)) (budget_checkpoints s)) s).

Definition observe_headers (headers : Headers) : M () :=
  modify (fun s => with_world (rl_observe (update_from_headers headers) (world s)) s).

Definition record_etag (path : string) (etag : option string) : M () :=
  match etag with
  | Some etag => modify (fun s => with_etags (<[path := etag]> (last_response_etags s)) s)
  | None => mret ()
  end.

Definition parse_single_body (path : string) (status : N) (body_bytes : string)
    (response_etag : option string) (extracted_headers : option (gmap string string))
    : M (AttemptResult V) :=
  match string_from_utf8 body_bytes with
  | Err e =>
    mret (AttemptFailure (RF_MalformedPayload status MP_InvalidUtf8
      ("response body is not valid UTF-8: " +:+ e)))
  | Ok body =>
    if is_empty (trim body) then
      record_etag path response_etag;;
      mret (AttemptSuccess status None extracted_headers false)
    else
      match parse_json body with
      | Ok data =>
        record_etag path response_etag;;
        mret (AttemptSuccess status (Some data) extracted_headers false)
      | Err e =>
        mret (AttemptFailure (RF_MalformedPayload status MP_InvalidJson ("invalid json: " +:+ e)))
      end
  end.

(** A [GET] with the client's header; [If-None-Match] for a revalidation. *)
Definition get_request (url : string) (if_none_match : option string) (timeout_secs : N)
    : M SendResult :=
  auth ← gets auth_header;
  http_get (mkHttpRequest url auth if_none_match timeout_secs).

Definition request_single_inner (path : string) (timeout_secs : N) (capture_headers : bool)
    : M (AttemptResult V) :=
  sent ← get_request (base_url config +:+ path) None timeout_secs;
  record_request_attempt path;;
  match sent with
  | SendFailed error timeout => mret (AttemptFailure (RF_Transport error timeout))
  | Sent response =>
    observe_headers (rs_headers response);;
    let status := rs_status response in
    let response_etag := rs_headers response "etag" in
    let extracted_headers :=
      if capture_headers then Some (extract_oauth_headers (rs_headers response)) else None in
    if negb (is_success response) then
      failure ← http_failure_kind status response;
      mret (AttemptFailure failure)
    else
      match read_body_bytes_limited response MAX_RESPONSE_BODY_BYTES with
      | Err e => mret (AttemptFailure (RF_BodyRead (Some status) (BodyReadError_display e)))
      | Ok body_bytes =>
        parse_single_body path status body_bytes response_etag extracted_headers
      end
  end.

Definition request_single (path : string) (timeout_secs : N) : M (AttemptResult V) :=
  request_single_inner path timeout_secs false.

Definition request_single_with_headers (path : string) (timeout_secs : N) : M (ApiOutcome V) :=
  result ← request_single_inner path timeout_secs true;
  mret (attempt_into_api_outcome result).
(** ** Pages *)

(** [parse_paginated_page_body]: whether the items were cut, and all items. *)
Definition parse_paginated_page_body (status : N) (body_bytes : string) (all_items : list V)
    : result RequestFailureKind (bool * list V) :=
  match string_from_utf8 body_bytes with
  | Err e =>
    Err (RF_MalformedPayload status MP_InvalidUtf8
      ("malformed paginated response: invalid UTF-8: " +:+ e))
  | Ok body =>
    if is_empty (trim body) then
      Err (RF_MalformedPayload status MP_EmptyBody "malformed paginated response: empty body")
    else
      match parse_json body with
      | Err e => Err (RF_MalformedPayload status MP_InvalidJson ("invalid json: " +:+ e))
      | Ok value =>
        match as_array value with
        | None =>
          Err (RF_MalformedPayload status MP_NotAnArray
            "malformed paginated response: expected array")
        | Some items =>
          let remaining := sat_sub MAX_PAGINATED_ITEMS (N.of_nat (length all_items)) in
          if remaining <? N.of_nat (length items)
          then Ok (true, all_items ++ take (N.to_nat remaining) items)
          else Ok (false, all_items ++ items)
        end
      end
  end.

Definition send_paginated_request (url : string) (timeout_secs : N)
    : M (result RequestFailureKind Response) :=
  sent ← get_request url None timeout_secs;
  record_request_attempt url;;
  match sent with
  | Sent response => mret (Ok response)
  | SendFailed error timeout => mret (Err (RF_Transport error timeout))
  end.

(** The result after the loop. *)
Definition paginated (all_items : list V) (truncated : bool) : AttemptResult V :=
  AttemptSuccess 200 (Some (mk_array all_items)) None truncated.

(** The loop over pages, [pages_left] of which may still be requested: page number
    [page_count] exceeds [MAX_PAGINATION_PAGES] when none is left. *)
Fixpoint pages_loop (pages_left : nat) (page_count : N) (url : string) (timeout_secs : N)
    (all_items : list V) : M (AttemptResult V) :=
  match pages_left with
  | O => mret (paginated all_items true)
  | S pages_left =>
    halted ← is_halted;
    if (halted : bool) then mret (paginated all_items true)
    else
      granted ← if 1 <? page_count then acquire else mret true;
      if negb granted then mret (paginated all_items true)
      else
        sent ← send_paginated_request url timeout_secs;
        match sent with
        | Err failure => mret (AttemptFailure failure)
        | Ok response =>
          observe_headers (rs_headers response);;
          let status := rs_status response in
          if negb (is_success response) then
            failure ← http_failure_kind status response;
            mret (AttemptFailure failure)
          else
            let continuation :=
              trusted_continuation parse_url (rs_links response) (trusted_origin config) in
            match read_body_bytes_limited response MAX_RESPONSE_BODY_BYTES with
            | Err e =>
              mret (AttemptFailure (RF_BodyRead (Some status) (BodyReadError_display e)))
            | Ok body_bytes =>
              match parse_paginated_page_body status body_bytes all_items with
              | Err failure => mret (AttemptFailure failure)
              | Ok (true, all_items) => mret (paginated all_items true)
              | Ok (false, all_items) =>
                match continuation with
                | Follow url => pages_loop pages_left (page_count + 1) url timeout_secs all_items
                | Exhausted => mret (paginated all_items false)
                | Refused | Uninterpretable => mret (paginated all_items true)
                end
              end
            end
        end
  end.

Definition request_paginated (path : string) (timeout_secs : N) : M (AttemptResult V) :=
  pages_loop (N.to_nat MAX_PAGINATION_PAGES) 1 (base_url config +:+ path) timeout_secs [].

(** ** Retries *)

(** [backoff_delay], in nanoseconds; overflow panics. *)
Definition backoff_delay (attempt : N) : M N :=
  resume ← gets (fun s => resume_at (world s));
  match resume with
  | Some resume_at =>
    now ← call instant_now;
    mret (sat_sub resume_at now)
  | None =>
    let base_ms := 1000 * 2 ^ attempt in
    if u64_max <? base_ms then panic
    else
      jitter_ms ← call (random_below base_ms);
      ms ← unwrap (checked_add u64_max base_ms jitter_ms);
      mret (ms * 1000000)
  end.

Definition count_429 (status : option N) : M () :=
  if bool_decide (status = Some 429)
  then modify (fun s => with_warnings ((rate_limit_warnings s + 1) mod 2 ^ 32) s)
  else mret ().

(** The body of the loop for [attempt]: the run it ends with, or whether a
    stale token has been retried when it continues. *)
Definition attempt_body (path : string) (paginate : bool) (timeout_secs attempts : N)
    (attempt : N) (stale_token_retried : bool) : M (RequestRun V + bool) :=
  attempt_result ←
    if paginate then request_paginated path timeout_secs else request_single path timeout_secs;
  halt_triggered ← gets (fun s => rl_should_halt (world s));
  if (halt_triggered : bool) then
    note_rate_limit_halt;;
    mret (inl (from_attempt attempt_result attempt true))
  else
    let status := attempt_status_code attempt_result in
    if bool_decide (status = Some 401) && negb stale_token_retried && (attempt <? attempts - 1)
    then
      refreshed ← ensure_credential;
      match refreshed with
      | Err e =>
        mret (inl (from_attempt
          (AttemptFailure (RF_CredentialRefreshFailed (GitHubApiError_display e))) attempt false))
      | Ok _ => mret (inr true)
      end
    else if attempt_is_retryable attempt_result && (attempt <? attempts - 1) then
      count_429 status;;
      backoff ← backoff_delay attempt;
      sleep_for backoff;;
      mret (inr stale_token_retried)
    else mret (inl (from_attempt attempt_result attempt false)).

Fixpoint attempts_loop (path : string) (paginate : bool) (timeout_secs attempts : N)
    (after_loop : RequestRun V) (range : list N) (stale_token_retried : bool)
    : M (RequestRun V) :=
  match range with
  | [] => mret after_loop
  | attempt :: range =>
    r ← attempt_body path paginate timeout_secs attempts attempt stale_token_retried;
    match r with
    | inl run => mret run
    | inr stale_token_retried =>
      attempts_loop path paginate timeout_secs attempts after_loop range stale_token_retried
    end
  end.

Definition unauthorized_run (attempts : N) : RequestRun V :=
  from_attempt (AttemptFailure (RF_Http 401 "unauthorized" false)) (sat_sub attempts 1) false.

Definition request_inner (path : string) (paginate : bool) (retries timeout_secs : N)
    : M (RequestRun V) :=
  halted ← is_halted;
  if (halted : bool) then mret (never_dispatched PD_HaltedBeforeDispatch)
  else
    ready ← ensure_credential;
    match ready with
    | Err e => mret (never_dispatched (PD_CredentialRefreshFailed (GitHubApiError_display e)))
    | Ok _ =>
      granted ← acquire;
      if negb granted then mret (never_dispatched PD_BudgetAcquireCancelled)
      else
        attempts ← unwrap (checked_add u32_max retries 1);
        attempts_loop path paginate timeout_secs attempts (unauthorized_run attempts)
          (map N.of_nat (List.seq 0 (N.to_nat attempts))) false
    end.

(** The rest of [request_run] logs. *)
Definition request_run : string -> bool -> N -> N -> M (RequestRun V) := request_inner.

Definition request (path : string) (paginate : bool) (retries timeout_secs : N)
    : M (ApiOutcome V) :=
  r ← request_run path paginate retries timeout_secs;
  mret (run_outcome r).
(** ** Repository details *)

Definition cache_insert (repo_name : string) (r : CachedResult V) : M () :=
  modify (fun s => with_cache (<[repo_name := r]> (repo_detail_cache s)) s).

Definition cache_revalidated_response (repo_name : string) (status : N)
    (new_etag : option string) (body : string) : M (option (ApiOutcome V)) :=
  if is_empty (trim body) then
    cache_insert repo_name (mkCachedResult status None new_etag false);;
    mret (Some (Success status None None false))
  else
    match parse_json body with
    | Ok data =>
      cache_insert repo_name (mkCachedResult status (Some data) new_etag false);;
      cached ← gets (fun s => repo_detail_cache s !! repo_name);
      mret (option_map
        (fun cached => Success (cr_status_code cached) (cr_data cached) None false) cached)
    | Err _ => mret None
    end.

Definition try_etag_revalidation (repo_name path : string) (etag : option string)
    (cached_data : option V) (cached_status : N) : M (option (ApiOutcome V)) :=
  match etag with
  | None => mret None
  | Some etag_value =>
    ready ← ensure_credential;
    match ready with
    | Err _ => mret None
    | Ok _ =>
      halted ← is_halted;
      if (halted : bool) then mret None
      else
        granted ← acquire;
        if negb granted then mret None
        else
          sent ← get_request (base_url config +:+ path) (Some etag_value)
                   DEFAULT_REQUEST_TIMEOUT_SECS;
          match sent with
          | SendFailed _ _ => mret None
          | Sent response =>
            observe_headers (rs_headers response);;
            let status := rs_status response in
            let new_etag := rs_headers response "etag" in
            if status =? 304 then
              refund;;
              modify (fun s => with_not_modified ({[repo_name]} ∪ not_modified_repos s) s);;
              cache_insert repo_name
                (mkCachedResult cached_status cached_data
                   match new_etag with Some e => Some e | None => etag end false);;
              mret (Some (Success cached_status cached_data None false))
            else if negb (is_success response) then mret None
            else
              match read_body_limited response MAX_RESPONSE_BODY_BYTES with
              | Err _ => mret None
              | Ok body => cache_revalidated_response repo_name status new_etag body
              end
          end
    end
  end.

(** The full request, whose success is cached. *)
Definition fetch_details (repo_name path : string) : M (ApiOutcome V) :=
  result ← request path false DEFAULT_MAX_RETRIES DEFAULT_REQUEST_TIMEOUT_SECS;
  response_etag ← gets (fun s => last_response_etags s !! path);
  modify (fun s => with_etags (delete path (last_response_etags s)) s);;
  match result with
  | Success status_code data _ _ =>
    cache_insert repo_name (mkCachedResult status_code data response_etag false);;
    mret result
  | Failure _ _ _ => mret result
  end.

Definition repo_details (repo_name : string) : M (ApiOutcome V) :=
  match sanitize_path_segment repo_name "repo_name" with
  | Err e => mret (outcome_failure None ("invalid repo name: " +:+ e) false)
  | Ok safe_name =>
    let path := "/repos/" +:+ org_name config +:+ "/" +:+ safe_name in
    cache_hit ← gets (fun s => repo_detail_cache s !! repo_name);
    match cache_hit with
    | Some cached =>
      if cr_stale cached then
        outcome ← try_etag_revalidation repo_name path (cr_etag cached) (cr_data cached)
                    (cr_status_code cached);
        match outcome with
        | Some outcome => mret outcome
        | None => fetch_details repo_name path
        end
      else mret (Success (cr_status_code cached) (cr_data cached) None false)
    | None => fetch_details repo_name path
    end
  end.

Definition take_not_modified (repo_name : string) : M bool :=
  marked ← gets (fun s => bool_decide (repo_name ∈ not_modified_repos s));
  modify (fun s => with_not_modified (not_modified_repos s ∖ {[repo_name]}) s);;
  mret marked.

Definition is_known_deleted_team (team_slug : string) : M bool :=
  gets (fun s => bool_decide (team_slug ∈ deleted_team_slugs s)).

(** Whether the insertion was the first. *)
Definition record_deleted_team (team_slug : string) : M bool :=
  known ← gets (fun s => bool_decide (team_slug ∈ deleted_team_slugs s));
  modify (fun s => with_deleted ({[team_slug]} ∪ deleted_team_slugs s) s);;
  mret (negb known).

(** ** The cache across runs *)

(** [domain::cache::CachedRepoDetail]. *)
Record CachedRepoDetail := mkCachedRepoDetail {
  cd_default_branch : string;
  cd_updated_at : option string;
  cd_security_and_analysis : option V;
  cd_is_security_policy_enabled : option bool;
  cd_fetched_at : Timestamp;
  cd_etag : option string;
}.

Definition clear_run_cache : M () :=
  modify (fun s =>
    with_warnings 0
      (with_checkpoints (for_run (budget_total_calls_made (V := V) (world s)))
        (with_etags ∅ (with_cache ∅ s)))).

(** [unwrap_or(default)]. *)
Definition or_else {A} (default : A) (o : option A) : A :=
  match o with Some a => a | None => default end.

Definition export_entry (now : Timestamp) (cached : CachedResult V) : option CachedRepoDetail :=
  data ← cr_data cached;
  Some (mkCachedRepoDetail
    (or_else "main" (get_str "default_branch" data)) (get_str "updated_at" data)
    (get "security_and_analysis" data) (get_bool "is_security_policy_enabled" data) now
    (cr_etag cached)).

(** The order of the entries is the map's. *)
Definition export_cache : M (list (string * CachedRepoDetail)) :=
  now ← call timestamp_now;
  gets (fun s => omap
    (fun kc => detail ← export_entry now (snd kc); Some (fst kc, detail))
    (map_to_list (repo_detail_cache s))).

Definition detail_object (detail : CachedRepoDetail) : V :=
  mk_object
    (("default_branch", mk_string (cd_default_branch detail))
     :: match cd_updated_at detail with Some ua => [("updated_at", mk_string ua)] | None => [] end
     ++ match cd_security_and_analysis detail with
        | Some sa => [("security_and_analysis", sa)]
        | None => []
        end
     ++ match cd_is_security_policy_enabled detail with
        | Some enabled => [("is_security_policy_enabled", mk_bool enabled)]
        | None => []
        end).

(** [SignedDuration::from_hours(24)]. *)
Definition CACHE_TTL : Z := Z.of_N REPO_CACHE_TTL_HOURS * 3600 * NANOS.

Definition seed_entry (cutoff : Timestamp) (cache : gmap string (CachedResult V))
    (entry : string * CachedRepoDetail) : gmap string (CachedResult V) :=
  let '(key, detail) := entry in
  if (cd_fetched_at detail <? cutoff)%Z then cache
  else <[key := mkCachedResult 200 (Some (detail_object detail)) (cd_etag detail) false]> cache.

Definition seed_cache (entries : list (string * CachedRepoDetail)) : M () :=
  now ← call timestamp_now;
  modify (fun s =>
    with_cache (fold_left (seed_entry (now - CACHE_TTL)%Z) entries (repo_detail_cache s)) s).

Definition entry_is_stale (cached : CachedResult V) (current_updated_at : option string) : bool :=
  match cr_data cached ≫= get_str "updated_at", current_updated_at with
  | Some c, Some cur => negb (String.eqb c cur)
  | _, _ => false
  end.

Definition evict_entry (cache : gmap string (CachedResult V)) (repo : string * option string)
    : gmap string (CachedResult V) :=
  let '(name, current_updated_at) := repo in
  match cache !! name with
  | Some cached =>
    if entry_is_stale cached current_updated_at then
      <[name := mkCachedResult (cr_status_code cached) (cr_data cached) (cr_etag cached) true]>
        cache
    else cache
  | None => cache
  end.

Definition evict_stale_entries (repos : list (string * option string)) : M () :=
  modify (fun s => with_cache (fold_left evict_entry repos (repo_detail_cache s)) s).

(** ** Startup *)

Definition store_auth_metadata (meta : AuthMetadata) : M AuthMetadata :=
  modify (with_auth_metadata (Some meta));;
  mret meta.

Definition collect_auth_metadata : M AuthMetadata :=
  cred_mode ← gets (fun s => cred_mode (credential s));
  if bool_decide (cred_mode = AM_GitHubApp) then store_auth_metadata for_github_app
  else
    result ← request_single_with_headers "/user" 15;
    store_auth_metadata
      match outcome_headers result with
      | Some headers =>
        match headers !! "x-oauth-scopes" with
        | Some scopes_header => from_scopes (parse_oauth_scopes scopes_header) cred_mode
        | None => mkAuthMetadata TT_Unknown "not-available" cred_mode
        end
      | None => AuthMetadata_default
      end.

Definition first_repo_field (key : string) (data : option V) : option string :=
  v ← data; items ← as_array v; first ← head items; get_str key first.

Definition probe_endpoint (path : string) : M CapabilityStatus :=
  result ← request_single path DEFAULT_REQUEST_TIMEOUT_SECS;
  mret (classify_capability_probe (attempt_into_api_outcome result)).

Definition probe_capabilities : M CapabilitySet :=
  result ← request_single ("/orgs/" +:+ org_name config +:+ "/repos?per_page=1")
             DEFAULT_REQUEST_TIMEOUT_SECS;
  let repos_list_probe := attempt_into_api_outcome result in
  let sample field name :=
    first_repo_field field (outcome_data repos_list_probe)
      ≫= (fun v => ok (sanitize_path_segment v name)) in
  org_secret_scanning_alerts ←
    probe_endpoint ("/orgs/" +:+ org_name config +:+ "/secret-scanning/alerts?per_page=1&state=open");
  private_branch_protection_read ←
    match sample "name" "repo_name", sample "default_branch" "branch_name" with
    | Some repo, Some branch =>
      probe_endpoint ("/repos/" +:+ org_name config +:+ "/" +:+ repo +:+ "/branches/"
        +:+ branch +:+ "/protection")
    | _, _ => mret CS_NotProbed
    end;
  mret (mkCapabilitySet (classify_capability_probe repos_list_probe)
          org_secret_scanning_alerts private_branch_protection_read).
End Client.
Arguments CachedRepoDetail V : clear implicits.

(** ** Construction *)

Section New.
  Context {V W : Type} `{!ClientEnv V W} (debug_assertions : bool).

Definition validate_api_base_url (url_str : string) : result GitHubApiError string :=
  match parse_url url_str with
  | None =>
    Err (ClientConfigError ("invalid API base URL '" +:+ url_str +:+ "': " +:+ url_error url_str))
  | Some (scheme, host, _) =>
    if negb (String.eqb scheme "https") && negb (String.eqb scheme "http") then
      Err (ClientConfigError
        ("API base URL must use https (or http for local development), got: " +:+ scheme))
    else if negb debug_assertions && String.eqb scheme "http" then
      Err (ClientConfigError "API base URL must use https in release builds")
    else
      match host with
      | None => Err (ClientConfigError "API base URL must include a host")
      | Some _ => Ok (trim_end_matches (Ascii.eqb "/") url_str)
      end
  end.

(** [GitHubClient::new]; [http] is the result of building the HTTP client. *)
Definition client_new (credential : GitHubCredential) (base_url org_name : string)
    (app_config : option GitHubAppConfig) (http : result GitHubApiError ()) (w : W)
    : result GitHubApiError (ClientConfig * Client V W) :=
  let? validated_url := validate_api_base_url base_url in
  let? trusted_origin :=
    match extract_origin parse_url validated_url with
    | Some o => Ok o
    | None =>
      Err (ClientConfigError ("cannot extract origin from API base URL: " +:+ validated_url))
    end in
  let? validated_org :=
    map_err (fun e => ClientConfigError ("invalid organization name: " +:+ e))
      (sanitize_path_segment org_name "org_name") in
  let? _ := http in
  let auth_value := "Bearer " +:+ cred_token credential in
  if negb (header_value_ok auth_value) then Err (AuthenticationFailed "invalid token characters")
  else
    Ok (mkClientConfig validated_url trusted_origin validated_org app_config,
        mkClient 0 credential auth_value (expires_at_unix credential) 0 ∅ ∅ ∅ ∅ None
          (for_run (budget_total_calls_made (V := V) w)) w []).
End New.
