(* ===== verification/ClientRequests.v ===== *)
(** * What the client's requests do ([github/client.rs])

    A logic for the client's monad, over the events the outside sees, and with
    it the bounds on what a request costs, where it goes, and what a listing
    holds. *)

From S2P Require Import Prelude Str Json Request Pagination Routes Budget RateLimit Run Auth.
From S2P Require Import Client.

Open Scope N_scope.

(** ** A logic for the monad

    [effect Q c]: when [c] returns [a], what it did to the outside are events
    that satisfy [Q a].  [preserves I c]: [c] keeps [I]. *)

Section Logic.
  Context {V W : Type}.
  Notation M := (M V W).
  Implicit Type s : Client V W.

Definition effect {A} (Q : A -> list Event -> Prop) (c : M A) : Prop :=
  forall s a s', c s = Some (a, s') -> exists es, trace s' = trace s ++ es /\ Q a es.

(** Nothing the outside sees. *)
Definition quiet {A} (c : M A) : Prop := effect (fun _ es => es = []) c.

Definition preserves {A} (I : Client V W -> Prop) (c : M A) : Prop :=
  forall s a s', I s -> c s = Some (a, s') -> I s'.

Lemma bind_Some {A B} (c : M A) (f : A -> M B) s b s' :
  (c ≫= f) s = Some (b, s') <-> exists a s1, c s = Some (a, s1) /\ f a s1 = Some (b, s').
Proof.
  unfold mbind, M_bind. split.
  - destruct (c s) as [[a s1]|]; [|done]. eauto.
  - by intros (a & s1 & -> & ?).
Qed.

Lemma effect_weaken {A} (Q R : A -> list Event -> Prop) (c : M A) :
  effect Q c -> (forall a es, Q a es -> R a es) -> effect R c.
Proof. intros H HQ s a s' E. destruct (H _ _ _ E) as (es & ? & ?). eauto. Qed.

Lemma effect_ret {A} (Q : A -> list Event -> Prop) a : Q a [] -> effect Q (mret a : M A).
Proof. intros H s a' s' [= <- <-]. exists []. by rewrite app_nil_r. Qed.

Lemma effect_bind {A B} (R : A -> list Event -> Prop) (Q : B -> list Event -> Prop)
    (c : M A) (f : A -> M B) :
  effect R c ->
  (forall a, effect (fun b es' => forall es, R a es -> Q b (es ++ es')) (f a)) ->
  effect Q (c ≫= f).
Proof.
  intros Hc Hf s b s' E. apply bind_Some in E as (a & s1 & E1 & E2).
  destruct (Hc _ _ _ E1) as (es1 & T1 & H1). destruct (Hf a _ _ _ E2) as (es2 & T2 & H2).
  exists (es1 ++ es2). rewrite T2 T1 app_assoc. auto.
Qed.

Lemma effect_bind_quiet {A B} (Q : B -> list Event -> Prop) (c : M A) (f : A -> M B) :
  quiet c -> (forall a, effect Q (f a)) -> effect Q (c ≫= f).
Proof.
  intros Hc Hf. apply (effect_bind (fun _ es => es = [])); [done|]. intros a.
  apply (effect_weaken (Q)); [apply Hf|]. by intros b es ? ? ->.
Qed.

Lemma quiet_bind {A B} (c : M A) (f : A -> M B) :
  quiet c -> (forall a, quiet (f a)) -> quiet (c ≫= f).
Proof. apply effect_bind_quiet. Qed.

Lemma quiet_gets {A} (f : Client V W -> A) : quiet (gets f).
Proof. intros s a s' [= <- <-]. exists []. by rewrite app_nil_r. Qed.

Lemma quiet_modify f : (forall s, trace (f s) = trace s) -> quiet (modify f).
Proof. intros H s a s' [= <- <-]. exists []. by rewrite app_nil_r. Qed.

Lemma quiet_call {A} (f : W -> A * W) : quiet (call f).
Proof.
  intros s a s'. unfold call. destruct (f (world s)) as [x w]. intros [= <- <-].
  exists []. by rewrite app_nil_r.
Qed.

Lemma quiet_unwrap {A} (o : option A) : quiet (unwrap o).
Proof. destruct o; [by apply effect_ret|done]. Qed.

Lemma effect_bind_unwrap {A B} (Q : B -> list Event -> Prop) (o : option A) (f : A -> M B) :
  (forall a, o = Some a -> effect Q (f a)) -> effect Q (unwrap o ≫= f).
Proof. intros H s b s'. destruct o as [a|]; [|done]. by apply H. Qed.

Lemma preserves_ret {A} I (a : A) : preserves I (mret a).
Proof. by intros s a' s' H [= <- <-]. Qed.

Lemma preserves_bind {A B} I (c : M A) (f : A -> M B) :
  preserves I c -> (forall a, preserves I (f a)) -> preserves I (c ≫= f).
Proof. intros Hc Hf s b s' H (a & s1 & E1 & E2)%bind_Some. eapply Hf; [|done]. by eapply Hc. Qed.

Lemma preserves_gets {A} I (f : Client V W -> A) : preserves I (gets f).
Proof. by intros s a s' H [= <- <-]. Qed.

Lemma preserves_modify I f : (forall s, I s -> I (f s)) -> preserves I (modify f).
Proof. intros H s a s' HI [= <- <-]. auto. Qed.

Lemma preserves_call {A} (I : Client V W -> Prop) (f : W -> A * W) :
  (forall s w, I s -> I (with_world w s)) -> preserves I (call f).
Proof. intros H s a s' HI. unfold call. destruct (f (world s)). intros [= <- <-]. auto. Qed.

Lemma preserves_unwrap {A} I (o : option A) : preserves I (unwrap o).
Proof. destruct o; [apply preserves_ret|done]. Qed.

Lemma preserves_panic {A} I : preserves I (panic : M A).
Proof. done. Qed.

Lemma quiet_panic {A} : quiet (panic : M A).
Proof. done. Qed.
End Logic.

Create HintDb client.
#[export] Hint Resolve quiet_gets quiet_call quiet_unwrap quiet_panic : client.
#[export] Hint Resolve preserves_gets preserves_unwrap preserves_panic preserves_ret : client.
#[export] Hint Extern 1 (quiet (mret _)) => by apply effect_ret : client.
#[export] Hint Extern 1 (quiet (modify _)) => by apply quiet_modify : client.

(** Walks through a computation that does nothing to the outside. *)
Ltac quiet_step :=
  first
  [ solve [eauto with client nocore]
  | match goal with
    | |- quiet (if ?b then _ else _) => destruct b
    | |- quiet (match ?x with _ => _ end) => destruct x
    | |- quiet (_ ≫= _) => apply quiet_bind; [|intros ?]
    end ].

Section Quiet.
  Context {V W : Type} `{!JsonValue V, !ClientEnv V W} (config : ClientConfig).
  Notation M := (M V W).


Lemma quiet_is_halted : quiet (is_halted : M bool).
Proof. unfold is_halted. repeat quiet_step. Qed.
Lemma quiet_note_rate_limit_halt : quiet (note_rate_limit_halt : M ()).
Proof. unfold note_rate_limit_halt. repeat quiet_step. Qed.
Lemma quiet_record_secondary status headers body :
  quiet (record_secondary_limit_backoff status headers body : M ()).
Proof. unfold record_secondary_limit_backoff. repeat quiet_step. Qed.
Lemma quiet_credential_needs_refresh : quiet (credential_needs_refresh : M bool).
Proof. unfold credential_needs_refresh. repeat quiet_step. Qed.
Lemma quiet_record_request_attempt target : quiet (record_request_attempt target : M ()).
Proof. unfold record_request_attempt. repeat quiet_step. Qed.
Lemma quiet_observe_headers headers : quiet (observe_headers headers : M ()).
Proof. unfold observe_headers. repeat quiet_step. Qed.
Lemma quiet_record_etag path etag : quiet (record_etag path etag : M ()).
Proof. unfold record_etag. repeat quiet_step. Qed.
Lemma quiet_count_429 status : quiet (count_429 status : M ()).
Proof. unfold count_429. repeat quiet_step. Qed.
Lemma quiet_backoff_delay attempt : quiet (backoff_delay attempt : M N).
Proof. unfold backoff_delay. repeat quiet_step. Qed.
Lemma quiet_http_failure_kind status response : quiet (http_failure_kind status response : M _).
Proof. unfold http_failure_kind. apply quiet_bind; [apply quiet_record_secondary|]. intros. repeat quiet_step. Qed.
Lemma quiet_cache_insert name r : quiet (cache_insert name r : M ()).
Proof. unfold cache_insert. repeat quiet_step. Qed.
End Quiet.
#[export] Hint Resolve quiet_is_halted quiet_note_rate_limit_halt quiet_record_secondary
  quiet_credential_needs_refresh quiet_record_request_attempt quiet_observe_headers
  quiet_record_etag quiet_count_429 quiet_backoff_delay quiet_http_failure_kind
  quiet_cache_insert : client.

(** ** What requests do to the outside *)

Definition is_get (e : Event) : bool := match e with E_Get _ _ => true | _ => false end.
Definition is_post (e : Event) : bool := match e with E_Post _ _ => true | _ => false end.
Definition is_grant (e : Event) : bool := match e with E_Acquire true => true | _ => false end.

Definition count (p : Event -> bool) (es : list Event) : nat := length (List.filter p es).

Lemma count_app p es es' : count p (es ++ es') = (count p es + count p es')%nat.
Proof. unfold count. by rewrite List.filter_app length_app. Qed.

Section Effects.
  Context {V W : Type} `{!JsonValue V, !ClientEnv V W} (config : ClientConfig).
  Notation M := (M V W).

(** Where a token is exchanged. *)
Definition token_url (url : string) : Prop :=
  exists app, app_config config = Some app /\
    url = base_url config +:+ "/app/installations/" +:+ pretty (installation_id app)
            +:+ "/access_tokens".

(** At most one token exchange. *)
Definition refreshing (es : list Event) : Prop :=
  es = [] \/ exists url r, token_url url /\ es = [E_Post url r].

Lemma effect_get_request url inm t :
  effect (fun r es => exists auth, es = [E_Get (mkHttpRequest url auth inm t) r])
    (get_request url inm t : M SendResult).
Proof.
  unfold get_request, http_get. apply effect_bind_quiet; [apply quiet_gets|]. intros auth.
  apply effect_bind_quiet; [apply quiet_call|]. intros r s a s' E.
  apply bind_Some in E as (u & s1 & [= <- <-] & [= <- <-]). simpl. eauto.
Qed.

Lemma effect_acquire : effect (fun g es => es = [E_Acquire g]) (acquire : M bool).
Proof.
  unfold acquire. apply effect_bind_quiet; [apply quiet_call|]. intros g s a s' E.
  apply bind_Some in E as (u & s1 & [= <- <-] & [= <- <-]). simpl. eauto.
Qed.

Lemma effect_sleep n : effect (fun _ es => es = [E_Sleep n]) (sleep_for n : M ()).
Proof. intros s a s' [= <- <-]. by eexists. Qed.

Lemma effect_refund : effect (fun _ es => es = [E_Refund]) (refund : M ()).
Proof. intros s a s' [= <- <-]. by eexists. Qed.

Lemma effect_exchange app : app_config config = Some app ->
  effect (fun _ es => refreshing es) (exchange_installation_token config app : M _).
Proof.
  intros Ha. unfold exchange_installation_token.
  apply effect_bind_quiet; [apply quiet_call|]. intros now.
  apply effect_bind_quiet; [apply quiet_unwrap|]. intros [jwt|e]; [|apply effect_ret; by left].
  destruct (negb _); [apply effect_ret; by left|]. unfold http_post.
  apply (effect_bind (fun r es => exists url, token_url url /\ es = [E_Post url r])).
  { apply effect_bind_quiet; [apply quiet_call|]. intros r s a s' E.
    apply bind_Some in E as (u & s1 & [= <- <-] & [= <- <-]). simpl. eexists. split; [done|].
    eexists. split; [|done]. exists app. by split. }
  intros sent.
  assert (forall x : result GitHubApiError GitHubCredential,
    effect (fun _ es' => forall es, (exists url, token_url url /\ es = [E_Post url sent]) ->
      refreshing (es ++ es')) (mret x : M _)) as Hret.
  { intros x. apply effect_ret. intros es (url & Hu & ->). right. eauto. }
  destruct sent; [|apply Hret]. destruct (negb _); apply Hret.
Qed.

Lemma effect_ensure_credential :
  effect (fun _ es => refreshing es) (ensure_credential config : M _).
Proof.
  assert (forall x : result GitHubApiError (), effect (fun _ es => refreshing es) (mret x : M _))
    as Hret by (intros x; apply effect_ret; by left).
  unfold ensure_credential. apply effect_bind_quiet; [eauto with client|]. intros [|]; [|apply Hret].
  apply effect_bind_quiet; [eauto with client|]. intros [|]; [|apply Hret]. simpl.
  destruct (app_config config) as [app|] eqn:Ea; [|apply Hret].
  apply (effect_bind (fun _ => refreshing)); [by apply effect_exchange|]. intros [cred|e].
  2: { apply effect_ret. intros es ?. by rewrite app_nil_r. }
  destruct (negb _); [apply effect_ret; intros es ?; by rewrite app_nil_r|].
  apply effect_bind_quiet; [by apply quiet_modify|]. intros _. apply effect_ret.
  intros es ?. by rewrite app_nil_r.
Qed.

(** The result of one request: whole, from a status of success. *)
Definition single_result (capture : bool) (a : AttemptResult V) : Prop :=
  match a with
  | AttemptSuccess status _ headers truncated =>
    truncated = false /\ (capture = false -> headers = None) /\ 200 <= status < 300
  | AttemptFailure _ => True
  end.

Lemma parse_single_body_result path status bytes etag headers :
  effect (fun a es => es = [] /\
      match a with
      | AttemptSuccess st _ h t => st = status /\ h = headers /\ t = false
      | AttemptFailure _ => True
      end) (parse_single_body path status bytes etag headers : M _).
Proof.
  unfold parse_single_body. destruct (string_from_utf8 bytes) as [body|e]; [|by apply effect_ret].
  destruct (is_empty _).
  { apply effect_bind_quiet; [eauto with client|]. intros _. by apply effect_ret. }
  destruct (parse_json body) as [data|e]; [|by apply effect_ret].
  apply effect_bind_quiet; [eauto with client|]. intros _. by apply effect_ret.
Qed.

Lemma effect_request_single_inner path t capture :
  effect (fun a es =>
      (exists auth r, es = [E_Get (mkHttpRequest (base_url config +:+ path) auth None t) r]) /\
      single_result capture a)
    (request_single_inner config path t capture : M _).
Proof.
  unfold request_single_inner. eapply effect_bind; [apply effect_get_request|]. intros sent.
  apply effect_bind_quiet; [eauto with client|]. intros _.
  destruct sent as [response|]; [|apply effect_ret; intros es (auth & ->); split; [eauto|done]].
  apply effect_bind_quiet; [eauto with client|]. intros _.
  destruct (is_success response) eqn:Es; simpl; last first.
  { apply effect_bind_quiet; [eauto with client|]. intros f. apply effect_ret.
    intros es (auth & ->). split; [eauto|done]. }
  destruct (read_body_bytes_limited _ _) as [bytes|e];
    [|apply effect_ret; intros es (auth & ->); split; [eauto|done]].
  eapply effect_weaken; [apply parse_single_body_result|].
  intros a es' [-> Ha] es (auth & ->). split; [eauto|].
  destruct a as [st d h tr|]; [|done]. destruct Ha as (-> & -> & ->). simpl.
  apply andb_prop in Es as [?%N.leb_le ?%N.ltb_lt]. split_and!; [done|by intros ->|done|done].
Qed.
(** ** Listings: the pages a [next] link leads through *)

(** The items of a page, when it is one. *)
Definition page_items (r : Response) : option (list V) :=
  if is_success r then
    match read_body_bytes_limited r MAX_RESPONSE_BODY_BYTES with
    | Ok bytes =>
      match string_from_utf8 bytes with
      | Ok body => if is_empty (trim body) then None else ok (parse_json body) ≫= as_array
      | Err _ => None
      end
    | Err _ => None
    end
  else None.

(** The items of the pages from [url] on, each found at the [next] link of the
    one before it, and what the last one says of the rest. *)
Fixpoint listing (url : string) (pages : list (string * Response))
    : option (list V * Continuation) :=
  match pages with
  | [] => Some ([], Follow url)
  | (u, r) :: rest =>
    if String.eqb u url then
      items ← page_items r;
      match trusted_continuation parse_url (rs_links r) (trusted_origin config), rest with
      | Follow next, _ =>
        more ← listing next rest; Some (items ++ fst more, snd more)
      | k, [] => Some (items, k)
      | _, _ :: _ => None
      end
    else None
  end.

(** The responses in a trace, with the addresses asked. *)
Definition page_of (e : Event) : option (string * Response) :=
  match e with E_Get rq (Sent r) => Some (hr_url rq, r) | _ => None end.
Definition pages (es : list Event) : list (string * Response) := omap page_of es.

(** The addresses a request for [path] may go to. *)
Definition at_home (url : string) (e : Event) : Prop :=
  match e with
  | E_Get rq _ =>
    hr_url rq = url \/ is_same_origin parse_url (hr_url rq) (trusted_origin config) = true
  | E_Post u _ => token_url u
  | _ => True
  end.

(** What a walk over at most [n] pages from [url] does and returns, [free] of
    which were paid for, given the items before them. *)
Record walk (n free : nat) (url : string) (before : list V) (a : AttemptResult V)
    (es : list Event) : Prop := {
  walk_gets : (count is_get es <= n)%nat;
  walk_posts : count is_post es = 0%nat;
  walk_paid : (count is_get es <= free + count is_grant es)%nat;
  walk_home : Forall (at_home url) es;
  walk_result :
    match a with
    | AttemptFailure _ => True
    | AttemptSuccess status data headers truncated =>
      status = 200 /\ headers = None /\
      exists items all k, data = Some (mk_array (before ++ items)) /\
        N.of_nat (length (before ++ items)) <= MAX_PAGINATED_ITEMS /\
        listing url (pages es) = Some (all, k) /\
        (truncated = false -> all = items /\ k = Exhausted) /\
        items `prefix_of` all
    end;
}.

Lemma same_origin_continuation links url :
  trusted_continuation parse_url links (trusted_origin config) = Follow url ->
  is_same_origin parse_url url (trusted_origin config) = true.
Proof.
  unfold trusted_continuation. destruct (next_link links) as [|u|]; [done| |done].
  destruct (is_same_origin _ u _) eqn:E; [|done]. by intros [= <-].
Qed.

Lemma parse_page_items status bytes before cut items :
  parse_paginated_page_body status bytes before = Ok (cut, items) ->
  N.of_nat (length before) <= MAX_PAGINATED_ITEMS ->
  exists page shown,
    match string_from_utf8 bytes with
    | Ok body => if is_empty (trim body) then None else ok (parse_json body) ≫= as_array
    | Err _ => None
    end = Some page /\
    items = before ++ shown /\ shown `prefix_of` page /\ (cut = false -> shown = page) /\
    N.of_nat (length items) <= MAX_PAGINATED_ITEMS.
Proof.
  unfold parse_paginated_page_body. intros E Hb.
  destruct (string_from_utf8 bytes) as [body|]; [|done].
  destruct (is_empty (trim body)); [done|].
  destruct (parse_json body) as [v|]; [|done]. cbn [ok mbind option_bind].
  destruct (as_array v) as [page|]; [|done]. unfold sat_sub in E.
  destruct (N.ltb_spec (MAX_PAGINATED_ITEMS - N.of_nat (length before)) (N.of_nat (length page)));
    injection E as <- <-; exists page; eexists; (split_and!; [done|done| | |]).
  - exists (drop (N.to_nat (MAX_PAGINATED_ITEMS - N.of_nat (length before))) page).
    by rewrite take_drop.
  - done.
  - rewrite length_app length_take. lia.
  - done.
  - done.
  - rewrite length_app. lia.
Qed.

Lemma walk_stop n free url before es : es = [] \/ es = [E_Acquire false] ->
  N.of_nat (length before) <= MAX_PAGINATED_ITEMS ->
  walk n free url before (paginated before true) es.
Proof.
  intros Hes Hb.
  assert (count is_get es = 0 /\ count is_post es = 0 /\ pages es = [])%nat as (Hg & Hp & Hpg)
    by (by destruct Hes as [-> | ->]).
  split; [lia|done|lia|by destruct Hes as [-> | ->]; repeat constructor|].
  simpl. split_and!; [done..|]. exists [], [], (Follow url). rewrite app_nil_r Hpg.
  split_and!; done.
Qed.
(** How a page is paid for: the first by the caller, any other by itself. *)
Definition paid (free : nat) (es : list Event) : Prop :=
  (free = 1%nat /\ es = []) \/ (free = 0%nat /\ es = [E_Acquire true]).

Lemma paid_counts free es rq r rest : paid free es ->
  (count is_get (es ++ E_Get rq r :: rest) = S (count is_get rest) /\
   count is_post (es ++ E_Get rq r :: rest) = count is_post rest /\
   (free + count is_grant (es ++ E_Get rq r :: rest) = S (count is_grant rest)) /\
   pages (es ++ E_Get rq r :: rest) = pages (E_Get rq r :: rest))%nat.
Proof. by intros [[-> ->]|[-> ->]]. Qed.

Lemma walk_failed n free before f es rq r : paid free es ->
  walk (S n) free (hr_url rq) before (AttemptFailure f) (es ++ [E_Get rq r]).
Proof.
  intros Hp. destruct (paid_counts free es rq r [] Hp) as (Hg & Hpo & Hc & _).
  split; [rewrite Hg; unfold count; simpl; lia|done|rewrite Hg Hc; unfold count; simpl; lia| |done].
  destruct Hp as [[-> ->]|[-> ->]]; repeat constructor.
Qed.

Lemma walk_end n free before page shown truncated es rq r : paid free es ->
  page_items r = Some page -> shown `prefix_of` page ->
  N.of_nat (length (before ++ shown)) <= MAX_PAGINATED_ITEMS ->
  (truncated = false -> shown = page /\
     trusted_continuation parse_url (rs_links r) (trusted_origin config) = Exhausted) ->
  walk (S n) free (hr_url rq) before (paginated (before ++ shown) truncated)
    (es ++ [E_Get rq (Sent r)]).
Proof.
  intros Hp Hi Hpre Hlen Ht. destruct (paid_counts free es rq (Sent r) [] Hp) as (Hg & Hpo & Hc & Hpg).
  split; [rewrite Hg; unfold count; simpl; lia|done|rewrite Hg Hc; unfold count; simpl; lia| |].
  { destruct Hp as [[-> ->]|[-> ->]]; repeat constructor. }
  simpl. split_and!; [done..|]. rewrite Hpg. simpl. rewrite String.eqb_refl Hi. simpl.
  destruct (trusted_continuation _ _ _) as [|u| |]; eexists shown, _, _; (split_and!; [done|done|done| |]);
    try (intros E; destruct (Ht E) as [-> E']; by rewrite ?app_nil_r); by rewrite ?app_nil_r.
Qed.

Lemma walk_follow n free before page next a es rq r rest : paid free es ->
  page_items r = Some page ->
  trusted_continuation parse_url (rs_links r) (trusted_origin config) = Follow next ->
  walk n 0 next (before ++ page) a rest ->
  walk (S n) free (hr_url rq) before a (es ++ E_Get rq (Sent r) :: rest).
Proof.
  intros Hp Hi Hk [Wg Wp Wc Wh Wr].
  destruct (paid_counts free es rq (Sent r) rest Hp) as (Hg & Hpo & Hc & Hpg).
  split; [rewrite Hg; lia|by rewrite Hpo|rewrite Hg Hc; lia| |].
  - apply Forall_app. split; [destruct Hp as [[-> ->]|[-> ->]]; repeat constructor|].
    constructor; [by left|]. apply same_origin_continuation in Hk.
    eapply Forall_impl; [exact Wh|]. intros [rq' r'| | | |] He; try done. simpl in *.
    destruct He as [->|]; by right.
  - destruct a as [st d h tr|f]; [|done].
    destruct Wr as (-> & -> & items & all & k & -> & Hl & Hls & Ht & Hpre).
    split_and!; [done..|]. exists (page ++ items), (page ++ all), k.
    rewrite app_assoc. split_and!; [done|done| | |].
    + rewrite Hpg. simpl. by rewrite String.eqb_refl Hi /= Hk Hls.
    + intros E. destruct (Ht E) as [-> ->]. done.
    + by apply prefix_app.
Qed.

Lemma effect_pages_loop n page_count url t before :
  1 <= page_count -> N.of_nat (length before) <= MAX_PAGINATED_ITEMS ->
  effect (walk n (if 1 <? page_count then 0%nat else 1%nat) url before)
    (pages_loop config n page_count url t before : M _).
Proof.
  revert page_count url before. induction n as [|n IH]; intros pc url before Hpc Hb; simpl.
  { apply effect_ret, walk_stop; [by left|done]. }
  apply effect_bind_quiet; [eauto with client|]. intros [|].
  { apply effect_ret, walk_stop; [by left|done]. }
  set (free := if 1 <? pc then 0%nat else 1%nat).
  apply (effect_bind (fun g es =>
    if (g : bool) then paid free es else es = [E_Acquire false])).
  { unfold free, paid. destruct (1 <? pc); [|apply effect_ret; by left].
    eapply effect_weaken; [apply effect_acquire|]. intros [|] es ->; [by right|done]. }
  intros [|]; simpl; last first.
  { apply effect_ret. intros es ->. apply walk_stop; [by right|done]. }
  unfold send_paginated_request.
  apply (effect_bind (fun sent es => exists rq r, hr_url rq = url /\ es = [E_Get rq r] /\
    (forall response, sent = Ok response -> r = Sent response))).
  { eapply effect_bind; [apply effect_get_request|]. intros r.
    apply effect_bind_quiet; [eauto with client|]. intros _.
    destruct r; apply effect_ret; intros es (auth & ->); eexists _, _; (split_and!; [| done|]);
      try done; by intros ? [= ->]. }
  assert (forall e sent, (forall es, (exists rq r, hr_url rq = url /\ es = [E_Get rq r] /\
      (forall response : Response, sent = (Ok response : result RequestFailureKind _) -> r = Sent response)) ->
    forall es0, paid free es0 -> walk (S n) free url before (AttemptFailure e) (es0 ++ es ++ []))) as Hfail.
  { intros e sent es (rq & r & <- & -> & _) es0 Hp. rewrite app_nil_r. by apply walk_failed. }
  intros [response|f]; [|apply effect_ret; intros; by eapply Hfail].
  apply effect_bind_quiet; [eauto with client|]. intros _.
  destruct (is_success response) eqn:Es; simpl; last first.
  { apply effect_bind_quiet; [eauto with client|]. intros f. apply effect_ret.
    intros; by eapply Hfail. }
  destruct (read_body_bytes_limited _ _) as [bytes|e] eqn:Eb;
    [|apply effect_ret; intros; by eapply Hfail].
  destruct (parse_paginated_page_body _ _ _) as [[cut items]|f] eqn:Ep;
    [|apply effect_ret; intros; by eapply Hfail].
  destruct (parse_page_items _ _ _ _ _ Ep Hb) as (page & shown & Epage & -> & Hpre & Hcut & Hlen).
  assert (page_items response = Some page) as Hitems by (unfold page_items; by rewrite Es Eb).
  destruct cut.
  { apply effect_ret; intros es (rq & r & <- & -> & Hr) es0 Hp.
    rewrite (Hr _ eq_refl) app_nil_r. by eapply walk_end. }
  rewrite (Hcut eq_refl) in Hlen |- *. clear Hcut Hpre.
  destruct (trusted_continuation _ _ _) as [|next| |] eqn:Ek.
  2: { eapply effect_weaken; [apply IH; [lia|done]|]. rewrite (proj2 (N.ltb_lt 1 (pc + 1))); [|lia].
       intros a es' Hw es (rq & r & <- & -> & Hr) es0 Hp. rewrite (Hr _ eq_refl) /=.
       by eapply walk_follow. }
  all: apply effect_ret; intros es (rq & r & <- & -> & Hr) es0 Hp;
    rewrite (Hr _ eq_refl) app_nil_r; eapply walk_end; try done.
Qed.
End Effects.

(** ** Attempts and runs *)

Section Runs.
  Context {V W : Type} `{!JsonValue V, !ClientEnv V W} (config : ClientConfig).
  Notation M := (M V W).

(** The most requests one attempt makes. *)
Definition per_attempt (paginate : bool) : nat := if paginate then N.to_nat MAX_PAGINATION_PAGES else 1%nat.

(** What a success of one attempt rests on, given what the attempt did. *)
Definition success_of (url : string) (paginate : bool) (status : N) (data : option V)
    (headers : option (gmap string string)) (truncated : bool) (es : list Event) : Prop :=
  headers = None /\ 200 <= status < 300 /\
  if paginate then
    exists items all k, data = Some (mk_array items) /\
      N.of_nat (length items) <= MAX_PAGINATED_ITEMS /\
      listing config url (pages es) = Some (all, k) /\
      (truncated = false -> all = items /\ k = Exhausted) /\ items `prefix_of` all
  else truncated = false.

Record attempt_spec (url : string) (paginate : bool) (a : AttemptResult V) (es : list Event)
    : Prop := {
  as_gets : (count is_get es <= per_attempt paginate)%nat;
  as_posts : count is_post es = 0%nat;
  as_paid : (count is_get es <= 1 + count is_grant es)%nat;
  as_home : Forall (at_home config url) es;
  as_success :
    match a with
    | AttemptSuccess status data headers truncated =>
      success_of url paginate status data headers truncated es
    | AttemptFailure _ => True
    end;
}.

Lemma effect_attempt path (paginate : bool) t :
  effect (attempt_spec (base_url config +:+ path) paginate)
    (if paginate then request_paginated config path t else request_single config path t : M _).
Proof.
  destruct paginate.
  - unfold request_paginated. eapply effect_weaken; [apply effect_pages_loop; simpl; lia|].
    intros a es [Wg Wp Wc Wh Wr]. split; [done|done|done|done|].
    destruct a as [st d h tr|f]; [|done]. destruct Wr as (-> & -> & Wr). split_and!; done.
  - unfold request_single. eapply effect_weaken; [apply effect_request_single_inner|].
    intros a es [(auth & r & ->) Ha]. split; [unfold count; simpl; lia|done|unfold count; simpl; lia| |].
    + repeat constructor.
    + destruct a as [st d h tr|f]; [|done]. destruct Ha as (-> & Hh & Hs).
      split_and!; [auto|lia|lia|done].
Qed.

(** What one turn of the loop, or the rest of it, does and returns. *)
Definition run_success_of (url : string) (paginate : bool) (run : RequestRun V)
    (es : list Event) : Prop :=
  forall status data headers truncated n, run_result run = RunSuccess status data headers truncated n ->
    exists before after, es = before ++ after /\
      success_of url paginate status data headers truncated after.

Record turn_spec (url : string) (paginate : bool) (attempts attempt : N) (stale : bool)
    (r : RequestRun V + bool) (es : list Event) : Prop := {
  ts_gets : (count is_get es <= per_attempt paginate)%nat;
  ts_posts : (count is_post es + Nat.b2n stale <= match r with inl _ => 1 | inr stale' => Nat.b2n stale' end)%nat;
  ts_paid : (count is_get es <= 1 + count is_grant es)%nat;
  ts_home : Forall (at_home config url) es;
  ts_result :
    match r with
    | inl run => run_attempts run = attempts_after attempt /\ run_success_of url paginate run es
    | inr _ => attempt < attempts - 1
    end;
}.

Lemma turn_returns url paginate attempts attempt stale a es halt :
  attempt_spec url paginate a es ->
  turn_spec url paginate attempts attempt stale (inl (from_attempt a attempt halt)) es.
Proof.
  intros [Ag Ap Ac Ah As]. split; [done|rewrite Ap; destruct stale; simpl; lia|done|done|].
  split; [by destruct a|]. intros st d h tr n E. destruct a as [st' d' h' tr'|f]; [|done].
  injection E as <- <- <- <- _. by exists [], es.
Qed.

Lemma refreshing_counts es : refreshing config es ->
  (count is_get es = 0 /\ count is_post es <= 1 /\ count is_grant es = 0)%nat /\
  forall url, Forall (at_home config url) es.
Proof.
  intros [->|(u & r & Hu & ->)]; (split; [unfold count; simpl; lia|]); intros url;
    repeat constructor. done.
Qed.

Lemma effect_attempt_body path paginate t attempts attempt stale :
  effect (turn_spec (base_url config +:+ path) paginate attempts attempt stale)
    (attempt_body config path paginate t attempts attempt stale : M _).
Proof.
  unfold attempt_body. eapply effect_bind; [apply effect_attempt|]. intros a.
  apply effect_bind_quiet; [apply quiet_gets|]. intros [|].
  { apply effect_bind_quiet; [eauto with client|]. intros _. apply effect_ret. intros es Ha.
    rewrite app_nil_r. by apply turn_returns. }
  assert (forall es, attempt_spec (base_url config +:+ path) paginate a es ->
    turn_spec (base_url config +:+ path) paginate attempts attempt stale
      (inl (from_attempt a attempt false)) (es ++ [])) as Hret.
  { intros es Ha. rewrite app_nil_r. by apply turn_returns. }
  destruct (bool_decide _ && negb stale && _) eqn:Eg.
  - apply andb_prop in Eg as [[_ Hst%negb_true_iff]%andb_prop Hlt%N.ltb_lt]. subst stale.
    eapply effect_bind; [apply effect_ensure_credential|]. intros [[]|e]; apply effect_ret;
      intros es' Hr es [Ag Ap Ac Ah As]; rewrite app_nil_r;
      destruct (refreshing_counts es' Hr) as [(R1 & R2 & R3) Rh];
      (split; [rewrite count_app; lia|rewrite count_app; simpl; lia|rewrite !count_app; lia|by apply Forall_app|done]).
  - destruct (attempt_is_retryable a && _) eqn:Er; [|apply effect_ret, Hret].
    apply andb_prop in Er as [_ Hlt%N.ltb_lt].
    apply effect_bind_quiet; [eauto with client|]. intros _.
    apply effect_bind_quiet; [eauto with client|]. intros d.
    eapply effect_bind; [apply effect_sleep|]. intros u. apply effect_ret.
    intros es' -> es [Ag Ap Ac Ah As]. rewrite app_nil_r.
    split; [rewrite count_app; unfold count in *; simpl; lia|rewrite count_app Ap; unfold count; simpl; lia
      |rewrite !count_app; unfold count in *; simpl; lia|apply Forall_app; split; [done|repeat constructor]|done].
Qed.

(** The loop over the attempts from [k] on. *)
Record loop_spec (url : string) (paginate : bool) (left attempts : nat) (stale : bool)
    (run : RequestRun V) (es : list Event) : Prop := {
  ls_gets : (count is_get es <= left * per_attempt paginate)%nat;
  ls_posts : (count is_post es + Nat.b2n stale <= 1)%nat;
  ls_paid : (count is_get es <= left + count is_grant es)%nat;
  ls_home : Forall (at_home config url) es;
  ls_attempts : 1 <= run_attempts run <= N.of_nat attempts;
  ls_success : run_success_of url paginate run es;
}.

Lemma attempts_after_bounds k m : N.of_nat (k + S m) <= u32_max ->
  1 <= attempts_after (N.of_nat k) <= N.of_nat (k + S m).
Proof. intros H. unfold attempts_after, sat_add. lia. Qed.

Lemma effect_attempts_loop path paginate t d k left stale :
  (0 < left)%nat -> N.of_nat (k + left) <= u32_max ->
  effect (loop_spec (base_url config +:+ path) paginate left (k + left) stale)
    (attempts_loop config path paginate t (N.of_nat (k + left)) d
       (map N.of_nat (List.seq k left)) stale : M _).
Proof.
  revert k stale. induction left as [|left IH]; intros k stale Hl Hmax; [lia|]. simpl.
  eapply effect_bind; [apply effect_attempt_body|]. intros [run|stale'].
  - apply effect_ret. intros es [Tg Tp Tc Th [Ta Ts]]. rewrite app_nil_r.
    split; [lia|lia|lia|done| |done]. rewrite Ta. by apply attempts_after_bounds.
  - destruct left as [|left'].
    { simpl. apply effect_ret. intros es [_ _ _ _ Hlt]. lia. }
    replace (k + S (S left'))%nat with (S k + S left')%nat in * by lia.
    eapply effect_weaken; [apply IH; [lia|done]|].
    intros run es' [Lg Lp Lc Lh La Ls] es [Tg Tp Tc Th Tr].
    split; [rewrite count_app; lia|rewrite count_app; lia|rewrite !count_app; lia|by apply Forall_app|done|].
    intros st da h tr n E. destruct (Ls _ _ _ _ _ E) as (b & a & -> & Hs).
    exists (es ++ b), a. by rewrite app_assoc.
Qed.

(** The code after the loop is not reached. *)
Lemma attempts_loop_after path paginate t d d' k left stale s :
  (0 < left)%nat ->
  attempts_loop config path paginate t (N.of_nat (k + left)) d (map N.of_nat (List.seq k left)) stale s
  = attempts_loop config path paginate t (N.of_nat (k + left)) d' (map N.of_nat (List.seq k left)) stale s.
Proof.
  revert k stale s. induction left as [|left IH]; intros k stale s Hl; [lia|]. simpl.
  unfold mbind, M_bind.
  destruct (attempt_body _ _ _ _ _ _ _ _) as [[[run|stale'] s']|] eqn:E; [done| |done].
  apply effect_attempt_body in E as (es & _ & [_ _ _ _ Hlt]).
  destruct left as [|left']; [lia|].
  replace (k + S (S left'))%nat with (S k + S left')%nat by lia. apply IH. lia.
Qed.
End Runs.

Section Requests.
  Context {V W : Type} `{!JsonValue V, !ClientEnv V W} (config : ClientConfig).
  Notation M := (M V W).

(** What a run does and returns. *)
Record run_spec (url : string) (paginate : bool) (retries : N) (run : RequestRun V)
    (es : list Event) : Prop := {
  rn_gets : (count is_get es <= (N.to_nat retries + 1) * per_attempt paginate)%nat;
  rn_posts : (count is_post es <= 2)%nat;
  rn_paid : (count is_get es <= N.to_nat retries + count is_grant es)%nat;
  rn_home : Forall (at_home config url) es;
  rn_attempts :
    match run_result run with
    | NeverDispatched _ => count is_get es = 0%nat
    | _ => 1 <= run_attempts run <= retries + 1
    end;
  rn_success : run_success_of config url paginate run es;
}.

Lemma run_never url paginate retries cause es es' : refreshing config es ->
  es' = [] \/ es' = [E_Acquire false] ->
  run_spec url paginate retries (never_dispatched cause) (es ++ es').
Proof.
  intros Hr He. destruct (refreshing_counts config es Hr) as [(R1 & R2 & R3) Rh].
  assert (count is_get es' = 0 /\ count is_post es' = 0)%nat as [G P] by (by destruct He as [-> | ->]).
  split; rewrite ?count_app; try lia; [|simpl; rewrite ?count_app; lia|by intros ?].
  apply Forall_app. split; [done|]. destruct He as [-> | ->]; repeat constructor.
Qed.

Lemma effect_request_run path paginate retries t :
  effect (run_spec (base_url config +:+ path) paginate retries)
    (request_run config path paginate retries t : M _).
Proof.
  unfold request_run, request_inner. apply effect_bind_quiet; [eauto with client|]. intros [|].
  { apply effect_ret. apply (run_never _ _ _ _ [] []); by left. }
  eapply effect_bind; [apply effect_ensure_credential|]. intros [[]|e]; last first.
  { apply effect_ret. intros es Hr. apply run_never; [done|by left]. }
  eapply effect_bind; [apply effect_acquire|]. intros [|]; simpl; last first.
  { apply effect_ret. intros es' -> es Hr. apply run_never; [done|by right]. }
  apply effect_bind_unwrap. intros attempts Ea.
  unfold checked_add in Ea. destruct (N.leb_spec (retries + 1) u32_max) as [Hmax|]; [|done].
  injection Ea as <-.
  replace (retries + 1) with (N.of_nat (0 + (N.to_nat retries + 1))) at 1 2 by lia.
  replace (N.to_nat (retries + 1)) with (N.to_nat retries + 1)%nat by lia.
  eapply effect_weaken; [apply effect_attempts_loop; lia|].
  intros run es3 [Lg Lp Lc Lh La Ls] es2 -> es1 Hr.
  destruct (refreshing_counts config es1 Hr) as [(R1 & R2 & R3) Rh]. cbn [app].
  assert (forall p, count p (es1 ++ E_Acquire true :: es3) =
    count p es1 + (if p (E_Acquire true) then S (count p es3) else count p es3))%nat as Hc.
  { intros p. rewrite count_app. unfold count. simpl. by destruct (p _). }
  split; rewrite ?Hc; simpl; try lia.
  - apply Forall_app. split; [done|]. by constructor.
  - destruct (run_result run) eqn:E; [unfold run_attempts in La; rewrite E in La; lia|lia|lia].
  - intros st d h tr n E. destruct (Ls _ _ _ _ _ E) as (b & a & -> & Hs).
    exists (es1 ++ E_Acquire true :: b), a. split; [by rewrite -app_assoc|done].
Qed.
Lemma quiet_cache_revalidated name status etag body :
  quiet (cache_revalidated_response name status etag body : M _).
Proof. unfold cache_revalidated_response. repeat quiet_step. Qed.

Notation home url := (fun _ es => Forall (at_home config url) es).

Lemma home_bind {A B} url (c : M A) (f : A -> M B) :
  effect (home url) c -> (forall a, effect (home url) (f a)) -> effect (home url) (c ≫= f).
Proof.
  intros Hc Hf. eapply effect_bind; [exact Hc|]. intros a. eapply effect_weaken; [apply Hf|].
  intros b es' H' es H. by apply Forall_app.
Qed.

Lemma home_quiet {A} url (c : M A) : quiet c -> effect (home url) c.
Proof. intros H. eapply effect_weaken; [exact H|]. by intros a es ->. Qed.

Lemma home_refresh url : effect (home url) (ensure_credential config : M _).
Proof.
  eapply effect_weaken; [apply effect_ensure_credential|]. intros a es Hr.
  by apply (refreshing_counts config).
Qed.

Lemma home_get path inm t :
  effect (home (base_url config +:+ path)) (get_request (base_url config +:+ path) inm t : M _).
Proof.
  eapply effect_weaken; [apply effect_get_request|]. intros r es (auth & ->).
  repeat constructor.
Qed.

Lemma home_request path paginate retries t :
  effect (home (base_url config +:+ path)) (request config path paginate retries t : M _).
Proof.
  unfold request. apply home_bind; [|intros; by apply home_quiet, effect_ret].
  eapply effect_weaken; [apply effect_request_run|]. by intros a es [].
Qed.

Lemma home_single path t capture :
  effect (home (base_url config +:+ path)) (request_single_inner config path t capture : M _).
Proof.
  eapply effect_weaken; [apply effect_request_single_inner|].
  intros a es [(auth & r & ->) _]. repeat constructor.
Qed.

Lemma home_fetch name path :
  effect (home (base_url config +:+ path)) (fetch_details config name path : M _).
Proof.
  unfold fetch_details. apply home_bind; [apply home_request|]. intros r.
  apply home_quiet. apply quiet_bind; [apply quiet_gets|]. intros etag.
  apply quiet_bind; [by apply quiet_modify|]. intros _. repeat quiet_step.
Qed.

Lemma home_revalidation name path etag data status :
  effect (home (base_url config +:+ path))
    (try_etag_revalidation config name path etag data status : M _).
Proof.
  assert (forall o : option (ApiOutcome V), effect (home (base_url config +:+ path)) (mret o : M _))
    as Hret by (intros; by apply home_quiet, effect_ret).
  unfold try_etag_revalidation. destruct etag as [etag|]; [|apply Hret].
  apply home_bind; [apply home_refresh|]. intros [|]; [|apply Hret].
  apply home_bind; [apply home_quiet; eauto with client|]. intros [|]; [apply Hret|].
  apply home_bind.
  { eapply effect_weaken; [apply effect_acquire|]. intros g es ->. repeat constructor. }
  intros [|]; [|apply Hret]. simpl. apply home_bind; [apply home_get|]. intros [r|]; [|apply Hret].
  apply home_bind; [apply home_quiet; eauto with client|]. intros _.
  destruct (_ =? 304).
  { apply home_bind.
    { eapply effect_weaken; [apply effect_refund|]. intros g es ->. repeat constructor. }
    intros _. apply home_quiet. apply quiet_bind; [by apply quiet_modify|]. intros _.
    repeat quiet_step. }
  destruct (negb _); [apply Hret|].
  destruct (read_body_limited _ _); [|apply Hret]. apply home_quiet, quiet_cache_revalidated.
Qed.

Lemma home_repo_details name safe : sanitize_path_segment name "repo_name" = Ok safe ->
  effect (home (base_url config +:+ "/repos/" +:+ org_name config +:+ "/" +:+ safe))
    (repo_details config name : M _).
Proof.
  intros Hs. unfold repo_details. rewrite Hs.
  apply home_bind; [apply home_quiet; eauto with client|]. intros [cached|]; [|apply home_fetch].
  destruct (cr_stale cached); [|by apply home_quiet, effect_ret].
  apply home_bind; [apply home_revalidation|]. intros [o|]; [by apply home_quiet, effect_ret|].
  apply home_fetch.
Qed.

(** C17: a request goes nowhere but to its own address and to addresses of the
    trusted origin.  Whatever the server answers, every [GET] of a request for
    [path] is for the base URL followed by [path], or for a [next] link whose
    origin is the trusted one; every [POST] exchanges the App's token; the
    details of a repository are asked for under its sanitized name, and not at
    all when the name cannot be sanitized. *)
Theorem requests_stay_home path paginate retries t name :
  effect (fun _ es => Forall (at_home config (base_url config +:+ path)) es)
    (request config path paginate retries t : M _) /\
  match sanitize_path_segment name "repo_name" with
  | Ok safe =>
    effect (fun _ es =>
        Forall (at_home config (base_url config +:+ "/repos/" +:+ org_name config +:+ "/" +:+ safe)) es)
      (repo_details config name : M _)
  | Err _ => quiet (repo_details config name : M _)
  end.
Proof.
  split; [apply home_request|].
  destruct (sanitize_path_segment name "repo_name") as [safe|e] eqn:Es.
  - by apply home_repo_details.
  - unfold repo_details. rewrite Es. by apply effect_ret.
Qed.

(** C19: what a request may cost is bounded.  A run of [retries] retries makes
    at most [retries + 1] attempts, each of at most one request, or five
    hundred when it walks over pages; it exchanges the token at most twice; all
    but [retries] of its requests have a permit of the budget; when it is not
    dispatched it makes none.  A listing never holds more than 500,000 items.
    The code after the loop over attempts is unreachable. *)
Theorem request_bounds path (paginate : bool) retries t :
  effect (fun run es =>
      (count is_get es <= (N.to_nat retries + 1) * (if paginate then 500 else 1))%nat /\
      (count is_post es <= 2)%nat /\
      (count is_get es <= N.to_nat retries + count is_grant es)%nat /\
      match run_result run with
      | NeverDispatched _ => count is_get es = 0%nat
      | _ => 1 <= run_attempts run <= retries + 1
      end /\
      (forall status data headers truncated n,
         run_result run = RunSuccess status data headers truncated n -> paginate = true ->
         exists items, data = Some (mk_array items) /\ N.of_nat (length items) <= 500000))
    (request_run config path paginate retries t : M _) /\
  (forall after s,
     attempts_loop config path paginate t (retries + 1) after
       (map N.of_nat (List.seq 0 (N.to_nat (retries + 1)))) false s
     = attempts_loop config path paginate t (retries + 1) (unauthorized_run (retries + 1))
         (map N.of_nat (List.seq 0 (N.to_nat (retries + 1)))) false (s : Client V W)).
Proof.
  split.
  - eapply effect_weaken; [apply effect_request_run|]. intros run es [Rg Rp Rc _ Ra Rs].
    split_and!; [by destruct paginate|done|done|done|].
    intros st d h tr n E ->. destruct (Rs _ _ _ _ _ E) as (b & a & _ & _ & _ & items & _ & _ & -> & Hl & _).
    eauto.
  - intros after s.
    pose proof (attempts_loop_after config path paginate t after (unauthorized_run (retries + 1))
      0 (N.to_nat (retries + 1)) false s ltac:(lia)) as H.
    by rewrite Nat.add_0_l N2Nat.id in H.
Qed.

(** What a listing that succeeds holds. *)
Lemma effect_listing path retries t :
  effect (fun outcome es =>
      forall status data headers truncated, outcome = Success status data headers truncated ->
      exists before walked items all k,
        es = before ++ walked /\ data = Some (mk_array items) /\
        listing config (base_url config +:+ path) (pages walked) = Some (all, k) /\
        items `prefix_of` all /\ (truncated = false -> items = all /\ k = Exhausted))
    (request config path true retries t : M _).
Proof.
  unfold request. eapply effect_bind; [apply effect_request_run|]. intros run. apply effect_ret.
  intros es [_ _ _ _ _ Rs] st d h tr E. rewrite app_nil_r.
  unfold run_outcome in E. destruct (run_result run) as [[]|st' d' h' tr' n|f] eqn:Er; try done;
    [|by destruct f]. injection E as -> -> -> ->.
  destruct (Rs _ _ _ _ _ Er) as (b & a & -> & _ & _ & items & all & k & -> & _ & Hl & Ht & Hp).
  exists b, a, items, all, k. split_and!; [done..|]. intros E. by destruct (Ht E) as [-> ->].
Qed.

(** C16: a listing that is not marked as truncated is the whole listing.  When a
    paginated request succeeds, its items are those of pages that were fetched
    one after the other, the first from the requested address and each other
    from the [next] link of the one before; unmarked, they are all the items of
    all these pages, and the last page says that no page follows; marked, they
    are the first ones. *)
Theorem untruncated_is_complete path retries t :
  effect (fun outcome es =>
      forall status data headers truncated, outcome = Success status data headers truncated ->
      exists before walked items all k,
        es = before ++ walked /\ data = Some (mk_array items) /\
        listing config (base_url config +:+ path) (pages walked) = Some (all, k) /\
        items `prefix_of` all /\ (truncated = false -> items = all /\ k = Exhausted))
    (request config path true retries t : M _).
Proof. apply effect_listing. Qed.
End Requests.
