(* ===== verification/ClientState.v ===== *)
(** * What the client keeps ([github/client.rs])

    The invariant of the client's state, kept by every operation, and the memo
    of repository details with its revalidation. *)

From S2P Require Import Prelude Str Json Request Pagination Routes Budget RateLimit Run Auth.
From S2P Require Import Client ClientRequests.

Open Scope N_scope.

(** ** The invariant of the client's state *)

#[export] Hint Extern 1 (quiet (mret _)) => by apply effect_ret : client.

(** Walks through a computation, leaving what it changes. *)
Ltac keeps_step :=
  first
  [ solve [eauto with client nocore]
  | match goal with
    | |- preserves _ (if ?b then _ else _) => destruct b
    | |- preserves _ (match ?x with _ => _ end) => destruct x
    | |- preserves _ (_ ≫= _) => apply preserves_bind; [|intros ?]
    | |- preserves _ (modify _) => apply preserves_modify; intros ? ?
    | |- preserves _ (call _) => apply preserves_call; intros ? ? ?
    end ].

Section Invariant.
  Context {V W : Type} `{!JsonValue V, !ClientEnv V W} (config : ClientConfig).
  Notation M := (M V W).
  Implicit Type s : Client V W.

(** Kept by everything a request changes. *)
Record framed (I : Client V W -> Prop) : Prop := {
  fr_world : forall w s, I s -> I (with_world w s);
  fr_event : forall e s, I s -> I (with_event e s);
  fr_halted : forall n s, I s -> I (with_halted n s);
  fr_credential : forall c s, I s ->
    I (with_credential c ("Bearer " +:+ cred_token c) (expires_at_unix c) s);
  fr_warnings : forall s, I s -> I (with_warnings ((rate_limit_warnings s + 1) mod 2 ^ 32) s);
  fr_etags : forall m s, I s -> I (with_etags m s);
  fr_checkpoints : forall r n m s, I s ->
    I (with_checkpoints (record_checkpoint r n m (budget_checkpoints s)) s);
}.

Section Framed.
  Context (I : Client V W -> Prop) (HI : framed I).

Ltac keep := repeat keeps_step; try (destruct HI; by eauto).

Lemma keeps_is_halted : preserves I (is_halted : M bool).
Proof. unfold is_halted. keep. Qed.
Lemma keeps_note_halt : preserves I (note_rate_limit_halt : M ()).
Proof. unfold note_rate_limit_halt. keep. Qed.
Lemma keeps_secondary status headers body :
  preserves I (record_secondary_limit_backoff status headers body : M ()).
Proof. unfold record_secondary_limit_backoff. keep. Qed.
Lemma keeps_failure_kind status r : preserves I (http_failure_kind status r : M _).
Proof. unfold http_failure_kind. apply preserves_bind; [apply keeps_secondary|]. intros. keep. Qed.
Lemma keeps_get url inm t : preserves I (get_request url inm t : M _).
Proof. unfold get_request, http_get. keep. Qed.
Lemma keeps_post url auth : preserves I (http_post url auth : M _).
Proof. unfold http_post. keep. Qed.
Lemma keeps_acquire : preserves I (acquire : M _).
Proof. unfold acquire. keep. Qed.
Lemma keeps_sleep n : preserves I (sleep_for n : M _).
Proof. unfold sleep_for. keep. Qed.
Lemma keeps_refund : preserves I (refund : M _).
Proof. unfold refund. keep. Qed.
Lemma keeps_needs_refresh : preserves I (credential_needs_refresh : M _).
Proof. unfold credential_needs_refresh. keep. Qed.
Lemma keeps_exchange app : preserves I (exchange_installation_token config app : M _).
Proof.
  unfold exchange_installation_token. pose proof keeps_post. keep.
Qed.
Lemma keeps_ensure : preserves I (ensure_credential config : M _).
Proof. unfold ensure_credential. pose proof keeps_needs_refresh. pose proof keeps_exchange. keep. Qed.
Lemma keeps_record_attempt target : preserves I (record_request_attempt target : M _).
Proof. unfold record_request_attempt. keep. Qed.
Lemma keeps_observe headers : preserves I (observe_headers headers : M _).
Proof. unfold observe_headers. keep. Qed.
Lemma keeps_record_etag path etag : preserves I (record_etag path etag : M _).
Proof. unfold record_etag. keep. Qed.
Lemma keeps_parse_single path status bytes etag headers :
  preserves I (parse_single_body path status bytes etag headers : M _).
Proof. unfold parse_single_body. pose proof keeps_record_etag. keep. Qed.
Lemma keeps_single path t capture : preserves I (request_single_inner config path t capture : M _).
Proof.
  unfold request_single_inner.
  pose proof keeps_get; pose proof keeps_record_attempt; pose proof keeps_observe;
    pose proof keeps_failure_kind; pose proof keeps_parse_single. keep.
Qed.
Lemma keeps_pages n pc url t items : preserves I (pages_loop config n pc url t items : M _).
Proof.
  revert pc url items. induction n as [|n IH]; intros; simpl; [apply preserves_ret|].
  unfold send_paginated_request.
  pose proof keeps_is_halted; pose proof keeps_get; pose proof keeps_record_attempt;
    pose proof keeps_observe; pose proof keeps_failure_kind; pose proof keeps_acquire. keep.
Qed.
Lemma keeps_backoff attempt : preserves I (backoff_delay attempt : M _).
Proof. unfold backoff_delay. keep. Qed.
Lemma keeps_count_429 status : preserves I (count_429 status : M _).
Proof. unfold count_429. keep. Qed.
Lemma keeps_attempt_body path paginate t attempts attempt stale :
  preserves I (attempt_body config path paginate t attempts attempt stale : M _).
Proof.
  unfold attempt_body, request_single, request_paginated.
  pose proof keeps_pages; pose proof keeps_single; pose proof keeps_note_halt;
    pose proof keeps_ensure; pose proof keeps_count_429; pose proof keeps_backoff;
    pose proof keeps_sleep. keep.
Qed.
Lemma keeps_attempts path paginate t attempts d l stale :
  preserves I (attempts_loop config path paginate t attempts d l stale : M _).
Proof.
  revert stale. induction l as [|a l IH]; intros; simpl; [apply preserves_ret|].
  apply preserves_bind; [apply keeps_attempt_body|]. intros. keep.
Qed.
Lemma keeps_request path paginate retries t :
  preserves I (request config path paginate retries t : M _).
Proof.
  unfold request, request_run, request_inner.
  pose proof keeps_is_halted; pose proof keeps_ensure; pose proof keeps_acquire;
    pose proof keeps_attempts. keep.
Qed.
End Framed.
End Invariant.

Section Ok.
  Context {V W : Type} `{!JsonValue V, !ClientEnv V W} (config : ClientConfig).
  Notation M := (M V W).
  Implicit Type s : Client V W.

(** A tracker with a counter for each route and a cursor within the table. *)
Definition tracker_ok (c : BudgetCheckpoints) : Prop :=
  length (counts c) = Route_COUNT /\ (next_threshold c <= MAX_CHECKPOINTS_PER_RUN)%nat.

(** The header sent is that of the credential held, and so is the expiry that
    decides on its refresh; only successes are cached; counters fit. *)
Record client_ok s : Prop := {
  ok_header : auth_header s = "Bearer " +:+ cred_token (credential s);
  ok_expiry : credential_expires_at s = expires_at_unix (credential s);
  ok_warnings : rate_limit_warnings s < 2 ^ 32;
  ok_cache : forall name r, repo_detail_cache s !! name = Some r -> 200 <= cr_status_code r < 300;
  ok_tracker : tracker_ok (budget_checkpoints s);
}.

Definition phase_within (ph : Phase) : Prop :=
  match ph with P_Cas i => (i < MAX_CHECKPOINTS_PER_RUN)%nat | _ => True end.

Lemma call_step_tracker rc ph c : tracker_ok c -> phase_within ph ->
  tracker_ok (snd (call_step rc ph c)) /\ phase_within (fst (call_step rc ph c)).
Proof.
  intros [Hl Hn] Hp. destruct ph as [| |i|loaded|cp]; simpl.
  - split; [|done]. split; [|done]. simpl. by rewrite length_alter.
  - destruct (_ !! _) as [p|] eqn:E; [|by split].
    apply lookup_lt_Some in E. destruct (_ <? _); split; try done.
  - destruct (Nat.eqb_spec (next_threshold c) i) as [<-|]; [|by split].
    split; [|done]. split; simpl in *; [done|lia].
  - destruct (_ !! _); by split.
  - by split.
Qed.

Lemma record_checkpoint_ok r n m c : tracker_ok c -> tracker_ok (record_checkpoint r n m c).
Proof.
  intros Hc. unfold record_checkpoint. set (rc := mkRecordCall r n m).
  assert (forall k ph c, tracker_ok c -> phase_within ph ->
    tracker_ok (shared (run (replicate k 0%nat) (mkSystem [(rc, ph)] c)))) as H.
  { intros k. induction k as [|k IH]; intros ph c' H1 H2; [done|].
    change (run (replicate (S k) 0%nat) ?s) with (run (replicate k 0%nat) (step 0 s)).
    unfold step. simpl. destruct (call_step rc ph c') as [ph' c''] eqn:E.
    destruct (call_step_tracker rc ph c' H1 H2) as [H3 H4]. rewrite E in H3, H4. by apply IH. }
  by apply H.
Qed.

Lemma for_run_ok n : tracker_ok (for_run n).
Proof. split; simpl; [done|lia]. Qed.

Lemma framed_client_ok : framed client_ok.
Proof.
  split; intros; match goal with H : client_ok _ |- _ => destruct H end; split; simpl; try done.
  - apply N.mod_lt. done.
  - by apply record_checkpoint_ok.
Qed.

(** Writes a successful result into the cache. *)
Lemma cache_insert_ok name r s : client_ok s -> 200 <= cr_status_code r < 300 ->
  client_ok (with_cache (<[name := r]> (repo_detail_cache s)) s).
Proof.
  intros [Hh He Hw Hc Ht] Hr. split; [exact Hh|exact He|exact Hw| |exact Ht]. simpl. intros name' r'.
  destruct (decide (name = name')) as [->|]; [rewrite lookup_insert_eq; by intros [= <-]|].
  rewrite lookup_insert_ne //. apply Hc.
Qed.

Lemma ok_insert name r : 200 <= cr_status_code r < 300 ->
  preserves client_ok (cache_insert name r : M ()).
Proof. intros Hr. apply preserves_modify. intros s Hs. by apply cache_insert_ok. Qed.

Lemma preserves_bind_when {A B} (I : Client V W -> Prop) (R : A -> Prop) (c : M A) (f : A -> M B) :
  preserves I c -> effect (fun a _ => R a) c -> (forall a, R a -> preserves I (f a)) ->
  preserves I (c ≫= f).
Proof.
  intros Hc HR Hf s b s' H (a & s1 & E1 & E2)%bind_Some.
  destruct (HR _ _ _ E1) as (_ & _ & Ha). eapply Hf; [exact Ha| |exact E2]. by eapply Hc.
Qed.

(** A plain request that succeeds returned its one response whole. *)
Lemma request_success path retries t :
  effect (fun o _ => match o with
    | Success st _ h tr => 200 <= st < 300 /\ h = None /\ tr = false
    | Failure _ _ _ => True end) (request config path false retries t : M _).
Proof.
  unfold request. eapply effect_bind; [apply effect_request_run|]. intros run. apply effect_ret.
  intros es [_ _ _ _ _ Rs]. unfold run_outcome.
  destruct (run_result run) as [[]|st d h tr n|f] eqn:Er; try done; [|by destruct f].
  destruct (Rs _ _ _ _ _ Er) as (b & a & _ & -> & ? & ->). done.
Qed.

Lemma ok_fetch name path : preserves client_ok (fetch_details config name path : M _).
Proof.
  unfold fetch_details. eapply preserves_bind_when;
    [apply keeps_request, framed_client_ok|apply request_success|].
  intros r Hr. apply preserves_bind; [apply preserves_gets|]. intros etag.
  apply preserves_bind; [apply preserves_modify; intros s Hs; by apply framed_client_ok|]. intros _.
  destruct r as [st d h tr|]; [|apply preserves_ret]. destruct Hr as (Hst & _ & _).
  apply preserves_bind; [by apply ok_insert|]. intros _. apply preserves_ret.
Qed.

Lemma ok_revalidation name path etag data status : 200 <= status < 300 ->
  preserves client_ok (try_etag_revalidation config name path etag data status : M _).
Proof.
  intros Hst. pose proof framed_client_ok as HF.
  unfold try_etag_revalidation. destruct etag as [etag|]; [|apply preserves_ret].
  apply preserves_bind; [by apply keeps_ensure|]. intros [|]; [|apply preserves_ret].
  apply preserves_bind; [by apply keeps_is_halted|]. intros [|]; [apply preserves_ret|].
  apply preserves_bind; [by apply keeps_acquire|]. intros [|]; [|apply preserves_ret]. simpl.
  apply preserves_bind; [by apply keeps_get|]. intros [r|]; [|apply preserves_ret].
  apply preserves_bind; [by apply keeps_observe|]. intros _.
  destruct (_ =? 304).
  { apply preserves_bind; [by apply keeps_refund|]. intros _.
    apply preserves_bind; [apply preserves_modify; by intros s []|]. intros _.
    apply preserves_bind; [by apply ok_insert|]. intros _. apply preserves_ret. }
  destruct (is_success r) eqn:Es; [|apply preserves_ret].
  apply andb_prop in Es as [?%N.leb_le ?%N.ltb_lt]. simpl.
  destruct (read_body_limited _ _) as [body|]; [|apply preserves_ret].
  unfold cache_revalidated_response. destruct (is_empty _).
  { apply preserves_bind; [by apply ok_insert|]. intros _. apply preserves_ret. }
  destruct (parse_json body); [|apply preserves_ret].
  apply preserves_bind; [by apply ok_insert|]. intros _.
  apply preserves_bind; [apply preserves_gets|]. intros c. apply preserves_ret.
Qed.

Lemma ok_repo_details name : preserves client_ok (repo_details config name : M _).
Proof.
  unfold repo_details. destruct (sanitize_path_segment _ _) as [safe|]; [|apply preserves_ret].
  intros s o s' Hs. rewrite bind_Some. intros (hit & s1 & [= <- <-] & E). revert E.
  destruct (repo_detail_cache s !! name) as [c|] eqn:Ec; [|by eapply ok_fetch].
  destruct (cr_stale c); [|by intros [= _ <-]].
  rewrite bind_Some. intros (o' & s1 & E1 & E2).
  assert (client_ok s1) by (eapply ok_revalidation; [by eapply ok_cache|exact Hs|exact E1]).
  revert E2. destruct o'; [by intros [= _ <-]|]. by eapply ok_fetch.
Qed.

Lemma ok_seed cutoff entries cache :
  (forall name r, cache !! name = Some r -> 200 <= cr_status_code r < 300) ->
  forall name (r : CachedResult V), fold_left (seed_entry cutoff) entries cache !! name = Some r ->
    200 <= cr_status_code r < 300.
Proof.
  revert cache. induction entries as [|[key d] entries IH]; intros cache H; [done|]. simpl.
  apply IH. destruct (_ <? _)%Z; [done|]. intros name r.
  destruct (decide (key = name)) as [->|]; [rewrite lookup_insert_eq; intros [= <-]; simpl; lia|].
  rewrite lookup_insert_ne //. apply H.
Qed.

Lemma ok_evict repos cache :
  (forall name r, cache !! name = Some r -> 200 <= cr_status_code r < 300) ->
  forall name (r : CachedResult V), fold_left evict_entry repos cache !! name = Some r ->
    200 <= cr_status_code r < 300.
Proof.
  revert cache. induction repos as [|[key u] repos IH]; intros cache H; [done|]. simpl.
  apply IH. destruct (cache !! key) as [c|] eqn:Ec; [|done]. destruct (entry_is_stale _ _); [|done].
  intros name r. destruct (decide (key = name)) as [->|].
  - rewrite lookup_insert_eq. intros [= <-]. by apply (H name c).
  - rewrite lookup_insert_ne //. apply H.
Qed.
Lemma ok_single path t capture :
  preserves client_ok (request_single_inner config path t capture : M _).
Proof. apply keeps_single, framed_client_ok. Qed.

(** C39: the client's state stays well formed.  A new client's header is that of
    its credential, its cache holds successes only and its counters are within
    their widths, and every operation keeps that, whatever the environment
    answers: a refresh replaces the credential, the header and the expiry
    together or not at all, and a failed request is never cached. *)
Theorem client_ok_preserved path paginate retries t name slug entries repos
    debug cred url org app http w :
  match client_new (V := V) debug cred url org app http w with
  | Ok (_, s) => client_ok (s : Client V W)
  | Err _ => True
  end /\
  preserves client_ok (request config path paginate retries t : M _) /\
  preserves client_ok (repo_details config name : M _) /\
  preserves client_ok (take_not_modified name : M _) /\
  preserves client_ok (record_deleted_team slug : M _) /\
  preserves client_ok (reset_halt : M _) /\
  preserves client_ok (clear_run_cache : M _) /\
  preserves client_ok (export_cache : M _) /\
  preserves client_ok (seed_cache entries : M _) /\
  preserves client_ok (evict_stale_entries repos : M _) /\
  preserves client_ok (collect_auth_metadata config : M _) /\
  preserves client_ok (probe_capabilities config : M _).
Proof.
  pose proof framed_client_ok as HF. pose proof ok_single as HS.
  refine (conj _ (conj _ (conj _ (conj _ (conj _ (conj _ (conj _ (conj _ (conj _ (conj _ (conj _ _))))))))))).
  - unfold client_new. destruct (validate_api_base_url _ _); [|done].
    destruct (extract_origin _ _); [|done]. simpl. destruct (sanitize_path_segment _ _); [|done].
    simpl. destruct http; [|done]. destruct (negb _); [done|]. split; simpl; try done. apply for_run_ok.
  - by apply keeps_request.
  - apply ok_repo_details.
  - unfold take_not_modified. repeat keeps_step. by destruct H.
  - unfold record_deleted_team. repeat keeps_step. by destruct H.
  - apply preserves_modify. by intros s [].
  - apply preserves_modify. intros s []. split; simpl; try done. apply for_run_ok.
  - unfold export_cache. repeat keeps_step. by destruct H.
  - unfold seed_cache. repeat keeps_step; destruct H; [done|]. split; simpl; try done. by apply ok_seed.
  - apply preserves_modify. intros s []. split; simpl; try done. by apply ok_evict.
  - unfold collect_auth_metadata, store_auth_metadata, request_single_with_headers.
    repeat keeps_step; by destruct H.
  - unfold probe_capabilities, probe_endpoint, request_single. repeat keeps_step.
Qed.

(** ** The memo of repository details *)

Lemma framed_cache c : framed (fun s => repo_detail_cache s = c).
Proof. by split. Qed.

Lemma fetch_details_cached name path s st d h tr s' :
  fetch_details config name path s = Some (Success st d h tr, s') ->
  h = None /\ tr = false /\ exists etag, repo_detail_cache s' !! name = Some (mkCachedResult st d etag false).
Proof.
  unfold fetch_details. rewrite bind_Some. intros (r & s1 & E1 & E2).
  apply request_success in E1 as (_ & _ & Hr).
  apply bind_Some in E2 as (etag & s2 & [= <- <-] & E2).
  apply bind_Some in E2 as (u & s3 & [= <- <-] & E2).
  destruct r as [st' d' h' tr'|]; [|done]. destruct Hr as (_ & -> & ->).
  apply bind_Some in E2 as (u' & s4 & [= <- <-] & [= <- <- <- <- <-]).
  split_and!; [done..|]. eexists. simpl. by rewrite lookup_insert_eq.
Qed.

Lemma revalidation_cached name path etag data status s o s' :
  try_etag_revalidation config name path etag data status s = Some (Some o, s') ->
  exists st d e, o = Success st d None false /\
    repo_detail_cache s' !! name = Some (mkCachedResult st d e false).
Proof.
  unfold try_etag_revalidation. destruct etag as [etag|]; [|done].
  rewrite bind_Some. intros ([|] & s1 & _ & E); [|done]. revert E.
  rewrite bind_Some. intros ([|] & s2 & _ & E); [done|]. revert E.
  rewrite bind_Some. intros ([|] & s3 & _ & E); [|done]. revert E. simpl.
  rewrite bind_Some. intros ([r|] & s4 & _ & E); [|done]. revert E.
  rewrite bind_Some. intros (u & s5 & _ & E). revert E.
  destruct (_ =? 304).
  { rewrite bind_Some. intros (u1 & s6 & _ & E). revert E.
    rewrite bind_Some. intros (u2 & s7 & _ & E). revert E.
    rewrite bind_Some. intros (u3 & s8 & [= <- <-] & [= <- <-]).
    eexists _, _, _. split; [done|]. simpl. by rewrite lookup_insert_eq. }
  destruct (negb _); [done|]. destruct (read_body_limited _ _) as [body|]; [|done].
  unfold cache_revalidated_response. destruct (is_empty _).
  { rewrite bind_Some. intros (u3 & s8 & [= <- <-] & [= <- <-]).
    eexists _, _, _. split; [done|]. simpl. by rewrite lookup_insert_eq. }
  destruct (parse_json body); [|done].
  rewrite bind_Some. intros (u3 & s8 & [= <- <-] & E). revert E.
  rewrite bind_Some. intros (c & s9 & [= <- <-] & [= E <-]). simpl in E |- *.
  rewrite lookup_insert_eq in E |- *. injection E as <-. eauto.
Qed.

(** A revalidation that does not decide leaves the cache alone. *)
Lemma revalidation_undecided name path etag data status s s' :
  try_etag_revalidation config name path etag data status s = Some (None, s') ->
  repo_detail_cache s' = repo_detail_cache s.
Proof.
  set (c := repo_detail_cache s). assert (repo_detail_cache s = c) as Hc by done. clearbody c.
  unfold try_etag_revalidation. pose proof (framed_cache c) as HF.
  destruct etag as [etag|]; [|by intros [= <-]].
  rewrite bind_Some. intros (r1 & s1 & E1 & E). apply keeps_ensure with (1 := HF) in E1; [|done]. revert E.
  destruct r1; [|by intros [= <-]].
  rewrite bind_Some. intros (r2 & s2 & E2 & E). apply keeps_is_halted with (1 := HF) in E2; [|done]. revert E.
  destruct r2; [by intros [= <-]|].
  rewrite bind_Some. intros (r3 & s3 & E3 & E). apply keeps_acquire with (1 := HF) in E3; [|done]. revert E.
  destruct r3; [|by intros [= <-]]. simpl.
  rewrite bind_Some. intros (r4 & s4 & E4 & E). apply keeps_get with (1 := HF) in E4; [|done]. revert E.
  destruct r4 as [r|]; [|by intros [= <-]].
  rewrite bind_Some. intros (r5 & s5 & E5 & E). apply keeps_observe with (1 := HF) in E5; [|done]. revert E.
  destruct (_ =? 304).
  { rewrite bind_Some. intros (u1 & s6 & _ & E). revert E.
    rewrite bind_Some. intros (u2 & s7 & _ & E). revert E.
    rewrite bind_Some. by intros (u3 & s8 & _ & E). }
  destruct (negb _); [by intros [= <-]|]. destruct (read_body_limited _ _) as [body|]; [|by intros [= <-]].
  unfold cache_revalidated_response. destruct (is_empty _).
  { rewrite bind_Some. by intros (u3 & s8 & _ & E). }
  destruct (parse_json body); [|by intros [= <-]].
  rewrite bind_Some. intros (u3 & s8 & [= <- <-] & E). revert E.
  rewrite bind_Some. intros (o & s9 & [= <- <-] & [= E _]). simpl in E.
  by rewrite lookup_insert_eq in E.
Qed.

Lemma fetch_details_failed name path s st e b s' :
  fetch_details config name path s = Some (Failure st e b, s') ->
  repo_detail_cache s' = repo_detail_cache s.
Proof.
  unfold fetch_details. rewrite bind_Some. intros (r & s1 & E1 & E2).
  apply (keeps_request config _ (framed_cache (repo_detail_cache s))) in E1; [|done].
  apply bind_Some in E2 as (etag & s2 & [= <- <-] & E2).
  apply bind_Some in E2 as (u & s3 & [= <- <-] & E2).
  destruct r as [st' d' h' tr'|]; [|by injection E2 as _ _ _ <-].
  by apply bind_Some in E2 as (u' & s4 & [= <- <-] & E).
Qed.
Lemma framed_not_modified c : framed (fun s => not_modified_repos s = c).
Proof. by split. Qed.

Lemma fetch_details_marks name path s o s' :
  fetch_details config name path s = Some (o, s') -> not_modified_repos s' = not_modified_repos s.
Proof.
  unfold fetch_details. rewrite bind_Some. intros (r & s1 & E1 & E2).
  apply (keeps_request config _ (framed_not_modified (not_modified_repos s))) in E1; [|done].
  apply bind_Some in E2 as (etag & s2 & [= <- <-] & E2).
  apply bind_Some in E2 as (u & s3 & [= <- <-] & E2).
  destruct r as [st' d' h' tr'|]; [|by injection E2 as _ <-].
  by apply bind_Some in E2 as (u' & s4 & [= <- <-] & [= _ <-]).
Qed.

(** A repository is marked only when its cached result was confirmed. *)
Lemma revalidation_marks name path etag data status s o s' :
  try_etag_revalidation config name path etag data status s = Some (o, s') ->
  not_modified_repos s' = not_modified_repos s \/
  (not_modified_repos s' = {[name]} ∪ not_modified_repos s /\
   o = Some (Success status data None false)).
Proof.
  set (c := not_modified_repos s). assert (not_modified_repos s = c) as Hc by done. clearbody c.
  unfold try_etag_revalidation. pose proof (framed_not_modified c) as HF.
  destruct etag as [etag|]; [|intros [= _ <-]; by left].
  rewrite bind_Some. intros (r1 & s1 & E1 & E). apply keeps_ensure with (1 := HF) in E1; [|done]. revert E.
  destruct r1; [|intros [= _ <-]; by left].
  rewrite bind_Some. intros (r2 & s2 & E2 & E). apply keeps_is_halted with (1 := HF) in E2; [|done]. revert E.
  destruct r2; [intros [= _ <-]; by left|].
  rewrite bind_Some. intros (r3 & s3 & E3 & E). apply keeps_acquire with (1 := HF) in E3; [|done]. revert E.
  destruct r3; [|intros [= _ <-]; by left]. simpl.
  rewrite bind_Some. intros (r4 & s4 & E4 & E). apply keeps_get with (1 := HF) in E4; [|done]. revert E.
  destruct r4 as [r|]; [|intros [= _ <-]; by left].
  rewrite bind_Some. intros (r5 & s5 & E5 & E). apply keeps_observe with (1 := HF) in E5; [|done]. revert E.
  destruct (_ =? 304).
  { rewrite bind_Some. intros (u1 & s6 & [= <- <-] & E). revert E.
    rewrite bind_Some. intros (u2 & s7 & [= <- <-] & E). revert E.
    rewrite bind_Some. intros (u3 & s8 & [= <- <-] & [= <- <-]). right. simpl. by rewrite E5. }
  intros E. left. revert E.
  destruct (negb _); [by intros [= _ <-]|].
  destruct (read_body_limited _ _) as [body|]; [|by intros [= _ <-]].
  unfold cache_revalidated_response. destruct (is_empty _).
  { rewrite bind_Some. by intros (u3 & s8 & [= <- <-] & [= _ <-]). }
  destruct (parse_json body); [|by intros [= _ <-]].
  rewrite bind_Some. intros (u3 & s8 & [= <- <-] & E). revert E.
  rewrite bind_Some. by intros (o' & s9 & [= <- <-] & [= _ <-]).
Qed.

(** Asking for [name] in [s] returns these details, asks nobody and changes
    nothing. *)
Definition remembered (name : string) (status : N) (data : option V) s : Prop :=
  repo_details config name s = Some (Success status data None false, s).

(** Details that are cached and fresh are remembered. *)
Lemma cached_remembered name safe st d e s : sanitize_path_segment name "repo_name" = Ok safe ->
  repo_detail_cache s !! name = Some (mkCachedResult st d e false) -> remembered name st d s.
Proof.
  intros Hsafe E. unfold remembered, repo_details, mbind, M_bind, gets. by rewrite Hsafe E.
Qed.

(** What a success leaves behind. *)
Lemma repo_details_success name s st d h tr s' :
  repo_details config name s = Some (Success st d h tr, s') ->
  h = None /\ tr = false /\ remembered name st d s' /\
  (name ∈ not_modified_repos s' -> name ∉ not_modified_repos s ->
     exists etag, repo_detail_cache s !! name = Some (mkCachedResult st d etag true)).
Proof.
  unfold repo_details at 1. destruct (sanitize_path_segment name "repo_name") as [safe|e] eqn:Hsafe; [|done].
  intros E. apply bind_Some in E as (hit & s1 & [= <- <-] & E).
  destruct (repo_detail_cache s !! name) as [c|] eqn:Ec; last first.
  { pose proof (fetch_details_marks _ _ _ _ _ E) as Hm.
    apply fetch_details_cached in E as (-> & -> & etag & E).
    split_and!; [done|done|by eapply cached_remembered|]. by rewrite Hm. }
  destruct (cr_stale c) eqn:Est; last first.
  { injection E as <- <- <- <- <-. split_and!; [done|done| |done].
    apply (cached_remembered _ safe _ _ (cr_etag c)); [done|]. rewrite Ec. destruct c; simpl in *. by subst. }
  apply bind_Some in E as (o & s1 & E1 & E2).
  pose proof (revalidation_marks _ _ _ _ _ _ _ _ E1) as Hm1. destruct o as [o|].
  - injection E2 as -> <-. pose proof (revalidation_cached _ _ _ _ _ _ _ _ E1) as (st' & d' & e' & [= -> -> -> ->] & E').
    split_and!; [done|done|by eapply cached_remembered|]. intros Hin Hout.
    destruct Hm1 as [Hm|[_ [= -> ->]]]; [by rewrite Hm in Hin|].
    exists (cr_etag c). destruct c; simpl in *; by subst.
  - pose proof (fetch_details_marks _ _ _ _ _ E2) as Hm.
    apply fetch_details_cached in E2 as (-> & -> & etag & E2).
    split_and!; [done|done|by eapply cached_remembered|].
    destruct Hm1 as [Hm1|[_ Hm1]]; [|done]. by rewrite Hm Hm1.
Qed.

(** A failure leaves the cache and the marks alone. *)
Lemma repo_details_failure name s st e b s' :
  repo_details config name s = Some (Failure st e b, s') ->
  repo_detail_cache s' = repo_detail_cache s /\ not_modified_repos s' = not_modified_repos s.
Proof.
  unfold repo_details. destruct (sanitize_path_segment name "repo_name") as [safe|]; [|by intros [= _ _ _ <-]].
  intros E. apply bind_Some in E as (hit & s1 & [= <- <-] & E).
  destruct (repo_detail_cache s !! name) as [c|] eqn:Ec.
  2: { split; [by eapply fetch_details_failed|by eapply fetch_details_marks]. }
  destruct (cr_stale c); [|done].
  apply bind_Some in E as (o & s1 & E1 & E2). destruct o as [o|].
  { injection E2 as -> <-. by apply revalidation_cached in E1 as (? & ? & ? & ? & _). }
  pose proof (revalidation_marks _ _ _ _ _ _ _ _ E1) as [Hm|[_ Hm]]; [|done].
  apply revalidation_undecided in E1. split.
  - rewrite -E1. by eapply fetch_details_failed.
  - rewrite -Hm. by eapply fetch_details_marks.
Qed.

(** C18: the details of a repository are remembered, and only what was read is.
    After a success, however it was obtained, asking again returns the same
    details, asks nobody and changes nothing; after a failure the cache is as
    it was.  A repository is marked as not modified only when the result
    returned is the one that was cached, and the mark is taken once. *)
Theorem repo_details_memoized name s :
  match repo_details config name s with
  | Some (Success st d h tr, s') =>
    h = None /\ tr = false /\
    remembered name st d s' /\
    (name ∈ not_modified_repos s' -> name ∉ not_modified_repos s ->
       exists etag, repo_detail_cache s !! name = Some (mkCachedResult st d etag true))
  | Some (Failure _ _ _, s') =>
    repo_detail_cache s' = repo_detail_cache s /\ not_modified_repos s' = not_modified_repos s
  | None => True
  end /\
  exists marked s1 s2, take_not_modified name s = Some (marked, s1) /\
    (marked = true <-> name ∈ not_modified_repos s) /\
    take_not_modified name s1 = Some (false, s2).
Proof.
  split.
  - destruct (repo_details config name s) as [[[st d h tr|st e b] s']|] eqn:E; [| |done].
    + by apply repo_details_success.
    + by eapply repo_details_failure.
  - eexists _, _, _. split; [reflexivity|]. split; [by rewrite bool_decide_eq_true|].
    unfold take_not_modified, mbind, M_bind. simpl. rewrite bool_decide_false //. set_solver.
Qed.
End Ok.
