(* ===== verification/ClientAnswers.v ===== *)
(** * What a request that fails was answered ([github/client.rs])

    A failure that carries a status other than a success was answered with
    that status by the server, on a page of the walk the request began.  The
    collectors of teams rest on this. *)

From S2P Require Import Prelude Str Json Request Pagination Routes Budget RateLimit Run Auth.
From S2P Require Import Client ClientRequests.

Open Scope N_scope.

(** Documented fact of [serde_json]: an array holds what it was made of. *)
Class JsonArrays (V W : Type) `{!JsonValue V, !ClientEnv V W} : Prop :=
  as_array_mk_array : forall l : list V, as_array (mk_array l) = Some l.

Section Answers.
  Context {V W : Type} `{!JsonValue V, !ClientEnv V W} (config : ClientConfig).
  Notation M := (M V W).

(** The last of these pages answered [status], and the ones before lead to it. *)
Definition refusal (url : string) (status : N) (pgs : list (string * Response)) : Prop :=
  exists ps items u r, pgs = ps ++ [(u, r)] /\ rs_status r = status /\
    listing config url ps = Some (items, Follow u).

(** Somewhere in a trace, a walk from [url] ended with [status]. *)
Definition refused_page (url : string) (status : N) (es : list Event) : Prop :=
  exists before walked after, es = before ++ walked ++ after /\ refusal url status (pages walked).

Lemma refused_page_app url status es es1 es2 :
  refused_page url status es -> refused_page url status (es1 ++ es ++ es2).
Proof.
  intros (b & w & a & -> & H). exists (es1 ++ b), w, (a ++ es2). split; [|done].
  by rewrite -!app_assoc.
Qed.

Lemma refused_page_l url status es es2 :
  refused_page url status es -> refused_page url status (es ++ es2).
Proof. intros H. exact (refused_page_app _ _ _ [] es2 H). Qed.

Lemma refused_page_r url status es1 es :
  refused_page url status es -> refused_page url status (es1 ++ es).
Proof. intros H. rewrite -(app_nil_r es). by apply refused_page_app. Qed.

(** A status that is the server's refusal. *)
Definition is_refusal (status : N) : Prop := ~ (200 <= status < 300) /\ status <> 401.

Lemma is_success_status r : is_success r = true <-> 200 <= rs_status r < 300.
Proof. unfold is_success. rewrite andb_true_iff N.leb_le N.ltb_lt. done. Qed.

Lemma parse_page_failure status bytes before f :
  parse_paginated_page_body status bytes before = Err f ->
  failure_kind_status_code f = Some status.
Proof. unfold parse_paginated_page_body. intros E. by repeat (case_match; simplify_eq/=). Qed.

Lemma effect_http_failure_kind status r :
  effect (fun f es => es = [] /\ failure_kind_status_code f = Some status)
    (http_failure_kind status r : M _).
Proof.
  unfold http_failure_kind. apply effect_bind_quiet; [eauto with client|]. intros _.
  by apply effect_ret.
Qed.

(** What the failure of one attempt rests on. *)
Definition failure_answered (url : string) (a : AttemptResult V) (es : list Event) : Prop :=
  match a with
  | AttemptFailure f => forall status, failure_kind_status_code f = Some status ->
      is_refusal status -> refusal url status (pages es)
  | AttemptSuccess _ _ _ _ => True
  end.

Lemma refusal_here url rq r es : hr_url rq = url -> pages es = [] ->
  refusal url (rs_status r) (pages (es ++ [E_Get rq (Sent r)])).
Proof.
  intros <- Hes. unfold pages in *. rewrite omap_app Hes. simpl.
  by exists [], [], (hr_url rq), r.
Qed.

Lemma refusal_follow url next status page es rq r rest : hr_url rq = url -> pages es = [] ->
  page_items r = Some page ->
  trusted_continuation parse_url (rs_links r) (trusted_origin config) = Follow next ->
  refusal next status (pages rest) -> refusal url status (pages (es ++ E_Get rq (Sent r) :: rest)).
Proof.
  intros <- Hes Hi Hk (ps & items & u & r' & Hp & <- & Hl). unfold pages in *.
  rewrite omap_app Hes. cbn [omap list_omap page_of app]. rewrite Hp.
  exists ((hr_url rq, r) :: ps), (page ++ items), u, r'. split_and!; [done..|].
  cbn [listing]. by rewrite String.eqb_refl Hi /= Hk Hl.
Qed.

Lemma page_of_body response bytes before x :
  is_success response = true ->
  read_body_bytes_limited response MAX_RESPONSE_BODY_BYTES = Ok bytes ->
  parse_paginated_page_body (V := V) (rs_status response) bytes before = Ok x ->
  exists page, page_items (V := V) (W := W) response = Some page.
Proof.
  intros Es Eb. unfold parse_paginated_page_body, page_items. rewrite Es Eb.
  destruct (string_from_utf8 bytes) as [body|]; [|done]. destruct (is_empty (trim body)); [done|].
  destruct (parse_json body) as [v|]; [|done]. simpl. destruct (as_array v); [by eauto|done].
Qed.

Lemma answered_single_body path status bytes etag headers :
  effect (fun a es => es = [] /\
      match a with
      | AttemptFailure f => failure_kind_status_code f = Some status
      | AttemptSuccess _ _ _ _ => True
      end) (parse_single_body path status bytes etag headers : M _).
Proof.
  unfold parse_single_body. destruct (string_from_utf8 bytes) as [body|e]; [|by apply effect_ret].
  destruct (is_empty _).
  { apply effect_bind_quiet; [eauto with client|]. intros _. by apply effect_ret. }
  destruct (parse_json body) as [data|e]; [|by apply effect_ret].
  apply effect_bind_quiet; [eauto with client|]. intros _. by apply effect_ret.
Qed.

Lemma answered_pages_loop n page_count url t before :
  effect (failure_answered url) (pages_loop config n page_count url t before : M _).
Proof.
  revert page_count url before. induction n as [|n IH]; intros pc url before; simpl;
    [by apply effect_ret|].
  apply effect_bind_quiet; [eauto with client|]. intros [|]; [by apply effect_ret|].
  apply (effect_bind (fun _ es => pages es = [])).
  { destruct (1 <? pc); [|by apply effect_ret].
    eapply effect_weaken; [apply effect_acquire|]. by intros g es ->. }
  intros [|]; simpl; [|by apply effect_ret].
  unfold send_paginated_request.
  apply (effect_bind (fun sent es =>
    match sent with
    | Ok response => exists rq, hr_url rq = url /\ es = [E_Get rq (Sent response)]
    | Err f => failure_kind_status_code f = None
    end)).
  { eapply effect_bind; [apply effect_get_request|]. intros r.
    apply effect_bind_quiet; [eauto with client|]. intros _.
    destruct r; apply effect_ret; [|done]. intros es (auth & ->).
    by eexists (mkHttpRequest _ _ _ _). }
  intros [response|f]; [|apply effect_ret; intros es Hf es0 _ st; by rewrite Hf].
  apply effect_bind_quiet; [eauto with client|]. intros _.
  destruct (is_success response) eqn:Es; simpl; last first.
  { eapply effect_bind; [apply effect_http_failure_kind|]. intros f. apply effect_ret.
    intros es2 [-> Hf] es (rq & Hu & ->) es0 Hp st. rewrite Hf app_nil_r.
    intros [= <-] _. by apply refusal_here. }
  apply is_success_status in Es as Hs.
  destruct (read_body_bytes_limited _ _) as [bytes|e] eqn:Eb; last first.
  { apply effect_ret. intros es _ es0 _ st [= <-] [Hn _]. by destruct Hn. }
  destruct (parse_paginated_page_body _ _ _) as [[cut items]|f] eqn:Ep; last first.
  { apply effect_ret. intros es _ es0 _ st. rewrite (parse_page_failure _ _ _ _ Ep).
    intros [= <-] [Hn _]. by destruct Hn. }
  destruct cut; [by apply effect_ret|].
  destruct (trusted_continuation _ _ _) as [|next| |] eqn:Ek; try by apply effect_ret.
  destruct (page_of_body _ _ _ _ Es Eb Ep) as (page & Hpage).
  eapply effect_weaken; [apply IH|]. intros a es Ha es1 (rq & Hu & ->) es0 Hp.
  destruct a as [|f]; [done|]. intros st Hf Hst.
  by eapply refusal_follow; eauto.
Qed.

Lemma answered_attempt path (paginate : bool) t :
  effect (failure_answered (base_url config +:+ path))
    (if paginate then request_paginated config path t else request_single config path t : M _).
Proof.
  destruct paginate; [apply answered_pages_loop|].
  unfold request_single, request_single_inner.
  eapply effect_bind; [apply effect_get_request|]. intros sent.
  apply effect_bind_quiet; [eauto with client|]. intros _.
  destruct sent as [response|]; [|by apply effect_ret].
  apply effect_bind_quiet; [eauto with client|]. intros _.
  destruct (is_success response) eqn:Es; simpl; last first.
  { eapply effect_bind; [apply effect_http_failure_kind|]. intros f. apply effect_ret.
    intros es2 [-> Hf] es (auth & ->) st. rewrite Hf app_nil_r. intros [= <-] _.
    by eapply (refusal_here _ _ _ []). }
  apply is_success_status in Es.
  destruct (read_body_bytes_limited _ _) as [bytes|e]; last first.
  { apply effect_ret. intros es _ st [= <-] [Hn _]. by destruct Hn. }
  eapply effect_weaken; [apply answered_single_body|]. intros a es' [-> Ha] es _.
  destruct a as [|f]; [done|]. intros st. simpl in Ha. rewrite Ha. intros [= <-] [Hn _]. by destruct Hn.
Qed.

(** What the failure of a run rests on. *)
Definition run_answered (url : string) (run : RequestRun V) (es : list Event) : Prop :=
  forall f n status, run_result run = RunFailed f n ->
    failure_kind_status_code f = Some status -> is_refusal status -> refused_page url status es.

Lemma run_answered_r url run es1 es :
  run_answered url run es -> run_answered url run (es1 ++ es).
Proof. intros H f n st E1 E2 E3. apply refused_page_r. by eapply H. Qed.

Lemma answered_attempt_run url a attempt halt es : failure_answered url a es ->
  run_answered url (from_attempt a attempt halt) es.
Proof.
  intros Ha f n st E1 E2 E3. destruct a as [|f']; [done|]. injection E1 as -> _.
  exists [], es, []. rewrite app_nil_r. split; [done|]. by apply Ha.
Qed.

Lemma answered_attempt_body path paginate t attempts attempt stale :
  effect (fun r es => match r with
      | inl run => run_answered (base_url config +:+ path) run es | inr _ => True end)
    (attempt_body config path paginate t attempts attempt stale : M _).
Proof.
  unfold attempt_body. eapply effect_bind; [apply answered_attempt|]. intros a.
  apply effect_bind_quiet; [apply quiet_gets|].
  assert (forall es, failure_answered (base_url config +:+ path) a es ->
    run_answered (base_url config +:+ path) (from_attempt a attempt false) (es ++ [])) as Hret.
  { intros es. rewrite app_nil_r. apply answered_attempt_run. }
  intros [|].
  { apply effect_bind_quiet; [eauto with client|]. intros _. apply effect_ret. intros es Ha.
    rewrite app_nil_r. by apply answered_attempt_run. }
  destruct (bool_decide _ && negb stale && _).
  - eapply effect_bind; [apply effect_ensure_credential|]. intros [[]|e]; apply effect_ret; [done|].
    intros es' _ es _ f n st [= <- _]. done.
  - destruct (attempt_is_retryable a && _); [|by apply effect_ret].
    apply effect_bind_quiet; [eauto with client|]. intros _.
    apply effect_bind_quiet; [eauto with client|]. intros d.
    eapply effect_bind; [apply effect_sleep|]. intros u. by apply effect_ret.
Qed.

Lemma answered_attempts_loop path paginate t attempts d range stale :
  (forall es, run_answered (base_url config +:+ path) d es) ->
  effect (run_answered (base_url config +:+ path))
    (attempts_loop config path paginate t attempts d range stale : M _).
Proof.
  intros Hd. revert stale. induction range as [|k range IH]; intros stale; simpl; [by apply effect_ret|].
  eapply effect_bind; [apply answered_attempt_body|]. intros [run|stale'].
  - apply effect_ret. intros es. by rewrite app_nil_r.
  - eapply effect_weaken; [apply IH|]. intros run es H es0 _. by apply run_answered_r.
Qed.

(** A request that fails with a refusal was answered with it. *)
Lemma effect_request_refused path paginate retries t :
  effect (fun outcome es => forall status, outcome_is_ok outcome = false ->
      outcome_status_code outcome = Some status -> is_refusal status ->
      refused_page (base_url config +:+ path) status es)
    (request config path paginate retries t : M _).
Proof.
  unfold request. apply (effect_bind (run_answered (base_url config +:+ path))).
  - unfold request_run, request_inner. apply effect_bind_quiet; [eauto with client|].
    intros [|]; [by apply effect_ret|].
    eapply effect_bind; [apply effect_ensure_credential|]. intros [[]|e]; [|by apply effect_ret].
    eapply effect_bind; [apply effect_acquire|]. intros [|]; simpl; [|by apply effect_ret].
    apply effect_bind_unwrap. intros attempts _.
    eapply effect_weaken; [apply answered_attempts_loop|].
    + intros es f n st [= <- _] [= <-] [_ Hn]. done.
    + intros run es H es2 _ es1 _. by do 2 apply run_answered_r.
  - intros run. apply effect_ret. intros es H st Eo Es Hst. rewrite app_nil_r.
    unfold run_outcome in Eo, Es. destruct (run_result run) as [[]|s d h tr n|f n] eqn:Er; try done.
    rewrite outcome_status_failure_kind in Es. by eapply H.
Qed.
End Answers.
