(* ===== verification/ClientRuns.v ===== *)
(** * The client across runs ([github/client.rs])

    The cache that passes from one run to the next, the proof that a request
    returns, and a scripted server to run the client on. *)

From S2P Require Import Prelude Str Json Request Pagination Routes Budget RateLimit Run Auth.
From S2P Require Import Client ClientRequests ClientState.

Open Scope N_scope.

(** ** The cache across runs *)

(** Documented facts of [serde_json]'s constructors. *)
Class JsonBuild (V W : Type) `{!JsonValue V, !ClientEnv V W} : Prop := {
  get_mk_object : forall k fields, NoDup (map fst fields) ->
    get k (mk_object fields) = option_map snd (List.find (fun p => String.eqb k (fst p)) fields);
  as_str_mk_string : forall s, as_str (mk_string s) = Some s;
  as_bool_mk_bool : forall b, as_bool (mk_bool b) = Some b;
}.

Section Cache.
  Context {V W : Type} `{!JsonValue V, !ClientEnv V W}.
  Implicit Type s : Client V W.

(** What a collector reads of a repository's details. *)
Definition same_detail (data data' : V) : Prop :=
  get_str "default_branch" data' = Some (or_else "main" (get_str "default_branch" data)) /\
  get_str "updated_at" data' = get_str "updated_at" data /\
  get "security_and_analysis" data' = get "security_and_analysis" data /\
  get_bool "is_security_policy_enabled" data' = get_bool "is_security_policy_enabled" data.

Lemma detail_object_get `{!JsonBuild V W} now c data detail k :
  cr_data c = Some data -> export_entry now c = Some detail ->
  get k (detail_object detail : V) =
    if String.eqb k "default_branch" then Some (mk_string (or_else "main" (get_str "default_branch" data)))
    else if String.eqb k "updated_at" then option_map mk_string (get_str "updated_at" data)
    else if String.eqb k "security_and_analysis" then get "security_and_analysis" data
    else if String.eqb k "is_security_policy_enabled" then
      option_map mk_bool (get_bool "is_security_policy_enabled" data)
    else None.
Proof.
  intros Hd E. unfold export_entry in E. rewrite Hd in E. cbn [mbind option_bind] in E.
  injection E as <-. unfold detail_object.
  cbn [cd_default_branch cd_updated_at cd_security_and_analysis cd_is_security_policy_enabled].
  destruct (get_str "updated_at" data), (get "security_and_analysis" data),
    (get_bool "is_security_policy_enabled" data);
    (rewrite get_mk_object; [|cbn [map fst app]; repeat first [apply NoDup_nil_2|apply NoDup_cons_2; [set_solver|]]]);
    cbn [app List.find fst];
    (destruct (String.eqb_spec k "default_branch") as [->|]; [done|]);
    (destruct (String.eqb_spec k "updated_at") as [->|]; [done|]);
    (destruct (String.eqb_spec k "security_and_analysis") as [->|]; [done|]);
    by destruct (String.eqb k "is_security_policy_enabled").
Qed.

Lemma seed_fold cutoff (entries : list (string * CachedRepoDetail V)) cache name :
  NoDup (map fst entries) ->
  Forall (fun kd => (cutoff <= cd_fetched_at (snd kd))%Z) entries ->
  fold_left (seed_entry cutoff) entries cache !! name =
    match List.find (fun kd => String.eqb name (fst kd)) entries with
    | Some (_, d) => Some (mkCachedResult 200 (Some (detail_object d)) (cd_etag d) false)
    | None => cache !! name
    end.
Proof.
  revert cache. induction entries as [|[key d] entries IH]; intros cache Hn Hf; [done|].
  inversion Hn as [|? ? Hnin Hn']; subst. inversion Hf as [|? ? H1 H2]; subst. simpl in *.
  rewrite IH //. rewrite (proj2 (Z.ltb_ge _ _)) //.
  destruct (String.eqb_spec name key) as [->|Hne].
  - destruct (List.find _ entries) as [[k' d']|] eqn:E; [|by rewrite lookup_insert_eq].
    apply List.find_some in E as [Hin Heq]. apply String.eqb_eq in Heq. simpl in Heq. subst k'.
    destruct Hnin. apply list_elem_of_fmap. exists (key, d'). split; [done|].
    by apply list_elem_of_In.
  - destruct (List.find _ entries) as [[k' d']|]; [done|]. by rewrite lookup_insert_ne.
Qed.

(** The exported entries of a list of cached results. *)
Definition exported (now : Timestamp) (l : list (string * CachedResult V))
    : list (string * CachedRepoDetail V) :=
  omap (fun kc => detail ← export_entry now (snd kc); Some (fst kc, detail)) l.

Lemma exported_fst now l k d : (k, d) ∈ exported now l -> k ∈ map fst l.
Proof.
  intros ([k' c] & Hin & E)%list_elem_of_omap. simpl in E.
  destruct (export_entry now c); [|done]. injection E as -> ->.
  apply list_elem_of_fmap. by exists (k, c).
Qed.

Lemma exported_NoDup now l : NoDup (map fst l) -> NoDup (map fst (exported now l)).
Proof.
  induction l as [|[k c] l IH]; intros Hn; [constructor|]. inversion Hn as [|? ? H1 H2]; subst.
  unfold exported. simpl. destruct (export_entry now c) as [d|]; simpl; [|by apply IH].
  constructor; [|by apply IH]. intros ([k' d'] & -> & Hin)%list_elem_of_fmap.
  by apply exported_fst in Hin.
Qed.

Lemma exported_fetched now l : Forall (fun kd => cd_fetched_at (snd kd) = now) (exported now l).
Proof.
  apply Forall_forall. intros [k d] ([k' c] & _ & E)%list_elem_of_omap. simpl in E.
  unfold export_entry in E. destruct (cr_data c); [|done]. by injection E as <- <-.
Qed.

Lemma exported_find now l name : NoDup (map fst l) ->
  List.find (fun kd => String.eqb name (fst kd)) (exported now l) =
    match List.find (fun kc => String.eqb name (fst kc)) l with
    | Some (_, c) => option_map (pair name) (export_entry now c)
    | None => None
    end.
Proof.
  induction l as [|[k c] l IH]; intros Hn; [done|]. inversion Hn as [|? ? H1 H2]; subst.
  unfold exported. simpl. fold (exported now l).
  destruct (String.eqb_spec name k) as [->|Hne].
  - destruct (export_entry now c) as [d|]; simpl; [by rewrite String.eqb_refl|].
    fold (exported now l). rewrite IH //.
    destruct (List.find _ l) as [[k' c']|] eqn:E; [|done].
    apply List.find_some in E as [Hin Heq]. apply String.eqb_eq in Heq. simpl in Heq. subst k'.
    destruct H1. apply list_elem_of_fmap. exists (k, c'). split; [done|]. by apply list_elem_of_In.
  - destruct (export_entry now c) as [d|]; simpl; [|by apply IH].
    rewrite (proj2 (String.eqb_neq _ _) Hne). by apply IH.
Qed.

Lemma find_map_to_list (m : gmap string (CachedResult V)) name :
  List.find (fun kc => String.eqb name (fst kc)) (map_to_list m) = option_map (pair name) (m !! name).
Proof.
  destruct (m !! name) as [c|] eqn:Em; simpl.
  - destruct (List.find _ _) as [[k' c']|] eqn:E.
    + apply List.find_some in E as [Hin Heq]. apply String.eqb_eq in Heq. simpl in Heq. subst k'.
      apply list_elem_of_In, elem_of_map_to_list in Hin. congruence.
    + assert (List.In (name, c) (map_to_list m)) as Hin by by apply list_elem_of_In, elem_of_map_to_list.
      pose proof (List.find_none _ _ E _ Hin) as H. by rewrite /= String.eqb_refl in H.
  - destruct (List.find _ _) as [[k' c']|] eqn:E; [|done].
    apply List.find_some in E as [Hin Heq]. apply String.eqb_eq in Heq. simpl in Heq. subst k'.
    apply list_elem_of_In, elem_of_map_to_list in Hin. congruence.
Qed.
(** What one run leaves in the cache the next one finds, and no more.
    Exported and seeded again within a day, every entry with data is there,
    fresh and with its entity tag, and its four fields read as before; nothing
    else of it is kept, [permissions] in particular; entries without data are
    dropped.  The export stamps every entry with its own time, those that were
    seeded and never read again included. *)
Lemma cache_roundtrip `{!JsonBuild V W} s s2 :
  exists entries s1, export_cache s = Some (entries, s1) /\
    Forall (fun kd => cd_fetched_at (snd kd) = fst (timestamp_now (world s))) entries /\
    ((fst (timestamp_now (world s2)) - 24 * 3600 * 1000000000 <= fst (timestamp_now (world s)))%Z ->
     exists s3, seed_cache entries s2 = Some ((), s3) /\
     forall name,
       match repo_detail_cache s !! name with
       | Some (mkCachedResult _ (Some data) etag _) =>
         exists data', repo_detail_cache s3 !! name = Some (mkCachedResult 200 (Some data') etag false) /\
           same_detail data data' /\ get "permissions" data' = None
       | _ => repo_detail_cache s3 !! name = repo_detail_cache s2 !! name
       end).
Proof.
  unfold export_cache, mbind, M_bind, call. destruct (timestamp_now (world s)) as [now w] eqn:Ew.
  eexists _, _. split; [reflexivity|]. simpl.
  fold (exported now (map_to_list (repo_detail_cache s))).
  pose proof (exported_fetched now (map_to_list (repo_detail_cache s))) as Hf.
  split; [done|]. intros Hage. unfold seed_cache, mbind, M_bind, call.
  destruct (timestamp_now (world s2)) as [now2 w2] eqn:Ew2. eexists. split; [reflexivity|].
  intros name. simpl in *.
  rewrite seed_fold; last first.
  { eapply Forall_impl; [exact Hf|]. intros kd ->. unfold CACHE_TTL, REPO_CACHE_TTL_HOURS, NANOS. lia. }
  { apply exported_NoDup, NoDup_fst_map_to_list. }
  rewrite exported_find; [|apply NoDup_fst_map_to_list]. rewrite find_map_to_list.
  destruct (repo_detail_cache s !! name) as [[st [data|] etag stale]|]; simpl; [|done|done].
  set (c := mkCachedResult st (Some data) etag stale).
  destruct (export_entry now c) as [d|] eqn:Ed; [|done].
  injection Ed as Ed. rewrite Ed. assert (export_entry now c = Some d) as Ed' by by rewrite -Ed.
  eexists. split; [done|]. unfold same_detail, get_str, get_bool.
  rewrite !(fun k => detail_object_get now c data d k eq_refl Ed'). cbn [String.eqb Ascii.eqb Bool.eqb].
  unfold get_str, get_bool. split_and!; simpl.
  - by rewrite as_str_mk_string.
  - destruct (get "updated_at" data ≫= as_str); simpl; [by rewrite as_str_mk_string|done].
  - done.
  - destruct (get "is_security_policy_enabled" data ≫= as_bool); simpl; [by rewrite as_bool_mk_bool|done].
  - done.
Qed.
End Cache.

(** ** A request returns *)

(** An environment that gives no reason to panic: a clock that leaves room for
    the refresh margin, a generator within its bound, keys made of bytes, and
    no [Retry-After] beyond the platform's instants. *)
Class CalmEnv (V W : Type) `{!ClientEnv V W} : Prop := {
  calm_clock : forall w, fst (unix_now (V := V) w) + TOKEN_REFRESH_BUFFER <= u64_max;
  calm_random : forall n w, fst (random_below (V := V) n w) <= n;
  calm_pem : forall pem der, parse_pem (V := V) (W := W) pem = Ok der -> Forall is_byte der;
  calm_retry_after : forall rq w r, fst (send (V := V) rq w) = Sent r -> forall w1 w2 body,
    secondary_limit_resume_at (instant_max (V := V) (W := W)) (fst (instant_now (V := V) w1))
      (fst (system_now (V := V) w2)) (parse_http_date (V := V) (W := W)) (rs_status r)
      (rs_headers r) body <> None;
}.

Section Total.
  Context {V W : Type} `{!JsonValue V, !ClientEnv V W, !CalmEnv V W} (config : ClientConfig).
  Notation M := (M V W).
  Implicit Type s : Client V W.

(** [c] returns, with a value in [R]. *)
Definition returns {A} (R : A -> Prop) (c : M A) : Prop :=
  forall s, exists a s', c s = Some (a, s') /\ R a.

Definition total {A} (c : M A) : Prop := returns (fun _ => True) c.

Lemma returns_bind {A B} (R : A -> Prop) (Q : B -> Prop) (c : M A) (f : A -> M B) :
  returns R c -> (forall a, R a -> returns Q (f a)) -> returns Q (c ≫= f).
Proof.
  intros Hc Hf s. destruct (Hc s) as (a & s1 & E1 & Ha). destruct (Hf a Ha s1) as (b & s2 & E2 & Hb).
  exists b, s2. split; [|done]. apply bind_Some. eauto.
Qed.

Lemma total_bind {A B} (Q : B -> Prop) (c : M A) (f : A -> M B) :
  total c -> (forall a, returns Q (f a)) -> returns Q (c ≫= f).
Proof. intros Hc Hf. eapply returns_bind; [exact Hc|]. auto. Qed.

Lemma total_seq {A B} (c : M A) (f : A -> M B) :
  total c -> (forall a, total (f a)) -> total (c ≫= f).
Proof. apply total_bind. Qed.

Lemma total_ret {A} (a : A) : total (mret a).
Proof. intros s. by exists a, s. Qed.
Lemma total_gets {A} (f : Client V W -> A) : total (gets f).
Proof. intros s. by eexists _, _. Qed.
Lemma total_modify f : total (modify f : M ()).
Proof. intros s. by eexists _, _. Qed.
Lemma returns_call {A} (R : A -> Prop) (f : W -> A * W) :
  (forall w, R (fst (f w))) -> returns R (call f).
Proof.
  intros H s. unfold call. specialize (H (world s)). destruct (f (world s)) as [a w].
  by eexists _, _.
Qed.
Lemma total_call {A} (f : W -> A * W) : total (call f).
Proof. by apply returns_call. Qed.
Lemma total_unwrap {A} (o : option A) : o <> None -> total (unwrap o).
Proof. intros H s. destruct o as [a|]; [|done]. by exists a, s. Qed.

Lemma total_if {A} (b : bool) (c d : M A) : total c -> total d -> total (if b then c else d).
Proof. by destruct b. Qed.

(** Walks through a computation whose parts return. *)
Ltac total_step :=
  first
  [ solve [auto using total_ret, total_gets, total_modify, total_call]
  | match goal with
    | |- total (if ?b then _ else _) => apply total_if
    | |- total (match ?x with _ => _ end) => destruct x
    | |- total (_ ≫= _) => apply total_seq; [|intros ?]
    | |- returns (fun _ => True) ?c => change (total c)
    end ].

(** A response that gives no reason to panic. *)
Definition calm (r : Response) : Prop := forall w1 w2 body,
  secondary_limit_resume_at (instant_max (V := V) (W := W)) (fst (instant_now (V := V) w1))
    (fst (system_now (V := V) w2)) (parse_http_date (V := V) (W := W)) (rs_status r)
    (rs_headers r) body <> None.

Lemma total_is_halted : total (is_halted : M bool).
Proof. unfold is_halted. repeat total_step. Qed.
Lemma total_note_halt : total (note_rate_limit_halt : M ()).
Proof. unfold note_rate_limit_halt. repeat total_step. Qed.
Lemma total_acquire : total (acquire : M bool).
Proof. unfold acquire. repeat total_step. Qed.
Lemma total_failure_kind r : calm r -> total (http_failure_kind (rs_status r) r : M _).
Proof.
  intros Hr. unfold http_failure_kind, record_secondary_limit_backoff.
  apply total_bind; [|intros; apply total_ret].
  eapply returns_bind; [apply (returns_call (fun t => exists w, t = fst (instant_now (V := V) w)));
    eauto|intros now [w1 ->]].
  eapply returns_bind; [apply (returns_call (fun t => exists w, t = fst (system_now (V := V) w)));
    eauto|intros system [w2 ->]].
  apply total_bind; [apply total_unwrap, Hr|]. intros o. repeat total_step.
Qed.
Lemma total_needs_refresh : total (credential_needs_refresh : M bool).
Proof.
  unfold credential_needs_refresh. apply total_bind; [apply total_gets|]. intros exp.
  destruct (exp =? 0); [apply total_ret|].
  eapply returns_bind; [apply (returns_call (fun now => now + TOKEN_REFRESH_BUFFER <= u64_max)), calm_clock|].
  intros now Hnow. cbv beta in Hnow. apply total_bind; [|intros; apply total_ret].
  apply total_unwrap. unfold checked_add. by rewrite (proj2 (N.leb_le _ _)).
Qed.
Lemma total_post url auth : total (http_post url auth : M _).
Proof. unfold http_post. repeat total_step. Qed.
Lemma total_exchange app : total (exchange_installation_token config app : M _).
Proof.
  unfold exchange_installation_token. apply total_bind; [apply total_call|]. intros now.
  apply total_bind.
  { apply total_unwrap. unfold generate_app_jwt.
    destruct (validate_rsa_key_size _ _) as [[]|] eqn:E; [done|done|].
    apply validate_rsa_key_size_total in E; [done|]. apply calm_pem. }
  intros [jwt|e]; [|apply total_ret]. destruct (negb _); [apply total_ret|].
  apply total_bind; [apply total_post|]. intros [r|]; repeat total_step.
Qed.
Lemma total_ensure : total (ensure_credential config : M _).
Proof.
  unfold ensure_credential. apply total_bind; [apply total_needs_refresh|]. intros [|]; [|apply total_ret].
  apply total_bind; [apply total_needs_refresh|]. intros [|]; [|apply total_ret]. simpl.
  destruct (app_config config); [|apply total_ret].
  apply total_bind; [apply total_exchange|]. intros [|]; repeat total_step.
Qed.
Lemma returns_get url inm t :
  returns (fun sent => forall r, sent = Sent r -> calm r) (get_request url inm t : M _).
Proof.
  unfold get_request, http_get. apply total_bind; [apply total_gets|]. intros auth.
  eapply returns_bind.
  { apply (returns_call (fun sent => forall r, sent = Sent r -> calm r)).
    intros w r E w1 w2 body. by eapply calm_retry_after. }
  intros sent Hs. apply total_bind; [apply total_modify|]. intros _ s. by exists sent, s.
Qed.
Lemma total_observe h : total (observe_headers h : M ()).
Proof. apply total_modify. Qed.
Lemma total_single path t capture : total (request_single_inner config path t capture : M _).
Proof.
  unfold request_single_inner. eapply returns_bind; [apply returns_get|]. intros sent Hs.
  apply total_bind; [apply total_modify|]. intros _. destruct sent as [r|]; [|apply total_ret].
  apply total_bind; [apply total_observe|]. intros _. destruct (negb _).
  { apply total_bind; [by apply total_failure_kind, Hs|]. intros; apply total_ret. }
  destruct (read_body_bytes_limited _ _); [|apply total_ret].
  unfold parse_single_body, record_etag. repeat total_step.
Qed.
Lemma total_pages n pc url t items : total (pages_loop config n pc url t items : M _).
Proof.
  revert pc url items. induction n as [|n IH]; intros; simpl; [apply total_ret|].
  apply total_bind; [apply total_is_halted|]. intros [|]; [apply total_ret|].
  apply total_bind; [destruct (_ <? _); [apply total_acquire|apply total_ret]|].
  intros [|]; [|apply total_ret]. simpl.
  apply (returns_bind (fun sent => forall r, sent = Ok r -> calm r)).
  { unfold send_paginated_request. eapply returns_bind; [apply returns_get|]. intros sent Hs.
    apply total_bind; [apply total_modify|]. intros _. destruct sent as [r|]; intros s.
    - eexists _, s. split; [done|]. intros r' [= <-]. by apply Hs.
    - by eexists _, s. }
  intros [r|] Hs; [|apply total_ret].
  apply total_bind; [apply total_observe|]. intros _. destruct (negb _).
  { apply total_bind; [by apply total_failure_kind, Hs|]. intros; apply total_ret. }
  destruct (read_body_bytes_limited _ _); [|apply total_ret].
  destruct (parse_paginated_page_body _ _ _) as [[[] ?]|]; [apply total_ret| |apply total_ret].
  destruct (trusted_continuation _ _ _); try apply total_ret. apply IH.
Qed.
Lemma total_backoff attempt : attempt <= 53 -> total (backoff_delay attempt : M N).
Proof.
  intros Ha. unfold backoff_delay. apply total_bind; [apply total_gets|]. intros [r|].
  { apply total_bind; [apply total_call|]. intros; apply total_ret. }
  assert (1000 * 2 ^ attempt <= 1000 * 2 ^ 53).
  { apply N.mul_le_mono_l, N.pow_le_mono_r; lia. }
  assert (1000 * 2 ^ 53 + 1000 * 2 ^ 53 <= u64_max) by done.
  rewrite (proj2 (N.ltb_ge _ _)); [|lia].
  eapply returns_bind; [apply (returns_call (fun j => j <= 1000 * 2 ^ attempt)), calm_random|].
  intros j Hj. cbv beta in Hj. apply total_bind; [|intros; apply total_ret].
  apply total_unwrap. unfold checked_add. by rewrite (proj2 (N.leb_le _ _)); [|lia].
Qed.
Lemma total_attempt_body path paginate t attempts attempt stale : attempts <= 55 ->
  total (attempt_body config path paginate t attempts attempt stale : M _).
Proof.
  intros Ha. unfold attempt_body.
  apply total_bind; [destruct paginate; [apply total_pages|apply total_single]|]. intros a.
  apply total_bind; [apply total_gets|]. intros [|].
  { apply total_bind; [apply total_note_halt|]. intros; apply total_ret. }
  destruct (_ && _).
  { apply total_bind; [apply total_ensure|]. intros [|]; apply total_ret. }
  destruct (_ && _) eqn:Er; [|apply total_ret]. apply andb_prop in Er as [_ Hlt%N.ltb_lt].
  apply total_bind; [unfold count_429; destruct (bool_decide _); [apply total_modify|apply total_ret]|].
  intros _. apply total_bind; [apply total_backoff; lia|]. intros d.
  apply total_bind; [apply total_modify|]. intros; apply total_ret.
Qed.
Lemma total_attempts path paginate t attempts d l stale : attempts <= 55 ->
  total (attempts_loop config path paginate t attempts d l stale : M _).
Proof.
  intros Ha. revert stale. induction l as [|a l IH]; intros; simpl; [apply total_ret|].
  apply total_bind; [by apply total_attempt_body|]. intros [|]; [apply total_ret|apply IH].
Qed.

(** C40: every request comes back.  In an environment without a [Retry-After]
    beyond the platform's instants, a request of at most fifty-four retries,
    paginated or not, returns an outcome whatever the server answers and
    however often: it neither panics nor runs on, and the details of a
    repository are answered too. *)
Theorem request_returns path paginate retries t name :
  retries <= 54 ->
  total (request config path paginate retries t : M _) /\ total (repo_details config name : M _).
Proof.
  assert (forall path paginate retries t, retries <= 54 ->
    total (request config path paginate retries t : M _)) as Hreq.
  { intros path' paginate' retries' t' Hr. unfold request, request_run, request_inner.
    apply total_bind; [|intros; apply total_ret].
    apply total_bind; [apply total_is_halted|]. intros [|]; [apply total_ret|].
    apply total_bind; [apply total_ensure|]. intros [|]; [|apply total_ret].
    apply total_bind; [apply total_acquire|]. intros [|]; [|apply total_ret]. simpl.
    unfold checked_add. assert (55 <= u32_max) by done.
    rewrite (proj2 (N.leb_le _ u32_max)); [|lia].
    apply (returns_bind (fun n => n = retries' + 1)); [intros s'; by exists (retries' + 1), s'|].
    intros n ->. apply total_attempts. lia. }
  assert (forall name path, total (fetch_details config name path : M _)) as Hfetch.
  { intros name' path'. unfold fetch_details.
    apply total_bind; [apply Hreq; unfold DEFAULT_MAX_RETRIES; lia|]. intros r.
    unfold cache_insert. repeat total_step. }
  intros Hr. split; [by apply Hreq|].
  unfold repo_details. destruct (sanitize_path_segment _ _); [|apply total_ret].
  apply total_bind; [apply total_gets|]. intros [c|]; [|apply Hfetch].
  destruct (cr_stale c); [|apply total_ret]. apply total_bind; [|intros [|]; [apply total_ret|apply Hfetch]].
  unfold try_etag_revalidation. destruct (cr_etag c); [|apply total_ret].
  apply total_bind; [apply total_ensure|]. intros [|]; [|apply total_ret].
  apply total_bind; [apply total_is_halted|]. intros [|]; [apply total_ret|].
  apply total_bind; [apply total_acquire|]. intros [|]; [|apply total_ret]. simpl.
  eapply returns_bind; [apply returns_get|]. intros [r|] _; [|apply total_ret].
  unfold observe_headers, refund, cache_revalidated_response, cache_insert. repeat total_step.
Qed.
End Total.

(** ** A scripted server, to run the client on *)

Definition ok_page (links : list (option string)) (body : string) : SendResult :=
  Sent (mkResponse 200 (fun _ => None) links None [Ok body]).
Definition error_page (status : N) (body : string) : SendResult :=
  Sent (mkResponse status (fun _ => None) [] None [Ok body]).

(** The bodies the examples use. *)
Definition sample_json (body : string) : result string Json :=
  if String.eqb body "[1]" then Ok (JArr [JNum 1])
  else if String.eqb body "[2]" then Ok (JArr [JNum 2])
  else if String.eqb body "{}" then
    Ok (JObj [("default_branch", JStr "main"); ("permissions", JObj [("admin", JBool true)])])
  else if String.eqb body "[teams]" then Ok (JArr [JObj [("slug", JStr "platform")]])
  else if String.eqb body "[team members]" then
    Ok (JArr [JObj [("login", JStr "octocat")];
              JObj [("login", JStr "Alice"); ("role", JStr "maintainer")]])
  else if String.eqb body "[org members]" then
    Ok (JArr [JObj [("login", JStr "alice")]; JObj [("login", JStr "bob")]])
  else Err "unexpected token".

Definition sample_origin (url : string) : option (string * option string * option N) :=
  if starts_with "https://api.github.com/" (url +:+ "/") then Some ("https", Some "api.github.com", None)
  else if starts_with "https://evil.example/" url then Some ("https", Some "evil.example", None)
  else None.

(** The world is the answers left to give. *)
#[export] Instance scripted : ClientEnv Json (list SendResult) := {|
  unix_now w := (1000, w);
  timestamp_now w := ((1000 * NANOS)%Z, w);
  instant_now w := (0, w);
  system_now w := (0, w);
  instant_max := u64_max * NANOS_PER_SEC;
  send _ w := match w with [] => (SendFailed "connection closed" false, []) | r :: w => (r, w) end;
  post _ _ w := (SendFailed "connection closed" false, w);
  sleep _ w := w;
  random_below n w := (0, w);
  budget_acquire w := (true, w);
  budget_refund w := w;
  budget_total_calls_made _ := 0;
  budget_epoch_limit _ := 4000;
  rl_observe _ w := w;
  rl_should_halt _ := false;
  rl_load_reset _ := None;
  set_backoff _ w := w;
  resume_at _ := None;
  parse_json := sample_json;
  parse_token_response _ := Err "no token";
  parse_timestamp _ := Err "no timestamp";
  parse_http_date _ := None;
  parse_url := sample_origin;
  url_error _ := "relative URL without a base";
  header_value_ok _ := true;
  parse_pem _ := Err "no key";
  encode_jwt _ _ := Err "no key";
  sanitize_path_segment s _ := if is_empty s || contains_char "/"%char s then Err "bad segment" else Ok s;
  mk_string := JStr;
  mk_bool := JBool;
  mk_array := JArr;
  mk_object := JObj;
|}.

Definition sample_config : ClientConfig :=
  mkClientConfig "https://api.github.com" "https://api.github.com" "acme" None.

Definition sample_client (answers : list SendResult) : Client Json (list SendResult) :=
  mkClient 0 (mkGitHubCredential AM_Pat "t" None) "Bearer t" 0 0 ∅ ∅ ∅ ∅ None (for_run 0) answers [].

(** Two pages, the second after a server error and a retry of the whole walk. *)
Example sample_listing :
  let next := [Some "<https://api.github.com/r?page=2>; rel=next"] in
  option_map fst (request sample_config "/r" true 2 30
    (sample_client [ok_page next "[1]"; error_page 502 "bad gateway"; ok_page next "[1]"; ok_page [] "[2]"]))
  = Some (Success 200 (Some (JArr [JNum 1; JNum 2])) None false).
Proof. vm_compute. reflexivity. Qed.

(** A [next] link to another origin is not followed, and the listing is marked. *)
Example sample_refused :
  option_map (fun r => (fst r, count is_get (trace (snd r)))) (request sample_config "/r" true 2 30
    (sample_client [ok_page [Some "<https://evil.example/r?page=2>; rel=next"] "[1]"; ok_page [] "[2]"]))
  = Some (Success 200 (Some (JArr [JNum 1])) None true, 1%nat).
Proof. vm_compute. reflexivity. Qed.

(** Three attempts against a server that stays down: one permit, three requests. *)
Example sample_retries_share_a_permit :
  option_map (fun r => let es := trace (snd r) in (count is_get es, count is_grant es))
    (request sample_config "/r" false 2 30
       (sample_client [error_page 503 "down"; error_page 503 "down"; error_page 503 "down"]))
  = Some (3, 1)%nat.
Proof. vm_compute. reflexivity. Qed.

#[export] Instance scripted_build : JsonBuild Json (list SendResult).
Proof.
  split; [|done|done]. intros k fields _. simpl.
  induction fields as [|[k' v] fields IH]; simpl; [done|]. by destruct (String.eqb k k').
Qed.

#[export] Instance scripted_calm : CalmEnv Json (list SendResult).
Proof.
  split; simpl; [done|lia|done|].
  intros rq w r _ w1 w2 body. unfold secondary_limit_resume_at.
  destruct (negb _); [done|]. unfold parse_retry_after. destruct (rs_headers r "retry-after"); [|done].
  destruct (parse_unsigned _ _) as [secs|] eqn:E; [|done]. apply parse_unsigned_bound in E.
  unfold instant_add, checked_add. rewrite (proj2 (N.leb_le _ _)); [done|].
  rewrite N.add_0_l. by apply N.mul_le_mono_r.
Qed.

(** A server that is down, and one whose walk ends. *)
Lemma request_returns_witness :
  exists outcome s', request sample_config "/r" true 2 30
    (sample_client [error_page 503 "down"; ok_page [] "[2]"]) = Some (outcome, s').
Proof.
  destruct (proj1 (request_returns (V := Json) (W := list SendResult) sample_config "/r" true 2 30
      "web" ltac:(lia)) (sample_client [error_page 503 "down"; ok_page [] "[2]"]))
    as (outcome & s' & E & _).
  exists outcome, s'. exact E.
Defined.

(** A run that read the details of a repository, and the next one. *)
Definition after_details : Client Json (list SendResult) :=
  match repo_details sample_config "web" (sample_client [ok_page [] "{}"]) with
  | Some (_, s) => s
  | None => sample_client []
  end.

Definition details_read : Json :=
  JObj [("default_branch", JStr "main"); ("permissions", JObj [("admin", JBool true)])].

Example after_details_cached :
  repo_detail_cache after_details !! "web" = Some (mkCachedResult 200 (Some details_read) None false).
Proof. vm_compute. reflexivity. Qed.

Lemma cache_roundtrip_witness :
  exists entries s1 s3, export_cache after_details = Some (entries, s1) /\
    seed_cache entries (sample_client []) = Some ((), s3) /\
    exists data', repo_detail_cache s3 !! "web" = Some (mkCachedResult 200 (Some data') None false) /\
      get_str "default_branch" data' = Some "main" /\ get "permissions" data' = None.
Proof.
  destruct (cache_roundtrip (V := Json) (W := list SendResult) after_details (sample_client []))
    as (entries & s1 & E1 & _ & H).
  destruct H as (s3 & E3 & H3); [apply Z.leb_le; vm_compute; reflexivity|].
  exists entries, s1, s3. split; [exact E1|]. split; [exact E3|].
  specialize (H3 "web"). rewrite after_details_cached in H3. cbv beta iota in H3.
  destruct H3 as (data' & E & (Hd & _) & Hp).
  exists data'. split; [exact E|]. split; [exact Hd|exact Hp].
Defined.

(** The administrator's mark on a repository's details, which a confirmed
    absence of branch protection needs, does not survive into the next run. *)
Example permissions_are_lost :
  option_map fst (repo_details sample_config "web" after_details) =
    Some (Success 200 (Some (JObj [("default_branch", JStr "main");
      ("permissions", JObj [("admin", JBool true)])])) None false) /\
  (entries ← option_map fst (export_cache after_details);
   s ← option_map snd (seed_cache entries (sample_client []));
   option_map fst (repo_details sample_config "web" s)) =
    Some (Success 200 (Some (JObj [("default_branch", JStr "main")])) None false).
Proof. vm_compute. split; reflexivity. Qed.
