(* ===== verification/Projection.v ===== *)
(** * The read model ([projection.rs])

    The projection that folds the event stream into the evidence the reports
    read: live repositories, deleted repositories, the organization snapshot,
    team rosters and ghost rosters.  A [BTreeMap] is a [gmap]; its iteration
    order is [btree_entries]. *)

From S2P Require Import Prelude Str Repository Checks Evidence Metrics Run Inventory.

(** ** State *)

Record OrgReadModel := mkOrgReadModel {
  org_archived_repos : N;
  org_assessment_metadata : AssessmentMetadata;
  org_alert_summary : OrgAlertSummary;
}.

Record DeletedRepoRecord := mkDeletedRepoRecord {
  deleted_repo_name : string;
  deleted_detected_at : string;
}.
#[export] Instance DeletedRepoRecord_eq_dec : EqDecision DeletedRepoRecord.
Proof. solve_decision. Defined.

(** [From<OrgStateSnapshot>]. *)
Definition OrgReadModel_from (s : OrgStateSnapshot) : OrgReadModel :=
  mkOrgReadModel (os_archived_repos s) (os_assessment_metadata s) (os_alert_summary s).

Definition org_is_complete (o : OrgReadModel) : bool :=
  bool_decide (collection_status (org_alert_summary o) = CS_Success).

Record EvidenceProjection := mkEvidenceProjection {
  p_repositories : gmap string RepositoryEvidence;
  p_deleted : gmap string DeletedRepoRecord;
  p_org_state : option OrgReadModel;
  p_team_rosters : gmap string TeamRoster;
  p_team_ghost_rosters : gmap string TeamRoster;
}.

Definition EvidenceProjection_default : EvidenceProjection :=
  mkEvidenceProjection ∅ ∅ None ∅ ∅.

(** ** Events *)

Inductive EvidenceProjectionEvent :=
| RepositoryStateCaptured (detached : bool) (domain_key : string)
    (evidence : option RepositoryEvidence)
| RepositoryDeleted (domain_key repo_name detected_at : string)
| OrgStateCaptured (snapshot : OrgStateSnapshot)
| TeamStateCaptured (detached : bool) (domain_key : string) (roster : option TeamRoster).

Definition event_type (e : EvidenceProjectionEvent) : string :=
  match e with
  | RepositoryStateCaptured _ _ _ => "gh-report.projection.repository_state_captured"
  | RepositoryDeleted _ _ _ => "gh-report.projection.repository_deleted"
  | OrgStateCaptured _ => "gh-report.projection.org_state_captured"
  | TeamStateCaptured _ _ _ => "gh-report.projection.team_state_captured"
  end.

(** [opt.is_some_and(f)]. *)
Definition is_some_and {A} (f : A -> bool) (o : option A) : bool :=
  match o with Some a => f a | None => false end.

Definition roster_complete (r : TeamRoster) : bool :=
  bool_decide (roster_status r = TRS_Complete).

(** [EvidenceProjection::apply_org_state]. *)
Definition apply_org_state (snapshot : OrgStateSnapshot) (p : EvidenceProjection)
    : EvidenceProjection :=
  let incoming := OrgReadModel_from snapshot in
  let existing_is_complete := is_some_and org_is_complete (p_org_state p) in
  let incoming_is_complete := org_is_complete incoming in
  if negb existing_is_complete || incoming_is_complete then
    mkEvidenceProjection (p_repositories p) (p_deleted p) (Some incoming)
      (p_team_rosters p) (p_team_ghost_rosters p)
  else p.

(** [Projection::apply]. *)
Definition apply (p : EvidenceProjection) (e : EvidenceProjectionEvent) : EvidenceProjection :=
  match e with
  | RepositoryStateCaptured detached domain_key evidence =>
    if detached then
      mkEvidenceProjection (delete domain_key (p_repositories p)) (p_deleted p) (p_org_state p)
        (p_team_rosters p) (p_team_ghost_rosters p)
    else
      match evidence with
      | Some evidence =>
        let existing_is_complete :=
          is_some_and is_complete (p_repositories p !! domain_key) in
        let incoming_is_complete := is_complete evidence in
        if negb existing_is_complete || incoming_is_complete then
          mkEvidenceProjection (<[domain_key := evidence]> (p_repositories p))
            (delete domain_key (p_deleted p)) (p_org_state p)
            (p_team_rosters p) (p_team_ghost_rosters p)
        else p
      | None => p
      end
  | RepositoryDeleted domain_key repo_name detected_at =>
    mkEvidenceProjection (delete domain_key (p_repositories p))
      (<[domain_key := mkDeletedRepoRecord repo_name detected_at]> (p_deleted p))
      (p_org_state p) (p_team_rosters p) (p_team_ghost_rosters p)
  | OrgStateCaptured snapshot => apply_org_state snapshot p
  | TeamStateCaptured detached domain_key roster =>
    if detached then
      mkEvidenceProjection (p_repositories p) (p_deleted p) (p_org_state p)
        (delete domain_key (p_team_rosters p))
        match roster with
        | Some roster =>
          if bool_decide (roster_status roster = TRS_Deleted)
          then <[domain_key := roster]> (p_team_ghost_rosters p)
          else delete domain_key (p_team_ghost_rosters p)
        | None => delete domain_key (p_team_ghost_rosters p)
        end
    else
      match roster with
      | Some roster =>
        let existing_is_complete :=
          is_some_and roster_complete (p_team_rosters p !! domain_key) in
        let incoming_is_complete := roster_complete roster in
        mkEvidenceProjection (p_repositories p) (p_deleted p) (p_org_state p)
          (if negb existing_is_complete || incoming_is_complete
           then <[domain_key := roster]> (p_team_rosters p) else p_team_rosters p)
          (delete domain_key (p_team_ghost_rosters p))
      | None => p
      end
  end.

Definition replay (events : list EvidenceProjectionEvent) : EvidenceProjection :=
  fold_left apply events EvidenceProjection_default.

(** ** Reads *)

Definition projection_get (key : string) (p : EvidenceProjection) : option RepositoryEvidence :=
  p_repositories p !! key.

Definition projection_len (p : EvidenceProjection) : N := N.of_nat (size (p_repositories p)).

Definition map_is_empty {A} (m : gmap string A) : bool := bool_decide (dom m = ∅).

Definition projection_is_empty (p : EvidenceProjection) : bool :=
  map_is_empty (p_repositories p) && map_is_empty (p_deleted p)
  && negb (is_some_and (fun _ => true) (p_org_state p))
  && map_is_empty (p_team_rosters p) && map_is_empty (p_team_ghost_rosters p).

Definition projection_team_roster (key : string) (p : EvidenceProjection) : option TeamRoster :=
  p_team_rosters p !! key.

Definition team_rosters_snapshot (p : EvidenceProjection) : list (string * TeamRoster) :=
  btree_entries (p_team_rosters p).

Definition team_ghost_rosters_snapshot (p : EvidenceProjection) : list (string * TeamRoster) :=
  btree_entries (p_team_ghost_rosters p).

(** The closure of [sort_by]: by [(repository.id, repository.name)]. *)
Definition evidence_le (a b : RepositoryEvidence) : Prop :=
  Repository_cmp (repository a) (repository b) <> Gt.
#[export] Instance evidence_le_dec : RelDecision evidence_le.
Proof. intros a b. unfold evidence_le. apply _. Defined.

Definition sorted_snapshot (p : EvidenceProjection) : list RepositoryEvidence :=
  sort_by evidence_le (map snd (btree_entries (p_repositories p))).

Definition deleted_snapshot (p : EvidenceProjection) : list (string * DeletedRepoRecord) :=
  btree_entries (p_deleted p).

Definition key_name_snapshot (p : EvidenceProjection) : list (string * string) :=
  map (fun kv => (inventory_key (repository (snd kv)), repo_name (repository (snd kv))))
    (btree_entries (p_repositories p)).

Definition bulk_load (entries : list RepositoryEvidence) (p : EvidenceProjection)
    : EvidenceProjection :=
  mkEvidenceProjection
    (fold_left (fun m ev => <[inventory_key (repository ev) := ev]> m) entries (p_repositories p))
    (p_deleted p) (p_org_state p) (p_team_rosters p) (p_team_ghost_rosters p).

Definition load_baseline := bulk_load.
Definition load_resumed_checkpoint := bulk_load.

(** ** The read port *)

Inductive EvidenceProjectionQuery :=
| Q_ByKey (key : string) | Q_Len | Q_Contains (key : string) | Q_SortedSnapshot
| Q_DeletedSnapshot | Q_KeyNameSnapshot | Q_OrgState | Q_TeamRoster (key : string)
| Q_TeamRostersSnapshot | Q_TeamGhostRostersSnapshot.

Inductive EvidenceProjectionResponse :=
| R_One (r : option RepositoryEvidence) | R_Len (n : N) | R_Contains (b : bool)
| R_Many (l : list RepositoryEvidence) | R_Deleted (l : list (string * DeletedRepoRecord))
| R_KeyNamePairs (l : list (string * string)) | R_OrgState (o : option OrgReadModel)
| R_TeamRoster (r : option TeamRoster) | R_TeamRostersSnapshot (l : list (string * TeamRoster))
| R_TeamGhostRostersSnapshot (l : list (string * TeamRoster)).

Definition resolve (p : EvidenceProjection) (q : EvidenceProjectionQuery)
    : EvidenceProjectionResponse :=
  match q with
  | Q_ByKey key => R_One (projection_get key p)
  | Q_Len => R_Len (projection_len p)
  | Q_Contains key =>
    R_Contains match p_repositories p !! key with Some _ => true | None => false end
  | Q_SortedSnapshot => R_Many (sorted_snapshot p)
  | Q_DeletedSnapshot => R_Deleted (deleted_snapshot p)
  | Q_KeyNameSnapshot => R_KeyNamePairs (key_name_snapshot p)
  | Q_OrgState => R_OrgState (p_org_state p)
  | Q_TeamRoster key => R_TeamRoster (projection_team_roster key p)
  | Q_TeamRostersSnapshot => R_TeamRostersSnapshot (team_rosters_snapshot p)
  | Q_TeamGhostRostersSnapshot => R_TeamGhostRostersSnapshot (team_ghost_rosters_snapshot p)
  end.

(** ** Specification: what each fiber of the stream says

    A fiber is the sequence of observations and removals of one key.  Since the
    last removal, the latest complete observation is the state; without a
    complete one, the latest observation is. *)

Section Latest.
  Context {A : Type} (complete : A -> bool).

Inductive fiber_op := Removal | Observation (a : A).

Definition since_removal_step (acc : list A) (o : fiber_op) : list A :=
  match o with Removal => [] | Observation a => acc ++ [a] end.
Definition since_removal (ops : list fiber_op) : list A := foldl since_removal_step [] ops.

Definition prefer (l : list A) : option A :=
  match last (List.filter complete l) with Some a => Some a | None => last l end.

Definition latest (ops : list fiber_op) : option A := prefer (since_removal ops).

(** One guarded step of the projection. *)
Definition guarded_step (cur : option A) (o : fiber_op) : option A :=
  match o with
  | Removal => None
  | Observation a => if negb (is_some_and complete cur) || complete a then Some a else cur
  end.

Lemma prefer_complete l :
  is_some_and complete (prefer l) = is_some_and (fun _ => true) (last (List.filter complete l)).
Proof.
  unfold prefer. destruct (last (List.filter complete l)) as [a|] eqn:E; simpl.
  - apply last_Some_elem_of, list_elem_of_In, filter_In in E as [_ ?]. done.
  - destruct (last l) as [a|] eqn:El; simpl; [|done].
    apply last_Some in El as [l' ->]. rewrite List.filter_app in E. simpl in E.
    destruct (complete a); [|done]. by rewrite last_snoc in E.
Qed.

Lemma guarded_step_prefer l o :
  guarded_step (prefer l) o = prefer (since_removal_step l o).
Proof.
  destruct o as [|a]; simpl; [done|]. rewrite prefer_complete.
  unfold prefer. rewrite List.filter_app last_snoc; simpl.
  destruct (complete a); simpl; [by rewrite last_snoc orb_true_r|].
  rewrite app_nil_r orb_false_r. by destruct (last (List.filter complete l)).
Qed.

Lemma guarded_fold l ops :
  foldl guarded_step (prefer l) ops = prefer (foldl since_removal_step l ops).
Proof.
  revert l. induction ops as [|o ops IH]; intros l; [done|]. simpl.
  by rewrite guarded_step_prefer IH.
Qed.

Lemma guarded_latest ops : foldl guarded_step None ops = latest ops.
Proof. apply (guarded_fold []). Qed.
End Latest.
Arguments fiber_op : clear implicits.
Arguments Removal {A}.
Arguments Observation {A} a.

(** A view that each event changes by one operation, or not at all. *)
Lemma fold_view {S E O V} (view : S -> V) (app : S -> E -> S) (op : E -> option O)
    (step : V -> O -> V) (es : list E) (s : S) :
  (forall s e, view (app s e) =
     match op e with Some o => step (view s) o | None => view s end) ->
  view (fold_left app es s) = foldl step (view s) (omap op es).
Proof.
  intros H. revert s. induction es as [|e es IH]; intros s; [done|].
  cbn [fold_left omap list_omap]. rewrite IH H. by destruct (op e).
Qed.

(** The repository fiber of [key]. *)
Definition repo_op (key : string) (e : EvidenceProjectionEvent)
    : option (fiber_op RepositoryEvidence) :=
  match e with
  | RepositoryStateCaptured true k _ | RepositoryDeleted k _ _ =>
    if decide (k = key) then Some Removal else None
  | RepositoryStateCaptured false k (Some ev) =>
    if decide (k = key) then Some (Observation ev) else None
  | _ => None
  end.

(** The deletion marks of [key]: recorded by a deletion, lifted by any later
    observation. *)
Definition deletion_mark (key : string) (e : EvidenceProjectionEvent)
    : option (option DeletedRepoRecord) :=
  match e with
  | RepositoryDeleted k n t =>
    if decide (k = key) then Some (Some (mkDeletedRepoRecord n t)) else None
  | RepositoryStateCaptured false k (Some _) => if decide (k = key) then Some None else None
  | _ => None
  end.

Definition org_op (e : EvidenceProjectionEvent) : option (fiber_op OrgReadModel) :=
  match e with OrgStateCaptured s => Some (Observation (OrgReadModel_from s)) | _ => None end.

Definition team_op (key : string) (e : EvidenceProjectionEvent) : option (fiber_op TeamRoster) :=
  match e with
  | TeamStateCaptured true k _ => if decide (k = key) then Some Removal else None
  | TeamStateCaptured false k (Some r) =>
    if decide (k = key) then Some (Observation r) else None
  | _ => None
  end.

(** The ghost marks of a team: set by a detach that carries a deleted roster,
    lifted by any other detach and by any live roster, whatever its status. *)
Definition ghost_mark (key : string) (e : EvidenceProjectionEvent)
    : option (option TeamRoster) :=
  match e with
  | TeamStateCaptured true k r =>
    if decide (k = key) then
      Some (match r with
            | Some r => if decide (roster_status r = TRS_Deleted) then Some r else None
            | None => None
            end)
    else None
  | TeamStateCaptured false k (Some _) => if decide (k = key) then Some None else None
  | _ => None
  end.

Lemma foldl_last {V} (ops : list V) v : foldl (fun _ o => o) v ops = default v (last ops).
Proof.
  induction ops as [|o ops IH] using rev_ind; [done|].
  by rewrite foldl_app last_snoc.
Qed.

(** ** Each part of the state follows its fiber *)

Lemma view_repository key p e :
  p_repositories (apply p e) !! key =
  match repo_op key e with
  | Some o => guarded_step is_complete (p_repositories p !! key) o
  | None => p_repositories p !! key
  end.
Proof.
  destruct e as [d k ev|k n t|s|d k r]; simpl.
  - destruct d; [|destruct ev as [ev|]; [|done]]; simpl.
    + case_decide; subst; [by rewrite lookup_delete_eq|by rewrite lookup_delete_ne].
    + case_decide; subst; simpl; case_match; simpl; try done;
        by rewrite ?lookup_insert_eq ?lookup_insert_ne.
  - case_decide; subst; simpl; [by rewrite lookup_delete_eq|by rewrite lookup_delete_ne].
  - unfold apply_org_state. by case_match.
  - by repeat case_match.
Qed.

Lemma view_org p e :
  p_org_state (apply p e) =
  match org_op e with
  | Some o => guarded_step org_is_complete (p_org_state p) o
  | None => p_org_state p
  end.
Proof.
  destruct e as [d k ev|k n t|s|d k r]; simpl; [by repeat case_match|done| |by repeat case_match].
  unfold apply_org_state. by case_match.
Qed.

Lemma view_team key p e :
  p_team_rosters (apply p e) !! key =
  match team_op key e with
  | Some o => guarded_step roster_complete (p_team_rosters p !! key) o
  | None => p_team_rosters p !! key
  end.
Proof.
  destruct e as [d k ev|k n t|s|d k r]; simpl.
  - by repeat case_match.
  - done.
  - unfold apply_org_state. by case_match.
  - destruct d; [|destruct r as [r|]; [|done]]; simpl.
    + case_decide; subst; [by rewrite lookup_delete_eq|by rewrite lookup_delete_ne].
    + case_decide; subst; simpl; case_match; simpl; try done;
        by rewrite ?lookup_insert_eq ?lookup_insert_ne.
Qed.

Lemma view_ghost key p e :
  p_team_ghost_rosters (apply p e) !! key =
  match ghost_mark key e with Some o => o | None => p_team_ghost_rosters p !! key end.
Proof.
  destruct e as [d k ev|k n t|s|d k r]; simpl.
  - by repeat case_match.
  - done.
  - unfold apply_org_state. by case_match.
  - destruct d, r as [r|]; simpl; try done; repeat case_decide; subst; simpl;
      repeat case_bool_decide; try done;
      by rewrite ?lookup_delete_eq ?lookup_insert_eq ?lookup_delete_ne ?lookup_insert_ne.
Qed.

(** A key is never both live and deleted. *)
Definition live_or_deleted (p : EvidenceProjection) : Prop :=
  forall key, p_repositories p !! key = None \/ p_deleted p !! key = None.

Lemma apply_live_or_deleted p e : live_or_deleted p -> live_or_deleted (apply p e).
Proof.
  intros H key. specialize (H key). destruct e as [d k ev|k n t|s|d k r]; simpl.
  - destruct d; [|destruct ev as [ev|]; [|done]]; simpl.
    + destruct (decide (k = key)); subst; [left; by rewrite lookup_delete_eq|].
      by rewrite lookup_delete_ne.
    + case_match; [|done]; simpl. destruct (decide (k = key)); subst.
      * right. by rewrite lookup_delete_eq.
      * by rewrite lookup_insert_ne // lookup_delete_ne.
  - destruct (decide (k = key)); subst; [left; by rewrite lookup_delete_eq|].
    by rewrite lookup_insert_ne // lookup_delete_ne.
  - unfold apply_org_state. by case_match.
  - by repeat case_match.
Qed.

Lemma view_deleted key p e :
  live_or_deleted p ->
  p_deleted (apply p e) !! key =
  match deletion_mark key e with Some o => o | None => p_deleted p !! key end.
Proof.
  intros Hp. destruct e as [d k ev|k n t|s|d k r]; simpl.
  - destruct d; [done|]. destruct ev as [ev|]; [|done]. case_match eqn:E; simpl.
    + case_decide; subst; [by rewrite lookup_delete_eq|by rewrite lookup_delete_ne].
    + case_decide; [|done]. subst k. destruct (Hp key) as [Hn|Hn]; [|done].
      by rewrite Hn in E.
  - case_decide; subst; [by rewrite lookup_insert_eq|by rewrite lookup_insert_ne].
  - unfold apply_org_state. by case_match.
  - by repeat case_match.
Qed.

Lemma replay_live_or_deleted es p :
  live_or_deleted p -> live_or_deleted (fold_left apply es p).
Proof.
  revert p. induction es as [|e es IH]; intros p Hp; [done|].
  by apply IH, apply_live_or_deleted.
Qed.

Lemma default_live_or_deleted : live_or_deleted EvidenceProjection_default.
Proof. intros key. left. apply lookup_empty. Qed.

Lemma replay_deleted key es p :
  live_or_deleted p ->
  p_deleted (fold_left apply es p) !! key =
  default (p_deleted p !! key) (last (omap (deletion_mark key) es)).
Proof.
  rewrite -foldl_last. revert p. induction es as [|e es IH]; intros p Hp; [done|].
  cbn [fold_left omap list_omap]. rewrite IH; [|by apply apply_live_or_deleted].
  rewrite view_deleted //. by destruct (deletion_mark key e).
Qed.

(** The parts of a replay, each from its own fiber. *)
Lemma replay_repositories es key :
  p_repositories (replay es) !! key = latest is_complete (omap (repo_op key) es).
Proof.
  unfold replay. rewrite (fold_view (fun p => p_repositories p !! key) apply _ _ es _
    (view_repository key)) -guarded_latest. cbn. by rewrite lookup_empty.
Qed.

Lemma replay_deletions es key :
  p_deleted (replay es) !! key = mjoin (last (omap (deletion_mark key) es)).
Proof.
  unfold replay. rewrite replay_deleted; [|apply default_live_or_deleted].
  cbn. rewrite lookup_empty. by destruct (last _).
Qed.

Lemma replay_org es : p_org_state (replay es) = latest org_is_complete (omap org_op es).
Proof. unfold replay. by rewrite (fold_view p_org_state apply _ _ es _ view_org) guarded_latest. Qed.

(** C7: the read model of a repository after any event stream depends only on
    its own fiber.  The live evidence is, since the last removal, the latest
    complete one, or the latest one when none is complete, so an incomplete
    collection never hides a complete one; the deleted row is the one of the
    last deletion that no observation followed; and a repository is never both
    live and deleted. *)
Theorem projection_repository_exact es key :
  p_repositories (replay es) !! key = latest is_complete (omap (repo_op key) es) /\
  p_deleted (replay es) !! key = mjoin (last (omap (deletion_mark key) es)) /\
  (p_repositories (replay es) !! key = None \/ p_deleted (replay es) !! key = None).
Proof.
  split_and!; [apply replay_repositories|apply replay_deletions|].
  apply (replay_live_or_deleted es _ default_live_or_deleted).
Qed.

(** A roster event acts on the live and on the ghost view at once. *)
Lemma team_op_ghost_mark key e :
  match team_op key e, ghost_mark key e with
  | None, None | Some Removal, Some _ | Some (Observation _), Some None => True
  | _, _ => False
  end.
Proof. destruct e as [| | |d k r]; simpl; try done. destruct d, r; by repeat case_decide. Qed.

Lemma replay_live_or_ghost es key :
  p_team_rosters (replay es) !! key = None \/ p_team_ghost_rosters (replay es) !! key = None.
Proof.
  induction es as [|e es IH] using rev_ind; [by left; apply lookup_empty|].
  unfold replay in *. rewrite fold_left_app. cbn [fold_left]. rewrite view_team view_ghost.
  pose proof (team_op_ghost_mark key e) as H.
  destruct (team_op key e) as [[|r]|], (ghost_mark key e) as [[g|]|]; simpl; tauto.
Qed.

(** The organization snapshot and the team read model follow their fibers
    in the same way: the latest successful snapshot, the latest complete
    roster since the last detach.  A ghost roster is shown for a team exactly
    when its last roster event is a detach that carried a deleted roster, so a
    team is never both a ghost and live. *)
Lemma projection_team_exact es key :
  p_org_state (replay es) = latest org_is_complete (omap org_op es) /\
  p_team_rosters (replay es) !! key = latest roster_complete (omap (team_op key) es) /\
  p_team_ghost_rosters (replay es) !! key = mjoin (last (omap (ghost_mark key) es)) /\
  (p_team_rosters (replay es) !! key = None \/ p_team_ghost_rosters (replay es) !! key = None).
Proof.
  split_and!.
  - apply replay_org.
  - unfold replay. rewrite (fold_view (fun p => p_team_rosters p !! key) apply _ _ es _
      (view_team key)) -guarded_latest. cbn. by rewrite lookup_empty.
  - unfold replay. rewrite (fold_view (fun p => p_team_ghost_rosters p !! key) apply
      (ghost_mark key) (fun _ o => o) es).
    + rewrite foldl_last. cbn. rewrite lookup_empty. by destruct (last _).
    + intros p e. rewrite view_ghost. by destruct (ghost_mark key e).
  - apply replay_live_or_ghost.
Qed.

(** Two projections that agree on every read. *)
Record projection_eq (p q : EvidenceProjection) : Prop := {
  eq_repositories key : p_repositories p !! key = p_repositories q !! key;
  eq_deleted key : p_deleted p !! key = p_deleted q !! key;
  eq_org_state : p_org_state p = p_org_state q;
  eq_team_rosters key : p_team_rosters p !! key = p_team_rosters q !! key;
  eq_team_ghost_rosters key : p_team_ghost_rosters p !! key = p_team_ghost_rosters q !! key;
}.

(** The maps are extensional, so agreeing on lookups is equality. *)
Lemma projection_ext p q : projection_eq p q -> p = q.
Proof.
  destruct p, q. intros [H1 H2 H3 H4 H5]; simpl in *.
  f_equal; [by apply map_eq|by apply map_eq|done|by apply map_eq|by apply map_eq].
Qed.

Lemma guarded_step_idem {A} (complete : A -> bool) cur o :
  guarded_step complete (guarded_step complete cur o) o = guarded_step complete cur o.
Proof.
  destruct o as [|a]; simpl; [done|]. destruct cur as [c|]; simpl.
  - destruct (complete c) eqn:Ec, (complete a) eqn:Ea; simpl; rewrite ?Ec ?Ea; done.
  - destruct (complete a) eqn:Ea; simpl; by rewrite ?Ea.
Qed.

(** Delivering an event twice is delivering it once, in every state a
    replay reaches. *)
Lemma redelivery_idempotent es e :
  apply (apply (replay es) e) e = apply (replay es) e.
Proof.
  pose proof (replay_live_or_deleted es _ default_live_or_deleted) as Hd.
  pose proof (apply_live_or_deleted _ e Hd) as Hd'.
  apply projection_ext. split; intros.
  - rewrite !view_repository. destruct (repo_op key e); [|done]. apply guarded_step_idem.
  - rewrite !view_deleted //. by destruct (deletion_mark key e).
  - rewrite !view_org. destruct (org_op e); [|done]. apply guarded_step_idem.
  - rewrite !view_team. destruct (team_op key e); [|done]. apply guarded_step_idem.
  - rewrite !view_ghost. by destruct (ghost_mark key e).
Qed.

(** ** Snapshots *)

#[export] Instance evidence_le_total : Total evidence_le.
Proof. intros a b. apply (total repository_le). Qed.
#[export] Instance evidence_le_trans : Transitive evidence_le.
Proof. intros a b c. apply (transitivity (R := repository_le)). Qed.

Lemma elem_of_btree_entries {A} (m : gmap string A) k a :
  (k, a) ∈ btree_entries m <-> m !! k = Some a.
Proof. unfold btree_entries. by rewrite sort_by_Permutation elem_of_map_to_list. Qed.

(** The report's snapshot holds every live repository and no other, once
    each, ordered by identifier and name; it depends on the map alone, not on
    the order the events came in. *)
Lemma sorted_snapshot_exact p :
  Permutation (sorted_snapshot p) (map snd (map_to_list (p_repositories p))) /\
  StronglySorted evidence_le (sorted_snapshot p) /\
  (forall ev, ev ∈ sorted_snapshot p <-> exists key, projection_get key p = Some ev) /\
  projection_len p = N.of_nat (length (sorted_snapshot p)).
Proof.
  assert (Permutation (sorted_snapshot p) (map snd (map_to_list (p_repositories p)))) as Hp.
  { unfold sorted_snapshot, btree_entries. by rewrite !sort_by_Permutation. }
  split; [done|]. split; [apply sort_by_sorted; apply _|]. split.
  - intros ev. rewrite Hp elem_of_map. split.
    + intros ([k e] & Hin & <-). exists k. by apply elem_of_map_to_list.
    + intros [k Hk]. exists (k, ev). split; [by apply elem_of_map_to_list|done].
  - unfold projection_len. by rewrite Hp length_map length_map_to_list.
Qed.

(** Loading entries is inserting them in order: the last of a key wins. *)
Lemma bulk_load_lookup entries p key :
  p_repositories (bulk_load entries p) !! key =
  match last (List.filter (fun ev => bool_decide (inventory_key (repository ev) = key)) entries)
  with Some ev => Some ev | None => p_repositories p !! key end.
Proof.
  unfold bulk_load; cbn [p_repositories]. generalize (p_repositories p) as m.
  induction entries as [|ev entries IH] using rev_ind; intros m; [done|].
  rewrite fold_left_app List.filter_app; cbn [fold_left List.filter].
  case_bool_decide as Hk; simpl.
  - by rewrite last_snoc Hk lookup_insert_eq.
  - by rewrite app_nil_r lookup_insert_ne.
Qed.
