(* ===== verification/WritePolicy.v ===== *)
(** * Durable-write failures ([app/write_policy.rs], [error.rs])

    The closed classification of persistence errors, the ratified response of
    each category, and the bounded retry around a write.  The error type and
    the write itself belong to the storage crate: the error is a type with the
    arms the matches name, the write a function on the state it acts on.  The
    fixed delay between attempts does not change the state; the async and the
    synchronous writer are the same function. *)

From S2P Require Import Prelude Str Json Request.

Open Scope N_scope.

(** The arms of [PersistenceError], with the fields the code reads. *)
Inductive ErrorView :=
| V_Indeterminate | V_FencedConflict (expected_seq actual_seq : option N)
| V_BackendUnavailable | V_InvariantViolation | V_PoisonedState | V_TornWriteRecovery
| V_LockFailed | V_AtomicWriteFailed | V_LoadFailed | V_Io.

(** [cherry_pit_storage::PersistenceError]. *)
Class PersistenceError (E : Type) := view : E -> ErrorView.
(** [PersistenceError]'s view of itself. *)
#[export] Instance ErrorView_error : PersistenceError ErrorView := fun v => v.

Inductive WritePolicyCategory :=
| ReconciliationRequired | Conflict | Transient | Structural | Unrecoverable.
#[export] Instance WritePolicyCategory_eq_dec : EqDecision WritePolicyCategory.
Proof. solve_decision. Defined.

Inductive WriteResponse := Fatal | BoundedRetry | HttpNon2xx.
#[export] Instance WriteResponse_eq_dec : EqDecision WriteResponse.
Proof. solve_decision. Defined.

(** The two levels of [tracing] the policy uses. *)
Inductive Level := WARN | ERROR.
#[export] Instance Level_eq_dec : EqDecision Level.
Proof. solve_decision. Defined.

Definition BOUNDED_RETRY_ATTEMPTS : N := 3.

Definition response (c : WritePolicyCategory) : WriteResponse :=
  match c with
  | Conflict | Structural | Unrecoverable | ReconciliationRequired => Fatal
  | Transient => BoundedRetry
  end.

Definition severity_for (c : WritePolicyCategory) : Level :=
  match c with
  | Conflict => WARN
  | Transient | ReconciliationRequired | Structural | Unrecoverable => ERROR
  end.

Section Policy.
  Context {E : Type} `{!PersistenceError E}.

(** [persist_error_variant]. *)
Definition persist_error_variant (error : E) : string :=
  match view error with
  | V_Indeterminate => "Indeterminate"
  | V_LockFailed => "LockFailed"
  | V_AtomicWriteFailed => "AtomicWriteFailed"
  | V_LoadFailed => "LoadFailed"
  | V_TornWriteRecovery => "TornWriteRecovery"
  | V_FencedConflict _ _ => "FencedConflict"
  | V_BackendUnavailable => "BackendUnavailable"
  | V_InvariantViolation => "InvariantViolation"
  | V_PoisonedState => "PoisonedState"
  | V_Io => "Io"
  end.

(** [WritePolicyCategory::classify]. *)
Definition classify (error : E) : WritePolicyCategory :=
  match view error with
  | V_Indeterminate => ReconciliationRequired
  | V_FencedConflict _ _ => Conflict
  | V_BackendUnavailable => Transient
  | V_InvariantViolation => Structural
  | V_PoisonedState | V_TornWriteRecovery => Unrecoverable
  | V_LockFailed | V_AtomicWriteFailed | V_LoadFailed | V_Io => Unrecoverable
  end.

Record WriteFailure := mkWriteFailure {
  category : WritePolicyCategory;
  failure_response : WriteResponse;
  failure_error : E;
  attempt : N;
}.

(** [WriteFailure::classify]. *)
Definition WriteFailure_classify (error : E) : WriteFailure :=
  let category := classify error in
  mkWriteFailure category (response category) error 1.

Definition conflict_seq_fields (error : E) : option N * option N :=
  match view error with
  | V_FencedConflict expected actual => (expected, actual)
  | _ => (None, None)
  end.

(** The level and the fields [log_write_failure] logs of the failure. *)
Definition log_write_failure (f : WriteFailure)
    : Level * (string * WritePolicyCategory * WriteResponse * (option N * option N) * N) :=
  (match failure_response f with
   | Fatal => ERROR
   | BoundedRetry | HttpNon2xx => WARN
   end,
   (persist_error_variant (failure_error f), category f, failure_response f,
    conflict_seq_fields (failure_error f), attempt f)).

(** ** The bounded retry *)

Inductive RetryStep := Succeeded | Retryable (f : WriteFailure) | Terminal (f : WriteFailure).

Definition classify_attempt (result_ : result E ()) (attempt : N) : RetryStep :=
  match result_ with
  | Ok _ => Succeeded
  | Err error =>
    let failure :=
      let f := WriteFailure_classify error in
      mkWriteFailure (category f) (failure_response f) (failure_error f) attempt in
    match failure_response failure with
    | BoundedRetry => Retryable failure
    | Fatal | HttpNon2xx => Terminal failure
    end
  end.

  (** The write: its result and the state it leaves. *)
  Context {S : Type} (op : S -> result E () * S).

(** [for retry in 0..BOUNDED_RETRY_ATTEMPTS]. *)
Fixpoint retry_loop (retries : list N) (failure : WriteFailure) (s : S)
    : result WriteFailure () * S :=
  match retries with
  | [] => (Err failure, s)
  | retry :: retries =>
    let '(r, s) := op s in
    match classify_attempt r (retry + 2) with
    | Succeeded => (Ok (), s)
    | Terminal failure => (Err failure, s)
    | Retryable failure => retry_loop retries failure s
    end
  end.

Definition write_with_policy (s : S) : result WriteFailure () * S :=
  let '(r, s) := op s in
  match classify_attempt r 1 with
  | Succeeded => (Ok (), s)
  | Terminal failure => (Err failure, s)
  | Retryable failure =>
    retry_loop (map N.of_nat (List.seq 0 (N.to_nat BOUNDED_RETRY_ATTEMPTS))) failure s
  end.
End Policy.
Arguments WriteFailure : clear implicits.

(** ** Logged error text *)

(** [source_chain]: the displayed error, then its sources. *)
Definition source_chain (error : string) (sources : list string) : string :=
  fold_left (fun chain source => chain +:+ " <- " +:+ truncate_error_body source) sources
    (truncate_error_body error).

(** ** Lemmas *)

Section Retry.
  Context {E : Type} `{!PersistenceError E} {S : Type} (op : S -> result E () * S).

(** The state before the [n]-th call, and the result of that call. *)
Definition state_before (n : nat) (s : S) : S := Nat.iter n (fun s => snd (op s)) s.
Definition nth_result (n : nat) (s : S) : result E () := fst (op (state_before n s)).

(** A failure the backend may recover from. *)
Definition is_transient (r : result E ()) : Prop :=
  match r with Ok _ => False | Err e => view e = V_BackendUnavailable end.

Lemma classify_attempt_spec r n :
  match classify_attempt r n with
  | Succeeded => r = Ok ()
  | Retryable f =>
    is_transient r /\ exists e, r = Err e /\ f = mkWriteFailure (classify e) (response (classify e)) e n
  | Terminal f =>
    ~ is_transient r /\
    exists e, r = Err e /\ f = mkWriteFailure (classify e) (response (classify e)) e n
  end.
Proof.
  unfold classify_attempt, is_transient. destruct r as [[]|e]; [done|]. simpl.
  destruct (view e) eqn:Hv; unfold classify; rewrite Hv; simpl;
    (split; [done|exists e; by rewrite Hv]).
Qed.

(** What the caller sees after [n] calls, the last of which returned [r]. *)
Definition reported (r : result E ()) (n : nat) : result (WriteFailure E) () :=
  match r with
  | Ok _ => Ok ()
  | Err e => Err (mkWriteFailure (classify e) (response (classify e)) e (N.of_nat n))
  end.

(** The writer from its [k]-th call on, the earlier ones being transient. *)
Definition stops_after (limit k : nat) (s : S) (out : result (WriteFailure E) () * S) : Prop :=
  exists n, (k <= n < limit)%nat /\
    (forall i, (k <= i < n)%nat -> is_transient (nth_result i s)) /\
    (is_transient (nth_result n s) -> Datatypes.S n = limit) /\
    out = (reported (nth_result n s) (Datatypes.S n), state_before (Datatypes.S n) s).

Lemma state_before_next n s : state_before (Datatypes.S n) s = snd (op (state_before n s)).
Proof. done. Qed.

Lemma retry_loop_stops m k f s :
  (1 <= k)%nat -> is_transient (nth_result (k - 1) s) ->
  Err f = reported (nth_result (k - 1) s) k ->
  exists n, (k - 1 <= n < k + m)%nat /\
    (forall i, (k - 1 <= i < n)%nat -> is_transient (nth_result i s)) /\
    (is_transient (nth_result n s) -> Datatypes.S n = (k + m)%nat) /\
    retry_loop op (map N.of_nat (List.seq (k - 1) m)) f (state_before k s) =
      (reported (nth_result n s) (Datatypes.S n), state_before (Datatypes.S n) s).
Proof.
  revert k f. induction m as [|m IH]; intros k f Hk Ht Hf; cbn [List.seq map retry_loop].
  - exists (k - 1)%nat. replace (Datatypes.S (k - 1)) with k by lia.
    split_and!; [lia..| |by rewrite -Hf]. intros. lia.
  - destruct (op (state_before k s)) as [r s'] eqn:Eop.
    assert (nth_result k s = r) as Hr by (by unfold nth_result; rewrite Eop).
    assert (state_before (Datatypes.S k) s = s') as Hs
      by (by rewrite state_before_next Eop).
    replace (N.of_nat (k - 1) + 2) with (N.of_nat (Datatypes.S k)) by lia.
    pose proof (classify_attempt_spec r (N.of_nat (Datatypes.S k))) as Hc.
    destruct (classify_attempt r _) as [|g|g].
    + exists k. rewrite Hr Hs Hc. split_and!; [lia..| |done|done].
      intros i Hi. by replace i with (k - 1)%nat by lia.
    + destruct Hc as [Htr (e & -> & ->)].
      destruct (IH (Datatypes.S k) (mkWriteFailure (classify e) (response (classify e)) e
        (N.of_nat (Datatypes.S k)))) as (n & Hn & Hall & Hlast & Hout); [lia|..].
      { replace (Datatypes.S k - 1)%nat with k by lia. by rewrite Hr. }
      { replace (Datatypes.S k - 1)%nat with k by lia. by rewrite Hr. }
      replace (Datatypes.S k - 1)%nat with k in * by lia.
      replace (Datatypes.S (k - 1)) with k by lia.
      exists n. rewrite -Hs Hout. split_and!; [lia..| | |done].
      * intros i Hi. destruct (decide (i = k - 1)%nat) as [->|]; [done|]. apply Hall. lia.
      * intros. rewrite Hlast //. lia.
    + destruct Hc as [Htr (e & -> & ->)]. exists k. rewrite Hr Hs.
      split_and!; [lia..| |done|done]. intros i Hi. by replace i with (k - 1)%nat by lia.
Qed.

Lemma write_with_policy_spec s :
  exists n, (n < 4)%nat /\
    (forall i, (i < n)%nat -> is_transient (nth_result i s)) /\
    (is_transient (nth_result n s) -> n = 3%nat) /\
    write_with_policy op s =
      (reported (nth_result n s) (n + 1), state_before (n + 1) s).
Proof.
  unfold write_with_policy. destruct (op s) as [r s'] eqn:Eop.
  assert (nth_result 0 s = r) as Hr by (by unfold nth_result; simpl; rewrite Eop).
  assert (state_before 1 s = s') as Hs by (by simpl; rewrite Eop).
  pose proof (classify_attempt_spec r 1) as Hc. destruct (classify_attempt r 1) as [|g|g].
  - exists 0%nat. rewrite Hr Hc -Hs. split_and!; [lia|lia|done|done].
  - destruct Hc as [Ht (e & -> & ->)].
    destruct (retry_loop_stops 3 1 (mkWriteFailure (classify e) (response (classify e)) e 1) s)
      as (n & Hn & Hall & Hlast & Hout); [lia|by rewrite Hr|by rewrite Hr|].
    exists n. rewrite -Hs Nat.add_1_r. split_and!; [lia| |intros Hn'; specialize (Hlast Hn'); lia|done].
    intros i Hi. apply Hall. lia.
  - destruct Hc as [Ht (e & -> & ->)].
    exists 0%nat. rewrite Hr -Hs. split_and!; [lia|lia|done|done].
Qed.

(** The writer calls the operation once, and again only after a transient
    failure, at most four times in all.  It reports the result of the last
    call it made, with the number of that call, and gives up on a transient
    failure only at the fourth: so a later success never hides an intervening
    lost fence, and no other failure is ever retried. *)
Lemma write_with_policy_exact s :
  exists n, (n < 4)%nat /\
    (forall i, (i < n)%nat -> is_transient (nth_result i s)) /\
    (is_transient (nth_result n s) -> n = 3%nat) /\
    write_with_policy op s =
      (reported (nth_result n s) (n + 1), state_before (n + 1) s).
Proof. apply write_with_policy_spec. Qed.
End Retry.

(** A fence conflict is logged at two levels: the severity the policy states
    is a warning, the level of [log_write_failure] is an error. *)
Lemma conflict_severity_split {E} `{!PersistenceError E} (e : E) n a b :
  view e = V_FencedConflict a b ->
  severity_for (classify e) = WARN /\
  fst (log_write_failure (mkWriteFailure (classify e) (response (classify e)) e n)) = ERROR.
Proof. intros H. unfold classify. by rewrite H. Qed.
