(* ===== verification/InventoryAuthority.v ===== *)
(** * Inventory authority ([app/collect.rs], module [inventory_authority])

    Validation and deduplication of the fetched inventory, its admission under
    the repository cap, and the authority to mark repositories deleted.  The
    durable deletion record is the port of an interface: what the reconciler
    needs of the application state. *)

From S2P Require Import Prelude Str Repository Checks Inventory WritePolicy Evidence Metrics.
From S2P Require Import Projection.

Open Scope N_scope.

(** ** Validation *)

Inductive InventoryValidationError :=
| IdentityConflict (identity_key first_id second_id : string)
| PayloadMismatch (mismatch_repo_id field : string).
#[export] Instance InventoryValidationError_eq_dec : EqDecision InventoryValidationError.
Proof. solve_decision. Defined.

(** [From<InventoryValidationError> for InventoryError]. *)
Definition validation_error_reason (err : InventoryValidationError) : InventoryError :=
  ApiFetchFailed
    match err with
    | IdentityConflict key first second =>
      "inventory identity conflict on '" +:+ key +:+ "': repo '" +:+ first +:+ "' vs '"
        +:+ second +:+ "'"
    | PayloadMismatch id field =>
      "inventory payload conflict for repo '" +:+ id +:+ "' on field '" +:+ field +:+ "'"
    end.

(** [find_payload_difference]: the first field that differs. *)
Definition find_payload_difference (a b : Repository) : option string :=
  if negb (bool_decide (repo_id a = repo_id b)) then Some "id"
  else if negb (bool_decide (node_id a = node_id b)) then Some "node_id"
  else if negb (bool_decide (repo_name a = repo_name b)) then Some "name"
  else if negb (bool_decide (visibility a = visibility b)) then Some "visibility"
  else if negb (bool_decide (language a = language b)) then Some "language"
  else if negb (bool_decide (default_branch a = default_branch b)) then Some "default_branch"
  else if negb (bool_decide (archived a = archived b)) then Some "archived"
  else if negb (bool_decide (inventory_key a = inventory_key b)) then Some "inventory_key"
  else if negb (bool_decide (updated_at a = updated_at b)) then Some "updated_at"
  else if negb (bool_decide (has_issues a = has_issues b)) then Some "has_issues"
  else if negb (bool_decide (pushed_at a = pushed_at b)) then Some "pushed_at"
  else if negb (bool_decide (created_at a = created_at b)) then Some "created_at"
  else if negb (bool_decide (description a = description b)) then Some "description"
  else if negb (bool_decide (fork a = fork b)) then Some "fork"
  else if negb (bool_decide (repo_is_empty a = repo_is_empty b)) then Some "is_empty"
  else if negb (bool_decide (html_url a = html_url b)) then Some "html_url"
  else if negb (bool_decide (topics a = topics b)) then Some "topics"
  else if negb (bool_decide (license_spdx a = license_spdx b)) then Some "license_spdx"
  else None.

Record Dedup := mkDedup {
  unique_repos : list Repository;
  id_map : gmap string nat;
  key_map : gmap string nat;
}.

Definition Dedup_new : Dedup := mkDedup [] ∅ ∅.

(** A step of validation: [None] is an index out of bounds, which panics. *)
Definition Validation A := option (result InventoryValidationError A).

(** The loop over [(match_id, "id")] and [(match_key, "inventory_key")]. *)
Fixpoint find_matched (unique : list Repository) (matches : list (option nat * string))
    (matched_index : option nat) : Validation (option nat) :=
  match matches with
  | [] => Some (Ok matched_index)
  | (Some idx, label) :: matches =>
    match matched_index with
    | Some prior_idx =>
      if negb (Nat.eqb prior_idx idx) then
        match unique !! prior_idx, unique !! idx with
        | Some a, Some b => Some (Err (IdentityConflict label (repo_id a) (repo_id b)))
        | _, _ => None
        end
      else find_matched unique matches matched_index
    | None => find_matched unique matches (Some idx)
    end
  | (None, _) :: matches => find_matched unique matches matched_index
  end.

(** The body of the loop over the repositories. *)
Definition validate_step (st : Validation Dedup) (repo : Repository) : Validation Dedup :=
  match st with
  | Some (Ok (mkDedup unique ids keys)) =>
    let match_id := ids !! repo_id repo in
    let match_key := keys !! inventory_key repo in
    match find_matched unique [(match_id, "id"); (match_key, "inventory_key")] None with
    | Some (Ok (Some idx)) =>
      match unique !! idx with
      | Some existing =>
        match find_payload_difference repo existing with
        | Some field => Some (Err (PayloadMismatch (repo_id repo) field))
        | None => Some (Ok (mkDedup unique ids keys))
        end
      | None => None
      end
    | Some (Ok None) =>
      let idx := length unique in
      Some (Ok (mkDedup (unique ++ [repo]) (<[repo_id repo := idx]> ids)
        (<[inventory_key repo := idx]> keys)))
    | Some (Err e) => Some (Err e)
    | None => None
    end
  | stopped => stopped
  end.

Definition validate_all (repositories : list Repository) : Validation Dedup :=
  fold_left validate_step repositories (Some (Ok Dedup_new)).

Definition validate_and_deduplicate_repositories (repositories : list Repository)
    : Validation (list Repository) :=
  match validate_all repositories with
  | Some (Ok st) => Some (Ok (unique_repos st))
  | Some (Err e) => Some (Err e)
  | None => None
  end.

Record ValidatedInventory := mkValidatedInventory {
  v_active_repos : list Repository;
  v_complete : bool;
  v_inventory_fetched_at : option string;
  v_total_discovered : N;
  v_archived_discovered : N;
}.

(** [ValidatedInventory::from_payload]. *)
Definition from_payload (payload : InventoryPayload)
    : option (result InventoryError ValidatedInventory) :=
  match validate_and_deduplicate_repositories (repositories payload) with
  | Some (Ok active_repos) =>
    Some (Ok (mkValidatedInventory active_repos (complete payload)
      (inventory_fetched_at payload) (N.of_nat (length active_repos))
      (clamp u32_max (countb archived active_repos))))
  | Some (Err e) => Some (Err (validation_error_reason e))
  | None => None
  end.

(** ** Admission *)

(** [config::MaxRepos]: never zero. *)
Definition MaxRepos_new (val : N) : option N := if val =? 0 then None else Some val.

Record AdmittedInventory := mkAdmittedInventory {
  active_repos : list Repository;
  admitted_complete : bool;
  admitted_fetched_at : option string;
  is_capped : bool;
  total_discovered : N;
  archived_discovered : N;
}.

Definition id_le (a b : Repository) : Prop := String.le (repo_id a) (repo_id b).
#[export] Instance id_le_dec : RelDecision id_le.
Proof. intros a b. unfold id_le. apply _. Defined.

(** [ValidatedInventory::admit]. *)
Definition admit_inventory (max_repos : N) (v : ValidatedInventory) : AdmittedInventory :=
  let capped := max_repos <? v_total_discovered v in
  let sorted := sort_by id_le (v_active_repos v) in
  mkAdmittedInventory (if capped then take (N.to_nat max_repos) sorted else sorted)
    (v_complete v) (v_inventory_fetched_at v) capped (v_total_discovered v)
    (v_archived_discovered v).

(** [AdmittedInventory::deletion_authority]: the keys that are still active. *)
Definition deletion_authority (a : AdmittedInventory) : option (gset string) :=
  if negb (admitted_complete a) || is_capped a || bool_decide (active_repos a = []) then None
  else Some (list_to_set (map inventory_key (active_repos a))).

(** ** Reconciliation *)

(** What the reconciler needs of the application state. *)
Class DeletionPort (E S : Type) := {
  port_projection : S -> EvidenceProjection;
  port_mark_repo_deleted : string -> string -> string -> S -> result E () * S;
}.

Section Reconcile.
  Context {E S : Type} `{!PersistenceError E} `{!DeletionPort E S}.

Fixpoint mark_all (detected_at : string) (disappeared : list (string * string)) (s : S)
    : result E () * S :=
  match disappeared with
  | [] => (Ok (), s)
  | (domain_key, name) :: disappeared =>
    let '(r, s) := write_with_policy (port_mark_repo_deleted domain_key name detected_at) s in
    match r with
    | Ok _ => mark_all detected_at disappeared s
    | Err write_failure => (Err (failure_error write_failure), s)
    end
  end.

Definition reconcile_deleted_repositories (inventory : AdmittedInventory) (detected_at : string)
    (s : S) : result E () * S :=
  match deletion_authority inventory with
  | None => (Ok (), s)
  | Some authority =>
    let disappeared :=
      List.filter (fun kn => negb (bool_decide (fst kn ∈ authority)))
        (key_name_snapshot (port_projection s)) in
    mark_all detected_at disappeared s
  end.
End Reconcile.

(** ** Validation is exact *)

Lemma find_payload_difference_None a b : find_payload_difference a b = None <-> a = b.
Proof.
  split.
  - unfold find_payload_difference.
    repeat (case_bool_decide; simpl; [|done]). intros _. destruct a, b; simpl in *. f_equal; assumption.
  - intros ->. unfold find_payload_difference.
    by repeat (case_bool_decide; simpl; [|done]).
Qed.

(** Two entries that claim the same identity. *)
Definition same_identity (a b : Repository) : Prop :=
  repo_id a = repo_id b \/ inventory_key a = inventory_key b.

(** Entries that claim the same identity are the same entry. *)
Definition consistent (l : list Repository) : Prop :=
  forall a b, a ∈ l -> b ∈ l -> same_identity a b -> a = b.

(** The first occurrences, in order. *)
Definition firsts (l : list Repository) : list Repository := reverse (remove_dups (reverse l)).

Lemma elem_of_firsts l a : a ∈ firsts l <-> a ∈ l.
Proof. unfold firsts. by rewrite elem_of_reverse elem_of_remove_dups elem_of_reverse. Qed.

Lemma NoDup_firsts l : NoDup (firsts l).
Proof. unfold firsts. rewrite reverse_Permutation. apply NoDup_remove_dups. Qed.

Lemma firsts_snoc l a :
  firsts (l ++ [a]) = if bool_decide (a ∈ l) then firsts l else firsts l ++ [a].
Proof.
  unfold firsts. rewrite reverse_snoc. cbn [remove_dups].
  case_decide as Hin; rewrite elem_of_reverse in Hin.
  - by rewrite bool_decide_eq_true_2.
  - by rewrite bool_decide_eq_false_2 // reverse_cons.
Qed.

(** The maps index the unique entries by identifier and by key. *)
Definition indexes (f : Repository -> string) (unique : list Repository)
    (m : gmap string nat) : Prop :=
  forall k n, m !! k = Some n <-> exists r, unique !! n = Some r /\ f r = k.

Lemma indexes_insert f unique m r :
  indexes f unique m -> m !! f r = None ->
  indexes f (unique ++ [r]) (<[f r := length unique]> m).
Proof.
  intros Hm Hn k n. destruct (decide (f r = k)) as [<-|Hk].
  - rewrite lookup_insert_eq. split.
    + intros [= <-]. exists r. by rewrite list_lookup_middle.
    + intros (r' & [Hr|[Hl Hr]]%lookup_app_Some & Hf).
      * assert (m !! f r = Some n) by (apply Hm; eauto). congruence.
      * f_equal. destruct (n - length unique)%nat eqn:E; simpl in Hr; [lia|].
        by rewrite lookup_nil in Hr.
  - rewrite lookup_insert_ne // Hm. split.
    + intros (r' & Hr & Hf). exists r'. split; [by apply lookup_app_l_Some|done].
    + intros (r' & [Hr|[Hl Hr]]%lookup_app_Some & Hf); [eauto|].
      destruct (n - length unique)%nat eqn:E; simpl in Hr;
        [by simplify_eq|by rewrite lookup_nil in Hr].
Qed.

Lemma indexes_None f unique m k :
  indexes f unique m -> m !! k = None <-> forall r, r ∈ unique -> f r <> k.
Proof.
  intros Hm. split.
  - intros Hn r [n Hr]%list_elem_of_lookup Hf.
    assert (m !! k = Some n) by (apply Hm; eauto). congruence.
  - intros Hall. destruct (m !! k) as [n|] eqn:E; [|done].
    apply Hm in E as (r & Hr%list_elem_of_lookup_2 & Hf). by destruct (Hall r Hr).
Qed.

Definition valid_state (l : list Repository) (st : Validation Dedup) : Prop :=
  exists ids keys, st = Some (Ok (mkDedup (firsts l) ids keys)) /\
    indexes repo_id (firsts l) ids /\ indexes inventory_key (firsts l) keys.

Lemma consistent_snoc_l l a : consistent (l ++ [a]) -> consistent l.
Proof. intros H x y Hx Hy. apply H; set_solver. Qed.

(** The entry at a matched index has one of the identities of [a]. *)
Lemma find_matched_spec l ids keys a :
  indexes repo_id (firsts l) ids -> indexes inventory_key (firsts l) keys ->
  match find_matched (firsts l)
    [(ids !! repo_id a, "id"); (keys !! inventory_key a, "inventory_key")] None with
  | Some (Ok (Some n)) =>
    exists r, firsts l !! n = Some r /\ same_identity r a
  | Some (Ok None) => forall r, r ∈ l -> ~ same_identity r a
  | Some (Err _) =>
    exists r r', r ∈ l /\ r' ∈ l /\ r <> r' /\ same_identity r a /\ same_identity r' a
  | None => False
  end.
Proof.
  intros Hi Hk. unfold find_matched.
  destruct (ids !! repo_id a) as [n|] eqn:En; destruct (keys !! inventory_key a) as [m|] eqn:Em.
  - apply Hi in En as (r & Hr & Er). apply Hk in Em as (r' & Hr' & Er').
    destruct (Nat.eqb_spec n m) as [<-|Hnm]; simpl.
    + exists r. split; [done|by left].
    + rewrite Hr Hr'. exists r, r'.
      apply list_elem_of_lookup_2 in Hr as Hin. apply list_elem_of_lookup_2 in Hr' as Hin'.
      rewrite elem_of_firsts in Hin. rewrite elem_of_firsts in Hin'.
      split_and!; [done|done| |by left|by right].
      intros <-. by destruct Hnm; eapply NoDup_lookup; [apply (NoDup_firsts l)| |].
  - apply Hi in En as (r & Hr & Er). exists r. split; [done|by left].
  - apply Hk in Em as (r & Hr & Er). exists r. split; [done|by right].
  - rewrite (indexes_None _ _ _ _ Hi) in En. rewrite (indexes_None _ _ _ _ Hk) in Em.
    intros r Hr [Hs|Hs]; [by apply (En r); [apply elem_of_firsts|]|].
    by apply (Em r); [apply elem_of_firsts|].
Qed.

Lemma validate_step_consistent l a st :
  valid_state l st -> consistent (l ++ [a]) -> valid_state (l ++ [a]) (validate_step st a).
Proof.
  intros (ids & keys & -> & Hi & Hk) Hc. unfold validate_step.
  pose proof (find_matched_spec l ids keys a Hi Hk) as Hf.
  destruct (find_matched _ _ _) as [[[n|]|e]|]; [| | |done].
  - destruct Hf as (r & Hr & Hs). rewrite Hr.
    assert (r ∈ l) as Hin by (by apply elem_of_firsts, list_elem_of_lookup_2 with n).
    assert (r = a) as -> by (apply Hc; [set_solver|set_solver|done]).
    rewrite (proj2 (find_payload_difference_None a a)) //.
    exists ids, keys. rewrite firsts_snoc bool_decide_eq_true_2 //.
  - assert (a ∉ l) as Hn by (intros Ha; apply (Hf a Ha); by left).
    eexists _, _. rewrite firsts_snoc bool_decide_eq_false_2 //. split_and!; [done|..].
    + apply indexes_insert; [done|]. apply (indexes_None _ _ _ _ Hi).
      intros r Hr He. apply (Hf r); [by apply elem_of_firsts|by left].
    + apply indexes_insert; [done|]. apply (indexes_None _ _ _ _ Hk).
      intros r Hr He. apply (Hf r); [by apply elem_of_firsts|by right].
  - destruct Hf as (r & r' & Hr & Hr' & Hne & Hs & Hs'). destruct Hne.
    trans a; [|symmetry]; apply Hc; set_solver.
Qed.

Lemma validate_step_inconsistent l a st :
  valid_state l st -> consistent l -> ~ consistent (l ++ [a]) ->
  exists e, validate_step st a = Some (Err e).
Proof.
  intros (ids & keys & -> & Hi & Hk) Hc Hnc. unfold validate_step.
  pose proof (find_matched_spec l ids keys a Hi Hk) as Hf.
  destruct (find_matched _ _ _) as [[[n|]|e]|]; [| |by eexists|done].
  - destruct Hf as (r & Hr & Hs). rewrite Hr.
    destruct (find_payload_difference a r) eqn:Ed; [by eexists|].
    apply find_payload_difference_None in Ed as ->.
    assert (r ∈ l) as Hin by (by apply elem_of_firsts, list_elem_of_lookup_2 with n).
    destruct Hnc. intros x y Hx Hy. apply Hc; set_solver.
  - destruct Hnc. intros x y Hx Hy Hxy.
    apply elem_of_app in Hx as [Hx|Hx%list_elem_of_singleton];
      apply elem_of_app in Hy as [Hy|Hy%list_elem_of_singleton]; subst.
    + by apply Hc.
    + by destruct (Hf x Hx).
    + destruct (Hf y Hy). destruct Hxy; [left|right]; done.
    + done.
Qed.

Lemma consistent_nil : consistent [].
Proof. intros a b Ha. set_solver. Qed.

#[export] Instance same_identity_dec a b : Decision (same_identity a b).
Proof. unfold same_identity. apply _. Defined.

Lemma consistent_dec l : consistent l \/ ~ consistent l.
Proof.
  destruct (decide (Forall (fun a => Forall (fun b => same_identity a b -> a = b) l) l)) as [H|H].
  - left. intros a b Ha Hb. rewrite Forall_forall in H. specialize (H a Ha).
    rewrite Forall_forall in H. by apply H.
  - right. intros Hc. apply H. apply Forall_forall. intros a Ha. apply Forall_forall.
    intros b Hb. by apply Hc.
Qed.

Lemma validate_all_snoc l a : validate_all (l ++ [a]) = validate_step (validate_all l) a.
Proof. unfold validate_all. by rewrite fold_left_app. Qed.

Lemma validate_all_spec l :
  (consistent l -> valid_state l (validate_all l)) /\
  (~ consistent l -> exists e, validate_all l = Some (Err e)).
Proof.
  induction l as [|a l [IH1 IH2]] using rev_ind.
  - split; [|by destruct 1; apply consistent_nil]. intros _.
    exists ∅, ∅. split_and!; [done|..]; intros k n; rewrite lookup_empty;
      (split; [done|]); intros (r & Hr & _); by rewrite lookup_nil in Hr.
  - rewrite validate_all_snoc. split.
    + intros Hc. apply validate_step_consistent; [|done]. apply IH1. by eapply consistent_snoc_l.
    + intros Hnc. destruct (consistent_dec l) as [Hl|Hl].
      * by apply (validate_step_inconsistent l); [apply IH1| |].
      * destruct (IH2 Hl) as [e ->]. by exists e.
Qed.

(** An inventory is accepted exactly when entries that share an identifier
    or an inventory key are equal in every field; what is accepted is the
    first occurrence of each entry, in order, and anything else is an error of
    the identity or of the payload, never a panic. *)
Lemma inventory_validation_exact l :
  (forall us, validate_and_deduplicate_repositories l = Some (Ok us) <->
     consistent l /\ us = firsts l) /\
  (validate_and_deduplicate_repositories l <> None).
Proof.
  unfold validate_and_deduplicate_repositories. pose proof (validate_all_spec l) as [H1 H2].
  destruct (consistent_dec l) as [Hc|Hc].
  - destruct (H1 Hc) as (ids & keys & -> & _ & _). split; [|done]. intros us.
    split; [by intros [= <-]|by intros [_ ->]].
  - destruct (H2 Hc) as [e ->]. split; [|done]. intros us. split; [done|by intros [? _]].
Qed.

(** ** Admission and deletion *)

#[export] Instance id_le_total : Total id_le.
Proof. intros a b. apply (total String.le). Qed.
#[export] Instance id_le_trans : Transitive id_le.
Proof. intros a b c. unfold id_le. apply transitivity. Qed.

Lemma sorted_take {A} (R : relation A) n (l : list A) :
  StronglySorted R l -> StronglySorted R (take n l).
Proof.
  intros H. revert n. induction H as [|a l Hl IH Ha]; intros [|n]; simpl; [constructor..|].
  constructor; [apply IH|by apply Forall_take].
Qed.

(** Admission keeps at most [max_repos] repositories, the first by
    identifier, and says whether it dropped any; what it keeps comes from the
    validated inventory, and without a cap it keeps all of it.  Authority to
    delete is granted exactly to a complete, uncapped and nonempty inventory,
    and covers exactly the admitted keys. *)
Lemma admission_exact payload v max_repos :
  from_payload payload = Some (Ok v) ->
  let a := admit_inventory max_repos v in
  StronglySorted id_le (active_repos a) /\
  active_repos a = take (N.to_nat (N.min max_repos (total_discovered a)))
    (sort_by id_le (v_active_repos v)) /\
  (forall r, r ∈ active_repos a -> r ∈ repositories payload) /\
  (is_capped a = false <-> Permutation (active_repos a) (v_active_repos v)) /\
  (forall keys, deletion_authority a = Some keys <->
     complete payload = true /\ is_capped a = false /\ active_repos a <> [] /\
     keys = list_to_set (map inventory_key (active_repos a))).
Proof.
  intros Hv a. unfold from_payload in Hv.
  destruct (validate_and_deduplicate_repositories _) as [[us|e]|] eqn:E; [|done|done].
  injection Hv as <-. assert (length (sort_by id_le us) = length us) as Hl
    by (by rewrite sort_by_Permutation).
  assert (active_repos a = take (N.to_nat (N.min max_repos (total_discovered a)))
    (sort_by id_le us)) as Ha.
  { unfold a, admit_inventory; cbn. destruct (N.ltb_spec max_repos (N.of_nat (length us))).
    - f_equal. lia.
    - rewrite take_ge //. lia. }
  split_and!; [| |intros r|split|intros keys].
  - rewrite Ha. apply sorted_take, sort_by_sorted; apply _.
  - done.
  - rewrite Ha. intros (n & Hn & _)%elem_of_take. apply list_elem_of_lookup_2 in Hn.
    rewrite sort_by_Permutation in Hn.
    unfold validate_and_deduplicate_repositories in E.
    pose proof (validate_all_spec (repositories payload)) as [H1 H2].
    destruct (consistent_dec (repositories payload)) as [Hc|Hc].
    + destruct (H1 Hc) as (ids & keys & Hst & _). rewrite Hst in E. injection E as <-.
      by apply elem_of_firsts.
    + destruct (H2 Hc) as [e He]. by rewrite He in E.
  - cbn. intros Hcap. rewrite Hcap. apply sort_by_Permutation.
  - cbn. destruct (N.ltb_spec max_repos (N.of_nat (length us))) as [Hlt|]; [|done].
    intros Hp%Permutation_length. rewrite length_take Hl in Hp. lia.
  - unfold deletion_authority. change (admitted_complete a) with (complete payload).
    destruct (complete payload), (is_capped a); cbn;
      try (split; [done|by intros (?&?&?&?)]).
    case_bool_decide; split; [done|by intros (_ & _ & ? & _)|intros [= <-]|
      by intros (_ & _ & _ & ->)]. done.
Qed.

Definition sample_repo (id : string) (is_archived : bool) : Repository :=
  mkRepository id None id Public None "main" is_archived id None false None None None false false
    None [] None.

Definition sample_payload : InventoryPayload :=
  mkInventoryPayload INVENTORY_SCHEMA_VERSION "org" "t"
    [sample_repo "b" false; sample_repo "a" false; sample_repo "b" false] true (Some "t").

Definition sample_validated : ValidatedInventory :=
  mkValidatedInventory [sample_repo "b" false; sample_repo "a" false] true (Some "t") 2 0.

Lemma admission_exact_witness :
  from_payload sample_payload = Some (Ok sample_validated) /\
  active_repos (admit_inventory 1 sample_validated) = [sample_repo "a" false] /\
  forall keys, deletion_authority (admit_inventory 1 sample_validated) = Some keys <->
    complete sample_payload = true /\ is_capped (admit_inventory 1 sample_validated) = false /\
    active_repos (admit_inventory 1 sample_validated) <> [] /\
    keys = list_to_set (map inventory_key (active_repos (admit_inventory 1 sample_validated))).
Proof.
  assert (from_payload sample_payload = Some (Ok sample_validated)) as H
    by (vm_compute; reflexivity).
  split; [exact H|]. split; [vm_compute; reflexivity|].
  exact (proj2 (proj2 (proj2 (proj2 (admission_exact sample_payload sample_validated 1 H))))).
Defined.

(** The laws of the port: a landed deletion removes the live row of its key
    and records it deleted; a failed write changes nothing. *)
Class DeletionPortLaws (E S : Type) `{!DeletionPort E S} : Prop := {
  mark_ok k n d s u s' :
    port_mark_repo_deleted k n d s = (Ok u, s') ->
    p_repositories (port_projection s') = delete k (p_repositories (port_projection s)) /\
    is_Some (p_deleted (port_projection s') !! k);
  mark_err k n d s e s' :
    port_mark_repo_deleted k n d s = (Err e, s') ->
    port_projection s' = port_projection s;
}.

Section ReconcileLemmas.
  Context {E S : Type} `{!PersistenceError E} `{!DeletionPort E S} `{!DeletionPortLaws E S}.

  Notation live s := (p_repositories (port_projection s)).
  Notation write k n d := (write_with_policy (port_mark_repo_deleted (E := E) (S := S) k n d)).

(** Transient failures leave the projection alone. *)
Lemma transient_prefix k n d s m :
  (forall i, (i < m)%nat -> is_transient (nth_result (port_mark_repo_deleted (E := E) k n d) i s)) ->
  port_projection (state_before (port_mark_repo_deleted (E := E) k n d) m s) = port_projection s.
Proof.
  induction m as [|m IH]; intros H; [done|]. rewrite state_before_next -IH; [|intros; apply H; lia].
  specialize (H m ltac:(lia)). unfold nth_result in H.
  destruct (port_mark_repo_deleted _ _ _ (state_before _ m s)) as [[u|e] s'] eqn:Em; [done|].
  simpl. by eapply mark_err.
Qed.

Lemma write_mark k n d s r s' :
  write k n d s = (r, s') ->
  match r with
  | Ok _ => live s' = delete k (live s) /\ is_Some (p_deleted (port_projection s') !! k)
  | Err _ => port_projection s' = port_projection s
  end.
Proof.
  destruct (write_with_policy_spec (port_mark_repo_deleted (E := E) k n d) s)
    as (m & _ & Ht & _ & ->). intros [= <- <-].
  rewrite Nat.add_1_r state_before_next. unfold nth_result.
  pose proof (transient_prefix k n d s m Ht) as Hp.
  destruct (port_mark_repo_deleted _ _ _ (state_before _ m s)) as [[u|e] s'] eqn:Em; simpl.
  - rewrite -Hp. by eapply mark_ok.
  - rewrite -Hp. by eapply mark_err.
Qed.

Lemma mark_all_spec d l s r s' :
  mark_all d l s = (r, s') ->
  (forall k, k ∉ map fst l -> live s' !! k = live s !! k) /\
  (forall k, live s' !! k = None \/ live s' !! k = live s !! k) /\
  (r = Ok () -> forall k, k ∈ map fst l -> live s' !! k = None).
Proof.
  revert s. induction l as [|[k n] l IH]; intros s; cbn [mark_all map fst].
  - intros [= <- <-]. split_and!; [done|by right|]. intros _ k Hk. by apply elem_of_nil in Hk.
  - destruct (write k n d s) as [[[]|f] s1] eqn:Ew.
    + destruct (write_mark _ _ _ _ _ _ Ew) as [Hl _]. intros H.
      destruct (IH _ H) as (H1 & H2 & H3). split_and!.
      * intros k' Hk'. rewrite not_elem_of_cons in Hk'. destruct Hk' as [Hne Hk'].
        rewrite H1 // Hl lookup_delete_ne //.
      * intros k'. destruct (H2 k') as [|Heq]; [by left|]. rewrite Heq Hl.
        destruct (decide (k' = k)) as [->|]; [left; by rewrite lookup_delete_eq|].
        right. by rewrite lookup_delete_ne.
      * intros Hr k' [->|Hk']%elem_of_cons; [|by apply H3].
        destruct (H2 k) as [|Heq]; [done|]. by rewrite Heq Hl lookup_delete_eq.
    + pose proof (write_mark _ _ _ _ _ _ Ew) as Hp. simpl in Hp. intros [= <- <-].
      rewrite Hp. split_and!; [done|by right|done].
Qed.

(** Every live row sits under its evidence's inventory key. *)
Definition keyed (p : EvidenceProjection) : Prop :=
  forall k ev, p_repositories p !! k = Some ev -> inventory_key (repository ev) = k.

Lemma elem_of_key_name p k :
  k ∈ map fst (key_name_snapshot p) <->
  exists k' ev, p_repositories p !! k' = Some ev /\ inventory_key (repository ev) = k.
Proof.
  unfold key_name_snapshot. rewrite map_map elem_of_map. split.
  - intros ([k' ev] & Hin & <-). exists k', ev. split; [by apply elem_of_btree_entries|done].
  - intros (k' & ev & Hk & <-). exists (k', ev). split; [by apply elem_of_btree_entries|done].
Qed.

(** What a reconciliation that succeeds leaves of the live rows. *)
Lemma reconcile_leaves_listed inventory detected_at s s' keys :
  keyed (port_projection s) -> deletion_authority inventory = Some keys ->
  reconcile_deleted_repositories (E := E) inventory detected_at s = (Ok (), s') ->
  forall k, live s' !! k = if bool_decide (k ∈ keys) then live s !! k else None.
Proof.
  intros Hk Ha. unfold reconcile_deleted_repositories. rewrite Ha. set (gone := List.filter _ _). intros H k.
  destruct (mark_all_spec _ _ _ _ _ H) as (H1 & H2 & H3).
  assert (k ∈ map fst gone <-> k ∈ map fst (key_name_snapshot (port_projection s)) /\ k ∉ keys) as Hg.
  { rewrite !elem_of_map. unfold gone. split.
    - intros (kn & [Hin Hb]%list_elem_of_In%filter_In & <-).
      apply negb_true_iff, bool_decide_eq_false in Hb. split; [|done].
      exists kn. split; [by apply list_elem_of_In|done].
    - intros [(kn & Hin & <-) Hn]. exists kn. split; [|done].
      apply list_elem_of_In, filter_In. split; [by apply list_elem_of_In|]. by rewrite bool_decide_eq_false_2. }
  case_bool_decide as Hin; [apply H1; tauto|]. destruct (live s !! k) as [ev|] eqn:E0.
  - apply H3; [done|]. apply Hg. split; [|done]. apply elem_of_key_name.
    exists k, ev. split; [done|by apply Hk].
  - destruct (H2 k) as [?|?]; congruence.
Qed.

(** C9: reconciliation never removes the live evidence of a repository the
    inventory still lists, and without the authority of a complete, uncapped,
    nonempty inventory it changes nothing at all.  When it succeeds, every
    repository that is still live is one the inventory lists. *)
Theorem reconcile_safe inventory detected_at s r s' :
  keyed (port_projection s) ->
  reconcile_deleted_repositories (E := E) inventory detected_at s = (r, s') ->
  match deletion_authority inventory with
  | None => s' = s /\ r = Ok ()
  | Some keys =>
    (forall k, k ∈ keys -> live s' !! k = live s !! k) /\
    (forall k, live s' !! k = None \/ live s' !! k = live s !! k) /\
    (r = Ok () -> forall k ev, live s' !! k = Some ev -> k ∈ keys)
  end.
Proof.
  intros Hk. unfold reconcile_deleted_repositories.
  destruct (deletion_authority inventory) as [keys|]; [|by intros [= <- <-]].
  set (gone := List.filter _ _). intros H. destruct (mark_all_spec _ _ _ _ _ H) as (H1 & H2 & H3).
  assert (forall k, k ∈ map fst gone <->
    k ∈ map fst (key_name_snapshot (port_projection s)) /\ k ∉ keys) as Hg.
  { intros k. rewrite !elem_of_map. unfold gone. split.
    - intros (kn & Hin & <-). apply list_elem_of_In, filter_In in Hin as [Hin Hb].
      apply negb_true_iff, bool_decide_eq_false in Hb. split; [|done].
      exists kn. split; [by apply list_elem_of_In|done].
    - intros [(kn & Hin & <-) Hn]. exists kn. split; [|done].
      apply list_elem_of_In, filter_In. split; [by apply list_elem_of_In|].
      by rewrite bool_decide_eq_false_2. }
  split_and!; [|done|].
  - intros k Hin. apply H1. rewrite Hg. tauto.
  - intros Hr k ev Hev. destruct (decide (k ∈ keys)) as [|Hn]; [done|]. exfalso.
    assert (live s !! k = Some ev) as Hs by (destruct (H2 k) as [E0|E0]; by rewrite -?E0 // E0 in Hev).
    rewrite H3 // in Hev. apply Hg. split; [|done]. apply elem_of_key_name.
    exists k, ev. split; [done|by apply Hk].
Qed.
End ReconcileLemmas.

(** A store that never fails, whose state is the projection itself. *)
#[local] Instance plain_port : DeletionPort ErrorView EvidenceProjection := {|
  port_projection p := p;
  port_mark_repo_deleted k n d p := (Ok (), apply p (RepositoryDeleted k n d));
|}.
#[local] Instance plain_port_laws : DeletionPortLaws ErrorView EvidenceProjection.
Proof.
  split; [|done]. intros k n d s u s' [= <- <-]; simpl. rewrite lookup_insert_eq. by split.
Qed.

Definition sample_live : EvidenceProjection :=
  mkEvidenceProjection
    {["a" := sample_owned "a" "@o/t" false; "c" := sample_owned "c" "@o/t" false]} ∅ None ∅ ∅.

Definition sample_admitted : AdmittedInventory := admit_inventory 10 sample_validated.

Lemma sample_live_keyed : keyed sample_live.
Proof.
  intros k ev. unfold sample_live; cbn [p_repositories]. intros H.
  apply lookup_insert_Some in H as [[<- <-]|[_ H]]; [reflexivity|].
  apply lookup_singleton_Some in H as [<- <-]. reflexivity.
Defined.

Lemma reconcile_safe_witness :
  let r := reconcile_deleted_repositories (E := ErrorView) sample_admitted "t" sample_live in
  fst r = Ok () /\
  (forall k, p_repositories (snd r) !! k = None \/
     p_repositories (snd r) !! k = p_repositories sample_live !! k) /\
  (forall k ev, p_repositories (snd r) !! k = Some ev -> k ∈ ({["a"; "b"]} : gset string)).
Proof.
  intros r. assert (fst r = Ok ()) as Hr by (vm_compute; reflexivity).
  assert (deletion_authority sample_admitted = Some {["b"; "a"]}) as Ha
    by (vm_compute; reflexivity).
  pose proof (reconcile_safe (E := ErrorView) (S := EvidenceProjection) sample_admitted "t"
    sample_live (fst r) (snd r) sample_live_keyed (surjective_pairing r)) as H.
  rewrite Ha in H. destruct H as (_ & H2 & H3). split; [exact Hr|]. split; [exact H2|].
  intros k ev Hk. pose proof (H3 Hr k ev Hk) as Hin. revert Hin.
  rewrite !elem_of_union !elem_of_singleton. tauto.
Defined.
