(* ===== verification/Baseline.v ===== *)
(** * Reuse of earlier evidence ([infra/baseline.rs], [app/collect.rs])

    When the evidence of an earlier run may stand in for a new collection, the
    baseline dump, and the placeholder evidence of repositories that were not
    read.  The parser of timestamps is a parameter. *)

From S2P Require Import Prelude Str Repository Checks Time Evidence Metrics Ghas Inventory.
From S2P Require Import InventoryAuthority Projection.

Open Scope N_scope.

(** [config::BASELINE_MAX_AGE_SECS], [config::EVIDENCE_SCHEMA_VERSION]. *)
Definition BASELINE_MAX_AGE_SECS : N := 86400.
Definition EVIDENCE_SCHEMA_VERSION : string := "25.0".

Inductive BaselineAge := Fresh | Stale.
#[export] Instance BaselineAge_eq_dec : EqDecision BaselineAge.
Proof. solve_decision. Defined.

(** [should_reuse]; [UpdatedAt] has no empty inhabitant. *)
Definition should_reuse (baseline_updated_at current_updated_at : option string)
    (baseline_age : BaselineAge) : bool :=
  match baseline_updated_at, current_updated_at, baseline_age with
  | Some baseline, Some current, Fresh => bool_decide (baseline = current)
  | _, _, _ => false
  end.

(** Every check unobserved: a total collection failure. *)
Definition is_total_failure (evidence : RepositoryEvidence) : bool :=
  let c := checks evidence in
  bool_decide (SecurityPolicyResult_status (security_policy c) = SPS_Unknown)
  && bool_decide (SecretScanningResult_status (secret_scanning c) = SSS_Unknown)
  && bool_decide (dependabot_status (dependabot_security_updates c) = DS_Unknown)
  && negb (is_observed (branch_protection c))
  && bool_decide (CodeownersResult_status (codeowners c) = COS_Unknown).

Record BaselineEntry := mkBaselineEntry {
  entry_updated_at : string;
  entry_evidence : RepositoryEvidence;
}.

Record Baseline := mkBaseline {
  baseline_schema_version : string;
  baseline_entries : gmap string BaselineEntry;
}.

(** The loop of [build_baseline]. *)
Definition add_baseline (entries : gmap string BaselineEntry) (ev : RepositoryEvidence)
    : gmap string BaselineEntry :=
  if is_total_failure ev then entries
  else
    match updated_at (repository ev) with
    | Some t => <[inventory_key (repository ev) := mkBaselineEntry t ev]> entries
    | None => entries
    end.

Definition build_baseline (repositories : list RepositoryEvidence) : Baseline :=
  mkBaseline EVIDENCE_SCHEMA_VERSION (fold_left add_baseline repositories ∅).

(** [org_alerts_contradict_baseline]. *)
Definition org_alerts_contradict_baseline (evidence : RepositoryEvidence) (repo : Repository)
    (org_summary : OrgAlertSummary) : bool :=
  if negb (bool_decide (collection_status org_summary = CS_Success)) then false
  else
    match has_open_alerts (secret_scanning (checks evidence)) with
    | None => false
    | Some baseline_open =>
      let fresh_open :=
        is_some_and (fun s => 0 <? open_alert_count s) (per_repo org_summary !! scope_key repo) in
      negb (Bool.eqb baseline_open fresh_open)
    end.

Section Reuse.
  Context (parse_timestamp : string -> option Z).

(** [assess_baseline_age]. *)
Definition assess_baseline_age (observed_at run_timestamp : string) : BaselineAge :=
  match parse_iso8601 parse_timestamp observed_at with
  | None => Stale
  | Some observed_ts =>
    match parse_iso8601 parse_timestamp run_timestamp with
    | None => Stale
    | Some run_ts =>
      let age_secs := Z.to_N (Z.max (duration_secs run_ts observed_ts) 0) in
      if age_secs <=? BASELINE_MAX_AGE_SECS then Fresh else Stale
    end
  end.

(** The guards of the loop of [reuse_from_baseline], for one repository. *)
Definition reusable (run_timestamp : string) (org_summary : OrgAlertSummary)
    (repo : Repository) (evidence : RepositoryEvidence) : bool :=
  let baseline_updated_at := default "" (updated_at (repository evidence)) in
  let baseline_age := assess_baseline_age (observed_at (checks evidence)) run_timestamp in
  if negb (should_reuse (UpdatedAt_new baseline_updated_at) (updated_at repo ≫= UpdatedAt_new)
             baseline_age) then false
  else if bool_decide
            (dependabot_status (dependabot_security_updates (checks evidence)) = DS_Enabled)
          && is_dependabot_inactive parse_timestamp (pushed_at repo) run_timestamp then false
  else if org_alerts_contradict_baseline evidence repo org_summary then false
  else if is_public repo
          && bool_decide
               (SecurityPolicyResult_status (security_policy (checks evidence)) = SPS_Unknown)
  then false
  else true.

(** [reuse_from_baseline]; [completed] holds the keys already collected. *)
Definition reuse_from_baseline (repositories : list Repository) (completed : gset string)
    (run_timestamp : string) (state : EvidenceProjection) (force_refresh : bool)
    (org_summary : OrgAlertSummary) : gmap string RepositoryEvidence :=
  if force_refresh then ∅
  else
    fold_left (fun cache repo =>
        match projection_get (inventory_key repo) state with
        | None => cache
        | Some evidence =>
          if reusable run_timestamp org_summary repo evidence
          then <[inventory_key repo := evidence]> cache else cache
        end)
      (List.filter (fun r => negb (bool_decide (inventory_key r ∈ completed))) repositories) ∅.
End Reuse.

(** ** Placeholder evidence *)

(** [failure_evidence_with_reason]. *)
Definition failure_evidence_with_reason (repo : Repository) (run_timestamp reason : string)
    : RepositoryEvidence :=
  let indeterminate :=
    if bool_decide (reason = "pending") then IR_Pending else IR_Invalid in
  mkRepositoryEvidence repo
    (mkRepositoryChecks
       (if is_public repo then SPR_Unobservable indeterminate run_timestamp
        else SPR_NotApplicable run_timestamp)
       (SecretScanningResult_unobservable
          (if bool_decide (reason = "pending") then SF_Pending else SF_Invalid) run_timestamp)
       (mkDependabotResult DS_Unknown (Some reason) run_timestamp)
       (BPR_Unobservable (default_branch repo) indeterminate None run_timestamp)
       (COR_Unobservable indeterminate run_timestamp))
    None false.

Definition failure_evidence (repo : Repository) (run_timestamp : string) : RepositoryEvidence :=
  failure_evidence_with_reason repo run_timestamp "collection_error".

(** [include_unread_repositories]. *)
Definition include_unread_repositories (repositories : list RepositoryEvidence)
    (inventory : AdmittedInventory) (run_timestamp : string) : list RepositoryEvidence :=
  let present : gset string :=
    list_to_set (map (fun r => inventory_key (repository r)) repositories) in
  let unread :=
    map (fun repo => failure_evidence_with_reason repo run_timestamp PENDING_REASON)
      (List.filter (fun repo => negb (bool_decide (inventory_key repo ∈ present)))
         (active_repos inventory)) in
  repositories ++ unread.

(** [observed_repository_keys] and [InventoryCoverage::from_evidence]. *)
Definition observed_repository_keys (repositories : list RepositoryEvidence) : gset string :=
  list_to_set
    (map (fun r => inventory_key (repository r))
       (List.filter
          (fun r => bool_decide (read_state_from_checks (checks r) = RS_Observed)) repositories)).

Inductive InventoryCoverage :=
| IC_Unknown
| IC_Known (expected unread : N).

Definition inventory_coverage (inventory : option AdmittedInventory)
    (repositories : list RepositoryEvidence) : InventoryCoverage :=
  let observed := observed_repository_keys repositories in
  match inventory with
  | Some inventory =>
    if admitted_complete inventory then
      IC_Known (N.of_nat (length (active_repos inventory)))
        (countb (fun repo => negb (bool_decide (inventory_key repo ∈ observed)))
           (active_repos inventory))
    else IC_Unknown
  | None => IC_Unknown
  end.

(** ** Reuse is exact *)

Section ReuseLemmas.
  Context (parse_timestamp : string -> option Z).

Lemma fresh_iff o r :
  assess_baseline_age parse_timestamp o r = Fresh <->
  exists t g, parse_iso8601 parse_timestamp o = Some t /\
    parse_iso8601 parse_timestamp r = Some g /\ (g - t < 86401 * 1000000000)%Z.
Proof.
  unfold assess_baseline_age.
  destruct (parse_iso8601 parse_timestamp o) as [t|];
    [|split; [done|by intros (? & ? & ? & _)]].
  destruct (parse_iso8601 parse_timestamp r) as [g|];
    [|split; [done|by intros (? & ? & _ & ? & _)]].
  assert (Z.to_N (Z.max (duration_secs g t) 0) <= BASELINE_MAX_AGE_SECS <->
    (g - t < 86401 * 1000000000)%Z) as Hage.
  { unfold BASELINE_MAX_AGE_SECS, duration_secs. Z.to_euclidean_division_equations. lia. }
  destruct (N.leb_spec (Z.to_N (Z.max (duration_secs g t) 0)) BASELINE_MAX_AGE_SECS) as [H|H].
  - split; [|done]. intros _. exists t, g. split_and!; [done|done|by apply Hage].
  - split; [done|]. intros (t' & g' & [= <-] & [= <-] & Hlt). apply Hage in Hlt. lia.
Qed.

(** The alerts the evidence and the fresh organization summary speak of. *)
Definition alerts_agree (ev : RepositoryEvidence) (repo : Repository) (s : OrgAlertSummary) : Prop :=
  collection_status s = CS_Success ->
  forall b, has_open_alerts (secret_scanning (checks ev)) = Some b ->
    (b = true <-> exists a, per_repo s !! repo_id repo = Some a /\ 0 < open_alert_count a).

Lemma contradict_iff ev repo s :
  org_alerts_contradict_baseline ev repo s = false <-> alerts_agree ev repo s.
Proof.
  unfold org_alerts_contradict_baseline, alerts_agree, scope_key.
  case_bool_decide as Hs; simpl; [|split; [by intros _ ?|done]].
  destruct (has_open_alerts _) as [b|]; [|split; [done|done]].
  rewrite negb_false_iff eqb_true_iff.
  assert (is_some_and (fun a => 0 <? open_alert_count a) (per_repo s !! repo_id repo) = true <->
    exists a, per_repo s !! repo_id repo = Some a /\ 0 < open_alert_count a) as Hi.
  { destruct (per_repo s !! repo_id repo) as [a|]; simpl.
    - rewrite N.ltb_lt. split; [by eauto|by intros (? & [= <-] & ?)].
    - split; [done|by intros (? & ? & _)]. }
  split.
  - intros Heq _ b' [= <-]. by rewrite -Hi Heq.
  - intros H. specialize (H Hs b eq_refl). rewrite -Hi in H.
    destruct b, (is_some_and _ _); intuition congruence.
Qed.

(** What reuse of [ev] for [repo] claims. *)
Definition still_valid (run_timestamp : string) (s : OrgAlertSummary) (repo : Repository)
    (ev : RepositoryEvidence) : Prop :=
  (exists u, u <> "" /\ updated_at (repository ev) = Some u /\ updated_at repo = Some u) /\
  (exists t g, parse_iso8601 parse_timestamp (observed_at (checks ev)) = Some t /\
     parse_iso8601 parse_timestamp run_timestamp = Some g /\ (g - t < 86401 * 1000000000)%Z) /\
  (dependabot_status (dependabot_security_updates (checks ev)) = DS_Enabled ->
     is_dependabot_inactive parse_timestamp (pushed_at repo) run_timestamp = false) /\
  alerts_agree ev repo s /\
  (is_public repo = true ->
     SecurityPolicyResult_status (security_policy (checks ev)) <> SPS_Unknown).

Lemma UpdatedAt_new_Some a u : UpdatedAt_new a = Some u <-> a = u /\ u <> "".
Proof.
  unfold UpdatedAt_new, is_empty. destruct a; split; try done.
  - by intros [<- ?].
  - by intros [= <-].
  - by intros [<- _].
Qed.

Lemma should_reuse_iff a b age :
  should_reuse a b age = true <-> exists u, a = Some u /\ b = Some u /\ age = Fresh.
Proof.
  unfold should_reuse. destruct a as [a|], b as [b|], age; rewrite ?bool_decide_eq_true;
    split; try done; try (by intros (? & ? & ? & ?)).
  - intros ->. by eauto.
  - by intros (? & [= <-] & [= <-] & _).
Qed.

Lemma unchanged_iff repo ev age :
  should_reuse (UpdatedAt_new (default "" (updated_at (repository ev))))
    (updated_at repo ≫= UpdatedAt_new) age = true <->
  (exists u, u <> "" /\ updated_at (repository ev) = Some u /\ updated_at repo = Some u) /\
  age = Fresh.
Proof.
  rewrite should_reuse_iff. split.
  - intros (u & [Hu Hne]%UpdatedAt_new_Some & (v & Hv & [-> _]%UpdatedAt_new_Some)%bind_Some & Hf).
    split; [|done]. exists u. split_and!; [done| |done].
    destruct (updated_at (repository ev)); simpl in Hu; congruence.
  - intros [(u & Hne & -> & ->) ->]. exists u. simpl.
    by rewrite (proj2 (UpdatedAt_new_Some u u)).
Qed.

(** The guards as one conjunction. *)
Lemma reusable_andb run_timestamp s repo ev :
  reusable parse_timestamp run_timestamp s repo ev =
  should_reuse (UpdatedAt_new (default "" (updated_at (repository ev))))
    (updated_at repo ≫= UpdatedAt_new)
    (assess_baseline_age parse_timestamp (observed_at (checks ev)) run_timestamp)
  && (negb (bool_decide
              (dependabot_status (dependabot_security_updates (checks ev)) = DS_Enabled)
            && is_dependabot_inactive parse_timestamp (pushed_at repo) run_timestamp)
  && (negb (org_alerts_contradict_baseline ev repo s)
  && negb (is_public repo
           && bool_decide
                (SecurityPolicyResult_status (security_policy (checks ev)) = SPS_Unknown)))).
Proof.
  unfold reusable. destruct (should_reuse _ _ _); simpl; [|done].
  destruct (_ && is_dependabot_inactive _ _ _); simpl; [done|].
  destruct (org_alerts_contradict_baseline _ _ _); simpl; [done|].
  by destruct (is_public repo && _).
Qed.

Lemma negb_guard (P : Prop) `{!Decision P} (b : bool) :
  negb (bool_decide P && b) = true <-> (P -> b = false).
Proof. case_bool_decide; destruct b; simpl; intuition congruence. Qed.

Lemma reusable_iff run_timestamp s repo ev :
  reusable parse_timestamp run_timestamp s repo ev = true <->
  still_valid run_timestamp s repo ev.
Proof.
  rewrite reusable_andb !andb_true_iff unchanged_iff negb_guard negb_true_iff contradict_iff
    fresh_iff. unfold still_valid.
  assert (negb (is_public repo && bool_decide
      (SecurityPolicyResult_status (security_policy (checks ev)) = SPS_Unknown)) = true <->
    (is_public repo = true ->
     SecurityPolicyResult_status (security_policy (checks ev)) <> SPS_Unknown)) as ->.
  { destruct (is_public repo); simpl; [|intuition congruence].
    rewrite negb_true_iff bool_decide_eq_false. tauto. }
  tauto.
Qed.

(** A fold that inserts what [f] selects, each under the key of its element. *)
Lemma lookup_fold_select (key : Repository -> string)
    (f : Repository -> option RepositoryEvidence) l (m : gmap string RepositoryEvidence) k ev :
  (forall r e, f r = Some e -> forall r' e', f r' = Some e' -> key r = key r' -> e = e') ->
  (forall r e, m !! key r = Some e -> forall e', f r = Some e' -> e = e') ->
  fold_left (fun c r => match f r with Some e => <[key r := e]> c | None => c end) l m !! k
    = Some ev <->
  m !! k = Some ev \/ exists r, r ∈ l /\ key r = k /\ f r = Some ev.
Proof.
  intros Hf. revert m. induction l as [|r l IH]; intros m Hm; simpl.
  - split; [by left|]. intros [|(r & Hr & _)]; [done|]. by apply elem_of_nil in Hr.
  - rewrite IH.
    + destruct (f r) as [e|] eqn:Er.
      * rewrite lookup_insert_Some. split.
        -- intros [[[<- <-]|[_ ?]]|(r' & ? & ? & ?)]; [right; exists r|left|right; exists r'];
             set_solver.
        -- intros [Hk|(r' & [->|Hr']%elem_of_cons & <- & Hr)].
           ++ destruct (decide (key r = k)) as [<-|]; [|by left; right].
              left. left. split; [done|]. symmetry. by eapply Hm.
           ++ left. left. split; [done|]. congruence.
           ++ right. by exists r'.
      * split; [intros [?|(r' & ? & ? & ?)]; [by left|right; exists r'; set_solver]|].
        intros [?|(r' & [->|Hr']%elem_of_cons & <- & Hr)]; [by left|congruence|].
        right. by exists r'.
    + intros r' e' Hr' e'' He''. destruct (f r) as [e|] eqn:Er; [|by eapply Hm].
      apply lookup_insert_Some in Hr' as [[Hkey <-]|[_ Hr']]; [|by eapply Hm].
      by eapply Hf.
Qed.

(** C38: earlier evidence is reused for a repository exactly when the run does
    not force a refresh, the repository is not collected yet, and the evidence
    still speaks for it: the same nonempty [updated_at], an observation less
    than a day and a second old on a readable clock, Dependabot not possibly
    paused, no contradiction with the fresh organization alerts, and, for a
    public repository, a known security policy.  Nothing else is ever
    reused, and what is reused is the stored evidence of its own key. *)
Theorem baseline_reuse_exact repositories completed run_timestamp state force s k ev :
  reuse_from_baseline parse_timestamp repositories completed run_timestamp state force s !! k
    = Some ev <->
  force = false /\ k ∉ completed /\ p_repositories state !! k = Some ev /\
  exists repo, repo ∈ repositories /\ inventory_key repo = k /\
    still_valid run_timestamp s repo ev.
Proof.
  unfold reuse_from_baseline. destruct force; [by rewrite lookup_empty; intuition|].
  set (f := fun repo => match projection_get (inventory_key repo) state with
    | Some e => if reusable parse_timestamp run_timestamp s repo e then Some e else None
    | None => None end).
  assert (forall l m, fold_left (fun cache repo =>
      match projection_get (inventory_key repo) state with
      | None => cache
      | Some e => if reusable parse_timestamp run_timestamp s repo e
                  then <[inventory_key repo := e]> cache else cache end) l m =
    fold_left (fun c r => match f r with Some e => <[inventory_key r := e]> c | None => c end) l m)
    as ->.
  { intros l. induction l as [|r l IH]; intros m; simpl; [done|]. rewrite IH. f_equal.
    unfold f. destruct (projection_get _ _) as [e|]; [|done]. by destruct (reusable _ _ _ _ _). }
  assert (forall r e, f r = Some e <->
    p_repositories state !! inventory_key r = Some e /\ still_valid run_timestamp s r e) as Hf.
  { intros r e. unfold f, projection_get.
    destruct (p_repositories state !! inventory_key r) as [e'|]; [|by split; [|intros [? _]]].
    destruct (reusable _ _ _ _ e') eqn:Er.
    - apply reusable_iff in Er. split; [by intros [= <-]|by intros [[= <-] _]].
    - split; [done|]. intros [[= <-] Hv%reusable_iff]. congruence. }
  rewrite lookup_fold_select.
  - rewrite lookup_empty. split.
    + intros [?|(r & Hr & <- & [He Hv]%Hf)]; [done|].
      apply list_elem_of_In, filter_In in Hr as [Hr Hn].
      apply negb_true_iff, bool_decide_eq_false in Hn.
      split_and!; [done..|]. exists r. split_and!; [by apply list_elem_of_In|done..].
    + intros (_ & Hn & He & r & Hr & <- & Hv). right. exists r.
      split_and!; [|done|by apply Hf]. apply list_elem_of_In, filter_In.
      split; [by apply list_elem_of_In|]. by rewrite bool_decide_eq_false_2.
  - intros r e [Hr _]%Hf r' e' [Hr' _]%Hf Hk. rewrite Hk in Hr. congruence.
  - intros r e Hr. by rewrite lookup_empty in Hr.
Qed.
End ReuseLemmas.

(** ** Placeholders count as unread *)

(** A placeholder is never complete evidence, and it is read as what it
    is: pending for the pending reason, failed for any other.  So adding the
    unread repositories to a report covers the whole admitted inventory
    without adding a single observation, and the unread count of a complete
    inventory is the number of its repositories no observation covers. *)
Lemma unread_are_placeholders repos inventory ts :
  let all := include_unread_repositories repos inventory ts in
  (forall repo, repo ∈ active_repos inventory ->
     inventory_key repo ∈ map (fun r => inventory_key (repository r)) all) /\
  (forall ev, ev ∈ all <-> ev ∈ repos \/ exists repo, repo ∈ active_repos inventory /\
     inventory_key repo ∉ map (fun r => inventory_key (repository r)) repos /\
     ev = failure_evidence_with_reason repo ts PENDING_REASON) /\
  observed_repository_keys all = observed_repository_keys repos /\
  (forall repo reason, is_complete (failure_evidence_with_reason repo ts reason) = false /\
     read_state_from_checks (checks (failure_evidence_with_reason repo ts reason)) =
       if bool_decide (reason = PENDING_REASON) then RS_Pending else RS_Failed).
Proof.
  assert (forall repo reason,
    read_state_from_checks (checks (failure_evidence_with_reason repo ts reason)) =
      if bool_decide (reason = PENDING_REASON) then RS_Pending else RS_Failed) as Hread.
  { intros repo reason. unfold failure_evidence_with_reason, PENDING_REASON.
    destruct (is_public repo); (destruct (decide (reason = "pending")) as [->|Hne];
      [done|]); rewrite !(bool_decide_eq_false_2 (reason = "pending")) //. }
  intros all.
  assert (forall ev, ev ∈ all <-> ev ∈ repos \/ exists repo, repo ∈ active_repos inventory /\
     inventory_key repo ∉ map (fun r => inventory_key (repository r)) repos /\
     ev = failure_evidence_with_reason repo ts PENDING_REASON) as Hall.
  { intros ev. unfold all, include_unread_repositories. rewrite elem_of_app elem_of_map.
    split; (intros [?|H]; [by left|right]).
    - destruct H as (repo & Hin & <-). apply list_elem_of_In, filter_In in Hin as [Hin Hn].
      apply negb_true_iff, bool_decide_eq_false in Hn. rewrite elem_of_list_to_set in Hn.
      exists repo. split_and!; [by apply list_elem_of_In|done|done].
    - destruct H as (repo & Hin & Hn & ->). exists repo. split; [|done].
      apply list_elem_of_In, filter_In. split; [by apply list_elem_of_In|].
      by rewrite bool_decide_eq_false_2 // elem_of_list_to_set. }
  split_and!; [|done| |].
  - intros repo Hin.
    destruct (decide (inventory_key repo ∈ map (fun r => inventory_key (repository r)) repos))
      as [Hk|Hk].
    + apply elem_of_map in Hk as (ev & Hev & <-). apply elem_of_map. exists ev.
      split; [|done]. apply Hall. by left.
    + apply elem_of_map. exists (failure_evidence_with_reason repo ts PENDING_REASON).
      split; [|done]. apply Hall. right. by exists repo.
  - unfold all, include_unread_repositories, observed_repository_keys.
    rewrite List.filter_app map_app list_to_set_app_L. set (l := List.filter _ (active_repos _)).
    assert (List.filter (fun r => bool_decide (read_state_from_checks (checks r) = RS_Observed))
      (map (fun repo => failure_evidence_with_reason repo ts PENDING_REASON) l) = []) as ->.
    { induction l as [|r l IH]; [done|]. cbn [map List.filter]. by rewrite Hread IH. }
    simpl. set_solver.
  - intros repo reason. split; [|apply Hread]. unfold is_complete, failure_evidence_with_reason.
    cbn. by rewrite !andb_false_r.
Qed.
