(* ===== verification/Publisher.v ===== *)
(** * The partial publisher ([app/collect.rs], [run_partial_publisher])

    The task that re-renders the report while a collection is paused: its pure
    transition function, and the loop around it as a step relation against an
    environment that notifies and shuts it down at any moment.

    [tokio]: a [Notify] holds at most one permit, which [notified] consumes and
    which a branch of [select!] that loses does not; [changed] of the watch
    channel completes when the value changed or the sender is gone. *)

From S2P Require Import Prelude.

Inductive PublisherState := Idle | HoldingDown (dirty : bool).
#[export] Instance PublisherState_eq_dec : EqDecision PublisherState.
Proof. solve_decision. Defined.

Definition is_holding_down (s : PublisherState) : bool :=
  match s with HoldingDown _ => true | Idle => false end.

Inductive LoopEvent := Signal | HoldDownExpired | ShutdownObserved.
#[export] Instance LoopEvent_eq_dec : EqDecision LoopEvent.
Proof. solve_decision. Defined.

Inductive BufferedSignal := Present | Absent.
#[export] Instance BufferedSignal_eq_dec : EqDecision BufferedSignal.
Proof. solve_decision. Defined.

(** [BufferedSignal::drain], on the permit it polls. *)
Definition drain (permit : bool) : BufferedSignal := if permit then Present else Absent.

Inductive FinalRender := Required | NotRequired.
#[export] Instance FinalRender_eq_dec : EqDecision FinalRender.
Proof. solve_decision. Defined.

(** [FinalRender::at_barrier]. *)
Definition at_barrier (state : PublisherState) (buffered : BufferedSignal) : FinalRender :=
  match state, buffered with
  | HoldingDown true, _ => Required
  | (Idle | HoldingDown false), Present => Required
  | (Idle | HoldingDown false), Absent => NotRequired
  end.

Inductive Transition :=
| Exit (carried_signal : BufferedSignal) | RenderLeadingEdge | MarkDirty | RenderCoalesced
| ParkIdle.
#[export] Instance Transition_eq_dec : EqDecision Transition.
Proof. solve_decision. Defined.

Definition transition (stopping : bool) (state : PublisherState) (event : LoopEvent) : Transition :=
  match stopping, event, state with
  | true, Signal, _ => Exit Present
  | true, (HoldDownExpired | ShutdownObserved), _ | false, ShutdownObserved, _ => Exit Absent
  | false, Signal, Idle => RenderLeadingEdge
  | false, Signal, HoldingDown _ => MarkDirty
  | false, HoldDownExpired, HoldingDown true => RenderCoalesced
  | false, HoldDownExpired, (Idle | HoldingDown false) => ParkIdle
  end.

(** ** The loop *)

(** Where the task is: at [select!]; with an event selected; with [stopping]
    read; inside a render the loop authorised; at the barrier with its
    decision; inside the final render; returned. *)
Inductive Pc :=
| Selecting | Selected (e : LoopEvent) | Decided (stopping : bool) (e : LoopEvent)
| Rendering | Barrier (d : FinalRender) | Flushing | Done.
#[export] Instance Pc_eq_dec : EqDecision Pc.
Proof. solve_decision. Defined.

(** The task and its channels.  [unserved] and [late] are ghosts: whether a
    signal raised before the barrier has had no render start after it, and how
    many renders started after shutdown was sent. *)
Record World := mkWorld {
  pc : Pc;
  publisher : PublisherState;
  permit : bool;
  shutdown : bool;
  closed : bool;
  unserved : bool;
  late : nat;
}.

Definition initial : World := mkWorld Selecting Idle false false false false 0.

(** The barrier has been passed: [drain] has run. *)
Definition past_barrier (p : Pc) : bool :=
  match p with Barrier _ | Flushing | Done => true | _ => false end.

(** The environment: a notification, a shutdown, the end of the sender. *)
Inductive env_step : World -> World -> Prop :=
| env_notify p s b sh c u n :
    env_step (mkWorld p s b sh c u n)
      (mkWorld p s true sh c (if past_barrier p then u else true) n)
| env_shutdown p s b sh c u n :
    env_step (mkWorld p s b sh c u n) (mkWorld p s b true c u n)
| env_close p s b sh c u n :
    env_step (mkWorld p s b sh c u n) (mkWorld p s b sh true u n).

(** A render that starts now. *)
Definition started (sh : bool) (n : nat) : nat := if sh then S n else n.

(** The task; [interval] tells whether a periodic tick is configured. *)
Inductive task_step (interval : bool) : World -> World -> Prop :=
| select_notified s sh c u n :
    task_step interval (mkWorld Selecting s true sh c u n)
      (mkWorld (Selected Signal) s false sh c u n)
| select_tick s b sh c u n :
    interval = true ->
    task_step interval (mkWorld Selecting s b sh c u n)
      (mkWorld (Selected Signal) s b sh c true n)
| select_expired s b sh c u n :
    is_holding_down s = true ->
    task_step interval (mkWorld Selecting s b sh c u n)
      (mkWorld (Selected HoldDownExpired) s b sh c u n)
| select_shutdown s b sh c u n :
    sh || c = true ->
    task_step interval (mkWorld Selecting s b sh c u n)
      (mkWorld (Selected ShutdownObserved) s b sh c u n)
| snapshot_stopping e s b sh c u n :
    task_step interval (mkWorld (Selected e) s b sh c u n)
      (mkWorld (Decided sh e) s b sh c u n)
| exit_carried st e s b sh c u n :
    transition st s e = Exit Present ->
    task_step interval (mkWorld (Decided st e) s b sh c u n)
      (mkWorld (Barrier (at_barrier s Present)) s b sh c u n)
| exit_drained st e s b sh c u n :
    transition st s e = Exit Absent ->
    task_step interval (mkWorld (Decided st e) s b sh c u n)
      (mkWorld (Barrier (at_barrier s (drain b))) s false sh c u n)
| render_starts st e s b sh c u n :
    transition st s e = RenderLeadingEdge \/ transition st s e = RenderCoalesced ->
    task_step interval (mkWorld (Decided st e) s b sh c u n)
      (mkWorld Rendering s b sh c false (started sh n))
| render_ends s b sh c u n :
    task_step interval (mkWorld Rendering s b sh c u n)
      (mkWorld Selecting (HoldingDown false) b sh c u n)
| mark_dirty st e s b sh c u n :
    transition st s e = MarkDirty ->
    task_step interval (mkWorld (Decided st e) s b sh c u n)
      (mkWorld Selecting (HoldingDown true) b sh c u n)
| park_idle st e s b sh c u n :
    transition st s e = ParkIdle ->
    task_step interval (mkWorld (Decided st e) s b sh c u n)
      (mkWorld Selecting Idle b sh c u n)
| flush_starts s b sh c u n :
    task_step interval (mkWorld (Barrier Required) s b sh c u n)
      (mkWorld Flushing s b sh c false (started sh n))
| flush_not_required s b sh c u n :
    task_step interval (mkWorld (Barrier NotRequired) s b sh c u n) (mkWorld Done s b sh c u n)
| flush_ends s b sh c u n :
    task_step interval (mkWorld Flushing s b sh c u n) (mkWorld Done s b sh c u n).

Definition step (interval : bool) (w w' : World) : Prop :=
  env_step w w' \/ task_step interval w w'.

Definition reachable (interval : bool) : World -> Prop := rtc (step interval) initial.

(** ** Invariants *)

(** A signal without a render after it is still somewhere: in the permit, in
    the dirty bit, in the selected event, or in the decision of the barrier. *)
Definition carried (w : World) : Prop :=
  match pc w with
  | Selecting => permit w = true \/ publisher w = HoldingDown true
  | Selected e | Decided _ e =>
    permit w = true \/ publisher w = HoldingDown true \/ e = Signal
  | Rendering => permit w = true
  | Barrier d => d = Required
  | Flushing | Done => False
  end.

Definition no_signal_lost_inv (w : World) : Prop := unserved w = true -> carried w.

(** The renders that can still start late. *)
Definition late_bound (w : World) : Prop :=
  match pc w with
  | Selecting | Selected _ => late w <= if shutdown w then 1 else 0
  | Decided st _ =>
    late w <= (if shutdown w then 1 else 0) /\
    (st = false -> late w = 0) /\ (shutdown w = false -> st = false)
  | Rendering => late w <= 1 /\ (shutdown w = false -> late w = 0)
  | Barrier _ => late w <= 1 /\ (shutdown w = false -> late w = 0)
  | Flushing | Done => late w <= 2 /\ (shutdown w = false -> late w = 0)
  end.

Lemma transition_signal st s e t :
  transition st s e = t ->
  match t with
  | Exit Present => e = Signal
  | Exit Absent => e <> Signal
  | RenderLeadingEdge | MarkDirty => st = false /\ e = Signal
  | RenderCoalesced => st = false /\ e = HoldDownExpired
  | ParkIdle => st = false /\ e = HoldDownExpired /\ s <> HoldingDown true
  end.
Proof. intros <-. by destruct st, s as [|[]], e. Qed.

Lemma env_no_signal_lost w w' : no_signal_lost_inv w -> env_step w w' -> no_signal_lost_inv w'.
Proof.
  intros H Hs. destruct Hs as [p s b sh c u n|p s b sh c u n|p s b sh c u n];
    unfold no_signal_lost_inv, carried in *; simpl in *; try done.
  destruct p; simpl in *; auto.
Qed.

Lemma task_no_signal_lost i w w' :
  no_signal_lost_inv w -> task_step i w w' -> no_signal_lost_inv w'.
Proof.
  intros H Hs. unfold no_signal_lost_inv, carried in *.
  destruct Hs as [| | | | |st e s b sh c u n Ht|st e s b sh c u n Ht| | |st e s b sh c u n Ht
    |st e s b sh c u n Ht| | |]; simpl in *; try done;
    try (intros Hu; specialize (H Hu)); try tauto.
  - by destruct s as [|[]].
  - apply transition_signal in Ht. destruct H as [->|[-> | -> ]]; [(by destruct s as [|[]])|done|done].
  - apply transition_signal in Ht as (_ & He & Hs). destruct H as [?|[?|?]]; [by left|done|].
    congruence.
  - done.
Qed.

Lemma env_late_bound w w' : late_bound w -> env_step w w' -> late_bound w'.
Proof.
  intros H Hs. destruct Hs as [p s b sh c u n|p s b sh c u n|p s b sh c u n];
    unfold late_bound in *; simpl in *; try done.
  destruct p, sh; intuition (try lia; try congruence).
Qed.

Lemma task_late_bound i w w' : late_bound w -> task_step i w w' -> late_bound w'.
Proof.
  intros H Hs. unfold late_bound in *.
  destruct Hs as [s sh c u n|s b sh c u n|s b sh c u n|s b sh c u n|e s b sh c u n
    |st e s b sh c u n Ht|st e s b sh c u n Ht|st e s b sh c u n Ht|s b sh c u n
    |st e s b sh c u n Ht|st e s b sh c u n Ht|s b sh c u n|s b sh c u n|s b sh c u n];
    simpl in *; try done.
  - split_and!; [done| |done]. intros ->. lia.
  - destruct sh; intuition (try lia; try congruence).
  - destruct sh; intuition (try lia; try congruence).
  - assert (st = false) as ->
      by (destruct Ht as [Ht|Ht]; by apply transition_signal in Ht as [-> _]).
    destruct sh; simpl; intuition (try lia; try congruence).
  - destruct sh; intuition (try lia; try congruence).
  - tauto.
  - tauto.
  - destruct sh; simpl; intuition (try lia; try congruence).
  - intuition lia.
Qed.

Lemma steps_inv i w w' :
  rtc (step i) w w' -> no_signal_lost_inv w /\ late_bound w ->
  no_signal_lost_inv w' /\ late_bound w'.
Proof.
  induction 1 as [|w w1 w2 [Hs|Hs] _ IH]; [done|..]; intros [H1 H2]; apply IH.
  - split; [by eapply env_no_signal_lost|by eapply env_late_bound].
  - split; [by eapply task_no_signal_lost|by eapply task_late_bound].
Qed.

Lemma reachable_inv i w : reachable i w -> no_signal_lost_inv w /\ late_bound w.
Proof. intros H. apply (steps_inv i initial w H). split; [done|]. unfold late_bound; simpl. lia. Qed.

(** C12: whatever the environment does, when the publisher returns every
    signal raised before its barrier has had a render that started after it:
    signals are coalesced, never dropped.  At most two renders start once
    shutdown was sent, the last of them at the barrier, and the render of a
    loop that has read the shutdown never starts. *)
Theorem publisher_no_signal_lost i w :
  reachable i w ->
  (pc w = Done -> unserved w = false) /\ late w <= 2 /\
  (shutdown w = false -> late w = 0) /\
  (forall w' e, pc w = Decided true e -> task_step i w w' -> exists d, pc w' = Barrier d).
Proof.
  intros H. destruct (reachable_inv i w H) as [H1 H2]. unfold no_signal_lost_inv, carried in H1.
  unfold late_bound in H2. split_and!.
  - intros Hp. rewrite Hp in H1. destruct (unserved w); [by destruct H1|done].
  - destruct (pc w), (shutdown w); simpl in *; lia.
  - intros Hs. destruct (pc w); rewrite ?Hs in H2; simpl in *; try lia; tauto.
  - intros w' e Hp Hs. destruct Hs; simpl in Hp; simplify_eq; simpl; try (by eexists);
      destruct e; simpl in *; try done; by destruct s as [|[]]; intuition.
Qed.

(** A signal raised just before the shutdown is served by the flush. *)
Lemma sample_run : reachable false (mkWorld Done Idle false true false false 1).
Proof.
  unfold reachable, initial.
  eapply rtc_l; [left; apply env_notify|]. eapply rtc_l; [left; apply env_shutdown|].
  eapply rtc_l; [right; apply select_shutdown; reflexivity|].
  eapply rtc_l; [right; apply snapshot_stopping|].
  eapply rtc_l; [right; apply exit_drained; reflexivity|].
  eapply rtc_l; [right; apply flush_starts|].
  eapply rtc_l; [right; apply flush_ends|]. apply rtc_refl.
Defined.

Lemma publisher_no_signal_lost_witness :
  let w := mkWorld Done Idle false true false false 1 in
  (pc w = Done -> unserved w = false) /\ late w <= 2.
Proof.
  intros w. destruct (publisher_no_signal_lost false w sample_run) as (H1 & H2 & _).
  split; [exact H1|exact H2].
Defined.

(** After a shutdown was sent, the steps the task still has. *)
Definition remaining (w : World) : nat :=
  match pc w with
  | Decided false _ => 7
  | Rendering => 6
  | Selecting => 5
  | Selected _ => 4
  | Decided true _ => 3
  | Barrier _ => 2
  | Flushing => 1
  | Done => 0
  end.

(** After shutdown was sent the publisher is never stuck before it
    returns, and it returns within seven of its own steps, however the
    environment interleaves: the hold-down is never waited out. *)
Lemma publisher_terminates i w :
  shutdown w = true ->
  (pc w <> Done -> exists w', task_step i w w') /\
  (forall w', task_step i w w' -> shutdown w' = true /\ remaining w' < remaining w) /\
  (forall w', env_step w w' -> shutdown w' = true /\ remaining w' = remaining w) /\
  remaining w <= 7 /\ (remaining w = 0 -> pc w = Done).
Proof.
  intros Hs. split_and!.
  - destruct w as [p s b sh c u n]; simpl in *; subst sh. intros Hp.
    destruct p as [|e|st e| |d| |]; [..|done].
    + eexists. by apply select_shutdown.
    + eexists. apply snapshot_stopping.
    + destruct (transition st s e) as [[]| | | |] eqn:Et.
      * eexists. by apply exit_carried.
      * eexists. by apply exit_drained.
      * eexists. apply render_starts. by left.
      * eexists. by apply mark_dirty.
      * eexists. apply render_starts. by right.
      * eexists. by apply park_idle.
    + eexists. apply render_ends.
    + destruct d; eexists; [apply flush_starts|apply flush_not_required].
    + eexists. apply flush_ends.
  - intros w' H. destruct H; simpl in *; subst; (split; [done|]);
      repeat match goal with
      | H : _ \/ _ |- _ => destruct H
      | H : transition ?st _ _ = _ |- _ => apply transition_signal in H; destruct st
      end; unfold remaining; cbn [pc]; try lia; intuition congruence.
  - intros w' H. by destruct H.
  - unfold remaining. destruct (pc w) as [|e|[] e| |d| |]; lia.
  - unfold remaining. by destruct (pc w) as [|e|[] e| |d| |].
Qed.

Lemma publisher_terminates_witness :
  exists w', task_step false (mkWorld Selecting (HoldingDown true) false true false true 0) w' /\
    remaining w' < 5.
Proof.
  destruct (publisher_terminates false (mkWorld Selecting (HoldingDown true) false true false true 0)
    eq_refl) as (Hp & Hm & _).
  destruct (Hp ltac:(discriminate)) as [w' Hw]. exists w'. split; [exact Hw|].
  exact (proj2 (Hm w' Hw)).
Defined.
