(* ===== verification/Publication.v ===== *)
(** * Publication ([app/collect.rs], tokens of [app/state/mod.rs])

    Which rendered report the server shows: the quality of a candidate, the
    test that admitting it loses neither evidence nor recency, and the commit
    that admits or retains.  Rendering is a parameter, as are the parser of
    timestamps and the pages of the web crate, known by their entity tag. *)

From S2P Require Import Prelude Str Repository Checks Evidence Metrics Run Aggregate Projection.
From S2P Require Import InventoryAuthority Baseline.

Open Scope N_scope.

(** [domain::evidence::Evidence]. *)
Record EvidenceArtifact := mkEvidenceArtifact {
  ea_assessment_metadata : AssessmentMetadata;
  ea_collection_statistics : CollectionStatistics;
  ea_metrics : AggregatedMetrics;
  ea_secret_scanning_observability : SecretScanningObservability;
  ea_repositories : list RepositoryEvidence;
  ea_deleted : list DeletedRepoRecord;
}.

(** ** Capture tokens *)

(** [source] identifies the projection the [Weak] pointer leads to. *)
Record ProjectionCaptureToken := mkProjectionCaptureToken {
  pt_source : N;
  pt_sequence : N;
  pt_deleted_keys : gset string;
}.

Definition witnesses_deletion (t : ProjectionCaptureToken) (key : string) : bool :=
  bool_decide (key ∈ pt_deleted_keys t).
Definition projection_succeeds (t previous : ProjectionCaptureToken) : bool :=
  (pt_source t =? pt_source previous) && (pt_sequence previous <=? pt_sequence t).

Record LiveObservationToken := mkLiveObservationToken { lt_source : N; lt_sequence : N }.

Definition live_succeeds (t previous : LiveObservationToken) : bool :=
  (lt_source t =? lt_source previous) && (lt_sequence previous <=? lt_sequence t).
Definition belongs_to (t : LiveObservationToken) (p : ProjectionCaptureToken) : bool :=
  lt_source t =? pt_source p.

(** [next_render_capture]: the next sequence number, or none left. *)
Definition next_render_capture (sequence : N) : option N := checked_add u64_max sequence 1.

(** [projection_render_snapshot]: the token of a capture of [p]. *)
Definition projection_render_snapshot (source sequence : N) (p : EvidenceProjection)
    : option (ProjectionCaptureToken * EvidenceProjection) :=
  match next_render_capture sequence with
  | Some sequence => Some (mkProjectionCaptureToken source sequence (dom (p_deleted p)), p)
  | None => None
  end.

(** [ProjectionRenderSnapshot::team_rosters]: the live rosters, then the
    ghosts of teams without one, each in key order. *)
Definition snapshot_team_rosters (p : EvidenceProjection) : list TeamRoster :=
  map snd (btree_entries (p_team_rosters p))
  ++ map snd (List.filter
       (fun kv => match p_team_rosters p !! fst kv with Some _ => false | None => true end)
       (btree_entries (p_team_ghost_rosters p))).

(** ** Capture times *)

Inductive CaptureTime := Missing | Malformed | Captured (at_ : Z).
#[export] Instance CaptureTime_eq_dec : EqDecision CaptureTime.
Proof. solve_decision. Defined.

Definition capture_preserves (new previous : CaptureTime) : bool :=
  match new, previous with
  | Captured new, Captured old => (old <=? new)%Z
  | Captured _, (Missing | Malformed) => true
  | (Missing | Malformed), _ => false
  end.

Definition capture_combine (oldest next : CaptureTime) : CaptureTime :=
  match oldest, next with
  | Malformed, _ | _, Malformed => Malformed
  | Missing, _ | _, Missing => Missing
  | Captured a, Captured b => Captured (Z.min a b)
  end.

Section CaptureTimes.
  Context (parse_timestamp : string -> option Z).

(** [CaptureTime::parse]. *)
Definition capture_parse (value : option string) : CaptureTime :=
  match value with
  | None => Missing
  | Some v =>
    if is_empty v then Missing
    else match parse_timestamp v with Some at_ => Captured at_ | None => Malformed end
  end.

(** [CaptureTime::from_checks]. *)
Definition capture_from_checks (c : RepositoryChecks) : CaptureTime :=
  match map (fun at_ => capture_parse (Some at_)) (omap id (observed_check_timestamps c)) with
  | [] => Missing
  | t :: ts => fold_left capture_combine ts t
  end.
End CaptureTimes.

(** ** Quality *)

Record ProtectedEntry (T : Type) := mkProtectedEntry {
  pe_complete : bool;
  pe_captured : CaptureTime;
  pe_content : T;
}.
Arguments mkProtectedEntry {T}.
Arguments pe_complete {T}.
Arguments pe_captured {T}.
Arguments pe_content {T}.

Inductive PublicationProvenance :=
| P_Projection (token : ProjectionCaptureToken)
| P_LiveOverlay (projection : ProjectionCaptureToken) (live : LiveObservationToken)
| P_Unordered.

Record PublicationQuality := mkPublicationQuality {
  provenance : PublicationProvenance;
  inventory_known : bool;
  q_repositories : gmap string (ProtectedEntry RepositoryEvidence);
  q_rosters : gmap string (ProtectedEntry TeamRoster);
}.

(** The derived equality of evidence, which compares repositories by
    [impl PartialEq for Repository]. *)
Definition evidence_eqb (a b : RepositoryEvidence) : bool :=
  Repository_eqb (repository a) (repository b)
  && bool_decide (checks a = checks b) && bool_decide (last_commit a = last_commit b)
  && Bool.eqb (repo_details_not_modified a) (repo_details_not_modified b).
Definition roster_eqb (a b : TeamRoster) : bool := bool_decide (a = b).

(** [PublicationQuality::from_evidence]. *)
Definition quality_from_evidence (parse_timestamp : string -> option Z)
    (evidence : EvidenceArtifact) (inventory : option AdmittedInventory) : PublicationQuality :=
  mkPublicationQuality P_Unordered (is_some_and admitted_complete inventory)
    (collect_map
       (map (fun r => (inventory_key (repository r),
               mkProtectedEntry (is_complete r) (capture_from_checks parse_timestamp (checks r)) r))
          (List.filter
             (fun r => bool_decide (read_state_from_checks (checks r) = RS_Observed))
             (ea_repositories evidence))))
    (collect_map
       (map (fun r => (canonical_owner r,
               mkProtectedEntry true (capture_parse parse_timestamp (fetched_at r)) r))
          (List.filter (fun r => bool_decide (roster_status r = TRS_Complete))
             (team_rosters (ea_metrics evidence))))).

Definition preserves_entry {T} (eqb : T -> T -> bool) (incoming previous : ProtectedEntry T)
    (ordered : bool) : bool :=
  (negb (pe_complete previous) || pe_complete incoming)
  && (ordered || capture_preserves (pe_captured incoming) (pe_captured previous)
      || eqb (pe_content incoming) (pe_content previous)).

(** [previous.iter().all(..)]. *)
Definition map_all {A} (f : string -> A -> bool) (m : gmap string A) : bool :=
  forallb (fun kv => f (fst kv) (snd kv)) (map_to_list m).

Definition preserves_entries {T} (eqb : T -> T -> bool)
    (incoming previous : gmap string (ProtectedEntry T)) (ordered : bool) : bool :=
  map_all (fun key previous =>
    is_some_and (fun incoming => preserves_entry eqb incoming previous ordered)
      (incoming !! key)) previous.

(** The match on both provenances: which parts are ordered by their tokens,
    or [None] where the publication is refused outright. *)
Definition provenance_order (q previous : PublicationQuality) : option (bool * bool) :=
  match provenance q, provenance previous with
  | P_Projection new, P_Projection old =>
    if projection_succeeds new old then Some (true, true) else None
  | P_LiveOverlay new live, P_Projection old =>
    if projection_succeeds new old && belongs_to live new then Some (true, true) else None
  | P_LiveOverlay new live, P_LiveOverlay old previous_live =>
    if projection_succeeds new old && belongs_to live new && belongs_to previous_live old
       && live_succeeds live previous_live
    then Some (true, true) else None
  | P_Projection new, P_LiveOverlay old _ =>
    if projection_succeeds new old && bool_decide (dom (q_rosters previous) = ∅)
    then Some (true, false) else None
  | P_Unordered, P_Unordered => Some (false, false)
  | _, _ => None
  end.

Definition provenance_witnesses (q : PublicationQuality) (key : string) : bool :=
  match provenance q with
  | P_Projection token | P_LiveOverlay token _ => witnesses_deletion token key
  | P_Unordered => false
  end.

(** [PublicationQuality::preserves]. *)
Definition quality_preserves (q previous : PublicationQuality) : bool :=
  match provenance_order q previous with
  | None => false
  | Some (repositories_ordered, rosters_ordered) =>
    (negb (inventory_known previous) || inventory_known q)
    && map_all (fun key previous =>
         match q_repositories q !! key with
         | Some incoming => preserves_entry evidence_eqb incoming previous repositories_ordered
         | None => repositories_ordered && provenance_witnesses q key
         end) (q_repositories previous)
    && preserves_entries roster_eqb (q_rosters q) (q_rosters previous) rosters_ordered
  end.

(** ** The commit *)

Inductive PublicationStage := WarmStart | Intermediate | Terminal.
#[export] Instance PublicationStage_eq_dec : EqDecision PublicationStage.
Proof. solve_decision. Defined.

Definition stage_label (s : PublicationStage) : string :=
  match s with
  | WarmStart => "Cached warm start"
  | Intermediate => "Partial refresh"
  | Terminal => "Collection cycle finished; evidence may still be partial"
  end.

Section Commit.
  (** [cherry_pit_web]'s page, and the renderer behind
      [render_publication_cache], on the input kept for it and a summary. *)
  Context {Page RenderInput : Type} (etag : Page -> string)
    (disclosure_summary : RenderInput -> string)
    (render : RenderInput -> string -> option (gmap string Page)).

Record PublicationCandidate := mkPublicationCandidate {
  pages : gmap string Page;
  retained_pages : gmap string Page;
  quality : PublicationQuality;
  render_input : option RenderInput;
  attempt : string;
  stage : PublicationStage;
}.

Inductive AdmittedPublication :=
| Current (candidate : PublicationCandidate)
| Retained (candidate : PublicationCandidate).

Definition candidate_of (p : AdmittedPublication) : PublicationCandidate :=
  match p with Current c | Retained c => c end.

(** The publication slot, the served pages and the page keys sent to the
    subscribers, in order. *)
Record PublicationState := mkPublicationState {
  publication : option AdmittedPublication;
  html_cache : option (gmap string Page);
  page_updates : list (list string);
}.

Definition retained_summary (attempt summary : string) : string :=
  "Retained earlier report. Latest attempted refresh: not admitted because it would lose evidence or capture recency. "
    +:+ attempt +:+ ". Retained content and original capture age: " +:+ summary.

(** The rejected candidate leaves its mark on the retained pages. *)
Definition retain (previous : PublicationCandidate) (rejected_attempt : string)
    : PublicationCandidate :=
  match render_input previous with
  | Some input =>
    match render input (retained_summary rejected_attempt (disclosure_summary input)) with
    | Some pages' =>
      mkPublicationCandidate (pages previous) pages' (quality previous) (render_input previous)
        (attempt previous) (stage previous)
    | None => previous
    end
  | None => previous
  end.

(** [next] of [commit_cached_pages]. *)
Definition admit_publication (slot : option AdmittedPublication)
    (candidate : PublicationCandidate) : AdmittedPublication :=
  match slot with
  | Some previous =>
    if negb (bool_decide (stage (candidate_of previous) = WarmStart))
       && negb (quality_preserves (quality candidate) (quality (candidate_of previous)))
    then Retained (retain (candidate_of previous) (attempt candidate))
    else Current candidate
  | None => Current candidate
  end.

Definition cache_of (p : AdmittedPublication) : gmap string Page :=
  match p with Current c => pages c | Retained c => retained_pages c end.

Definition same_cache (previous cache : gmap string Page) : bool :=
  Nat.eqb (size previous) (size cache)
  && map_all (fun path page =>
       is_some_and (fun old => bool_decide (etag old = etag page)) (previous !! path)) cache.

(** [commit_cached_pages]. *)
Definition commit_cached_pages (candidate : PublicationCandidate) (s : PublicationState)
    : PublicationState :=
  let next := admit_publication (publication s) candidate in
  let cache := cache_of next in
  let unchanged := is_some_and (fun previous => same_cache previous cache) (html_cache s) in
  mkPublicationState (Some next) (Some cache)
    (if unchanged then page_updates s
     else page_updates s ++ [map fst (map_to_list cache)]).
End Commit.
Arguments PublicationCandidate : clear implicits.
Arguments PublicationState : clear implicits.
Arguments AdmittedPublication : clear implicits.

(** ** Lemmas *)

Lemma map_all_spec {A} (f : string -> A -> bool) m :
  map_all f m = true <-> forall k a, m !! k = Some a -> f k a = true.
Proof.
  unfold map_all. rewrite forallb_forall. split.
  - intros H k a Hk. apply (H (k, a)). by apply list_elem_of_In, elem_of_map_to_list.
  - intros H [k a] Hin. apply H. by apply elem_of_map_to_list, list_elem_of_In.
Qed.

Lemma evidence_eqb_refl e : evidence_eqb e e = true.
Proof.
  unfold evidence_eqb. rewrite !bool_decide_eq_true_2 // Bool.eqb_reflx !andb_true_r.
  by apply Repository_eqb_spec.
Qed.

(** A token that overlays live rosters belongs to its own capture. *)
Definition provenance_wf (q : PublicationQuality) : Prop :=
  match provenance q with P_LiveOverlay t live => belongs_to live t = true | _ => True end.

(** Publishing the same quality again is always admitted. *)
Lemma quality_preserves_refl q : provenance_wf q -> quality_preserves q q = true.
Proof.
  intros Hw. assert (exists o, provenance_order q q = Some (o, o)) as [o Ho].
  { unfold provenance_order, provenance_wf, projection_succeeds, live_succeeds in *.
    destruct (provenance q) as [t|t l|]; [exists true|exists true|exists false]; [| |done];
      rewrite ?Hw !N.eqb_refl !N.leb_refl //. }
  unfold quality_preserves. rewrite Ho. rewrite !andb_true_iff. split_and!.
  - by destruct (inventory_known q).
  - apply map_all_spec. intros k e Hk. rewrite Hk. unfold preserves_entry.
    rewrite evidence_eqb_refl !orb_true_r andb_true_r. by destruct (pe_complete e).
  - apply map_all_spec. intros k e Hk. rewrite Hk. simpl. unfold preserves_entry, roster_eqb.
    rewrite bool_decide_eq_true_2 // !orb_true_r andb_true_r. by destruct (pe_complete e).
Qed.

(** What a quality protects of another: inventory knowledge, complete
    rosters, and complete evidence except of the keys in [deleted]. *)
Record keeps (deleted : string -> Prop) (old new : PublicationQuality) : Prop := {
  keeps_inventory : inventory_known old = true -> inventory_known new = true;
  keeps_repository k e : q_repositories old !! k = Some e -> pe_complete e = true ->
    deleted k \/ exists e', q_repositories new !! k = Some e' /\ pe_complete e' = true;
  keeps_roster k e : q_rosters old !! k = Some e -> pe_complete e = true ->
    exists e', q_rosters new !! k = Some e' /\ pe_complete e' = true;
}.

Lemma preserves_entry_complete {T} eqb (i p : ProtectedEntry T) o :
  preserves_entry eqb i p o = true -> pe_complete p = true -> pe_complete i = true.
Proof. unfold preserves_entry. intros [H _]%andb_prop Hp. by rewrite Hp in H. Qed.

Lemma preserves_keeps q p :
  quality_preserves q p = true -> keeps (fun k => provenance_witnesses q k = true) p q.
Proof.
  unfold quality_preserves. destruct (provenance_order q p) as [[ro so]|]; [|done].
  intros [[Hi Hr]%andb_prop Hs]%andb_prop. rewrite map_all_spec in Hr.
  unfold preserves_entries in Hs. rewrite map_all_spec in Hs. split.
  - intros Hp. by rewrite Hp in Hi.
  - intros k e Hk Hc. specialize (Hr k e Hk).
    destruct (q_repositories q !! k) as [e'|] eqn:Ek.
    + right. exists e'. split; [done|]. by eapply preserves_entry_complete.
    + left. by apply andb_prop in Hr as [_ ?].
  - intros k e Hk Hc. specialize (Hs k e Hk).
    destruct (q_rosters q !! k) as [e'|] eqn:Ek; [|done]. simpl in Hs.
    exists e'. split; [done|]. by eapply preserves_entry_complete.
Qed.

Lemma keeps_refl d q : keeps d q q.
Proof. split; eauto. Qed.

Lemma keeps_trans (d d' : string -> Prop) q1 q2 q3 :
  keeps d q1 q2 -> keeps d' q2 q3 -> keeps (fun k => d k \/ d' k) q1 q3.
Proof.
  intros [A1 A2 A3] [B1 B2 B3]. split; [auto|..].
  - intros k e Hk Hc. destruct (A2 k e Hk Hc) as [|(e' & Hk' & Hc')]; [by left; left|].
    destruct (B2 k e' Hk' Hc') as [|?]; [by left; right|by right].
  - intros k e Hk Hc. destruct (A3 k e Hk Hc) as (e' & Hk' & Hc'). by eapply B3.
Qed.

Section CommitLemmas.
  Context {Page RenderInput : Type} (etag : Page -> string)
    (disclosure_summary : RenderInput -> string)
    (render : RenderInput -> string -> option (gmap string Page)).

  Notation Candidate := (PublicationCandidate Page RenderInput).
  Notation commit := (commit_cached_pages etag disclosure_summary render).

Lemma retain_same (c : Candidate) a :
  quality (retain disclosure_summary render c a) = quality c /\
  stage (retain disclosure_summary render c a) = stage c.
Proof. unfold retain. by repeat case_match. Qed.

(** The quality now published. *)
Definition published (s : PublicationState Page RenderInput) : option PublicationQuality :=
  option_map (fun p => quality (candidate_of p)) (publication s).

Definition protected (s : PublicationState Page RenderInput) : Prop :=
  match publication s with Some p => stage (candidate_of p) <> WarmStart | None => False end.

Lemma commit_keeps c s q :
  protected s -> stage c <> WarmStart -> published s = Some q ->
  protected (commit c s) /\ exists q', published (commit c s) = Some q' /\
    keeps (fun k => provenance_witnesses (quality c) k = true) q q'.
Proof.
  unfold protected, published, commit_cached_pages, admit_publication; cbn [publication].
  destruct (publication s) as [p|]; [|done]. intros Hp Hc [= <-].
  rewrite bool_decide_eq_false_2 //; cbn [negb andb].
  destruct (quality_preserves _ _) eqn:Eq; cbn [negb option_map candidate_of].
  - split; [done|]. eexists. split; [done|]. by apply preserves_keeps.
  - destruct (retain_same (candidate_of p) (attempt c)) as [Hq Hs]. rewrite Hs. split; [done|].
    eexists. split; [done|]. rewrite Hq. apply keeps_refl.
Qed.

(** C8: from the first report that is not a warm start on, no sequence of
    publications loses what is published: inventory knowledge stays, complete
    team rosters stay complete, and the complete evidence of a repository
    stays complete unless one of the committed candidates was captured from a
    projection that records its deletion.  The pages served are always those
    of the publication in the slot. *)
Theorem publication_keeps_evidence cs s q :
  protected s -> Forall (fun c => stage c <> WarmStart) cs -> published s = Some q ->
  let s' := fold_left (fun s c => commit c s) cs s in
  exists q', published s' = Some q' /\
    keeps (fun k => exists c, c ∈ cs /\ provenance_witnesses (quality c) k = true) q q' /\
    (cs <> [] -> exists p, publication s' = Some p /\ html_cache s' = Some (cache_of p)).
Proof.
  intros Hp Hcs. revert s q Hp. induction Hcs as [|c cs Hc Hcs IH]; intros s q Hp Hq; cbn.
  - exists q. split_and!; [done|apply keeps_refl|done].
  - destruct (commit_keeps c s q Hp Hc Hq) as (Hp1 & q1 & Hq1 & K1).
    destruct (IH (commit c s) q1 Hp1 Hq1) as (q2 & Hq2 & K2 & Hcache).
    exists q2. split_and!; [done| |].
    + pose proof (keeps_trans _ _ _ _ _ K1 K2) as [B1 B2 B3]. split; [done| |done].
      intros k e Hk He. destruct (B2 k e Hk He) as [[Hw|(c' & Hin & Hw)]|?]; [..|by right].
      * left. exists c. split; [by left|done].
      * left. exists c'. split; [by right|done].
    + intros _. destruct cs as [|c' cs]; [|by apply Hcache].
      cbn. eexists. split; done.
Qed.
End CommitLemmas.

(** A complete report, then an attempt that lost everything. *)
Definition sample_quality (repos : gmap string (ProtectedEntry RepositoryEvidence))
    : PublicationQuality :=
  mkPublicationQuality P_Unordered true repos ∅.

Definition sample_candidate (repos : gmap string (ProtectedEntry RepositoryEvidence)) (name : string)
    : PublicationCandidate string string :=
  mkPublicationCandidate {["index.html" := name]} {["index.html" := name]} (sample_quality repos)
    (Some name) name Terminal.

Definition sample_first : PublicationCandidate string string :=
  sample_candidate {["a" := mkProtectedEntry true (Captured 5) (sample_owned "a" "@o/t" false)]}
    "first".

Lemma publication_keeps_evidence_witness :
  let commit := commit_cached_pages id id (fun name _ => Some {["index.html" := name]}) in
  let s := commit sample_first (mkPublicationState None None []) in
  let s' := commit (sample_candidate ∅ "second") s in
  exists q', published s' = Some q' /\
    exists e', q_repositories q' !! "a" = Some e' /\ pe_complete e' = true.
Proof.
  intros commit s s'.
  destruct (publication_keeps_evidence id id (fun name _ => Some {["index.html" := name]})
    [sample_candidate ∅ "second"] s (quality sample_first)) as (q' & Hq & [_ K _] & _).
  - discriminate.
  - repeat constructor; discriminate.
  - reflexivity.
  - exists q'. split; [exact Hq|].
    destruct (K "a" (mkProtectedEntry true (Captured 5) (sample_owned "a" "@o/t" false))
      eq_refl eq_refl) as [(c & Hin & Hw)|H]; [|exact H].
    apply list_elem_of_singleton in Hin. subst c. discriminate Hw.
Defined.
