(* ===== verification/Errors.v ===== *)
(** * The application's errors ([error.rs])

    The errors the service's tasks end with.  [PersistenceError] is the storage
    crate's, seen as [WritePolicy] sees it; [GitHubApiError] is in [Auth],
    [InventoryError] in [Inventory]. *)

From S2P Require Import Prelude Str WritePolicy Auth Inventory.

(** [ServerError::Runtime]. *)
Record ServerError := Runtime { server_text : string }.
(** [ReportError::TemplateRenderFailed]. *)
Record ReportError := TemplateRenderFailed { render_reason : string }.

Inductive ConfigError :=
| MissingField (field : string)
| InvalidValue (field reason : string).
#[export] Instance ConfigError_eq_dec : EqDecision ConfigError.
Proof. solve_decision. Defined.

(** [InvalidRunIdentity] carries the displayed error of the parser. *)
Inductive AppError :=
| AE_RunOwnershipLost
| AE_InvalidRunIdentity (text : string)
| AE_Inventory (e : InventoryError)
| AE_GitHubApi (e : GitHubApiError)
| AE_Report (e : ReportError)
| AE_Persistence (e : ErrorView)
| AE_Server (e : ServerError)
| AE_Config (e : ConfigError).

Definition InventoryError_display (e : InventoryError) : string :=
  "unable to build inventory from GitHub API: " +:+ reason e.

Definition ReportError_display (e : ReportError) : string :=
  "template rendering failed: " +:+ render_reason e.

Definition ConfigError_display (e : ConfigError) : string :=
  match e with
  | MissingField field => "missing required configuration: " +:+ field
  | InvalidValue field reason => "invalid configuration value: " +:+ field +:+ ": " +:+ reason
  end.

(** The [Display] of [AppError]; [persistence_text] displays the storage
    crate's error. *)
Definition AppError_display (persistence_text : ErrorView -> string) (e : AppError) : string :=
  match e with
  | AE_RunOwnershipLost => "scheduled run no longer owns its delivery batch"
  | AE_InvalidRunIdentity text => "invalid scheduled run identity: " +:+ text
  | AE_Inventory e => "inventory error: " +:+ InventoryError_display e
  | AE_GitHubApi e => "github api error: " +:+ GitHubApiError_display e
  | AE_Report e => "report error: " +:+ ReportError_display e
  | AE_Persistence e => "persistence error: " +:+ persistence_text e
  | AE_Server e => "server error: " +:+ server_text e
  | AE_Config e => "config error: " +:+ ConfigError_display e
  end.
