(* ===== verification/Store.v ===== *)
(** * The native event store ([store/mod.rs])

    One append-only store: its cached events, its knowledge of whether the last
    write landed, and the operations on both.  The pardosa session behind it is
    a parameter: opening the session, finding the fiber, writing and syncing
    give one of the outcomes the code distinguishes.  The file and the NATS
    backend run the same code.  [StoreSession] creates and opens such a session.
    Lock poisoning is not modelled. *)

From S2P Require Import Prelude Str WritePolicy.

Open Scope N_scope.

Inductive StoreError :=
| SE_AlreadyExists
| SE_Infrastructure (message : string)
| SE_Operation (transport_unavailable : bool)
| SE_CreationUnknown
| SE_Encode
| SE_Decode
| SE_Indeterminate (carried_epoch : N)
| SE_AfterLanded (e : StoreError)
| SE_LandedNeedsReconciliation
| SE_ConcurrencyConflict (expected_seq actual_seq : option N)
| SE_TornWriteRecovery
| SE_DivergedFiber (key : string)
| SE_Poisoned.
#[export] Instance StoreError_eq_dec : EqDecision StoreError.
Proof. solve_decision. Defined.

(** The conditions [From<OperationFailure>] distinguishes. *)
Inductive FailureCondition :=
| FC_StoreAlreadyExists | FC_ConcurrencyConflict | FC_StaleEpoch | FC_TransportUnavailable
| FC_Other.

Definition store_error_from (condition : FailureCondition) : StoreError :=
  match condition with
  | FC_StoreAlreadyExists => SE_AlreadyExists
  | FC_ConcurrencyConflict | FC_StaleEpoch => SE_ConcurrencyConflict None None
  | FC_TransportUnavailable => SE_Operation true
  | FC_Other => SE_Operation false
  end.

Definition is_already_exists (e : StoreError) : bool :=
  match e with SE_AlreadyExists => true | _ => false end.

(** [native_store_persistence] ([app/state/mod.rs]): how a store error reads
    as a persistence error. *)
Definition native_store_persistence (error : StoreError) : ErrorView :=
  match error with
  | SE_Operation true => V_BackendUnavailable
  | SE_Indeterminate _ | SE_CreationUnknown | SE_LandedNeedsReconciliation
  | SE_AfterLanded _ => V_Indeterminate
  | SE_Encode | SE_Decode | SE_Operation false => V_Io
  | SE_ConcurrencyConflict expected_seq actual_seq => V_FencedConflict expected_seq actual_seq
  | SE_TornWriteRecovery => V_TornWriteRecovery
  | SE_Infrastructure _ | SE_AlreadyExists => V_BackendUnavailable
  | SE_DivergedFiber _ => V_InvariantViolation
  | SE_Poisoned => V_PoisonedState
  end.

Inductive WriteKnowledge := Ready | Unknown (carried_epoch : N) | Landed.
#[export] Instance WriteKnowledge_eq_dec : EqDecision WriteKnowledge.
Proof. solve_decision. Defined.

(** [WriteKnowledge::check]. *)
Definition knowledge_check (k : WriteKnowledge) : result StoreError () :=
  match k with
  | Ready => Ok ()
  | Unknown carried_epoch => Err (SE_Indeterminate carried_epoch)
  | Landed => Err SE_LandedNeedsReconciliation
  end.

Definition after_landed (e : StoreError) : StoreError := SE_AfterLanded e.

(** What a write through a fresh session comes to: an operation failed before
    a verdict; the fiber needed no write; the verdict was undetermined; it
    landed, and the sync after it succeeded or failed. *)
Inductive SessionOutcome :=
| Refused (e : FailureCondition)
| NoWrite
| Undetermined (carried_epoch : N)
| LandedSynced
| LandedUnsynced (e : FailureCondition).

(** The pardosa session: [append] is [append_to_fiber], or [rescue_fiber] on a
    detached fiber; [detach] is [detach_fiber] on an active fiber, no write on
    any other. *)
Class Backend (B Event : Type) := {
  backend_append : string -> Event -> B -> SessionOutcome * B;
  backend_detach : string -> Event -> B -> SessionOutcome * B;
  (** [encode_payload] succeeds. *)
  encodable : Event -> bool;
}.

(** The cache keeps, of each event, its detached flag and the domain key its
    fiber is derived from. *)
Record StoreInner (B Event : Type) := mkStoreInner {
  backend : B;
  cached : list (bool * string * Event);
  knowledge : WriteKnowledge;
}.
Arguments mkStoreInner {B Event}.
Arguments backend {B Event}.
Arguments cached {B Event}.
Arguments knowledge {B Event}.

Section Store.
  Context {B Event : Type} `{!Backend B Event}.
  Notation Store := (StoreInner B Event).

(** [WriteKnowledge::accept] of a verdict, then the sync: the knowledge it
    leaves and the result so far. *)
Definition settle (o : SessionOutcome) : WriteKnowledge * result StoreError bool :=
  match o with
  | Refused e => (Ready, Err (store_error_from e))
  | NoWrite => (Ready, Ok false)
  | Undetermined carried_epoch => (Unknown carried_epoch, Err (SE_Indeterminate carried_epoch))
  | LandedSynced => (Landed, Ok true)
  | LandedUnsynced e => (Landed, Err (after_landed (store_error_from e)))
  end.

(** [StoreInner::record]. *)
Definition store_record (domain_key : string) (event : Event) (st : Store)
    : result StoreError () * Store :=
  match knowledge_check (knowledge st) with
  | Err e => (Err e, st)
  | Ok _ =>
    if negb (encodable event) then (Err SE_Encode, st)
    else
      let '(o, b) := backend_append domain_key event (backend st) in
      let '(k, r) := settle o in
      match r with
      | Err e => (Err e, mkStoreInner b (cached st) k)
      | Ok _ => (Ok (), mkStoreInner b (cached st ++ [(false, domain_key, event)]) Ready)
      end
  end.

(** [StoreInner::detach]: whether a detach landed. *)
Definition store_detach (domain_key : string) (event : Event) (st : Store)
    : result StoreError bool * Store :=
  match knowledge_check (knowledge st) with
  | Err e => (Err e, st)
  | Ok _ =>
    if negb (encodable event) then (Err SE_Encode, st)
    else
      let '(o, b) := backend_detach domain_key event (backend st) in
      let '(k, r) := settle o in
      match r with
      | Err e => (Err e, mkStoreInner b (cached st) k)
      | Ok landed =>
        if bool_decide (k = Landed)
        then (Ok true, mkStoreInner b (cached st ++ [(true, domain_key, event)]) Ready)
        else (Ok false, mkStoreInner b (cached st) k)
      end
  end.

(** [StoreInner::fold_events], on every cached event. *)
Definition fold_events {R} (fold : R -> bool -> Event -> R) (init : R) (st : Store)
    : result StoreError R :=
  match knowledge_check (knowledge st) with
  | Err e => Err e
  | Ok _ => Ok (fold_left (fun acc e => fold acc (fst (fst e)) (snd e)) (cached st) init)
  end.

(** [StoreInner::fold_defined_events]: every cached event that is not itself
    a detach. *)
Definition fold_defined_events {R} (fold : R -> Event -> R) (init : R) (st : Store)
    : result StoreError R :=
  match knowledge_check (knowledge st) with
  | Err e => Err e
  | Ok _ =>
    Ok (fold_left (fun acc e => if negb (fst (fst e)) then fold acc (snd e) else acc)
          (cached st) init)
  end.

(** [StoreInner::latest_defined], the fibers in the order of their keys. *)
Definition latest_step (latest : gmap string Event) (e : bool * string * Event)
    : gmap string Event :=
  let '(detached, key, event) := e in
  if detached then delete key latest else <[key := event]> latest.
Definition latest_defined (st : Store) : result StoreError (list (string * Event)) :=
  match knowledge_check (knowledge st) with
  | Err e => Err e
  | Ok _ => Ok (btree_entries (fold_left latest_step (cached st) ∅))
  end.

(** ** Lemmas *)

Lemma store_record_Ok k e st st' u :
  store_record k e st = (Ok u, st') ->
  cached st' = cached st ++ [(false, k, e)] /\ knowledge st = Ready /\ knowledge st' = Ready.
Proof.
  unfold store_record. destruct (knowledge st) as [| |] eqn:Ek; simpl; try done.
  destruct (encodable e); simpl; [|done].
  destruct (backend_append _ _ _) as [[] b]; simpl; try done; by intros [= <- <-].
Qed.

Lemma store_record_Err k e st st' x :
  store_record k e st = (Err x, st') -> cached st' = cached st.
Proof.
  unfold store_record. destruct (knowledge st) as [| |]; simpl; try (by intros [= <- <-]).
  destruct (encodable e); simpl; [|by intros [= <- <-]].
  destruct (backend_append _ _ _) as [[] b]; simpl; by intros [= <- <-].
Qed.

Lemma store_detach_Ok k e st st' landed :
  store_detach k e st = (Ok landed, st') ->
  cached st' = cached st ++ (if landed then [(true, k, e)] else []) /\
  knowledge st = Ready /\ knowledge st' = Ready.
Proof.
  unfold store_detach. destruct (knowledge st) as [| |] eqn:Ek; simpl; try done.
  destruct (encodable e); simpl; [|done].
  destruct (backend_detach _ _ _) as [[] b]; simpl; try done;
    intros [= <- <-]; simpl; by rewrite ?app_nil_r.
Qed.

Lemma store_detach_Err k e st st' x :
  store_detach k e st = (Err x, st') -> cached st' = cached st.
Proof.
  unfold store_detach. destruct (knowledge st) as [| |]; simpl; try (by intros [= <- <-]).
  destruct (encodable e); simpl; [|by intros [= <- <-]].
  destruct (backend_detach _ _ _) as [[] b]; simpl; by intros [= <- <-].
Qed.

(** Whether a write whose result is [r] may be in the backend without being
    in the cache. *)
Definition uncertain {A} (r : result StoreError A) : bool :=
  match r with
  | Err (SE_Indeterminate _ | SE_AfterLanded _ | SE_LandedNeedsReconciliation) => true
  | _ => false
  end.

(** A write is cached exactly when it is reported to have succeeded.  A
    store is left unable to write exactly by the writes whose landing is
    uncertain, and then every later operation on it, read or write, fails and
    changes nothing: no write is ever repeated on top of an unknown one. *)
Lemma store_latch_exact k e st :
  let r := store_record k e st in
  let d := store_detach k e st in
  (knowledge st = Ready ->
     (knowledge (snd r) = Ready <-> uncertain (fst r) = false) /\
     (knowledge (snd d) = Ready <-> uncertain (fst d) = false)) /\
  (knowledge st <> Ready ->
     (exists x, r = (Err x, st) /\ uncertain (fst r) = true) /\
     (exists x, d = (Err x, st)) /\ (exists x, latest_defined st = Err x) /\
     forall R (f : R -> bool -> Event -> R) i, exists x, fold_events f i st = Err x) /\
  cached (snd r) = cached st ++ (if ok (fst r) then [(false, k, e)] else []) /\
  cached (snd d) = cached st ++ (if ok (fst d) is Some true then [(true, k, e)] else []).
Proof.
  intros r d. split_and!.
  - intros Hk. unfold r, d, store_record, store_detach. rewrite Hk; cbn [knowledge_check].
    destruct (encodable e); cbn; [|by rewrite Hk].
    split.
    + destruct (backend_append _ _ _) as [[[]| | | |[]] b]; simpl; by split.
    + destruct (backend_detach _ _ _) as [[[]| | | |[]] b]; simpl; by split.
  - intros Hk. unfold r, d, store_record, store_detach, latest_defined, fold_events.
    destruct (knowledge st); [done|..]; simpl; split_and!; try (by eexists);
      intros; by eexists.
  - unfold r. destruct (store_record k e st) as [[[]|x] st'] eqn:E; simpl.
    + by destruct (store_record_Ok _ _ _ _ _ E) as [-> _].
    + by rewrite app_nil_r (store_record_Err _ _ _ _ _ E).
  - unfold d. destruct (store_detach k e st) as [[landed|x] st'] eqn:E; simpl.
    + destruct (store_detach_Ok _ _ _ _ _ E) as [-> _]. by destruct landed.
    + by rewrite app_nil_r (store_detach_Err _ _ _ _ _ E).
Qed.
End Store.
