(* ===== verification/StoreSession.v ===== *)
(** * Stores on their storage ([store/mod.rs])

    What [Store] leaves to a backend: the calls a store makes of its pardosa
    storage, one by one.  A store is created or opened over the storage, reads
    it again to resynchronize, and writes through a session of the storage's
    current epoch.  Both adapters, for files and for NATS, have these calls and
    the code that uses them is the same twice.  The adapter is a class; a
    fiber's identifier is represented, as in [Store], by the key it is derived
    from. *)

From S2P Require Import Prelude Str WritePolicy Store.

Open Scope N_scope.

(** ** The storage *)

Inductive ArtefactPresence := AP_None | AP_OwnershipRecordOnly | AP_EventDataOnly | AP_Both.

(** What the code reads of an envelope. *)
Record Envelope := mkEnvelope {
  env_detached : bool;
  env_fiber : string;
  env_payload : list N;
}.

Record FiberHandle := mkFiberHandle { is_active : bool; is_detached : bool }.
Inductive WriteLandingVerdict := WV_Landed | WV_Undetermined (carried_epoch : N).

(** The fields of [OwnershipClaimRecord] that are not constants. *)
Record OwnershipClaimRecord := mkClaim { claim_epoch : N; claim_process_id : N; operator_label : string }.
Definition default_claim (process_id epoch : N) (label : string) : OwnershipClaimRecord :=
  mkClaim epoch process_id label.

(** The storage adapter ([FileStorageAdapter], [NatsStorageAdapter]), its write
    session and its reader.  A call that may change the storage returns it;
    dropping a session leaves the storage it wrote to. *)
Class Adapter (A Session Reader : Type) := {
  try_presence : A -> result FailureCondition ArtefactPresence;
  create : OwnershipClaimRecord -> string -> A -> result FailureCondition Session * A;
  open_read : A -> result FailureCondition Reader;
  reader_descriptor : Reader -> option string;
  read_all_envelopes : Reader -> result FailureCondition (list Envelope);
  current_epoch : A -> result FailureCondition N;
  open_write : N -> A -> result FailureCondition Session * A;
  session_fiber : string -> Session -> result FailureCondition FiberHandle;
  append_to_fiber : string -> list N -> Session -> result FailureCondition WriteLandingVerdict * Session;
  rescue_fiber : string -> list N -> Session -> result FailureCondition WriteLandingVerdict * Session;
  detach_fiber : string -> list N -> Session -> result FailureCondition WriteLandingVerdict * Session;
  session_sync : Session -> result FailureCondition () * Session;
  session_drop : Session -> A;
}.

(** [PardosaSchema]: the bytes of an event, and the identity of the schema. *)
Class Schema (Event : Type) := {
  encode_payload : Event -> option (list N);
  decode_payload : list N -> option Event;
  schema_identity : string;
  (** [AdmittedDescriptor::try_from_descriptor] of the schema. *)
  schema_admitted : result StoreError ();
}.

Definition store_err {X} (r : result FailureCondition X) : result StoreError X := map_err store_error_from r.

Definition creation_failure (e : FailureCondition) : StoreError := SE_CreationUnknown.

Definition require_absent (presence : ArtefactPresence) : result StoreError () :=
  match presence with
  | AP_None => Ok ()
  | AP_OwnershipRecordOnly | AP_EventDataOnly | AP_Both => Err SE_AlreadyExists
  end.

Section StoreSession.
  Context {A Session Reader : Type} `{!Adapter A Session Reader}.

(** ** Writing through a session *)

(** The body of [StoreInner::record] and of [StoreInner::detach] between the
    encoding of the event and the update of the cache. *)
Definition session_settle (written : result FailureCondition WriteLandingVerdict * Session)
    : SessionOutcome * A :=
  let '(verdict, s) := written in
  match verdict with
  | Err e => (Refused e, session_drop s)
  | Ok (WV_Undetermined carried_epoch) => (Undetermined carried_epoch, session_drop s)
  | Ok WV_Landed =>
    match session_sync s with
    | (Err e, s) => (LandedUnsynced e, session_drop s)
    | (Ok _, s) => (LandedSynced, session_drop s)
    end
  end.

Definition with_session (f : FiberHandle -> Session -> SessionOutcome * A) (fiber_id : string) (a : A)
    : SessionOutcome * A :=
  match current_epoch a with
  | Err e => (Refused e, a)
  | Ok epoch =>
    match open_write epoch a with
    | (Err e, a) => (Refused e, a)
    | (Ok s, _) =>
      match session_fiber fiber_id s with
      | Err e => (Refused e, session_drop s)
      | Ok handle => f handle s
      end
    end
  end.

Definition session_append (fiber_id : string) (payload : list N) (a : A) : SessionOutcome * A :=
  with_session (fun handle s =>
      session_settle (if is_detached handle then rescue_fiber fiber_id payload s
                      else append_to_fiber fiber_id payload s)) fiber_id a.

Definition session_detach (fiber_id : string) (payload : list N) (a : A) : SessionOutcome * A :=
  with_session (fun handle s =>
      if is_active handle then session_settle (detach_fiber fiber_id payload s)
      else (NoWrite, session_drop s)) fiber_id a.

Section Typed.
  Context {Event : Type} `{!Schema Event}.
  Notation Store := (StoreInner A Event).

(** [Store]'s operations encode the event before they use the backend. *)
#[export] Instance adapter_backend : Backend A Event := {
  backend_append key event a :=
    match encode_payload event with
    | Some payload => session_append key payload a
    | None => (Refused FC_Other, a)
    end;
  backend_detach key event a :=
    match encode_payload event with
    | Some payload => session_detach key payload a
    | None => (Refused FC_Other, a)
    end;
  encodable event := match encode_payload event with Some _ => true | None => false end;
}.

(** ** Creating and opening *)

Definition verify_schema_descriptor (actual : option string) : result StoreError () :=
  match actual with
  | Some actual =>
    if decide (actual = schema_identity) then Ok ()
    else Err (SE_Infrastructure
      ("schema descriptor identity mismatch: expected " +:+ schema_identity +:+ ", got " +:+ actual))
  | None =>
    Err (SE_Infrastructure
      "missing schema descriptor in store metadata: refusing to open unadmitted store")
  end.

Fixpoint decode_envelopes (envelopes : list Envelope) : result StoreError (list (bool * string * Event)) :=
  match envelopes with
  | [] => Ok []
  | env :: envelopes =>
    match decode_payload (env_payload env) with
    | None => Err SE_Decode
    | Some event =>
      let? cached := decode_envelopes envelopes in
      Ok ((env_detached env, env_fiber env, event) :: cached)
    end
  end.

(** The reading that [open_pgno], [open_nats] and both resynchronizations
    share. *)
Definition read_cached (a : A) : result StoreError (list (bool * string * Event)) :=
  let? reader := store_err (open_read a) in
  let? _ := verify_schema_descriptor (reader_descriptor reader) in
  let? envelopes := store_err (read_all_envelopes reader) in
  decode_envelopes envelopes.

Definition store_create (process_id : N) (label : string) (a : A) : result StoreError Store * A :=
  let absent :=
    let? _ := schema_admitted in
    let? presence := store_err (try_presence a) in
    require_absent presence in
  match absent with
  | Err e => (Err e, a)
  | Ok _ =>
    match create (default_claim process_id 1 label) schema_identity a with
    | (Err e, a) => (Err (creation_failure e), a)
    | (Ok s, _) =>
      match session_sync s with
      | (Err e, s) => (Err (after_landed (store_error_from e)), session_drop s)
      | (Ok _, s) => (Ok (mkStoreInner (session_drop s) [] Ready), session_drop s)
      end
    end
  end.

Definition store_open (a : A) : result StoreError Store :=
  let? cached := read_cached a in
  Ok (mkStoreInner a cached Ready).

(** ** Resynchronizing, and the write lease *)

Definition resync_from_authoritative (st : Store) : result StoreError () * Store :=
  match knowledge_check (knowledge st) with
  | Err e => (Err e, st)
  | Ok _ =>
    match read_cached (backend st) with
    | Err e => (Err e, st)
    | Ok cached => (Ok (), mkStoreInner (backend st) cached (knowledge st))
    end
  end.

Definition preflight_write_lease (st : Store) : result StoreError () * Store :=
  match knowledge_check (knowledge st) with
  | Err e => (Err e, st)
  | Ok _ =>
    match store_err (current_epoch (backend st)) with
    | Err e => (Err e, st)
    | Ok epoch =>
      match open_write epoch (backend st) with
      | (Err e, a) => (Err (store_error_from e), mkStoreInner a (cached st) (knowledge st))
      | (Ok s, _) => (Ok (), mkStoreInner (session_drop s) (cached st) (knowledge st))
      end
    end
  end.

(** ** One store at the start of the service *)

(** [open_event_store] and its two sisters, once they have an adapter: a store
    that exists is opened. *)
Definition create_or_open (process_id : N) (label : string) (a : A) : result StoreError Store * A :=
  match store_create process_id label a with
  | (Ok store, a) => (Ok store, a)
  | (Err e, a) => if is_already_exists e then (store_open a, a) else (Err e, a)
  end.
End Typed.
End StoreSession.

(** ** What the storage promises *)

(** The journal of a storage is what a reader of it is given.  A call keeps
    the journal unless its verdict says otherwise: a landed write has added its
    envelope, an undetermined one may have, and a sync that failed may have lost
    the last one. *)
Class AdapterLaws (A Session Reader : Type) `{!Adapter A Session Reader}
    (journal : A -> list Envelope) (schema_of : A -> option string) : Prop := {
  presence_law (a : A) : try_presence a = Ok AP_None -> journal a = [];
  create_law claim d (a : A) (s : Session) a' : create claim d a = (Ok s, a') -> try_presence a = Ok AP_None ->
    journal (session_drop s) = [] /\ schema_of (session_drop s) = Some d;
  read_law (a : A) (r : Reader) : open_read a = Ok r -> reader_descriptor r = schema_of a /\
    forall l, read_all_envelopes r = Ok l -> l = journal a;
  open_write_law epoch (a : A) : let '(r, a') := open_write epoch a in
    let a'' := match r with Ok s => session_drop s | Err _ => a' end in
    journal a'' = journal a /\ schema_of a'' = schema_of a;
  write_law (detached : bool) k p (s : Session) v s' :
    (v, s') ∈ (if detached then [detach_fiber k p s] else [append_to_fiber k p s; rescue_fiber k p s]) ->
    schema_of (session_drop s') = schema_of (session_drop s) /\
    (let j := journal (session_drop s) in
     let j' := journal (session_drop s') in
     match v with
     | Err _ => j' = j
     | Ok WV_Landed => j' = j ++ [mkEnvelope detached k p]
     | Ok (WV_Undetermined _) => j' = j \/ j' = j ++ [mkEnvelope detached k p]
     end);
  sync_law (s : Session) r s' : session_sync s = (r, s') ->
    schema_of (session_drop s') = schema_of (session_drop s) /\
    (let j := journal (session_drop s) in
     let j' := journal (session_drop s') in
     match r with
     | Ok _ => j' = j
     | Err _ => j' = j \/ j' = removelast j
     end);
}.

(** The bytes of an event are read back as the event ([Codec]). *)
Class SchemaLaws (Event : Type) `{!Schema Event} : Prop :=
  payload_roundtrip (e : Event) p : encode_payload e = Some p -> decode_payload p = Some e.

Section Laws.
  Context {A Session Reader : Type} `{!Adapter A Session Reader} (journal : A -> list Envelope).
  Context (schema_of : A -> option string) `{!AdapterLaws A Session Reader journal schema_of}.

(** What a session's outcome says of the journal, [env] being what it wrote. *)
Definition outcome_journal (env : Envelope) (o : SessionOutcome) (j j' : list Envelope) : Prop :=
  match o with
  | Refused _ | NoWrite => j' = j
  | LandedSynced => j' = j ++ [env]
  | Undetermined _ | LandedUnsynced _ => j' = j \/ j' = j ++ [env]
  end.

Lemma session_settle_journal (detached : bool) k p (s : Session) written :
  written ∈ (if detached then [detach_fiber k p s] else [append_to_fiber k p s; rescue_fiber k p s]) ->
  let '(o, a) := session_settle written in
  outcome_journal (mkEnvelope detached k p) o (journal (session_drop s)) (journal a) /\
  schema_of a = schema_of (session_drop s).
Proof.
  destruct written as [v s']. intros Hin. destruct (write_law _ _ _ _ _ _ Hin) as [Hs Hj].
  unfold session_settle. destruct v as [[|c]|e]; [|done|done].
  destruct (session_sync s') as [r s''] eqn:E. destruct (sync_law _ _ _ E) as [Hs' Hj'].
  destruct r as [[]|e]; cbn [outcome_journal]; rewrite Hs' Hs; (split; [|done]); [by rewrite Hj'|].
  destruct Hj' as [->| ->]; rewrite Hj; [by right|]. left. apply removelast_last.
Qed.

Lemma with_session_journal env f k a :
  (forall handle s, let '(o, a') := f handle s in
     outcome_journal env o (journal (session_drop s)) (journal a') /\
     schema_of a' = schema_of (session_drop s)) ->
  let '(o, a') := with_session f k a in
  outcome_journal env o (journal a) (journal a') /\ schema_of a' = schema_of a.
Proof.
  intros Hf. unfold with_session. destruct (current_epoch a) as [epoch|e]; [|done].
  pose proof (open_write_law epoch a) as Hw. destruct (open_write epoch a) as [[s|e] a']; [|done].
  destruct Hw as [Hj Hs]. destruct (session_fiber k s) as [handle|e]; [|done].
  pose proof (Hf handle s) as H. destruct (f handle s) as [o a'']. by rewrite Hj Hs in H.
Qed.

Lemma session_append_journal k p a :
  let '(o, a') := session_append k p a in
  outcome_journal (mkEnvelope false k p) o (journal a) (journal a') /\ schema_of a' = schema_of a.
Proof.
  apply with_session_journal. intros handle s. apply (session_settle_journal false k p s).
  destruct (is_detached handle); set_solver.
Qed.

Lemma session_detach_journal k p a :
  let '(o, a') := session_detach k p a in
  outcome_journal (mkEnvelope true k p) o (journal a) (journal a') /\ schema_of a' = schema_of a.
Proof.
  apply with_session_journal. intros handle s. destruct (is_active handle); [|done].
  apply (session_settle_journal true k p s). set_solver.
Qed.
End Laws.

(** ** The cache follows the journal *)

Section Journal.
  Context {A Session Reader : Type} `{!Adapter A Session Reader} (journal : A -> list Envelope).
  Context (schema_of : A -> option string) `{!AdapterLaws A Session Reader journal schema_of}.
  Context {Event : Type} `{!Schema Event} `{!SchemaLaws Event}.
  Notation Store := (StoreInner A Event).
  Notation entry := (bool * string * Event)%type.

Definition decoded (env : Envelope) (c : entry) : Prop :=
  env_detached env = fst (fst c) /\ env_fiber env = snd (fst c) /\
  decode_payload (env_payload env) = Some (snd c).

Lemma decode_envelopes_Ok l c : decode_envelopes l = Ok c <-> Forall2 decoded l c.
Proof.
  revert c. induction l as [|env l IH]; intros c; cbn [decode_envelopes].
  - split; [intros [= <-]; constructor|by intros ->%Forall2_nil_inv_l].
  - split.
    + destruct (decode_payload _) as [event|] eqn:E; [|done].
      destruct (decode_envelopes l) as [c'|]; [|done]. intros [= <-].
      constructor; [by split_and!|by apply IH].
    + intros ([[d k] event] & c' & (E1 & E2 & E3) & Hl%IH & ->)%Forall2_cons_inv_l.
      cbn in *. by rewrite E3 Hl E1 E2.
Qed.

(** The store's cache and the journal: all the journal holds beyond the cache
    is at most one envelope, and nothing while the store may write. *)
Definition follows (pending : list entry) (st : Store) : Prop :=
  schema_of (backend st) = Some schema_identity /\
  Forall2 decoded (journal (backend st)) (cached st ++ pending) /\
  (knowledge st = Ready -> pending = []).

Lemma read_cached_follows a c :
  schema_of a = Some schema_identity -> Forall2 decoded (journal a) c ->
  read_cached a = Ok c \/ exists e, read_cached a = Err (store_error_from e).
Proof.
  intros Hs Hc. unfold read_cached, store_err.
  destruct (open_read a) as [r|e] eqn:Er; cbn; [|right; by exists e].
  destruct (read_law a r Er) as [Hd Hl]. rewrite Hd Hs. cbn [verify_schema_descriptor].
  rewrite decide_True //. cbn.
  destruct (read_all_envelopes r) as [l|e] eqn:El; cbn; [|right; by exists e].
  left. rewrite (Hl l eq_refl). by apply decode_envelopes_Ok.
Qed.

Lemma store_open_follows a st : store_open a = Ok st -> backend st = a /\ knowledge st = Ready /\ follows [] st.
Proof.
  unfold store_open, read_cached, store_err, follows.
  destruct (open_read a) as [r|] eqn:Er; cbn; [|done]. destruct (read_law a r Er) as [Hd Hl].
  rewrite Hd. destruct (schema_of a) as [d|] eqn:Es; cbn; [|done]. destruct (decide _) as [->|]; cbn; [|done].
  destruct (read_all_envelopes r) as [l|] eqn:El; cbn; [|done].
  destruct (decode_envelopes l) as [c|] eqn:Ec; cbn; [|done]. intros [= <-]. cbn.
  split_and!; try done. rewrite app_nil_r -(Hl l eq_refl). by apply decode_envelopes_Ok.
Qed.

(** What a write that wrote [entry] leaves. *)
Lemma follows_outcome env c o st b :
  follows [] st -> decoded env c -> outcome_journal env o (journal (backend st)) (journal b) ->
  schema_of b = schema_of (backend st) ->
  match o with
  | Refused _ | NoWrite => follows [] (mkStoreInner b (cached st) (knowledge st))
  | LandedSynced => follows [] (mkStoreInner b (cached st ++ [c]) Ready)
  | Undetermined epoch =>
    exists pending, (pending = [] \/ pending = [c]) /\ follows pending (mkStoreInner b (cached st) (Unknown epoch))
  | LandedUnsynced _ =>
    exists pending, (pending = [] \/ pending = [c]) /\ follows pending (mkStoreInner b (cached st) Landed)
  end.
Proof.
  intros (Hs & Hj & _) Hc Ho Hb. rewrite app_nil_r in Hj. unfold follows.
  assert (Forall2 decoded (journal (backend st) ++ [env]) (cached st ++ [c])) as Hj'
    by (apply Forall2_app; [done|apply Forall2_cons_2; [done|apply Forall2_nil_2]]).
  destruct o as [e| |epoch| |e]; cbn [backend cached knowledge]; cbn in Ho; rewrite Hb.
  - by rewrite app_nil_r Ho.
  - by rewrite app_nil_r Ho.
  - destruct Ho as [-> | ->]; [exists []|exists [c]]; (split; [auto|]); by rewrite ?app_nil_r.
  - by rewrite app_nil_r Ho.
  - destruct Ho as [-> | ->]; [exists []|exists [c]]; (split; [auto|]); by rewrite ?app_nil_r.
Qed.

Lemma session_append_writes k p a : fst (session_append k p a) <> NoWrite.
Proof.
  unfold session_append, with_session. destruct (current_epoch a); [|done].
  destruct (open_write _ a) as [[s|] ?]; [|done]. destruct (session_fiber k s) as [h|]; [|done].
  unfold session_settle. destruct (is_detached h);
    [destruct (rescue_fiber k p s) as [[[]|] s']|destruct (append_to_fiber k p s) as [[[]|] s']]; try done;
    by destruct (session_sync s') as [[] ?].
Qed.

(** ** Runs of a store *)

Inductive StoreOp :=
| SO_Record (key : string) (event : Event)
| SO_Detach (key : string) (event : Event)
| SO_Resync
| SO_Preflight.

(** One operation: the entries it reports as written, the entry it leaves in
    doubt, and the store after it. *)
Definition run_store_op (o : StoreOp) (st : Store) : list entry * list entry * Store :=
  match o with
  | SO_Record k e =>
    let '(r, st) := store_record k e st in
    (match r with Ok _ => [(false, k, e)] | Err _ => [] end, if uncertain r then [(false, k, e)] else [], st)
  | SO_Detach k e =>
    let '(r, st) := store_detach k e st in
    (match r with Ok true => [(true, k, e)] | _ => [] end, if uncertain r then [(true, k, e)] else [], st)
  | SO_Resync => ([], [], snd (resync_from_authoritative st))
  | SO_Preflight => ([], [], snd (preflight_write_lease st))
  end.

Fixpoint run_store_ops (os : list StoreOp) (st : Store) : list entry * list entry * Store :=
  match os with
  | [] => ([], [], st)
  | o :: os =>
    let '(reported, doubtful, st) := run_store_op o st in
    let '(reported', doubtful', st) := run_store_ops os st in
    (reported ++ reported', doubtful ++ doubtful', st)
  end.

(** What an operation makes of a store that may write. *)
Definition op_follows (st : Store) (res : list entry * list entry * Store) : Prop :=
  let '(reported, doubtful, st') := res in
  cached st' = cached st ++ reported /\ (knowledge st' = Ready <-> doubtful = []) /\
  (length doubtful <= 1)%nat /\
  exists pending, (pending = [] \/ pending = doubtful) /\ follows pending st'.

Ltac settle_follows H :=
  cbn in H |- *; rewrite ?app_nil_r; (split_and!; [done|done|cbn; lia|]);
  first [exact H | exists []; by split; [left|]].

Lemma record_follows k e st :
  knowledge st = Ready -> follows [] st -> op_follows st (run_store_op (SO_Record k e) st).
Proof.
  intros Hk Hf. unfold op_follows, run_store_op, store_record. rewrite Hk. cbn [knowledge_check encodable].
  cbn [adapter_backend encodable backend_append].
  destruct (encode_payload e) as [p|] eqn:Ep; cbn [negb].
  2:{ cbn. rewrite app_nil_r. split_and!; [done|done|lia|]. exists []. by split; [left|]. }
  pose proof (session_append_journal journal schema_of k p (backend st)) as Hj.
  pose proof (session_append_writes k p (backend st)) as Hw.
  destruct (session_append k p (backend st)) as [o b]. destruct Hj as [Hj Hs].
  assert (decoded (mkEnvelope false k p) (false, k, e)) as Hd by (split_and!; by rewrite ?(payload_roundtrip e p Ep)).
  pose proof (follows_outcome _ _ o st b Hf Hd Hj Hs) as H. rewrite Hk in H.
  destruct o as [[]| |epoch| |x]; try done; settle_follows H.
Qed.

Lemma detach_follows k e st :
  knowledge st = Ready -> follows [] st -> op_follows st (run_store_op (SO_Detach k e) st).
Proof.
  intros Hk Hf. unfold op_follows, run_store_op, store_detach. rewrite Hk. cbn [knowledge_check encodable].
  cbn [adapter_backend encodable backend_detach].
  destruct (encode_payload e) as [p|] eqn:Ep; cbn [negb].
  2:{ cbn. rewrite app_nil_r. split_and!; [done|done|lia|]. exists []. by split; [left|]. }
  pose proof (session_detach_journal journal schema_of k p (backend st)) as Hj.
  destruct (session_detach k p (backend st)) as [o b]. destruct Hj as [Hj Hs].
  assert (decoded (mkEnvelope true k p) (true, k, e)) as Hd by (split_and!; by rewrite ?(payload_roundtrip e p Ep)).
  pose proof (follows_outcome _ _ o st b Hf Hd Hj Hs) as H. rewrite Hk in H.
  destruct o as [[]| |epoch| |x]; cbn [settle]; try change (bool_decide (Ready = Landed)) with false; settle_follows H.
Qed.

Lemma resync_follows st :
  knowledge st = Ready -> follows [] st -> op_follows st (run_store_op SO_Resync st).
Proof.
  intros Hk Hf. unfold op_follows, run_store_op, resync_from_authoritative. rewrite Hk. cbn [knowledge_check].
  pose proof Hf as (Hs & Hj & _). rewrite app_nil_r in Hj.
  destruct (read_cached_follows _ _ Hs Hj) as [-> | [e ->]]; cbn [snd cached knowledge]; rewrite app_nil_r;
    (split_and!; [done|by rewrite ?Hk|cbn; lia|exists []; split; [by left|]]); [|done].
  unfold follows. by rewrite app_nil_r.
Qed.

Lemma preflight_follows st :
  knowledge st = Ready -> follows [] st -> op_follows st (run_store_op SO_Preflight st).
Proof.
  intros Hk Hf. unfold op_follows, run_store_op, preflight_write_lease. rewrite Hk. cbn [knowledge_check].
  destruct (current_epoch (backend st)) as [epoch|e]; cbn [store_err map_err].
  2:{ cbn. rewrite app_nil_r. split_and!; [done|done|lia|]. exists []. by split; [left|]. }
  pose proof (open_write_law epoch (backend st)) as Hw. destruct Hf as (Hs & Hj & Hr).
  destruct (open_write epoch (backend st)) as [[s|e] a]; destruct Hw as [Wj Ws]; cbn;
    rewrite app_nil_r; (split_and!; [done|by rewrite ?Hk|lia|exists []; split; [by left|]]);
    by split_and!; cbn; rewrite ?Ws ?Wj.
Qed.

Lemma op_ready o st : knowledge st = Ready -> follows [] st -> op_follows st (run_store_op o st).
Proof.
  destruct o; [apply record_follows|apply detach_follows|apply resync_follows|apply preflight_follows].
Qed.

(** A store that may not write is left as it is. *)
Lemma op_latched o st : knowledge st <> Ready ->
  let '(reported, _, st') := run_store_op o st in reported = [] /\ st' = st.
Proof.
  intros Hk. unfold run_store_op, store_record, store_detach, resync_from_authoritative, preflight_write_lease.
  destruct (knowledge st) eqn:E; [done| |]; by destruct o.
Qed.

Lemma run_latched os st : knowledge st <> Ready ->
  let '(reported, _, st') := run_store_ops os st in reported = [] /\ st' = st.
Proof.
  revert st. induction os as [|o os IH]; intros st Hk; [done|]. cbn [run_store_ops].
  pose proof (op_latched o st Hk) as H. destruct (run_store_op o st) as [[r d] st1]. destruct H as [-> ->].
  specialize (IH st Hk). destruct (run_store_ops os st) as [[r' d'] st2]. by destruct IH as [-> ->].
Qed.

Lemma run_follows os st : knowledge st = Ready -> follows [] st ->
  let '(reported, doubtful, st') := run_store_ops os st in
  cached st' = cached st ++ reported /\ (knowledge st' = Ready <-> doubtful = []) /\
  exists pending, (pending = [] \/ pending = firstn 1 doubtful) /\ follows pending st'.
Proof.
  revert st. induction os as [|o os IH]; intros st Hk Hf; cbn [run_store_ops].
  - rewrite app_nil_r. split_and!; [done|done|]. exists []. by split; [left|].
  - pose proof (op_ready o st Hk Hf) as H. destruct (run_store_op o st) as [[r d] st1].
    destruct H as (Hc & Hr & Hl & pending & Hp & Hf1). destruct d as [|c d].
    + assert (knowledge st1 = Ready) as Hk1 by (by apply Hr).
      assert (pending = []) as -> by (by destruct Hp). specialize (IH st1 Hk1 Hf1).
      destruct (run_store_ops os st1) as [[r' d'] st2]. cbn. by rewrite app_assoc -Hc.
    + assert (knowledge st1 <> Ready) as Hk1 by (by intros ?%Hr).
      pose proof (run_latched os st1 Hk1) as H. destruct (run_store_ops os st1) as [[r' d'] st2].
      destruct H as [-> ->]. rewrite app_nil_r. destruct d; [|cbn in Hl; lia].
      split_and!; [done| |exists pending; by split].
      split; [by intros ?%Hk1|done].
Qed.

(** ** Opening *)

Lemma decoded_functional j c c' : Forall2 decoded j c -> Forall2 decoded j c' -> c = c'.
Proof. rewrite -!decode_envelopes_Ok. congruence. Qed.

Lemma store_create_Ok process_id label a st a' : store_create process_id label a = (Ok st, a') ->
  backend st = a' /\ knowledge st = Ready /\ cached st = [] /\
  schema_of a' = Some schema_identity /\ journal a' = [] /\ journal a = [].
Proof.
  unfold store_create. destruct schema_admitted as [[]|]; cbn; [|done].
  destruct (try_presence a) as [[]|] eqn:Ep; cbn; try done.
  destruct (create _ _ _) as [[s|] a1] eqn:Ec; [|done].
  destruct (create_law _ _ _ _ _ Ec Ep) as [Hj Hs].
  destruct (session_sync s) as [[[]|] s'] eqn:Es; [|done].
  destruct (sync_law _ _ _ Es) as [Ss Sj]. intros [= <- <-]. cbn.
  split_and!; try done; [by rewrite Ss|by rewrite Sj|by apply presence_law].
Qed.

Lemma create_or_open_Ok process_id label a st a' : create_or_open process_id label a = (Ok st, a') ->
  backend st = a' /\ knowledge st = Ready /\ follows [] st /\ journal a' = journal a.
Proof.
  unfold create_or_open. destruct (store_create process_id label a) as [[st1|e] a1] eqn:E.
  - intros [= <- <-]. destruct (store_create_Ok _ _ _ _ _ E) as (-> & Hk & Hc & Hs & Hj & Hj').
    split_and!; [done|done| |by rewrite Hj Hj'].
    pose proof (store_create_Ok _ _ _ _ _ E) as (Hb & _).
    split_and!; [by rewrite Hb| |done]. rewrite Hb Hj Hc. apply Forall2_nil_2.
  - destruct (is_already_exists e) eqn:Ee; [|done]. intros [= Ho <-].
    destruct (store_open_follows _ _ Ho) as (Hb & Hk & Hf). split_and!; [done|done|done|].
    revert E. unfold store_create. destruct schema_admitted as [[]|]; cbn; [|by intros [= _ <-]].
    destruct (try_presence a) as [[]|] eqn:Ep; cbn; try by intros [= _ <-].
    destruct (create _ _ _) as [[s|] a2]; [|by intros [= <- _]].
    destruct (session_sync s) as [[[]|] s']; [done|]. by intros [= <- _].
Qed.

(** C3: what a store says it has written is what any later opening of its
    storage shows.  Opening a storage, or creating it where it is absent, keeps
    its journal and shows all of it.  After any run of writes, detaches,
    resynchronizations and checks of the write lease, with whatever failures,
    the store has cached exactly the writes it reported; and opening the storage
    again shows those, and beyond them at most the first write whose landing the
    run left in doubt, which is none if the store may still write.  Reading the
    storage again fails only when the storage refuses to be read, never on what
    was written. *)
Theorem reopen_exact process_id label a st0 a0 os :
  create_or_open process_id label a = (Ok st0, a0) ->
  journal a0 = journal a /\ Forall2 decoded (journal a) (cached st0) /\
  let '(reported, doubtful, st) := run_store_ops os st0 in
  cached st = cached st0 ++ reported /\
  (knowledge st = Ready <-> doubtful = []) /\
  (forall e, store_open (backend st) = Err e -> exists condition, e = store_error_from condition) /\
  (forall process_id' label' st' a', create_or_open process_id' label' (backend st) = (Ok st', a') ->
     journal a' = journal (backend st) /\ knowledge st' = Ready /\
     exists pending, (pending = [] \/ pending = firstn 1 doubtful) /\
       cached st' = cached st0 ++ reported ++ pending).
Proof.
  intros (<- & Hk & Hf & Hj)%create_or_open_Ok.
  pose proof Hf as (_ & Hc & _). rewrite app_nil_r in Hc. split_and!; [done|by rewrite -Hj|].
  pose proof (run_follows os st0 Hk Hf) as H. destruct (run_store_ops os st0) as [[reported doubtful] st].
  destruct H as (Hcached & Hready & pending & Hp & (Hs & Hd & _)). split_and!; [done|done| |].
  - intros e. unfold store_open.
    destruct (read_cached_follows _ _ Hs Hd) as [-> | [x ->]]; [done|]. intros [= <-]. by exists x.
  - intros process_id' label' st' a' (<- & Hk' & (_ & Hc' & _) & Hj')%create_or_open_Ok.
    split_and!; [done|done|]. exists pending. split; [done|]. rewrite app_nil_r Hj' in Hc'.
    rewrite (decoded_functional _ _ _ Hc' Hd) Hcached. by rewrite app_assoc.
Qed.
End Journal.

(** ** A storage in memory, for the example below *)

Inductive Fault := F_None | F_Refuse | F_DoubtLost | F_DoubtKept | F_SyncFails.

(** The plan says how each coming write ends. *)
Record MemStorage := mkMem {
  mem_schema : option string;
  mem_journal : list Envelope;
  mem_plan : list Fault;
  mem_sync_fails : bool;
}.

Definition mem_write (env : Envelope) (s : MemStorage)
    : result FailureCondition WriteLandingVerdict * MemStorage :=
  let '(mkMem schema j plan _) := s in
  let plan' := tail plan in
  match head plan with
  | None | Some F_None => (Ok WV_Landed, mkMem schema (j ++ [env]) plan' false)
  | Some F_SyncFails => (Ok WV_Landed, mkMem schema (j ++ [env]) plan' true)
  | Some F_Refuse => (Err FC_StaleEpoch, mkMem schema j plan' false)
  | Some F_DoubtLost => (Ok (WV_Undetermined 1), mkMem schema j plan' false)
  | Some F_DoubtKept => (Ok (WV_Undetermined 1), mkMem schema (j ++ [env]) plan' false)
  end.

(** A fiber is active when its last envelope is not a detach. *)
Definition mem_fiber (k : string) (s : MemStorage) : FiberHandle :=
  match last (List.filter (fun e => String.eqb (env_fiber e) k) (mem_journal s)) with
  | None => mkFiberHandle false false
  | Some e => mkFiberHandle (negb (env_detached e)) (env_detached e)
  end.

#[local] Instance mem_adapter : Adapter MemStorage MemStorage MemStorage := {
  try_presence a := Ok (match mem_schema a with None => match mem_journal a with [] => AP_None | _ => AP_EventDataOnly end | Some _ => AP_Both end);
  create _ d a := (Ok (mkMem (Some d) [] (mem_plan a) false), a);
  open_read a := Ok a;
  reader_descriptor a := mem_schema a;
  read_all_envelopes a := Ok (mem_journal a);
  current_epoch _ := Ok 1;
  open_write _ a := (Ok a, a);
  session_fiber k s := Ok (mem_fiber k s);
  append_to_fiber k p := mem_write (mkEnvelope false k p);
  rescue_fiber k p := mem_write (mkEnvelope false k p);
  detach_fiber k p := mem_write (mkEnvelope true k p);
  session_sync s :=
    if mem_sync_fails s then (Err FC_TransportUnavailable, mkMem (mem_schema s) (removelast (mem_journal s)) (mem_plan s) false)
    else (Ok (), s);
  session_drop s := s;
}.

#[local] Instance mem_laws : AdapterLaws MemStorage MemStorage MemStorage mem_journal mem_schema.
Proof.
  split.
  - intros [[] [] ? ?]; done.
  - intros claim d a s a' [= <- <-] _. done.
  - intros a r [= <-]. split; [done|]. by intros l [= <-].
  - done.
  - intros detached k p [schema j plan b] v s' Hin.
    assert ((v, s') = mem_write (mkEnvelope detached k p) (mkMem schema j plan b)) as Hw
      by (destruct detached; set_solver).
    unfold mem_write in Hw. destruct (head plan) as [[]|]; injection Hw as -> ->; cbn; auto.
  - intros s r s'. cbn. destruct (mem_sync_fails s); intros [= <- <-]; cbn; auto.
Qed.

#[local] Instance mem_events : Schema (list N) := {
  encode_payload e := Some e;
  decode_payload p := Some p;
  schema_identity := "numbers";
  schema_admitted := Ok ();
}.
#[local] Instance mem_events_laws : SchemaLaws (list N).
Proof. by intros e p [= <-]. Qed.

Lemma reopen_exact_witness :
  match create_or_open 7 "numbers" (mkMem None [] [F_None; F_Refuse; F_None; F_DoubtKept] false) with
  | (Ok st0, _) =>
    let '(reported, doubtful, st) :=
      run_store_ops [SO_Record "a" [1]; SO_Record "b" [2]; SO_Preflight; SO_Detach "a" [3]; SO_Detach "a" [4];
                     SO_Record "c" [5]; SO_Record "d" [6]; SO_Resync] st0 in
    reported = [(false, "a", [1]); (true, "a", [3])] /\ knowledge st = Unknown 1 /\
    match create_or_open 8 "numbers" (backend st) with
    | (Ok st', _) => cached st' = reported ++ [(false, "c", [5])] /\
        exists pending, (pending = [] \/ pending = firstn 1 doubtful) /\ cached st' = cached st0 ++ reported ++ pending
    | _ => False
    end
  | _ => False
  end.
Proof.
  destruct (create_or_open 7 "numbers" _) as [[st0|] a0] eqn:E; [|by vm_compute in E].
  pose proof (reopen_exact mem_journal mem_schema 7 "numbers" _ st0 a0
    [SO_Record "a" [1]; SO_Record "b" [2]; SO_Preflight; SO_Detach "a" [3]; SO_Detach "a" [4];
     SO_Record "c" [5]; SO_Record "d" [6]; SO_Resync] E) as (_ & _ & H).
  vm_compute in E. injection E as <- <-.
  destruct (run_store_ops _ _) as [[reported doubtful] st] eqn:R. destruct H as (_ & _ & _ & H).
  destruct (create_or_open 8 "numbers" (backend st)) as [[st'|] a'] eqn:E'.
  - destruct (H 8 "numbers" st' a' E') as (_ & _ & pending & Hp & Hc).
    vm_compute in R. injection R as <- <- <-. vm_compute in E'. injection E' as <- <-.
    split; [reflexivity|]. split; [reflexivity|]. split; [reflexivity|]. by exists pending.
  - vm_compute in R. injection R as <- <- <-. by vm_compute in E'.
Defined.
