(* ===== verification/Events.v ===== *)
(** * The durable events ([event/mod.rs])

    The event forms of evidence, of the organization snapshot and of team
    rosters, with the limits on their texts and lists.  The bounded types and
    the timestamps of pardosa are a class.  Where an enumeration of the event
    crate mirrors one of the domain constructor by constructor, and its
    conversions map each to its namesake, one type stands for both. *)

From S2P Require Import Prelude Str Repository Checks Evidence Metrics Run.

Open Scope N_scope.

(** ** Limits ([event::limits]) *)

Definition MAX_DOMAIN_KEY : N := 128.
Definition MAX_REPO_NAME : N := 256.
Definition MAX_GITHUB_ID : N := 128.
Definition MAX_NODE_ID : N := 256.
Definition MAX_BRANCH_NAME : N := 256.
Definition MAX_LANGUAGE : N := 128.
Definition MAX_DESCRIPTION : N := 4096.
Definition MAX_URL : N := 2048.
Definition MAX_TOPIC : N := 128.
Definition MAX_TOPICS : N := 128.
Definition MAX_LICENSE : N := 128.
Definition MAX_LOGIN : N := 256.
Definition MAX_PERSON_NAME : N := 256.
Definition MAX_PATH : N := 4096.
Definition MAX_REASON : N := 4096.
Definition MAX_CODEOWNERS_PATTERN : N := 4096.
Definition MAX_CODEOWNERS_OWNER : N := 256.
Definition MAX_CODEOWNERS_OWNERS : N := 256.
Definition MAX_CODEOWNERS_ENTRIES : N := 4096.
Definition MAX_ASSESSMENT_DATE : N := 64.
Definition MAX_SCHEMA_VERSION : N := 64.
Definition MAX_RUN_ID : N := 256.
Definition MAX_TOKEN_SCOPES : N := 8192.
Definition MAX_TIMESTAMP_TEXT : N := 128.
Definition MAX_UNAVAILABLE_CAPABILITIES : N := 32.
Definition MAX_ORG_ALERT_REPOS : N := 1000000.
Definition MAX_ALERT_BUCKET : N := 128.
Definition MAX_ALERT_BUCKETS : N := 128.
Definition MAX_TEAM_MEMBERS : N := 16384.

(** ** Bounded values *)

(** What pardosa's types accept: a string or a list within a bound, and the
    nanoseconds of a timestamp. *)
Class Pardosa := {
  string_fits : N -> string -> bool;
  vec_fits : N -> N -> bool;
  Timestamp : Type;
  Timestamp_new : N -> option Timestamp;
  as_nanos : Timestamp -> N;
}.

Class PardosaLaws `{!Pardosa} : Prop := {
  Timestamp_new_nanos n t : Timestamp_new n = Some t -> as_nanos t = n;
  Timestamp_new_total t : Timestamp_new (as_nanos t) = Some t;
  as_nanos_u64 t : as_nanos t <= u64_max;
}.

#[export] Instance Is_true_decision (b : bool) : Decision (Is_true b).
Proof. destruct b; [left | right]; simpl; tauto. Defined.

(** Checking a value into a type of checked values. *)
Definition checked {A} (ok : A -> bool) : Type := { a : A | Is_true (ok a) }.
Definition check {A} (ok : A -> bool) (a : A) : option (checked ok) :=
  match decide (Is_true (ok a)) with left H => Some (exist _ a H) | right _ => None end.
Definition unchecked {A} {ok : A -> bool} (c : checked ok) : A := proj1_sig c.

Lemma check_Some {A} (ok : A -> bool) a c : check ok a = Some c -> unchecked c = a.
Proof. unfold check. destruct (decide _); [by intros [= <-]|done]. Qed.

Lemma check_unchecked {A} (ok : A -> bool) (c : checked ok) : check ok (unchecked c) = Some c.
Proof.
  destruct c as [a H]. unfold check; simpl. destruct (decide _) as [H'|]; [|done].
  do 2 f_equal. apply Is_true_pi.
Qed.

Lemma check_is_Some {A} (ok : A -> bool) a : is_Some (check ok a) <-> ok a = true.
Proof.
  unfold check. destruct (decide _) as [H|H]; rewrite -Is_true_true.
  - split; [done|by eexists].
  - split; [by intros [? ?]|done].
Qed.

Section Bounded.
  Context {P : Pardosa}.

Definition EventString (max : N) : Type := checked (string_fits max).
Definition NonEmptyEventString (max : N) : Type :=
  checked (fun s => negb (is_empty s) && string_fits max s).
Definition EventVec (A : Type) (max : N) : Type :=
  checked (fun l : list A => vec_fits max (N.of_nat (length l))).

Definition as_str {max} (s : EventString max) : string := unchecked s.
Definition ne_str {max} (s : NonEmptyEventString max) : string := unchecked s.
Definition into_inner {A max} (v : EventVec A max) : list A := unchecked v.

Lemma ne_str_nonempty {max} (s : NonEmptyEventString max) : is_empty (ne_str s) = false.
Proof.
  destruct s as [s Hs]. unfold ne_str, unchecked; simpl.
  by destruct (is_empty s).
Qed.

(** ** The events *)

Record NativeRepository := mkNativeRepository {
  nr_id : NonEmptyEventString MAX_GITHUB_ID;
  nr_node_id : option (EventString MAX_NODE_ID);
  nr_name : NonEmptyEventString MAX_REPO_NAME;
  nr_visibility : Visibility;
  nr_language : option (EventString MAX_LANGUAGE);
  nr_default_branch : NonEmptyEventString MAX_BRANCH_NAME;
  nr_archived : bool;
  nr_inventory_key : NonEmptyEventString MAX_DOMAIN_KEY;
  nr_updated_at : option (NonEmptyEventString MAX_TIMESTAMP_TEXT);
  nr_has_issues : bool;
  nr_pushed_at : option Timestamp;
  nr_created_at : option Timestamp;
  nr_description : option (EventString MAX_DESCRIPTION);
  nr_fork : bool;
  nr_is_empty : bool;
  nr_html_url : option (EventString MAX_URL);
  nr_topics : EventVec (EventString MAX_TOPIC) MAX_TOPICS;
  nr_license_spdx : option (EventString MAX_LICENSE);
}.

Inductive NativeSecurityPolicyResult :=
| NSP_EnabledBySetting (timestamp : Timestamp)
| NSP_EnabledByFile (path : NonEmptyEventString MAX_PATH) (timestamp : Timestamp)
| NSP_Absent (timestamp : Timestamp)
| NSP_Unobservable (reason : IndeterminateReason) (timestamp : Timestamp)
| NSP_NotApplicable (timestamp : Timestamp).

Inductive NativeSecretScanningResult :=
| NSS_Enabled (provenance : EnabledProvenance) (timestamp : Timestamp)
| NSS_Disabled (metadata_http_status : option N) (observation : DisabledObservation)
    (timestamp : Timestamp)
| NSS_Unobservable (metadata : MetadataUnavailable) (probe : UnobservableProbe)
    (timestamp : Timestamp).

Record NativeDependabotResult := mkNativeDependabotResult {
  nd_status : DependabotStatus;
  nd_reason : option (EventString MAX_REASON);
  nd_timestamp : Timestamp;
}.

Inductive NativeBranchProtectionResult :=
| NBP_Protected (default_branch : NonEmptyEventString MAX_BRANCH_NAME) (timestamp : Timestamp)
| NBP_Unprotected (default_branch : NonEmptyEventString MAX_BRANCH_NAME)
    (gap : HistoryProtectionGap) (timestamp : Timestamp)
| NBP_Unobservable (default_branch : NonEmptyEventString MAX_BRANCH_NAME)
    (reason : IndeterminateReason) (http_status : option N) (timestamp : Timestamp).

Record NativeCodeownersEntry := mkNativeCodeownersEntry {
  nce_pattern : EventString MAX_CODEOWNERS_PATTERN;
  nce_owners : EventVec (EventString MAX_CODEOWNERS_OWNER) MAX_CODEOWNERS_OWNERS;
}.

Record NativeParsedCodeowners := mkNativeParsedCodeowners {
  npc_entries : EventVec NativeCodeownersEntry MAX_CODEOWNERS_ENTRIES;
  npc_unique_owners : EventVec (EventString MAX_CODEOWNERS_OWNER) MAX_CODEOWNERS_OWNERS;
  npc_skipped_lines : N;
}.

Inductive NativeCodeownersContent :=
| NCC_Parsed (parsed : NativeParsedCodeowners)
| NCC_Truncated (reason : CodeownersTruncationReason)
| NCC_Unparsed.

Inductive NativeCodeownersResult :=
| NCO_Conforming (content : NativeCodeownersContent) (timestamp : Timestamp)
| NCO_NonConforming (location : CodeownersNonConformingLocation)
    (content : NativeCodeownersContent) (timestamp : Timestamp)
| NCO_Absent (timestamp : Timestamp)
| NCO_Unobservable (reason : IndeterminateReason) (timestamp : Timestamp).

Record NativeRepositoryChecks := mkNativeRepositoryChecks {
  nrc_security_policy : NativeSecurityPolicyResult;
  nrc_secret_scanning : NativeSecretScanningResult;
  nrc_dependabot : NativeDependabotResult;
  nrc_branch_protection : NativeBranchProtectionResult;
  nrc_codeowners : NativeCodeownersResult;
}.

Record NativeLastCommitInfo := mkNativeLastCommitInfo {
  nl_committer_login : option (EventString MAX_LOGIN);
  nl_committer_name : option (EventString MAX_PERSON_NAME);
  nl_commit_date : option Timestamp;
}.

Record NativeRepositoryEvidence := mkNativeRepositoryEvidence {
  ne_repository : NativeRepository;
  ne_checks : NativeRepositoryChecks;
  ne_last_commit : option NativeLastCommitInfo;
}.

(** [limit] is a [NonZeroU64]. *)
Inductive NativeCollectionCoverage :=
| NCov_Unknown
| NCov_Known (total limit : N).

Record NativeAssessmentMetadata := mkNativeAssessmentMetadata {
  na_date : EventString MAX_ASSESSMENT_DATE;
  na_organization : EventString MAX_LOGIN;
  na_schema_version : EventString MAX_SCHEMA_VERSION;
  na_run_timestamp : EventString MAX_TIMESTAMP_TEXT;
  na_run_id : EventString MAX_RUN_ID;
  na_token_tier : TokenTier;
  na_token_scopes : EventString MAX_TOKEN_SCOPES;
  na_auth_mode : AuthMode;
  na_rate_limit_warnings : N;
  na_unavailable_capabilities : EventVec Capability MAX_UNAVAILABLE_CAPABILITIES;
  na_inventory_fetched_at : option (EventString MAX_TIMESTAMP_TEXT);
  na_warm_start : bool;
  na_coverage : NativeCollectionCoverage;
}.

Record NativeRepoAlertSummary := mkNativeRepoAlertSummary {
  ns_open_alert_count : N;
  ns_oldest : option (EventString MAX_TIMESTAMP_TEXT);
  ns_newest : option (EventString MAX_TIMESTAMP_TEXT);
}.

Record RepoAlertSummaryEntry := mkRepoAlertSummaryEntry {
  re_repository_id : EventString MAX_GITHUB_ID;
  re_summary : NativeRepoAlertSummary;
}.

Record StringU64Entry := mkStringU64Entry {
  se_key : EventString MAX_ALERT_BUCKET;
  se_value : N;
}.

Record NativeOrgAlertSummary := mkNativeOrgAlertSummary {
  no_collection_status : CollectionStatus;
  no_collection_reason : option (EventString MAX_REASON);
  no_http_status : option N;
  no_per_repo : EventVec RepoAlertSummaryEntry MAX_ORG_ALERT_REPOS;
  no_age_buckets : EventVec StringU64Entry MAX_ALERT_BUCKETS;
  no_total_open_secret_alerts : N;
  no_oldest : option (EventString MAX_TIMESTAMP_TEXT);
  no_newest : option (EventString MAX_TIMESTAMP_TEXT);
}.

Record NativeOrgStateCaptured := mkNativeOrgStateCaptured {
  nos_archived_repos : N;
  nos_assessment_metadata : NativeAssessmentMetadata;
  nos_alert_summary : NativeOrgAlertSummary;
}.

Record TeamMemberEvent := mkTeamMemberEvent {
  tme_login : NonEmptyEventString MAX_LOGIN;
  tme_role : TeamMemberRole;
  tme_in_org : option bool;
}.

Inductive OrgMembershipFetchStatus := Fetched | Degraded.

(** [TeamStateCaptured], with its one [OrphanAttributionInputs] inlined. *)
Record TeamEvent := mkTeamEvent {
  te_org : NonEmptyEventString MAX_LOGIN;
  te_team_slug : NonEmptyEventString MAX_LOGIN;
  te_members : EventVec TeamMemberEvent MAX_TEAM_MEMBERS;
  te_fetch_status : OrgMembershipFetchStatus;
  te_fetched_at : EventString MAX_TIMESTAMP_TEXT;
  te_status : TeamRosterStatus;
}.

(** [DomainEvent]. *)
Inductive NativeDomainEvent :=
| NE_RepositoryStateCaptured (domain_key : NonEmptyEventString MAX_DOMAIN_KEY)
    (repo_name : NonEmptyEventString MAX_REPO_NAME) (timestamp : Timestamp)
    (evidence : option NativeRepositoryEvidence)
| NE_RepositoryDeleted (domain_key : NonEmptyEventString MAX_DOMAIN_KEY)
    (repo_name : NonEmptyEventString MAX_REPO_NAME) (detected_at : Timestamp)
| NE_OrgStateCaptured (org : NativeOrgStateCaptured)
| NE_TeamStateCaptured (team : TeamEvent).

Definition native_event_type (e : NativeDomainEvent) : string :=
  match e with
  | NE_RepositoryStateCaptured _ _ _ _ => "RepositoryStateCaptured"
  | NE_RepositoryDeleted _ _ _ => "RepositoryDeleted"
  | NE_OrgStateCaptured _ => "OrgStateCaptured"
  | NE_TeamStateCaptured _ => "TeamStateCaptured"
  end.
End Bounded.

(** ** The team key *)

(** [team_domain_key]: the hexadecimal form of the organization, the unit
    separator and the slug; [None] for an empty part. *)
Definition team_domain_key (org team_slug : string) : option string :=
  if is_empty org || is_empty team_slug then None
  else Some ("team_" +:+ hex_encode (to_bytes org ++ [31] ++ to_bytes team_slug)).
