(* ===== verification/Convert.v ===== *)
(** * Domain values and their event forms ([event/convert.rs])

    The conversions that put evidence and organization snapshots into events,
    with every check they make in the order they make it, and the conversions
    back.  Text is bounded, timestamps become nanoseconds, maps become sorted
    lists. *)

From S2P Require Import Prelude Str Time Repository Checks Evidence Metrics Run Events.

Open Scope N_scope.

Inductive EventConversionError :=
| CE_TooLong (field : string)
| CE_Empty (field : string)
| CE_BadTimestamp (field value : string)
| CE_TooMany (field : string).

Notation Conv := (result EventConversionError).

Section Convert.
  Context {P : Pardosa}.
  (** [jiff]: parsing a timestamp, and printing nanoseconds in range. *)
  Context (parse_timestamp : string -> option Z) (jiff_string : Z -> option string).

(** ** Helpers *)

Definition to_es (max : N) (field value : string) : Conv (EventString max) :=
  match check _ value with Some s => Ok s | None => Err (CE_TooLong field) end.

Definition to_es_opt (max : N) (field : string) (value : option string)
    : Conv (option (EventString max)) :=
  opt_transpose (to_es max field) value.

(** [EventVec::new(..).map_err(..)]. *)
Definition bounded_vec {U} (max : N) (field : string) (l : list U) : Conv (EventVec U max) :=
  match check _ l with Some v => Ok v | None => Err (CE_TooMany field) end.

Definition to_event_vec {T U} (max : N) (field : string) (values : list T)
    (convert : T -> Conv U) : Conv (EventVec U max) :=
  let? converted := collect convert values in bounded_vec max field converted.

Definition to_nes (max : N) (field value : string) : Conv (NonEmptyEventString max) :=
  match check _ value with
  | Some s => Ok s
  | None => if is_empty value then Err (CE_Empty field) else Err (CE_TooLong field)
  end.

Definition ts_required (field value : string) : Conv Timestamp :=
  match parse_iso8601 parse_timestamp value with
  | None => Err (CE_BadTimestamp field value)
  | Some parsed =>
    if ((0 <=? parsed) && (parsed <=? Z.of_N u64_max))%Z then
      match Timestamp_new (Z.to_N parsed) with
      | Some t => Ok t
      | None => Err (CE_BadTimestamp field value)
      end
    else Err (CE_BadTimestamp field value)
  end.

Definition ts_opt (field : string) (value : option string) : Conv (option Timestamp) :=
  match value with
  | None => Ok None
  | Some v => let? t := ts_required field v in Ok (Some t)
  end.

Definition ts_to_string (ts : Timestamp) : string :=
  default "" (jiff_string (Z.of_N (as_nanos ts))).
Definition ts_to_string_opt (ts : option Timestamp) : option string := option_map ts_to_string ts.

(** ** Repositories *)

Definition repository_try_from (r : Repository) : Conv NativeRepository :=
  let? id := to_nes MAX_GITHUB_ID "repository.id" (repo_id r) in
  let? nid := to_es_opt MAX_NODE_ID "repository.node_id" (node_id r) in
  let? name := to_nes MAX_REPO_NAME "repository.name" (repo_name r) in
  let? lang := to_es_opt MAX_LANGUAGE "repository.language" (language r) in
  let? branch := to_nes MAX_BRANCH_NAME "repository.default_branch" (default_branch r) in
  let? key := to_nes MAX_DOMAIN_KEY "repository.inventory_key" (inventory_key r) in
  let? updated := opt_transpose (to_nes MAX_TIMESTAMP_TEXT "repository.updated_at")
                    (updated_at r) in
  let? pushed := ts_opt "repository.pushed_at" (pushed_at r) in
  let? created := ts_opt "repository.created_at" (created_at r) in
  let? descr := to_es_opt MAX_DESCRIPTION "repository.description" (description r) in
  let? url := to_es_opt MAX_URL "repository.html_url" (html_url r) in
  let? tps := to_event_vec MAX_TOPICS "repository.topics" (topics r)
                (to_es MAX_TOPIC "repository.topics") in
  let? lic := to_es_opt MAX_LICENSE "repository.license_spdx" (license_spdx r) in
  Ok (mkNativeRepository id nid name (visibility r) lang branch (archived r) key updated
        (has_issues r) pushed created descr (fork r) (repo_is_empty r) url tps lic).

Definition repository_into (r : NativeRepository) : Repository :=
  mkRepository (ne_str (nr_id r)) (option_map as_str (nr_node_id r)) (ne_str (nr_name r))
    (nr_visibility r) (option_map as_str (nr_language r)) (ne_str (nr_default_branch r))
    (nr_archived r) (ne_str (nr_inventory_key r))
    (nr_updated_at r ≫= fun s => UpdatedAt_new (ne_str s)) (nr_has_issues r)
    (ts_to_string_opt (nr_pushed_at r)) (ts_to_string_opt (nr_created_at r))
    (option_map as_str (nr_description r)) (nr_fork r) (nr_is_empty r)
    (option_map as_str (nr_html_url r)) (map as_str (into_inner (nr_topics r)))
    (option_map as_str (nr_license_spdx r)).

(** ** Checks *)

Definition security_policy_try_from (v : SecurityPolicyResult)
    : Conv NativeSecurityPolicyResult :=
  let? timestamp := ts_required "security_policy.timestamp" (SecurityPolicyResult_timestamp v) in
  match v with
  | SPR_EnabledBySetting _ => Ok (NSP_EnabledBySetting timestamp)
  | SPR_EnabledByFile path _ =>
    let? p := to_nes MAX_PATH "security_policy.path" (policy_path path) in
    Ok (NSP_EnabledByFile p timestamp)
  | SPR_Absent _ => Ok (NSP_Absent timestamp)
  | SPR_NotApplicable _ => Ok (NSP_NotApplicable timestamp)
  | SPR_Unobservable reason _ => Ok (NSP_Unobservable reason timestamp)
  end.

(** The [expect] on the path cannot fail: the text is not empty. *)
Definition security_policy_into (v : NativeSecurityPolicyResult) : SecurityPolicyResult :=
  match v with
  | NSP_EnabledBySetting t => SPR_EnabledBySetting (ts_to_string t)
  | NSP_EnabledByFile path t =>
    SPR_EnabledByFile (default (mkSecurityPolicyPath "") (SecurityPolicyPath_new (ne_str path)))
      (ts_to_string t)
  | NSP_Absent t => SPR_Absent (ts_to_string t)
  | NSP_NotApplicable t => SPR_NotApplicable (ts_to_string t)
  | NSP_Unobservable reason t => SPR_Unobservable reason (ts_to_string t)
  end.

Definition secret_scanning_try_from (v : SecretScanningResult)
    : Conv NativeSecretScanningResult :=
  let? timestamp := ts_required "secret_scanning.timestamp" (SecretScanningResult_timestamp v) in
  match v with
  | SSR_Enabled provenance _ => Ok (NSS_Enabled provenance timestamp)
  | SSR_Disabled http observation _ => Ok (NSS_Disabled http observation timestamp)
  | SSR_Unobservable metadata probe _ => Ok (NSS_Unobservable metadata probe timestamp)
  end.

Definition secret_scanning_into (v : NativeSecretScanningResult) : SecretScanningResult :=
  match v with
  | NSS_Enabled provenance t => SSR_Enabled provenance (ts_to_string t)
  | NSS_Disabled http observation t => SSR_Disabled http observation (ts_to_string t)
  | NSS_Unobservable metadata probe t => SSR_Unobservable metadata probe (ts_to_string t)
  end.

Definition dependabot_try_from (v : DependabotResult) : Conv NativeDependabotResult :=
  let? reason := to_es_opt MAX_REASON "dependabot.reason" (dependabot_reason v) in
  let? t := ts_required "dependabot.timestamp" (dependabot_timestamp v) in
  Ok (mkNativeDependabotResult (dependabot_status v) reason t).

Definition dependabot_into (v : NativeDependabotResult) : DependabotResult :=
  mkDependabotResult (nd_status v) (option_map as_str (nd_reason v))
    (ts_to_string (nd_timestamp v)).

Definition branch_protection_try_from (v : BranchProtectionResult)
    : Conv NativeBranchProtectionResult :=
  match v with
  | BPR_Protected branch timestamp =>
    let? b := to_nes MAX_BRANCH_NAME "branch_protection.default_branch" branch in
    let? t := ts_required "branch_protection.timestamp" timestamp in
    Ok (NBP_Protected b t)
  | BPR_Unprotected branch gap timestamp =>
    let? b := to_nes MAX_BRANCH_NAME "branch_protection.default_branch" branch in
    let? t := ts_required "branch_protection.timestamp" timestamp in
    Ok (NBP_Unprotected b gap t)
  | BPR_Unobservable branch reason http timestamp =>
    let? b := to_nes MAX_BRANCH_NAME "branch_protection.default_branch" branch in
    let? t := ts_required "branch_protection.timestamp" timestamp in
    Ok (NBP_Unobservable b reason http t)
  end.

Definition branch_protection_into (v : NativeBranchProtectionResult) : BranchProtectionResult :=
  match v with
  | NBP_Protected b t => BPR_Protected (ne_str b) (ts_to_string t)
  | NBP_Unprotected b gap t => BPR_Unprotected (ne_str b) gap (ts_to_string t)
  | NBP_Unobservable b reason http t => BPR_Unobservable (ne_str b) reason http (ts_to_string t)
  end.

Definition codeowners_entry_try_from (v : CodeownersEntry) : Conv NativeCodeownersEntry :=
  let? p := to_es MAX_CODEOWNERS_PATTERN "codeowners.entry.pattern" (entry_pattern v) in
  let? os := to_event_vec MAX_CODEOWNERS_OWNERS "codeowners.entry.owners" (entry_owners v)
               (to_es MAX_CODEOWNERS_OWNER "codeowners.entry.owners") in
  Ok (mkNativeCodeownersEntry p os).

Definition codeowners_entry_into (v : NativeCodeownersEntry) : CodeownersEntry :=
  mkCodeownersEntry (as_str (nce_pattern v)) (map as_str (into_inner (nce_owners v))).

Definition parsed_codeowners_try_from (v : ParsedCodeowners) : Conv NativeParsedCodeowners :=
  let? es := to_event_vec MAX_CODEOWNERS_ENTRIES "codeowners.entries" (entries v)
               codeowners_entry_try_from in
  let? us := to_event_vec MAX_CODEOWNERS_OWNERS "codeowners.unique_owners" (unique_owners v)
               (to_es MAX_CODEOWNERS_OWNER "codeowners.unique_owners") in
  Ok (mkNativeParsedCodeowners es us (skipped_lines v)).

Definition parsed_codeowners_into (v : NativeParsedCodeowners) : ParsedCodeowners :=
  mkParsedCodeowners (map codeowners_entry_into (into_inner (npc_entries v)))
    (map as_str (into_inner (npc_unique_owners v))) (npc_skipped_lines v).

Definition codeowners_content_try_from (v : CodeownersContent) : Conv NativeCodeownersContent :=
  match v with
  | CC_Parsed parsed => let? p := parsed_codeowners_try_from parsed in Ok (NCC_Parsed p)
  | CC_Truncated reason => Ok (NCC_Truncated reason)
  | CC_Unparsed => Ok NCC_Unparsed
  end.

Definition codeowners_content_into (v : NativeCodeownersContent) : CodeownersContent :=
  match v with
  | NCC_Parsed p => CC_Parsed (parsed_codeowners_into p)
  | NCC_Truncated reason => CC_Truncated reason
  | NCC_Unparsed => CC_Unparsed
  end.

Definition codeowners_try_from (v : CodeownersResult) : Conv NativeCodeownersResult :=
  let? timestamp := ts_required "codeowners.timestamp" (CodeownersResult_timestamp v) in
  match v with
  | COR_Conforming content _ =>
    let? c := codeowners_content_try_from content in Ok (NCO_Conforming c timestamp)
  | COR_NonConforming location content _ =>
    let? c := codeowners_content_try_from content in Ok (NCO_NonConforming location c timestamp)
  | COR_Absent _ => Ok (NCO_Absent timestamp)
  | COR_Unobservable reason _ => Ok (NCO_Unobservable reason timestamp)
  end.

Definition codeowners_into (v : NativeCodeownersResult) : CodeownersResult :=
  match v with
  | NCO_Conforming c t => COR_Conforming (codeowners_content_into c) (ts_to_string t)
  | NCO_NonConforming location c t =>
    COR_NonConforming location (codeowners_content_into c) (ts_to_string t)
  | NCO_Absent t => COR_Absent (ts_to_string t)
  | NCO_Unobservable reason t => COR_Unobservable reason (ts_to_string t)
  end.

Definition checks_try_from (v : RepositoryChecks) : Conv NativeRepositoryChecks :=
  let? sp := security_policy_try_from (security_policy v) in
  let? ss := secret_scanning_try_from (secret_scanning v) in
  let? db := dependabot_try_from (dependabot_security_updates v) in
  let? bp := branch_protection_try_from (branch_protection v) in
  let? co := codeowners_try_from (codeowners v) in
  Ok (mkNativeRepositoryChecks sp ss db bp co).

Definition checks_into (v : NativeRepositoryChecks) : RepositoryChecks :=
  mkRepositoryChecks (security_policy_into (nrc_security_policy v))
    (secret_scanning_into (nrc_secret_scanning v)) (dependabot_into (nrc_dependabot v))
    (branch_protection_into (nrc_branch_protection v)) (codeowners_into (nrc_codeowners v)).

(** ** Evidence *)

Definition last_commit_try_from (v : LastCommitInfo) : Conv NativeLastCommitInfo :=
  let? lg := to_es_opt MAX_LOGIN "last_commit.committer_login" (committer_login v) in
  let? nm := to_es_opt MAX_PERSON_NAME "last_commit.committer_name" (committer_name v) in
  let? dt := ts_opt "last_commit.commit_date" (commit_date v) in
  Ok (mkNativeLastCommitInfo lg nm dt).

Definition last_commit_into (v : NativeLastCommitInfo) : LastCommitInfo :=
  mkLastCommitInfo (option_map as_str (nl_committer_login v))
    (option_map as_str (nl_committer_name v)) (ts_to_string_opt (nl_commit_date v)).

Definition evidence_try_from (v : RepositoryEvidence) : Conv NativeRepositoryEvidence :=
  let? r := repository_try_from (repository v) in
  let? c := checks_try_from (checks v) in
  let? l := opt_transpose last_commit_try_from (last_commit v) in
  Ok (mkNativeRepositoryEvidence r c l).

Definition evidence_into (v : NativeRepositoryEvidence) : RepositoryEvidence :=
  mkRepositoryEvidence (repository_into (ne_repository v)) (checks_into (ne_checks v))
    (option_map last_commit_into (ne_last_commit v)) false.

(** ** Organization snapshots *)

Definition coverage_try_from (c : CollectionCoverage) : Conv NativeCollectionCoverage :=
  match c with
  | CoverageUnknown => Ok NCov_Unknown
  | CoverageKnown total limit =>
    if total <=? u32_max then Ok (NCov_Known total limit)
    else Err (CE_TooLong "assessment_metadata.coverage.total")
  end.

Definition coverage_into (c : NativeCollectionCoverage) : CollectionCoverage :=
  match c with NCov_Unknown => CoverageUnknown | NCov_Known total limit => CoverageKnown total limit end.

Definition metadata_try_from (v : AssessmentMetadata) : Conv NativeAssessmentMetadata :=
  let? date := to_es MAX_ASSESSMENT_DATE "assessment_metadata.date" (am_date v) in
  let? org := to_es MAX_LOGIN "assessment_metadata.organization" (am_organization v) in
  let? schema := to_es MAX_SCHEMA_VERSION "assessment_metadata.schema_version"
                   (am_schema_version v) in
  let? ts := to_es MAX_TIMESTAMP_TEXT "assessment_metadata.run_timestamp" (am_run_timestamp v) in
  let? id := to_es MAX_RUN_ID "assessment_metadata.run_id" (am_run_id v) in
  let? scopes := to_es MAX_TOKEN_SCOPES "assessment_metadata.token_scopes" (am_token_scopes v) in
  let? caps := to_event_vec MAX_UNAVAILABLE_CAPABILITIES
                 "assessment_metadata.unavailable_capabilities" (am_unavailable_capabilities v)
                 (fun capability => Ok capability) in
  let? inv := to_es_opt MAX_TIMESTAMP_TEXT "assessment_metadata.inventory_fetched_at"
                (am_inventory_fetched_at v) in
  let? cov := coverage_try_from (am_coverage v) in
  Ok (mkNativeAssessmentMetadata date org schema ts id (am_token_tier v) scopes (am_auth_mode v)
        (am_rate_limit_warnings v) caps inv (am_warm_start v) cov).

Definition metadata_into (v : NativeAssessmentMetadata) : AssessmentMetadata :=
  mkAssessmentMetadata (as_str (na_date v)) (as_str (na_organization v))
    (as_str (na_schema_version v)) (as_str (na_run_timestamp v)) (as_str (na_run_id v))
    (na_token_tier v) (as_str (na_token_scopes v)) (na_auth_mode v) (na_rate_limit_warnings v)
    (into_inner (na_unavailable_capabilities v))
    (option_map as_str (na_inventory_fetched_at v)) (na_warm_start v)
    (coverage_into (na_coverage v)).

Definition repo_alerts_try_from (v : RepoAlertSummary) : Conv NativeRepoAlertSummary :=
  let? oldest := to_es_opt MAX_TIMESTAMP_TEXT "repo_alert_summary.oldest_open_alert_created_at"
                   (oldest_open_alert_created_at v) in
  let? newest := to_es_opt MAX_TIMESTAMP_TEXT "repo_alert_summary.newest_open_alert_created_at"
                   (newest_open_alert_created_at v) in
  Ok (mkNativeRepoAlertSummary (open_alert_count v) oldest newest).

Definition repo_alerts_into (v : NativeRepoAlertSummary) : RepoAlertSummary :=
  mkRepoAlertSummary (ns_open_alert_count v) (option_map as_str (ns_oldest v))
    (option_map as_str (ns_newest v)).

Definition repo_entry_try_from (kv : string * RepoAlertSummary) : Conv RepoAlertSummaryEntry :=
  let? id := to_es MAX_GITHUB_ID "org_alert_summary.per_repo.key" (fst kv) in
  let? summary := repo_alerts_try_from (snd kv) in
  Ok (mkRepoAlertSummaryEntry id summary).

Definition bucket_entry_try_from (kv : string * N) : Conv StringU64Entry :=
  let? key := to_es MAX_ALERT_BUCKET "org_alert_summary.open_secret_alert_age_buckets.key"
                (fst kv) in
  Ok (mkStringU64Entry key (snd kv)).

Definition repo_entry_le (a b : RepoAlertSummaryEntry) : Prop :=
  String.le (as_str (re_repository_id a)) (as_str (re_repository_id b)).
Definition bucket_entry_le (a b : StringU64Entry) : Prop :=
  String.le (as_str (se_key a)) (as_str (se_key b)).
#[export] Instance repo_entry_le_dec : RelDecision repo_entry_le.
Proof. intros a b. unfold repo_entry_le. apply _. Defined.
#[export] Instance bucket_entry_le_dec : RelDecision bucket_entry_le.
Proof. intros a b. unfold bucket_entry_le. apply _. Defined.
#[export] Instance repo_entry_le_total : Total repo_entry_le.
Proof. intros a b. apply (total String.le). Qed.
#[export] Instance repo_entry_le_trans : Transitive repo_entry_le.
Proof. intros a b c. unfold repo_entry_le. apply transitivity. Qed.
#[export] Instance bucket_entry_le_total : Total bucket_entry_le.
Proof. intros a b. apply (total String.le). Qed.
#[export] Instance bucket_entry_le_trans : Transitive bucket_entry_le.
Proof. intros a b c. unfold bucket_entry_le. apply transitivity. Qed.

(** The maps are read in an order the code does not fix; only which of several
    errors is reported depends on it. *)
Definition org_alerts_try_from (v : OrgAlertSummary) : Conv NativeOrgAlertSummary :=
  let? rs := collect repo_entry_try_from (map_to_list (per_repo v)) in
  let? repos := bounded_vec MAX_ORG_ALERT_REPOS "org_alert_summary.per_repo"
                  (sort_by repo_entry_le rs) in
  let? bs := collect bucket_entry_try_from (map_to_list (open_secret_alert_age_buckets v)) in
  let? buckets := bounded_vec MAX_ALERT_BUCKETS
                    "org_alert_summary.open_secret_alert_age_buckets"
                    (sort_by bucket_entry_le bs) in
  let? reason := to_es_opt MAX_REASON "org_alert_summary.collection_reason"
                   (collection_reason v) in
  let? oldest := to_es_opt MAX_TIMESTAMP_TEXT
                   "org_alert_summary.oldest_open_secret_alert_created_at"
                   (oldest_open_secret_alert_created_at v) in
  let? newest := to_es_opt MAX_TIMESTAMP_TEXT
                   "org_alert_summary.newest_open_secret_alert_created_at"
                   (newest_open_secret_alert_created_at v) in
  Ok (mkNativeOrgAlertSummary (collection_status v) reason (summary_http_status v) repos buckets
        (total_open_secret_alerts v) oldest newest).

Definition org_alerts_into (v : NativeOrgAlertSummary) : OrgAlertSummary :=
  mkOrgAlertSummary (no_collection_status v) (option_map as_str (no_collection_reason v))
    (no_http_status v)
    (collect_map (map (fun e => (as_str (re_repository_id e), repo_alerts_into (re_summary e)))
       (into_inner (no_per_repo v))))
    (collect_map (map (fun e => (as_str (se_key e), se_value e)) (into_inner (no_age_buckets v))))
    (no_total_open_secret_alerts v) (option_map as_str (no_oldest v))
    (option_map as_str (no_newest v)).

Definition org_try_from (v : OrgStateSnapshot) : Conv NativeOrgStateCaptured :=
  let? m := metadata_try_from (os_assessment_metadata v) in
  let? a := org_alerts_try_from (os_alert_summary v) in
  Ok (mkNativeOrgStateCaptured (os_archived_repos v) m a).

Definition org_into (v : NativeOrgStateCaptured) : OrgStateSnapshot :=
  mkOrgStateSnapshot (nos_archived_repos v) (metadata_into (nos_assessment_metadata v))
    (org_alerts_into (nos_alert_summary v)).

(** ** Teams *)

Definition team_member_into (m : TeamMemberEvent) : TeamMember :=
  mkTeamMember (ne_str (tme_login m)) (tme_role m) (tme_in_org m).

(** [From<TeamStateCaptured> for TeamRoster]. *)
Definition team_event_into (t : TeamEvent) : TeamRoster :=
  let org := ne_str (te_org t) in
  let slug := ne_str (te_team_slug t) in
  let instant := as_str (te_fetched_at t) in
  mkTeamRoster ("@" +:+ org +:+ "/" +:+ slug) slug (te_status t)
    (map team_member_into (into_inner (te_members t)))
    (if is_empty instant then None else Some instant).
(** ** What a conversion keeps *)

(** The text a stored timestamp reads back as. *)
Definition canonical_time (value : string) : string :=
  default "" (parse_iso8601 parse_timestamp value ≫= jiff_string).

(** [f] at every timestamp that is stored as nanoseconds. *)
Definition repository_map_times (f : string -> string) (r : Repository) : Repository :=
  mkRepository (repo_id r) (node_id r) (repo_name r) (visibility r) (language r)
    (default_branch r) (archived r) (inventory_key r) (updated_at r) (has_issues r)
    (option_map f (pushed_at r)) (option_map f (created_at r)) (description r) (fork r)
    (repo_is_empty r) (html_url r) (topics r) (license_spdx r).

Definition security_policy_map_times (f : string -> string) (v : SecurityPolicyResult)
    : SecurityPolicyResult :=
  match v with
  | SPR_EnabledBySetting t => SPR_EnabledBySetting (f t)
  | SPR_EnabledByFile p t => SPR_EnabledByFile p (f t)
  | SPR_Absent t => SPR_Absent (f t)
  | SPR_Unobservable r t => SPR_Unobservable r (f t)
  | SPR_NotApplicable t => SPR_NotApplicable (f t)
  end.

Definition codeowners_map_times (f : string -> string) (v : CodeownersResult) : CodeownersResult :=
  match v with
  | COR_Conforming c t => COR_Conforming c (f t)
  | COR_NonConforming l c t => COR_NonConforming l c (f t)
  | COR_Absent t => COR_Absent (f t)
  | COR_Unobservable r t => COR_Unobservable r (f t)
  end.

Definition branch_protection_map_times (f : string -> string) (v : BranchProtectionResult)
    : BranchProtectionResult :=
  match v with
  | BPR_Protected b t => BPR_Protected b (f t)
  | BPR_Unprotected b g t => BPR_Unprotected b g (f t)
  | BPR_Unobservable b r h t => BPR_Unobservable b r h (f t)
  end.

Definition checks_map_times (f : string -> string) (c : RepositoryChecks) : RepositoryChecks :=
  mkRepositoryChecks (security_policy_map_times f (security_policy c))
    (SecretScanningResult_with_timestamp (f (SecretScanningResult_timestamp (secret_scanning c)))
       (secret_scanning c))
    (mkDependabotResult (dependabot_status (dependabot_security_updates c))
       (dependabot_reason (dependabot_security_updates c))
       (f (dependabot_timestamp (dependabot_security_updates c))))
    (branch_protection_map_times f (branch_protection c))
    (codeowners_map_times f (codeowners c)).

Definition last_commit_map_times (f : string -> string) (l : LastCommitInfo) : LastCommitInfo :=
  mkLastCommitInfo (committer_login l) (committer_name l) (option_map f (commit_date l)).

(** The evidence that stays: every timestamp in its canonical spelling, and
    the marker of the request cache dropped. *)
Definition stored_evidence (f : string -> string) (ev : RepositoryEvidence) : RepositoryEvidence :=
  mkRepositoryEvidence (repository_map_times f (repository ev)) (checks_map_times f (checks ev))
    (option_map (last_commit_map_times f) (last_commit ev)) false.

(** *** From the domain and back *)

Lemma to_es_Ok max field v s : to_es max field v = Ok s -> as_str s = v.
Proof.
  unfold to_es. destruct (check _ v) eqn:E; [|done]. intros [= <-]. by apply check_Some in E.
Qed.

Lemma to_nes_Ok max field v s : to_nes max field v = Ok s -> ne_str s = v.
Proof.
  unfold to_nes. destruct (check _ v) eqn:E; [|by destruct (is_empty v)].
  intros [= <-]. by apply check_Some in E.
Qed.

Lemma opt_transpose_Ok {A B} (f : A -> Conv B) (g : B -> A) o o' :
  (forall a b, f a = Ok b -> g b = a) -> opt_transpose f o = Ok o' -> option_map g o' = o.
Proof.
  intros H. destruct o as [a|]; simpl; [|by intros [= <-]].
  destruct (f a) as [b|] eqn:E; [|done]. intros [= <-]. simpl. by rewrite (H _ _ E).
Qed.

Lemma to_es_opt_Ok max field v s : to_es_opt max field v = Ok s -> option_map as_str s = v.
Proof. apply opt_transpose_Ok. intros a b. apply to_es_Ok. Qed.

Lemma collect_Ok {A B} (f : A -> Conv B) (g : B -> A) l l' :
  (forall a b, f a = Ok b -> g b = a) -> collect f l = Ok l' -> map g l' = l.
Proof.
  intros H. revert l'. induction l as [|a l IH]; intros l'; simpl; [by intros [= <-]|].
  destruct (f a) as [b|] eqn:E; [|done]. destruct (collect f l) as [bs|] eqn:El; [|done].
  intros [= <-]. simpl. by rewrite (H _ _ E) (IH bs eq_refl).
Qed.

Lemma bounded_vec_Ok {U} max field (l : list U) v :
  bounded_vec max field l = Ok v -> into_inner v = l.
Proof.
  unfold bounded_vec. destruct (check _ l) eqn:E; [|done]. intros [= <-]. by apply check_Some in E.
Qed.

Lemma to_event_vec_Ok {T U} max field (l : list T) (f : T -> Conv U) (g : U -> T) v :
  (forall a b, f a = Ok b -> g b = a) -> to_event_vec max field l f = Ok v ->
  map g (into_inner v) = l.
Proof.
  intros H. unfold to_event_vec. destruct (collect f l) as [us|] eqn:E; [|done].
  intros Hv%bounded_vec_Ok. rewrite Hv. by apply (collect_Ok f g).
Qed.

Lemma ts_required_Ok field v t :
  ts_required field v = Ok t -> PardosaLaws -> ts_to_string t = canonical_time v.
Proof.
  intros H ?. unfold ts_required, ts_to_string, canonical_time in *.
  destruct (parse_iso8601 parse_timestamp v) as [z|]; [|done]. simpl.
  destruct ((0 <=? z) && _)%Z eqn:E; [|done].
  destruct (Timestamp_new (Z.to_N z)) as [t'|] eqn:Et; [|done]. injection H as <-.
  apply Timestamp_new_nanos in Et. rewrite Et Z2N.id //. apply andb_prop in E. lia.
Qed.

Lemma ts_opt_Ok field v t :
  ts_opt field v = Ok t -> PardosaLaws -> ts_to_string_opt t = option_map canonical_time v.
Proof.
  intros H ?. unfold ts_opt in H. destruct v as [v|]; [|by injection H as <-].
  destruct (ts_required field v) as [t'|] eqn:E; [|done]. injection H as <-. simpl.
  by rewrite (ts_required_Ok _ _ _ E).
Qed.
Create HintDb conv.
#[local] Hint Resolve to_es_Ok to_nes_Ok to_es_opt_Ok bounded_vec_Ok ts_required_Ok ts_opt_Ok : conv.

Lemma repository_roundtrip r n :
  repository_try_from r = Ok n -> PardosaLaws ->
  repository_into n = repository_map_times canonical_time r.
Proof.
  intros H ?. unfold repository_try_from in H. conv_chain H. unfold repository_into; simpl.
  unfold repository_map_times. f_equal; eauto with conv.
  - destruct (updated_at r) as [u|]; simpl in *; [|by injection E5 as <-].
    destruct (to_nes _ _ u) as [s|] eqn:Eu; [|done]. injection E5 as <-. simpl.
    unfold UpdatedAt_new. rewrite ne_str_nonempty. f_equal. eauto with conv.
  - eapply to_event_vec_Ok; [|eassumption]. eauto with conv.
Qed.

Lemma security_policy_roundtrip v n :
  security_policy_try_from v = Ok n -> PardosaLaws ->
  security_policy_into n = security_policy_map_times canonical_time v.
Proof.
  intros H ?. unfold security_policy_try_from in H.
  destruct (ts_required _ _) as [t|] eqn:Et; [|done]. apply ts_required_Ok in Et; [|done].
  destruct v; simpl in *; try (injection H as <-; simpl; by rewrite Et).
  destruct (to_nes _ _ _) as [p|] eqn:Ep; [|done]. injection H as <-. simpl. rewrite Et.
  f_equal. unfold SecurityPolicyPath_new. rewrite ne_str_nonempty. simpl.
  rewrite (to_nes_Ok _ _ _ _ Ep). by destruct path.
Qed.

Lemma secret_scanning_roundtrip v n :
  secret_scanning_try_from v = Ok n -> PardosaLaws ->
  secret_scanning_into n =
    SecretScanningResult_with_timestamp (canonical_time (SecretScanningResult_timestamp v)) v.
Proof.
  intros H ?. unfold secret_scanning_try_from in H.
  destruct (ts_required _ _) as [t|] eqn:Et; [|done]. apply ts_required_Ok in Et; [|done].
  destruct v; injection H as <-; simpl in *; by rewrite Et.
Qed.

Lemma dependabot_roundtrip v n :
  dependabot_try_from v = Ok n -> PardosaLaws ->
  dependabot_into n =
    mkDependabotResult (dependabot_status v) (dependabot_reason v)
      (canonical_time (dependabot_timestamp v)).
Proof.
  intros H ?. unfold dependabot_try_from in H. conv_chain H. unfold dependabot_into; simpl.
  f_equal; eauto with conv.
Qed.

Lemma branch_protection_roundtrip v n :
  branch_protection_try_from v = Ok n -> PardosaLaws ->
  branch_protection_into n = branch_protection_map_times canonical_time v.
Proof.
  intros H ?. destruct v; simpl in H; conv_chain H; simpl; f_equal; eauto with conv.
Qed.

Lemma codeowners_entry_roundtrip v n :
  codeowners_entry_try_from v = Ok n -> codeowners_entry_into n = v.
Proof.
  intros H. unfold codeowners_entry_try_from in H. conv_chain H. destruct v.
  unfold codeowners_entry_into; simpl in *. f_equal; eauto with conv.
  eapply to_event_vec_Ok; [|eassumption]. eauto with conv.
Qed.

Lemma codeowners_content_roundtrip v n :
  codeowners_content_try_from v = Ok n -> codeowners_content_into n = v.
Proof.
  intros H. destruct v as [p| |]; simpl in H; [|by injection H as <-..].
  destruct (parsed_codeowners_try_from p) as [q|] eqn:E; [|done]. injection H as <-. simpl. f_equal.
  unfold parsed_codeowners_try_from in E. conv_chain E. destruct p.
  unfold parsed_codeowners_into; simpl in *. f_equal.
  - eapply to_event_vec_Ok; [|eassumption]. apply codeowners_entry_roundtrip.
  - eapply to_event_vec_Ok; [|eassumption]. eauto with conv.
Qed.

Lemma codeowners_roundtrip v n :
  codeowners_try_from v = Ok n -> PardosaLaws ->
  codeowners_into n = codeowners_map_times canonical_time v.
Proof.
  intros H ?. unfold codeowners_try_from in H.
  destruct (ts_required _ _) as [t|] eqn:Et; [|done]. apply ts_required_Ok in Et; [|done].
  destruct v as [content ts|location content ts|ts|reason ts]; simpl in *.
  1-2: destruct (codeowners_content_try_from content) as [c|] eqn:Ec; [|done]; injection H as <-;
    simpl; by rewrite Et (codeowners_content_roundtrip _ _ Ec).
  all: injection H as <-; simpl; by rewrite Et.
Qed.

Lemma last_commit_roundtrip v n :
  last_commit_try_from v = Ok n -> PardosaLaws ->
  last_commit_into n = last_commit_map_times canonical_time v.
Proof.
  intros H ?. unfold last_commit_try_from in H. conv_chain H.
  unfold last_commit_into, last_commit_map_times; simpl. f_equal; eauto with conv.
Qed.

Lemma evidence_roundtrip ev n :
  evidence_try_from ev = Ok n -> PardosaLaws ->
  evidence_into n = stored_evidence canonical_time ev.
Proof.
  intros H ?. unfold evidence_try_from in H. conv_chain H.
  unfold evidence_into, stored_evidence; simpl. f_equal.
  - by apply repository_roundtrip.
  - unfold checks_try_from in E0. conv_chain E0. unfold checks_into, checks_map_times; simpl.
    f_equal; eauto using security_policy_roundtrip, secret_scanning_roundtrip,
      dependabot_roundtrip, branch_protection_roundtrip, codeowners_roundtrip.
  - destruct (last_commit ev) as [l|]; simpl in *; [|by injection E1 as <-].
    destruct (last_commit_try_from l) as [l'|] eqn:El; [|done]. injection E1 as <-. simpl.
    f_equal. by apply last_commit_roundtrip.
Qed.
(** *** From an event and back *)

(** Nanoseconds that fit a [u64] print, and read back as themselves. *)
Definition JiffLaws : Prop := forall n, n <= u64_max ->
  exists s, jiff_string (Z.of_N n) = Some s /\ parse_iso8601 parse_timestamp s = Some (Z.of_N n).

Lemma to_es_into max field (s : EventString max) : to_es max field (as_str s) = Ok s.
Proof. unfold to_es, as_str. by rewrite check_unchecked. Qed.

Lemma to_nes_into max field (s : NonEmptyEventString max) : to_nes max field (ne_str s) = Ok s.
Proof. unfold to_nes, ne_str. by rewrite check_unchecked. Qed.

Lemma opt_transpose_into {A B} (f : A -> Conv B) (g : B -> A) o :
  (forall b, f (g b) = Ok b) -> opt_transpose f (option_map g o) = Ok o.
Proof. intros H. destruct o as [b|]; [|done]. simpl. by rewrite H. Qed.

Lemma to_es_opt_into max field (o : option (EventString max)) :
  to_es_opt max field (option_map as_str o) = Ok o.
Proof. apply opt_transpose_into. intros b. apply to_es_into. Qed.

Lemma collect_into {A B} (f : A -> Conv B) (g : B -> A) l :
  (forall b, f (g b) = Ok b) -> collect f (map g l) = Ok l.
Proof. intros H. induction l as [|b l IH]; [done|]. simpl. by rewrite H IH. Qed.

Lemma to_event_vec_into {T U} max field (v : EventVec U max) (f : T -> Conv U) (g : U -> T) :
  (forall b, f (g b) = Ok b) -> to_event_vec max field (map g (into_inner v)) f = Ok v.
Proof.
  intros H. unfold to_event_vec, bounded_vec, into_inner.
  by rewrite (collect_into f g _ H) check_unchecked.
Qed.

Section Back.
  Context (HP : PardosaLaws) (HJ : JiffLaws).

Lemma ts_required_into field t : ts_required field (ts_to_string t) = Ok t.
Proof.
  destruct (HJ (as_nanos t) (as_nanos_u64 t)) as (s & Hs & Hp).
  unfold ts_required, ts_to_string. rewrite Hs. change (default "" (Some s)) with s. rewrite Hp.
  assert ((Z.of_N (as_nanos t) <=? Z.of_N u64_max)%Z = true) as ->.
  { apply Z.leb_le. rewrite -N2Z.inj_le. apply as_nanos_u64. }
  rewrite (proj2 (Z.leb_le 0 _) (N2Z.is_nonneg _)) andb_true_l.
  by rewrite N2Z.id Timestamp_new_total.
Qed.

Lemma ts_opt_into field o : ts_opt field (ts_to_string_opt o) = Ok o.
Proof. destruct o as [t|]; [|done]. simpl. by rewrite ts_required_into. Qed.

Lemma updated_at_into field (u : option (NonEmptyEventString MAX_TIMESTAMP_TEXT)) :
  opt_transpose (to_nes MAX_TIMESTAMP_TEXT field) (u ≫= fun s => UpdatedAt_new (ne_str s)) = Ok u.
Proof.
  destruct u as [u|]; [|done]. simpl.
  unfold UpdatedAt_new. rewrite ne_str_nonempty. simpl. by rewrite to_nes_into.
Qed.

Lemma repository_into_total n : repository_try_from (repository_into n) = Ok n.
Proof.
  destruct n. unfold repository_try_from, repository_into; simpl.
  rewrite !to_nes_into !to_es_opt_into updated_at_into !ts_opt_into to_event_vec_into //.
  intros b. apply to_es_into.
Qed.

Lemma security_policy_into_total n : security_policy_try_from (security_policy_into n) = Ok n.
Proof.
  unfold security_policy_try_from. destruct n; simpl; rewrite ts_required_into //.
  unfold SecurityPolicyPath_new. rewrite ne_str_nonempty. simpl. by rewrite to_nes_into.
Qed.

Lemma secret_scanning_into_total n : secret_scanning_try_from (secret_scanning_into n) = Ok n.
Proof.
  unfold secret_scanning_try_from. destruct n; simpl; by rewrite ts_required_into.
Qed.

Lemma branch_protection_into_total n :
  branch_protection_try_from (branch_protection_into n) = Ok n.
Proof. destruct n; simpl; by rewrite to_nes_into ts_required_into. Qed.

Lemma codeowners_entry_into_total n : codeowners_entry_try_from (codeowners_entry_into n) = Ok n.
Proof.
  destruct n. unfold codeowners_entry_try_from; simpl.
  rewrite to_es_into to_event_vec_into //. intros b. apply to_es_into.
Qed.

Lemma codeowners_content_into_total n :
  codeowners_content_try_from (codeowners_content_into n) = Ok n.
Proof.
  destruct n as [[]| |]; [|done..]. simpl. unfold parsed_codeowners_try_from; simpl.
  rewrite (to_event_vec_into _ _ _ _ _ codeowners_entry_into_total) to_event_vec_into //.
  intros b. apply to_es_into.
Qed.

Lemma codeowners_into_total n : codeowners_try_from (codeowners_into n) = Ok n.
Proof.
  unfold codeowners_try_from.
  destruct n; simpl; rewrite ts_required_into ?codeowners_content_into_total //.
Qed.

Lemma evidence_into_total n : evidence_try_from (evidence_into n) = Ok n.
Proof.
  destruct n as [r [sp ss [ds dr dt] bp co] l].
  unfold evidence_try_from, checks_try_from, dependabot_try_from; simpl.
  rewrite repository_into_total security_policy_into_total secret_scanning_into_total
    to_es_opt_into ts_required_into branch_protection_into_total codeowners_into_total.
  rewrite (opt_transpose_into _ last_commit_into) //. intros [lg nm dt']. simpl.
  unfold last_commit_try_from; simpl. by rewrite !to_es_opt_into ts_opt_into.
Qed.
End Back.

(** C6: what goes into an event comes back out.  Evidence that converts reads
    back as itself, up to the spelling of its timestamps and the request
    cache's marker, and every stored evidence converts back to the same event,
    so that reading and storing again changes nothing. *)
Theorem evidence_conversion_roundtrip (HP : PardosaLaws) (HJ : JiffLaws) ev n :
  (evidence_try_from ev = Ok n -> evidence_into n = stored_evidence canonical_time ev) /\
  evidence_try_from (evidence_into n) = Ok n.
Proof. split; [by intros H; apply evidence_roundtrip|by apply evidence_into_total]. Qed.

(** The state and the reason of a result do not depend on its timestamp. *)
Lemma secret_status_timestamp t v :
  SecretScanningResult_status (SecretScanningResult_with_timestamp t v) =
    SecretScanningResult_status v /\
  SecretScanningResult_reason (SecretScanningResult_with_timestamp t v) =
    SecretScanningResult_reason v.
Proof. by destruct v. Qed.

Lemma observed_map_times f c :
  existsb (fun at_ => match at_ with Some _ => true | None => false end)
    (observed_check_timestamps (checks_map_times f c)) =
  existsb (fun at_ => match at_ with Some _ => true | None => false end)
    (observed_check_timestamps c).
Proof.
  destruct c as [sp ss [ds dr dt] bp co]. unfold observed_check_timestamps; simpl.
  rewrite (proj1 (secret_status_timestamp _ ss)). f_equal; [by destruct sp|].
  f_equal; [by destruct (bool_decide _)|]. f_equal; [by destruct ds|].
  f_equal; [by destruct bp|]. by destruct co.
Qed.

Lemma read_state_map_times f c :
  read_state_from_checks (checks_map_times f c) = read_state_from_checks c.
Proof.
  unfold read_state_from_checks. rewrite observed_map_times.
  destruct c as [sp ss [ds dr dt] bp co]; simpl.
  rewrite (proj2 (secret_status_timestamp _ ss)).
  by replace (is_pending (branch_protection_map_times f bp)) with (is_pending bp) by (by destruct bp).
Qed.

(** Storing evidence changes none of its verdicts: completeness, read
    state, the category of every check, the observed alerts and the identity
    of the repository. *)
Lemma conversion_keeps_verdicts (HP : PardosaLaws) ev n :
  evidence_try_from ev = Ok n ->
  let ev' := evidence_into n in
  is_complete ev' = is_complete ev /\
  read_state_from_checks (checks ev') = read_state_from_checks (checks ev) /\
  (let c' := checks ev' in let c := checks ev in
   ScoreCategory_of_policy (security_policy c') = ScoreCategory_of_policy (security_policy c) /\
   ScoreCategory_of_secret (secret_scanning c') = ScoreCategory_of_secret (secret_scanning c) /\
   dependabot_status (dependabot_security_updates c') =
     dependabot_status (dependabot_security_updates c) /\
   score_category (branch_protection c') = score_category (branch_protection c) /\
   ScoreCategory_of_codeowners (codeowners c') = ScoreCategory_of_codeowners (codeowners c)) /\
  has_open_alerts (secret_scanning (checks ev')) = has_open_alerts (secret_scanning (checks ev)) /\
  Repository_eqb (repository ev') (repository ev) = true.
Proof.
  intros H ev'. unfold ev'. rewrite (evidence_roundtrip ev n H HP). clear.
  destruct ev as [r [sp ss [ds dr dt] bp co] l m].
  split_and!.
  - destruct sp, ss, bp, co; done.
  - apply read_state_map_times.
  - by destruct sp.
  - by destruct ss.
  - done.
  - by destruct bp.
  - by destruct co.
  - by destruct ss.
  - apply Repository_eqb_spec. done.
Qed.
(** ** Organization snapshots *)

Lemma repo_entry_roundtrip kv e :
  repo_entry_try_from kv = Ok e ->
  (as_str (re_repository_id e), repo_alerts_into (re_summary e)) = kv.
Proof.
  intros H. unfold repo_entry_try_from in H. conv_chain H. simpl. destruct kv as [k [c o n]].
  unfold repo_alerts_try_from in E0. conv_chain E0. unfold repo_alerts_into; simpl in *.
  f_equal; [eauto with conv|]. f_equal; eauto with conv.
Qed.

Lemma bucket_entry_roundtrip kv e :
  bucket_entry_try_from kv = Ok e -> (as_str (se_key e), se_value e) = kv.
Proof.
  intros H. unfold bucket_entry_try_from in H. conv_chain H. simpl. destruct kv; simpl in *.
  f_equal; eauto with conv.
Qed.

(** A map that went through a sorted list of its entries is the same map. *)
Lemma sorted_entries_roundtrip {A E} (R : relation E) `{!RelDecision R} (f : string * A -> Conv E)
    (g : E -> string * A) (m : gmap string A) es l :
  (forall kv e, f kv = Ok e -> g e = kv) ->
  collect f (map_to_list m) = Ok es -> l = sort_by R es -> collect_map (map g l) = m.
Proof.
  intros Hf Hc ->. apply collect_map_Permutation.
  rewrite -(collect_Ok f g _ _ Hf Hc). by rewrite sort_by_Permutation.
Qed.

Lemma org_alerts_roundtrip v n : org_alerts_try_from v = Ok n -> org_alerts_into n = v.
Proof.
  intros H. unfold org_alerts_try_from in H. conv_chain H. unfold org_alerts_into; simpl.
  destruct v as [cs cr hs pr ab total oldest newest]; simpl in *. f_equal; eauto with conv.
  - eapply (sorted_entries_roundtrip repo_entry_le); eauto using repo_entry_roundtrip with conv.
  - eapply (sorted_entries_roundtrip bucket_entry_le); eauto using bucket_entry_roundtrip with conv.
Qed.

Lemma metadata_roundtrip v n : metadata_try_from v = Ok n -> metadata_into n = v.
Proof.
  intros H. unfold metadata_try_from in H. conv_chain H. unfold metadata_into; simpl.
  destruct v as [? ? ? ? ? ? ? ? ? ? ? ? cov]; simpl in *. f_equal; eauto with conv.
  - rewrite -(to_event_vec_Ok _ _ _ _ id _ _ E5) ?map_id //. by intros ? ? [= <-].
  - unfold coverage_try_from in E7. destruct cov as [|total limit]; [by injection E7 as <-|].
    destruct (total <=? u32_max); [by injection E7 as <-|done].
Qed.

(** An organization snapshot that converts to an event reads back exactly
    as it was, its maps included, and its event lists the repositories and the
    age buckets in the order of their keys, so that equal snapshots have equal
    events whatever the order of the maps. *)
Lemma org_conversion_roundtrip v n :
  org_try_from v = Ok n ->
  org_into n = v /\
  StronglySorted repo_entry_le (into_inner (no_per_repo (nos_alert_summary n))) /\
  StronglySorted bucket_entry_le (into_inner (no_age_buckets (nos_alert_summary n))).
Proof.
  intros H. unfold org_try_from in H. conv_chain H.
  unfold org_into; cbn [nos_archived_repos nos_assessment_metadata nos_alert_summary].
  rewrite (metadata_roundtrip _ _ E) (org_alerts_roundtrip _ _ E0). split; [by destruct v|].
  unfold org_alerts_try_from in E0. conv_chain E0. simpl.
  apply bounded_vec_Ok in E2 as ->. apply bounded_vec_Ok in E4 as ->.
  split; apply sort_by_sorted; apply _.
Qed.

(** ** What does not fit *)

(** The CODEOWNERS content of a result. *)
Definition result_content (r : CodeownersResult) : option CodeownersContent :=
  match r with COR_Conforming c _ | COR_NonConforming _ c _ => Some c | _ => None end.

(** Evidence whose CODEOWNERS file names more owners than the event holds
    cannot be stored at all: the parser does not bound the owners, the event
    does, so the whole evidence of such a repository is refused. *)
Lemma unstorable_codeowners ev parsed :
  result_content (codeowners (checks ev)) = Some (CC_Parsed parsed) ->
  vec_fits MAX_CODEOWNERS_OWNERS (N.of_nat (length (unique_owners parsed))) = false ->
  ok (evidence_try_from ev) = None.
Proof.
  intros Hc Hf. destruct (evidence_try_from ev) as [n|] eqn:H; [|done]. exfalso.
  unfold evidence_try_from in H. conv_chain H. unfold checks_try_from in E0. conv_chain E0.
  assert (exists p, parsed_codeowners_try_from parsed = Ok p) as [p Hp].
  { unfold codeowners_try_from in E6. destruct (ts_required _ _) as [t|]; [|done].
    destruct (codeowners (checks ev)) as [c ts|l c ts|ts|r ts]; simpl in Hc; try done;
      injection Hc as ->; simpl in E6;
      destruct (parsed_codeowners_try_from parsed) as [p|]; try done; by exists p. }
  unfold parsed_codeowners_try_from in Hp. conv_chain Hp.
  unfold to_event_vec in E7. destruct (collect _ (unique_owners parsed)) as [us|] eqn:Eu; [|done].
  unfold bounded_vec in E7. destruct (check _ us) as [v|] eqn:Ev; [|done].
  assert (is_Some (check (fun l : list _ => vec_fits MAX_CODEOWNERS_OWNERS (N.of_nat (length l))) us))
    as Hs%check_is_Some by (by eexists).
  rewrite -(collect_Ok _ as_str _ _ ltac:(eauto with conv) Eu) length_map in Hf. congruence.
Qed.
End Convert.

(** ** Bounded types and a clock for the examples *)

Definition plain_pardosa : Pardosa := {|
  string_fits max s := N.of_nat (String.length s) <=? max;
  vec_fits max n := n <=? max;
  Timestamp := checked (fun n => n <=? u64_max);
  Timestamp_new := check (fun n => n <=? u64_max);
  as_nanos := unchecked;
|}.
#[local] Existing Instance plain_pardosa.

#[export] Instance plain_pardosa_laws : PardosaLaws (H := plain_pardosa).
Proof.
  split; simpl.
  - intros n t H. by apply check_Some in H.
  - apply check_unchecked.
  - intros [n Hn]. by apply N.leb_le, Is_true_eq_true.
Qed.

(** Times in unary. *)
Definition plain_jiff (z : Z) : option string :=
  Some (Nat.iter (Z.to_nat z) (String "t"%char) EmptyString).
Definition plain_parse (s : string) : option Z := Some (Z.of_nat (String.length s)).

Lemma plain_jiff_laws : JiffLaws plain_parse plain_jiff.
Proof.
  intros n _. eexists. split; [done|].
  set (s := Nat.iter _ _ _). assert (strip_suffix "Z" s = None) as Hs.
  { assert (forall m acc, String.rev_app (Nat.iter m (String "t"%char) EmptyString) acc =
      Nat.iter m (String "t"%char) acc) as Hrev.
    { induction m as [|m IH]; intros acc; [done|]. simpl. rewrite IH -Nat.iter_succ_r //. }
    unfold strip_suffix. unfold String.rev. unfold s. rewrite Hrev. by destruct (Z.to_nat _). }
  unfold parse_iso8601. rewrite Hs. unfold plain_parse. f_equal. unfold s.
  assert (forall m, String.length (Nat.iter m (String "t"%char) EmptyString) = m) as ->.
  { induction m as [|m IH]; [done|]. simpl. by rewrite IH. }
  lia.
Qed.

(** The event of [sample_owned]. *)
Definition sample_native : option NativeRepositoryEvidence :=
  ok (evidence_try_from plain_parse (sample_owned "a" "@acme/core" false)).

Lemma evidence_conversion_roundtrip_witness :
  match sample_native with
  | Some n =>
    evidence_into plain_jiff n =
      stored_evidence (canonical_time plain_parse plain_jiff) (sample_owned "a" "@acme/core" false) /\
    evidence_try_from plain_parse (evidence_into plain_jiff n) = Ok n
  | None => False
  end.
Proof.
  assert (match sample_native with Some _ => true | None => false end = true) as Hs by (vm_compute; reflexivity).
  destruct sample_native as [n|] eqn:E; [|discriminate Hs].
  pose proof (evidence_conversion_roundtrip plain_parse plain_jiff plain_pardosa_laws
    plain_jiff_laws (sample_owned "a" "@acme/core" false) n) as [H1 H2].
  split; [|exact H2]. apply H1. unfold sample_native in E.
  destruct (evidence_try_from plain_parse (sample_owned "a" "@acme/core" false)) as [m|x];
    [injection E as ->; reflexivity|discriminate].
Defined.

Lemma conversion_keeps_verdicts_witness :
  match sample_native with
  | Some n => is_complete (evidence_into plain_jiff n) = false
  | None => False
  end.
Proof.
  assert (match sample_native with Some _ => true | None => false end = true) as Hs by (vm_compute; reflexivity).
  destruct sample_native as [n|] eqn:E; [|discriminate Hs].
  unfold sample_native in E.
  destruct (evidence_try_from plain_parse (sample_owned "a" "@acme/core" false)) as [m|x] eqn:Em;
    [injection E as ->|discriminate].
  pose proof (conversion_keeps_verdicts plain_parse plain_jiff plain_pardosa_laws
    (sample_owned "a" "@acme/core" false) n Em) as (H & _).
  transitivity (is_complete (sample_owned "a" "@acme/core" false)); [exact H|reflexivity].
Defined.

Definition sample_snapshot : OrgStateSnapshot :=
  mkOrgStateSnapshot 1
    (mkAssessmentMetadata "d" "acme" "25.0" "t" "id" TT_Full "repo" AM_Pat 0
       [Cap_OrgSecretScanningAlerts] None false (CoverageKnown 10 5))
    (mkOrgAlertSummary CS_Success None (Some 200)
       (list_to_map [("2", mkRepoAlertSummary 3 None None); ("1", RepoAlertSummary_default)])
       empty_age_buckets 3 (Some "t") None).

Definition per_repo_keys (n : NativeOrgStateCaptured) : list string :=
  map (fun e => as_str (re_repository_id e)) (into_inner (no_per_repo (nos_alert_summary n))).

Lemma org_conversion_roundtrip_witness :
  match org_try_from sample_snapshot with
  | Ok n => org_into n = sample_snapshot /\ per_repo_keys n = ["1"; "2"]
  | Err _ => False
  end.
Proof.
  assert (result_map per_repo_keys (org_try_from sample_snapshot) = Ok ["1"; "2"]) as Hs
    by (vm_compute; reflexivity).
  destruct (org_try_from sample_snapshot) as [n|x] eqn:E; [|discriminate Hs].
  split; [exact (proj1 (org_conversion_roundtrip _ _ E))|]. injection Hs as Hs. exact Hs.
Defined.

(** A file of 257 owners. *)
Definition many_owners : ParsedCodeowners :=
  mkParsedCodeowners [] (map (fun n => pretty n) (List.seq 0 257)) 0.
Definition sample_many_owners : RepositoryEvidence :=
  mkRepositoryEvidence (repository (sample_owned "a" "" false))
    (mkRepositoryChecks (SPR_Absent "t") (SecretScanningResult_unobservable SF_Pending "t")
       (mkDependabotResult DS_Unknown None "t") (BPR_Unobservable "main" IR_Pending None "t")
       (COR_Conforming (CC_Parsed many_owners) "t")) None false.

Lemma unstorable_codeowners_witness :
  ok (evidence_try_from plain_parse sample_many_owners) = None.
Proof. apply (unstorable_codeowners plain_parse sample_many_owners many_owners); reflexivity. Defined.
