(* ===== verification/Codec.v ===== *)
(** * The wire form of events ([event/mod.rs])

    The encoders and decoders the macros and the manual implementations of
    [PardosaType] give: a struct is its fields in order, an enumeration one
    byte, a tagged union a byte and its fields.  The codecs of pardosa's own
    types are a class, with the law that they read back what they wrote.
    The descriptors of these forms are in [Schema]. *)

From S2P Require Import Prelude Str Repository Checks Evidence Metrics Run Events Convert.

Open Scope N_scope.

Inductive DecodeError :=
| DE_TruncatedPayload (expected available : N)
| DE_UnknownVariantDiscriminant (discriminant : N)
| DE_Other.

(** [PardosaType]: appending to a buffer; reading from a buffer, with the
    number of bytes read.  [valid] says which model values the Rust type holds. *)
Record Codec (EncodeError A : Type) := mkCodec {
  encode_type : A -> list N -> result EncodeError (list N);
  decode_type : list N -> result DecodeError (A * nat);
  valid : A -> Prop;
}.
Arguments mkCodec {EncodeError A}.
Arguments encode_type {EncodeError A}.
Arguments decode_type {EncodeError A}.
Arguments valid {EncodeError A}.

(** What was written reads back, whatever follows it. *)
Definition codec_ok {EncodeError A} (c : Codec EncodeError A) : Prop :=
  forall a buf out, valid c a -> encode_type c a buf = Ok out ->
    exists bs, out = buf ++ bs /\
      forall rest, decode_type c (bs ++ rest) = Ok (a, length bs).

(** The codecs of pardosa. *)
Class PardosaCodecs `{!Pardosa} (EncodeError : Type) := {
  u8_decode : list N -> result DecodeError (N * nat);
  u16_codec : Codec EncodeError N;
  u32_codec : Codec EncodeError N;
  u64_codec : Codec EncodeError N;
  bool_codec : Codec EncodeError bool;
  timestamp_codec : Codec EncodeError Timestamp;
  string_codec max : Codec EncodeError (EventString max);
  nonempty_codec max : Codec EncodeError (NonEmptyEventString max);
  uuid_codec : Codec EncodeError N;
  option_codec {A} : Codec EncodeError A -> Codec EncodeError (option A);
  vec_codec {A} : forall max, Codec EncodeError A -> Codec EncodeError (EventVec A max);
}.

Class PardosaCodecLaws `{!Pardosa} EncodeError `{!PardosaCodecs EncodeError} : Prop := {
  u8_decode_ok b rest : u8_decode (b :: rest) = Ok (b, 1%nat);
  u16_ok : codec_ok u16_codec;
  u32_ok : codec_ok u32_codec;
  u64_ok : codec_ok u64_codec;
  bool_ok : codec_ok bool_codec;
  timestamp_ok : codec_ok timestamp_codec;
  string_ok max : codec_ok (string_codec max);
  nonempty_ok max : codec_ok (nonempty_codec max);
  uuid_ok : codec_ok uuid_codec;
  option_ok {A} (c : Codec EncodeError A) : codec_ok c -> codec_ok (option_codec c);
  vec_ok {A} max (c : Codec EncodeError A) : codec_ok c -> codec_ok (vec_codec max c);
}.

Section Combinators.
  Context {EncodeError : Type}.
  Notation Codec := (Codec EncodeError).

(** ** [impl_pardosa_enum]: one byte *)

Fixpoint wire_of {A} `{EqDecision A} (table : list (A * N)) (a : A) : N :=
  match table with
  | [] => 0
  | (b, n) :: table => if decide (a = b) then n else wire_of table a
  end.

Fixpoint of_wire {A} (table : list (A * N)) (n : N) : option A :=
  match table with
  | [] => None
  | (a, m) :: table => if n =? m then Some a else of_wire table n
  end.

Definition enum_codec {A} `{EqDecision A} (table : list (A * N)) : Codec A := {|
  encode_type a buf := Ok (buf ++ [wire_of table a]);
  decode_type buf :=
    match buf with
    | [] => Err (DE_TruncatedPayload 1 0)
    | b :: _ =>
      match of_wire table b with
      | Some a => Ok (a, 1%nat)
      | None => Err (DE_UnknownVariantDiscriminant b)
      end
    end;
  valid _ := True;
|}.

(** ** [impl_pardosa_struct]: the fields in order *)

Definition pair_codec {A B} (ca : Codec A) (cb : Codec B) : Codec (A * B) := {|
  encode_type ab buf :=
    let? buf := encode_type ca (fst ab) buf in encode_type cb (snd ab) buf;
  decode_type buf :=
    let? ra := decode_type ca buf in
    let cursor := snd ra in
    let? rb := decode_type cb (drop cursor buf) in
    Ok ((fst ra, fst rb), (cursor + snd rb)%nat);
  valid ab := valid ca (fst ab) /\ valid cb (snd ab);
|}.

Definition map_codec {A B} (into : B -> A) (from : A -> B) (c : Codec A) : Codec B := {|
  encode_type b buf := encode_type c (into b) buf;
  decode_type buf := let? r := decode_type c buf in Ok (from (fst r), snd r);
  valid b := valid c (into b);
|}.

(** ** The fields of a variant, after its tag *)

Definition encode_variant {A} (tag : N) (c : Codec A) (a : A) (buf : list N)
    : result EncodeError (list N) :=
  encode_type c a (buf ++ [tag]).

Definition decode_variant {A B} (k : A -> B) (c : Codec A) (buf : list N) (cursor : nat)
    : result DecodeError (B * nat) :=
  let? r := decode_type c (drop cursor buf) in Ok (k (fst r), (cursor + snd r)%nat).

(** No fields. *)
Definition unit_codec : Codec () := {|
  encode_type _ buf := Ok buf;
  decode_type _ := Ok ((), 0%nat);
  valid _ := True;
|}.

(** ** Lemmas *)

Lemma enum_ok {A} `{EqDecision A} (table : list (A * N)) :
  (forall a, of_wire table (wire_of table a) = Some a) -> codec_ok (enum_codec table).
Proof.
  intros H a buf out _ [= <-]. eexists. split; [done|]. intros rest. simpl. by rewrite H.
Qed.

Lemma unit_ok : codec_ok unit_codec.
Proof. intros [] buf out _ [= <-]. exists []. by rewrite app_nil_r. Qed.

Lemma pair_ok {A B} (ca : Codec A) (cb : Codec B) :
  codec_ok ca -> codec_ok cb -> codec_ok (pair_codec ca cb).
Proof.
  intros Ha Hb [a b] buf out [Va Vb]; simpl in *.
  destruct (encode_type ca a buf) as [buf1|] eqn:E1; [|done]. intros E2.
  destruct (Ha _ _ _ Va E1) as (bs1 & -> & D1). destruct (Hb _ _ _ Vb E2) as (bs2 & -> & D2).
  exists (bs1 ++ bs2). split; [by rewrite app_assoc|]. intros rest.
  rewrite -app_assoc D1; simpl. by rewrite drop_app_length D2 length_app.
Qed.

Lemma map_ok {A B} (into : B -> A) (from : A -> B) (c : Codec A) :
  (forall b, from (into b) = b) -> codec_ok c -> codec_ok (map_codec into from c).
Proof.
  intros Hf Hc b buf out Hv He. destruct (Hc _ _ _ Hv He) as (bs & -> & D).
  exists bs. split; [done|]. intros rest. simpl. rewrite D; simpl. by rewrite Hf.
Qed.

(** A tag and its fields read back, given that the tag selects the variant. *)
Lemma variant_ok {A B} (k : A -> B) (tag : N) (c : Codec A) (a : A) (v : B) buf out
    (dec : list N -> result DecodeError (B * nat)) :
  encode_variant tag c a buf = Ok out ->
  (forall rest, dec (tag :: rest) = decode_variant k c (tag :: rest) 1) ->
  codec_ok c -> valid c a -> k a = v ->
  exists bs, out = buf ++ bs /\ forall rest, dec (bs ++ rest) = Ok (v, length bs).
Proof.
  intros He Hd Hc Hv <-. destruct (Hc _ _ _ Hv He) as (bs & -> & D).
  exists (tag :: bs). split; [by rewrite -app_assoc|]. intros rest.
  rewrite -app_comm_cons Hd. unfold decode_variant. cbn [drop]. by rewrite D.
Qed.
End Combinators.
Arguments encode_variant : simpl never.
Arguments decode_variant : simpl never.

Declare Scope codec_scope.
Notation "c ⊗ d" := (pair_codec c d) (at level 45, right associativity) : codec_scope.
#[local] Open Scope codec_scope.

Create HintDb codec.

(** ** Enumerations *)

Definition Visibility_wire : list (Visibility * N) := [(Public, 0); (Internal, 1); (Private, 2)].
Definition IndeterminateReason_wire : list (IndeterminateReason * N) :=
  [(IR_PermissionDenied, 0); (IR_PermissionSuspected, 1); (IR_Transient, 2);
   (IR_RateLimited, 3); (IR_Invalid, 4); (IR_Pending, 5)].
Definition SecretScanningFailureReason_wire : list (SecretScanningFailureReason * N) :=
  [(SF_PermissionDenied, 0); (SF_PermissionSuspected, 1); (SF_RateLimited, 2); (SF_Transient, 3);
   (SF_Unavailable, 4); (SF_InsufficientEvidence, 5); (SF_Conflict, 6); (SF_Invalid, 7);
   (SF_Pending, 8)].
Definition ProbeSource_wire : list (ProbeSource * N) :=
  [(PS_OrgSummary, 0); (PS_PerRepoEndpoint, 1)].
Definition DependabotStatus_wire : list (DependabotStatus * N) :=
  [(DS_Enabled, 0); (DS_Paused, 1); (DS_Disabled, 2); (DS_Unknown, 3)].
Definition CodeownersTruncationReason_wire : list (CodeownersTruncationReason * N) :=
  [(TR_NotBase64Encoded, 0); (TR_OversizedBase64, 1); (TR_ContentMissing, 2);
   (TR_DecodeFailed, 3); (TR_InvalidUtf8, 4)].
Definition CodeownersNonConformingLocation_wire : list (CodeownersNonConformingLocation * N) :=
  [(CL_Root, 0); (CL_Docs, 1)].
Definition TokenTier_wire : list (TokenTier * N) := [(TT_Full, 0); (TT_Limited, 1); (TT_Unknown, 2)].
Definition Capability_wire : list (Capability * N) :=
  [(Cap_OrgSecretScanningAlerts, 0); (Cap_PrivateBranchProtectionRead, 1)].
Definition AuthMode_wire : list (AuthMode * N) :=
  [(AM_Pat, 0); (AM_GitHubApp, 1); (AM_GhCliFallback, 2); (AM_Unknown, 3)].
Definition CollectionStatus_wire : list (CollectionStatus * N) :=
  [(CS_Success, 0); (CS_NotCollected, 1); (CS_PermissionDenied, 2); (CS_TransientError, 3);
   (CS_Unavailable, 4)].
Definition TeamMemberRole_wire : list (TeamMemberRole * N) :=
  [(Maintainer, 0); (Member, 1); (RoleUnknown, 2)].
Definition TeamRosterStatus_wire : list (TeamRosterStatus * N) :=
  [(TRS_Complete, 0); (TRS_Deleted, 1); (TRS_PermissionDenied, 2); (TRS_TransientError, 3)].
#[export] Instance OrgMembershipFetchStatus_eq_dec : EqDecision OrgMembershipFetchStatus.
Proof. solve_decision. Defined.
Definition OrgMembershipFetchStatus_wire : list (OrgMembershipFetchStatus * N) :=
  [(Fetched, 0); (Degraded, 1)].

Section Codecs.
  Context {P : Pardosa} {EncodeError : Type} {PC : PardosaCodecs EncodeError}.
  Notation Codec := (Codec EncodeError).

(** A tag that names no variant. *)
Definition unknown_variant {A} (tag : N) : result DecodeError (A * nat) :=
  Err (DE_UnknownVariantDiscriminant tag).

(** [Option<u16>], the status fields. *)
Definition http_codec : Codec (option N) := option_codec u16_codec.
Definition reason_codec : Codec SecretScanningFailureReason :=
  enum_codec SecretScanningFailureReason_wire.
Definition source_codec : Codec ProbeSource := enum_codec ProbeSource_wire.
Definition indeterminate_codec : Codec IndeterminateReason := enum_codec IndeterminateReason_wire.
Definition timestamp : Codec Timestamp := timestamp_codec.

Definition no_fields : Codec () := unit_codec.

(** ** [native_secret_enum]: tagged unions *)

Definition MetadataUnavailable_codec : Codec MetadataUnavailable := {|
  encode_type v buf :=
    match v with
    | MU_Missing h => encode_variant 0 http_codec h buf
    | MU_Malformed h => encode_variant 1 http_codec h buf
    | MU_Failure r h => encode_variant 2 (reason_codec ⊗ http_codec) (r, h) buf
    end;
  decode_type buf :=
    let? t := u8_decode buf in
    match fst t with
    | 0 => decode_variant MU_Missing http_codec buf (snd t)
    | 1 => decode_variant MU_Malformed http_codec buf (snd t)
    | 2 => decode_variant (uncurry MU_Failure) (reason_codec ⊗ http_codec) buf (snd t)
    | other => unknown_variant other
    end;
  valid v :=
    match v with
    | MU_Missing h | MU_Malformed h => valid http_codec h
    | MU_Failure r h => valid (reason_codec ⊗ http_codec) (r, h)
    end;
|}.

Definition SecretScanningAlerts_codec : Codec SecretScanningAlerts := {|
  encode_type v buf :=
    match v with
    | SA_Observable s b h =>
      encode_variant 0 (source_codec ⊗ bool_codec ⊗ http_codec) (s, (b, h)) buf
    | SA_Unobservable s r h =>
      encode_variant 1 (source_codec ⊗ reason_codec ⊗ http_codec) (s, (r, h)) buf
    end;
  decode_type buf :=
    let? t := u8_decode buf in
    match fst t with
    | 0 => decode_variant (fun x => SA_Observable x.1 x.2.1 x.2.2)
             (source_codec ⊗ bool_codec ⊗ http_codec) buf (snd t)
    | 1 => decode_variant (fun x => SA_Unobservable x.1 x.2.1 x.2.2)
             (source_codec ⊗ reason_codec ⊗ http_codec) buf (snd t)
    | other => unknown_variant other
    end;
  valid v :=
    match v with
    | SA_Observable s b h => valid (source_codec ⊗ bool_codec ⊗ http_codec) (s, (b, h))
    | SA_Unobservable s r h => valid (source_codec ⊗ reason_codec ⊗ http_codec) (s, (r, h))
    end;
|}.

Definition EnabledProvenance_codec : Codec EnabledProvenance := {|
  encode_type v buf :=
    match v with
    | EP_Metadata h a => encode_variant 0 (http_codec ⊗ SecretScanningAlerts_codec) (h, a) buf
    | EP_Fallback m b h =>
      encode_variant 1 (MetadataUnavailable_codec ⊗ bool_codec ⊗ http_codec) (m, (b, h)) buf
    end;
  decode_type buf :=
    let? t := u8_decode buf in
    match fst t with
    | 0 => decode_variant (uncurry EP_Metadata) (http_codec ⊗ SecretScanningAlerts_codec) buf
             (snd t)
    | 1 => decode_variant (fun x => EP_Fallback x.1 x.2.1 x.2.2)
             (MetadataUnavailable_codec ⊗ bool_codec ⊗ http_codec) buf (snd t)
    | other => unknown_variant other
    end;
  valid v :=
    match v with
    | EP_Metadata h a => valid (http_codec ⊗ SecretScanningAlerts_codec) (h, a)
    | EP_Fallback m b h => valid (MetadataUnavailable_codec ⊗ bool_codec ⊗ http_codec) (m, (b, h))
    end;
|}.

Definition DisabledObservation_codec : Codec DisabledObservation := {|
  encode_type v buf :=
    match v with
    | DO_NoMismatch s h => encode_variant 0 (source_codec ⊗ http_codec) (s, h) buf
    | DO_StatusMismatch s h => encode_variant 1 (source_codec ⊗ http_codec) (s, h) buf
    | DO_ProbeFailed s r h =>
      encode_variant 2 (source_codec ⊗ reason_codec ⊗ http_codec) (s, (r, h)) buf
    end;
  decode_type buf :=
    let? t := u8_decode buf in
    match fst t with
    | 0 => decode_variant (uncurry DO_NoMismatch) (source_codec ⊗ http_codec) buf (snd t)
    | 1 => decode_variant (uncurry DO_StatusMismatch) (source_codec ⊗ http_codec) buf (snd t)
    | 2 => decode_variant (fun x => DO_ProbeFailed x.1 x.2.1 x.2.2)
             (source_codec ⊗ reason_codec ⊗ http_codec) buf (snd t)
    | other => unknown_variant other
    end;
  valid v :=
    match v with
    | DO_NoMismatch s h | DO_StatusMismatch s h => valid (source_codec ⊗ http_codec) (s, h)
    | DO_ProbeFailed s r h => valid (source_codec ⊗ reason_codec ⊗ http_codec) (s, (r, h))
    end;
|}.

Definition UnobservableProbe_codec : Codec UnobservableProbe := {|
  encode_type v buf :=
    match v with
    | UP_Failed s r h =>
      encode_variant 0 (source_codec ⊗ reason_codec ⊗ http_codec) (s, (r, h)) buf
    | UP_OrgSummaryObserved b h => encode_variant 1 (bool_codec ⊗ http_codec) (b, h) buf
    end;
  decode_type buf :=
    let? t := u8_decode buf in
    match fst t with
    | 0 => decode_variant (fun x => UP_Failed x.1 x.2.1 x.2.2)
             (source_codec ⊗ reason_codec ⊗ http_codec) buf (snd t)
    | 1 => decode_variant (uncurry UP_OrgSummaryObserved) (bool_codec ⊗ http_codec) buf (snd t)
    | other => unknown_variant other
    end;
  valid v :=
    match v with
    | UP_Failed s r h => valid (source_codec ⊗ reason_codec ⊗ http_codec) (s, (r, h))
    | UP_OrgSummaryObserved b h => valid (bool_codec ⊗ http_codec) (b, h)
    end;
|}.

Definition SecretScanningResult_codec : Codec NativeSecretScanningResult := {|
  encode_type v buf :=
    match v with
    | NSS_Enabled p t => encode_variant 0 (EnabledProvenance_codec ⊗ timestamp) (p, t) buf
    | NSS_Disabled h o t =>
      encode_variant 1 (http_codec ⊗ DisabledObservation_codec ⊗ timestamp) (h, (o, t)) buf
    | NSS_Unobservable m p t =>
      encode_variant 2 (MetadataUnavailable_codec ⊗ UnobservableProbe_codec ⊗ timestamp)
        (m, (p, t)) buf
    end;
  decode_type buf :=
    let? t := u8_decode buf in
    match fst t with
    | 0 => decode_variant (uncurry NSS_Enabled) (EnabledProvenance_codec ⊗ timestamp) buf (snd t)
    | 1 => decode_variant (fun x => NSS_Disabled x.1 x.2.1 x.2.2)
             (http_codec ⊗ DisabledObservation_codec ⊗ timestamp) buf (snd t)
    | 2 => decode_variant (fun x => NSS_Unobservable x.1 x.2.1 x.2.2)
             (MetadataUnavailable_codec ⊗ UnobservableProbe_codec ⊗ timestamp) buf (snd t)
    | other => unknown_variant other
    end;
  valid v :=
    match v with
    | NSS_Enabled p t => valid (EnabledProvenance_codec ⊗ timestamp) (p, t)
    | NSS_Disabled h o t =>
      valid (http_codec ⊗ DisabledObservation_codec ⊗ timestamp) (h, (o, t))
    | NSS_Unobservable m p t =>
      valid (MetadataUnavailable_codec ⊗ UnobservableProbe_codec ⊗ timestamp) (m, (p, t))
    end;
|}.

Definition HistoryProtectionGap_codec : Codec HistoryProtectionGap := {|
  encode_type v buf :=
    match v with
    | HG_Absent c h => encode_variant 0 (bool_codec ⊗ http_codec) (c, h) buf
    | HG_NeitherBlocked => encode_variant 1 no_fields () buf
    | HG_ForcePushAllowed => encode_variant 2 no_fields () buf
    | HG_DeletionAllowed => encode_variant 3 no_fields () buf
    end;
  decode_type buf :=
    let? t := u8_decode buf in
    match fst t with
    | 0 => decode_variant (uncurry HG_Absent) (bool_codec ⊗ http_codec) buf (snd t)
    | 1 => decode_variant (fun _ => HG_NeitherBlocked) no_fields buf (snd t)
    | 2 => decode_variant (fun _ => HG_ForcePushAllowed) no_fields buf (snd t)
    | 3 => decode_variant (fun _ => HG_DeletionAllowed) no_fields buf (snd t)
    | other => unknown_variant other
    end;
  valid v :=
    match v with HG_Absent c h => valid (bool_codec ⊗ http_codec) (c, h) | _ => True end;
|}.

Definition branch_codec : Codec (NonEmptyEventString MAX_BRANCH_NAME) :=
  nonempty_codec MAX_BRANCH_NAME.

Definition BranchProtectionResult_codec : Codec NativeBranchProtectionResult := {|
  encode_type v buf :=
    match v with
    | NBP_Protected b t => encode_variant 0 (branch_codec ⊗ timestamp) (b, t) buf
    | NBP_Unprotected b g t =>
      encode_variant 1 (branch_codec ⊗ HistoryProtectionGap_codec ⊗ timestamp) (b, (g, t)) buf
    | NBP_Unobservable b r h t =>
      encode_variant 2 (branch_codec ⊗ indeterminate_codec ⊗ http_codec ⊗ timestamp)
        (b, (r, (h, t))) buf
    end;
  decode_type buf :=
    let? t := u8_decode buf in
    match fst t with
    | 0 => decode_variant (uncurry NBP_Protected) (branch_codec ⊗ timestamp) buf (snd t)
    | 1 => decode_variant (fun x => NBP_Unprotected x.1 x.2.1 x.2.2)
             (branch_codec ⊗ HistoryProtectionGap_codec ⊗ timestamp) buf (snd t)
    | 2 => decode_variant (fun x => NBP_Unobservable x.1 x.2.1 x.2.2.1 x.2.2.2)
             (branch_codec ⊗ indeterminate_codec ⊗ http_codec ⊗ timestamp) buf (snd t)
    | other => unknown_variant other
    end;
  valid v :=
    match v with
    | NBP_Protected b t => valid (branch_codec ⊗ timestamp) (b, t)
    | NBP_Unprotected b g t =>
      valid (branch_codec ⊗ HistoryProtectionGap_codec ⊗ timestamp) (b, (g, t))
    | NBP_Unobservable b r h t =>
      valid (branch_codec ⊗ indeterminate_codec ⊗ http_codec ⊗ timestamp) (b, (r, (h, t)))
    end;
|}.

Definition path_codec : Codec (NonEmptyEventString MAX_PATH) := nonempty_codec MAX_PATH.

(** [PardosaType for SecurityPolicyResult]. *)
Definition SecurityPolicyResult_codec : Codec NativeSecurityPolicyResult := {|
  encode_type v buf :=
    match v with
    | NSP_EnabledBySetting t => encode_variant 0 timestamp t buf
    | NSP_EnabledByFile p t => encode_variant 1 (path_codec ⊗ timestamp) (p, t) buf
    | NSP_Absent t => encode_variant 2 timestamp t buf
    | NSP_Unobservable r t => encode_variant 3 (indeterminate_codec ⊗ timestamp) (r, t) buf
    | NSP_NotApplicable t => encode_variant 4 timestamp t buf
    end;
  decode_type buf :=
    let? t := u8_decode buf in
    match fst t with
    | 0 => decode_variant NSP_EnabledBySetting timestamp buf (snd t)
    | 2 => decode_variant NSP_Absent timestamp buf (snd t)
    | 4 => decode_variant NSP_NotApplicable timestamp buf (snd t)
    | 1 => decode_variant (uncurry NSP_EnabledByFile) (path_codec ⊗ timestamp) buf (snd t)
    | 3 => decode_variant (uncurry NSP_Unobservable) (indeterminate_codec ⊗ timestamp) buf (snd t)
    | other => unknown_variant other
    end;
  valid v :=
    match v with
    | NSP_EnabledBySetting t | NSP_Absent t | NSP_NotApplicable t => valid timestamp t
    | NSP_EnabledByFile p t => valid (path_codec ⊗ timestamp) (p, t)
    | NSP_Unobservable r t => valid (indeterminate_codec ⊗ timestamp) (r, t)
    end;
|}.

(** ** CODEOWNERS *)

Definition owners_codec : Codec (EventVec (EventString MAX_CODEOWNERS_OWNER) MAX_CODEOWNERS_OWNERS) :=
  vec_codec MAX_CODEOWNERS_OWNERS (string_codec MAX_CODEOWNERS_OWNER).

Definition CodeownersEntry_codec : Codec NativeCodeownersEntry :=
  map_codec (fun e => (nce_pattern e, nce_owners e)) (uncurry mkNativeCodeownersEntry)
    (string_codec MAX_CODEOWNERS_PATTERN ⊗ owners_codec).

Definition ParsedCodeowners_codec : Codec NativeParsedCodeowners :=
  map_codec (fun p => (npc_entries p, (npc_unique_owners p, npc_skipped_lines p)))
    (fun '(entries, (unique_owners, skipped_lines)) =>
       mkNativeParsedCodeowners entries unique_owners skipped_lines)
    (vec_codec MAX_CODEOWNERS_ENTRIES CodeownersEntry_codec ⊗ owners_codec ⊗ u32_codec).

Definition truncation_codec : Codec CodeownersTruncationReason :=
  enum_codec CodeownersTruncationReason_wire.
Definition location_codec : Codec CodeownersNonConformingLocation :=
  enum_codec CodeownersNonConformingLocation_wire.

Definition CodeownersContent_codec : Codec NativeCodeownersContent := {|
  encode_type v buf :=
    match v with
    | NCC_Parsed p => encode_variant 0 ParsedCodeowners_codec p buf
    | NCC_Truncated r => encode_variant 1 truncation_codec r buf
    | NCC_Unparsed => encode_variant 2 no_fields () buf
    end;
  decode_type buf :=
    let? t := u8_decode buf in
    match fst t with
    | 0 => decode_variant NCC_Parsed ParsedCodeowners_codec buf 1
    | 1 => decode_variant NCC_Truncated truncation_codec buf 1
    | 2 => decode_variant (fun _ => NCC_Unparsed) no_fields buf 1
    | other => unknown_variant other
    end;
  valid v :=
    match v with
    | NCC_Parsed p => valid ParsedCodeowners_codec p
    | NCC_Truncated _ | NCC_Unparsed => True
    end;
|}.

(** Of tags 0 and 1, the latter alone reads a location first. *)
Definition CodeownersResult_codec : Codec NativeCodeownersResult := {|
  encode_type v buf :=
    match v with
    | NCO_Conforming c t => encode_variant 0 (CodeownersContent_codec ⊗ timestamp) (c, t) buf
    | NCO_NonConforming l c t =>
      encode_variant 1 (location_codec ⊗ CodeownersContent_codec ⊗ timestamp) (l, (c, t)) buf
    | NCO_Absent t => encode_variant 2 timestamp t buf
    | NCO_Unobservable r t => encode_variant 3 (indeterminate_codec ⊗ timestamp) (r, t) buf
    end;
  decode_type buf :=
    let? t := u8_decode buf in
    match fst t with
    | 0 => decode_variant (uncurry NCO_Conforming) (CodeownersContent_codec ⊗ timestamp) buf (snd t)
    | 1 => decode_variant (fun x => NCO_NonConforming x.1 x.2.1 x.2.2)
             (location_codec ⊗ CodeownersContent_codec ⊗ timestamp) buf (snd t)
    | 2 => decode_variant NCO_Absent timestamp buf (snd t)
    | 3 => decode_variant (uncurry NCO_Unobservable) (indeterminate_codec ⊗ timestamp) buf (snd t)
    | other => unknown_variant other
    end;
  valid v :=
    match v with
    | NCO_Conforming c t => valid (CodeownersContent_codec ⊗ timestamp) (c, t)
    | NCO_NonConforming l c t =>
      valid (location_codec ⊗ CodeownersContent_codec ⊗ timestamp) (l, (c, t))
    | NCO_Absent t => valid timestamp t
    | NCO_Unobservable r t => valid (indeterminate_codec ⊗ timestamp) (r, t)
    end;
|}.

(** ** Repositories *)

Definition Repository_codec : Codec NativeRepository :=
  map_codec
    (fun r => (nr_id r, (nr_node_id r, (nr_name r, (nr_visibility r, (nr_language r,
              (nr_default_branch r, (nr_archived r, (nr_inventory_key r, (nr_updated_at r,
              (nr_has_issues r, (nr_pushed_at r, (nr_created_at r, (nr_description r,
              (nr_fork r, (nr_is_empty r, (nr_html_url r, (nr_topics r,
              nr_license_spdx r))))))))))))))))))
    (fun '(id, (node_id, (name, (visibility, (language, (default_branch, (archived,
           (inventory_key, (updated_at, (has_issues, (pushed_at, (created_at, (description,
           (fork, (is_empty, (html_url, (topics, license_spdx))))))))))))))))) =>
       mkNativeRepository id node_id name visibility language default_branch archived
         inventory_key updated_at has_issues pushed_at created_at description fork is_empty
         html_url topics license_spdx)
    (nonempty_codec MAX_GITHUB_ID ⊗ option_codec (string_codec MAX_NODE_ID)
     ⊗ nonempty_codec MAX_REPO_NAME ⊗ enum_codec Visibility_wire
     ⊗ option_codec (string_codec MAX_LANGUAGE) ⊗ nonempty_codec MAX_BRANCH_NAME
     ⊗ bool_codec ⊗ nonempty_codec MAX_DOMAIN_KEY
     ⊗ option_codec (nonempty_codec MAX_TIMESTAMP_TEXT) ⊗ bool_codec
     ⊗ option_codec timestamp ⊗ option_codec timestamp
     ⊗ option_codec (string_codec MAX_DESCRIPTION) ⊗ bool_codec ⊗ bool_codec
     ⊗ option_codec (string_codec MAX_URL) ⊗ vec_codec MAX_TOPICS (string_codec MAX_TOPIC)
     ⊗ option_codec (string_codec MAX_LICENSE)).

Definition DependabotResult_codec : Codec NativeDependabotResult :=
  map_codec (fun r => (nd_status r, (nd_reason r, nd_timestamp r)))
    (fun '(status, (reason, t)) => mkNativeDependabotResult status reason t)
    (enum_codec DependabotStatus_wire ⊗ option_codec (string_codec MAX_REASON) ⊗ timestamp).

Definition RepositoryChecks_codec : Codec NativeRepositoryChecks :=
  map_codec
    (fun c => (nrc_security_policy c, (nrc_secret_scanning c, (nrc_dependabot c,
              (nrc_branch_protection c, nrc_codeowners c)))))
    (fun '(sp, (ss, (d, (bp, co)))) => mkNativeRepositoryChecks sp ss d bp co)
    (SecurityPolicyResult_codec ⊗ SecretScanningResult_codec ⊗ DependabotResult_codec
     ⊗ BranchProtectionResult_codec ⊗ CodeownersResult_codec).

Definition LastCommitInfo_codec : Codec NativeLastCommitInfo :=
  map_codec (fun l => (nl_committer_login l, (nl_committer_name l, nl_commit_date l)))
    (fun '(login, (name, date)) => mkNativeLastCommitInfo login name date)
    (option_codec (string_codec MAX_LOGIN) ⊗ option_codec (string_codec MAX_PERSON_NAME)
     ⊗ option_codec timestamp).

Definition RepositoryEvidence_codec : Codec NativeRepositoryEvidence :=
  map_codec (fun e => (ne_repository e, (ne_checks e, ne_last_commit e)))
    (fun '(repository, (checks, last_commit)) =>
       mkNativeRepositoryEvidence repository checks last_commit)
    (Repository_codec ⊗ RepositoryChecks_codec ⊗ option_codec LastCommitInfo_codec).

(** ** The organization *)

(** The first byte, without [u8::decode_type]. *)
Definition first_byte (buf : list N) : result DecodeError (N * nat) :=
  match buf with
  | [] => Err (DE_TruncatedPayload 1 0)
  | tag :: _ => Ok (tag, 1%nat)
  end.

(** The limit is a [NonZeroU64]. *)
Definition CollectionCoverage_codec : Codec NativeCollectionCoverage := {|
  encode_type v buf :=
    match v with
    | NCov_Unknown => encode_variant 0 no_fields () buf
    | NCov_Known total limit => encode_variant 1 (u32_codec ⊗ u64_codec) (total, limit) buf
    end;
  decode_type buf :=
    let? t := first_byte buf in
    match fst t with
    | 0 => decode_variant (fun _ => NCov_Unknown) no_fields buf (snd t)
    | 1 =>
      let? r := decode_variant id (u32_codec ⊗ u64_codec) buf (snd t) in
      if snd (fst r) =? 0 then Err (DE_UnknownVariantDiscriminant 0)
      else Ok (NCov_Known (fst (fst r)) (snd (fst r)), snd r)
    | other => unknown_variant other
    end;
  valid v :=
    match v with
    | NCov_Unknown => True
    | NCov_Known total limit => valid u32_codec total /\ valid u64_codec limit /\ limit <> 0
    end;
|}.

Definition AssessmentMetadata_codec : Codec NativeAssessmentMetadata :=
  map_codec
    (fun m => (na_date m, (na_organization m, (na_schema_version m, (na_run_timestamp m,
              (na_run_id m, (na_token_tier m, (na_token_scopes m, (na_auth_mode m,
              (na_rate_limit_warnings m, (na_unavailable_capabilities m,
              (na_inventory_fetched_at m, (na_warm_start m, na_coverage m)))))))))))))
    (fun '(date, (org, (version, (run_timestamp, (run_id, (tier, (scopes, (auth, (warnings,
           (caps, (fetched, (warm, coverage)))))))))))) =>
       mkNativeAssessmentMetadata date org version run_timestamp run_id tier scopes auth
         warnings caps fetched warm coverage)
    (string_codec MAX_ASSESSMENT_DATE ⊗ string_codec MAX_LOGIN
     ⊗ string_codec MAX_SCHEMA_VERSION ⊗ string_codec MAX_TIMESTAMP_TEXT
     ⊗ string_codec MAX_RUN_ID ⊗ enum_codec TokenTier_wire ⊗ string_codec MAX_TOKEN_SCOPES
     ⊗ enum_codec AuthMode_wire ⊗ u32_codec
     ⊗ vec_codec MAX_UNAVAILABLE_CAPABILITIES (enum_codec Capability_wire)
     ⊗ option_codec (string_codec MAX_TIMESTAMP_TEXT) ⊗ bool_codec ⊗ CollectionCoverage_codec).

Definition when_codec : Codec (option (EventString MAX_TIMESTAMP_TEXT)) :=
  option_codec (string_codec MAX_TIMESTAMP_TEXT).

Definition RepoAlertSummary_codec : Codec NativeRepoAlertSummary :=
  map_codec (fun s => (ns_open_alert_count s, (ns_oldest s, ns_newest s)))
    (fun '(count, (oldest, newest)) => mkNativeRepoAlertSummary count oldest newest)
    (u64_codec ⊗ when_codec ⊗ when_codec).

Definition RepoAlertSummaryEntry_codec : Codec RepoAlertSummaryEntry :=
  map_codec (fun e => (re_repository_id e, re_summary e)) (uncurry mkRepoAlertSummaryEntry)
    (string_codec MAX_GITHUB_ID ⊗ RepoAlertSummary_codec).

Definition StringU64Entry_codec : Codec StringU64Entry :=
  map_codec (fun e => (se_key e, se_value e)) (uncurry mkStringU64Entry)
    (string_codec MAX_ALERT_BUCKET ⊗ u64_codec).

Definition OrgAlertSummary_codec : Codec NativeOrgAlertSummary :=
  map_codec
    (fun s => (no_collection_status s, (no_collection_reason s, (no_http_status s,
              (no_per_repo s, (no_age_buckets s, (no_total_open_secret_alerts s,
              (no_oldest s, no_newest s))))))))
    (fun '(status, (reason, (http, (per_repo, (buckets, (total, (oldest, newest))))))) =>
       mkNativeOrgAlertSummary status reason http per_repo buckets total oldest newest)
    (enum_codec CollectionStatus_wire ⊗ option_codec (string_codec MAX_REASON) ⊗ http_codec
     ⊗ vec_codec MAX_ORG_ALERT_REPOS RepoAlertSummaryEntry_codec
     ⊗ vec_codec MAX_ALERT_BUCKETS StringU64Entry_codec ⊗ u64_codec ⊗ when_codec ⊗ when_codec).

Definition OrgStateCaptured_codec : Codec NativeOrgStateCaptured :=
  map_codec
    (fun o => (nos_archived_repos o, (nos_assessment_metadata o, nos_alert_summary o)))
    (fun '(archived, (metadata, alerts)) => mkNativeOrgStateCaptured archived metadata alerts)
    (u32_codec ⊗ AssessmentMetadata_codec ⊗ OrgAlertSummary_codec).

(** ** Teams *)

Definition TeamMemberEvent_codec : Codec TeamMemberEvent :=
  map_codec (fun m => (tme_login m, (tme_role m, tme_in_org m)))
    (fun '(login, (role, in_org)) => mkTeamMemberEvent login role in_org)
    (nonempty_codec MAX_LOGIN ⊗ enum_codec TeamMemberRole_wire ⊗ option_codec bool_codec).

(** [OrphanAttributionInputs] is a struct of one field. *)
Definition TeamStateCaptured_codec : Codec TeamEvent :=
  map_codec
    (fun t => (te_org t, (te_team_slug t, (te_members t, (te_fetch_status t,
              (te_fetched_at t, te_status t))))))
    (fun '(org, (slug, (members, (fetch, (fetched_at, status))))) =>
       mkTeamEvent org slug members fetch fetched_at status)
    (nonempty_codec MAX_LOGIN ⊗ nonempty_codec MAX_LOGIN
     ⊗ vec_codec MAX_TEAM_MEMBERS TeamMemberEvent_codec
     ⊗ enum_codec OrgMembershipFetchStatus_wire ⊗ string_codec MAX_TIMESTAMP_TEXT
     ⊗ enum_codec TeamRosterStatus_wire).

(** ** [DomainEvent] *)

Definition captured_codec : Codec (NonEmptyEventString MAX_DOMAIN_KEY *
    (NonEmptyEventString MAX_REPO_NAME * (Timestamp * option NativeRepositoryEvidence))) :=
  nonempty_codec MAX_DOMAIN_KEY ⊗ nonempty_codec MAX_REPO_NAME ⊗ timestamp
  ⊗ option_codec RepositoryEvidence_codec.
Definition deleted_codec : Codec (NonEmptyEventString MAX_DOMAIN_KEY *
    (NonEmptyEventString MAX_REPO_NAME * Timestamp)) :=
  nonempty_codec MAX_DOMAIN_KEY ⊗ nonempty_codec MAX_REPO_NAME ⊗ timestamp.

Definition DomainEvent_codec : Codec NativeDomainEvent := {|
  encode_type v buf :=
    match v with
    | NE_RepositoryStateCaptured key name t evidence =>
      encode_variant 0 captured_codec (key, (name, (t, evidence))) buf
    | NE_RepositoryDeleted key name t => encode_variant 1 deleted_codec (key, (name, t)) buf
    | NE_OrgStateCaptured org => encode_variant 2 OrgStateCaptured_codec org buf
    | NE_TeamStateCaptured team => encode_variant 3 TeamStateCaptured_codec team buf
    end;
  decode_type buf :=
    let? t := first_byte buf in
    match fst t with
    | 0 => decode_variant
             (fun '(key, (name, (t, evidence))) => NE_RepositoryStateCaptured key name t evidence)
             captured_codec buf (snd t)
    | 1 => decode_variant (fun '(key, (name, t)) => NE_RepositoryDeleted key name t)
             deleted_codec buf (snd t)
    | 2 => decode_variant NE_OrgStateCaptured OrgStateCaptured_codec buf (snd t)
    | 3 => decode_variant NE_TeamStateCaptured TeamStateCaptured_codec buf (snd t)
    | other => unknown_variant other
    end;
  valid v :=
    match v with
    | NE_RepositoryStateCaptured key name t evidence =>
      valid captured_codec (key, (name, (t, evidence)))
    | NE_RepositoryDeleted key name t => valid deleted_codec (key, (name, t))
    | NE_OrgStateCaptured org => valid OrgStateCaptured_codec org
    | NE_TeamStateCaptured team => valid TeamStateCaptured_codec team
    end;
|}.

(** ** [SweepTimeoutEvent], with event ids as numbers *)

Definition MAX_SWEEP_TIMEOUT_ERROR : N := 256.

Inductive SweepTimeoutEvent :=
| TargetOpened (event_id : N)
| TimeoutFired (event_id : N) (run_id : EventString MAX_RUN_ID)
    (error : EventString MAX_SWEEP_TIMEOUT_ERROR) (elapsed_ms : N).

Definition fired_codec :
    Codec (N * (EventString MAX_RUN_ID * (EventString MAX_SWEEP_TIMEOUT_ERROR * N))) :=
  uuid_codec ⊗ string_codec MAX_RUN_ID ⊗ string_codec MAX_SWEEP_TIMEOUT_ERROR ⊗ u64_codec.

Definition SweepTimeoutEvent_codec : Codec SweepTimeoutEvent := {|
  encode_type v buf :=
    match v with
    | TargetOpened event_id => encode_variant 0 uuid_codec event_id buf
    | TimeoutFired event_id run_id error elapsed_ms =>
      encode_variant 1 fired_codec (event_id, (run_id, (error, elapsed_ms))) buf
    end;
  decode_type buf :=
    let? t := first_byte buf in
    match fst t with
    | 0 => decode_variant TargetOpened uuid_codec buf (snd t)
    | 1 => decode_variant
             (fun '(event_id, (run_id, (error, elapsed_ms))) =>
                TimeoutFired event_id run_id error elapsed_ms) fired_codec buf (snd t)
    | other => unknown_variant other
    end;
  valid v :=
    match v with
    | TargetOpened event_id => valid uuid_codec event_id
    | TimeoutFired event_id run_id error elapsed_ms =>
      valid fired_codec (event_id, (run_id, (error, elapsed_ms)))
    end;
|}.

(** [SweepTimeoutEvent::try_timeout_fired]: texts over their limits are refused. *)
Definition try_timeout_fired (event_id : N) (run_id error : string) (elapsed_ms : N)
    : option SweepTimeoutEvent :=
  match check (string_fits MAX_RUN_ID) run_id with
  | None => None
  | Some run_id =>
    match check (string_fits MAX_SWEEP_TIMEOUT_ERROR) error with
    | None => None
    | Some error => Some (TimeoutFired event_id run_id error elapsed_ms)
    end
  end.

Definition sweep_event_type (e : SweepTimeoutEvent) : string :=
  match e with
  | TargetOpened _ => "gh-report.sweep_timeout_target_opened"
  | TimeoutFired _ _ _ _ => "gh-report.sweep_timeout_fired"
  end.

Definition scheduled_event_id (e : SweepTimeoutEvent) : N :=
  match e with
  | TargetOpened event_id | TimeoutFired event_id _ _ _ => event_id
  end.

(** The serde form: the texts without their bounds, which reading checks again. *)
Inductive SweepTimeoutEventWire :=
| Wire_TargetOpened (event_id : N)
| Wire_TimeoutFired (event_id : N) (run_id error : string) (elapsed_ms : N).

Definition serialize_sweep (e : SweepTimeoutEvent) : SweepTimeoutEventWire :=
  match e with
  | TargetOpened event_id => Wire_TargetOpened event_id
  | TimeoutFired event_id run_id error elapsed_ms =>
    Wire_TimeoutFired event_id (unchecked run_id) (unchecked error) elapsed_ms
  end.

Definition deserialize_sweep (w : SweepTimeoutEventWire) : option SweepTimeoutEvent :=
  match w with
  | Wire_TargetOpened event_id => Some (TargetOpened event_id)
  | Wire_TimeoutFired event_id run_id error elapsed_ms =>
    try_timeout_fired event_id run_id error elapsed_ms
  end.

(** [PardosaSchema]: the payload is the value; what follows it is ignored. *)
Definition encode_payload {A} (c : Codec A) (a : A) (buf : list N) :=
  encode_type c a buf.
Definition decode_payload {A} (c : Codec A) (buf : list N) : result DecodeError A :=
  let? r := decode_type c buf in Ok (fst r).

(** ** What was written reads back *)

Context {PL : PardosaCodecLaws EncodeError}.

(** Codecs built from codecs: the fields in turn. *)
Ltac codec_fields :=
  repeat first
    [ apply unit_ok | apply u16_ok | apply u32_ok | apply u64_ok | apply bool_ok
    | apply timestamp_ok | apply string_ok | apply nonempty_ok | apply uuid_ok
    | apply option_ok | apply vec_ok | apply pair_ok
    | apply enum_ok; intros []; reflexivity
    | apply map_ok; [intros []; reflexivity|]
    | solve [eauto with codec nocore] ].

(** A tagged union: each tag selects its variant. *)
Ltac codec_variants :=
  let v := fresh "v" in let buf := fresh in let out := fresh in
  intros v buf out Hv He; destruct v; cbn in He, Hv;
  (eapply variant_ok;
   [ exact He
   | intros rest; cbn; rewrite ?u8_decode_ok; cbn; reflexivity
   | codec_fields
   | first [exact Hv | exact I]
   | reflexivity ]).

Lemma http_ok : codec_ok http_codec.
Proof. codec_fields. Qed.
Lemma reason_ok : codec_ok reason_codec.
Proof. codec_fields. Qed.
Lemma source_ok : codec_ok source_codec.
Proof. codec_fields. Qed.
Lemma indeterminate_ok : codec_ok indeterminate_codec.
Proof. codec_fields. Qed.
Lemma timestamp_codec_ok : codec_ok timestamp.
Proof. codec_fields. Qed.
Lemma no_fields_ok : codec_ok no_fields.
Proof. codec_fields. Qed.
#[local] Hint Resolve http_ok reason_ok source_ok indeterminate_ok timestamp_codec_ok
  no_fields_ok : codec.

Lemma MetadataUnavailable_ok : codec_ok MetadataUnavailable_codec.
Proof. codec_variants. Qed.
#[local] Hint Resolve MetadataUnavailable_ok : codec.
Lemma SecretScanningAlerts_ok : codec_ok SecretScanningAlerts_codec.
Proof. codec_variants. Qed.
#[local] Hint Resolve SecretScanningAlerts_ok : codec.
Lemma EnabledProvenance_ok : codec_ok EnabledProvenance_codec.
Proof. codec_variants. Qed.
#[local] Hint Resolve EnabledProvenance_ok : codec.
Lemma DisabledObservation_ok : codec_ok DisabledObservation_codec.
Proof. codec_variants. Qed.
#[local] Hint Resolve DisabledObservation_ok : codec.
Lemma UnobservableProbe_ok : codec_ok UnobservableProbe_codec.
Proof. codec_variants. Qed.
#[local] Hint Resolve UnobservableProbe_ok : codec.
Lemma SecretScanningResult_ok : codec_ok SecretScanningResult_codec.
Proof. codec_variants. Qed.
#[local] Hint Resolve SecretScanningResult_ok : codec.
Lemma HistoryProtectionGap_ok : codec_ok HistoryProtectionGap_codec.
Proof. codec_variants. Qed.
#[local] Hint Resolve HistoryProtectionGap_ok : codec.
Lemma BranchProtectionResult_ok : codec_ok BranchProtectionResult_codec.
Proof. codec_variants. Qed.
#[local] Hint Resolve BranchProtectionResult_ok : codec.
Lemma SecurityPolicyResult_ok : codec_ok SecurityPolicyResult_codec.
Proof. codec_variants. Qed.
#[local] Hint Resolve SecurityPolicyResult_ok : codec.

Lemma owners_ok : codec_ok owners_codec.
Proof. codec_fields. Qed.
Lemma truncation_ok : codec_ok truncation_codec.
Proof. codec_fields. Qed.
Lemma location_ok : codec_ok location_codec.
Proof. codec_fields. Qed.
Lemma when_ok : codec_ok when_codec.
Proof. codec_fields. Qed.
#[local] Hint Resolve owners_ok truncation_ok location_ok when_ok : codec.

Lemma CodeownersEntry_ok : codec_ok CodeownersEntry_codec.
Proof. unfold CodeownersEntry_codec. codec_fields. Qed.
#[local] Hint Resolve CodeownersEntry_ok : codec.
Lemma ParsedCodeowners_ok : codec_ok ParsedCodeowners_codec.
Proof. unfold ParsedCodeowners_codec. codec_fields. Qed.
#[local] Hint Resolve ParsedCodeowners_ok : codec.
Lemma CodeownersContent_ok : codec_ok CodeownersContent_codec.
Proof. codec_variants. Qed.
#[local] Hint Resolve CodeownersContent_ok : codec.
Lemma CodeownersResult_ok : codec_ok CodeownersResult_codec.
Proof. codec_variants. Qed.
#[local] Hint Resolve CodeownersResult_ok : codec.
Lemma Repository_ok : codec_ok Repository_codec.
Proof. unfold Repository_codec. codec_fields. Qed.
#[local] Hint Resolve Repository_ok : codec.
Lemma DependabotResult_ok : codec_ok DependabotResult_codec.
Proof. unfold DependabotResult_codec. codec_fields. Qed.
#[local] Hint Resolve DependabotResult_ok : codec.
Lemma RepositoryChecks_ok : codec_ok RepositoryChecks_codec.
Proof. unfold RepositoryChecks_codec. codec_fields. Qed.
#[local] Hint Resolve RepositoryChecks_ok : codec.
Lemma LastCommitInfo_ok : codec_ok LastCommitInfo_codec.
Proof. unfold LastCommitInfo_codec. codec_fields. Qed.
#[local] Hint Resolve LastCommitInfo_ok : codec.
Lemma RepositoryEvidence_ok : codec_ok RepositoryEvidence_codec.
Proof. unfold RepositoryEvidence_codec. codec_fields. Qed.
#[local] Hint Resolve RepositoryEvidence_ok : codec.
Lemma CollectionCoverage_ok : codec_ok CollectionCoverage_codec.
Proof.
  intros v buf out Hv He; destruct v as [|total limit]; cbn in He, Hv.
  - by eapply variant_ok; [exact He|intros rest; cbn; reflexivity|codec_fields|..].
  - destruct Hv as (Vt & Vl & Hl).
    assert (Hok : codec_ok (u32_codec ⊗ u64_codec)) by codec_fields.
    destruct (Hok (total, limit) _ _ (conj Vt Vl) He) as (bs & -> & D).
    exists (1 :: bs). split; [by rewrite -app_assoc|]. intros rest.
    rewrite -app_comm_cons; cbn [decode_type CollectionCoverage_codec first_byte fst snd].
    unfold decode_variant; cbn [drop]. rewrite D; cbn. by rewrite (proj2 (N.eqb_neq _ _) Hl).
Qed.
#[local] Hint Resolve CollectionCoverage_ok : codec.
Lemma AssessmentMetadata_ok : codec_ok AssessmentMetadata_codec.
Proof. unfold AssessmentMetadata_codec. codec_fields. Qed.
#[local] Hint Resolve AssessmentMetadata_ok : codec.
Lemma RepoAlertSummary_ok : codec_ok RepoAlertSummary_codec.
Proof. unfold RepoAlertSummary_codec. codec_fields. Qed.
#[local] Hint Resolve RepoAlertSummary_ok : codec.
Lemma RepoAlertSummaryEntry_ok : codec_ok RepoAlertSummaryEntry_codec.
Proof. unfold RepoAlertSummaryEntry_codec. codec_fields. Qed.
#[local] Hint Resolve RepoAlertSummaryEntry_ok : codec.
Lemma StringU64Entry_ok : codec_ok StringU64Entry_codec.
Proof. unfold StringU64Entry_codec. codec_fields. Qed.
#[local] Hint Resolve StringU64Entry_ok : codec.
Lemma OrgAlertSummary_ok : codec_ok OrgAlertSummary_codec.
Proof. unfold OrgAlertSummary_codec. codec_fields. Qed.
#[local] Hint Resolve OrgAlertSummary_ok : codec.
Lemma OrgStateCaptured_ok : codec_ok OrgStateCaptured_codec.
Proof. unfold OrgStateCaptured_codec. codec_fields. Qed.
#[local] Hint Resolve OrgStateCaptured_ok : codec.
Lemma TeamMemberEvent_ok : codec_ok TeamMemberEvent_codec.
Proof. unfold TeamMemberEvent_codec. codec_fields. Qed.
#[local] Hint Resolve TeamMemberEvent_ok : codec.
Lemma TeamStateCaptured_ok : codec_ok TeamStateCaptured_codec.
Proof. unfold TeamStateCaptured_codec. codec_fields. Qed.
#[local] Hint Resolve TeamStateCaptured_ok : codec.
Lemma DomainEvent_ok : codec_ok DomainEvent_codec.
Proof. codec_variants. Qed.
#[local] Hint Resolve DomainEvent_ok : codec.
Lemma SweepTimeoutEvent_ok : codec_ok SweepTimeoutEvent_codec.
Proof. codec_variants. Qed.
#[local] Hint Resolve SweepTimeoutEvent_ok : codec.

(** The payload is read back whatever follows it. *)
Lemma payload_roundtrip {A} (c : Codec A) a bs rest :
  codec_ok c -> valid c a -> encode_payload c a [] = Ok bs ->
  decode_payload c (bs ++ rest) = Ok a.
Proof.
  intros Hc Hv He. destruct (Hc _ _ _ Hv He) as (bs' & -> & D).
  unfold decode_payload. simpl. by rewrite D.
Qed.

Lemma sweep_serde_roundtrip e : deserialize_sweep (serialize_sweep e) = Some e.
Proof.
  destruct e as [id|id run_id error elapsed]; [done|]. simpl. unfold try_timeout_fired.
  by rewrite !check_unchecked.
Qed.

Lemma unknown_tag tag buf :
  3 < tag ->
  decode_payload DomainEvent_codec (tag :: buf) = Err (DE_UnknownVariantDiscriminant tag).
Proof. intros Ht. destruct tag as [|[[p|p|]|[p|p|]|]]; by try lia. Qed.

Lemma zero_limit total bs rest :
  valid u32_codec total -> valid u64_codec 0 ->
  encode_variant 1 (u32_codec ⊗ u64_codec) (total, 0) [] = Ok bs ->
  decode_type CollectionCoverage_codec (bs ++ rest) = Err (DE_UnknownVariantDiscriminant 0).
Proof.
  intros Vt Vl He. assert (Hok : codec_ok (u32_codec ⊗ u64_codec)) by codec_fields.
  destruct (Hok (total, 0) _ _ (conj Vt Vl) He) as (bs1 & -> & D).
  rewrite -app_assoc. cbn. unfold decode_variant; cbn [drop]. by rewrite D.
Qed.

(** C4: every durable event (and every organization snapshot, and every sweep
    timeout) that encodes is read back from its bytes, whatever follows them;
    so two events whose encodings start the same bytes are the same event.
    No event reads back from nothing or from an unknown tag, and no coverage
    from a limit of zero. *)
Theorem domain_event_roundtrip e bs rest :
  valid DomainEvent_codec e ->
  encode_payload DomainEvent_codec e [] = Ok bs ->
  decode_payload DomainEvent_codec (bs ++ rest) = Ok e /\
  (forall e' bs' rest', valid DomainEvent_codec e' ->
    encode_payload DomainEvent_codec e' [] = Ok bs' -> bs ++ rest = bs' ++ rest' -> e' = e) /\
  codec_ok OrgStateCaptured_codec /\ codec_ok SweepTimeoutEvent_codec /\
  decode_payload DomainEvent_codec [] = Err (DE_TruncatedPayload 1 0) /\
  (forall tag buf, 3 < tag ->
    decode_payload DomainEvent_codec (tag :: buf) = Err (DE_UnknownVariantDiscriminant tag)) /\
  (forall total bs' rest', valid u32_codec total -> valid u64_codec 0 ->
    encode_variant 1 (u32_codec ⊗ u64_codec) (total, 0) [] = Ok bs' ->
    decode_type CollectionCoverage_codec (bs' ++ rest') =
      Err (DE_UnknownVariantDiscriminant 0)).
Proof.
  intros Hv He.
  assert (D : decode_payload DomainEvent_codec (bs ++ rest) = Ok e)
    by (eapply payload_roundtrip; eauto with codec nocore).
  split_and!; [done| |by eauto with codec nocore..|done|apply unknown_tag|apply zero_limit].
  intros e' bs' rest' Hv' He' Heq. rewrite Heq in D.
  assert (D' := payload_roundtrip _ _ _ rest' DomainEvent_ok Hv' He'). congruence.
Qed.
End Codecs.

(** ** A concrete pardosa: little-endian numbers, prefixed lengths *)

Module Plain.
#[local] Existing Instance plain_pardosa.
Notation Codec := (Codec Empty_set).

Fixpoint le (k : nat) (n : N) : list N :=
  match k with O => [] | S k => n mod 256 :: le k (n / 256) end.

Fixpoint de (k : nat) (buf : list N) : result DecodeError N :=
  match k, buf with
  | O, _ => Ok 0
  | S _, [] => Err DE_Other
  | S k, b :: buf => let? n := de k buf in Ok (b + 256 * n)
  end.

Lemma de_le k : forall n rest, n < 256 ^ N.of_nat k -> de k (le k n ++ rest) = Ok n.
Proof.
  induction k as [|k IH]; intros n rest Hn.
  - simpl in *. f_equal. lia.
  - rewrite Nat2N.inj_succ N.pow_succ_r' in Hn. simpl.
    rewrite IH; [|apply N.Div0.div_lt_upper_bound; lia].
    f_equal. pose proof (N.div_mod n 256 ltac:(lia)). lia.
Qed.

Lemma le_length k : forall n, length (le k n) = k.
Proof. induction k as [|k IH]; intros n; simpl; [done|by rewrite IH]. Qed.

Definition num (k : nat) : Codec N := {|
  encode_type n buf := Ok (buf ++ le k n);
  decode_type buf := let? n := de k buf in Ok (n, k);
  valid n := n < 256 ^ N.of_nat k;
|}.

Lemma num_ok k : codec_ok (num k).
Proof.
  intros n buf out Hn [= <-]. exists (le k n). split; [done|]. intros rest. simpl in *.
  rewrite de_le //. by rewrite le_length.
Qed.

(** A value read back through a check. *)
Definition refine {A B} (into : B -> A) (from : A -> option B) (c : Codec A) : Codec B := {|
  encode_type b buf := encode_type c (into b) buf;
  decode_type buf :=
    let? r := decode_type c buf in
    match from (fst r) with Some b => Ok (b, snd r) | None => Err DE_Other end;
  valid b := valid c (into b);
|}.

Lemma refine_ok {A B} (into : B -> A) (from : A -> option B) (c : Codec A) :
  (forall b, from (into b) = Some b) -> codec_ok c -> codec_ok (refine into from c).
Proof.
  intros Hf Hc b buf out Hv He. destruct (Hc _ _ _ Hv He) as (bs & -> & D).
  exists bs. split; [done|]. intros rest. simpl. rewrite D; simpl. by rewrite Hf.
Qed.

Fixpoint list_encode {A} (c : Codec A) (l : list A) (buf : list N) : result Empty_set (list N) :=
  match l with
  | [] => Ok buf
  | a :: l => let? buf := encode_type c a buf in list_encode c l buf
  end.

Fixpoint list_decode {A} (c : Codec A) (n : nat) (buf : list N) (cursor : nat)
    : result DecodeError (list A * nat) :=
  match n with
  | O => Ok ([], cursor)
  | S n =>
    let? r := decode_type c (drop cursor buf) in
    let? rs := list_decode c n buf (cursor + snd r) in
    Ok (fst r :: fst rs, snd rs)
  end.

Definition list_codec {A} (c : Codec A) : Codec (list A) := {|
  encode_type l buf := list_encode c l (buf ++ le 4 (N.of_nat (length l)));
  decode_type buf := let? n := de 4 buf in list_decode c (N.to_nat n) buf 4;
  valid l := N.of_nat (length l) < 256 ^ 4 /\ Forall (valid c) l;
|}.

Lemma list_decode_ok {A} (c : Codec A) : codec_ok c ->
  forall l buf out, Forall (valid c) l -> list_encode c l buf = Ok out ->
  exists bs, out = buf ++ bs /\ forall pre rest,
    list_decode c (length l) (pre ++ bs ++ rest) (length pre) = Ok (l, length (pre ++ bs)).
Proof.
  intros Hc l. induction l as [|a l IH]; intros buf out Hl He; simpl in He.
  - injection He as <-. exists []. split; [by rewrite app_nil_r|]. intros. simpl.
    by rewrite app_nil_r.
  - inversion Hl as [|? ? Ha Hl']; subst.
    destruct (encode_type c a buf) as [buf1|] eqn:E; [|done].
    destruct (Hc _ _ _ Ha E) as (bs1 & -> & D).
    destruct (IH _ _ Hl' He) as (bs2 & -> & D2).
    exists (bs1 ++ bs2). split; [by rewrite app_assoc|]. intros pre rest. simpl.
    rewrite drop_app_length -app_assoc D; simpl.
    specialize (D2 (pre ++ bs1) rest). rewrite -app_assoc length_app in D2.
    rewrite D2; simpl. by rewrite -app_assoc.
Qed.

Lemma list_ok {A} (c : Codec A) : codec_ok c -> codec_ok (list_codec c).
Proof.
  intros Hc l buf out [Hn Hl] He.
  destruct (list_decode_ok c Hc l _ _ Hl He) as (bs & -> & D).
  exists (le 4 (N.of_nat (length l)) ++ bs). split; [by rewrite app_assoc|]. intros rest.
  rewrite -app_assoc. cbn [decode_type list_codec]. rewrite de_le; [|exact Hn].
  cbn. rewrite Nat2N.id. specialize (D (le 4 (N.of_nat (length l))) rest).
  by rewrite le_length in D.
Qed.

Definition optional {A} (c : Codec A) : Codec (option A) := {|
  encode_type o buf :=
    match o with None => Ok (buf ++ [0]) | Some a => encode_variant 1 c a buf end;
  decode_type buf :=
    let? t := de 1 buf in
    match t with
    | 0 => Ok (None, 1%nat)
    | 1 => decode_variant Some c buf 1
    | _ => Err DE_Other
    end;
  valid o := match o with None => True | Some a => valid c a end;
|}.

Lemma optional_ok {A} (c : Codec A) : codec_ok c -> codec_ok (optional c).
Proof.
  intros Hc [a|] buf out Hv He.
  - by eapply variant_ok; [exact He|intros rest; reflexivity|..].
  - injection He as <-. by exists [0].
Qed.

Definition text : Codec string :=
  map_codec String.list_ascii_of_string String.string_of_list_ascii
    (list_codec (map_codec Ascii.N_of_ascii Ascii.ascii_of_N (num 1))).

Lemma text_ok : codec_ok text.
Proof.
  apply map_ok; [apply String.string_of_list_ascii_of_string|].
  apply list_ok, map_ok, num_ok. apply Ascii.ascii_N_embedding.
Qed.

#[export] Instance plain_codecs : PardosaCodecs Empty_set := {|
  u8_decode buf := let? n := de 1 buf in Ok (n, 1%nat);
  u16_codec := num 2;
  u32_codec := num 4;
  u64_codec := num 8;
  bool_codec := map_codec N.b2n (N.eqb 1) (num 1);
  timestamp_codec := refine as_nanos Timestamp_new (num 8);
  string_codec max := refine unchecked (check _) text;
  nonempty_codec max := refine unchecked (check _) text;
  uuid_codec := num 16;
  option_codec A := optional;
  vec_codec A max c := refine unchecked (check _) (list_codec c);
|}.

#[export] Instance plain_codec_laws : PardosaCodecLaws Empty_set.
Proof.
  split.
  - intros b rest. simpl. f_equal. f_equal. lia.
  - apply num_ok.
  - apply num_ok.
  - apply num_ok.
  - apply map_ok; [by intros []|apply num_ok].
  - apply refine_ok; [apply check_unchecked|apply num_ok].
  - intros max. apply refine_ok; [apply check_unchecked|apply text_ok].
  - intros max. apply refine_ok; [apply check_unchecked|apply text_ok].
  - apply num_ok.
  - intros A c. apply optional_ok.
  - intros A max c Hc. apply refine_ok; [apply check_unchecked|by apply list_ok].
Qed.

Definition text_in max (s : string) (H : Is_true (negb (is_empty s) && string_fits max s))
    : NonEmptyEventString max := exist _ s H.

Definition sample_event : NativeDomainEvent :=
  NE_RepositoryDeleted (text_in MAX_DOMAIN_KEY "k" I) (text_in MAX_REPO_NAME "api" I)
    (exist _ 5 I).

Definition sample_bytes : list N :=
  [1; 1; 0; 0; 0; 107; 3; 0; 0; 0; 97; 112; 105; 5; 0; 0; 0; 0; 0; 0; 0].

Lemma domain_event_roundtrip_witness :
  encode_payload DomainEvent_codec sample_event [] = Ok sample_bytes /\
  decode_payload DomainEvent_codec (sample_bytes ++ [9]) = Ok sample_event.
Proof.
  assert (He : encode_payload DomainEvent_codec sample_event [] = Ok sample_bytes)
    by (vm_compute; reflexivity).
  split; [exact He|].
  refine (proj1 (domain_event_roundtrip sample_event sample_bytes [9] _ He)).
  cbn. repeat split; repeat constructor.
Defined.
End Plain.
