(* ===== verification/Schema.v ===== *)
(** * The schemas of events ([event/mod.rs])

    Every durable type describes its own layout to pardosa: a descriptor, which
    the macros derive and six types write by hand.  The descriptors of
    pardosa's own types are named by the type; what bytes they stand for, and
    those of an option and of a bounded list, is a class, with the law that the
    codecs of [Codec] write such bytes. *)

From S2P Require Import Prelude Str Repository Checks Evidence Metrics Run Events Convert Codec.

Open Scope N_scope.

(** ** Descriptors *)

(** The types whose descriptors pardosa has. *)
Inductive BaseType :=
| BT_u16 | BT_u32 | BT_u64 | BT_bool | BT_Timestamp | BT_Uuid
| BT_EventString (max : N)
| BT_NonEmptyEventString (max : N).

Inductive DescriptorNode :=
| D_Base (t : BaseType)
| D_Option (inner : DescriptorNode)
| D_EventVec (inner : DescriptorNode) (max : N)
| D_Struct (name : string) (fields : list (string * DescriptorNode))
| D_Enum (name : string) (discriminant_width : N)
    (variants : list (N * string * option DescriptorNode)).

(** [impl_pardosa_enum]. *)
Definition enum_node (name : string) (variants : list (N * string)) : DescriptorNode :=
  D_Enum name 1 (map (fun v => (v, None)) variants).

(** A variant with named fields. *)
Definition variant (name : string) (tag : N) (v : string) (fields : list (string * DescriptorNode)) :
    N * string * option DescriptorNode :=
  (tag, v, Some (D_Struct (name +:+ "_" +:+ v) fields)).

(** [native_secret_enum]. *)
Definition union_node (name : string)
    (variants : list (N * string * list (string * DescriptorNode))) : DescriptorNode :=
  D_Enum name 1 (map (fun v => variant name v.1.1 v.1.2 v.2) variants).

Definition string_node (max : N) := D_Base (BT_EventString max).
Definition nonempty_node (max : N) := D_Base (BT_NonEmptyEventString max).
Definition timestamp_node := D_Base BT_Timestamp.
Definition bool_node := D_Base BT_bool.
Definition http_node := D_Option (D_Base BT_u16).

(** *** Enumerations *)

Definition IndeterminateReason_node := enum_node "IndeterminateReason"
  [(0, "PermissionDenied"); (1, "PermissionSuspected"); (2, "Transient"); (3, "RateLimited");
   (4, "Invalid"); (5, "Pending")].
Definition SecretScanningFailureReason_node := enum_node "SecretScanningFailureReason"
  [(0, "PermissionDenied"); (1, "PermissionSuspected"); (2, "RateLimited"); (3, "Transient");
   (4, "Unavailable"); (5, "InsufficientEvidence"); (6, "Conflict"); (7, "Invalid"); (8, "Pending")].
Definition ProbeSource_node := enum_node "ProbeSource" [(0, "OrgSummary"); (1, "PerRepoEndpoint")].
Definition DependabotStatus_node := enum_node "DependabotStatus"
  [(0, "Enabled"); (1, "Paused"); (2, "Disabled"); (3, "Unknown")].
Definition Visibility_node := enum_node "Visibility" [(0, "Public"); (1, "Internal"); (2, "Private")].
Definition CodeownersNonConformingLocation_node := enum_node "CodeownersNonConformingLocation"
  [(0, "Root"); (1, "Docs")].
Definition CodeownersTruncationReason_node := enum_node "CodeownersTruncationReason"
  [(0, "NotBase64Encoded"); (1, "OversizedBase64"); (2, "ContentMissing"); (3, "DecodeFailed");
   (4, "InvalidUtf8")].
Definition TokenTier_node := enum_node "TokenTier" [(0, "Full"); (1, "Limited"); (2, "Unknown")].
Definition Capability_node := enum_node "Capability"
  [(0, "OrgSecretScanningAlerts"); (1, "PrivateBranchProtectionRead")].
Definition AuthMode_node := enum_node "AuthMode"
  [(0, "Pat"); (1, "GitHubApp"); (2, "GhCliFallback"); (3, "Unknown")].
Definition CollectionStatus_node := enum_node "CollectionStatus"
  [(0, "Success"); (1, "NotCollected"); (2, "PermissionDenied"); (3, "TransientError");
   (4, "Unavailable")].
Definition TeamMemberRoleEvent_node := enum_node "TeamMemberRoleEvent"
  [(0, "Maintainer"); (1, "Member"); (2, "Unknown")].
Definition TeamRosterStatusEvent_node := enum_node "TeamRosterStatusEvent"
  [(0, "Complete"); (1, "Deleted"); (2, "PermissionDenied"); (3, "TransientError")].
Definition OrgMembershipFetchStatus_node := enum_node "OrgMembershipFetchStatus"
  [(0, "Fetched"); (1, "Degraded")].

(** *** Checks *)

Definition MetadataUnavailable_node := union_node "MetadataUnavailable"
  [(0, "Missing", [("http_status", http_node)]);
   (1, "Malformed", [("http_status", http_node)]);
   (2, "Failure", [("reason", SecretScanningFailureReason_node); ("http_status", http_node)])].
Definition SecretScanningAlerts_node := union_node "SecretScanningAlerts"
  [(0, "Observable", [("source", ProbeSource_node); ("has_open_alerts", bool_node);
                      ("http_status", http_node)]);
   (1, "Unobservable", [("source", ProbeSource_node); ("reason", SecretScanningFailureReason_node);
                        ("http_status", http_node)])].
Definition EnabledProvenance_node := union_node "EnabledProvenance"
  [(0, "Metadata", [("http_status", http_node); ("alerts", SecretScanningAlerts_node)]);
   (1, "Fallback", [("metadata", MetadataUnavailable_node); ("has_open_alerts", bool_node);
                    ("http_status", http_node)])].
Definition DisabledObservation_node := union_node "DisabledObservation"
  [(0, "NoMismatch", [("source", ProbeSource_node); ("http_status", http_node)]);
   (1, "StatusMismatch", [("source", ProbeSource_node); ("http_status", http_node)]);
   (2, "ProbeFailed", [("source", ProbeSource_node); ("reason", SecretScanningFailureReason_node);
                       ("http_status", http_node)])].
Definition UnobservableProbe_node := union_node "UnobservableProbe"
  [(0, "Failed", [("source", ProbeSource_node); ("reason", SecretScanningFailureReason_node);
                  ("http_status", http_node)]);
   (1, "OrgSummaryObserved", [("has_open_alerts", bool_node); ("http_status", http_node)])].
Definition SecretScanningResult_node := union_node "SecretScanningResult"
  [(0, "Enabled", [("provenance", EnabledProvenance_node); ("timestamp", timestamp_node)]);
   (1, "Disabled", [("metadata_http_status", http_node); ("observation", DisabledObservation_node);
                    ("timestamp", timestamp_node)]);
   (2, "Unobservable", [("metadata", MetadataUnavailable_node); ("probe", UnobservableProbe_node);
                        ("timestamp", timestamp_node)])].

Definition HistoryProtectionGap_node := union_node "HistoryProtectionGap"
  [(0, "Absent", [("confirmed_not_found", bool_node); ("http_status", http_node)]);
   (1, "NeitherBlocked", []); (2, "ForcePushAllowed", []); (3, "DeletionAllowed", [])].
Definition BranchProtectionResult_node :=
  let default_branch := ("default_branch", nonempty_node MAX_BRANCH_NAME) in
  union_node "BranchProtectionResult"
  [(0, "Protected", [default_branch; ("timestamp", timestamp_node)]);
   (1, "Unprotected", [default_branch; ("gap", HistoryProtectionGap_node);
                       ("timestamp", timestamp_node)]);
   (2, "Unobservable", [default_branch; ("reason", IndeterminateReason_node);
                        ("http_status", http_node); ("timestamp", timestamp_node)])].

(** Written by hand: the names zipped with their numbers, the fields pushed
    according to the number. *)
Definition zip_numbers (names : list string) : list (N * string) :=
  imap (fun i name => (N.of_nat i, name)) names.

Definition SecurityPolicyResult_node : DescriptorNode :=
  D_Enum "SecurityPolicyResult" 1
    (map (fun '(discriminant, name) =>
       variant "SecurityPolicyResult" discriminant name
         ((match discriminant with
           | 1 => [("path", nonempty_node MAX_PATH)]
           | 3 => [("reason", IndeterminateReason_node)]
           | _ => []
           end) ++ [("timestamp", timestamp_node)]))
      (zip_numbers ["EnabledBySetting"; "EnabledByFile"; "Absent"; "Unobservable"; "NotApplicable"])).

Definition CodeownersEntry_node := D_Struct "CodeownersEntry"
  [("pattern", string_node MAX_CODEOWNERS_PATTERN);
   ("owners", D_EventVec (string_node MAX_CODEOWNERS_OWNER) MAX_CODEOWNERS_OWNERS)].
Definition ParsedCodeowners_node := D_Struct "ParsedCodeowners"
  [("entries", D_EventVec CodeownersEntry_node MAX_CODEOWNERS_ENTRIES);
   ("unique_owners", D_EventVec (string_node MAX_CODEOWNERS_OWNER) MAX_CODEOWNERS_OWNERS);
   ("skipped_lines", D_Base BT_u32)].
Definition CodeownersContent_node := D_Enum "CodeownersContent" 1
  [(0, "Parsed", Some ParsedCodeowners_node);
   (1, "Truncated", Some CodeownersTruncationReason_node);
   (2, "Unparsed", None)].

Definition CodeownersResult_node : DescriptorNode :=
  D_Enum "CodeownersResult" 1
    (map (fun '(discriminant, name) =>
       variant "CodeownersResult" discriminant name
         ((if discriminant =? 1 then [("location", CodeownersNonConformingLocation_node)] else [])
          ++ (if discriminant <? 2 then [("content", CodeownersContent_node)] else [])
          ++ (if discriminant =? 3 then [("reason", IndeterminateReason_node)] else [])
          ++ [("timestamp", timestamp_node)]))
      (zip_numbers ["Conforming"; "NonConforming"; "Absent"; "Unobservable"])).

(** *** Repositories *)

Definition DependabotResult_node := D_Struct "DependabotResult"
  [("status", DependabotStatus_node); ("reason", D_Option (string_node MAX_REASON));
   ("timestamp", timestamp_node)].
Definition RepositoryChecks_node := D_Struct "RepositoryChecks"
  [("security_policy", SecurityPolicyResult_node); ("secret_scanning", SecretScanningResult_node);
   ("dependabot_security_updates", DependabotResult_node);
   ("branch_protection", BranchProtectionResult_node); ("codeowners", CodeownersResult_node)].
Definition LastCommitInfo_node := D_Struct "LastCommitInfo"
  [("committer_login", D_Option (string_node MAX_LOGIN));
   ("committer_name", D_Option (string_node MAX_PERSON_NAME));
   ("commit_date", D_Option timestamp_node)].
Definition Repository_node := D_Struct "Repository"
  [("id", nonempty_node MAX_GITHUB_ID); ("node_id", D_Option (string_node MAX_NODE_ID));
   ("name", nonempty_node MAX_REPO_NAME); ("visibility", Visibility_node);
   ("language", D_Option (string_node MAX_LANGUAGE));
   ("default_branch", nonempty_node MAX_BRANCH_NAME); ("archived", bool_node);
   ("inventory_key", nonempty_node MAX_DOMAIN_KEY);
   ("updated_at", D_Option (nonempty_node MAX_TIMESTAMP_TEXT)); ("has_issues", bool_node);
   ("pushed_at", D_Option timestamp_node); ("created_at", D_Option timestamp_node);
   ("description", D_Option (string_node MAX_DESCRIPTION)); ("fork", bool_node);
   ("is_empty", bool_node); ("html_url", D_Option (string_node MAX_URL));
   ("topics", D_EventVec (string_node MAX_TOPIC) MAX_TOPICS);
   ("license_spdx", D_Option (string_node MAX_LICENSE))].
Definition RepositoryEvidence_node := D_Struct "RepositoryEvidence"
  [("repository", Repository_node); ("checks", RepositoryChecks_node);
   ("last_commit", D_Option LastCommitInfo_node)].

(** *** The organization and its teams *)

Definition CollectionCoverage_node := D_Enum "CollectionCoverage" 1
  [(0, "Unknown", None);
   (1, "Known", Some (D_Struct "CollectionCoverage_Known"
      [("total", D_Base BT_u32); ("limit", D_Base BT_u64)]))].
Definition AssessmentMetadata_node := D_Struct "AssessmentMetadata"
  [("date", string_node MAX_ASSESSMENT_DATE); ("organization", string_node MAX_LOGIN);
   ("schema_version", string_node MAX_SCHEMA_VERSION);
   ("run_timestamp", string_node MAX_TIMESTAMP_TEXT); ("run_id", string_node MAX_RUN_ID);
   ("token_tier", TokenTier_node); ("token_scopes", string_node MAX_TOKEN_SCOPES);
   ("auth_mode", AuthMode_node); ("rate_limit_warnings", D_Base BT_u32);
   ("unavailable_capabilities", D_EventVec Capability_node MAX_UNAVAILABLE_CAPABILITIES);
   ("inventory_fetched_at", D_Option (string_node MAX_TIMESTAMP_TEXT)); ("warm_start", bool_node);
   ("coverage", CollectionCoverage_node)].
Definition when_node := D_Option (string_node MAX_TIMESTAMP_TEXT).
Definition RepoAlertSummary_node := D_Struct "RepoAlertSummary"
  [("open_alert_count", D_Base BT_u64); ("oldest_open_alert_created_at", when_node);
   ("newest_open_alert_created_at", when_node)].
Definition RepoAlertSummaryEntry_node := D_Struct "RepoAlertSummaryEntry"
  [("repository_id", string_node MAX_GITHUB_ID); ("summary", RepoAlertSummary_node)].
Definition StringU64Entry_node := D_Struct "StringU64Entry"
  [("key", string_node MAX_ALERT_BUCKET); ("value", D_Base BT_u64)].
Definition OrgAlertSummary_node := D_Struct "OrgAlertSummary"
  [("collection_status", CollectionStatus_node); ("collection_reason", D_Option (string_node MAX_REASON));
   ("http_status", http_node); ("per_repo", D_EventVec RepoAlertSummaryEntry_node MAX_ORG_ALERT_REPOS);
   ("open_secret_alert_age_buckets", D_EventVec StringU64Entry_node MAX_ALERT_BUCKETS);
   ("total_open_secret_alerts", D_Base BT_u64); ("oldest_open_secret_alert_created_at", when_node);
   ("newest_open_secret_alert_created_at", when_node)].
Definition OrgStateCaptured_node := D_Struct "OrgStateCaptured"
  [("archived_repos", D_Base BT_u32); ("assessment_metadata", AssessmentMetadata_node);
   ("alert_summary", OrgAlertSummary_node)].

Definition TeamMemberEvent_node := D_Struct "TeamMemberEvent"
  [("login", nonempty_node MAX_LOGIN); ("role", TeamMemberRoleEvent_node); ("in_org", D_Option bool_node)].
Definition OrphanAttributionInputs_node := D_Struct "OrphanAttributionInputs"
  [("org_membership_fetch_status", OrgMembershipFetchStatus_node)].
Definition TeamStateCaptured_node := D_Struct "TeamStateCaptured"
  [("org", nonempty_node MAX_LOGIN); ("team_slug", nonempty_node MAX_LOGIN);
   ("members", D_EventVec TeamMemberEvent_node MAX_TEAM_MEMBERS);
   ("orphan_attribution_inputs", OrphanAttributionInputs_node);
   ("fetched_at", string_node MAX_TIMESTAMP_TEXT); ("status", TeamRosterStatusEvent_node)].

(** *** Events *)

Definition DomainEvent_node := D_Enum "DomainEvent" 1
  [(0, "RepositoryStateCaptured", Some (D_Struct "DomainEvent_RepositoryStateCaptured"
      [("domain_key", nonempty_node MAX_DOMAIN_KEY); ("repo_name", nonempty_node MAX_REPO_NAME);
       ("timestamp", timestamp_node); ("evidence", D_Option RepositoryEvidence_node)]));
   (1, "RepositoryDeleted", Some (D_Struct "DomainEvent_RepositoryDeleted"
      [("domain_key", nonempty_node MAX_DOMAIN_KEY); ("repo_name", nonempty_node MAX_REPO_NAME);
       ("detected_at", timestamp_node)]));
   (2, "OrgStateCaptured", Some OrgStateCaptured_node);
   (3, "TeamStateCaptured", Some TeamStateCaptured_node)].

Definition SweepTimeoutEvent_node := D_Enum "SweepTimeoutEvent" 1
  [(0, "TargetOpened", Some (D_Struct "SweepTimeoutEvent_TargetOpened" [("event_id", D_Base BT_Uuid)]));
   (1, "TimeoutFired", Some (D_Struct "SweepTimeoutEvent_TimeoutFired"
      [("event_id", D_Base BT_Uuid); ("run_id", string_node MAX_RUN_ID);
       ("error", string_node MAX_SWEEP_TIMEOUT_ERROR); ("elapsed_ms", D_Base BT_u64)]))].

(** [schema_descriptor] of the types that are written as payloads. *)
Definition schema_descriptors : list DescriptorNode :=
  [DomainEvent_node; OrgStateCaptured_node; TeamStateCaptured_node; SweepTimeoutEvent_node].

(** ** Depths *)

(** The depth of a descriptor, as pardosa counts it. *)
Fixpoint ast_depth (n : DescriptorNode) : nat :=
  match n with
  | D_Base _ => O
  | D_Option inner | D_EventVec inner _ => S (ast_depth inner)
  | D_Struct _ fields => foldr (fun f m => Nat.max (S (ast_depth f.2)) m) O fields
  | D_Enum _ _ variants =>
    foldr (fun v m => Nat.max (match v.2 with Some p => S (ast_depth p) | None => O end) m) O variants
  end.

(** [TYPE_DEPTH] in the macros: of an enumeration; of a struct, from the depths
    of its fields; of a union, from those of all fields of its variants. *)
Definition enum_depth : nat := O.
Definition struct_depth (fields : list nat) : nat := (1 + foldl Nat.max O fields)%nat.
Definition union_depth (fields : list nat) : nat := (2 + foldl Nat.max O fields)%nat.

(** Written by hand. *)
Definition SecurityPolicyResult_TYPE_DEPTH : nat := 2.
Definition CollectionCoverage_TYPE_DEPTH : nat := 2.
Definition SweepTimeoutEvent_TYPE_DEPTH : nat := 2.
Definition CodeownersContent_TYPE_DEPTH (parsed : nat) : nat := (1 + parsed)%nat.
Definition CodeownersResult_TYPE_DEPTH (content : nat) : nat := (2 + content)%nat.
Definition DomainEvent_TYPE_DEPTH (option_evidence org team : nat) : nat :=
  let repository := (2 + option_evidence)%nat in
  let org := (1 + org)%nat in
  let team := (1 + team)%nat in
  let max := if (org <? repository)%nat then repository else org in
  if (team <? max)%nat then max else team.

(** The depths of the macros are those of their descriptors. *)
Lemma foldl_max_depths fs acc : (acc <= foldl Nat.max acc fs)%nat /\
  foldl Nat.max acc fs = Nat.max acc (foldr Nat.max O fs).
Proof.
  revert acc. induction fs as [|d fs IH]; intros acc; simpl; [lia|].
  destruct (IH (Nat.max acc d)) as [H ->]. lia.
Qed.

Lemma struct_depth_exact name (fields : list (string * DescriptorNode)) :
  fields <> [] ->
  ast_depth (D_Struct name fields) = struct_depth (map (fun f => ast_depth f.2) fields).
Proof.
  intros Hne. unfold struct_depth. destruct (foldl_max_depths (map (fun f => ast_depth f.2) fields) O) as [_ ->].
  simpl. destruct fields as [|f fields]; [done|]. clear Hne. revert f.
  induction fields as [|g fields IH]; intros f; simpl in *; [lia|]. rewrite (IH g). lia.
Qed.

(** ** What a descriptor says of bytes *)

Class PardosaLayouts := {
  base_layout : BaseType -> list N -> Prop;
  option_layout : (list N -> Prop) -> list N -> Prop;
  vec_layout : N -> (list N -> Prop) -> list N -> Prop;
}.

(** Bytes that are laid out as a descriptor says: the fields of a struct one
    after another; of an enumeration the byte of one of its variants and that
    variant's payload. *)
Fixpoint laid `{PardosaLayouts} (n : DescriptorNode) (bs : list N) {struct n} : Prop :=
  match n with
  | D_Base t => base_layout t bs
  | D_Option inner => option_layout (laid inner) bs
  | D_EventVec inner max => vec_layout max (laid inner) bs
  | D_Struct _ fields =>
    (fix in_turn (fields : list (string * DescriptorNode)) bs :=
       match fields with
       | [] => bs = []
       | f :: fields => exists b1 b2, bs = b1 ++ b2 /\ laid f.2 b1 /\ in_turn fields b2
       end) fields bs
  | D_Enum _ _ variants =>
    exists tag rest, bs = tag :: rest /\
      (fix one_of (variants : list (N * string * option DescriptorNode)) :=
         match variants with
         | [] => False
         | v :: variants =>
           (v.1.1 = tag /\ match v.2 with Some p => laid p rest | None => rest = [] end)
           \/ one_of variants
         end) variants
  end.

(** What a codec writes is laid out as the descriptor says. *)
Definition describes `{PardosaLayouts} {EncodeError A} (n : DescriptorNode) (c : Codec EncodeError A) : Prop :=
  forall a buf out, valid c a -> encode_type c a buf = Ok out ->
    exists bs, out = buf ++ bs /\ laid n bs.

Class PardosaLayoutLaws `{!Pardosa} EncodeError `{!PardosaCodecs EncodeError} `{!PardosaLayouts} : Prop := {
  u16_described : describes (D_Base BT_u16) u16_codec;
  u32_described : describes (D_Base BT_u32) u32_codec;
  u64_described : describes (D_Base BT_u64) u64_codec;
  bool_described : describes bool_node bool_codec;
  timestamp_described : describes timestamp_node timestamp_codec;
  uuid_described : describes (D_Base BT_Uuid) uuid_codec;
  string_described max : describes (string_node max) (string_codec max);
  nonempty_described max : describes (nonempty_node max) (nonempty_codec max);
  option_described {A} n (c : Codec EncodeError A) :
    describes n c -> describes (D_Option n) (option_codec c);
  vec_described {A} n max (c : Codec EncodeError A) :
    describes n c -> describes (D_EventVec n max) (vec_codec max c);
}.

(** No name and no tag twice, at any depth. *)
Fixpoint well_formed (n : DescriptorNode) : bool :=
  match n with
  | D_Base _ => true
  | D_Option inner | D_EventVec inner _ => well_formed inner
  | D_Struct _ fields =>
    bool_decide (NoDup fields.*1) && forallb (fun f => well_formed f.2) fields
  | D_Enum _ width variants =>
    (width =? 1) && bool_decide (NoDup (map (fun v => v.1.1) variants))
    && bool_decide (NoDup (map (fun v => v.1.2) variants))
    && forallb (fun v => (v.1.1 <? 256) && match v.2 with Some p => well_formed p | None => true end) variants
  end.

(** ** The codecs write what the descriptors say *)

Create HintDb schema.

Section Described.
  Context {P : Pardosa} {EncodeError : Type} {PC : PardosaCodecs EncodeError}.
  Context {L : PardosaLayouts} {LL : PardosaLayoutLaws EncodeError}.
  Notation Codec := (Codec EncodeError).
  Notation describes := (describes (EncodeError := EncodeError)).
  #[local] Open Scope codec_scope.

(** Fields that a codec of pairs writes in turn. *)
Definition fields_described {A} (fields : list (string * DescriptorNode)) (c : Codec A) : Prop :=
  describes (D_Struct "" fields) c.

Lemma fields_none : fields_described [] no_fields.
Proof. intros a buf out _ [= <-]. exists []. by rewrite app_nil_r. Qed.

Lemma fields_last {A} name n (c : Codec A) : describes n c -> fields_described [(name, n)] c.
Proof.
  intros Hc a buf out Hv He. destruct (Hc a buf out Hv He) as (bs & -> & Hl).
  exists bs. split; [done|]. exists bs, []. by rewrite app_nil_r.
Qed.

Lemma fields_more {A B} name n fields (c : Codec A) (d : Codec B) :
  describes n c -> fields_described fields d -> fields_described ((name, n) :: fields) (c ⊗ d).
Proof.
  intros Hc Hd [a b] buf out [Va Vb] He; simpl in *.
  destruct (encode_type c a buf) as [buf1|] eqn:E1; [|done].
  destruct (Hc _ _ _ Va E1) as (b1 & -> & L1). destruct (Hd _ _ _ Vb He) as (b2 & -> & L2).
  exists (b1 ++ b2). split; [by rewrite app_assoc|]. by exists b1, b2.
Qed.

Lemma struct_described {A} name fields (c : Codec A) :
  fields_described fields c -> describes (D_Struct name fields) c.
Proof. done. Qed.

Lemma map_described {A B} n (into : B -> A) (from : A -> B) (c : Codec A) :
  describes n c -> describes n (map_codec into from c).
Proof. intros Hc b buf out Hv He. by apply (Hc (into b)). Qed.

Lemma enum_described {A} `{EqDecision A} name variants (table : list (A * N)) :
  (forall a, wire_of table a ∈ variants.*1) -> describes (enum_node name variants) (enum_codec table : Codec A).
Proof.
  intros Hin a buf out _ [= <-]. eexists. split; [done|]. simpl.
  eexists _, []. split; [done|]. specialize (Hin a). clear -Hin.
  induction variants as [|v variants IH]; simpl in *; [by apply not_elem_of_nil in Hin|].
  apply elem_of_cons in Hin as [-> |Hin]; [by left|right; by apply IH].
Qed.

(** One variant of a union, with its payload or without. *)
Lemma payload_described {A} name width variants tag vname p (c : Codec A) a buf out :
  encode_variant tag c a buf = Ok out -> valid c a -> (tag, vname, Some p) ∈ variants -> describes p c ->
  exists bs, out = buf ++ bs /\ laid (D_Enum name width variants) bs.
Proof.
  intros He Hv Hin Hp. destruct (Hp _ _ _ Hv He) as (bs & -> & Hl).
  exists (tag :: bs). split; [by rewrite -app_assoc|]. simpl. exists tag, bs. split; [done|].
  clear He Hp. induction variants as [|v variants IH]; [by apply not_elem_of_nil in Hin|].
  apply elem_of_cons in Hin as [<- |Hin]; [by left|right; by apply IH].
Qed.

Lemma bare_described name width variants tag vname buf out :
  encode_variant tag (no_fields (EncodeError := EncodeError)) () buf = Ok out -> (tag, vname, None) ∈ variants ->
  exists bs, out = buf ++ bs /\ laid (D_Enum name width variants) bs.
Proof.
  intros [= <-] Hin. exists [tag]. split; [done|]. simpl. exists tag, []. split; [done|].
  induction variants as [|v variants IH]; [by apply not_elem_of_nil in Hin|].
  apply elem_of_cons in Hin as [<- |Hin]; [by left|right; by apply IH].
Qed.

Lemma fields_map {A B} fields (into : B -> A) (from : A -> B) (c : Codec A) :
  fields_described fields c -> fields_described fields (map_codec into from c).
Proof. apply map_described. Qed.

(** The fields of a struct, each by what is known of its type. *)
Ltac described_type :=
  first
    [ solve [eauto with schema nocore]
    | apply u16_described | apply u32_described | apply u64_described | apply bool_described
    | apply timestamp_described | apply uuid_described | apply string_described
    | apply nonempty_described
    | apply option_described; described_type
    | apply vec_described; described_type
    | apply enum_described; intros []; set_solver ].
Ltac described_fields :=
  repeat (apply fields_more; [described_type|]);
  first [apply fields_last; described_type | apply fields_none].
Ltac described_struct := apply struct_described; try apply fields_map; described_fields.

Ltac this_variant := first [apply list_elem_of_here | apply list_elem_of_further; this_variant].
(** A union: each variant by its tag and the fields of its payload. *)
Ltac described_union :=
  let v := fresh "v" in let buf := fresh in let out := fresh in
  let Hv := fresh "Hv" in let He := fresh "He" in
  intros v buf out Hv He; destruct v; cbn in He, Hv;
  first
    [ eapply payload_described;
      [ exact He | first [exact Hv | exact I | split; tauto] | this_variant
      | cbn [fst snd]; first [described_type | described_struct] ]
    | eapply bare_described; [exact He | this_variant] ].

Lemma IndeterminateReason_described : describes IndeterminateReason_node indeterminate_codec.
Proof. described_type. Qed.
Lemma reason_described : describes SecretScanningFailureReason_node reason_codec.
Proof. described_type. Qed.
Lemma source_described : describes ProbeSource_node source_codec.
Proof. described_type. Qed.
Lemma http_described : describes http_node http_codec.
Proof. described_type. Qed.
Lemma when_described : describes when_node when_codec.
Proof. described_type. Qed.
Lemma timestamp_type_described : describes timestamp_node timestamp.
Proof. described_type. Qed.
#[local] Hint Resolve IndeterminateReason_described reason_described source_described http_described
  when_described timestamp_type_described : schema.

Lemma MetadataUnavailable_described : describes MetadataUnavailable_node MetadataUnavailable_codec.
Proof. described_union. Qed.
#[local] Hint Resolve MetadataUnavailable_described : schema.
Lemma SecretScanningAlerts_described : describes SecretScanningAlerts_node SecretScanningAlerts_codec.
Proof. described_union. Qed.
#[local] Hint Resolve SecretScanningAlerts_described : schema.
Lemma EnabledProvenance_described : describes EnabledProvenance_node EnabledProvenance_codec.
Proof. described_union. Qed.
#[local] Hint Resolve EnabledProvenance_described : schema.
Lemma DisabledObservation_described : describes DisabledObservation_node DisabledObservation_codec.
Proof. described_union. Qed.
#[local] Hint Resolve DisabledObservation_described : schema.
Lemma UnobservableProbe_described : describes UnobservableProbe_node UnobservableProbe_codec.
Proof. described_union. Qed.
#[local] Hint Resolve UnobservableProbe_described : schema.
Lemma SecretScanningResult_described : describes SecretScanningResult_node SecretScanningResult_codec.
Proof. described_union. Qed.
#[local] Hint Resolve SecretScanningResult_described : schema.
Lemma HistoryProtectionGap_described : describes HistoryProtectionGap_node HistoryProtectionGap_codec.
Proof. described_union. Qed.
#[local] Hint Resolve HistoryProtectionGap_described : schema.
Lemma BranchProtectionResult_described : describes BranchProtectionResult_node BranchProtectionResult_codec.
Proof. described_union. Qed.
#[local] Hint Resolve BranchProtectionResult_described : schema.
Lemma SecurityPolicyResult_described : describes SecurityPolicyResult_node SecurityPolicyResult_codec.
Proof. described_union. Qed.
#[local] Hint Resolve SecurityPolicyResult_described : schema.

Lemma owners_described :
  describes (D_EventVec (string_node MAX_CODEOWNERS_OWNER) MAX_CODEOWNERS_OWNERS) owners_codec.
Proof. described_type. Qed.
#[local] Hint Resolve owners_described : schema.
Lemma CodeownersEntry_described : describes CodeownersEntry_node CodeownersEntry_codec.
Proof. described_struct. Qed.
#[local] Hint Resolve CodeownersEntry_described : schema.
Lemma ParsedCodeowners_described : describes ParsedCodeowners_node ParsedCodeowners_codec.
Proof. described_struct. Qed.
#[local] Hint Resolve ParsedCodeowners_described : schema.
Lemma truncation_described : describes CodeownersTruncationReason_node truncation_codec.
Proof. described_type. Qed.
Lemma location_described : describes CodeownersNonConformingLocation_node location_codec.
Proof. described_type. Qed.
#[local] Hint Resolve truncation_described location_described : schema.
Lemma CodeownersContent_described : describes CodeownersContent_node CodeownersContent_codec.
Proof. described_union. Qed.
#[local] Hint Resolve CodeownersContent_described : schema.
Lemma CodeownersResult_described : describes CodeownersResult_node CodeownersResult_codec.
Proof. described_union. Qed.
#[local] Hint Resolve CodeownersResult_described : schema.
Lemma DependabotResult_described : describes DependabotResult_node DependabotResult_codec.
Proof. described_struct. Qed.
#[local] Hint Resolve DependabotResult_described : schema.
Lemma RepositoryChecks_described : describes RepositoryChecks_node RepositoryChecks_codec.
Proof. described_struct. Qed.
#[local] Hint Resolve RepositoryChecks_described : schema.
Lemma LastCommitInfo_described : describes LastCommitInfo_node LastCommitInfo_codec.
Proof. described_struct. Qed.
#[local] Hint Resolve LastCommitInfo_described : schema.
Lemma Repository_described : describes Repository_node Repository_codec.
Proof. described_struct. Qed.
#[local] Hint Resolve Repository_described : schema.
Lemma RepositoryEvidence_described : describes RepositoryEvidence_node RepositoryEvidence_codec.
Proof. described_struct. Qed.
#[local] Hint Resolve RepositoryEvidence_described : schema.
Lemma CollectionCoverage_described : describes CollectionCoverage_node CollectionCoverage_codec.
Proof. described_union. Qed.
#[local] Hint Resolve CollectionCoverage_described : schema.
Lemma AssessmentMetadata_described : describes AssessmentMetadata_node AssessmentMetadata_codec.
Proof. described_struct. Qed.
#[local] Hint Resolve AssessmentMetadata_described : schema.
Lemma RepoAlertSummary_described : describes RepoAlertSummary_node RepoAlertSummary_codec.
Proof. described_struct. Qed.
#[local] Hint Resolve RepoAlertSummary_described : schema.
Lemma RepoAlertSummaryEntry_described : describes RepoAlertSummaryEntry_node RepoAlertSummaryEntry_codec.
Proof. described_struct. Qed.
#[local] Hint Resolve RepoAlertSummaryEntry_described : schema.
Lemma StringU64Entry_described : describes StringU64Entry_node StringU64Entry_codec.
Proof. described_struct. Qed.
#[local] Hint Resolve StringU64Entry_described : schema.
Lemma OrgAlertSummary_described : describes OrgAlertSummary_node OrgAlertSummary_codec.
Proof. described_struct. Qed.
#[local] Hint Resolve OrgAlertSummary_described : schema.
Lemma OrgStateCaptured_described : describes OrgStateCaptured_node OrgStateCaptured_codec.
Proof. described_struct. Qed.
#[local] Hint Resolve OrgStateCaptured_described : schema.
Lemma TeamMemberEvent_described : describes TeamMemberEvent_node TeamMemberEvent_codec.
Proof. described_struct. Qed.
#[local] Hint Resolve TeamMemberEvent_described : schema.
Lemma OrphanAttributionInputs_described :
  describes OrphanAttributionInputs_node (enum_codec OrgMembershipFetchStatus_wire).
Proof. described_struct. Qed.
#[local] Hint Resolve OrphanAttributionInputs_described : schema.
Lemma TeamStateCaptured_described : describes TeamStateCaptured_node TeamStateCaptured_codec.
Proof. described_struct. Qed.
#[local] Hint Resolve TeamStateCaptured_described : schema.
Lemma DomainEvent_described : describes DomainEvent_node DomainEvent_codec.
Proof. described_union. Qed.
#[local] Hint Resolve DomainEvent_described : schema.
Lemma SweepTimeoutEvent_described : describes SweepTimeoutEvent_node SweepTimeoutEvent_codec.
Proof. described_union. Qed.
#[local] Hint Resolve SweepTimeoutEvent_described : schema.

Lemma payload_laid {A} n (c : Codec A) a bs :
  describes n c -> valid c a -> encode_payload c a [] = Ok bs -> laid n bs.
Proof. intros Hc Hv He. by destruct (Hc _ _ _ Hv He) as (bs' & -> & Hl). Qed.

Lemma descriptors_checked :
  Forall (fun n => well_formed n = true /\ (ast_depth n <= 16)%nat) schema_descriptors.
Proof.
  assert (forallb (fun n => well_formed n && (ast_depth n <=? 16)%nat) schema_descriptors = true) as Hall
    by (vm_compute; reflexivity).
  rewrite forallb_forall in Hall. rewrite Forall_forall. intros n Hn%list_elem_of_In%Hall.
  by rewrite andb_true_iff Nat.leb_le in Hn.
Qed.

(** C5: what is appended to the stores is what its schema says.  The bytes of
    every durable event, organization snapshot, team roster and sweep timeout
    are laid out as the type's schema descriptor describes: every field in its
    place, every variant under its tag.  The descriptors are unambiguous (within
    a struct or an enumeration no name and no tag occurs twice, and a tag fits
    its byte) and no deeper than the sixteen levels that are admitted; and the
    depths that were written by hand are those of the descriptors. *)
Theorem schema_describes_events :
  (forall e bs, valid DomainEvent_codec e -> encode_payload DomainEvent_codec e [] = Ok bs ->
     laid DomainEvent_node bs) /\
  (forall o bs, valid OrgStateCaptured_codec o -> encode_payload OrgStateCaptured_codec o [] = Ok bs ->
     laid OrgStateCaptured_node bs) /\
  (forall t bs, valid TeamStateCaptured_codec t -> encode_payload TeamStateCaptured_codec t [] = Ok bs ->
     laid TeamStateCaptured_node bs) /\
  (forall s bs, valid SweepTimeoutEvent_codec s -> encode_payload SweepTimeoutEvent_codec s [] = Ok bs ->
     laid SweepTimeoutEvent_node bs) /\
  Forall (fun n => well_formed n = true /\ (ast_depth n <= 16)%nat) schema_descriptors /\
  SecurityPolicyResult_TYPE_DEPTH = ast_depth SecurityPolicyResult_node /\
  CollectionCoverage_TYPE_DEPTH = ast_depth CollectionCoverage_node /\
  SweepTimeoutEvent_TYPE_DEPTH = ast_depth SweepTimeoutEvent_node /\
  CodeownersContent_TYPE_DEPTH (ast_depth ParsedCodeowners_node) = ast_depth CodeownersContent_node /\
  CodeownersResult_TYPE_DEPTH (ast_depth CodeownersContent_node) = ast_depth CodeownersResult_node /\
  DomainEvent_TYPE_DEPTH (ast_depth (D_Option RepositoryEvidence_node)) (ast_depth OrgStateCaptured_node)
    (ast_depth TeamStateCaptured_node) = ast_depth DomainEvent_node.
Proof.
  split; [|split; [|split; [|split; [|split; [exact descriptors_checked|by vm_compute]]]]].
  - intros e bs. apply payload_laid, DomainEvent_described.
  - intros o bs. apply payload_laid, OrgStateCaptured_described.
  - intros t bs. apply payload_laid, TeamStateCaptured_described.
  - intros e bs. apply payload_laid, SweepTimeoutEvent_described.
Qed.
End Described.

(** ** The concrete pardosa of [Codec] *)

Module PlainLayout.
Import Plain.
#[local] Existing Instance plain_pardosa.

Definition sized (k : nat) (bs : list N) : Prop := length bs = k.
Definition counted (item : list N -> Prop) (bs : list N) : Prop :=
  exists items, bs = le 4 (N.of_nat (length items)) ++ concat items /\ Forall item items.

#[export] Instance plain_layouts : PardosaLayouts := {|
  base_layout t :=
    match t with
    | BT_u16 => sized 2
    | BT_u32 => sized 4
    | BT_u64 | BT_Timestamp => sized 8
    | BT_bool => sized 1
    | BT_Uuid => sized 16
    | BT_EventString _ | BT_NonEmptyEventString _ => counted (sized 1)
    end;
  option_layout inner bs := bs = [0] \/ exists rest, bs = 1 :: rest /\ inner rest;
  vec_layout _ inner := counted inner;
|}.

(** [describes], with the layout written out. *)
Definition writes {A} (layout : list N -> Prop) (c : Codec A) : Prop :=
  forall a buf out, valid c a -> encode_type c a buf = Ok out -> exists bs, out = buf ++ bs /\ layout bs.

Lemma num_writes k : writes (sized k) (num k).
Proof. intros n buf out _ [= <-]. eexists. split; [done|]. apply le_length. Qed.

Lemma map_writes {A B} layout (into : B -> A) (from : A -> B) (c : Codec A) :
  writes layout c -> writes layout (map_codec into from c).
Proof. intros Hc b buf out Hv He. by apply (Hc (into b)). Qed.

Lemma refine_writes {A B} layout (into : B -> A) (from : A -> option B) (c : Codec A) :
  writes layout c -> writes layout (refine into from c).
Proof. intros Hc b buf out Hv He. by apply (Hc (into b)). Qed.

Lemma list_writes {A} layout (c : Codec A) : writes layout c -> writes (counted layout) (list_codec c).
Proof.
  intros Hc l buf out [_ Hl] He. cbn in He.
  assert (forall buf out, list_encode c l buf = Ok out ->
    exists items, out = buf ++ concat items /\ Forall layout items /\ length items = length l) as Hw.
  { clear He buf out. induction Hl as [|a l Ha _ IH]; intros buf out He; simpl in He.
    - injection He as <-. exists []. by rewrite app_nil_r.
    - destruct (encode_type c a buf) as [buf1|] eqn:E; [|done].
      destruct (Hc _ _ _ Ha E) as (b1 & -> & L1). destruct (IH _ _ He) as (items & -> & Hi & Hlen).
      exists (b1 :: items). simpl. rewrite app_assoc Hlen. auto. }
  destruct (Hw _ _ He) as (items & -> & Hi & Hlen).
  exists (le 4 (N.of_nat (length l)) ++ concat items). split; [by rewrite app_assoc|].
  exists items. by rewrite Hlen.
Qed.

Lemma text_writes : writes (counted (sized 1)) text.
Proof. apply map_writes, list_writes, map_writes, num_writes. Qed.

Lemma optional_writes {A} n (c : Codec A) : describes n c -> describes (D_Option n) (optional c).
Proof.
  intros Hc [a|] buf out Hv He.
  - destruct (Hc _ _ _ Hv He) as (bs & -> & Hl). exists (1 :: bs). rewrite -app_assoc.
    split; [done|]. right. by exists bs.
  - injection He as <-. exists [0]. split; [done|]. by left.
Qed.

#[export] Instance plain_layout_laws : PardosaLayoutLaws Empty_set.
Proof.
  split.
  1-3: apply num_writes.
  - apply map_writes, num_writes.
  - apply refine_writes, num_writes.
  - apply num_writes.
  - intros max. apply refine_writes, text_writes.
  - intros max. apply refine_writes, text_writes.
  - intros A n c. apply optional_writes.
  - intros A n max c Hc. apply refine_writes, list_writes, Hc.
Qed.

Lemma schema_describes_events_witness :
  encode_payload DomainEvent_codec sample_event [] = Ok sample_bytes /\
  laid DomainEvent_node sample_bytes.
Proof.
  assert (He : encode_payload DomainEvent_codec sample_event [] = Ok sample_bytes)
    by (vm_compute; reflexivity).
  split; [exact He|].
  refine (proj1 schema_describes_events sample_event sample_bytes _ He).
  cbn. repeat split; repeat constructor.
Defined.
End PlainLayout.
