(* ===== verification/AppState.v ===== *)
(** * The write facade ([app/state/mod.rs])

    Every durable write of the service: admission behind the reconciliation
    latch, the conversion to an event, the appends to the primary store and to
    the dedicated organization and team stores, and the fold of the event into
    the resident projection.  The stores are those of [Store], the events and
    their conversions those of [Events] and [Convert].  Lock poisoning is not
    modelled. *)

From S2P Require Import Prelude Str Repository Checks Evidence Metrics Run Projection WritePolicy.
From S2P Require Import Store Events Convert.

(** [detach_tombstone_roster]. *)
Definition detach_tombstone_roster (r : TeamRoster) : TeamRoster :=
  mkTeamRoster (canonical_owner r) (team_slug r) (roster_status r) [] None.

Section AppState.
  Context {P : Pardosa} (parse_timestamp : string -> option Z) (jiff_string : Z -> option string).
  Notation Native := NativeDomainEvent.
  Notation NOrg := NativeOrgStateCaptured.
  Context {B : Type} `{!Backend B Native} `{!Backend B NOrg} `{!Backend B TeamEvent}.

Record AppWrites := mkAppWrites {
  event_store : StoreInner B Native;
  org_event_store : StoreInner B NOrg;
  team_event_store : StoreInner B TeamEvent;
  projection_state : EvidenceProjection;
  write_admission : option ErrorView;
}.

(** ** Conversion *)

Definition conversion_persistence (error : EventConversionError) : ErrorView := V_LoadFailed.

Definition non_empty (max : N) (field value : string)
    : result ErrorView (NonEmptyEventString max) :=
  map_err conversion_persistence (to_nes max field value).
Definition bounded_string (max : N) (field value : string) : result ErrorView (EventString max) :=
  map_err conversion_persistence (to_es max field value).
Definition event_timestamp (field value : string) : result ErrorView Timestamp :=
  map_err conversion_persistence (ts_required parse_timestamp field value).
Definition event_timestamp_string (t : Timestamp) : string := ts_to_string jiff_string t.

Definition repo_event (domain_key repo_name timestamp : string)
    (evidence : option NativeRepositoryEvidence) : result ErrorView Native :=
  let? k := non_empty MAX_DOMAIN_KEY "domain_key" domain_key in
  let? n := non_empty MAX_REPO_NAME "repo_name" repo_name in
  let? t := event_timestamp "timestamp" timestamp in
  Ok (NE_RepositoryStateCaptured k n t evidence).

Definition deleted_repo_event (domain_key repo_name detected_at : string)
    : result ErrorView Native :=
  let? k := non_empty MAX_DOMAIN_KEY "domain_key" domain_key in
  let? n := non_empty MAX_REPO_NAME "repo_name" repo_name in
  let? t := event_timestamp "detected_at" detected_at in
  Ok (NE_RepositoryDeleted k n t).

(** The closure over a roster's members. *)
Definition member_event (m : TeamMember) : result ErrorView TeamMemberEvent :=
  let? l := non_empty MAX_LOGIN "member.login" (login m) in
  Ok (mkTeamMemberEvent l (role m) (member_in_org m)).

Definition team_state_event (org : string) (roster : TeamRoster) (fetched_at : string)
    (status : OrgMembershipFetchStatus) : result ErrorView TeamEvent :=
  let? ms := collect member_event (members roster) in
  let? ms := map_err conversion_persistence (bounded_vec MAX_TEAM_MEMBERS "members" ms) in
  let? o := non_empty MAX_LOGIN "org" org in
  let? s := non_empty MAX_LOGIN "team_slug" (team_slug roster) in
  let? f := bounded_string MAX_TIMESTAMP_TEXT "fetched_at" fetched_at in
  Ok (mkTeamEvent o s ms status f (roster_status roster)).

(** ** Folding into the projection *)

Definition org_projection_event (o : NOrg) : EvidenceProjectionEvent :=
  OrgStateCaptured (org_into o).

(** The [expect] on the key: an event never has an empty part. *)
Definition team_projection_event (detached : bool) (t : TeamEvent) : EvidenceProjectionEvent :=
  TeamStateCaptured detached (default "" (team_domain_key (ne_str (te_org t)) (ne_str (te_team_slug t))))
    (Some (team_event_into t)).

(** The projection event of [fold_native_event], if any. *)
Definition native_projection_event (detached : bool) (e : Native)
    : option EvidenceProjectionEvent :=
  match e with
  | NE_RepositoryStateCaptured k _ _ ev =>
    Some (RepositoryStateCaptured detached (ne_str k) (option_map (evidence_into jiff_string) ev))
  | NE_RepositoryDeleted k n t => Some (RepositoryDeleted (ne_str k) (ne_str n) (event_timestamp_string t))
  | NE_OrgStateCaptured o => if negb detached then Some (org_projection_event o) else None
  | NE_TeamStateCaptured t => Some (team_projection_event detached t)
  end.

Definition fold_native_event (p : EvidenceProjection) (detached : bool) (e : Native)
    : EvidenceProjection :=
  match native_projection_event detached e with Some e => apply p e | None => p end.

Definition fold_org_event (p : EvidenceProjection) (o : NOrg) : EvidenceProjection :=
  apply p (org_projection_event o).

Definition fold_team_event (p : EvidenceProjection) (t : TeamEvent) : EvidenceProjection :=
  apply p (team_projection_event false t).

(** [projection_from_stores]: the projection a restart or a refresh builds. *)
Definition projection_from_stores (s : AppWrites) : result StoreError EvidenceProjection :=
  let? p := fold_events fold_native_event EvidenceProjection_default (event_store s) in
  let? p := fold_defined_events fold_org_event p (org_event_store s) in
  fold_defined_events fold_team_event p (team_event_store s).

Definition with_primary (st : StoreInner B Native) (s : AppWrites) : AppWrites :=
  mkAppWrites st (org_event_store s) (team_event_store s) (projection_state s)
    (write_admission s).
Definition with_org (st : StoreInner B NOrg) (s : AppWrites) : AppWrites :=
  mkAppWrites (event_store s) st (team_event_store s) (projection_state s) (write_admission s).
Definition with_team (st : StoreInner B TeamEvent) (s : AppWrites) : AppWrites :=
  mkAppWrites (event_store s) (org_event_store s) st (projection_state s) (write_admission s).
Definition with_projection (p : EvidenceProjection) (s : AppWrites) : AppWrites :=
  mkAppWrites (event_store s) (org_event_store s) (team_event_store s) p (write_admission s).
Definition with_admission (a : option ErrorView) (s : AppWrites) : AppWrites :=
  mkAppWrites (event_store s) (org_event_store s) (team_event_store s) (projection_state s) a.

(** ** Admission *)

(** An operation: its result, whether the primary write landed, the state. *)
Definition Operation := AppWrites -> result ErrorView () * bool * AppWrites.

(** [AppState::admitted_write]. *)
Definition admitted_write (operation : Operation) (s : AppWrites)
    : result ErrorView () * AppWrites :=
  match write_admission s with
  | Some _ => (Err V_Indeterminate, s)
  | None =>
    let '(outcome, primary_landed, s) := operation s in
    match outcome with
    | Err error =>
      if primary_landed || match error with V_Indeterminate => true | _ => false end
      then (Err V_Indeterminate, with_admission (Some V_Indeterminate) s)
      else (Err error, s)
    | Ok _ => (Ok (), s)
    end
  end.

(** [AppState::ensure_write_admission] and [stop_for_reconciliation]. *)
Definition ensure_write_admission (s : AppWrites) : result ErrorView () :=
  match write_admission s with None => Ok () | Some _ => Err V_Indeterminate end.

Definition stop_for_reconciliation (error : ErrorView) (s : AppWrites) : AppWrites :=
  match write_admission s with
  | None => with_admission (Some error) s
  | Some _ => s
  end.

(** [event_store.record(..)?], then the rest. *)
Definition record_primary (key : string) (e : Native) (k : Operation) : Operation := fun s =>
  let '(r, st) := store_record key e (event_store s) in
  let s := with_primary st s in
  match r with Err x => (Err (native_store_persistence x), false, s) | Ok _ => k s end.

Definition record_repo (domain_key : string) (evidence : RepositoryEvidence)
    (repo_name timestamp : string) : AppWrites -> result ErrorView () * AppWrites :=
  admitted_write (fun s =>
    match map_err conversion_persistence (evidence_try_from parse_timestamp evidence) with
    | Err e => (Err e, false, s)
    | Ok native =>
      match repo_event domain_key repo_name timestamp (Some native) with
      | Err e => (Err e, false, s)
      | Ok event =>
        record_primary domain_key event (fun s =>
          (Ok (), false,
           with_projection (fold_native_event (projection_state s) false event) s)) s
      end
    end).

Definition mark_repo_deleted (domain_key repo_name detected_at : string)
    : AppWrites -> result ErrorView () * AppWrites :=
  admitted_write (fun s =>
    match deleted_repo_event domain_key repo_name detected_at with
    | Err e => (Err e, false, s)
    | Ok event =>
      record_primary domain_key event (fun s =>
        (Ok (), false,
         with_projection (fold_native_event (projection_state s) false event) s)) s
    end).

Definition remove_repo (domain_key repo_name timestamp : string)
    : AppWrites -> result ErrorView () * AppWrites :=
  admitted_write (fun s =>
    match repo_event domain_key repo_name timestamp None with
    | Err e => (Err e, false, s)
    | Ok event =>
      let '(r, st) := store_detach domain_key event (event_store s) in
      let s := with_primary st s in
      match r with
      | Err x => (Err (native_store_persistence x), false, s)
      | Ok _ =>
        (Ok (), false, with_projection (fold_native_event (projection_state s) true event) s)
      end
    end).

Definition record_org (snapshot : OrgStateSnapshot)
    : AppWrites -> result ErrorView () * AppWrites :=
  admitted_write (fun s =>
    match map_err conversion_persistence (org_try_from snapshot) with
    | Err e => (Err e, false, s)
    | Ok event =>
      let org_key := as_str (na_organization (nos_assessment_metadata event)) in
      record_primary org_key (NE_OrgStateCaptured event) (fun s =>
        let '(r, st) := store_record org_key event (org_event_store s) in
        let s := with_org st s in
        match r with
        | Err x => (Err (native_store_persistence x), true, s)
        | Ok _ => (Ok (), true, with_projection (fold_org_event (projection_state s) event) s)
        end) s
    end).

(** [fold_team_event_into_projection]. *)
Definition fold_team_into (detached : bool) (event : TeamEvent) (s : AppWrites) : AppWrites :=
  with_projection (apply (projection_state s) (team_projection_event detached event)) s.

Definition record_team (org : string) (roster : TeamRoster) (fetched_at : string)
    (status : OrgMembershipFetchStatus) : AppWrites -> result ErrorView () * AppWrites :=
  admitted_write (fun s =>
    match team_state_event org roster fetched_at status with
    | Err e => (Err e, false, s)
    | Ok event =>
      let team_key :=
        default "" (team_domain_key (ne_str (te_org event)) (ne_str (te_team_slug event))) in
      record_primary team_key (NE_TeamStateCaptured event) (fun s =>
        let '(r, st) := store_record team_key event (team_event_store s) in
        let s := with_team st s in
        match r with
        | Err x => (Err (native_store_persistence x), true, s)
        | Ok _ => (Ok (), true, fold_team_into false event s)
        end) s
    end).

Definition detach_team (org : string) (roster : TeamRoster) (fetched_at : string)
    (status : OrgMembershipFetchStatus) : AppWrites -> result ErrorView () * AppWrites :=
  admitted_write (fun s =>
    match team_state_event org (detach_tombstone_roster roster) fetched_at status with
    | Err e => (Err e, false, s)
    | Ok event =>
      let team_key :=
        default "" (team_domain_key (ne_str (te_org event)) (ne_str (te_team_slug event))) in
      let '(r, st) := store_detach team_key (NE_TeamStateCaptured event) (event_store s) in
      let s := with_primary st s in
      match r with
      | Err x => (Err (native_store_persistence x), false, s)
      | Ok primary_landed =>
        let '(r, st) := store_detach team_key event (team_event_store s) in
        let s := with_team st s in
        match r with
        | Err x => (Err (native_store_persistence x), primary_landed, s)
        | Ok _ => (Ok (), primary_landed, fold_team_into true event s)
        end
      end
    end).

(** ** The facade's operations, and sequences of them *)

Inductive WriteOp :=
| W_RecordRepo (domain_key : string) (evidence : RepositoryEvidence) (repo_name timestamp : string)
| W_MarkRepoDeleted (domain_key repo_name detected_at : string)
| W_RemoveRepo (domain_key repo_name timestamp : string)
| W_RecordOrg (snapshot : OrgStateSnapshot)
| W_RecordTeam (org : string) (roster : TeamRoster) (fetched_at : string)
    (status : OrgMembershipFetchStatus)
| W_DetachTeam (org : string) (roster : TeamRoster) (fetched_at : string)
    (status : OrgMembershipFetchStatus).

Definition run_op (o : WriteOp) : AppWrites -> result ErrorView () * AppWrites :=
  match o with
  | W_RecordRepo k ev n t => record_repo k ev n t
  | W_MarkRepoDeleted k n t => mark_repo_deleted k n t
  | W_RemoveRepo k n t => remove_repo k n t
  | W_RecordOrg snapshot => record_org snapshot
  | W_RecordTeam org r t st => record_team org r t st
  | W_DetachTeam org r t st => detach_team org r t st
  end.

Definition run_ops (os : list WriteOp) (s : AppWrites) : AppWrites :=
  fold_left (fun s o => snd (run_op o s)) os s.

(** ** Lemmas *)

(** The projection events of the primary journal. *)
Definition natives (s : AppWrites) : list EvidenceProjectionEvent :=
  omap (fun e => native_projection_event (fst (fst e)) (snd e)) (cached (event_store s)).

(** The snapshots of the organization journal that are not detached. *)
Definition org_ops (s : AppWrites) : list (fiber_op OrgReadModel) :=
  map (fun e => Observation (OrgReadModel_from (org_into (snd e))))
    (List.filter (fun e => negb (fst (fst e))) (cached (org_event_store s))).

(** What the resident projection shows of every repository is what the
    primary journal says; while writes are admitted, it shows of the organization
    what the two journals say one after the other. *)
Definition facade_inv (s : AppWrites) : Prop :=
  live_or_deleted (projection_state s) /\
  (forall key, p_repositories (projection_state s) !! key =
     latest is_complete (omap (repo_op key) (natives s))) /\
  (forall key, p_deleted (projection_state s) !! key =
     mjoin (last (omap (deletion_mark key) (natives s)))) /\
  (write_admission s = None ->
     p_org_state (projection_state s) = latest org_is_complete (omap org_op (natives s) ++ org_ops s)).

(** How an operation moved the state: by the events [es] of the primary
    journal, [h] of the projection and [os] of the organization journal. *)
Definition moved (s s' : AppWrites) (es h : list EvidenceProjectionEvent)
    (os : list (fiber_op OrgReadModel)) : Prop :=
  natives s' = natives s ++ es /\
  projection_state s' = fold_left apply h (projection_state s) /\
  org_ops s' = org_ops s ++ os /\
  (write_admission s' = None -> write_admission s = None).

Lemma latest_app {A} (c : A -> bool) l l' :
  latest c (l ++ l') = foldl (guarded_step c) (latest c l) l'.
Proof. by rewrite -!guarded_latest foldl_app. Qed.

Lemma last_app_default {A} (l l' : list (option A)) :
  mjoin (last (l ++ l')) = default (mjoin (last l)) (last l').
Proof. rewrite last_app. by destruct (last l'). Qed.

(** Operations that only observe: what comes last, complete or not, decides,
    whether it comes once or twice. *)
Lemma latest_observations {A} (c : A -> bool) l :
  latest c (map Observation l) = prefer c l.
Proof.
  unfold latest, since_removal. f_equal.
  induction l as [|a l IH] using rev_ind; [done|].
  by rewrite map_app foldl_app IH.
Qed.

Lemma prefer_twice {A} (c : A -> bool) n o x : prefer c ((n ++ x) ++ o ++ x) = prefer c ((n ++ o) ++ x).
Proof.
  unfold prefer. rewrite !List.filter_app !last_app.
  destruct (last (List.filter c x)) eqn:E; [done|]. destruct (last (List.filter c o)); [done|].
  destruct (last (List.filter c n)); [done|]. by destruct (last x).
Qed.

Definition observing {A} (ops : list (fiber_op A)) : Prop := exists l, ops = map Observation l.

Lemma org_ops_observe es : observing (omap org_op es).
Proof.
  induction es as [|e es [l IH]]; [by exists []|]. cbn [omap list_omap]. rewrite IH.
  destruct e; try by exists l. by eexists (_ :: l).
Qed.

Lemma latest_twice {A} (c : A -> bool) n o x : observing n -> observing o -> observing x ->
  latest c ((n ++ x) ++ o ++ x) = foldl (guarded_step c) (latest c (n ++ o)) x.
Proof.
  intros [ln ->] [lo ->] [lx ->]. rewrite -latest_app -!map_app !latest_observations. apply prefer_twice.
Qed.

Lemma moved_inv s s' es h os :
  moved s s' es h os -> facade_inv s ->
  (forall key, omap (repo_op key) h = omap (repo_op key) es) ->
  (forall key, omap (deletion_mark key) h = omap (deletion_mark key) es) ->
  (write_admission s' = None -> omap org_op h = omap org_op es /\ omap org_op h = os) ->
  facade_inv s'.
Proof.
  intros (Hn & Hp & Ho & Ha) (Hl & Hr & Hd & Hg) Hr' Hd' Hg'. split_and!.
  - rewrite Hp. by apply replay_live_or_deleted.
  - intros key. rewrite Hp Hn omap_app latest_app -Hr -Hr'.
    apply (fold_view (fun p => p_repositories p !! key) apply _ _ h _ (view_repository key)).
  - intros key. rewrite Hp Hn omap_app last_app_default -Hd -Hd'. by apply replay_deleted.
  - intros Hs. destruct (Hg' Hs) as [G3 G4]. rewrite Hn Ho omap_app -G4 -G3 latest_twice.
    + rewrite -(Hg (Ha Hs)) Hp. apply (fold_view p_org_state apply _ _ h _ view_org).
    + apply org_ops_observe.
    + unfold org_ops. rewrite -(map_map (fun e => OrgReadModel_from (org_into (snd e))) Observation). by eexists.
    + apply org_ops_observe.
Qed.

Lemma moved_refl s : moved s s [] [] [].
Proof. unfold moved. by rewrite !app_nil_r. Qed.

Lemma natives_primary s st e detached k :
  cached st = cached (event_store s) ++ [(detached, k, e)] ->
  natives (with_primary st s) = natives s ++ option_list (native_projection_event detached e).
Proof.
  intros H. unfold natives; simpl. rewrite H omap_app; simpl.
  by destruct (native_projection_event detached e).
Qed.

(** The primary write either fails, leaving the cache as it was, or extends
    it. *)
Lemma record_primary_cases key e k s :
  (exists x st, record_primary key e k s =
     (Err (native_store_persistence x), false, with_primary st s) /\
     moved s (with_primary st s) [] [] []) \/
  (exists st, record_primary key e k s = k (with_primary st s) /\
     moved s (with_primary st s) (option_list (native_projection_event false e)) [] []).
Proof.
  unfold record_primary.
  destruct (store_record key e (event_store s)) as [[[]|x] st] eqn:E.
  - right. exists st. split; [done|]. apply store_record_Ok in E as [E _].
    unfold moved. rewrite (natives_primary _ _ e false key) // app_nil_r. done.
  - left. exists x, st. split; [done|]. apply store_record_Err in E.
    unfold moved, natives; simpl. by rewrite E !app_nil_r.
Qed.

Lemma moved_trans s1 s2 s3 es h os es' h' os' :
  moved s1 s2 es h os -> moved s2 s3 es' h' os' ->
  moved s1 s3 (es ++ es') (h ++ h') (os ++ os').
Proof.
  intros (A1 & A2 & A3 & A4) (B1 & B2 & B3 & B4). split_and!.
  - by rewrite B1 A1 app_assoc.
  - by rewrite B2 A2 fold_left_app.
  - by rewrite B3 A3 app_assoc.
  - auto.
Qed.

Lemma moved_projection s e :
  moved s (with_projection (apply (projection_state s) e) s) [] [e] [].
Proof. unfold moved. by rewrite !app_nil_r. Qed.

Lemma moved_admission s a : moved s (with_admission (Some a) s) [] [] [].
Proof. unfold moved. by rewrite !app_nil_r. Qed.

Lemma moved_org key e s :
  match store_record key e (org_event_store s) with
  | (Ok _, st) => moved s (with_org st s) [] [] [Observation (OrgReadModel_from (org_into e))]
  | (Err _, st) => moved s (with_org st s) [] [] []
  end.
Proof.
  destruct (store_record key e (org_event_store s)) as [[[]|x] st] eqn:E.
  - apply store_record_Ok in E as [E _]. unfold moved, org_ops; simpl.
    by rewrite E List.filter_app map_app !app_nil_r.
  - apply store_record_Err in E. unfold moved, org_ops; simpl. by rewrite E !app_nil_r.
Qed.

Lemma moved_team st s : moved s (with_team st s) [] [] [].
Proof. unfold moved. by rewrite !app_nil_r. Qed.

(** What an admitted write did: nothing that any view sees; an event in every
    place; or a step that latched admission. *)
Definition good_move (s s' : AppWrites) : Prop :=
  exists es h os, moved s s' es h os /\
    (forall key, omap (repo_op key) h = omap (repo_op key) es) /\
    (forall key, omap (deletion_mark key) h = omap (deletion_mark key) es) /\
    (write_admission s' = None -> omap org_op h = omap org_op es /\ omap org_op h = os).

Lemma good_move_inv s s' : good_move s s' -> facade_inv s -> facade_inv s'.
Proof. intros (es & h & os & Hm & H1 & H2 & H3) Hs. by apply (moved_inv _ _ _ _ _ Hm). Qed.

Lemma good_move_moved s s' es :
  moved s s' es es [] -> omap org_op es = [] -> good_move s s'.
Proof. intros Hm Ho. exists es, es, []. by rewrite Ho. Qed.

Lemma good_move_nil s s' : moved s s' [] [] [] -> good_move s s'.
Proof. intros Hm. by apply (good_move_moved s s' []). Qed.

(** Latching admission forgives a missing organization event. *)
Lemma good_move_latch s s' es h os a :
  moved s s' es h os ->
  (forall key, omap (repo_op key) h = omap (repo_op key) es) ->
  (forall key, omap (deletion_mark key) h = omap (deletion_mark key) es) ->
  good_move s (with_admission (Some a) s').
Proof.
  intros Hm H1 H2. exists es, h, os. split_and!; [|done|done|done].
  pose proof (moved_trans _ _ _ _ _ _ _ _ _ Hm (moved_admission s' a)) as H.
  by rewrite !app_nil_r in H.
Qed.

Definition op_moves (op : Operation) : Prop :=
  forall s, match op s with
  | (Ok _, _, s') => good_move s s'
  | (Err _, _, s') => exists es os, moved s s' es [] os /\
      (forall key, omap (repo_op key) es = []) /\ (forall key, omap (deletion_mark key) es = []) /\
      (snd (fst (op s)) = false -> omap org_op es = [] /\ os = [])
  end.

Lemma admitted_write_moves op s : op_moves op -> good_move s (snd (admitted_write op s)).
Proof.
  intros H. specialize (H s). unfold admitted_write.
  destruct (write_admission s); [by apply good_move_nil, moved_refl|].
  destruct (op s) as [[[u|e] landed] s'] eqn:E; simpl in *; [done|].
  destruct H as (es & os & Hm & H1 & H2 & H3).
  destruct (landed || _) eqn:El; simpl.
  - apply (good_move_latch _ _ _ _ _ _ Hm); intros key; by rewrite ?H1 ?H2.
  - apply orb_false_elim in El as [-> _]. destruct (H3 eq_refl) as [H4 ->].
    exists es, [], []. split_and!; [done|..]; try (intros key; by rewrite ?H1 ?H2).
Qed.

Lemma team_event_views d t key :
  repo_op key (team_projection_event d t) = None /\
  deletion_mark key (team_projection_event d t) = None /\
  org_op (team_projection_event d t) = None.
Proof. by destruct d. Qed.

Lemma repository_event_org d e :
  match e with
  | NE_RepositoryStateCaptured _ _ _ _ | NE_RepositoryDeleted _ _ _ => True | _ => False
  end ->
  exists p, native_projection_event d e = Some p /\ org_op p = None.
Proof. destruct e; try done; intros _; (eexists; split; [done|]); done. Qed.

(** A write of one repository event, and the fold of it. *)
Lemma repository_write_moves key (e : Native) :
  match e with
  | NE_RepositoryStateCaptured _ _ _ _ | NE_RepositoryDeleted _ _ _ => True | _ => False
  end ->
  op_moves (record_primary key e (fun s =>
    (Ok (), false, with_projection (fold_native_event (projection_state s) false e) s))).
Proof.
  intros He s. destruct (record_primary_cases key e (fun s => (Ok (), false,
    with_projection (fold_native_event (projection_state s) false e) s)) s)
    as [(x & st & -> & Hm)|(st & -> & Hm)].
  - exists [], []. split_and!; [done|done|done|]. by split.
  - destruct (repository_event_org false e He) as (p & Hp & Ho).
    unfold fold_native_event. rewrite Hp. rewrite Hp in Hm. simpl in Hm.
    apply (good_move_moved _ _ [p]); [|simpl; by rewrite Ho].
    apply (moved_trans _ _ _ _ _ _ _ _ _ Hm (moved_projection _ p)).
Qed.

Lemma failed_moves s e : exists es os, moved s s es [] os /\
  (forall key, omap (repo_op key) es = []) /\ (forall key, omap (deletion_mark key) es = []) /\
  (snd (fst ((Err e : result ErrorView (), false, s))) = false -> omap org_op es = [] /\ os = []).
Proof. exists [], []. split_and!; [apply moved_refl|done|done|by split]. Qed.

(** A write of a team event to the primary store. *)
Lemma primary_team_moved s d t key st :
  cached st = cached (event_store s) ++ [(d, key, NE_TeamStateCaptured t)] ->
  moved s (with_primary st s) [team_projection_event d t] [] [].
Proof.
  intros H. pose proof (natives_primary _ _ _ _ _ H) as Hn. unfold moved.
  by rewrite Hn !app_nil_r.
Qed.

Lemma team_only_op es :
  Forall (fun e => exists d t, e = team_projection_event d t) es ->
  (forall key, omap (repo_op key) es = []) /\ (forall key, omap (deletion_mark key) es = []) /\
  omap org_op es = [].
Proof.
  induction 1 as [|e es (d & t & ->) _ (IH1 & IH2 & IH3)]; [done|].
  split_and!; [intros key|intros key|]; cbn [omap list_omap];
    destruct (team_event_views d t "") as (_ & _ & H3); rewrite ?H3 //.
  - destruct (team_event_views d t key) as (H1 & _). by rewrite H1 IH1.
  - destruct (team_event_views d t key) as (_ & H2 & _). by rewrite H2 IH2.
Qed.

(** Team events in any place leave the repository and organization views. *)
Lemma team_good_move s s' es h :
  moved s s' es h [] ->
  Forall (fun e => exists d t, e = team_projection_event d t) es ->
  Forall (fun e => exists d t, e = team_projection_event d t) h -> good_move s s'.
Proof.
  intros Hm (E1 & E2 & E3)%team_only_op (H1 & H2 & H3)%team_only_op. exists es, h, [].
  split_and!; [done|intros key; by rewrite E1 H1|intros key; by rewrite E2 H2|].
  intros _. by rewrite E3 H3.
Qed.

Lemma team_failed s s' es e landed :
  moved s s' es [] [] -> Forall (fun e => exists d t, e = team_projection_event d t) es ->
  exists es os, moved s s' es [] os /\
    (forall key, omap (repo_op key) es = []) /\ (forall key, omap (deletion_mark key) es = []) /\
    (snd (fst ((Err e : result ErrorView (), landed, s'))) = false ->
       omap org_op es = [] /\ os = []).
Proof.
  intros Hm (E1 & E2 & E3)%team_only_op. exists es, []. by split_and!.
Qed.

(** A removal finds the fiber of its repository active, or the repository is
    not shown to begin with. *)
Definition finds_fiber (o : WriteOp) (s : AppWrites) : Prop :=
  match o with
  | W_RemoveRepo key _ _ =>
    (forall event : Native, fst (backend_detach key event (backend (event_store s))) <> NoWrite) \/
    p_repositories (projection_state s) !! key = None
  | _ => True
  end.

Fixpoint run_finds_fibers (os : list WriteOp) (s : AppWrites) : Prop :=
  match os with
  | [] => True
  | o :: os => finds_fiber o s /\ run_finds_fibers os (snd (run_op o s))
  end.

Lemma detach_no_write key (e : Native) (st : StoreInner B Native) st' :
  fst (backend_detach key e (backend st)) <> NoWrite ->
  store_detach key e st <> (Ok false, st').
Proof.
  unfold store_detach. destruct (knowledge st); simpl; [|done..].
  destruct (encodable e); simpl; [|done].
  by destruct (backend_detach key e (backend st)) as [[] b]; simpl.
Qed.

(** The event of a removal says which repository is gone. *)
Lemma removal_event k n t event p : repo_event k n t None = Ok event ->
  p_repositories p !! k = None -> fold_native_event p true event = p.
Proof.
  unfold repo_event. intros Ee Hk. conv_chain Ee.
  assert (ne_str a = k) as Ha.
  { unfold non_empty in E. destruct (to_nes _ _ k) eqn:En; [|done]. injection E as <-.
    by eapply to_nes_Ok. }
  unfold fold_native_event. cbn. rewrite Ha delete_id //. by destruct p.
Qed.

Lemma remove_repo_moves k n t s :
  finds_fiber (W_RemoveRepo k n t) s -> good_move s (snd (remove_repo k n t s)).
Proof.
  intros Hf. unfold remove_repo, admitted_write.
  destruct (write_admission s) eqn:Ea; [by apply good_move_nil, moved_refl|].
  destruct (repo_event k n t None) as [event|e] eqn:Ee.
  - destruct (store_detach k event (event_store s)) as [[[]|x] st] eqn:Ed.
    + apply store_detach_Ok in Ed as (Hc & _). simpl.
      assert (exists p, native_projection_event true event = Some p /\ org_op p = None)
        as (p & Hp & Ho).
      { apply repository_event_org. unfold repo_event in Ee.
        by repeat (case_match; simplify_eq/=). }
      apply (good_move_moved _ _ [p]); [|simpl; by rewrite Ho].
      unfold fold_native_event. rewrite Hp. pose proof (natives_primary _ _ _ _ _ Hc) as Hn.
      unfold moved in *. rewrite Hp in Hn. split_and!; [done|done| |done]. by rewrite app_nil_r.
    + destruct Hf as [Hf|Hk]; [by destruct (detach_no_write _ _ _ st (Hf event))|].
      apply store_detach_Ok in Ed as (Hc & _). cbn [snd]. apply good_move_nil.
      cbn [projection_state with_primary]. rewrite (removal_event _ _ _ _ _ Ee Hk).
      unfold moved, natives; simpl. by rewrite Hc !app_nil_r.
    + apply store_detach_Err in Ed. simpl.
      assert (moved s (with_primary st s) [] [] []) as Hm
        by (unfold moved, natives; simpl; by rewrite Ed !app_nil_r).
      destruct (match native_store_persistence x with V_Indeterminate => true | _ => false end);
        simpl; [|by apply good_move_nil].
      apply (good_move_latch _ _ _ _ _ _ Hm); done.
  - simpl. destruct (match e with V_Indeterminate => true | _ => false end); simpl;
      [|by apply good_move_nil, moved_refl].
    apply (good_move_latch _ _ _ _ _ _ (moved_refl s)); done.
Qed.

Lemma record_org_moves snapshot s : good_move s (snd (record_org snapshot s)).
Proof.
  unfold record_org. apply admitted_write_moves. clear s. intros s.
  destruct (map_err _ (org_try_from snapshot)) as [event|e]; [|apply failed_moves].
  set (k := fun s => _).
  destruct (record_primary_cases (as_str (na_organization (nos_assessment_metadata event))) (NE_OrgStateCaptured event) k s)
    as [(x & st & -> & Hm)|(st & -> & Hm)].
  - exists [], []. split_and!; [done|done|done|by split].
  - unfold k. pose proof (moved_org (as_str (na_organization (nos_assessment_metadata event))) event (with_primary st s)) as Ho.
    destruct (store_record _ _ (org_event_store _)) as [[u|x] st'].
    + eexists _, _, _. split_and!.
      * apply (moved_trans _ _ _ _ _ _ _ _ _ (moved_trans _ _ _ _ _ _ _ _ _ Hm Ho)
          (moved_projection _ (org_projection_event event))).
      * done.
      * done.
      * done.
    + eexists _, _. split_and!.
      * apply (moved_trans _ _ _ _ _ _ _ _ _ Hm Ho).
      * done.
      * done.
      * done.
Qed.

Ltac team_events := repeat constructor; eexists _, _; reflexivity.

Lemma record_team_moves org r f st0 s : good_move s (snd (record_team org r f st0 s)).
Proof.
  unfold record_team. apply admitted_write_moves. clear s. intros s.
  destruct (team_state_event org r f st0) as [event|e]; [|apply failed_moves].
  set (key := default _ _). set (k := fun s => _).
  destruct (record_primary_cases key (NE_TeamStateCaptured event) k s)
    as [(x & st & -> & Hm)|(st & -> & Hm)].
  - exists [], []. split_and!; [done|done|done|by split].
  - unfold k. destruct (store_record key event (team_event_store _)) as [[u|x] st'].
    + eapply team_good_move.
      * apply (moved_trans _ _ _ _ _ _ _ _ _ (moved_trans _ _ _ _ _ _ _ _ _ Hm
          (moved_team st' _)) (moved_projection _ (team_projection_event false event))).
      * team_events.
      * team_events.
    + eapply team_failed.
      * apply (moved_trans _ _ _ _ _ _ _ _ _ Hm (moved_team st' _)).
      * team_events.
Qed.

Lemma detach_team_moves org r f st0 s : good_move s (snd (detach_team org r f st0 s)).
Proof.
  unfold detach_team. apply admitted_write_moves. clear s. intros s.
  destruct (team_state_event _ _ f st0) as [event|e]; [|apply failed_moves].
  set (key := default _ _).
  destruct (store_detach key (NE_TeamStateCaptured event) (event_store s))
    as [[landed|x] st] eqn:Ed.
  - assert (exists es, moved s (with_primary st s) es [] [] /\
      Forall (fun e => exists d t, e = team_projection_event d t) es) as (es & Hm & Hes).
    { apply store_detach_Ok in Ed as [Hc _]. destruct landed.
      - eexists. split; [by apply (primary_team_moved _ _ _ _ _ Hc)|]. team_events.
      - exists []. split; [|done]. unfold moved, natives; simpl. by rewrite Hc !app_nil_r. }
    destruct (store_detach key event (team_event_store _)) as [[b|x] st'].
    + eapply team_good_move.
      * apply (moved_trans _ _ _ _ _ _ _ _ _ (moved_trans _ _ _ _ _ _ _ _ _ Hm
          (moved_team st' _)) (moved_projection _ (team_projection_event true event))).
      * rewrite !app_nil_r. done.
      * team_events.
    + eapply team_failed.
      * apply (moved_trans _ _ _ _ _ _ _ _ _ Hm (moved_team st' _)).
      * by rewrite app_nil_r.
  - apply store_detach_Err in Ed. exists [], []. split_and!; [|done|done|by split].
    unfold moved, natives; simpl. by rewrite Ed !app_nil_r.
Qed.

Lemma run_op_moves o s : finds_fiber o s -> good_move s (snd (run_op o s)).
Proof.
  intros Hf. destruct o as [k ev n t|k n t|k n t|snapshot|org r f st|org r f st]; cbn [run_op].
  - unfold record_repo. apply admitted_write_moves. clear s Hf. intros s.
    destruct (map_err _ (evidence_try_from _ ev)) as [native|e]; [|apply failed_moves].
    destruct (repo_event k n t (Some native)) as [event|e] eqn:Ee; [|apply failed_moves].
    apply repository_write_moves. unfold repo_event in Ee. by repeat (case_match; simplify_eq/=).
  - unfold mark_repo_deleted. apply admitted_write_moves. clear s Hf. intros s.
    destruct (deleted_repo_event k n t) as [event|e] eqn:Ee; [|apply failed_moves].
    apply repository_write_moves. unfold deleted_repo_event in Ee.
    by repeat (case_match; simplify_eq/=).
  - by apply remove_repo_moves.
  - apply record_org_moves.
  - apply record_team_moves.
  - apply detach_team_moves.
Qed.

(** ** A restart shows what the service showed *)

Lemma fold_native_replay (l : list (bool * string * Native)) p :
  fold_left (fun p e => fold_native_event p (fst (fst e)) (snd e)) l p =
  fold_left apply (omap (fun e => native_projection_event (fst (fst e)) (snd e)) l) p.
Proof.
  revert p. induction l as [|e l IH]; intros p; [done|]. cbn [fold_left omap list_omap].
  rewrite IH. unfold fold_native_event. by destruct (native_projection_event _ _).
Qed.

(** The events that are not themselves detaches, replayed. *)
Lemma fold_defined_replay {E} (event : E -> EvidenceProjectionEvent) (l : list (bool * string * E)) p :
  fold_left (fun p e => if negb (fst (fst e)) then apply p (event (snd e)) else p) l p =
  fold_left apply (map (fun e => event (snd e)) (List.filter (fun e => negb (fst (fst e))) l)) p.
Proof.
  revert p. induction l as [|e l IH]; intros p; [done|]. cbn [fold_left List.filter].
  rewrite IH. by destruct (negb _).
Qed.

(** A rebuild replays the primary journal, then the organization's and the team
    events that are not themselves detaches. *)
Lemma rebuild_replay s p :
  projection_from_stores s = Ok p ->
  exists ts, p = replay (natives s ++ map (fun e => org_projection_event (snd e))
      (List.filter (fun e => negb (fst (fst e))) (cached (org_event_store s))) ++ ts) /\
    Forall (fun e => exists d t, e = team_projection_event d t) ts.
Proof.
  unfold projection_from_stores, fold_events, fold_defined_events.
  destruct (knowledge_check _) as [[]|]; [|done].
  destruct (knowledge_check _) as [[]|]; [|done].
  destruct (knowledge_check _) as [[]|]; [|done].
  intros [= <-]. rewrite fold_native_replay (fold_defined_replay org_projection_event)
    (fold_defined_replay (team_projection_event false)).
  eexists. unfold replay, natives. rewrite !fold_left_app. split; [done|].
  apply Forall_forall. intros e (x & _ & <-)%elem_of_map. by eexists _, _.
Qed.

Lemma rebuild_views s p :
  projection_from_stores s = Ok p ->
  (forall key, p_repositories p !! key = latest is_complete (omap (repo_op key) (natives s))) /\
  (forall key, p_deleted p !! key = mjoin (last (omap (deletion_mark key) (natives s)))) /\
  p_org_state p = latest org_is_complete (omap org_op (natives s) ++ org_ops s).
Proof.
  intros (ts & -> & (T1 & T2 & T3)%team_only_op)%rebuild_replay.
  set (l := map (fun e => org_projection_event (snd e)) (List.filter _ (cached (org_event_store s)))).
  assert ((forall key, omap (repo_op key) l = []) /\ (forall key, omap (deletion_mark key) l = [])
    /\ omap org_op l = org_ops s) as (L1 & L2 & L3).
  { unfold l, org_ops. induction (List.filter _ (cached (org_event_store s))) as [|e c (I1 & I2 & I3)]; [done|].
    split_and!; [intros key; apply I1|intros key; apply I2|]. cbn. by rewrite -I3. }
  split_and!.
  - intros key. by rewrite replay_repositories !omap_app T1 L1 !app_nil_r.
  - intros key. by rewrite replay_deletions !omap_app T2 L2 !app_nil_r.
  - by rewrite replay_org !omap_app T3 L3 !app_nil_r.
Qed.

Lemma booted_inv s : projection_from_stores s = Ok (projection_state s) -> facade_inv s.
Proof.
  intros Hb. pose proof (rebuild_views s _ Hb) as (V1 & V2 & V3).
  destruct (rebuild_replay s _ Hb) as (ts & Hp & _). split_and!; [|done|done|by intros _].
  rewrite Hp. apply replay_live_or_deleted, default_live_or_deleted.
Qed.

Lemma run_ops_inv os s : run_finds_fibers os s -> facade_inv s -> facade_inv (run_ops os s).
Proof.
  revert s. induction os as [|o os IH]; intros s Hf Hs; [done|]. destruct Hf as [Hf1 Hf2].
  apply IH; [done|]. by eapply good_move_inv; [apply run_op_moves|].
Qed.

(** C2: from a state whose projection is what a rebuild from its journals shows,
    as a start leaves it, after any sequence of durable writes, with whatever
    failures the stores give, a rebuild from the journals shows every repository,
    live and deleted, exactly as the running service does; and as long as no
    failure has stopped the writes, the organization snapshot too.  Each removal
    of the sequence is assumed to find the repository's fiber active or the
    repository not shown: where the fiber is inactive and the repository is
    shown, the service hides it without a write. *)
Theorem rebuild_equals_runtime os s0 p :
  projection_from_stores s0 = Ok (projection_state s0) ->
  run_finds_fibers os s0 -> let s := run_ops os s0 in
  projection_from_stores s = Ok p ->
  (forall key, p_repositories p !! key = p_repositories (projection_state s) !! key) /\
  (forall key, p_deleted p !! key = p_deleted (projection_state s) !! key) /\
  (write_admission s = None -> p_org_state p = p_org_state (projection_state s)).
Proof.
  intros Hb Hf s Hp.
  destruct (run_ops_inv os s0 Hf (booted_inv s0 Hb)) as (_ & Hr & Hd & Hg).
  destruct (rebuild_views s p Hp) as (V1 & V2 & V3). split_and!.
  - intros key. by rewrite V1 Hr.
  - intros key. by rewrite V2 Hd.
  - intros Ha. by rewrite V3 (Hg Ha).
Qed.

(** ** The reconciliation latch *)

(** An operation body reads nothing of admission, and folds nothing into the
    projection before its last write. *)
Definition op_quiet (op : Operation) : Prop :=
  forall s, write_admission (snd (op s)) = write_admission s /\
    (ok (fst (fst (op s))) = None -> projection_state (snd (op s)) = projection_state s).

Lemma record_primary_quiet key e k : op_quiet k -> op_quiet (record_primary key e k).
Proof.
  intros Hk s. unfold record_primary. destruct (store_record key e (event_store s)) as [[u|x] st].
  - destruct (Hk (with_primary st s)) as [H1 H2]. by split.
  - by split.
Qed.

(** How the facade answers: the result, the state it leaves. *)
Definition latched_answer (s : AppWrites) (r : result ErrorView () * AppWrites) : Prop :=
  match write_admission s with
  | Some _ => r = (Err V_Indeterminate, s)
  | None =>
    match fst r with
    | Ok _ => write_admission (snd r) = None
    | Err V_Indeterminate => write_admission (snd r) = Some V_Indeterminate /\
        projection_state (snd r) = projection_state s
    | Err _ => write_admission (snd r) = None /\ projection_state (snd r) = projection_state s
    end
  end.

Lemma admitted_write_latched op s : op_quiet op -> latched_answer s (admitted_write op s).
Proof.
  intros H. destruct (H s) as [H1 H2]. unfold latched_answer, admitted_write.
  destruct (write_admission s) eqn:Ea; [done|].
  destruct (op s) as [[[u|e] landed] s']; simpl in *; [done|].
  specialize (H2 eq_refl). destruct landed; simpl; [done|]. by destruct e; simpl.
Qed.

Lemma run_op_latched o s : latched_answer s (run_op o s).
Proof.
  destruct o as [k ev n t|k n t|k n t|snapshot|org r f st|org r f st]; cbn [run_op];
    apply admitted_write_latched; clear s; intros s.
  - destruct (map_err _ (evidence_try_from _ ev)); [|done]. destruct (repo_event _ _ _ _); [|done].
    by apply record_primary_quiet.
  - destruct (deleted_repo_event _ _ _); [|done]. by apply record_primary_quiet.
  - destruct (repo_event _ _ _ _); [|done]. by destruct (store_detach _ _ _) as [[u|x] st].
  - destruct (map_err _ (org_try_from snapshot)); [|done]. apply record_primary_quiet. clear s. intros s.
    by destruct (store_record _ _ (org_event_store s)) as [[u|x] st].
  - destruct (team_state_event _ _ _ _); [|done]. apply record_primary_quiet. clear s. intros s.
    by destruct (store_record _ _ (team_event_store s)) as [[u|x] st'].
  - destruct (team_state_event _ _ _ _); [|done].
    set (key := default _ _).
    cbv zeta. destruct (store_detach key _ (event_store s)) as [[u|x] st'] eqn:E;
      [|cbv beta iota; by split].
    destruct (store_detach key a (team_event_store (with_primary st' s))) as [[v|x] st2]; by split.
Qed.

(** C37: the reconciliation latch.  A write admitted while the latch is open
    closes it exactly when it reports an indeterminate outcome, and shows
    nothing in the projection unless it succeeds; once the latch is closed, no
    sequence of writes changes the journals or the projection, and every one of
    them is refused as indeterminate. *)
Theorem write_latch_exact o os s :
  match write_admission s with
  | Some _ => run_op o s = (Err V_Indeterminate, s) /\ run_ops os s = s
  | None =>
    match fst (run_op o s) with
    | Ok _ => write_admission (snd (run_op o s)) = None
    | Err e => projection_state (snd (run_op o s)) = projection_state s /\
        (write_admission (snd (run_op o s)) <> None <-> e = V_Indeterminate)
    end
  end.
Proof.
  pose proof (run_op_latched o s) as H. unfold latched_answer in H.
  destruct (write_admission s) as [a|] eqn:Ea.
  - split; [done|]. clear H. unfold run_ops. induction os as [|o' os IH]; [done|]. simpl.
    pose proof (run_op_latched o' s) as H. unfold latched_answer in H. rewrite Ea in H.
    by rewrite H.
  - destruct (fst (run_op o s)) as [u|[]]; naive_solver.
Qed.
(** ** Detached teams *)

(** The fiber of a team event. *)
Definition team_event_key (e : TeamEvent) : string :=
  default "" (team_domain_key (ne_str (te_org e)) (ne_str (te_team_slug e))).

Lemma fold_team_shows key e p :
  is_Some (p_team_rosters p !! key) -> is_Some (p_team_rosters (fold_team_event p e) !! key).
Proof.
  intros H. unfold fold_team_event, team_projection_event; cbn [apply p_team_rosters].
  destruct (_ || _); [|done]. destruct (decide (team_event_key e = key)) as [<-|Hne].
  - by rewrite lookup_insert_eq.
  - by rewrite lookup_insert_ne.
Qed.

Lemma fold_team_captured e p : is_Some (p_team_rosters (fold_team_event p e) !! team_event_key e).
Proof.
  unfold fold_team_event, team_projection_event; cbn [apply p_team_rosters].
  change (default "" (team_domain_key (ne_str (te_org e)) (ne_str (te_team_slug e)))) with (team_event_key e).
  destruct (negb _ || _) eqn:E; [by rewrite lookup_insert_eq|].
  apply orb_false_elim in E as [E _]. by destruct (p_team_rosters p !! team_event_key e).
Qed.

Lemma fold_teams_captured (l : list (bool * string * TeamEvent)) k e p :
  (false, k, e) ∈ l ->
  is_Some (p_team_rosters (fold_left (fun p e => if negb (fst (fst e)) then fold_team_event p (snd e)
    else p) l p) !! team_event_key e).
Proof.
  revert p. induction l as [|x l IH] using rev_ind; intros p Hin; [by apply not_elem_of_nil in Hin|].
  rewrite fold_left_app; simpl. apply elem_of_app in Hin as [Hin|Hin].
  - destruct (negb _); [apply fold_team_shows|]; by apply IH.
  - apply list_elem_of_singleton in Hin as <-. apply fold_team_captured.
Qed.

(** A successful capture is in the team journal. *)
Lemma record_team_journal org r f st0 s s' :
  record_team org r f st0 s = (Ok (), s') ->
  exists e k, team_state_event org r f st0 = Ok e /\ (false, k, e) ∈ cached (team_event_store s').
Proof.
  unfold record_team, admitted_write. destruct (write_admission s); [done|].
  destruct (team_state_event org r f st0) as [e|x]; [|by destruct x].
  unfold record_primary.
  destruct (store_record _ _ (event_store s)) as [[u|x] st]; [|by destruct (native_store_persistence x)].
  cbn [team_event_store with_primary].
  destruct (store_record _ e (team_event_store s)) as [[[]|x] st'] eqn:E; [|done].
  intros [= <-]. apply store_record_Ok in E as [E _].
  exists e, (default "" (team_domain_key (ne_str (te_org e)) (ne_str (te_team_slug e)))). split; [done|]. simpl.
  rewrite E. apply elem_of_app. right. by apply list_elem_of_singleton.
Qed.

(** A successful detach keeps the team journal and hides the team. *)
Lemma detach_team_hides org r f st0 s s' :
  detach_team org r f st0 s = (Ok (), s') ->
  exists e, team_state_event org (detach_tombstone_roster r) f st0 = Ok e /\
    p_team_rosters (projection_state s') !! team_event_key e = None /\
    forall x, x ∈ cached (team_event_store s) -> x ∈ cached (team_event_store s').
Proof.
  unfold detach_team, admitted_write. destruct (write_admission s); [done|].
  destruct (team_state_event org _ f st0) as [e|x]; [|by destruct x]. cbv zeta.
  destruct (store_detach _ _ (event_store s)) as [[landed|x] st];
    [|by destruct (native_store_persistence x)].
  cbn [team_event_store with_primary].
  destruct (store_detach _ e (team_event_store s)) as [[b|x] st'] eqn:E;
    [|by destruct landed, (native_store_persistence x)].
  intros [= <-]. apply store_detach_Ok in E as [E _]. exists e. split_and!; [done| |].
  - unfold fold_team_into; cbn [projection_state with_projection team_projection_event apply
      p_team_rosters]. apply lookup_delete_eq.
  - intros y Hy. cbn [team_event_store fold_team_into with_projection with_team]. rewrite E.
    apply elem_of_app. by left.
Qed.

Lemma team_state_event_key org r r' f f' st0 st0' e e' :
  team_slug r = team_slug r' ->
  team_state_event org r f st0 = Ok e -> team_state_event org r' f' st0' = Ok e' ->
  team_event_key e = team_event_key e'.
Proof.
  intros Hr H H'. unfold team_state_event in *. rewrite Hr in H. conv_chain H. conv_chain H'.
  unfold team_event_key; simpl. congruence.
Qed.

(** A restart brings detached teams back.  When a team is captured and
    then detached and both writes succeed, the running service no longer shows
    the team, but every rebuild from the same journals does: the fold of the
    team journal skips the detach and not the capture before it. *)
Lemma restart_resurrects_detached_team org r f st0 f' st0' s s1 s2 p e :
  record_team org r f st0 s = (Ok (), s1) -> detach_team org r f' st0' s1 = (Ok (), s2) ->
  team_state_event org r f st0 = Ok e -> projection_from_stores s2 = Ok p ->
  p_team_rosters (projection_state s2) !! team_event_key e = None /\
  is_Some (p_team_rosters p !! team_event_key e).
Proof.
  intros (e1 & k & He1 & Hin)%record_team_journal (e2 & He2 & Hnone & Hkeep)%detach_team_hides He Hp.
  rewrite He1 in He. injection He as <-. split.
  - by rewrite (team_state_event_key _ r (detach_tombstone_roster r) _ _ _ _ _ e2 _ He1 He2).
  - unfold projection_from_stores, fold_events, fold_defined_events in Hp.
    destruct (knowledge_check _) as [[]|]; [|done]. destruct (knowledge_check _) as [[]|]; [|done].
    destruct (knowledge_check _) as [[]|]; [|done]. injection Hp as <-.
    by eapply fold_teams_captured, Hkeep.
Qed.
End AppState.

(** ** A file backend that never fails, for the examples below *)

#[local] Existing Instance plain_pardosa.

#[local] Instance plain_backend (Event : Type) : Backend () Event := {
  backend_append _ _ b := (LandedSynced, b);
  backend_detach _ _ b := (LandedSynced, b);
  encodable _ := true;
}.

Definition empty_writes : AppWrites (B := ()) :=
  mkAppWrites (mkStoreInner () [] Ready) (mkStoreInner () [] Ready) (mkStoreInner () [] Ready)
    EvidenceProjection_default None.

Definition core_team : TeamRoster := mkTeamRoster "@acme/core" "core" TRS_Complete [] None.

(** Writes of every repository kind. *)
Definition sample_writes : list WriteOp :=
  [W_RecordRepo "1" (sample_owned "a" "@acme/core" false) "a" "t1"; W_MarkRepoDeleted "2" "b" "t2";
   W_RecordTeam "acme" core_team "t" Fetched; W_RemoveRepo "1" "a" "t3"].

Lemma rebuild_equals_runtime_witness :
  let s := run_ops plain_parse plain_jiff sample_writes empty_writes in
  match projection_from_stores plain_jiff s with
  | Ok p => p_deleted p !! "2" = p_deleted (projection_state s) !! "2" /\
      is_Some (p_deleted p !! "2") /\
      p_repositories p !! "1" = p_repositories (projection_state s) !! "1" /\
      p_repositories p !! "1" = None
  | Err _ => False
  end.
Proof.
  intros s. assert (match projection_from_stores plain_jiff s with Ok _ => true | _ => false end = true)
    as Hs by (vm_compute; reflexivity).
  destruct (projection_from_stores plain_jiff s) as [p|x] eqn:E; [|discriminate Hs].
  destruct (rebuild_equals_runtime plain_parse plain_jiff sample_writes empty_writes p) as (H1 & H2 & _).
  - reflexivity.
  - cbn [run_finds_fibers sample_writes finds_fiber]. split_and!; try exact I. left. discriminate.
  - exact E.
  - split; [exact (H2 "2")|]. split; [rewrite (H2 "2"); vm_compute; eexists; reflexivity|].
    split; [exact (H1 "1")|]. rewrite (H1 "1"). vm_compute. reflexivity.
Defined.

Lemma restart_resurrects_detached_team_witness :
  let s1 := snd (record_team "acme" core_team "t" Fetched empty_writes) in
  let s2 := snd (detach_team "acme" core_team "t" Fetched s1) in
  match projection_from_stores plain_jiff s2, team_state_event "acme" core_team "t" Fetched with
  | Ok p, Ok e => write_admission s2 = None /\
      p_team_rosters (projection_state s2) !! team_event_key e = None /\
      is_Some (p_team_rosters p !! team_event_key e)
  | _, _ => False
  end.
Proof.
  intros s1 s2.
  assert (match projection_from_stores plain_jiff s2 with Ok _ => true | _ => false end = true)
    as Hs by (vm_compute; reflexivity).
  assert (match team_state_event "acme" core_team "t" Fetched with Ok _ => true | _ => false end
    = true) as He by (vm_compute; reflexivity).
  destruct (projection_from_stores plain_jiff s2) as [p|x] eqn:E; [|discriminate Hs].
  destruct (team_state_event "acme" core_team "t" Fetched) as [e|x] eqn:Ee; [|discriminate He].
  split; [reflexivity|].
  exact (restart_resurrects_detached_team plain_jiff "acme" core_team "t" Fetched "t" Fetched empty_writes
    s1 s2 p e eq_refl eq_refl Ee E).
Defined.
