(* ===== verification/Delivery.v ===== *)
(** * The delivery of job outcomes ([app/daemon.rs], [app/collect.rs])

    A scheduled sweep publishes a batch of jobs and waits until every one of
    them is accounted for; a detached task receives the outcomes of the jobs,
    writes the evidence and retires the batch's members.  A write that loses
    the fence of the single writer aborts the run, a write of unknown effect
    stops admission, and both release the waiting sweep.

    The objects the tasks share by [Arc] live in heaps: a tracker or a run is
    an index.  The delivery gate makes the publication of a batch, the
    treatment of one outcome and the retirement of a batch atomic, so a run of
    the system is a list of events between two of the sweep's steps. *)

From S2P Require Import Prelude Str Repository Evidence Baseline WritePolicy Errors.
From S2P Require Import Run Projection Store Events Convert AppState.

Open Scope N_scope.

(** The countdown of [cherry_pit_wq]. *)
Class BatchTracker (T : Type) := {
  bt_new : N -> T;
  bt_retire : N -> T -> T;
  bt_drain : T -> T;
  (** [wait] returns. *)
  bt_released : T -> bool;
}.

(** Its documented behaviour: it counts down to the release of its waiters. *)
Class BatchTrackerLaws (T : Type) `{!BatchTracker T} := {
  bt_remaining : T -> N;
  bt_new_remaining : forall n, bt_remaining (bt_new n) = n;
  bt_retire_remaining : forall k t, bt_remaining (bt_retire k t) = bt_remaining t - k;
  bt_drain_remaining : forall t, bt_remaining (bt_drain t) = 0;
  bt_released_iff : forall t, bt_released t = true <-> bt_remaining t = 0;
}.

(** What delivery needs of the write facade; [record_repo] is the durable
    write under the retry policy. *)
Class DeliveryStore (S : Type) := {
  ds_admission : S -> result ErrorView ();
  ds_stop : ErrorView -> S -> S;
  ds_get : string -> S -> option RepositoryEvidence;
  record_repo : string -> RepositoryEvidence -> string -> string -> S ->
    result (WriteFailure ErrorView) () * S;
}.

Definition admitted {S} `{!DeliveryStore S} (s : S) : Prop := ds_admission s = Ok ().

(** What the facade promises: admission once stopped stays so, and a write
    stops it exactly when its effect is unknown. *)
Class DeliveryStoreLaws (S : Type) `{!DeliveryStore S} : Prop := {
  ds_stop_closes : forall e s, ~ admitted (ds_stop e s);
  record_latches : forall key ev name ts s r s', admitted s ->
    record_repo key ev name ts s = (r, s') ->
    (admitted s' <->
     match r with Ok _ => True | Err f => category f <> ReconciliationRequired end);
}.

(** ** Outcomes and what they lead to *)

Inductive JobSource := ScheduledBatch | InitialLoad | External.
#[export] Instance JobSource_eq_dec : EqDecision JobSource.
Proof. solve_decision. Defined.

(** [JobOutcome]; the type is open, so that a variant may be unknown.  An
    outcome comes with the times at which its treatment reads the clock. *)
Inductive JobOutcome :=
| JO_Success (domain_key : string) (job_result : RepositoryEvidence) (source : JobSource)
    (correlation : option N) (now : string)
| JO_Failure (domain_key error : string) (source : JobSource) (correlation : option N)
    (now now' : string)
| JO_Unknown.

Record FenceSignal := mkFenceSignal { into_error : ErrorView }.

Definition FenceSignal_from_failure (failure : WriteFailure ErrorView)
    : result (WriteFailure ErrorView) FenceSignal :=
  if decide (category failure = Conflict) then Ok (mkFenceSignal (failure_error failure))
  else Err failure.

Inductive DeliveryStep :=
| Delivered
| StepReconciliation (error : ErrorView)
| Unpersisted (error : ErrorView)
| Fenced (signal : FenceSignal).

(** The level [log_job_persist_failure] logs at, and its fields. *)
Definition log_job_persist_failure (failure : WriteFailure ErrorView)
    : Level * (string * WritePolicyCategory * WriteResponse * N) :=
  (match severity_for (category failure) with WARN => WARN | _ => ERROR end,
   (persist_error_variant (failure_error failure), category failure,
    failure_response failure, attempt failure)).

Definition classify_persist_failure (failure : WriteFailure ErrorView) : DeliveryStep :=
  if decide (category failure = ReconciliationRequired)
  then StepReconciliation (failure_error failure)
  else match FenceSignal_from_failure failure with
       | Ok signal => Fenced signal
       | Err failure => Unpersisted (failure_error failure)
       end.

Definition classify_failure_state_persist_failure (write_failure : WriteFailure ErrorView)
    : DeliveryStep :=
  if decide (category write_failure = ReconciliationRequired)
  then StepReconciliation (failure_error write_failure)
  else match FenceSignal_from_failure write_failure with
       | Ok signal => Fenced signal
       | Err failure => Unpersisted (failure_error failure)
       end.

Section Delivery.
  Context {S T : Type} `{!DeliveryStore S} `{!BatchTracker T}.

(** [ScheduledRun]: [run_tracker] points into the heap of trackers. *)
Record ScheduledRun := mkScheduledRun {
  run_uuid : N;
  run_tracker : nat;
  run_failure : option ErrorView;
}.

(** The state that the sweep and the delivery task share. *)
Record Service := mkService {
  store : S;
  run_fence : option FenceSignal;
  trackers : list T;
  owners : list ScheduledRun;
  scheduled_run : option nat;
  batch_tracker : option nat;
}.

Definition with_store (s : S) w : Service :=
  mkService s (run_fence w) (trackers w) (owners w) (scheduled_run w) (batch_tracker w).
Definition with_fence (f : option FenceSignal) w : Service :=
  mkService (store w) f (trackers w) (owners w) (scheduled_run w) (batch_tracker w).
Definition with_trackers (ts : list T) w : Service :=
  mkService (store w) (run_fence w) ts (owners w) (scheduled_run w) (batch_tracker w).
Definition with_owners (os : list ScheduledRun) w : Service :=
  mkService (store w) (run_fence w) (trackers w) os (scheduled_run w) (batch_tracker w).
Definition with_scheduled (o : option nat) w : Service :=
  mkService (store w) (run_fence w) (trackers w) (owners w) o (batch_tracker w).

Definition set_active_batch_tracker (t : option nat) w : Service :=
  mkService (store w) (run_fence w) (trackers w) (owners w) (scheduled_run w) t.

(** A method of the tracker at [t]. *)
Definition on_tracker (f : T -> T) (t : nat) w : Service := with_trackers (alter f t (trackers w)) w.

Definition drain_scheduled w : Service :=
  match scheduled_run w ≫= (owners w !!.) with
  | Some owner => on_tracker bt_drain (run_tracker owner) w
  | None => w
  end.

Definition drain_batch w : Service :=
  match batch_tracker w with Some t => on_tracker bt_drain t w | None => w end.

(** [AppState::stop_for_reconciliation]. *)
Definition stop_for_reconciliation (error : ErrorView) w : Service :=
  drain_batch (drain_scheduled (with_store (ds_stop error (store w)) w)).

(** [AppState::fence_active_run]: the first fence wins. *)
Definition fence_active_run (signal : FenceSignal) w : Service :=
  drain_batch
    match run_fence w with None => with_fence (Some signal) w | Some _ => w end.

Definition run_is_fenced w : bool := bool_decide (is_Some (run_fence w)).

Definition take_run_fence w : option FenceSignal * Service := (run_fence w, with_fence None w).

(** [AppState::begin_run]. *)
Definition begin_run w : option FenceSignal * Service := take_run_fence w.

(** The state a write leaves: [admitted_write] drains the scheduled run when it
    stops admission. *)
Definition after_write (s : S) w : Service :=
  let w' := with_store s w in
  match ds_admission (store w), ds_admission s with
  | Ok _, Err _ => drain_scheduled w'
  | _, _ => w'
  end.

(** ** The delivery task *)

Definition apply_owned_delivery_step (step : DeliveryStep) (owner : option nat) w : Service :=
  match step with
  | StepReconciliation error => stop_for_reconciliation error w
  | Fenced signal => fence_active_run signal w
  | Delivered =>
    match owner ≫= (owners w !!.) with
    | Some run => on_tracker (bt_retire 1) (run_tracker run) w
    | None => w
    end
  | Unpersisted error =>
    match owner, owner ≫= (owners w !!.) with
    | Some o, Some run =>
      let failure := match run_failure run with None => Some error | Some e => Some e end in
      on_tracker (bt_retire 1) (run_tracker run)
        (with_owners (<[o := mkScheduledRun (run_uuid run) (run_tracker run) failure]> (owners w)) w)
    | _, _ => w
    end
  end.

(** The write of an outcome, and the step it leads to. *)
Definition record_step (classify_failure : WriteFailure ErrorView -> DeliveryStep)
    (domain_key : string) (evidence : RepositoryEvidence) (timestamp : string) w
    : DeliveryStep * Service :=
  let '(r, s) := record_repo domain_key evidence (repo_name (repository evidence)) timestamp (store w) in
  (match r with Ok _ => Delivered | Err failure => classify_failure failure end, after_write s w).

Definition handle_success_outcome (domain_key : string) (job_result : RepositoryEvidence)
    (now : string) w : DeliveryStep * Service :=
  record_step classify_persist_failure domain_key job_result now w.

Definition handle_failure_outcome (domain_key : string) (now now' : string) w
    : DeliveryStep * Service :=
  match ds_get domain_key (store w) with
  | Some existing =>
    record_step classify_failure_state_persist_failure domain_key
      (failure_evidence (repository existing) now) now' w
  | None => (Delivered, w)
  end.

(** What one turn of the loop does. *)
Inductive Reaction :=
| Exits
| Skips
| Applies (owner : option nat) (step : DeliveryStep).

Definition outcome_source (o : JobOutcome) : option (JobSource * option N) :=
  match o with
  | JO_Success _ _ source correlation _ | JO_Failure _ _ source correlation _ _ =>
    Some (source, correlation)
  | JO_Unknown => None
  end.

(** The owner of a scheduled outcome, if its run is the active one. *)
Definition matching_owner (correlation : option N) w : option nat :=
  match scheduled_run w with
  | Some o =>
    match owners w !! o with
    | Some run => if decide (Some (run_uuid run) = correlation) then Some o else None
    | None => None
    end
  | None => None
  end.

Definition handle_outcome (outcome : JobOutcome) w : DeliveryStep * Service :=
  match outcome with
  | JO_Success key job_result _ _ now => handle_success_outcome key job_result now w
  | JO_Failure key _ _ _ now now' => handle_failure_outcome key now now' w
  | JO_Unknown => (Delivered, w)
  end.

(** From the check of the fence on. *)
Definition deliver_for (outcome : JobOutcome) (owner : option nat) w : Reaction * Service :=
  if run_is_fenced w then (Skips, w)
  else
    let '(step, w) := handle_outcome outcome w in
    (Applies owner step, apply_owned_delivery_step step owner w).

(** One turn of [delivery_loop_with_recorder]. *)
Definition deliver (outcome : JobOutcome) w : Reaction * Service :=
  match ds_admission (store w) with
  | Err _ => (Exits, w)
  | Ok _ =>
    match outcome_source outcome with
    | None => (Skips, w)
    | Some (source, correlation) =>
      match source with
      | ScheduledBatch =>
        match matching_owner correlation w with
        | Some o => deliver_for outcome (Some o) w
        | None => (Skips, w)
        end
      | InitialLoad | External => deliver_for outcome None w
      end
    end
  end.

(** [delivery_loop]: it breaks when admission has stopped. *)
Fixpoint delivery_loop (rx : list JobOutcome) w : Service :=
  match rx with
  | [] => w
  | outcome :: rx =>
    match deliver outcome w with
    | (Exits, w) => w
    | (_, w) => delivery_loop rx w
    end
  end.

(** ** The service's other tasks *)

(** What happens between two steps of the sweep: an outcome is received,
    another task changes the store, another task stops admission. *)
Inductive Event :=
| Received (outcome : JobOutcome)
| Elsewhere (f : S -> S)
| Stopped (error : ErrorView).

Definition event_step (e : Event) w : option Reaction * Service :=
  match e with
  | Received outcome => let '(r, w) := deliver outcome w in (Some r, w)
  | Elsewhere f => (None, after_write (f (store w)) w)
  | Stopped error => (None, stop_for_reconciliation error w)
  end.

Fixpoint run_events (es : list Event) w : list Reaction * Service :=
  match es with
  | [] => ([], w)
  | e :: es =>
    let '(r, w) := event_step e w in
    let '(rs, w) := run_events es w in
    (match r with Some r => r :: rs | None => rs end, w)
  end.

(** ** The sweep's side ([app/collect.rs]) *)

(** What [enqueue_batch] of the work queue answers. *)
Record BatchEnqueueResult := mkBatchEnqueueResult { accepted : N; total : N; rejected : N }.

Record PublishedBatch := mkPublishedBatch {
  pb_tracker : nat;
  pb_owner : nat;
  pb_result : BatchEnqueueResult;
}.

Inductive RunStart := StartFenced (signal : FenceSignal) | Published (batch : PublishedBatch).

Definition publish_batch (run_id : N) (expected : N) (publish : BatchEnqueueResult) w
    : RunStart * Service :=
  let '(fence, w) := begin_run w in
  match fence with
  | Some signal => (StartFenced signal, w)
  | None =>
    let tracker := length (trackers w) in
    let w := with_trackers (trackers w ++ [bt_new expected]) w in
    let w := set_active_batch_tracker (Some tracker) w in
    let owner := length (owners w) in
    let w := with_owners (owners w ++ [mkScheduledRun run_id tracker None]) w in
    let w := with_scheduled (Some owner) w in
    let w := on_tracker (bt_retire (sat_sub expected (accepted publish))) tracker w in
    let w := match ds_admission (store w) with
             | Err _ => on_tracker bt_drain tracker w
             | Ok _ => w
             end in
    (Published (mkPublishedBatch tracker owner publish), w)
  end.

Inductive RetireOutcome := Retired (fence : option FenceSignal) | NotOwner.

Definition retire_batch (owner : nat) w : RetireOutcome * Service :=
  if decide (scheduled_run w = Some owner) then
    let w := set_active_batch_tracker None (with_scheduled None w) in
    let '(fence, w) := take_run_fence w in
    (Retired fence, w)
  else (NotOwner, w).

Definition batch_outcome (outcome : RetireOutcome) : result AppError bool :=
  match outcome with
  | Retired (Some signal) => Err (AE_Persistence (into_error signal))
  | Retired None => Ok true
  | NotOwner => Err AE_RunOwnershipLost
  end.

(** [failure.lock().take()] of the run at [owner]. *)
Definition take_failure (owner : nat) w : option ErrorView * Service :=
  match owners w !! owner with
  | Some run =>
    (run_failure run,
     with_owners (<[owner := mkScheduledRun (run_uuid run) (run_tracker run) None]> (owners w)) w)
  | None => (None, w)
  end.

Definition tracker_released (t : nat) w : bool :=
  match trackers w !! t with Some tr => bt_released tr | None => false end.

(** [enqueue_and_await_batch], with the events [es] while it waits and [late]
    while it stops the partial publisher.  [None]: it is still waiting. *)
Definition enqueue_and_await_batch (run_id expected : N) (publish : BatchEnqueueResult)
    (es late : list Event) w : option (result AppError bool) * Service :=
  match ds_admission (store w) with
  | Err e => (Some (Err (AE_Persistence e)), w)
  | Ok _ =>
    let '(started, w) := publish_batch run_id expected publish w in
    match started with
    | StartFenced signal => (Some (batch_outcome (Retired (Some signal))), w)
    | Published batch =>
      let '(_, w) := run_events es w in
      if (accepted (pb_result batch) =? 0) && negb (expected =? 0) then
        let '(outcome, w) := retire_batch (pb_owner batch) w in
        (Some (let? _ := batch_outcome outcome in Ok false), w)
      else if tracker_released (pb_tracker batch) w then
        let '(fence, w) := retire_batch (pb_owner batch) w in
        let '(_, w) := run_events late w in
        match ds_admission (store w) with
        | Err e => (Some (Err (AE_Persistence e)), w)
        | Ok _ =>
          match batch_outcome fence with
          | Err e => (Some (Err e), w)
          | Ok _ =>
            let '(failure, w) := take_failure (pb_owner batch) w in
            (Some match failure with
                  | Some error => Err (AE_Persistence error)
                  | None => Ok true
                  end, w)
          end
        end
      else (None, w)
    end
  end.

End Delivery.
Arguments Service : clear implicits.
Arguments Event : clear implicits.

(** ** What the theorems speak about *)

(** The first fence the delivery task met. *)
Fixpoint first_fence (rs : list Reaction) : option FenceSignal :=
  match rs with
  | [] => None
  | Applies _ (Fenced signal) :: _ => Some signal
  | _ :: rs => first_fence rs
  end.

(** The first failure of the run at [o] that left a record unwritten. *)
Fixpoint first_unpersisted (o : nat) (rs : list Reaction) : option ErrorView :=
  match rs with
  | [] => None
  | Applies (Some o') (Unpersisted error) :: rs =>
    if decide (o' = o) then Some error else first_unpersisted o rs
  | _ :: rs => first_unpersisted o rs
  end.

(** The outcomes of the run at [o] that were settled, and those delivered. *)
Definition settles (o : nat) (r : Reaction) : bool :=
  match r with
  | Applies (Some o') (Delivered | Unpersisted _) => bool_decide (o' = o)
  | _ => false
  end.
Definition delivers (o : nat) (r : Reaction) : bool :=
  match r with Applies (Some o') Delivered => bool_decide (o' = o) | _ => false end.

(** The outcomes of the jobs of run [id] among the events. *)
Definition is_own {S} (id : N) (e : Event S) : bool :=
  match e with
  | Received outcome => bool_decide (outcome_source outcome = Some (ScheduledBatch, Some id))
  | _ => false
  end.

(** Another task never restores admission. *)
Definition lawful {S} `{!DeliveryStore S} (e : Event S) : Prop :=
  match e with
  | Elsewhere f => forall s, admitted (f s) -> admitted s
  | _ => True
  end.

Section Proofs.
  Context {S T : Type} `{!DeliveryStore S} `{!BatchTracker T}
    `{!DeliveryStoreLaws S} `{!BatchTrackerLaws T}.
  Notation Service := (Service S T).
  Implicit Types w : Service.

Lemma classify_failure_agree f : classify_failure_state_persist_failure f = classify_persist_failure f.
Proof. done. Qed.

(** While writes are admitted and no fence was met. *)
Definition going w : bool :=
  match ds_admission (store w), run_fence w with Ok _, None => true | _, _ => false end.

Definition rem (t : nat) w : option N := bt_remaining <$> trackers w !! t.

Lemma admitted_dec s : {admitted s} + {~ admitted s}.
Proof. unfold admitted. destruct (ds_admission s) as [[]|e]; [by left|by right]. Qed.

Lemma going_iff w : going w = true <-> admitted (store w) /\ run_fence w = None.
Proof.
  unfold going, admitted. destruct (ds_admission _) as [[]|], (run_fence w); split; naive_solver.
Qed.

Lemma rem_on_tracker f t w : rem t (on_tracker f t w) = (fun tr => bt_remaining (f tr)) <$> trackers w !! t.
Proof. unfold rem. simpl. rewrite list_lookup_alter_eq. by destruct (trackers w !! t). Qed.

Lemma rem_drain t w n : rem t w = Some n -> rem t (on_tracker bt_drain t w) = Some 0.
Proof.
  rewrite rem_on_tracker /rem. destruct (trackers w !! t); [|done]. simpl. by rewrite bt_drain_remaining.
Qed.

Lemma rem_retire t w n k : rem t w = Some n -> rem t (on_tracker (bt_retire k) t w) = Some (n - k).
Proof.
  rewrite rem_on_tracker /rem. destruct (trackers w !! t); [|done]. simpl. intros [= <-].
  by rewrite bt_retire_remaining.
Qed.

(** The batch of the run [id] at [o], of which [n] outcomes were received;
    [rs] is what the delivery task did so far. *)
Record batch_inv (id : N) (o t : nat) (acc : N) (rs : list Reaction) (n : N) w : Prop := {
  bi_scheduled : scheduled_run w = Some o;
  bi_tracker : batch_tracker w = Some t;
  bi_owner : owners w !! o = Some (mkScheduledRun id t (first_unpersisted o rs));
  bi_rem : rem t w = Some (if going w then acc - n else 0);
  bi_fence : run_fence w = first_fence rs;
  bi_settled : going w = true -> n = countb (settles o) rs;
}.

Lemma first_fence_app rs rs' :
  first_fence (rs ++ rs') = match first_fence rs with Some f => Some f | None => first_fence rs' end.
Proof. by induction rs as [|[| |[] []] rs IH]. Qed.

Lemma first_unpersisted_app o rs rs' :
  first_unpersisted o (rs ++ rs') =
    match first_unpersisted o rs with Some e => Some e | None => first_unpersisted o rs' end.
Proof. induction rs as [|[| |[] []] rs IH]; simpl; try done. by case_decide. Qed.

Lemma after_write_admitted s w : admitted (store w) -> admitted s -> after_write s w = with_store s w.
Proof. unfold admitted, after_write. by intros -> ->. Qed.

Lemma after_write_stops s w : admitted (store w) -> ~ admitted s ->
  after_write s w = drain_scheduled (with_store s w).
Proof.
  unfold admitted, after_write. intros ->. destruct (ds_admission s) as [[]|]; [|done]. by intros [].
Qed.

(** The write of an outcome leaves writes admitted unless its effect is unknown. *)
Lemma handle_outcome_spec outcome w step w' : admitted (store w) ->
  handle_outcome outcome w = (step, w') ->
  exists s, match step with
            | StepReconciliation _ => ~ admitted s /\ w' = drain_scheduled (with_store s w)
            | _ => admitted s /\ w' = with_store s w
            end.
Proof.
  intros Ha. assert (forall key ev ts, record_step classify_persist_failure key ev ts w = (step, w') ->
    exists s, match step with
              | StepReconciliation _ => ~ admitted s /\ w' = drain_scheduled (with_store s w)
              | _ => admitted s /\ w' = with_store s w
              end) as Hrecord.
  { intros key ev ts. unfold record_step. destruct (record_repo _ _ _ _ _) as [r s] eqn:E.
    apply record_latches in E; [|done]. intros [= <- <-]. exists s.
    destruct r as [[]|f].
    - assert (admitted s) by by apply E. by rewrite after_write_admitted.
    - unfold classify_persist_failure. case_decide as Hc.
      + assert (~ admitted s) by (intros H; by apply E in H). by rewrite after_write_stops.
      + assert (admitted s) by by apply E. rewrite after_write_admitted //.
        unfold FenceSignal_from_failure. by case_decide. }
  destruct outcome; simpl.
  - apply Hrecord.
  - unfold handle_failure_outcome. destruct (ds_get _ _); [apply Hrecord|].
    intros [= <- <-]. exists (store w). split; [done|]. by destruct w.
  - intros [= <- <-]. exists (store w). split; [done|]. by destruct w.
Qed.

(** A drained batch is done, whatever is received after. *)
Lemma batch_inv_stopped id o t acc rs n n' w rs' w' : batch_inv id o t acc rs n w ->
  scheduled_run w' = scheduled_run w -> batch_tracker w' = batch_tracker w ->
  owners w' = owners w -> rem t w' = Some 0 -> going w' = false ->
  first_unpersisted o rs' = first_unpersisted o rs -> run_fence w' = first_fence rs' ->
  batch_inv id o t acc rs' n' w'.
Proof. intros [] ?? Ho ? Hg Hu ?. split; rewrite ?Hg ?Ho ?Hu; congruence. Qed.

Lemma drain_batch_eq t w : batch_tracker w = Some t -> drain_batch w = on_tracker bt_drain t w.
Proof. unfold drain_batch. by intros ->. Qed.

Lemma drain_scheduled_eq o run w : scheduled_run w = Some o -> owners w !! o = Some run ->
  drain_scheduled w = on_tracker bt_drain (run_tracker run) w.
Proof. unfold drain_scheduled. intros -> Ho. by rewrite /= Ho. Qed.

Lemma closed_not_going w : ~ admitted (store w) -> going w = false.
Proof. intros H. apply not_true_iff_false. by intros [??]%going_iff. Qed.

Lemma fenced_not_going w : is_Some (run_fence w) -> going w = false.
Proof. intros [f H]. apply not_true_iff_false. intros [? H']%going_iff. congruence. Qed.

(** A write of unknown effect, and the stop it leads to. *)
Lemma drained_inv id o t acc rs n s w : batch_inv id o t acc rs n w -> ~ admitted s ->
  batch_inv id o t acc rs n (drain_scheduled (with_store s w)).
Proof.
  intros Hi Hs. erewrite drain_scheduled_eq; [|exact (bi_scheduled _ _ _ _ _ _ _ Hi)
    |exact (bi_owner _ _ _ _ _ _ _ Hi)].
  eapply batch_inv_stopped; [exact Hi|try done..].
  - eapply rem_drain. exact (bi_rem _ _ _ _ _ _ _ Hi).
  - by apply closed_not_going.
  - exact (bi_fence _ _ _ _ _ _ _ Hi).
Qed.

Lemma stop_inv id o t acc rs rs' n n' error w : batch_inv id o t acc rs n w ->
  first_unpersisted o rs' = first_unpersisted o rs -> first_fence rs' = first_fence rs ->
  batch_inv id o t acc rs' n' (stop_for_reconciliation error w).
Proof.
  intros Hi Hu Hf. pose proof (drained_inv _ _ _ _ _ _ (ds_stop error (store w)) w Hi
    (ds_stop_closes error _)) as Hd. unfold stop_for_reconciliation.
  rewrite (drain_batch_eq t); [|exact (bi_tracker _ _ _ _ _ _ _ Hd)].
  eapply batch_inv_stopped; [exact Hd|try done..].
  - eapply rem_drain. exact (bi_rem _ _ _ _ _ _ _ Hd).
  - apply closed_not_going.
    erewrite drain_scheduled_eq; [|exact (bi_scheduled _ _ _ _ _ _ _ Hi)
      |exact (bi_owner _ _ _ _ _ _ _ Hi)]. apply ds_stop_closes.
  - rewrite Hf. exact (bi_fence _ _ _ _ _ _ _ Hd).
Qed.

Lemma fence_inv id o t acc rs rs' n n' signal w : batch_inv id o t acc rs n w ->
  run_fence w = None -> first_unpersisted o rs' = first_unpersisted o rs ->
  first_fence rs' = Some signal ->
  batch_inv id o t acc rs' n' (fence_active_run signal w).
Proof.
  intros Hi Hn Hu Hf. unfold fence_active_run. rewrite Hn.
  rewrite (drain_batch_eq t); [|by destruct (run_fence w); exact (bi_tracker _ _ _ _ _ _ _ Hi)].
  eapply batch_inv_stopped; [exact Hi|try done..].
  - eapply rem_drain. exact (bi_rem _ _ _ _ _ _ _ Hi).
  - by apply fenced_not_going.
Qed.

(** One settled outcome of the run itself. *)
Lemma batch_inv_settle id o t acc rs n w step : batch_inv id o t acc rs n w -> going w = true ->
  match step with Delivered | Unpersisted _ => True | _ => False end ->
  batch_inv id o t acc (rs ++ [Applies (Some o) step]) (n + 1)
    (apply_owned_delivery_step step (Some o) w).
Proof.
  intros [Hs Ht Ho Hr Hf Hn] Hg Hstep. rewrite Hg in Hr.
  assert (forall os, going (on_tracker (bt_retire 1) t (with_owners os w)) = true) as Hg' by done.
  assert (first_fence (rs ++ [Applies (Some o) step]) = first_fence rs) as Hff.
  { rewrite first_fence_app. destruct step; try done; by destruct (first_fence rs). }
  assert (countb (settles o) (rs ++ [Applies (Some o) step]) = countb (settles o) rs + 1) as Hc.
  { rewrite countb_app countb_cons. destruct step; try done; simpl; by rewrite bool_decide_eq_true_2. }
  destruct step as [|?|e|?]; try done; simpl; rewrite Ho; cbn [run_tracker run_uuid run_failure].
  - assert (first_unpersisted o (rs ++ [Applies (Some o) Delivered]) = first_unpersisted o rs) as Hu
      by (rewrite first_unpersisted_app; by destruct (first_unpersisted o rs)).
    split; simpl; try done.
    + by rewrite Hu.
    + erewrite rem_retire by done. replace (going _) with true by done. f_equal. lia.
    + by rewrite Hff.
    + intros _. by rewrite Hc -Hn.
  - split; simpl; try done.
    + rewrite list_lookup_insert_eq; [|by eapply lookup_lt_Some].
      by rewrite first_unpersisted_app /= decide_True.
    + erewrite (rem_retire t (with_owners _ w)) by done. replace (going _) with true by done. f_equal. lia.
    + by rewrite Hff.
    + intros _. by rewrite Hc -Hn.
Qed.

Lemma with_store_inv id o t acc rs n s w : batch_inv id o t acc rs n w -> going w = true ->
  admitted s -> batch_inv id o t acc rs n (with_store s w) /\ going (with_store s w) = true.
Proof.
  intros [Hs Ht Ho Hr Hf Hn] Hg Ha. assert (going (with_store s w) = true) as Hg'.
  { apply going_iff. apply going_iff in Hg as []. done. }
  split; [|done]. split; try done.
  - rewrite Hg'. by rewrite Hg in Hr.
  - intros _. by apply Hn.
Qed.

Lemma deliver_for_inv id o t acc rs n w outcome owner r w' (own : bool) :
  batch_inv id o t acc rs n w -> admitted (store w) ->
  owner = (if own then Some o else None) -> deliver_for outcome owner w = (r, w') ->
  batch_inv id o t acc (rs ++ [r]) (if own then n + 1 else n) w'.
Proof.
  intros Hinv Ha ->. unfold deliver_for, run_is_fenced. case_bool_decide as Hfenced.
  { intros [= <- <-]. pose proof (fenced_not_going w Hfenced) as Hg.
    eapply batch_inv_stopped; [exact Hinv|try done..].
    - by rewrite (bi_rem _ _ _ _ _ _ _ Hinv) Hg.
    - rewrite first_unpersisted_app. by destruct (first_unpersisted o rs).
    - rewrite (bi_fence _ _ _ _ _ _ _ Hinv) first_fence_app. by destruct (first_fence rs). }
  assert (run_fence w = None) as Hnf by (destruct (run_fence w); [by destruct Hfenced|done]).
  assert (going w = true) as Hg by by apply going_iff.
  assert (first_fence rs = None) as Hff by by rewrite -(bi_fence _ _ _ _ _ _ _ Hinv).
  destruct (handle_outcome outcome w) as [step w1] eqn:Eh. intros [= <- <-].
  destruct (handle_outcome_spec _ _ _ _ Ha Eh) as [s Hs].
  assert (forall ow st, match st with Unpersisted _ => ow = None | _ => True end ->
    first_unpersisted o (rs ++ [Applies ow st]) = first_unpersisted o rs) as Hu.
  { intros ow st. rewrite first_unpersisted_app. destruct (first_unpersisted o rs); [done|].
    destruct ow, st; naive_solver. }
  destruct step as [|error|error|signal].
  - destruct Hs as [Has ->]. destruct (with_store_inv _ _ _ _ _ _ s w Hinv Hg Has) as [Hi1 Hg1].
    destruct own; [by apply batch_inv_settle|]. simpl.
    destruct Hi1 as [?? Ho ? Hf Hn]. split; try done.
    + by rewrite Hu.
    + by rewrite Hf first_fence_app Hff.
    + intros _. rewrite countb_app Hn //. rewrite /countb /=. lia.
  - destruct Hs as [Has ->]. simpl. eapply stop_inv; [by eapply drained_inv|by apply Hu|].
    by rewrite first_fence_app Hff.
  - destruct Hs as [Has ->]. destruct (with_store_inv _ _ _ _ _ _ s w Hinv Hg Has) as [Hi1 Hg1].
    destruct own; [by apply batch_inv_settle|]. simpl.
    destruct Hi1 as [?? Ho ? Hf Hn]. split; try done.
    + by rewrite Hu.
    + by rewrite Hf first_fence_app Hff.
    + intros _. rewrite countb_app Hn //. rewrite /countb /=. lia.
  - destruct Hs as [Has ->]. destruct (with_store_inv _ _ _ _ _ _ s w Hinv Hg Has) as [Hi1 _].
    simpl. eapply fence_inv; [exact Hi1|done|by apply Hu|]. by rewrite first_fence_app Hff.
Qed.

(** An outcome that is left aside: it may be the run's own only when the batch
    is over. *)
Lemma skip_inv id o t acc rs n n' w r : batch_inv id o t acc rs n w ->
  match r with Applies _ _ => False | _ => True end ->
  (n' = n \/ going w = false) -> batch_inv id o t acc (rs ++ [r]) n' w.
Proof.
  intros [Hs Ht Ho Hr Hf Hn] Hrx Hn'.
  assert (first_unpersisted o (rs ++ [r]) = first_unpersisted o rs) as Hu
    by (rewrite first_unpersisted_app; destruct r; try done; by destruct (first_unpersisted o rs)).
  assert (first_fence (rs ++ [r]) = first_fence rs) as Hff
    by (rewrite first_fence_app; destruct r; try done; by destruct (first_fence rs)).
  split; rewrite ?Hu ?Hff; try done.
  - destruct Hn' as [->|Hg]; [done|]. by rewrite Hr Hg.
  - intros Hg. destruct Hn' as [->|Hg']; [|congruence].
    rewrite countb_app (Hn Hg). destruct r; done || (rewrite /countb /=; lia).
Qed.

Lemma deliver_inv id o t acc rs n w outcome r w' : batch_inv id o t acc rs n w ->
  deliver outcome w = (r, w') ->
  batch_inv id o t acc (rs ++ [r])
    (if is_own id (Received (S := S) outcome) then n + 1 else n) w'.
Proof.
  intros Hi. unfold deliver, is_own. destruct (ds_admission (store w)) as [[]|e] eqn:Ea.
  2:{ intros [= <- <-]. eapply skip_inv; [done..|]. right. apply closed_not_going.
      unfold admitted. by rewrite Ea. }
  destruct (outcome_source outcome) as [[source correlation]|].
  2:{ intros [= <- <-]. rewrite bool_decide_eq_false_2 //. eapply skip_inv; [done..|by left]. }
  unfold matching_owner. rewrite (bi_scheduled _ _ _ _ _ _ _ Hi) (bi_owner _ _ _ _ _ _ _ Hi).
  cbn [run_uuid]. destruct source.
  - case_decide as Hc.
    + intros Hd. rewrite bool_decide_eq_true_2; [|by subst].
      by eapply (deliver_for_inv _ _ _ _ _ _ _ _ _ _ _ true).
    + intros [= <- <-]. rewrite bool_decide_eq_false_2; [|naive_solver].
      eapply skip_inv; [done..|by left].
  - intros Hd. rewrite bool_decide_eq_false_2 //.
    by eapply (deliver_for_inv _ _ _ _ _ _ _ _ _ _ _ false).
  - intros Hd. rewrite bool_decide_eq_false_2 //.
    by eapply (deliver_for_inv _ _ _ _ _ _ _ _ _ _ _ false).
Qed.

(** Nothing that follows restarts a batch that is over. *)
Lemma still_over id o t acc rs n s w : batch_inv id o t acc rs n w -> going w = false ->
  going (with_store s w) = false -> batch_inv id o t acc rs n (with_store s w).
Proof.
  intros Hi Hg Hg'. eapply batch_inv_stopped; [exact Hi|try done..].
  - pose proof (bi_rem _ _ _ _ _ _ _ Hi) as Hr. by rewrite Hg in Hr.
  - exact (bi_fence _ _ _ _ _ _ _ Hi).
Qed.

Lemma after_write_inv id o t acc rs n s w : batch_inv id o t acc rs n w ->
  (admitted s -> admitted (store w)) -> batch_inv id o t acc rs n (after_write s w).
Proof.
  intros Hi Hs. destruct (admitted_dec (store w)) as [Ha|Ha]; [destruct (admitted_dec s) as [Ha'|Ha']|].
  - rewrite after_write_admitted //. destruct (going w) eqn:Hg.
    + by destruct (with_store_inv _ _ _ _ _ _ s w Hi Hg Ha').
    + eapply still_over; [done..|]. apply fenced_not_going, not_eq_None_Some. simpl. intros Hf.
      assert (going w = true) by by apply going_iff. congruence.
  - rewrite after_write_stops //. by apply drained_inv.
  - replace (after_write s w) with (with_store s w).
    { eapply still_over; [done|by apply closed_not_going|]. apply closed_not_going. simpl. auto. }
    unfold after_write. unfold admitted in Ha. by destruct (ds_admission (store w)) as [[]|].
Qed.

Lemma event_inv id o t acc rs n w e r w' : batch_inv id o t acc rs n w -> lawful e ->
  event_step e w = (r, w') ->
  batch_inv id o t acc (rs ++ option_list r) (if is_own id e then n + 1 else n) w'.
Proof.
  intros Hi Hl. destruct e as [outcome|f|error]; unfold event_step.
  - destruct (deliver outcome w) as [r0 w0] eqn:E. intros [= <- <-]. by eapply deliver_inv.
  - intros [= <- <-]. simpl. rewrite app_nil_r. by apply after_write_inv; [|apply Hl].
  - intros [= <- <-]. simpl. rewrite app_nil_r. by eapply stop_inv.
Qed.

Lemma run_events_inv id o t acc es : forall rs n w rs' w', Forall lawful es ->
  batch_inv id o t acc rs n w -> run_events es w = (rs', w') ->
  batch_inv id o t acc (rs ++ rs') (n + countb (is_own id) es) w'.
Proof.
  induction es as [|e es IH]; intros rs n w rs' w' Hl Hi; simpl.
  - intros [= <- <-]. by rewrite app_nil_r /countb N.add_0_r.
  - apply Forall_cons in Hl as [Hl Hls]. destruct (event_step e w) as [r w1] eqn:E1.
    destruct (run_events es w1) as [rs1 w2] eqn:E2. intros [= <- <-].
    pose proof (event_inv _ _ _ _ _ _ _ _ _ _ Hi Hl E1) as Hi1.
    pose proof (IH _ _ _ _ _ Hls Hi1 E2) as Hi2. rewrite countb_cons.
    replace (n + ((if is_own id e then 1 else 0) + countb (is_own id) es))
      with ((if is_own id e then n + 1 else n) + countb (is_own id) es) by (destruct (is_own id e); lia).
    replace (rs ++ match r with Some r => r :: rs1 | None => rs1 end)
      with ((rs ++ option_list r) ++ rs1); [done|].
    destruct r; simpl; [by rewrite -app_assoc|by rewrite app_nil_r].
Qed.

(** A batch as it is published. *)
Lemma publish_inv id expected publish w start w' : run_fence w = None -> accepted publish <= expected ->
  publish_batch id expected publish w = (start, w') ->
  start = Published (mkPublishedBatch (length (trackers w)) (length (owners w)) publish) /\
  batch_inv id (length (owners w)) (length (trackers w)) (accepted publish) [] 0 w' /\
  store w' = store w.
Proof.
  intros Hf Hle. unfold publish_batch, begin_run, take_run_fence. rewrite Hf.
  set (w1 := on_tracker _ _ _). intros [= <- <-]. split; [done|].
  assert (rem (length (trackers w)) w1 = Some (accepted publish)) as Hr.
  { unfold w1. rewrite (rem_retire _ _ expected); [unfold sat_sub; f_equal; lia|].
    unfold rem. simpl. rewrite lookup_app_r // Nat.sub_diag /=. by rewrite bt_new_remaining. }
  assert (forall w2, owners w2 = owners w1 ->
    owners w2 !! length (owners w) = Some (mkScheduledRun id (length (trackers w)) None)) as Ho.
  { intros w2 ->. simpl. by rewrite lookup_app_r // Nat.sub_diag. }
  split; [|by destruct (ds_admission _)].
  destruct (ds_admission (store w)) as [[]|] eqn:Ea.
  - assert (going w1 = true) as Hg by by apply going_iff.
    split; try done; [by apply Ho|]. by rewrite Hr Hg N.sub_0_r.
  - assert (going (on_tracker bt_drain (length (trackers w)) w1) = false) as Hg.
    { apply closed_not_going. unfold admitted. simpl. by rewrite Ea. }
    split; try done; [by apply Ho|]. by erewrite rem_drain, Hg.
Qed.

Lemma batch_inv_released id o t acc rs n w : batch_inv id o t acc rs n w ->
  tracker_released t w = true <->
    ~ admitted (store w) \/ is_Some (run_fence w) \/ acc <= n.
Proof.
  intros [_ _ _ Hr _ _]. unfold tracker_released, rem in *.
  destruct (trackers w !! t) as [tr|]; [|done]. injection Hr as Hr. rewrite bt_released_iff Hr.
  destruct (going w) eqn:Hg.
  - apply going_iff in Hg as [Ha Hf]. rewrite Hf.
    split; [right; right; lia|]. intros [?|[[]|?]]; [done|done|lia].
  - split; [intros _|done]. destruct (admitted_dec (store w)); [|by left].
    right. left. apply not_eq_None_Some. intros Hf.
    assert (going w = true) by by apply going_iff. congruence.
Qed.

(** Admission that has stopped does not come back. *)
Lemma event_keeps_stop e w r w' : lawful e -> event_step e w = (r, w') ->
  ~ admitted (store w) -> ~ admitted (store w').
Proof.
  intros Hl He Ha. destruct e as [outcome|f|error]; simpl in He.
  - unfold deliver in He. unfold admitted in *. destruct (ds_admission (store w)) as [[]|] eqn:E; [done|].
    injection He as <- <-. by rewrite E.
  - injection He as <- <-. assert (~ admitted (f (store w))) as Hf by (intros H; by apply Hl in H).
    unfold after_write. unfold admitted in Ha. by destruct (ds_admission (store w)) as [[]|].
  - injection He as <- <-. unfold stop_for_reconciliation, drain_batch, drain_scheduled. simpl.
    pose proof (ds_stop_closes error (store w)). by repeat case_match.
Qed.

Lemma run_events_keep_stop es : forall w rs w', Forall lawful es -> run_events es w = (rs, w') ->
  ~ admitted (store w) -> ~ admitted (store w').
Proof.
  induction es as [|e es IH]; intros w rs w' Hl; simpl; [by intros [= _ <-]|].
  apply Forall_cons in Hl as [Hl Hls]. destruct (event_step e w) as [r w1] eqn:E1.
  destruct (run_events es w1) as [rs1 w2] eqn:E2. intros [= _ <-] Ha.
  eapply IH; [done..|]. by eapply event_keeps_stop.
Qed.

(** The treatment of an outcome changes the service by one write. *)
Lemma handle_outcome_writes outcome w : exists s, snd (handle_outcome outcome w) = after_write s w.
Proof.
  assert (forall c k ev ts, exists s, snd (record_step c k ev ts w) = after_write s w) as Hr.
  { intros c k ev ts. unfold record_step. destruct (record_repo _ _ _ _ _) as [r s]. by exists s. }
  assert (exists s, w = after_write s w) as Hid.
  { exists (store w). unfold after_write. destruct w; simpl. by repeat case_match. }
  destruct outcome; simpl; [apply Hr| |done]. unfold handle_failure_outcome.
  destruct (ds_get _ _); [apply Hr|done].
Qed.

(** After its retirement a run is left alone. *)
Lemma event_unowned e w r w' : event_step e w = (r, w') -> scheduled_run w = None ->
  scheduled_run w' = None /\ owners w' = owners w.
Proof.
  intros He Hs. assert (forall s, after_write s w = with_store s w) as Haw.
  { intros s. unfold after_write, drain_scheduled. simpl. rewrite Hs. by repeat case_match. }
  assert (forall f s, scheduled_run (stop_for_reconciliation f (with_store s w)) = None /\
    owners (stop_for_reconciliation f (with_store s w)) = owners w) as Hst.
  { intros f s. unfold stop_for_reconciliation, drain_scheduled, drain_batch. simpl. rewrite Hs /=.
    by case_match. }
  destruct e as [outcome|f|error]; simpl in He.
  - destruct (deliver outcome w) as [r0 w0] eqn:Ed. injection He as <- <-. revert Ed. unfold deliver.
    destruct (ds_admission (store w)); [|by intros [= _ <-]].
    destruct (outcome_source outcome) as [[src co]|]; [|by intros [= _ <-]].
    assert (deliver_for outcome None w = (r0, w0) -> scheduled_run w0 = None /\ owners w0 = owners w) as Hd.
    { unfold deliver_for. case_match; [by intros [= _ <-]|].
      destruct (handle_outcome_writes outcome w) as [s Hw]. rewrite Haw in Hw.
      destruct (handle_outcome outcome w) as [step w1]. simpl in Hw. subst w1. intros [= _ <-].
      destruct step; simpl; try done.
      unfold fence_active_run, drain_batch. simpl. by repeat case_match. }
    destruct src; [|exact Hd..]. unfold matching_owner. rewrite Hs. by intros [= _ <-].
  - injection He as <- <-. by rewrite Haw.
  - injection He as <- <-. specialize (Hst error (store w)). by destruct w.
Qed.

Lemma run_events_unowned es : forall w rs w', run_events es w = (rs, w') -> scheduled_run w = None ->
  owners w' = owners w.
Proof.
  induction es as [|e es IH]; intros w rs w'; simpl; [by intros [= _ <-]|].
  destruct (event_step e w) as [r w1] eqn:E1. destruct (run_events es w1) as [rs1 w2] eqn:E2.
  intros [= _ <-] Hs. apply event_unowned in E1 as [Hs1 <-]; [|done]. by eapply IH.
Qed.

Lemma settled_delivered o rs : first_unpersisted o rs = None ->
  countb (settles o) rs = countb (delivers o) rs.
Proof.
  induction rs as [|r rs IH]; [done|]. rewrite !countb_cons. destruct r as [| |[o'|] []]; simpl;
    try (by intros ->%IH); case_decide; [done|].
  intros ->%IH. by rewrite bool_decide_eq_false_2.
Qed.

(** C24: the barrier a sweep waits at opens exactly when every job the queue
    accepted has had its outcome received, or the run met the fence, or
    admission stopped; in any interleaving of the outcomes of this and of other
    runs, of webhook jobs and of the writes of other tasks.  So a sweep is
    never stranded, and never goes on while its own jobs may still write. *)
Theorem barrier_exact id expected publish es w start w1 rs w2 :
  run_fence w = None -> accepted publish <= expected -> Forall lawful es ->
  publish_batch id expected publish w = (start, w1) -> run_events es w1 = (rs, w2) ->
  match start with
  | Published batch =>
    tracker_released (pb_tracker batch) w2 = true <->
      ~ admitted (store w2) \/ is_Some (run_fence w2) \/ accepted publish <= countb (is_own id) es
  | StartFenced _ => False
  end.
Proof.
  intros Hf Hle Hl Hp Hr. destruct (publish_inv _ _ _ _ _ _ Hf Hle Hp) as (-> & Hi & _).
  pose proof (run_events_inv _ _ _ _ _ _ _ _ _ _ Hl Hi Hr) as Hi2. simpl in *.
  by apply batch_inv_released in Hi2.
Qed.

(** What the batch of run [o] amounts to, after the reactions [rs]. *)
Definition batch_verdict (o : nat) (rs : list Reaction) (closed : option ErrorView)
    (none_accepted : bool) : result AppError bool :=
  match none_accepted, closed, first_fence rs, first_unpersisted o rs with
  | true, _, Some f, _ => Err (AE_Persistence (into_error f))
  | true, _, None, _ => Ok false
  | false, Some e, _, _ => Err (AE_Persistence e)
  | false, None, Some f, _ => Err (AE_Persistence (into_error f))
  | false, None, None, Some e => Err (AE_Persistence e)
  | false, None, None, None => Ok true
  end.

Definition closed_with (s : S) : option ErrorView :=
  match ds_admission s with Err e => Some e | Ok _ => None end.

(** C23: what a sweep makes of its batch, whatever happens while it waits.  A
    fence met before it started aborts it before anything is published, and is
    consumed.  Otherwise its result is, in this order: that admission stopped;
    the first fence the delivery task met; the first of its own records that
    could not be written; success.  It succeeds only if every job the queue
    accepted was delivered, and it never finds that it lost its batch. *)
Theorem batch_result_exact id expected publish es late w r w' :
  admitted (store w) -> accepted publish <= expected -> Forall lawful es -> Forall lawful late ->
  enqueue_and_await_batch id expected publish es late w = (Some r, w') ->
  match run_fence w with
  | Some signal => r = Err (AE_Persistence (into_error signal)) /\ w' = with_fence None w
  | None =>
    let o := length (owners w) in
    let rs := fst (run_events es (snd (publish_batch id expected publish w))) in
    r = batch_verdict o rs (closed_with (store w')) ((accepted publish =? 0) && negb (expected =? 0)) /\
    (r = Ok true -> accepted publish <= countb (delivers o) rs)
  end.
Proof.
  intros Ha Hle Hl Hl' Hrun. unfold enqueue_and_await_batch in Hrun. unfold admitted in Ha.
  rewrite Ha in Hrun. destruct (run_fence w) as [signal|] eqn:Hf.
  { revert Hrun. unfold publish_batch, begin_run, take_run_fence. rewrite Hf. by intros [= <- <-]. }
  destruct (publish_batch id expected publish w) as [start w1] eqn:Hp.
  destruct (publish_inv _ _ _ _ _ _ Hf Hle Hp) as (-> & Hi & _). simpl in *.
  destruct (run_events es w1) as [rs w2] eqn:Hes. simpl.
  pose proof (run_events_inv _ _ _ _ _ _ _ _ _ _ Hl Hi Hes) as Hi2. rewrite app_nil_l N.add_0_l in Hi2.
  unfold retire_batch, take_run_fence in Hrun.
  rewrite (decide_True _ _ (bi_scheduled _ _ _ _ _ _ _ Hi2)) in Hrun. simpl in Hrun.
  unfold batch_verdict, closed_with.
  rewrite (bi_fence _ _ _ _ _ _ _ Hi2) in Hrun.
  destruct ((accepted publish =? 0) && negb (expected =? 0)).
  { destruct (first_fence rs); injection Hrun as <- <-; by split. }
  destruct (tracker_released _ w2) eqn:Hrel; [|done].
  destruct (run_events late _) as [lrs w3] eqn:Hlate.
  pose proof (run_events_unowned _ _ _ _ Hlate eq_refl) as Ho. simpl in Ho.
  pose proof (run_events_keep_stop _ _ _ _ Hl' Hlate) as Hstop. simpl in Hstop.
  destruct (ds_admission (store w3)) as [[]|e] eqn:Ha3; [|injection Hrun as <- <-; by rewrite Ha3].
  destruct (first_fence rs) as [f|] eqn:Hff; simpl in Hrun; [injection Hrun as <- <-; by rewrite Ha3|].
  unfold take_failure in Hrun. rewrite Ho (bi_owner _ _ _ _ _ _ _ Hi2) in Hrun. simpl in Hrun.
  injection Hrun as <- <-. simpl. rewrite Ha3. split; [by destruct (first_unpersisted _ rs)|].
  destruct (first_unpersisted (length (owners w)) rs) eqn:Hu; [done|]. intros _.
  assert (going w2 = true) as Hg.
  { apply going_iff. rewrite (bi_fence _ _ _ _ _ _ _ Hi2). split; [|done].
    destruct (admitted_dec (store w2)) as [|Hn]; [done|]. by destruct (Hstop Hn). }
  apply going_iff in Hg as Hg'. destruct Hg' as [Ha2 Hf2].
  apply (batch_inv_released _ _ _ _ _ _ _ Hi2) in Hrel as [?|[[]|Hn]]; [done|congruence|].
  rewrite -settled_delivered // -(bi_settled _ _ _ _ _ _ _ Hi2 Hg). lia.
Qed.

(** ** An aborted run *)

Definition exits (r : Reaction) : Prop := r = Exits.
Definition writes_nothing (r : Reaction) : Prop := match r with Applies _ _ => False | _ => True end.

Lemma closed_exits es : forall w rs w', Forall lawful es -> run_events es w = (rs, w') ->
  ~ admitted (store w) -> Forall exits rs.
Proof.
  induction es as [|e es IH]; intros w rs w' Hl; simpl; [by intros [= <- _]|].
  apply Forall_cons in Hl as [Hl Hls]. destruct (event_step e w) as [r w1] eqn:E1.
  destruct (run_events es w1) as [rs1 w2] eqn:E2. intros [= <- _] Ha.
  assert (Forall exits rs1) as Hrs1 by (eapply IH; [done..|]; by eapply event_keeps_stop).
  destruct r as [r|]; [|done]. constructor; [|done]. destruct e; simpl in E1; try done.
  revert E1. unfold deliver. unfold admitted in Ha. destruct (ds_admission (store w)) as [[]|]; [done|].
  by intros [= <- _].
Qed.

(** The loop is its turns, one after the other: what breaks it is permanent. *)
Lemma delivery_loop_events rx : forall w,
  delivery_loop rx w = snd (run_events (map Received rx) w).
Proof.
  induction rx as [|outcome rx IH]; intros w; [done|]. simpl.
  destruct (deliver outcome w) as [r w1] eqn:E.
  destruct (run_events (map Received rx) w1) as [rs w2] eqn:E2. simpl.
  assert (delivery_loop rx w1 = w2) as Hrx by by rewrite IH E2.
  destruct r; [|done..]. assert (ds_admission (store w) <> Ok () /\ w1 = w) as [Ha ->].
  { revert E. unfold deliver, deliver_for.
    destruct (ds_admission (store w)); [|intros [= <-]; by split].
    repeat case_match; intros; simplify_eq. }
  rewrite -Hrx. destruct rx as [|outcome' rx]; [done|]. simpl. unfold deliver.
  by destruct (ds_admission (store w)) as [[]|].
Qed.

Lemma drains_keep_fence w :
  run_fence (drain_scheduled w) = run_fence w /\ run_fence (drain_batch w) = run_fence w.
Proof. unfold drain_scheduled, drain_batch. split; by case_match. Qed.

Lemma after_write_fence s w : run_fence (after_write s w) = run_fence w.
Proof. unfold after_write. repeat case_match; try done. by rewrite (proj1 (drains_keep_fence _)). Qed.

Lemma stop_keeps_fence e w : run_fence (stop_for_reconciliation e w) = run_fence w.
Proof.
  unfold stop_for_reconciliation. by rewrite (proj2 (drains_keep_fence _)) (proj1 (drains_keep_fence _)).
Qed.

(** A fence that was met stays until the sweep takes it, and nothing is
    written meanwhile. *)
Lemma fenced_event e w r w' : event_step e w = (r, w') -> is_Some (run_fence w) ->
  is_Some (run_fence w') /\ Forall writes_nothing (option_list r).
Proof.
  intros He Hf. destruct e as [outcome|f|error]; simpl in He.
  - destruct (deliver outcome w) as [r0 w0] eqn:Ed. injection He as <- <-.
    assert (forall ow, deliver_for outcome ow w = (Skips, w)) as Hd.
    { intros ow. unfold deliver_for, run_is_fenced. by rewrite bool_decide_eq_true_2. }
    revert Ed. unfold deliver.
    destruct (ds_admission (store w)); [|intros [= <- <-]; by split; repeat constructor].
    destruct (outcome_source outcome) as [[[] co]|]; [|rewrite Hd..|];
      try (intros [= <- <-]; by split; repeat constructor).
    destruct (matching_owner co w); [rewrite Hd|]; intros [= <- <-]; by split; repeat constructor.
  - injection He as <- <-. rewrite after_write_fence. by split; [|constructor].
  - injection He as <- <-. rewrite stop_keeps_fence. by split; [|constructor].
Qed.

Lemma fenced_silent es : forall w rs w', run_events es w = (rs, w') -> is_Some (run_fence w) ->
  Forall writes_nothing rs.
Proof.
  induction es as [|e es IH]; intros w rs w'; simpl; [by intros [= <- _]|].
  destruct (event_step e w) as [r w1] eqn:E1. destruct (run_events es w1) as [rs1 w2] eqn:E2.
  intros [= <- _] Hf. destruct (fenced_event _ _ _ _ E1 Hf) as [Hf1 Hr].
  assert (Forall writes_nothing rs1) by by eapply IH.
  destruct r; [|done]. inversion_clear Hr. by constructor.
Qed.

(** What the turn that meets a fence, or a write of unknown effect, leaves. *)
Lemma deliver_aborts outcome w ow step w' : deliver outcome w = (Applies ow step, w') ->
  match step with
  | Fenced _ => is_Some (run_fence w')
  | StepReconciliation _ => ~ admitted (store w')
  | _ => True
  end.
Proof.
  assert (forall o, deliver_for outcome o w = (Applies ow step, w') ->
    match step with
    | Fenced _ => is_Some (run_fence w') | StepReconciliation _ => ~ admitted (store w') | _ => True
    end) as Hd.
  { intros o. unfold deliver_for. case_match; [done|].
    destruct (handle_outcome outcome w) as [step1 w1]. intros [= _ <- <-]. destruct step1; simpl; try done.
    - unfold stop_for_reconciliation, drain_batch, drain_scheduled. simpl.
      pose proof (ds_stop_closes error (store w1)). by repeat case_match.
    - unfold fence_active_run. rewrite (proj2 (drains_keep_fence _)).
      by destruct (run_fence w1) eqn:E; rewrite ?E. }
  unfold deliver. destruct (ds_admission (store w)); [|done].
  destruct (outcome_source outcome) as [[[] co]|]; [|exact (Hd None)..|done].
  destruct (matching_owner co w); [apply Hd|done].
Qed.

(** C25: once the delivery task has met the fence, nothing it receives is
    written through the superseded writer until a sweep has taken the fence;
    once a write's effect was unknown, the task leaves at the next outcome and
    admission stays stopped. *)
Theorem aborted_run_is_silent es : forall w rs1 ow step rs2 w', Forall lawful es ->
  run_events es w = (rs1 ++ Applies ow step :: rs2, w') ->
  match step with
  | Fenced _ => Forall writes_nothing rs2 /\ run_fence w' <> None
  | StepReconciliation _ => Forall exits rs2 /\ ~ admitted (store w')
  | _ => True
  end.
Proof.
  induction es as [|e es IH]; intros w rs1 ow step rs2 w' Hl; simpl; [by destruct rs1|].
  apply Forall_cons in Hl as [Hl Hls]. destruct (event_step e w) as [r w1] eqn:E1.
  destruct (run_events es w1) as [rs w2] eqn:E2. intros [= Hrs <-].
  destruct r as [r|]; [|rewrite Hrs in E2; by eapply IH].
  destruct rs1 as [|r1 rs1]; injection Hrs as -> Hrs; [|rewrite Hrs in E2; by eapply IH]. subst rs.
  assert (exists outcome, deliver outcome w = (Applies ow step, w1)) as [outcome Ed].
  { destruct e as [outcome|f|error]; simpl in E1; [|done..]. exists outcome.
    destruct (deliver outcome w). by injection E1 as -> ->. }
  apply deliver_aborts in Ed. destruct step; try done.
  - split; [by eapply closed_exits|by eapply run_events_keep_stop].
  - split; [by eapply fenced_silent|]. apply not_eq_None_Some.
    clear -E2 Ed. revert w1 rs2 w2 E2 Ed. induction es as [|e es IH]; intros w1 rs2 w2; simpl;
      [by intros [= _ <-]|].
    destruct (event_step e w1) as [r w3] eqn:E1. destruct (run_events es w3) as [rs w4] eqn:E2.
    intros [= _ <-] Hf. eapply IH; [done|]. by eapply fenced_event.
Qed.
End Proofs.

(** ** The write facade is such a store *)

Section Facade.
  Context {P : Pardosa} (parse_timestamp : string -> option Z) (jiff_string : Z -> option string).
  Context {B : Type} `{!Backend B NativeDomainEvent} `{!Backend B NativeOrgStateCaptured}
    `{!Backend B TeamEvent}.

(** [RepoRecorder for AppState]: the write under the retry policy. *)
Definition facade_record_repo (key : string) (ev : RepositoryEvidence) (name ts : string)
    : AppWrites (P := P) (B := B) -> result (WriteFailure ErrorView) () * AppWrites :=
  write_with_policy (AppState.record_repo parse_timestamp jiff_string key ev name ts).

#[local] Instance facade_delivery : DeliveryStore (AppWrites (P := P) (B := B)) := {
  ds_admission := ensure_write_admission;
  ds_stop := AppState.stop_for_reconciliation;
  ds_get key s := projection_get key (projection_state s);
  record_repo := facade_record_repo;
}.

(** Before the last attempt writes are still admitted: only then is there one. *)
Lemma nth_admitted (o : WriteOp) (s : AppWrites (P := P) (B := B)) : write_admission s = None ->
  forall n, (forall i, (i < n)%nat -> is_transient (nth_result (run_op parse_timestamp jiff_string o) i s)) ->
  write_admission (state_before (run_op parse_timestamp jiff_string o) n s) = None.
Proof.
  intros Hs. induction n as [|n IH]; intros Ht; [done|]. rewrite state_before_next.
  pose proof (run_op_latched parse_timestamp jiff_string o
    (state_before (run_op parse_timestamp jiff_string o) n s)) as Hl.
  unfold latched_answer in Hl. rewrite IH in Hl; [|intros i Hi; apply Ht; lia].
  specialize (Ht n ltac:(lia)). unfold nth_result in Ht.
  destruct (fst (run_op _ _ o (state_before _ n s))) as [[]|e]; [done|]. unfold is_transient in Ht.
  simpl in Ht. unfold view, ErrorView_error in Ht. subst e. by destruct Hl.
Qed.

Lemma facade_delivery_laws : DeliveryStoreLaws (AppWrites (P := P) (B := B)).
Proof.
  assert (forall s : AppWrites (P := P) (B := B), admitted s <-> write_admission s = None) as Had.
  { intros s. unfold admitted. simpl. unfold ensure_write_admission. by destruct (write_admission s). }
  split.
  - intros e s. rewrite Had. simpl. unfold AppState.stop_for_reconciliation.
    by destruct (write_admission s) eqn:E; simpl; rewrite ?E.
  - intros key ev name ts s r s'. rewrite !Had. intros Hs Hrun.
    pose proof (nth_admitted (W_RecordRepo key ev name ts) s Hs) as Hb.
    pose proof (run_op_latched parse_timestamp jiff_string (W_RecordRepo key ev name ts)) as Hl.
    change (record_repo key ev name ts s) with
      (write_with_policy (run_op parse_timestamp jiff_string (W_RecordRepo key ev name ts)) s) in Hrun.
    revert Hrun Hb Hl. generalize (run_op parse_timestamp jiff_string (W_RecordRepo key ev name ts)) as op.
    intros op Hrun Hb Hl. destruct (write_with_policy_spec op s) as (n & _ & Ht & _ & Heq).
    rewrite Heq in Hrun. injection Hrun as <- <-.
    rewrite Nat.add_1_r state_before_next. specialize (Hl (state_before op n s)).
    unfold latched_answer in Hl. rewrite (Hb n Ht) in Hl. unfold nth_result.
    destruct (fst (op (state_before op n s))) as [[]|e]; [done|]. unfold reported.
    destruct e; destruct Hl as [-> _]; vm_compute; split; naive_solver.
Qed.
End Facade.

(** ** A small service *)

(** A countdown. *)
#[export] Instance counter_tracker : BatchTracker N := {
  bt_new n := n;
  bt_retire k n := n - k;
  bt_drain _ := 0;
  bt_released n := n =? 0;
}.
#[export] Instance counter_laws : BatchTrackerLaws N.
Proof. by refine (Build_BatchTrackerLaws _ _ (fun n => n) _ _ _ (fun n => N.eqb_eq n 0)). Defined.

(** A store whose writes end as told, one after the other. *)
Record ToldStore := mkToldStore { told_stop : option ErrorView; told : list (option ErrorView); written : nat }.

#[export] Instance told_store : DeliveryStore ToldStore := {
  ds_admission s := match told_stop s with None => Ok () | Some e => Err e end;
  ds_stop e s := mkToldStore (Some (default e (told_stop s))) (told s) (written s);
  ds_get _ _ := None;
  record_repo _ _ _ _ s :=
    match told s with
    | Some e :: rest =>
      (Err (WriteFailure_classify e),
       mkToldStore (match classify e with ReconciliationRequired => Some e | _ => told_stop s end) rest (written s))
    | None :: rest => (Ok (), mkToldStore (told_stop s) rest (Datatypes.S (written s)))
    | [] => (Ok (), mkToldStore (told_stop s) [] (Datatypes.S (written s)))
    end;
}.

#[export] Instance told_laws : DeliveryStoreLaws ToldStore.
Proof.
  unfold admitted. split; simpl.
  - by intros e [[] ? ?].
  - intros key ev name ts [stop l n] r s'. simpl. destruct stop; [done|]. intros _.
    destruct l as [|[e|] l]; intros [= <- <-]; [done| |done].
    unfold ds_admission. simpl. destruct e; vm_compute; split; naive_solver.
Qed.

Definition sample_repository : Repository :=
  mkRepository "1" None "a" Private None "main" false "1" None false None None None false false None [] None.

Definition sample_success (id : N) : Event ToldStore :=
  Received (JO_Success "1" (failure_evidence sample_repository "t") ScheduledBatch (Some id) "t").

Definition idle_service (writes : list (option ErrorView)) : Service ToldStore N :=
  mkService (mkToldStore None writes 0) None [] [] None None.

(** A stale outcome, then two of the run, the first of which is not written. *)
Definition sample_events : list (Event ToldStore) :=
  [sample_success 6; sample_success 7; Elsewhere (fun s => s); sample_success 7].

Lemma sample_lawful : Forall lawful sample_events.
Proof. repeat constructor. by intros s. Qed.

Lemma barrier_exact_witness :
  tracker_released 0 (snd (run_events sample_events
    (snd (publish_batch 7 2 (mkBatchEnqueueResult 2 2 0) (idle_service [Some V_LoadFailed]))))) = true.
Proof.
  set (w := idle_service [Some V_LoadFailed]).
  pose proof (barrier_exact 7 2 (mkBatchEnqueueResult 2 2 0) sample_events w _ _ _ _ eq_refl
    ltac:(simpl; lia) sample_lawful (surjective_pairing _) (surjective_pairing _)) as H.
  refine (proj2 H _). right. right. vm_compute. discriminate.
Defined.

Lemma batch_result_exact_witness :
  fst (enqueue_and_await_batch 7 2 (mkBatchEnqueueResult 2 2 0) sample_events [] (idle_service [Some V_LoadFailed]))
    = Some (Err (AE_Persistence V_LoadFailed)) /\
  fst (enqueue_and_await_batch 7 2 (mkBatchEnqueueResult 2 2 0) sample_events [] (idle_service []))
    = Some (Ok true) /\
  fst (enqueue_and_await_batch 7 2 (mkBatchEnqueueResult 2 2 0) sample_events []
    (idle_service [Some (V_FencedConflict None None)]))
    = Some (Err (AE_Persistence (V_FencedConflict None None))).
Proof.
  assert (forall writes r, match fst (enqueue_and_await_batch 7 2 (mkBatchEnqueueResult 2 2 0) sample_events []
      (idle_service writes)) with Some _ => true | None => false end = true ->
    batch_verdict 0 (fst (run_events sample_events (snd (publish_batch 7 2 (mkBatchEnqueueResult 2 2 0)
      (idle_service writes)))))
      (closed_with (store (snd (enqueue_and_await_batch 7 2 (mkBatchEnqueueResult 2 2 0) sample_events []
        (idle_service writes))))) false = r ->
    fst (enqueue_and_await_batch 7 2 (mkBatchEnqueueResult 2 2 0) sample_events [] (idle_service writes)) = Some r)
    as H.
  { intros writes r Hs <-.
    destruct (enqueue_and_await_batch 7 2 _ sample_events [] (idle_service writes)) as [[x|] w'] eqn:E;
      [|discriminate Hs].
    apply batch_result_exact in E as [-> _]; [reflexivity..| |exact sample_lawful|constructor].
    simpl. lia. }
  split; [|split]; apply H; reflexivity.
Defined.

Lemma aborted_run_is_silent_witness :
  Forall writes_nothing (snd (match fst (run_events (sample_events ++ sample_events) (snd (publish_batch 7 2
    (mkBatchEnqueueResult 2 2 0) (idle_service [Some (V_FencedConflict None None)])))) with
    | _ :: Applies ow step :: rs => (Applies ow step, rs) | rs => (Exits, [Applies None Delivered]) end)).
Proof.
  destruct (run_events (sample_events ++ sample_events) (snd (publish_batch 7 2 (mkBatchEnqueueResult 2 2 0)
    (idle_service [Some (V_FencedConflict None None)])))) as [rs w'] eqn:E.
  assert (exists ow signal rs2, rs = [Skips] ++ Applies ow (Fenced signal) :: rs2) as (ow & signal & rs2 & ->).
  { injection E as <- _. vm_compute. repeat eexists. }
  pose proof (aborted_run_is_silent _ _ [Skips] ow (Fenced signal) rs2 w'
    ltac:(apply Forall_app; split; exact sample_lawful) E) as [H _]. exact H.
Defined.
