(* ===== verification/Config.v ===== *)
(** * Configuration ([config/*.rs])

    The run's configuration with its validation, the time budgets and bounds
    that have their own types, the coverage tiers of the dashboard, and the
    addresses under which the stores of one organization are kept.  The NATS
    locator belongs to the storage crate; a path is its text; the display of a
    floating-point number is a parameter. *)

From S2P Require Import Prelude Str Repository Evidence Metrics Run Errors.
From Stdlib Require Import Floats.SpecFloat.

Open Scope N_scope.

(** ** Constants *)

Definition EVIDENCE_SCHEMA_MAJOR : string := "v25".
Definition MIN_WORKERS : N := 2.
Definition MAX_WORKERS : N := 128.
Definition DEFAULT_BIND_ADDRESS : string := "127.0.0.1".
Definition COLLECTION_INTERVAL_SECS : N := 3600.
Definition COLLECTION_RETRY_INTERVAL_SECS : N := 60.
Definition TEAM_REFRESH_INTERVAL_SECS : N := 86400.
Definition TEAM_REFRESH_CLIENT_POLL_SECS : N := 5.
Definition SWEEP_TIMEOUT_SECS : N := 7200.
Definition DEFAULT_MAX_REPOS : N := 1000.
Definition DEFAULT_NATS_URL : string := "nats://localhost:4222".

(** ** [SweepTimeout]: seconds of 32 bits, never zero *)

Record SweepTimeout := mkSweepTimeout { timeout_secs : N }.

Definition SweepTimeout_new (secs : N) : option SweepTimeout :=
  if secs =? 0 then None else Some (mkSweepTimeout secs).
Definition SweepTimeout_default : SweepTimeout := mkSweepTimeout SWEEP_TIMEOUT_SECS.

(** The budget in nanoseconds, and in the milliseconds of a timeout event. *)
Definition as_duration (t : SweepTimeout) : N := timeout_secs t * 1000000000.
Definition elapsed_ms (t : SweepTimeout) : N := sat_mul u64_max (timeout_secs t) 1000.
Definition timed_out_error (t : SweepTimeout) : string :=
  "sweep timed out after " +:+ pretty (timeout_secs t) +:+ "s".

(** ** Integers read from text *)

(** [core::num::ParseIntError]; its texts. *)
Inductive ParseIntError := PI_Empty | PI_InvalidDigit | PI_PosOverflow | PI_Zero.
#[export] Instance ParseIntError_eq_dec : EqDecision ParseIntError.
Proof. solve_decision. Defined.

Definition ParseIntError_display (e : ParseIntError) : string :=
  match e with
  | PI_Empty => "cannot parse integer from empty string"
  | PI_InvalidDigit => "invalid digit found in string"
  | PI_PosOverflow => "number too large to fit in target type"
  | PI_Zero => "number would be zero for non-zero type"
  end.

Definition digit_value (c : Ascii.ascii) : option N :=
  let n := Ascii.N_of_ascii c in if in_range 48 57 n then Some (n - 48) else None.

(** The digits of a number of which [acc] is read, at the width [max]: the
    first digit that is none, or that overflows, ends it. *)
Fixpoint parse_digits (max acc : N) (s : string) : result ParseIntError N :=
  match s with
  | EmptyString => Ok acc
  | String c s =>
    match digit_value c with
    | None => Err PI_InvalidDigit
    | Some d =>
      if acc * 10 + d <=? max then parse_digits max (acc * 10 + d) s else Err PI_PosOverflow
    end
  end.

(** [str::parse] at an unsigned type: an optional plus sign, then digits. *)
Definition parse_unsigned (max : N) (s : string) : result ParseIntError N :=
  match s with
  | EmptyString => Err PI_Empty
  | String c rest =>
    if decide (c = "+"%char) then
      if is_empty rest then Err PI_InvalidDigit else parse_digits max 0 rest
    else parse_digits max 0 s
  end.

(** [MaxRepos::from_str], of a [NonZeroUsize]. *)
Definition MaxRepos_from_str (s : string) : result ParseIntError N :=
  let? n := parse_unsigned usize_max s in
  if n =? 0 then Err PI_Zero else Ok n.

(** ** The dashboard *)

Record HelpLink := mkHelpLink { link_label : string; link_url : string }.

Record TeamAccessGuidance := mkTeamAccessGuidance {
  contact : option string;
  governance_model : option string;
  help_links : list HelpLink;
}.
Definition TeamAccessGuidance_default : TeamAccessGuidance := mkTeamAccessGuidance None None [].

(** [OrgHelpConfig]. *)
Record OrgHelpConfig := mkOrgHelpConfig { team_access : TeamAccessGuidance }.
Definition OrgHelpConfig_default : OrgHelpConfig := mkOrgHelpConfig TeamAccessGuidance_default.

Record CoverageTiers := mkCoverageTiers { pass_threshold : spec_float; warn_threshold : spec_float }.

Record DashboardConfig := mkDashboardConfig { tiers : CoverageTiers; org_help : OrgHelpConfig }.

Definition CoverageTiers_default : CoverageTiers := mkCoverageTiers (f64_of_N 80) (f64_of_N 50).
Definition DashboardConfig_default : DashboardConfig :=
  mkDashboardConfig CoverageTiers_default OrgHelpConfig_default.

(** [(0.0..=100.0).contains(&x)]: never for a NaN. *)
Definition percentage_range (x : spec_float) : bool :=
  SFleb (f64_of_N 0) x && SFleb x (f64_of_N 100).

Section Tiers.
  Context (f64_display : spec_float -> string).

Definition validate_tiers (t : CoverageTiers) : result ConfigError () :=
  if negb (percentage_range (pass_threshold t)) then
    Err (InvalidValue "pass-threshold"
      ("must be in [0.0, 100.0], got " +:+ f64_display (pass_threshold t)))
  else if negb (percentage_range (warn_threshold t)) then
    Err (InvalidValue "warn-threshold"
      ("must be in [0.0, 100.0], got " +:+ f64_display (warn_threshold t)))
  else if SFltb (pass_threshold t) (warn_threshold t) then
    Err (InvalidValue "pass-threshold"
      ("pass-threshold (" +:+ f64_display (pass_threshold t) +:+ ") must be >= warn-threshold ("
         +:+ f64_display (warn_threshold t) +:+ ")"))
  else Ok ().

Definition DashboardConfig_new (pass warn : spec_float) : result ConfigError DashboardConfig :=
  let t := mkCoverageTiers pass warn in
  let? _ := validate_tiers t in
  Ok (mkDashboardConfig t OrgHelpConfig_default).
End Tiers.

(** ** The runtime configuration *)

Inductive PardosaBackend := Pgno | Nats.
#[export] Instance PardosaBackend_eq_dec : EqDecision PardosaBackend.
Proof. solve_decision. Defined.

Inductive RateRegulatorKind := TokenBucket | BudgetGate.
#[export] Instance RateRegulatorKind_eq_dec : EqDecision RateRegulatorKind.
Proof. solve_decision. Defined.

(** [nats_runtime], the handle of a tokio runtime, is left out. *)
Record RuntimeConfig := mkRuntimeConfig {
  org_name : string;
  no_resume : bool;
  max_workers : N;
  store_dir : string;
  pardosa_backend : PardosaBackend;
  nats_url : string;
  nats_creds : option string;
  force_unlock : bool;
  force_refresh : bool;
  dashboard_config : DashboardConfig;
  team_roster_read_from_projection : bool;
  rate_regulator : RateRegulatorKind;
  sweep_timeout : SweepTimeout;
  max_repos : N;
  serve_only : bool;
}.

(** [RuntimeConfig::new]. *)
Definition RuntimeConfig_new (name : string) (resume_off : bool) (workers : N) (dir : string)
    : result ConfigError RuntimeConfig :=
  if is_empty (trim name) then Err (MissingField "org_name")
  else
    let clamped := N.min (N.max workers MIN_WORKERS) MAX_WORKERS in
    Ok (mkRuntimeConfig (trim name) resume_off clamped dir Pgno DEFAULT_NATS_URL None false false
      DashboardConfig_default true TokenBucket SweepTimeout_default DEFAULT_MAX_REPOS false).

Definition with_force_unlock (name : string) (resume_off : bool) (workers : N) (dir : string)
    (force : bool) (dashboard : DashboardConfig) : result ConfigError RuntimeConfig :=
  let? c := RuntimeConfig_new name resume_off workers dir in
  Ok (mkRuntimeConfig (org_name c) (no_resume c) (max_workers c) (store_dir c) (pardosa_backend c)
    (nats_url c) (nats_creds c) force (force_refresh c) dashboard
    (team_roster_read_from_projection c) (rate_regulator c) (sweep_timeout c) (max_repos c)
    (serve_only c)).

(** The configuration of one run, with its two flags. *)
Definition with_force (unlock refresh : bool) (c : RuntimeConfig) : RuntimeConfig :=
  mkRuntimeConfig (org_name c) (no_resume c) (max_workers c) (store_dir c) (pardosa_backend c)
    (nats_url c) (nats_creds c) unlock refresh (dashboard_config c)
    (team_roster_read_from_projection c) (rate_regulator c) (sweep_timeout c) (max_repos c)
    (serve_only c).

(** ** Lemmas on texts *)

Lemma strip_suffix_app p s : strip_suffix p (s +:+ p) = Some s.
Proof. by apply strip_suffix_Some. Qed.

Lemma to_bytes_small s : Forall (fun b => b < 256) (to_bytes s).
Proof. induction s; constructor; [apply Ascii.N_ascii_bounded|done]. Qed.

Lemma to_bytes_inj s s' : to_bytes s = to_bytes s' -> s = s'.
Proof.
  revert s'. induction s as [|c s IH]; intros [|c' s']; simpl; try done. intros [= Hc Hs].
  f_equal; [|by apply IH]. rewrite -(Ascii.ascii_N_embedding c) Hc. apply Ascii.ascii_N_embedding.
Qed.

(** No digit of a token is a separator of an address. *)
Lemma hex_nibble_char n c : n < 16 -> c = "."%char \/ c = "-"%char -> Ascii.eqb (hex_nibble n) c = false.
Proof.
  intros Hn Hc. apply Ascii.eqb_neq. intros E.
  pose proof (hex_nibble_roundtrip n Hn) as H. rewrite E in H. by destruct Hc as [-> | ->].
Qed.

Lemma hex_encode_char bytes c : Forall (fun b => b < 256) bytes -> c = "."%char \/ c = "-"%char ->
  contains_char c (hex_encode bytes) = false.
Proof.
  intros Hb Hc. induction Hb as [|b bytes Hb _ IH]; [done|]. simpl. rewrite IH.
  rewrite !hex_nibble_char //; [apply N.mod_lt; lia|].
  apply N.Div0.div_lt_upper_bound. lia.
Qed.

(** ** Addresses of the stores *)

(** [pardosa_nats::NatsLocator]; [new] and [child] refuse unsafe tokens. *)
Class NatsLocator (L : Type) := {
  locator_new : list string -> option L;
  locator_child : string -> L -> option L;
  stream_stem : L -> string;
  meta_subject : L -> string;
  data_subject : L -> string;
}.

(** [org_token]: two lower-case digits for each byte. *)
Definition org_token (name : string) : string := "org_" +:+ hex_encode (to_bytes name).

Lemma org_token_char name c : c = "."%char \/ c = "-"%char ->
  contains_char c (org_token name) = false.
Proof.
  intros Hc. unfold org_token. rewrite contains_char_app hex_encode_char //; [|apply to_bytes_small].
  by destruct Hc as [-> | ->].
Qed.

Lemma org_token_inj name name' : org_token name = org_token name' -> name = name'.
Proof.
  unfold org_token. intros [= H]. change (hex_encode (to_bytes name) = hex_encode (to_bytes name')) in H.
  apply to_bytes_inj.
  pose proof (hex_roundtrip (to_bytes name) (to_bytes_small _)) as H1.
  pose proof (hex_roundtrip (to_bytes name') (to_bytes_small _)) as H2. congruence.
Qed.

Section Nats.
  Context {L : Type} `{!NatsLocator L}.

Record NatsStoreConfig := mkNatsStoreConfig {
  ns_url : string;
  stream_name : string;
  locator : L;
  subject : string;
  durable_consumer : string;
  credentials_path : option string;
}.

(** [NatsStoreConfig::for_org]; the outer [None] is its panic. *)
Definition for_org (name url : string) : option (result ConfigError NatsStoreConfig) :=
  if is_empty name then Some (Err (MissingField "org_name"))
  else
    let token := org_token name in
    let major := EVIDENCE_SCHEMA_MAJOR in
    match locator_new ["gh-report"; token; major] with
    | None => None
    | Some l =>
      Some (Ok (mkNatsStoreConfig url (stream_stem l) l
        ("gh-report." +:+ token +:+ "." +:+ major +:+ ".events")
        ("gh-report-" +:+ token +:+ "-" +:+ major) None))
    end.

Definition with_credentials_path (path : option string) (c : NatsStoreConfig) : NatsStoreConfig :=
  mkNatsStoreConfig (ns_url c) (stream_name c) (locator c) (subject c) (durable_consumer c) path.

Definition native_subjects (c : NatsStoreConfig) : string * string :=
  (meta_subject (locator c), data_subject (locator c)).

(** The body that [org_events] and [team_events] share but for the name. *)
Definition child_events (child : string) (c : NatsStoreConfig) : option NatsStoreConfig :=
  match locator_child child (locator c) with
  | None => None
  | Some l =>
    Some (mkNatsStoreConfig (ns_url c) (stream_stem l) l
      match strip_suffix ".events" (subject c) with
      | Some base => base +:+ "." +:+ child +:+ ".events"
      | None => subject c +:+ "." +:+ child +:+ ".events"
      end
      (durable_consumer c +:+ "-" +:+ child) (credentials_path c))
  end.

Definition org_events (c : NatsStoreConfig) : option NatsStoreConfig := child_events "org" c.
Definition team_events (c : NatsStoreConfig) : option NatsStoreConfig := child_events "team" c.

Definition nats_store_config (c : RuntimeConfig) : option (result ConfigError NatsStoreConfig) :=
  option_map (result_map (with_credentials_path (nats_creds c))) (for_org (org_name c) (nats_url c)).

(** ** The three stores of an organization *)

Inductive StoreKind := RepoStore | OrgStore | TeamStore.
#[export] Instance StoreKind_eq_dec : EqDecision StoreKind.
Proof. solve_decision. Defined.

(** The configuration of the store of a kind. *)
Definition store_of (kind : StoreKind) (name url : string) : option NatsStoreConfig :=
  match for_org name url with
  | Some (Ok c) =>
    match kind with RepoStore => Some c | OrgStore => org_events c | TeamStore => team_events c end
  | _ => None
  end.

(** ** Lemmas *)

Lemma store_of_addresses kind name url c : store_of kind name url = Some c ->
  subject c = "gh-report." +:+ (org_token name +:+ String "."%char
    match kind with
    | RepoStore => "v25.events" | OrgStore => "v25.org.events" | TeamStore => "v25.team.events"
    end) /\
  durable_consumer c = "gh-report-" +:+ (org_token name +:+ String "-"%char
    match kind with RepoStore => "v25" | OrgStore => "v25-org" | TeamStore => "v25-team" end).
Proof.
  unfold store_of, for_org. destruct (is_empty name); [by destruct kind|].
  destruct (locator_new _) as [l|]; [|done].
  assert (forall child c', child_events child (mkNatsStoreConfig url (stream_stem l) l
      ("gh-report." +:+ org_token name +:+ "." +:+ EVIDENCE_SCHEMA_MAJOR +:+ ".events")
      ("gh-report-" +:+ org_token name +:+ "-" +:+ EVIDENCE_SCHEMA_MAJOR) None) = Some c' ->
    subject c' = "gh-report." +:+ (org_token name +:+ String "."%char ("v25." +:+ child +:+ ".events")) /\
    durable_consumer c' = "gh-report-" +:+ (org_token name +:+ String "-"%char ("v25-" +:+ child))) as Hc.
  { intros child c'. unfold child_events. simpl. destruct (locator_child child l); [|done].
    intros [= <-]. simpl. split; [|by rewrite -!str_app_assoc].
    rewrite (_ : "gh-report." +:+ org_token name +:+ "." +:+ EVIDENCE_SCHEMA_MAJOR +:+ ".events" =
      ("gh-report." +:+ org_token name +:+ "." +:+ EVIDENCE_SCHEMA_MAJOR) +:+ ".events");
      [|by rewrite -!str_app_assoc].
    by rewrite strip_suffix_app -!str_app_assoc. }
  destruct kind; [intros [= <-]; by split|intros H; by apply Hc in H..].
Qed.

(** What follows the token tells the kind. *)
Lemma after_token (c : Ascii.ascii) p name name' t t' : c = "."%char \/ c = "-"%char ->
  p +:+ (org_token name +:+ String c t) = p +:+ (org_token name' +:+ String c t') ->
  name = name' /\ t = t'.
Proof.
  intros Hc H. assert (org_token name +:+ String c t = org_token name' +:+ String c t') as H'.
  { revert H. generalize (org_token name +:+ String c t) (org_token name' +:+ String c t').
    intros x y H. pose proof (proj2 (strip_prefix_Some p (p +:+ x) x) eq_refl) as H1.
    rewrite H (proj2 (strip_prefix_Some p (p +:+ y) y) eq_refl) in H1. by injection H1. }
  pose proof (split_once_char c (org_token name) t (org_token_char name c Hc)) as H1.
  rewrite H' (split_once_char c (org_token name') t' (org_token_char name' c Hc)) in H1.
  assert (org_token name = org_token name' /\ t = t') as [Ht ->] by (split; congruence).
  split; [by apply org_token_inj|done].
Qed.

(** The stores' addresses keep organizations and the three stores of one
    apart: two stores that share a subject or a consumer are the same store of
    the same organization, whatever the bytes of its name. *)
Lemma addresses_isolated kind kind' name name' url url' c c' :
  store_of kind name url = Some c -> store_of kind' name' url' = Some c' ->
  subject c = subject c' \/ durable_consumer c = durable_consumer c' ->
  kind = kind' /\ name = name'.
Proof.
  intros (Hs & Hd)%store_of_addresses (Hs' & Hd')%store_of_addresses.
  rewrite Hs Hs' Hd Hd'. intros [H|H]; (apply after_token in H as [-> H]; [|auto]);
    by destruct kind, kind'.
Qed.
End Nats.

(** A locator that joins its parts. *)
#[export] Instance plain_locator : NatsLocator (list string) := {
  locator_new parts := Some parts;
  locator_child child parts := Some (parts ++ [child]);
  stream_stem parts := String.concat "-" parts;
  meta_subject parts := String.concat "." (parts ++ ["meta"]);
  data_subject parts := String.concat "." (parts ++ ["data"]);
}.

(** The documented addresses, of an organization with a space in its name. *)
Example my_org_addresses :
  match store_of OrgStore "my org" DEFAULT_NATS_URL with
  | Some c => stream_name c = "gh-report-org_6d79206f7267-v25-org" /\
      subject c = "gh-report.org_6d79206f7267.v25.org.events" /\
      durable_consumer c = "gh-report-org_6d79206f7267-v25-org"
  | None => False
  end.
Proof. by vm_compute. Qed.

Lemma addresses_isolated_witness :
  match store_of OrgStore "a.b" "u", store_of OrgStore "a.b" "v" with
  | Some c, Some c' => subject c = subject c' /\ OrgStore = OrgStore /\ "a.b" = "a.b"
  | _, _ => False
  end.
Proof.
  destruct (store_of OrgStore "a.b" "u") as [c|] eqn:E; [|discriminate E].
  destruct (store_of OrgStore "a.b" "v") as [c'|] eqn:E'; [|discriminate E'].
  assert (subject c = subject c') as H
    by (injection E as <-; injection E' as <-; vm_compute; reflexivity).
  split; [exact H|]. exact (addresses_isolated OrgStore OrgStore "a.b" "a.b" "u" "v" c c' E E' (or_introl H)).
Defined.

(** ** Numbers read from text *)

Definition digit_char (d : N) : Ascii.ascii := byte (48 + d).
Fixpoint digits_text (ds : list N) : string :=
  match ds with [] => EmptyString | d :: ds => String (digit_char d) (digits_text ds) end.
Definition digits_value (acc : N) (ds : list N) : N := fold_left (fun acc d => acc * 10 + d) ds acc.

Lemma digit_value_char c d : digit_value c = Some d <-> d < 10 /\ c = digit_char d.
Proof.
  unfold digit_value, digit_char, byte, in_range. split.
  - destruct (N.leb_spec 48 (Ascii.N_of_ascii c)); [|done]. simpl.
    destruct (N.leb_spec (Ascii.N_of_ascii c) 57); [|done]. intros [= <-]. split; [lia|].
    replace (48 + (Ascii.N_of_ascii c - 48)) with (Ascii.N_of_ascii c) by lia.
    by rewrite Ascii.ascii_N_embedding.
  - intros [Hd ->]. rewrite Ascii.N_ascii_embedding; [|lia].
    rewrite (proj2 (N.leb_le _ _)); [|lia]. rewrite (proj2 (N.leb_le _ _)); [|lia].
    simpl. f_equal. lia.
Qed.

Lemma digits_value_ge ds : forall acc, acc <= digits_value acc ds.
Proof.
  unfold digits_value. induction ds as [|d ds IH]; intros acc; simpl; [done|].
  specialize (IH (acc * 10 + d)). lia.
Qed.

Lemma parse_digits_exact max s : forall acc n, acc <= max ->
  (parse_digits max acc s = Ok n <->
   n <= max /\ exists ds, Forall (fun d => d < 10) ds /\ s = digits_text ds /\ digits_value acc ds = n).
Proof.
  induction s as [|c s IH]; intros acc n Hacc; simpl.
  - split.
    + intros [= <-]. split; [done|]. by exists [].
    + intros (_ & [|] & _ & ? & <-); [done|by simplify_eq/=].
  - split.
    + destruct (digit_value c) as [d|] eqn:Ed; [|done]. destruct (N.leb_spec (acc * 10 + d) max); [|done].
      intros (? & ds & ? & -> & ?)%IH; [|done]. apply digit_value_char in Ed as [? ->].
      split; [done|]. exists (d :: ds). by repeat constructor.
    + intros (Hn & [|d ds] & Hds & Hs & Hv); [done|]. simplify_eq/=. inversion_clear Hds as [|?? Hd Hds'].
      rewrite (proj2 (digit_value_char _ d)); [|done].
      pose proof (digits_value_ge ds (acc * 10 + d)) as Hge. unfold digits_value in *.
      rewrite (proj2 (N.leb_le _ _)); [|lia]. apply IH; [lia|]. split; [done|]. by exists ds.
Qed.

(** What reads as a number: an optional plus sign, then at least one digit. *)
Lemma parse_unsigned_exact max s n : parse_unsigned max s = Ok n <->
  n <= max /\ exists ds, ds <> [] /\ Forall (fun d => d < 10) ds /\ digits_value 0 ds = n /\
    (s = digits_text ds \/ s = String "+"%char (digits_text ds)).
Proof.
  destruct s as [|c s]; simpl.
  - split; [done|]. by intros (_ & [|] & ? & _ & _ & [?|?]).
  - destruct (decide (c = "+"%char)) as [->|Hc].
    + destruct s as [|c s].
      * split; [done|]. intros (_ & [|d [|]] & ? & Hds & _ & [Hs|Hs]); simplify_eq/=.
        inversion_clear Hds. assert (digit_value "+"%char = Some d) by by apply digit_value_char. done.
      * cbn [is_empty]. rewrite parse_digits_exact; [|lia]. split.
        -- intros (? & ds & ? & Hs & ?). split; [done|]. exists ds. split; [by intros ->|].
           split; [done|]. split; [done|]. right. by rewrite Hs.
        -- intros (? & ds & ? & Hds & ? & [Hs|Hs]); [|injection Hs as ->; eauto].
           destruct ds as [|d ds]; [done|]. injection Hs as Hd _. inversion_clear Hds.
           assert (digit_value "+"%char = Some d) by by apply digit_value_char. done.
    + rewrite (parse_digits_exact max (String c s)); [|lia]. split.
      * intros (? & ds & ? & Hs & ?). split; [done|]. exists ds. split; [by intros ->|]. eauto.
      * intros (? & ds & ? & ? & ? & [Hs|Hs]); [eauto|]. by injection Hs.
Qed.
