(* ===== verification/Startup.v ===== *)
(** * Starting the service over its stores ([app/state/mod.rs])

    The three stores are created or opened, the projection is folded from
    them, and the write facade is built; later the stores are read again after
    a fence, the write lease is checked, and the projection is refreshed.
    Getting hold of a storage (making its directory, connecting to NATS) is a
    parameter that can fail.  The last part is the coverage that the status
    page reports. *)

From S2P Require Import Prelude Str Repository Checks Evidence Metrics Run Projection WritePolicy.
From S2P Require Import Store StoreSession Events Convert AppState Config.

Open Scope N_scope.

(** [std::io::Error] as the start builds it. *)
Inductive StartError :=
| InvalidInput (message : string)
| StoreFailed (e : StoreError)
| NotAdmitted (e : ErrorView)
| AcquireFailed (reason : string).

Section Startup.
  Context {P : Pardosa} (parse_timestamp : string -> option Z) (jiff_string : Z -> option string).
  Context {A Session Reader : Type} `{!Adapter A Session Reader}.
  Context `{!Schema NativeDomainEvent} `{!Schema NativeOrgStateCaptured} `{!Schema TeamEvent}.
  (** [std::process::id()], and [create_dir_all] or [connect_nats_sync]. *)
  Context (process_id : N) (acquire : PardosaBackend -> A -> result string ()).
  Notation AppWrites := (AppWrites (B := A)).

(** ** Opening *)

(** The shape that [open_event_store], [open_org_event_store] and
    [open_team_event_store] share: [kind] is the word their messages differ in. *)
Definition open_store {Event} `{!Schema Event} (kind label : string) (kind_backend : PardosaBackend)
    (nats_runtime : bool) (a : A) : result StartError (StoreInner A Event) * A :=
  let ready :=
    match kind_backend with
    | Nats =>
      if negb nats_runtime then
        Err (InvalidInput ("NATS " +:+ kind +:+ "event store requires a root-supervised Tokio runtime"))
      else map_err AcquireFailed (acquire Nats a)
    | Pgno => map_err AcquireFailed (acquire Pgno a)
    end in
  match ready with
  | Err e => (Err e, a)
  | Ok _ =>
    let '(r, a) := create_or_open process_id label a in
    (map_err StoreFailed r, a)
  end.

Definition open_event_store := open_store (Event := NativeDomainEvent) "" "gh-report-repos".
Definition open_org_event_store := open_store (Event := NativeOrgStateCaptured) "org " "gh-report-orgs".
Definition open_team_event_store := open_store (Event := TeamEvent) "team " "gh-report-teams".

(** The storages of the three stores. *)
Definition Storages : Type := A * A * A.

(** [AppState::with_stores_and_runtime]: the stores are opened in turn, and the
    first failure ends the start. *)
Definition with_stores_and_runtime (kind_backend : PardosaBackend) (nats_runtime : bool) (storages : Storages)
    : result StartError AppWrites * Storages :=
  let '(a, b, c) := storages in
  if bool_decide (kind_backend = Nats) && negb nats_runtime then
    (Err (InvalidInput "NATS event store requires a root-supervised Tokio runtime; nats_runtime cannot be None"),
     storages)
  else
    match open_event_store kind_backend nats_runtime a with
    | (Err e, a) => (Err e, (a, b, c))
    | (Ok event_store, a) =>
      match open_org_event_store kind_backend nats_runtime b with
      | (Err e, b) => (Err e, (a, b, c))
      | (Ok org_event_store, b) =>
        match open_team_event_store kind_backend nats_runtime c with
        | (Err e, c) => (Err e, (a, b, c))
        | (Ok team_event_store, c) =>
          let s := mkAppWrites event_store org_event_store team_event_store EvidenceProjection_default None in
          match projection_from_stores jiff_string s with
          | Err e => (Err (StoreFailed e), (a, b, c))
          | Ok projection => (Ok (with_projection projection s), (a, b, c))
          end
        end
      end
    end.

(** [AppState::with_stores]. *)
Definition with_stores (kind_backend : PardosaBackend) (storages : Storages)
    : result StartError AppWrites * Storages :=
  if decide (kind_backend = Nats) then
    (Err (InvalidInput
       "NATS event store requires a root-supervised Tokio runtime; use with_stores_and_runtime with Some(Arc<Runtime>)"),
     storages)
  else with_stores_and_runtime kind_backend false storages.

(** ** Reading again *)

(** [AppState::refresh_projection], and [snapshot_fast_path_init] around it. *)
Definition refresh_projection (s : AppWrites) : result StartError () * AppWrites :=
  match projection_from_stores jiff_string s with
  | Err e => (Err (StoreFailed e), s)
  | Ok projection => (Ok (), with_projection projection s)
  end.

Definition snapshot_fast_path_init (s : AppWrites) : result StartError bool * AppWrites :=
  match refresh_projection s with
  | (Err e, s) => (Err e, s)
  | (Ok _, s) => (Ok true, s)
  end.

(** An operation on the three stores in turn, up to the first failure. *)
Definition on_all_stores
    (f : forall Event, Schema Event -> StoreInner A Event -> result StoreError () * StoreInner A Event)
    (s : AppWrites) : result StartError () * AppWrites :=
  let '(r, st) := f NativeDomainEvent _ (event_store s) in
  let s := with_primary st s in
  match r with
  | Err e => (Err (StoreFailed e), s)
  | Ok _ =>
    let '(r, st) := f NativeOrgStateCaptured _ (org_event_store s) in
    let s := with_org st s in
    match r with
    | Err e => (Err (StoreFailed e), s)
    | Ok _ =>
      let '(r, st) := f TeamEvent _ (team_event_store s) in
      let s := with_team st s in
      (map_err StoreFailed r, s)
    end
  end.

Definition resync_event_store (s : AppWrites) : result StartError () * AppWrites :=
  match ensure_write_admission s with
  | Err e => (Err (NotAdmitted e), s)
  | Ok _ => on_all_stores (fun Event _ => resync_from_authoritative (Event := Event)) s
  end.

Definition preflight_write_leases (s : AppWrites) : result StartError () * AppWrites :=
  on_all_stores (fun Event _ => preflight_write_lease (Event := Event)) s.
End Startup.

(** ** The reported coverage *)

(** [AppState::status_payload]'s choice of the coverage and of its origin. *)
Definition status_coverage (current last : option RunMetadata) (durable : option CollectionCoverage)
    : string * CollectionCoverage :=
  match current, last with
  | Some curr, _ =>
    if coverage_is_known (run_coverage curr) then ("current_run", run_coverage curr)
    else ("unknown", CoverageUnknown)
  | None, Some completed =>
    if coverage_is_known (run_coverage completed) then ("last_completed_run", run_coverage completed)
    else ("unknown", CoverageUnknown)
  | None, None =>
    match durable with
    | Some durable_cov =>
      if coverage_is_known durable_cov then ("durable_assessment", durable_cov) else ("unknown", CoverageUnknown)
    | None => ("unknown", CoverageUnknown)
    end
  end.

Record CoverageStatus := mkCoverageStatus {
  sc_provenance : string;
  sc_status : string;
  sc_capped : bool;
  sc_selected : option N;
  sc_total : option N;
  sc_limit : option N;
}.

Definition coverage_status (provenance : string) (c : CollectionCoverage) : CoverageStatus :=
  mkCoverageStatus provenance (if coverage_is_unknown c then "unknown" else "known") (coverage_is_capped c)
    (coverage_selected c) (coverage_total c) (coverage_limit c).

(** ** Lemmas: writes keep the stores on their storages *)

Section Follows.
  Context {P : Pardosa} (parse_timestamp : string -> option Z) (jiff_string : Z -> option string).
  Context {A Session Reader : Type} `{!Adapter A Session Reader} (journal : A -> list Envelope).
  Context (schema_of : A -> option string) `{!AdapterLaws A Session Reader journal schema_of}.
  Context `{!Schema NativeDomainEvent} `{!SchemaLaws NativeDomainEvent}.
  Context `{!Schema NativeOrgStateCaptured} `{!SchemaLaws NativeOrgStateCaptured}.
  Context `{!Schema TeamEvent} `{!SchemaLaws TeamEvent}.
  Context (process_id : N) (acquire : PardosaBackend -> A -> result string ()).
  Notation AppWrites := (AppWrites (B := A)).
  Notation follows := (follows journal schema_of).

(** A store that may write and whose cache is its journal. *)
Definition in_step {Event} `{!Schema Event} (st : StoreInner A Event) : Prop :=
  knowledge st = Ready /\ follows [] st.

Lemma record_in_step {Event} `{!Schema Event} `{!SchemaLaws Event} k (e : Event) st :
  in_step st -> let '(r, st') := store_record k e st in uncertain r = false -> in_step st'.
Proof.
  intros [Hk Hf]. pose proof (record_follows journal schema_of k e st Hk Hf) as H. unfold run_store_op in H.
  destruct (store_record k e st) as [r st']. destruct H as (_ & Hr & _ & pending & Hp & Hf').
  intros Hu. rewrite Hu in Hr Hp. split; [by apply Hr|]. by destruct Hp as [-> | ->].
Qed.

Lemma detach_in_step {Event} `{!Schema Event} `{!SchemaLaws Event} k (e : Event) st :
  in_step st -> let '(r, st') := store_detach k e st in uncertain r = false -> in_step st'.
Proof.
  intros [Hk Hf]. pose proof (detach_follows journal schema_of k e st Hk Hf) as H. unfold run_store_op in H.
  destruct (store_detach k e st) as [r st']. destruct H as (_ & Hr & _ & pending & Hp & Hf').
  intros Hu. rewrite Hu in Hr Hp. split; [by apply Hr|]. by destruct Hp as [-> | ->].
Qed.

Lemma uncertain_indeterminate {X} x : uncertain (Err (A := X) x) = true -> native_store_persistence x = V_Indeterminate.
Proof. by destruct x as [| |[]| | | | | | | | | |]. Qed.

Definition all_in_step (s : AppWrites) : Prop :=
  in_step (event_store s) /\ in_step (org_event_store s) /\ in_step (team_event_store s).

(** An operation that goes on being admitted keeps the stores in step. *)
Definition keeps_step (op : Operation (B := A)) : Prop := forall s, all_in_step s ->
  let '(r, landed, s') := op s in
  match r with
  | Ok _ => all_in_step s'
  | Err e => landed = true \/ e = V_Indeterminate \/ all_in_step s'
  end.

Lemma record_primary_keeps k e rest : keeps_step rest -> keeps_step (record_primary k e rest).
Proof.
  intros Hrest s (H1 & H2 & H3). unfold record_primary. pose proof (record_in_step k e _ H1) as H.
  destruct (store_record k e (event_store s)) as [[u|x] st]; [cbn; apply Hrest; split_and!; [by apply H|done|done]|].
  destruct (uncertain (Err x)) eqn:E; [right; left; by eapply uncertain_indeterminate|].
  right; right. split_and!; [by apply H|done|done].
Qed.

Lemma fold_keeps (f : AppWrites -> EvidenceProjection) landed :
  keeps_step (fun s => (Ok (), landed, with_projection (f s) s)).
Proof. by intros s H. Qed.

Lemma admitted_keeps op s :
  keeps_step op -> (write_admission s = None -> all_in_step s) ->
  let '(_, s') := admitted_write op s in write_admission s' = None -> all_in_step s'.
Proof.
  intros Hop Hs. unfold admitted_write. destruct (write_admission s) eqn:Ea; [by rewrite Ea|].
  specialize (Hop s (Hs eq_refl)). destruct (op s) as [[r landed] s']. destruct r as [[]|e]; [done|].
  destruct landed; [by cbn|]. destruct Hop as [?|[->|?]]; [done|by cbn|]. by destruct e; cbn.
Qed.

Lemma run_op_keeps o s : (write_admission s = None -> all_in_step s) ->
  write_admission (snd (run_op parse_timestamp jiff_string o s)) = None ->
  all_in_step (snd (run_op parse_timestamp jiff_string o s)).
Proof.
  intros Hs. enough (exists op, keeps_step op /\ run_op parse_timestamp jiff_string o s = admitted_write op s)
    as (op & Hop & ->) by (pose proof (admitted_keeps op s Hop Hs) as H; by destruct (admitted_write op s)).
  destruct o; cbn [run_op]; eexists; (split; [|reflexivity]); intros s1 H1; cbn beta.
  - destruct (map_err _ _) as [native|e]; [|cbn; auto]. destruct (repo_event _ _ _ _) as [event|e]; [|cbn; auto].
    by apply record_primary_keeps; [apply fold_keeps|].
  - destruct (deleted_repo_event _ _ _) as [event|e]; [|cbn; auto].
    by apply record_primary_keeps; [apply fold_keeps|].
  - destruct (repo_event _ _ _ _) as [event|e]; [|cbn; auto].
    destruct H1 as (H1 & H2 & H3). pose proof (detach_in_step domain_key event _ H1) as H.
    destruct (store_detach domain_key event (event_store s1)) as [[u|x] st]; [by split_and!; [apply H| |]|].
    destruct (uncertain (Err x)) eqn:E; [right; left; by eapply uncertain_indeterminate|].
    right; right. split_and!; [by apply H|done|done].
  - destruct (map_err _ _) as [event|e]; [|cbn; auto]. apply record_primary_keeps; [|done].
    clear s1 H1. intros s1 (H1 & H2 & H3).
    pose proof (record_in_step (as_str (na_organization (nos_assessment_metadata event))) event _ H2) as H.
    destruct (store_record _ event (org_event_store s1)) as [[u|x] st]; [by split_and!; [|apply H|]|cbn; auto].
  - destruct (team_state_event _ _ _ _) as [event|e]; [|cbn; auto]. apply record_primary_keeps; [|done].
    clear s1 H1. intros s1 (H1 & H2 & H3).
    pose proof (record_in_step (default "" (team_domain_key (ne_str (te_org event)) (ne_str (te_team_slug event)))) event _ H3) as H.
    destruct (store_record _ event (team_event_store s1)) as [[u|x] st]; [by split_and!; [| |apply H]|cbn; auto].
  - destruct (team_state_event _ _ _ _) as [event|e]; [|cbn; auto]. destruct H1 as (H1 & H2 & H3). cbn zeta.
    set (k := default "" _).
    pose proof (detach_in_step k (NE_TeamStateCaptured event) _ H1) as Hd1.
    destruct (store_detach k (NE_TeamStateCaptured event) (event_store s1)) as [[u|x] st].
    2:{ destruct (uncertain (Err x)) eqn:E; [right; left; by eapply uncertain_indeterminate|].
        right; right. split_and!; [by apply Hd1|done|done]. }
    pose proof (detach_in_step k event _ H3) as Hd2. cbn [with_primary team_event_store].
    destruct (store_detach k event (team_event_store s1)) as [[u'|x] st'].
    + split_and!; [by apply Hd1|done|by apply Hd2].
    + destruct (uncertain (Err x)) eqn:E; [right; left; by eapply uncertain_indeterminate|].
      right; right. split_and!; [by apply Hd1|done|by apply Hd2].
Qed.

Lemma run_ops_keep os s : (write_admission s = None -> all_in_step s) ->
  write_admission (run_ops parse_timestamp jiff_string os s) = None ->
  all_in_step (run_ops parse_timestamp jiff_string os s).
Proof.
  revert s. induction os as [|o os IH]; intros s Hs; [done|]. cbn. apply IH. by apply run_op_keeps.
Qed.

(** ** The stores after a start *)

Lemma open_store_Ok {Event} `{!Schema Event} kind label kb rt a (st : StoreInner A Event) a' :
  open_store process_id acquire kind label kb rt a = (Ok st, a') ->
  in_step st /\ journal (backend st) = journal a.
Proof.
  unfold open_store. set (ready := match kb with Pgno => _ | Nats => _ end).
  destruct ready as [[]|e]; [|done].
  destruct (create_or_open process_id label a) as [[st1|e] a1] eqn:E; intros [= <- <-].
  destruct (create_or_open_Ok journal schema_of _ _ _ _ _ E) as (<- & ? & ? & ?). by split.
Qed.

Lemma with_stores_Ok kb rt a b c s abc :
  with_stores_and_runtime jiff_string process_id acquire kb rt (a, b, c) = (Ok s, abc) ->
  write_admission s = None /\ all_in_step s /\
  projection_from_stores jiff_string s = Ok (projection_state s) /\
  journal (backend (event_store s)) = journal a /\
  journal (backend (org_event_store s)) = journal b /\
  journal (backend (team_event_store s)) = journal c.
Proof.
  unfold with_stores_and_runtime. destruct (_ && _); [done|].
  destruct (open_event_store _ _ _ _ a) as [[st1|] a'] eqn:E1; [|done].
  destruct (open_org_event_store _ _ _ _ b) as [[st2|] b'] eqn:E2; [|done].
  destruct (open_team_event_store _ _ _ _ c) as [[st3|] c'] eqn:E3; [|done].
  destruct (projection_from_stores _ _) as [p|e] eqn:Ep; [|done]. intros [= <- _].
  apply open_store_Ok in E1 as [I1 J1]. apply open_store_Ok in E2 as [I2 J2].
  apply open_store_Ok in E3 as [I3 J3]. by split_and!.
Qed.

Lemma same_journal_same_cache {Event} `{!Schema Event} (st st' : StoreInner A Event) :
  in_step st -> in_step st' -> journal (backend st') = journal (backend st) -> cached st' = cached st.
Proof.
  intros (_ & _ & H & _) (_ & _ & H' & _) E. rewrite !app_nil_r in H, H'. rewrite E in H'.
  by eapply decoded_functional.
Qed.
End Follows.

(** ** Properties *)

(** C1: a restart over the same storages shows what the service showed.  The
    service starts over its storages, whatever they hold, and carries out any
    writes, with whatever failures, where each removal finds the repository's
    fiber active or the repository not shown; if no failure has stopped the
    writes, then a later start over the storages it leaves, by another process
    and even through the other kind of backend, shows every repository, live and
    deleted, and the organization snapshot exactly as the running service does,
    and leaves the journals as they were. *)
Theorem restart_equals_runtime `{P : Pardosa} parse_timestamp jiff_string
    `{!Adapter A Session Reader} journal schema_of `{!AdapterLaws A Session Reader journal schema_of}
    `{!Schema NativeDomainEvent, !Schema NativeOrgStateCaptured, !Schema TeamEvent}
    `{!SchemaLaws NativeDomainEvent, !SchemaLaws NativeOrgStateCaptured, !SchemaLaws TeamEvent}
    (acquire : PardosaBackend -> A -> result string ()) process_id kb rt storages s0 after os :
  with_stores_and_runtime jiff_string process_id acquire kb rt storages = (Ok s0, after) ->
  run_finds_fibers parse_timestamp jiff_string os s0 ->
  let s := run_ops parse_timestamp jiff_string os s0 in
  write_admission s = None ->
  forall process_id' kb' rt' r after',
    with_stores_and_runtime jiff_string process_id' acquire kb' rt'
      (backend (event_store s), backend (org_event_store s), backend (team_event_store s)) = (Ok r, after') ->
    (forall key, p_repositories (projection_state r) !! key = p_repositories (projection_state s) !! key) /\
    (forall key, p_deleted (projection_state r) !! key = p_deleted (projection_state s) !! key) /\
    p_org_state (projection_state r) = p_org_state (projection_state s) /\
    journal (backend (event_store r)) = journal (backend (event_store s)) /\
    journal (backend (org_event_store r)) = journal (backend (org_event_store s)) /\
    journal (backend (team_event_store r)) = journal (backend (team_event_store s)).
Proof.
  destruct storages as [[a b] c].
  intros (Ha0 & Hi0 & Hp0 & _)%(with_stores_Ok jiff_string journal schema_of) Hf s Ha pid' kb' rt' r after'
    (_ & (I1 & I2 & I3) & Hp & J1 & J2 & J3)%(with_stores_Ok jiff_string journal schema_of).
  destruct (run_ops_keep parse_timestamp jiff_string journal schema_of os s0 (fun _ => Hi0) Ha) as (S1 & S2 & S3).
  destruct (run_ops_inv parse_timestamp jiff_string os s0 Hf (booted_inv jiff_string s0 Hp0)) as (_ & Hr & Hd & Hg).
  fold s in Hr, Hd, Hg. destruct (rebuild_views jiff_string r _ Hp) as (V1 & V2 & V3).
  assert (natives jiff_string r = natives jiff_string s) as En
    by (unfold natives; by rewrite (same_journal_same_cache journal schema_of _ _ S1 I1 J1)).
  assert (org_ops r = org_ops s) as Eo
    by (unfold org_ops; by rewrite (same_journal_same_cache journal schema_of _ _ S2 I2 J2)).
  split_and!; try done.
  - intros key. by rewrite V1 En Hr.
  - intros key. by rewrite V2 En Hd.
  - by rewrite V3 En Eo (Hg Ha).
Qed.

(** ** Resynchronizing does not show what it read *)

Section Lag.
  Context {P : Pardosa} {A Session Reader : Type} `{!Adapter A Session Reader}.
  Context `{!Schema NativeDomainEvent} `{!Schema NativeOrgStateCaptured} `{!Schema TeamEvent}.

(** The stores are read again, the resident projection is not folded again. *)
Lemma resync_leaves_projection (s : AppWrites (B := A)) :
  projection_state (snd (resync_event_store s)) = projection_state s.
Proof.
  unfold resync_event_store, on_all_stores. destruct (ensure_write_admission s); [|done].
  destruct (resync_from_authoritative (event_store s)) as [[u|] st1]; [|done].
  destruct (resync_from_authoritative (org_event_store _)) as [[u'|] st2]; [|done].
  by destruct (resync_from_authoritative (team_event_store _)) as [[u''|] st3].
Qed.
End Lag.
