(* ===== verification/Wire.v ===== *)
(** * The stores over the codecs of the events ([event/mod.rs], [store/mod.rs])

    [PardosaSchema] for the three events a store keeps: the payload is the
    [Codec] of the event, the identity that of its descriptor in [Schema].  The
    laws the stores rely on are those of the codecs.  The last part runs the
    restart of [Startup] over the bytes of real events. *)

From S2P Require Import Prelude Str Repository Checks Evidence Metrics Run Projection WritePolicy.
From S2P Require Import Store StoreSession Events Convert AppState Config Startup.
From S2P Require Import Codec Schema.

Open Scope N_scope.
Open Scope codec_scope.

(** Which model values a Rust type holds can be decided. *)
Class ValidDec {E A : Type} (c : Codec E A) := valid_dec (a : A) : Decision (valid c a).

#[export] Instance valid_decision {E A} (c : Codec E A) `{!ValidDec c} a : Decision (valid c a) := valid_dec a.

(** The same for pardosa's own types. *)
Class PardosaValidDec `{!Pardosa} (E : Type) `{!PardosaCodecs E} := {
  u16_dec :: ValidDec u16_codec;
  u32_dec :: ValidDec u32_codec;
  u64_dec :: ValidDec u64_codec;
  bool_dec :: ValidDec bool_codec;
  timestamp_dec :: ValidDec timestamp_codec;
  string_dec max :: ValidDec (string_codec max);
  nonempty_dec max :: ValidDec (nonempty_codec max);
  uuid_dec :: ValidDec uuid_codec;
  option_dec {A} (c : Codec E A) :: ValidDec c -> ValidDec (option_codec c);
  vec_dec {A} max (c : Codec E A) :: ValidDec c -> ValidDec (vec_codec max c);
}.

Section Decidable.
  Context {P : Pardosa} {E : Type} {PC : PardosaCodecs E} {PD : PardosaValidDec E}.
  Notation Codec := (Codec E).

#[export] Instance unit_dec : ValidDec (unit_codec : Codec ()).
Proof. intros a. left. done. Defined.
#[export] Instance enum_dec {A} `{EqDecision A} (table : list (A * N)) : ValidDec (enum_codec table : Codec A).
Proof. intros a. left. done. Defined.
#[export] Instance pair_dec {A B} (ca : Codec A) (cb : Codec B) `{!ValidDec ca, !ValidDec cb} :
  ValidDec (ca ⊗ cb).
Proof. intros ab. apply and_dec; apply valid_dec. Defined.
#[export] Instance map_dec {A B} (into : B -> A) (from : A -> B) (c : Codec A) `{!ValidDec c} :
  ValidDec (map_codec into from c).
Proof. intros b. exact (valid_dec (c := c) (into b)). Defined.

(** A codec made of others, and a tagged union. *)
Tactic Notation "dec_fields" reference(c) := unfold c; apply _.
Tactic Notation "dec_variants" reference(c) := let v := fresh in intros v; destruct v; cbn [valid c]; apply _.

#[export] Instance http_dec : ValidDec (http_codec : Codec _).
Proof. dec_fields http_codec. Defined.
#[export] Instance reason_dec : ValidDec (reason_codec : Codec _).
Proof. dec_fields reason_codec. Defined.
#[export] Instance source_dec : ValidDec (source_codec : Codec _).
Proof. dec_fields source_codec. Defined.
#[export] Instance indeterminate_dec : ValidDec (indeterminate_codec : Codec _).
Proof. dec_fields indeterminate_codec. Defined.
#[export] Instance timestamp_dec' : ValidDec (timestamp : Codec _).
Proof. dec_fields timestamp. Defined.
#[export] Instance no_fields_dec : ValidDec (no_fields : Codec _).
Proof. dec_fields no_fields. Defined.
#[export] Instance MetadataUnavailable_dec : ValidDec (MetadataUnavailable_codec : Codec _).
Proof. dec_variants MetadataUnavailable_codec. Defined.
#[export] Instance SecretScanningAlerts_dec : ValidDec (SecretScanningAlerts_codec : Codec _).
Proof. dec_variants SecretScanningAlerts_codec. Defined.
#[export] Instance EnabledProvenance_dec : ValidDec (EnabledProvenance_codec : Codec _).
Proof. dec_variants EnabledProvenance_codec. Defined.
#[export] Instance DisabledObservation_dec : ValidDec (DisabledObservation_codec : Codec _).
Proof. dec_variants DisabledObservation_codec. Defined.
#[export] Instance UnobservableProbe_dec : ValidDec (UnobservableProbe_codec : Codec _).
Proof. dec_variants UnobservableProbe_codec. Defined.
#[export] Instance SecretScanningResult_dec : ValidDec (SecretScanningResult_codec : Codec _).
Proof. dec_variants SecretScanningResult_codec. Defined.
#[export] Instance HistoryProtectionGap_dec : ValidDec (HistoryProtectionGap_codec : Codec _).
Proof. dec_variants HistoryProtectionGap_codec. Defined.
#[export] Instance branch_dec : ValidDec (branch_codec : Codec _).
Proof. dec_fields branch_codec. Defined.
#[export] Instance BranchProtectionResult_dec : ValidDec (BranchProtectionResult_codec : Codec _).
Proof. dec_variants BranchProtectionResult_codec. Defined.
#[export] Instance path_dec : ValidDec (path_codec : Codec _).
Proof. dec_fields path_codec. Defined.
#[export] Instance SecurityPolicyResult_dec : ValidDec (SecurityPolicyResult_codec : Codec _).
Proof. dec_variants SecurityPolicyResult_codec. Defined.
#[export] Instance owners_dec : ValidDec (owners_codec : Codec _).
Proof. dec_fields owners_codec. Defined.
#[export] Instance CodeownersEntry_dec : ValidDec (CodeownersEntry_codec : Codec _).
Proof. dec_fields CodeownersEntry_codec. Defined.
#[export] Instance ParsedCodeowners_dec : ValidDec (ParsedCodeowners_codec : Codec _).
Proof. dec_fields ParsedCodeowners_codec. Defined.
#[export] Instance truncation_dec : ValidDec (truncation_codec : Codec _).
Proof. dec_fields truncation_codec. Defined.
#[export] Instance location_dec : ValidDec (location_codec : Codec _).
Proof. dec_fields location_codec. Defined.
#[export] Instance CodeownersContent_dec : ValidDec (CodeownersContent_codec : Codec _).
Proof. dec_variants CodeownersContent_codec. Defined.
#[export] Instance CodeownersResult_dec : ValidDec (CodeownersResult_codec : Codec _).
Proof. dec_variants CodeownersResult_codec. Defined.
#[export] Instance Repository_dec : ValidDec (Repository_codec : Codec _).
Proof. dec_fields Repository_codec. Defined.
#[export] Instance DependabotResult_dec : ValidDec (DependabotResult_codec : Codec _).
Proof. dec_fields DependabotResult_codec. Defined.
#[export] Instance RepositoryChecks_dec : ValidDec (RepositoryChecks_codec : Codec _).
Proof. dec_fields RepositoryChecks_codec. Defined.
#[export] Instance LastCommitInfo_dec : ValidDec (LastCommitInfo_codec : Codec _).
Proof. dec_fields LastCommitInfo_codec. Defined.
#[export] Instance RepositoryEvidence_dec : ValidDec (RepositoryEvidence_codec : Codec _).
Proof. dec_fields RepositoryEvidence_codec. Defined.
#[export] Instance CollectionCoverage_dec : ValidDec (CollectionCoverage_codec : Codec _).
Proof. dec_variants CollectionCoverage_codec. Defined.
#[export] Instance AssessmentMetadata_dec : ValidDec (AssessmentMetadata_codec : Codec _).
Proof. dec_fields AssessmentMetadata_codec. Defined.
#[export] Instance when_dec : ValidDec (when_codec : Codec _).
Proof. dec_fields when_codec. Defined.
#[export] Instance RepoAlertSummary_dec : ValidDec (RepoAlertSummary_codec : Codec _).
Proof. dec_fields RepoAlertSummary_codec. Defined.
#[export] Instance RepoAlertSummaryEntry_dec : ValidDec (RepoAlertSummaryEntry_codec : Codec _).
Proof. dec_fields RepoAlertSummaryEntry_codec. Defined.
#[export] Instance StringU64Entry_dec : ValidDec (StringU64Entry_codec : Codec _).
Proof. dec_fields StringU64Entry_codec. Defined.
#[export] Instance OrgAlertSummary_dec : ValidDec (OrgAlertSummary_codec : Codec _).
Proof. dec_fields OrgAlertSummary_codec. Defined.
#[export] Instance OrgStateCaptured_dec : ValidDec (OrgStateCaptured_codec : Codec _).
Proof. dec_fields OrgStateCaptured_codec. Defined.
#[export] Instance TeamMemberEvent_dec : ValidDec (TeamMemberEvent_codec : Codec _).
Proof. dec_fields TeamMemberEvent_codec. Defined.
#[export] Instance TeamStateCaptured_dec : ValidDec (TeamStateCaptured_codec : Codec _).
Proof. dec_fields TeamStateCaptured_codec. Defined.
#[export] Instance captured_dec : ValidDec (captured_codec : Codec _).
Proof. dec_fields captured_codec. Defined.
#[export] Instance deleted_dec : ValidDec (deleted_codec : Codec _).
Proof. dec_fields deleted_codec. Defined.
#[export] Instance DomainEvent_dec : ValidDec (DomainEvent_codec : Codec _).
Proof. dec_variants DomainEvent_codec. Defined.
End Decidable.

(** ** [PardosaSchema] of the three events *)

Section Schemas.
  Context {P : Pardosa} {E : Type} {PC : PardosaCodecs E} {PD : PardosaValidDec E}.
  (** [SchemaDescriptor::identity] and [AdmittedDescriptor::try_from_descriptor]
      at the version of the event. *)
  Context (identity : N -> DescriptorNode -> string) (admitted : N -> DescriptorNode -> result StoreError ()).

Definition DOMAIN_EVENT_SCHEMA_VERSION : N := 4.
Definition ORG_STATE_SCHEMA_VERSION : N := 3.
Definition TEAM_STATE_SCHEMA_VERSION : N := 2.

(** [encode_payload], [decode_payload] and [schema_descriptor]: a value that no
    Rust value stands for has no bytes. *)
Definition wire_schema {A} (c : Codec E A) `{!ValidDec c} (version : N) (node : DescriptorNode) :
    StoreSession.Schema A := {|
  StoreSession.encode_payload a := if decide (valid c a) then ok (encode_payload c a []) else None;
  StoreSession.decode_payload bs := ok (decode_payload c bs);
  schema_identity := identity version node;
  schema_admitted := admitted version node;
|}.

Definition DomainEvent_schema : StoreSession.Schema NativeDomainEvent :=
  wire_schema DomainEvent_codec DOMAIN_EVENT_SCHEMA_VERSION DomainEvent_node.
Definition OrgStateCaptured_schema : StoreSession.Schema NativeOrgStateCaptured :=
  wire_schema OrgStateCaptured_codec ORG_STATE_SCHEMA_VERSION OrgStateCaptured_node.
Definition TeamStateCaptured_schema : StoreSession.Schema TeamEvent :=
  wire_schema TeamStateCaptured_codec TEAM_STATE_SCHEMA_VERSION TeamStateCaptured_node.

(** The law the stores rely on is the law of the codec. *)
Lemma wire_schema_laws {A} (c : Codec E A) `{!ValidDec c} version node :
  codec_ok c -> @SchemaLaws A (wire_schema c version node).
Proof.
  intros Hc a bs. cbn [StoreSession.encode_payload StoreSession.decode_payload wire_schema].
  destruct (decide (valid c a)) as [Hv|]; [|done].
  destruct (encode_payload c a []) as [out|] eqn:He; [|done]. intros [= ->].
  pose proof (payload_roundtrip c a bs [] Hc Hv He) as H. rewrite app_nil_r in H. by rewrite H.
Qed.
End Schemas.

#[export] Instance DomainEvent_schema_laws {P : Pardosa} {E : Type} {PC : PardosaCodecs E} {PD : PardosaValidDec E}
    `{!PardosaCodecLaws E} identity admitted : @SchemaLaws _ (DomainEvent_schema identity admitted).
Proof. apply wire_schema_laws, DomainEvent_ok. Qed.
#[export] Instance OrgStateCaptured_schema_laws {P : Pardosa} {E : Type} {PC : PardosaCodecs E} {PD : PardosaValidDec E}
    `{!PardosaCodecLaws E} identity admitted : @SchemaLaws _ (OrgStateCaptured_schema identity admitted).
Proof. apply wire_schema_laws, OrgStateCaptured_ok. Qed.
#[export] Instance TeamStateCaptured_schema_laws {P : Pardosa} {E : Type} {PC : PardosaCodecs E} {PD : PardosaValidDec E}
    `{!PardosaCodecLaws E} identity admitted : @SchemaLaws _ (TeamStateCaptured_schema identity admitted).
Proof. apply wire_schema_laws, TeamStateCaptured_ok. Qed.

(** ** Restarting over bytes *)

Module OverBytes.
Import Codec.Plain.
#[local] Existing Instance plain_pardosa.
#[local] Existing Instance mem_adapter.
#[local] Existing Instance mem_laws.

(** The texts and numbers of the concrete pardosa. *)
#[local] Instance num_dec k : ValidDec (num k).
Proof. intros n. unfold num. cbn [valid]. apply _. Defined.
#[local] Instance refine_dec {A B} (into : B -> A) (from : A -> option B) (c : Codec A) `{!ValidDec c} :
  ValidDec (refine into from c).
Proof. intros b. exact (valid_dec (c := c) (into b)). Defined.
#[local] Instance list_dec {A} (c : Codec A) `{!ValidDec c} : ValidDec (list_codec c).
Proof. intros l. unfold list_codec. cbn [valid]. apply _. Defined.
#[local] Instance optional_dec {A} (c : Codec A) `{!ValidDec c} : ValidDec (optional c).
Proof. intros [a|]; cbn [valid optional]; apply _. Defined.
#[local] Instance text_dec : ValidDec text.
Proof. unfold text. apply _. Defined.
#[local] Instance plain_dec : PardosaValidDec Empty_set.
Proof. split; intros; cbn; apply _. Defined.

(** A descriptor is told by its name, and admitted. *)
Definition named (version : N) (n : DescriptorNode) : string :=
  match n with D_Struct name _ | D_Enum name _ _ => name +:+ "/" +:+ pretty version | _ => "" end.
Definition admit_all (version : N) (n : DescriptorNode) : result StoreError () := Ok ().

#[local] Instance domain_schema : StoreSession.Schema NativeDomainEvent := DomainEvent_schema named admit_all.
#[local] Instance org_schema : StoreSession.Schema NativeOrgStateCaptured := OrgStateCaptured_schema named admit_all.
#[local] Instance team_schema : StoreSession.Schema TeamEvent := TeamStateCaptured_schema named admit_all.

(** Three absent storages; the second write of the first is refused. *)
Definition absent_storage (plan : list Fault) : MemStorage := mkMem None [] plan false.
Definition sample_storages : Storages := (absent_storage [F_None; F_Refuse], absent_storage [], absent_storage []).
Definition always (_ : PardosaBackend) (_ : MemStorage) : result string () := Ok ().
Definition sample_run : list WriteOp :=
  [W_RecordRepo "1" (sample_owned "a" "@acme/core" false) "a" "t"; W_MarkRepoDeleted "2" "b" "tt";
   W_RecordOrg sample_snapshot; W_RecordTeam "acme" core_team "t" Fetched;
   W_RecordRepo "4" (sample_owned "d" "@acme/core" true) "d" "tt"; W_MarkRepoDeleted "3" "c" "ttt";
   W_RemoveRepo "4" "d" "tttt"].
Notation sample_start kb storages := (with_stores_and_runtime plain_jiff 7 always kb true storages).

(** The facade that the first start leaves: three stores just created. *)
Definition created (schema : string) (plan : list Fault) {Event} : StoreInner MemStorage Event :=
  mkStoreInner (mkMem (Some schema) [] plan false) [] Ready.
Definition sample_started : AppWrites (B := MemStorage) :=
  mkAppWrites (created "DomainEvent/4" [F_None; F_Refuse]) (created "OrgStateCaptured/3" [])
    (created "TeamStateCaptured/2" []) EvidenceProjection_default None.
Definition sample_after : Storages :=
  (backend (event_store sample_started), backend (org_event_store sample_started),
   backend (team_event_store sample_started)).

(** An active fiber is found, whatever the event. *)
Lemma mem_finds (event : NativeDomainEvent) key (a : MemStorage) :
  is_active (mem_fiber key a) = true -> fst (backend_detach key event a) <> NoWrite.
Proof.
  intros H. cbn [backend_detach adapter_backend]. destruct (StoreSession.encode_payload event) as [payload|]; [|done].
  unfold session_detach, with_session. cbn [current_epoch open_write session_fiber mem_adapter]. rewrite H.
  unfold session_settle. cbn [detach_fiber mem_adapter].
  destruct (mem_write _ _) as [[[|?]|?] a']; [|done|done].
  destruct (session_sync a') as [[?|?] a'']; done.
Qed.

Definition is_none {X} (o : option X) : bool := match o with None => true | Some _ => false end.
Lemma is_none_true {X} (o : option X) : is_none o = true -> o = None.
Proof. by destruct o. Qed.

Lemma restart_equals_runtime_witness :
  let s := run_ops plain_parse plain_jiff sample_run sample_started in
  match sample_start Nats (backend (event_store s), backend (org_event_store s), backend (team_event_store s)) with
  | (Ok r, _) =>
    p_repositories (projection_state r) !! "1" = p_repositories (projection_state s) !! "1" /\
    is_Some (p_repositories (projection_state r) !! "1") /\
    p_repositories (projection_state r) !! "4" = None /\
    is_Some (p_deleted (projection_state r) !! "3") /\
    p_deleted (projection_state r) !! "2" = None /\
    is_Some (p_org_state (projection_state r)) /\
    length (mem_journal (backend (event_store r))) = 6%nat
  | _ => False
  end.
Proof.
  intros s.
  assert (match sample_start Nats (backend (event_store s), backend (org_event_store s), backend (team_event_store s)) with
      | (Ok r, _) =>
        is_none (write_admission s)
        && bool_decide (is_Some (p_repositories (projection_state s) !! "1"))
        && is_none (p_repositories (projection_state s) !! "4")
        && bool_decide (is_Some (p_deleted (projection_state s) !! "3"))
        && is_none (p_deleted (projection_state s) !! "2")
        && bool_decide (is_Some (p_org_state (projection_state s)))
        && bool_decide (length (mem_journal (backend (event_store s))) = 6%nat)
      | _ => false
      end = true) as Hs by (vm_compute; reflexivity).
  remember (sample_start Nats (backend (event_store s), backend (org_event_store s), backend (team_event_store s)))
    as second eqn:E'. symmetry in E'. destruct second as [[r|] after']; [|discriminate Hs].
  apply andb_prop in Hs as [Hs Hl%bool_decide_eq_true]. apply andb_prop in Hs as [Hs Ho%bool_decide_eq_true].
  apply andb_prop in Hs as [Hs H2]. apply andb_prop in Hs as [Hs H3%bool_decide_eq_true].
  apply andb_prop in Hs as [Hs H4]. apply andb_prop in Hs as [Ha H1%bool_decide_eq_true].
  apply is_none_true in Ha, H2, H4.
  assert (sample_start Pgno sample_storages = (Ok sample_started, sample_after)) as E by reflexivity.
  assert (run_finds_fibers plain_parse plain_jiff sample_run sample_started) as Hf.
  { cbn [run_finds_fibers sample_run finds_fiber]. split_and!; try exact I. left. intros event.
    apply mem_finds. vm_compute. reflexivity. }
  pose proof (restart_equals_runtime plain_parse plain_jiff mem_journal mem_schema always 7 Pgno true
    sample_storages sample_started sample_after sample_run E Hf) as H.
  destruct (H Ha 7 Nats true r after' E') as (Hr & Hd & Hg & Hk & _). fold s in Hr, Hd, Hg, Hk.
  clear H Hf E E' Ha. clearbody s.
  split_and!; [apply Hr|by rewrite Hr|by rewrite Hr|by rewrite Hd|
    by rewrite Hd|by rewrite Hg|by rewrite Hk].
Defined.
End OverBytes.
