(* ===== verification/StateReads.v ===== *)
(** * What the handlers read ([store/mod.rs], [app/state/mod.rs],
    [app/state/server_state.rs], [app/state/baseline.rs])

    The three native stores with the flag that says whether their backend can
    be reached, the readers of the resident projection, the readiness of the
    server and the dump of the baseline.  The flag turns out to be set when a
    store is made and by nothing else. *)

From S2P Require Import Prelude Str Repository Checks Evidence Metrics Run Projection Baseline.
From S2P Require Import Store StoreSession Events.

Open Scope N_scope.

(** ** The native stores *)

Section NativeStores.
  Context {A Session Reader : Type} `{!Adapter A Session Reader} {Event : Type} `{!Schema Event}.

(** [NativeStore], [NativeOrgStore] and [NativeTeamStore] differ in their event
    and their label only. *)
Record NativeStore := mkNativeStore {
  inner : StoreInner A Event;
  backend_reachable : bool;
}.

(** [create_pgno] and [create_nats]. *)
Definition native_create (label : string) (process_id : N) (a : A) : result StoreError NativeStore * A :=
  let '(r, a) := store_create process_id label a in
  (result_map (fun inner => mkNativeStore inner true) r, a).

(** [open_pgno] and [open_nats]. *)
Definition native_open (a : A) : result StoreError NativeStore :=
  result_map (fun inner => mkNativeStore inner true) (store_open a).

(** An operation on the inner store. *)
Definition on_inner {R} (f : StoreInner A Event -> R * StoreInner A Event) (s : NativeStore) : R * NativeStore :=
  let '(r, i) := f (inner s) in (r, mkNativeStore i (backend_reachable s)).

Definition native_resync : NativeStore -> result StoreError () * NativeStore :=
  on_inner resync_from_authoritative.
Definition native_preflight : NativeStore -> result StoreError () * NativeStore :=
  on_inner preflight_write_lease.
Definition native_record (key : string) (event : Event) : NativeStore -> result StoreError () * NativeStore :=
  on_inner (store_record key event).
Definition native_detach_effect (key : string) (event : Event)
    : NativeStore -> result StoreError bool * NativeStore :=
  on_inner (store_detach key event).
Definition native_detach (key : string) (event : Event) (s : NativeStore)
    : result StoreError () * NativeStore :=
  let '(r, s) := native_detach_effect key event s in (result_map (fun _ => ()) r, s).

Definition native_fold_events {R} (fold : R -> bool -> Event -> R) (init : R) (s : NativeStore) :=
  fold_events fold init (inner s).
Definition native_fold_defined_events {R} (fold : R -> Event -> R) (init : R) (s : NativeStore) :=
  fold_defined_events fold init (inner s).

(** [StoreInner::events] and [NativeStore::events_with_fibers]. *)
Definition native_events (s : NativeStore) : result StoreError (list (bool * Event)) :=
  let? _ := knowledge_check (knowledge (inner s)) in
  Ok (map (fun e => (fst (fst e), snd e)) (cached (inner s))).
Definition events_with_fibers (s : NativeStore) : result StoreError (list (bool * string * Event)) :=
  let? _ := knowledge_check (knowledge (inner s)) in
  Ok (cached (inner s)).

(** The calls that can change a store. *)
Inductive NativeOp :=
| NO_record (key : string) (event : Event)
| NO_detach (key : string) (event : Event)
| NO_resync
| NO_preflight.

Definition run_native (o : NativeOp) (s : NativeStore) : NativeStore :=
  match o with
  | NO_record key event => snd (native_record key event s)
  | NO_detach key event => snd (native_detach key event s)
  | NO_resync => snd (native_resync s)
  | NO_preflight => snd (native_preflight s)
  end.
Definition run_natives (os : list NativeOp) (s : NativeStore) : NativeStore :=
  foldl (fun s o => run_native o s) s os.

(** A store of a running service: made, then used. *)
Inductive in_service : NativeStore -> Prop :=
| Made label process_id a s a' os :
  native_create label process_id a = (Ok s, a') -> in_service (run_natives os s)
| Found a s os : native_open a = Ok s -> in_service (run_natives os s).
End NativeStores.
Arguments NativeStore A Event : clear implicits.

(** ** The projection *)

Section Reads.
  Implicit Type p : EvidenceProjection.

(** [AppState::projection_len] and its sisters, through the read port. *)
Definition state_projection_len p : N :=
  match resolve p Q_Len with R_Len len => len | _ => 0 end.

Definition projection_org_coverage p : option CollectionCoverage :=
  option_map (fun o => am_coverage (org_assessment_metadata o)) (p_org_state p).

Definition state_projection_get (key : string) p : option RepositoryEvidence :=
  match resolve p (Q_ByKey key) with R_One evidence => evidence | _ => None end.

Definition projection_contains (key : string) p : bool :=
  match resolve p (Q_Contains key) with R_Contains contains => contains | _ => false end.

Definition projection_snapshot p : list RepositoryEvidence :=
  match resolve p Q_SortedSnapshot with R_Many evidence => evidence | _ => [] end.

Definition projection_key_name_snapshot p : list (string * string) :=
  match resolve p Q_KeyNameSnapshot with R_KeyNamePairs pairs => pairs | _ => [] end.

Definition projection_team_rosters_snapshot p : list (string * TeamRoster) :=
  match resolve p Q_TeamRostersSnapshot with R_TeamRostersSnapshot rosters => rosters | _ => [] end.

Definition projection_team_ghost_rosters_snapshot p : list (string * TeamRoster) :=
  match resolve p Q_TeamGhostRostersSnapshot with R_TeamGhostRostersSnapshot rosters => rosters | _ => [] end.

(** [AppState::dump_baseline_json]; [to_string_pretty] is [serde_json]'s. *)
Definition dump_baseline_json {E} (to_string_pretty : Baseline -> result E string) p : result E string :=
  to_string_pretty (build_baseline (map snd (btree_entries (p_repositories p)))).
End Reads.

(** ** Readiness *)

(** [AppState::is_ready]. *)
Definition is_ready {Page} (event_store org_event_store team_event_store : bool)
    (html_cache : option (gmap string Page)) : bool :=
  event_store && org_event_store && team_event_store
  && is_some_and (fun pages => is_some_and (fun _ => true) (pages !! "index.html")) html_cache.

(** ** Properties *)

Section StoresReachable.
  Context {A Session Reader : Type} `{!Adapter A Session Reader} {Event : Type} `{!Schema Event}.
  Implicit Type s : NativeStore A Event.

Lemma on_inner_reachable {R} (f : StoreInner A Event -> R * StoreInner A Event) s :
  backend_reachable (snd (on_inner f s)) = backend_reachable s.
Proof. unfold on_inner. by destruct (f (inner s)). Qed.

Lemma run_native_reachable o s : backend_reachable (run_native o s) = backend_reachable s.
Proof.
  destruct o; simpl; try apply on_inner_reachable.
  unfold native_detach. rewrite -(on_inner_reachable (store_detach key event) s).
  by unfold native_detach_effect; destruct (on_inner _ s).
Qed.

(** Nothing clears the flag: whatever its storage does, a store that was made
    is reported as reachable. *)
Lemma in_service_reachable s : in_service s -> backend_reachable s = true.
Proof.
  assert (forall os s, backend_reachable (run_natives os s) = backend_reachable s) as Hrun.
  { unfold run_natives. induction os as [|o os IH]; intros s'; [done|]. simpl. by rewrite IH run_native_reachable. }
  intros [label process_id a s0 a' os H|a s0 os H]; rewrite Hrun.
  - revert H. unfold native_create. destruct (store_create _ _ _) as [[i|e] a2]; [|done]. by intros [= <- _].
  - revert H. unfold native_open. destruct (store_open a) as [i|e]; [|done]. by intros [= <-].
Qed.

(** A creation leaves a storage alone that holds anything. *)
Lemma create_keeps_existing label process_id (a : A) presence :
  schema_admitted (Event := Event) = Ok () -> try_presence a = Ok presence -> presence <> AP_None ->
  native_create (Event := Event) label process_id a = (Err SE_AlreadyExists, a).
Proof.
  intros Hs Hp Hn. unfold native_create, store_create. rewrite Hs Hp. by destruct presence.
Qed.
End StoresReachable.

(** So the server is ready as soon as it has a start page, however the three
    backends fare. *)
Lemma readiness_ignores_backends {A Session Reader : Type} `{!Adapter A Session Reader}
    {E1 E2 E3 Page : Type} `{!Schema E1, !Schema E2, !Schema E3}
    (s1 : NativeStore A E1) (s2 : NativeStore A E2) (s3 : NativeStore A E3) (html_cache : option (gmap string Page)) :
  in_service s1 -> in_service s2 -> in_service s3 ->
  is_ready (backend_reachable s1) (backend_reachable s2) (backend_reachable s3) html_cache = true <->
  exists pages, html_cache = Some pages /\ is_Some (pages !! "index.html").
Proof.
  intros H1 H2 H3. rewrite !in_service_reachable //. unfold is_ready. simpl.
  destruct html_cache as [pages|]; simpl; [|split; [done|by intros (? & ? & _)]].
  destruct (pages !! "index.html") as [page|] eqn:E; simpl.
  - split; [|done]. intros _. exists pages. by rewrite E.
  - split; [done|]. intros (? & [= <-] & [? ?]). congruence.
Qed.

(** The readers never take a fallback branch. *)
Lemma readers_exact p key :
  state_projection_len p = projection_len p /\
  state_projection_get key p = p_repositories p !! key /\
  (projection_contains key p = true <-> is_Some (p_repositories p !! key)) /\
  projection_snapshot p = sorted_snapshot p /\
  projection_key_name_snapshot p = key_name_snapshot p /\
  projection_team_rosters_snapshot p = team_rosters_snapshot p /\
  projection_team_ghost_rosters_snapshot p = team_ghost_rosters_snapshot p.
Proof.
  split_and!; try done. unfold projection_contains. simpl.
  destruct (p_repositories p !! key); [by split; eauto|]. by split; [|intros []].
Qed.

(** What the dump keeps of an evidence. *)
Definition dumped (ev : RepositoryEvidence) : option BaselineEntry :=
  if is_total_failure ev then None
  else option_map (fun t => mkBaselineEntry t ev) (updated_at (repository ev)).

Lemma add_baseline_lookup entries ev k :
  add_baseline entries ev !! k =
  if decide (inventory_key (repository ev) = k)
  then match dumped ev with Some e => Some e | None => entries !! k end
  else entries !! k.
Proof.
  unfold add_baseline, dumped. destruct (is_total_failure ev); [by case_decide|].
  destruct (updated_at (repository ev)); simpl; [|by case_decide].
  case_decide as Hk; [by rewrite -Hk lookup_insert_eq|by rewrite lookup_insert_ne].
Qed.

(** The dump of a projection that files its evidence under its own keys holds
    exactly the evidence that is not a total failure and knows its update. *)
Lemma dumped_entries p key :
  (forall k e, p_repositories p !! k = Some e -> inventory_key (repository e) = k) ->
  baseline_entries (build_baseline (map snd (btree_entries (p_repositories p)))) !! key =
  p_repositories p !! key ≫= dumped.
Proof.
  intros Hk. unfold build_baseline. cbn [baseline_entries].
  assert (forall l m, NoDup l.*1 -> (forall k e, (k, e) ∈ l -> inventory_key (repository e) = k) ->
    fold_left add_baseline (map snd l) m !! key =
    match (list_to_map l : gmap string RepositoryEvidence) !! key ≫= dumped with
    | Some e => Some e | None => m !! key end) as H.
  { induction l as [|[k e] l IH]; intros m Hn Hkeys; [done|]. cbn [map fold_left snd list_to_map foldr].
    cbn [fmap list_fmap fst] in Hn. apply NoDup_cons in Hn as [Hnk Hl].
    rewrite IH //; [|intros; apply Hkeys; by right]. rewrite add_baseline_lookup (Hkeys k e); [|left].
    case_decide as Hkk.
    - subst k. rewrite (not_elem_of_list_to_map_1 l key Hnk) lookup_insert_eq. simpl. by destruct (dumped e).
    - by rewrite lookup_insert_ne. }
  rewrite H.
  - rewrite lookup_empty. unfold btree_entries.
    rewrite (list_to_map_proper _ (map_to_list (p_repositories p))); [| |by rewrite sort_by_Permutation].
    + rewrite list_to_map_to_list. by destruct (_ ≫= _).
    + rewrite sort_by_Permutation. apply NoDup_fst_map_to_list.
  - unfold btree_entries. rewrite sort_by_Permutation. apply NoDup_fst_map_to_list.
  - intros k e Hin. apply Hk, elem_of_map_to_list. unfold btree_entries in Hin. by rewrite sort_by_Permutation in Hin.
Qed.
