(* ===== verification/NatsConnect.v ===== *)
(** * Connecting to NATS ([app/state/mod.rs])

    The address that the log lines show, the options a connection is made
    with, and what is logged on the way.  Parsing addresses, reading files and
    the client itself are libraries, a class. *)

From S2P Require Import Prelude Str Projection Config.

Open Scope N_scope.

(** [url], [percent_encoding], [std::fs] and [async_nats]. *)
Class NatsLibs (Url Options Client : Type) := {
  url_parse : string -> option Url;
  cannot_be_a_base : Url -> bool;
  url_host_str : Url -> option string;
  url_scheme : Url -> string;
  url_port : Url -> option N;
  url_username : Url -> string;
  url_password : Url -> option string;
  (** [percent_decode_str(..).decode_utf8()]. *)
  percent_decode_utf8 : string -> option string;
  read_to_string : string -> result string string;
  options_new : Options;
  options_with_credentials : string -> result string Options;
  user_and_password : string -> string -> Options -> Options;
  require_tls : bool -> Options -> Options;
  nats_connect : Options -> string -> result string Client;
}.

(** The [std::io::Error] of a connection that fails. *)
Inductive ConnectError :=
| CE_Read (reason : string)
| CE_Other (reason : string)
| CE_InvalidInput (message : string).

(** A log line of a connection: its message and the fields that tell something
    of the configuration. *)
Inductive ConnectLog :=
| CL_Initiating (endpoint : string) (creds_specified : bool) (creds_path : option string)
| CL_CredentialsLoaded (creds_path : string) (bytes : N)
| CL_CredentialsUnparseable (creds_path : string) (error : string)
| CL_CredentialsUnreadable (creds_path : string) (error : string)
| CL_Connected
| CL_Failed (endpoint : string) (error : string).

Section NatsConnect.
  Context {Url Options Client L : Type} `{!NatsLibs Url Options Client}.
  Notation NatsStoreConfig := (NatsStoreConfig (L := L)).

Definition invalid_endpoint : string := "invalid-nats-endpoint".

Definition sanitize_nats_url (raw_url : string) : string :=
  match url_parse raw_url with
  | None => invalid_endpoint
  | Some parsed =>
    if cannot_be_a_base parsed then invalid_endpoint
    else
      match url_host_str parsed with
      | None => invalid_endpoint
      | Some host =>
        match url_port parsed with
        | Some port => url_scheme parsed +:+ "://" +:+ host +:+ ":" +:+ pretty port
        | None => url_scheme parsed +:+ "://" +:+ host
        end
      end
  end.

(** The options from the credentials file. *)
Definition credential_options (c : NatsStoreConfig) : result ConnectError Options * list ConnectLog :=
  match credentials_path c with
  | None => (Ok options_new, [])
  | Some path =>
    match read_to_string path with
    | Ok creds =>
      let loaded := CL_CredentialsLoaded path (N.of_nat (String.length creds)) in
      match options_with_credentials creds with
      | Ok options => (Ok options, [loaded])
      | Err err => (Err (CE_Other err), [loaded; CL_CredentialsUnparseable path err])
      end
    | Err err => (Err (CE_Read err), [CL_CredentialsUnreadable path err])
    end
  end.

(** The user and the password that the address names. *)
Definition url_options (nats_url : string) (options : Options) : result ConnectError Options :=
  match url_parse nats_url with
  | None => Ok options
  | Some parsed_url =>
    let user := url_username parsed_url in
    if is_empty user then Ok options
    else
      match percent_decode_utf8 user with
      | None => Err (CE_InvalidInput "NATS username contains invalid UTF-8 percent-encoding")
      | Some decoded_user =>
        match url_password parsed_url with
        | Some p =>
          match percent_decode_utf8 p with
          | None => Err (CE_InvalidInput "NATS password contains invalid UTF-8 percent-encoding")
          | Some decoded_pass => Ok (user_and_password decoded_user decoded_pass options)
          end
        | None => Ok (user_and_password decoded_user "" options)
        end
      end
  end.

(** [connect_nats_sync]: the client, and what was logged. *)
Definition connect_nats_sync (c : NatsStoreConfig) : result ConnectError Client * list ConnectLog :=
  let sanitized_url := sanitize_nats_url (ns_url c) in
  let start := CL_Initiating sanitized_url (is_some_and (fun _ => true) (credentials_path c)) (credentials_path c) in
  match credential_options c with
  | (Err e, log) => (Err e, start :: log)
  | (Ok options, log) =>
    match url_options (ns_url c) options with
    | Err e => (Err e, start :: log)
    | Ok options =>
      let options := if starts_with "tls://" (ns_url c) then require_tls true options else options in
      match nats_connect options (ns_url c) with
      | Ok client => (Ok client, start :: log ++ [CL_Connected])
      | Err err => (Err (CE_Other err), start :: log ++ [CL_Failed sanitized_url err])
      end
    end
  end.

(** ** Properties *)

(** Two addresses of one server, whatever user and password they name. *)
Definition same_server (a b : Url) : Prop :=
  cannot_be_a_base a = cannot_be_a_base b /\ url_host_str a = url_host_str b /\
  url_scheme a = url_scheme b /\ url_port a = url_port b.

(** The lines that show the address. *)
Definition shown_endpoint (l : ConnectLog) : option string :=
  match l with CL_Initiating endpoint _ _ | CL_Failed endpoint _ => Some endpoint | _ => None end.

(** What is logged of the address does not depend on the user and the password
    in it: the addresses shown are one text, the same for every address of the
    server. *)
Lemma endpoints_show_no_secret c u : url_parse (ns_url c) = Some u ->
  forall other v, url_parse other = Some v -> same_server u v ->
  omap shown_endpoint (snd (connect_nats_sync c)) ⊆ [sanitize_nats_url other].
Proof.
  intros Hu other v Hv (H1 & H2 & H3 & H4).
  assert (sanitize_nats_url (ns_url c) = sanitize_nats_url other) as <-.
  { unfold sanitize_nats_url. by rewrite Hu Hv H1 H2 H3 H4. }
  unfold connect_nats_sync, credential_options.
  crush_cases; simpl; try set_solver.
Qed.

(** A client is only returned over options made from the configuration: those
    of the credentials file where one is named, the user and the password of
    the address where it names a user, and TLS for a [tls] address. *)
Lemma connected_with c client log : connect_nats_sync c = (Ok client, log) ->
  exists base options,
    match credentials_path c with
    | None => base = options_new
    | Some path => exists creds, read_to_string path = Ok creds /\ options_with_credentials creds = Ok base
    end /\
    url_options (ns_url c) base = Ok options /\
    nats_connect (if starts_with "tls://" (ns_url c) then require_tls true options else options) (ns_url c) = Ok client.
Proof.
  unfold connect_nats_sync. destruct (credential_options c) as [[base|] l] eqn:Ec; [|done].
  destruct (url_options _ base) as [options|] eqn:Eu; [|done].
  destruct (nats_connect _ _) as [x|] eqn:En; [|done]. intros [= <- _].
  exists base, options. split; [|done]. revert Ec. unfold credential_options.
  destruct (credentials_path c) as [path|]; [|by intros [= <- _]].
  destruct (read_to_string path) as [creds|]; [|done].
  destruct (options_with_credentials creds) as [o|] eqn:E; [|done]. intros [= <- _]. by exists creds.
Qed.
End NatsConnect.
