(* ===== verification/TeamMembership.v ===== *)
(** * Collector: team and organization membership ([collector/team_membership.rs])

    The enumeration of the organization's teams, the roster of each, and the
    list of the organization's members the rosters are checked against.  The
    collector runs in the client's monad, since it reads and writes the
    client's memory of deleted teams.  Lowercasing, the deserializers of a
    member and the formatting of the clock are parameters. *)

From S2P Require Import Prelude Str Json Request Pagination Routes Budget RateLimit Run Auth.
From S2P Require Import Client ClientRequests ClientState ClientAnswers ClientRuns.
From S2P Require Import Repository Checks Evidence Metrics.

Open Scope N_scope.

(** [config::DEFAULT_PAGE_SIZE]. *)
Definition DEFAULT_PAGE_SIZE : N := 100.

(** [github::dto]. *)
Record GhTeamMember := mkGhTeamMember { gtm_login : string; gtm_role : option string }.
Record GhOrgMember := mkGhOrgMember { gom_login : string }.

(** ** The teams of the organization *)

Inductive DiscoveryGap := DG_Failed | DG_Truncated | DG_Invalid.
#[export] Instance DiscoveryGap_eq_dec : EqDecision DiscoveryGap.
Proof. solve_decision. Defined.

(** The slugs are those [TeamSlug::parse] minted. *)
Record TeamDiscovery := mkTeamDiscovery {
  slugs : list string;
  gap : option DiscoveryGap;
}.

Definition TeamDiscovery_complete (slugs : list string) : TeamDiscovery :=
  mkTeamDiscovery slugs None.
Definition TeamDiscovery_incomplete (slugs : list string) (gap : DiscoveryGap) : TeamDiscovery :=
  mkTeamDiscovery slugs (Some gap).

Definition authorizes_omission_detach (d : TeamDiscovery) : bool :=
  match gap d with None => true | Some _ => false end.

Definition degraded_roster (canonical_owner team_slug : string) (status : TeamRosterStatus)
    : TeamRoster := mkTeamRoster canonical_owner team_slug status [] None.

(** [role_from_wire]; it logs the other two cases. *)
Definition role_from_wire (role : option string) (login : string) : TeamMemberRole :=
  match role with
  | Some role =>
    if String.eqb role "maintainer" then Maintainer
    else if String.eqb role "member" then Member
    else RoleUnknown
  | None => RoleUnknown
  end.

Definition usable_login (login : string) : option string :=
  if negb (is_empty (trim login)) then Some login else None.

Inductive WireEntry (T : Type) :=
| WE_Member (t : T)
| WE_NotAnObject
| WE_Malformed (e : string).
Arguments WE_Member {T} t. Arguments WE_NotAnObject {T}. Arguments WE_Malformed {T} e.

Section TeamMembership.
  Context {V W : Type} `{!JsonValue V, !ClientEnv V W} (config : ClientConfig).
  Context (to_lowercase : string -> string) (format_timestamp : Timestamp -> string)
    (parse_team_member : V -> result string GhTeamMember)
    (parse_org_member : V -> result string GhOrgMember).
  Notation M := (M V W).

(** [TeamSlug::parse]. *)
Definition TeamSlug_parse (raw : string) : option string :=
  ok (sanitize_path_segment raw "team_slug").

(** The body of the loop over the entries. *)
Definition push_team (acc : list string * N) (item : V) : list string * N :=
  let '(slugs, unusable_entries) := acc in
  match get_str "slug" item ≫= TeamSlug_parse with
  | Some slug => (slugs ++ [slug], unusable_entries)
  | None => (slugs, unusable_entries + 1)
  end.

Definition discover_org_teams : M TeamDiscovery :=
  outcome ← request config ("/orgs/" +:+ org_name config +:+ "/teams?per_page=100") true 1
              DEFAULT_REQUEST_TIMEOUT_SECS;
  match outcome_data outcome ≫= as_array with
  | None => mret (TeamDiscovery_incomplete [] DG_Failed)
  | Some items =>
    let '(slugs, unusable_entries) := fold_left push_team items ([], 0) in
    mret
      (if outcome_is_truncated outcome then TeamDiscovery_incomplete slugs DG_Truncated
       else if unusable_entries =? 0 then TeamDiscovery_complete slugs
       else TeamDiscovery_incomplete slugs DG_Invalid)
  end.

(** ** Rosters *)

Definition failure_status (outcome : ApiOutcome V) : TeamRosterStatus :=
  match outcome_status_code outcome with
  | Some 404 => TRS_Deleted
  | Some 403 => TRS_PermissionDenied
  | _ => TRS_TransientError
  end.

Definition member_entry {T} (from_value : V -> result string T) (item : V) : WireEntry T :=
  if is_object item then
    match from_value item with
    | Ok member => WE_Member member
    | Err e => WE_Malformed e
    end
  else WE_NotAnObject.

(** The body of the loop over the members. *)
Definition member_from_item (item : V) : option (string * TeamMemberRole) :=
  match member_entry parse_team_member item with
  | WE_NotAnObject | WE_Malformed _ => None
  | WE_Member member =>
    login ← usable_login (gtm_login member);
    Some (login, role_from_wire (gtm_role member) login)
  end.

Definition members_from_outcome (outcome : ApiOutcome V) : option (list (string * TeamMemberRole)) :=
  items ← outcome_data outcome ≫= as_array;
  mapM member_from_item items.

Definition members_path (team_slug role : string) : string :=
  "/orgs/" +:+ org_name config +:+ "/teams/" +:+ team_slug +:+ "/members?role=" +:+ role
    +:+ "&per_page=" +:+ pretty DEFAULT_PAGE_SIZE.

Definition fetch_role (team_slug role : string) : M (ApiOutcome V) :=
  request config (members_path team_slug role) true 1 DEFAULT_REQUEST_TIMEOUT_SECS.

(** [members.sort_by_cached_key(|m| m.login.to_lowercase())]. *)
Definition login_le (a b : TeamMember) : Prop :=
  String.compare (to_lowercase (login a)) (to_lowercase (login b)) <> Gt.
#[export] Instance login_le_dec : RelDecision login_le.
Proof. intros a b. unfold login_le. apply _. Defined.

Definition roster_members (parsed : list (string * TeamMemberRole)) : list TeamMember :=
  sort_by login_le (map (fun p => mkTeamMember (fst p) (snd p) None) parsed).

Definition collect_one_team_roster (canonical_owner team_slug : string) : M TeamRoster :=
  match sanitize_path_segment team_slug "team_slug" with
  | Err _ => mret (degraded_roster canonical_owner team_slug TRS_TransientError)
  | Ok safe_slug =>
    known ← is_known_deleted_team safe_slug;
    if (known : bool) then mret (degraded_roster canonical_owner team_slug TRS_Deleted)
    else
      all_outcome ← fetch_role safe_slug "all";
      if negb (outcome_is_ok all_outcome) || outcome_is_truncated all_outcome then
        let status := failure_status all_outcome in
        (if bool_decide (status = TRS_Deleted)
         then record_deleted_team safe_slug else mret false);;
        mret (degraded_roster canonical_owner team_slug status)
      else
        match members_from_outcome all_outcome with
        | None => mret (degraded_roster canonical_owner team_slug TRS_TransientError)
        | Some parsed =>
          now ← call timestamp_now;
          mret (mkTeamRoster canonical_owner team_slug TRS_Complete (roster_members parsed)
                  (Some (format_timestamp now)))
        end
  end.

Fixpoint collect_team_rosters (teams : list (string * string)) : M (list TeamRoster) :=
  match teams with
  | [] => mret []
  | (canonical_owner, team_slug) :: teams =>
    roster ← collect_one_team_roster canonical_owner team_slug;
    rosters ← collect_team_rosters teams;
    mret (roster :: rosters)
  end.

(** ** The members of the organization *)

(** The body of the loop over the members. *)
Definition org_login_from_item (item : V) : option string :=
  match member_entry parse_org_member item with
  | WE_NotAnObject | WE_Malformed _ => None
  | WE_Member member => usable_login (gom_login member)
  end.

Definition org_member_logins_from_outcome (outcome : ApiOutcome V) : option (list string) :=
  items ← outcome_data outcome ≫= as_array;
  mapM org_login_from_item items.

Definition org_members_from_outcome (outcome : ApiOutcome V) : option (gset string) :=
  if negb (outcome_is_ok outcome) || outcome_is_truncated outcome then None
  else
    logins ← org_member_logins_from_outcome outcome;
    Some (list_to_set (map to_lowercase logins)).

Definition collect_org_members : M (option (gset string)) :=
  outcome ← request config
              ("/orgs/" +:+ org_name config +:+ "/members?per_page=" +:+ pretty DEFAULT_PAGE_SIZE)
              true 1 DEFAULT_REQUEST_TIMEOUT_SECS;
  mret (org_members_from_outcome outcome).

Definition enrich_member (org_members : option (gset string)) (m : TeamMember) : TeamMember :=
  mkTeamMember (login m) (role m)
    (option_map (fun set => bool_decide (to_lowercase (login m) ∈ set)) org_members).

Definition enrich_roster (org_members : option (gset string)) (r : TeamRoster) : TeamRoster :=
  mkTeamRoster (canonical_owner r) (team_slug r) (roster_status r)
    (map (enrich_member org_members) (members r)) (fetched_at r).

Definition enrich_team_rosters_with_org_membership (rosters : list TeamRoster)
    (org_members : option (gset string)) : list TeamRoster :=
  map (enrich_roster org_members) rosters.
End TeamMembership.

(** ** Lemmas *)

Section Rosters.
  Context {V W : Type} `{!JsonValue V, !ClientEnv V W, !JsonArrays V W} (config : ClientConfig).
  Context (to_lowercase : string -> string) (format_timestamp : Timestamp -> string)
    (parse_team_member : V -> result string GhTeamMember)
    (parse_org_member : V -> result string GhOrgMember).
  Notation M := (M V W).
  Implicit Type s : Client V W.

#[export] Instance login_le_total : Total (login_le to_lowercase).
Proof.
  intros a b. unfold login_le.
  rewrite (String.compare_antisym (to_lowercase (login b)) (to_lowercase (login a))).
  destruct (String.compare (to_lowercase (login a)) (to_lowercase (login b)));
    simpl; [by left|by left|by right].
Qed.

#[export] Instance login_le_trans : Transitive (login_le to_lowercase).
Proof. intros a b c. unfold login_le. apply string_compare_trans. Qed.

(** A whole listing, as one request of [es] walked it. *)
Definition listed (path : string) (items : list V) (es : list Event) : Prop :=
  exists before walked after, es = before ++ walked ++ after /\
    listing config (base_url config +:+ path) (pages walked) = Some (items, Exhausted).

Lemma listed_app path items es es1 es2 : listed path items es -> listed path items (es1 ++ es ++ es2).
Proof.
  intros (b & w & a & -> & H). exists (es1 ++ b), w, (a ++ es2). by rewrite -!app_assoc.
Qed.

Lemma listed_l path items es es2 : listed path items es -> listed path items (es ++ es2).
Proof. intros H. exact (listed_app _ _ _ [] es2 H). Qed.

Lemma listed_r path items es1 es : listed path items es -> listed path items (es1 ++ es).
Proof. intros H. rewrite -(app_nil_r es). by apply listed_app. Qed.

(** What a listing the collectors ask for comes to. *)
Definition answer_of (path : string) (outcome : ApiOutcome V) (es : list Event) : Prop :=
  (forall status, outcome_is_ok outcome = true -> outcome_status_code outcome = Some status ->
     200 <= status < 300) /\
  (forall items, outcome_is_truncated outcome = false -> outcome_data outcome ≫= as_array = Some items ->
     listed path items es) /\
  (forall status, outcome_is_ok outcome = false -> outcome_status_code outcome = Some status ->
     is_refusal status -> refused_page config (base_url config +:+ path) status es).

Lemma effect_and {A} (P Q : A -> list Event -> Prop) (c : M A) :
  effect P c -> effect Q c -> effect (fun a es => P a es /\ Q a es) c.
Proof.
  intros HP HQ s a s' E. destruct (HP _ _ _ E) as (es & E1 & H1), (HQ _ _ _ E) as (es2 & E2 & H2).
  exists es. rewrite E1 in E2. apply app_inv_head in E2 as <-. done.
Qed.

Lemma effect_success_status path retries t :
  effect (fun o _ => forall st, outcome_is_ok o = true -> outcome_status_code o = Some st ->
      200 <= st < 300) (request config path true retries t : M _).
Proof.
  unfold request. eapply effect_bind; [apply effect_request_run|]. intros run. apply effect_ret.
  intros es [_ _ _ _ _ Rs] st. unfold run_outcome.
  destruct (run_result run) as [[]|st' d h tr n|f] eqn:Er; try done; [|by destruct f].
  intros _ [= <-]. by destruct (Rs _ _ _ _ _ Er) as (b & a & _ & _ & ? & _).
Qed.

Lemma effect_answer path retries t :
  effect (answer_of path) (request config path true retries t : M _).
Proof.
  eapply effect_weaken; [apply effect_and; [apply effect_listing|apply effect_and;
    [apply effect_request_refused|apply effect_success_status]]|].
  intros outcome es (Hl & Hr & Hs). split_and!; [done| |done]. intros items Ht Hd.
  destruct outcome as [st d h tr|]; [|done].
  destruct (Hl _ _ _ _ eq_refl) as (b & w & shown & all & k & -> & -> & Hls & _ & Hc).
  simpl in Hd, Ht. rewrite as_array_mk_array in Hd. injection Hd as ->.
  destruct tr; [done|]. destruct (Hc eq_refl) as [-> ->].
  exists b, w, []. by rewrite app_nil_r.
Qed.

(** The slug an entry of the enumeration carries. *)
Definition item_slug (item : V) : option string := get_str "slug" item ≫= TeamSlug_parse (W := W).

Lemma push_teams items acc n :
  fold_left (push_team (W := W)) items (acc, n) =
    (acc ++ omap item_slug items,
     n + N.of_nat (length (List.filter (fun i => bool_decide (item_slug i = None)) items))).
Proof.
  revert acc n. induction items as [|i items IH]; intros acc n; cbn [fold_left omap list_omap List.filter].
  - by rewrite app_nil_r N.add_0_r.
  - unfold push_team at 2. fold (item_slug i). destruct (item_slug i) as [slug|]; rewrite IH.
    + by rewrite -app_assoc.
    + rewrite bool_decide_eq_true_2 //. cbn [length]. f_equal. lia.
Qed.

Lemma all_usable items :
  length (List.filter (fun i => bool_decide (item_slug i = None)) items) = 0%nat ->
  Forall2 (fun item slug => item_slug item = Some slug) items (omap item_slug items).
Proof.
  induction items as [|i items IH]; cbn [List.filter omap list_omap]; intros H; [constructor|].
  destruct (item_slug i) as [slug|] eqn:E; [|done]. constructor; [done|by apply IH].
Qed.

Definition teams_path : string := "/orgs/" +:+ org_name config +:+ "/teams?per_page=100".

(** The organization's teams, all of them, named by these slugs. *)
Definition enumerated (found : list string) (es : list Event) : Prop :=
  exists items, listed teams_path items es /\
    Forall2 (fun item slug => item_slug item = Some slug) items found.

Lemma effect_discover :
  effect (fun d es => gap d = None -> enumerated (slugs d) es)
    (discover_org_teams config : M _).
Proof.
  unfold discover_org_teams. eapply effect_bind; [apply effect_answer|]. intros outcome.
  destruct (outcome_data outcome ≫= as_array) as [items|] eqn:Ed; [|by apply effect_ret].
  rewrite push_teams /=. apply effect_ret. intros es (_ & Hl & _). rewrite app_nil_r.
  destruct (outcome_is_truncated outcome) eqn:Et; [done|].
  case_match eqn:En; [|done]. intros _. exists items. split; [by apply Hl|].
  apply all_usable. apply N.eqb_eq in En. lia.
Qed.

(** ** The memory of deleted teams *)

Definition members_url (safe_slug : string) : string :=
  base_url config +:+ members_path config safe_slug "all".

(** A team is remembered as deleted only after GitHub answered 404 for it. *)
Definition gone_ok s : Prop :=
  forall slug, slug ∈ deleted_team_slugs s -> refused_page config (members_url slug) 404 (trace s).

Lemma framed_deleted d : framed (fun s => deleted_team_slugs s = d).
Proof. by split. Qed.

Lemma request_keeps_deleted path retries t s o s' :
  request config path true retries t s = Some (o, s') ->
  deleted_team_slugs s' = deleted_team_slugs s.
Proof. intros E. by apply (keeps_request config _ (framed_deleted _) _ _ _ _ _ _ _ eq_refl) in E. Qed.

Lemma discovery_keeps_deleted s d s' :
  discover_org_teams config s = Some (d, s') -> deleted_team_slugs s' = deleted_team_slugs s.
Proof.
  intros (o & s1 & E1 & E)%bind_Some. apply request_keeps_deleted in E1 as <-.
  destruct (outcome_data o ≫= as_array) as [items|]; [|by injection E as _ <-].
  destruct (fold_left _ _ _). by injection E as _ <-.
Qed.

Lemma gone_ok_grow s s' es :
  trace s' = trace s ++ es -> deleted_team_slugs s' = deleted_team_slugs s -> gone_ok s -> gone_ok s'.
Proof. intros Ht Hd H slug. rewrite Hd Ht. intros Hs. by apply refused_page_l, H. Qed.

(** The member an entry reads as. *)
Definition member_of (item : V) (p : string * TeamMemberRole) : Prop :=
  member_from_item parse_team_member item = Some p.

(** What a roster rests on, in the trace [es]. *)
Definition roster_rests (r : TeamRoster) (es : list Event) : Prop :=
  match roster_status r with
  | TRS_Complete => exists safe items parsed,
      sanitize_path_segment (team_slug r) "team_slug" = Ok safe /\
      listed (members_path config safe "all") items es /\ Forall2 member_of items parsed /\
      members r = roster_members to_lowercase parsed
  | TRS_Deleted => members r = [] /\ exists safe,
      sanitize_path_segment (team_slug r) "team_slug" = Ok safe /\
      refused_page config (members_url safe) 404 es
  | TRS_PermissionDenied => members r = [] /\ exists safe,
      sanitize_path_segment (team_slug r) "team_slug" = Ok safe /\
      refused_page config (members_url safe) 403 es
  | TRS_TransientError => members r = []
  end.

Lemma roster_rests_app r es es1 es2 : roster_rests r es -> roster_rests r (es1 ++ es ++ es2).
Proof.
  unfold roster_rests. destruct (roster_status r); [| | |done].
  - intros (sf & items & parsed & ? & ? & ? & ?). exists sf, items, parsed. auto using listed_app.
  - intros (? & sf & ? & ?). split; [done|]. exists sf. auto using refused_page_app.
  - intros (? & sf & ? & ?). split; [done|]. exists sf. auto using refused_page_app.
Qed.

Lemma roster_rests_l r es es2 : roster_rests r es -> roster_rests r (es ++ es2).
Proof. intros H. exact (roster_rests_app r es [] es2 H). Qed.

Lemma roster_rests_r r es1 es : roster_rests r es -> roster_rests r (es1 ++ es).
Proof. intros H. rewrite -(app_nil_r es). by apply roster_rests_app. Qed.

Lemma is_refusal_404 : is_refusal 404.
Proof. split; [lia|done]. Qed.
Lemma is_refusal_403 : is_refusal 403.
Proof. split; [lia|done]. Qed.

Lemma failure_status_cases (o : ApiOutcome V) :
  match failure_status o with
  | TRS_Deleted => outcome_status_code o = Some 404
  | TRS_PermissionDenied => outcome_status_code o = Some 403
  | TRS_TransientError => True
  | TRS_Complete => False
  end.
Proof. unfold failure_status. repeat (case_match; try done). Qed.

Lemma outcome_data_ok (o : ApiOutcome V) x : outcome_data o = Some x -> outcome_is_ok o = true.
Proof. by destruct o. Qed.

Lemma members_parsed o parsed :
  members_from_outcome parse_team_member o = Some parsed ->
  exists items, outcome_data o ≫= as_array = Some items /\ Forall2 member_of items parsed.
Proof.
  unfold members_from_outcome. destruct (outcome_data o ≫= as_array) as [items|]; [|done].
  intros H. exists items. split; [done|]. by apply mapM_Some in H.
Qed.

(** A roster, and the events of its collection. *)
Lemma roster_collected owner slug s r s' :
  gone_ok s ->
  collect_one_team_roster config to_lowercase format_timestamp parse_team_member owner slug s
    = Some (r, s') ->
  canonical_owner r = owner /\ team_slug r = slug /\ gone_ok s' /\
  (exists es, trace s' = trace s ++ es) /\ roster_rests r (trace s') /\
  (roster_status r = TRS_Complete -> exists es, trace s' = trace s ++ es /\ roster_rests r es).
Proof.
  intros Hg. unfold collect_one_team_roster.
  destruct (sanitize_path_segment slug "team_slug") as [safe|e] eqn:Es; last first.
  { intros [= <- <-]. split_and!; [done..| |done|done]. exists []. by rewrite app_nil_r. }
  intros (known & s1 & [= <- <-] & E)%bind_Some.
  case_bool_decide as Hk.
  { injection E as <- <-. split_and!; [done..|exists []; by rewrite app_nil_r| |done].
    split; [done|]. exists safe. split; [done|]. by apply Hg. }
  apply bind_Some in E as (o & s1 & Eo & E).
  pose proof (request_keeps_deleted _ _ _ _ _ _ Eo) as Hd.
  apply effect_answer in Eo as (es & Ht & Hs & Hl & Hr).
  assert (gone_ok s1) as Hg1 by (by eapply gone_ok_grow).
  destruct (negb (outcome_is_ok o) || outcome_is_truncated o) eqn:Ebad.
  - assert (forall st, outcome_status_code o = Some st -> is_refusal st ->
      refused_page config (members_url safe) st es) as Href.
    { intros st E1 E2. destruct (outcome_is_ok o) eqn:Eok; [|by apply Hr].
      by destruct (proj1 E2 (Hs _ eq_refl E1)). }
    pose proof (failure_status_cases o) as Hc.
    apply bind_Some in E as (b & s2 & E & [= <- <-]).
    assert (trace s2 = trace s1 /\ gone_ok s2) as [Ht2 Hg2].
    { case_bool_decide as Hst; [|by injection E as _ <-]. rewrite Hst in Hc.
      apply bind_Some in E as (kn & s3 & [= <- <-] & E).
      apply bind_Some in E as ([] & s3 & [= <-] & [= <- <-]). split; [done|].
      intros sl. simpl. rewrite elem_of_union elem_of_singleton. intros [->|Hsl]; [|by apply Hg1].
      rewrite Ht. apply refused_page_r, Href; [done|apply is_refusal_404]. }
    rewrite Ht2 Ht. split_and!; [done..|by exists es| |by destruct (failure_status o)].
    apply roster_rests_r. unfold roster_rests. cbn [roster_status degraded_roster members team_slug].
    destruct (failure_status o); [done| | |done]; (split; [done|]); exists safe; (split; [done|]);
      apply Href; auto using is_refusal_404, is_refusal_403.
  - apply orb_false_elim in Ebad as [Eok Et].
    destruct (members_from_outcome _ o) as [parsed|] eqn:Ep; last first.
    { injection E as <- <-. rewrite Ht. split_and!; [done..|by exists es|done|done]. }
    apply bind_Some in E as (now & s2 & E & [= <- <-]). unfold call in E.
    destruct (timestamp_now (world s1)) as [t w]. injection E as <- <-.
    apply members_parsed in Ep as (items & Hi & Hp).
    assert (roster_rests (mkTeamRoster owner slug TRS_Complete
      (roster_members to_lowercase parsed) (Some (format_timestamp t))) es) as Hrest.
    { exists safe, items, parsed. split_and!; [done| |done|done]. by apply Hl. }
    cbn [trace with_world]. rewrite Ht. split_and!; [done|done|done|by exists es|by apply roster_rests_r|by exists es].
Qed.

(** The rosters of a list of teams. *)
Lemma rosters_collected teams s rs s' :
  gone_ok s ->
  collect_team_rosters config to_lowercase format_timestamp parse_team_member teams s = Some (rs, s') ->
  gone_ok s' /\ (exists es, trace s' = trace s ++ es) /\
  Forall2 (fun t r => canonical_owner r = fst t /\ team_slug r = snd t /\
    roster_rests r (trace s')) teams rs.
Proof.
  revert s rs. induction teams as [|[owner slug] teams IH]; intros s rs Hg; cbn [collect_team_rosters].
  { intros [= <- <-]. split_and!; [done|exists []; by rewrite app_nil_r|constructor]. }
  intros (r & s1 & E1 & (rs' & s2 & E2 & [= <- <-])%bind_Some)%bind_Some.
  destruct (roster_collected _ _ _ _ _ Hg E1) as (Ho & Hs & Hg1 & (es1 & T1) & Hr & _).
  destruct (IH _ _ Hg1 E2) as (Hg2 & (es2 & T2) & Hall).
  split_and!; [done|exists (es1 ++ es2); by rewrite T2 T1 app_assoc|].
  constructor; [|done]. split_and!; [done|done|]. rewrite T2. by apply roster_rests_l.
Qed.

(** A roster says no more than GitHub did.  One that claims to be complete
    was read, by the requests just made, from a listing of the team's members
    that was walked to its end: it holds each of them once, with the role
    GitHub gave, and is sorted; an entry that cannot be read leaves the whole
    roster incomplete.  A team is reported as deleted only after GitHub
    answered 404 on that team's members, now or earlier in this process; as
    denied, only on a 403; and no incomplete roster names a member. *)
Lemma roster_rests_on_answers owner slug s r s' :
  gone_ok s ->
  collect_one_team_roster config to_lowercase format_timestamp parse_team_member owner slug s
    = Some (r, s') ->
  canonical_owner r = owner /\ team_slug r = slug /\ gone_ok s' /\
  exists es, trace s' = trace s ++ es /\
  match roster_status r with
  | TRS_Complete => exists safe items parsed,
      sanitize_path_segment slug "team_slug" = Ok safe /\
      listed (members_path config safe "all") items es /\ Forall2 member_of items parsed /\
      Permutation (map (fun m => (login m, role m)) (members r)) parsed /\
      Sorted (login_le to_lowercase) (members r) /\
      Forall (fun m => member_in_org m = None) (members r)
  | TRS_Deleted => members r = [] /\ exists safe,
      sanitize_path_segment slug "team_slug" = Ok safe /\
      refused_page config (members_url safe) 404 (trace s')
  | TRS_PermissionDenied => members r = [] /\ exists safe,
      sanitize_path_segment slug "team_slug" = Ok safe /\
      refused_page config (members_url safe) 403 (trace s')
  | TRS_TransientError => members r = []
  end.
Proof.
  intros Hg E. destruct (roster_collected _ _ _ _ _ Hg E) as (Ho & Hs & Hg' & (es & T) & Hr & Hc).
  split_and!; [done..|]. exists es. split; [done|]. unfold roster_rests in Hr, Hc. rewrite Hs in Hr, Hc.
  destruct (roster_status r); [|done..].
  destruct (Hc eq_refl) as (es' & T' & sf & items & parsed & H1 & H2 & H3 & H4).
  rewrite T in T'. apply app_inv_head in T' as <-. exists sf, items, parsed.
  rewrite H4. unfold roster_members. split_and!; [done|done|done| | |].
  - rewrite sort_by_Permutation map_map /=. rewrite (map_ext _ id); [by rewrite map_id|by intros []].
  - apply StronglySorted_Sorted, sort_by_sorted; apply _.
  - rewrite sort_by_Permutation. apply Forall_map, Forall_true. done.
Qed.

(** ** Departures *)

Definition org_members_path : string :=
  "/orgs/" +:+ org_name config +:+ "/members?per_page=" +:+ pretty DEFAULT_PAGE_SIZE.

(** An entry of the list that can be read, and the login it names. *)
Definition names_login (item : V) (login : string) : Prop :=
  is_object item = true /\ exists m, parse_org_member item = Ok m /\ gom_login m = login /\ trim login <> "".

(** An answer from which every member can be read. *)
Definition read_in_full (outcome : ApiOutcome V) (logins : list string) : Prop :=
  outcome_is_truncated outcome = false /\
  exists items, outcome_data outcome ≫= as_array = Some items /\ Forall2 names_login items logins.

(** The whole list of the organization's members. *)
Definition org_listed (logins : list string) (es : list Event) : Prop :=
  exists items, listed org_members_path items es /\ Forall2 names_login items logins.

Lemma org_login_named item login : org_login_from_item parse_org_member item = Some login <-> names_login item login.
Proof.
  unfold org_login_from_item, member_entry, names_login, usable_login.
  destruct (is_object item); [|by split; [|intros []]].
  destruct (parse_org_member item) as [m|e]; [|by split; [|intros (_ & ? & ? & _)]].
  assert (forall x, negb (is_empty x) = true <-> x <> "") as Hempty by (by intros []).
  destruct (negb _) eqn:E.
  - apply Hempty in E. split; [intros [= <-]|intros (_ & ? & [= <-] & <- & _)]; [|done].
    split; [done|]. by exists m.
  - split; [done|]. intros (_ & ? & [= <-] & <- & H). apply Hempty in H. congruence.
Qed.

(** The set of members is known exactly when the answer was read in full. *)
Lemma org_members_known (o : ApiOutcome V) :
  match org_members_from_outcome to_lowercase parse_org_member o with
  | Some set => exists logins, read_in_full o logins /\ set = list_to_set (map to_lowercase logins)
  | None => forall logins, ~ read_in_full o logins
  end.
Proof.
  unfold org_members_from_outcome, read_in_full, org_member_logins_from_outcome.
  destruct (negb (outcome_is_ok o) || outcome_is_truncated o) eqn:Ebad.
  { intros logins [Et (items & Hi & _)]. rewrite Et orb_false_r in Ebad.
    destruct (outcome_data o) as [x|] eqn:Hx; [|done]. apply outcome_data_ok in Hx.
    by rewrite Hx in Ebad. }
  apply orb_false_elim in Ebad as [_ Et].
  destruct (outcome_data o ≫= as_array) as [items|]; cbn [mbind option_bind];
    [|by intros logins [_ (? & ? & _)]].
  destruct (mapM _ items) as [logins|] eqn:Em.
  - exists logins. split; [|done]. split; [done|]. exists items. split; [done|].
    apply mapM_Some in Em. eapply Forall2_impl; [exact Em|]. intros. by apply org_login_named.
  - intros logins [_ (? & [= <-] & H)]. assert (mapM (org_login_from_item parse_org_member) items = Some logins) as E.
    { apply mapM_Some. eapply Forall2_impl; [exact H|]. intros. by apply org_login_named. }
    by rewrite E in Em.
Qed.

Lemma org_members_grow s set s' :
  collect_org_members config to_lowercase parse_org_member s = Some (set, s') ->
  exists es, trace s' = trace s ++ es.
Proof. intros (o & s1 & (es & T & _)%effect_answer & [= _ <-])%bind_Some. by exists es. Qed.

Lemma read_listed o logins es : answer_of org_members_path o es -> read_in_full o logins -> org_listed logins es.
Proof. intros (_ & Hl & _) [Et (items & Hi & H)]. exists items. split; [by apply Hl|done]. Qed.

(** [m'] is the member [m], flagged as [b] says. *)
Definition flagged (b : string -> option bool) (m m' : TeamMember) : Prop :=
  login m' = login m /\ role m' = role m /\ member_in_org m' = b (login m).

Definition same_roster (b : string -> option bool) (r r' : TeamRoster) : Prop :=
  canonical_owner r' = canonical_owner r /\ team_slug r' = team_slug r /\
  roster_status r' = roster_status r /\ fetched_at r' = fetched_at r /\
  Forall2 (flagged b) (members r) (members r').

Lemma enriched b rosters set :
  (forall login, b login = option_map (fun set => bool_decide (to_lowercase login ∈ set)) set) ->
  Forall2 (same_roster b) rosters (enrich_team_rosters_with_org_membership to_lowercase rosters set).
Proof.
  intros Hb. apply Forall2_fmap_r, Forall_Forall2_diag, Forall_true. intros r. split_and!; try done.
  apply Forall2_fmap_r, Forall_Forall2_diag, Forall_true. intros m. by split_and!.
Qed.

(** C22: nobody departs because a list could not be read, and everybody who left
    departs.  Checking rosters against the organization's members makes one
    request for the list of members and leaves the rosters as they were but for
    the flags of their members.  If the answer was not truncated and every entry
    of it could be read, then the list was walked to its end, and every member of
    every roster is flagged: as departed exactly when no login of the list is the
    member's, in any case, and as present otherwise.  If not, no member carries a
    flag. *)
Theorem departure_is_observed s set s' rosters :
  collect_org_members config to_lowercase parse_org_member s = Some (set, s') ->
  exists outcome es b,
    request config org_members_path true 1 DEFAULT_REQUEST_TIMEOUT_SECS s = Some (outcome, s') /\
    trace s' = trace s ++ es /\
    Forall2 (same_roster b) rosters (enrich_team_rosters_with_org_membership to_lowercase rosters set) /\
    ((exists logins, read_in_full outcome logins /\ org_listed logins es /\ forall login,
        let present := exists l, l ∈ logins /\ to_lowercase l = to_lowercase login in
        (present /\ b login = Some true) \/ (~ present /\ b login = Some false)) \/
     ((forall logins, ~ read_in_full outcome logins) /\ forall login, b login = None)).
Proof.
  intros (outcome & s1 & E & [= <- <-])%bind_Some. pose proof (org_members_known outcome) as Hknown.
  pose proof E as (es & T & Ha)%effect_answer. exists outcome, es.
  exists (fun login => option_map (fun set => bool_decide (to_lowercase login ∈ set))
    (org_members_from_outcome to_lowercase parse_org_member outcome)).
  split_and!; [done|done|by apply enriched|].
  destruct (org_members_from_outcome _ _ _) as [ms|]; [left|by right].
  destruct Hknown as (logins & Hr & ->). exists logins. split_and!; [done|by eapply read_listed|].
  intros login present. cbn [option_map]. case_bool_decide as H; [left|right]; (split; [|done]).
  - apply elem_of_list_to_set, list_elem_of_fmap in H as (l & Hl & Hin). by exists l.
  - intros (l & Hl & Heq). apply H, elem_of_list_to_set. rewrite -Heq. by apply list_elem_of_fmap_2.
Qed.
End Rosters.

(** ** The collector against the scripted server *)

#[export] Instance scripted_arrays : JsonArrays Json (list SendResult).
Proof. intros l. done. Qed.

Definition sample_team_member (v : Json) : result string GhTeamMember :=
  match get_str "login" v with
  | Some login => Ok (mkGhTeamMember login (get_str "role" v))
  | None => Err "missing field `login`"
  end.
Definition sample_org_member (v : Json) : result string GhOrgMember :=
  match get_str "login" v with
  | Some login => Ok (mkGhOrgMember login)
  | None => Err "missing field `login`"
  end.
Definition sample_clock (t : Timestamp) : string := "now".

Notation sample_roster :=
  (collect_one_team_roster sample_config to_ascii_lowercase sample_clock sample_team_member).

Definition sample_members : list TeamMember :=
  [mkTeamMember "Alice" Maintainer None; mkTeamMember "octocat" RoleUnknown None].

Lemma sample_gone_ok answers : gone_ok sample_config (sample_client answers).
Proof. intros slug H. by apply not_elem_of_empty in H. Qed.

(** A roster read in full, and a team that is gone. *)
Lemma roster_rests_on_answers_witness :
  (exists r s', sample_roster "@acme/platform" "platform"
      (sample_client [ok_page [] "[team members]"]) = Some (r, s') /\
    members r = sample_members /\ roster_status r = TRS_Complete /\ gone_ok sample_config s') /\
  (exists r s', sample_roster "@acme/platform" "platform"
      (sample_client [error_page 404 "gone"]) = Some (r, s') /\
    roster_status r = TRS_Deleted /\ deleted_team_slugs s' = {["platform"]} /\
    gone_ok sample_config s').
Proof.
  split.
  - destruct (sample_roster "@acme/platform" "platform" _) as [[r s']|] eqn:E; [|discriminate E].
    exists r, s'. destruct (roster_rests_on_answers _ _ _ _ _ _ _ _ _ (sample_gone_ok _) E) as (_ & _ & Hg & _).
    vm_compute in E. injection E as <- <-. split_and!; [reflexivity..|exact Hg].
  - destruct (sample_roster "@acme/platform" "platform" _) as [[r s']|] eqn:E; [|discriminate E].
    exists r, s'. destruct (roster_rests_on_answers _ _ _ _ _ _ _ _ _ (sample_gone_ok _) E) as (_ & _ & Hg & _).
    vm_compute in E. injection E as <- <-. split_and!; [reflexivity..|exact Hg].
Defined.

Definition sample_team : TeamRoster :=
  mkTeamRoster "@acme/platform" "platform" TRS_Complete sample_members (Some "now").

(** Alice is still there and octocat has left; when the list is not to be had,
    neither carries a flag. *)
Lemma departure_is_observed_witness :
  let flags set := map (fun r => map member_in_org (members r))
    (enrich_team_rosters_with_org_membership to_ascii_lowercase [sample_team] set) in
  (exists set s' es logins,
    collect_org_members sample_config to_ascii_lowercase sample_org_member
      (sample_client [ok_page [] "[org members]"]) = Some (set, s') /\
    flags set = [[Some true; Some false]] /\
    trace s' = trace (sample_client [ok_page [] "[org members]"]) ++ es /\
    org_listed sample_config sample_org_member logins es) /\
  (exists set s' es,
    collect_org_members sample_config to_ascii_lowercase sample_org_member
      (sample_client [error_page 403 "no"]) = Some (set, s') /\
    flags set = [[None; None]] /\ trace s' = trace (sample_client [error_page 403 "no"]) ++ es).
Proof.
  split; destruct (collect_org_members _ _ _ _) as [[set s']|] eqn:E; try discriminate E;
    destruct (departure_is_observed sample_config to_ascii_lowercase sample_org_member _ _ _ [sample_team] E)
      as (outcome & es & b & _ & T & F & H).
  - destruct H as [(logins & _ & Hl & _)|[_ H]].
    + exists set, s', es, logins. split_and!; [reflexivity| |exact T|exact Hl].
      vm_compute in E. injection E as <- _. vm_compute. reflexivity.
    + exfalso. vm_compute in E. injection E as <- _.
      apply Forall2_cons in F as [(_ & _ & _ & _ & F) _]. cbn in F.
      apply Forall2_cons in F as [(_ & _ & F) _]. by rewrite H in F.
  - exists set, s', es. split_and!; [reflexivity| |exact T].
    vm_compute in E. injection E as <- _. vm_compute. reflexivity.
Defined.

(** A member entry without a login leaves the roster incomplete. *)
Example unreadable_entry :
  option_map (fun r => roster_status (fst r)) (sample_roster "@acme/platform" "platform"
    (sample_client [ok_page [] "[1]"])) = Some TRS_TransientError.
Proof. vm_compute. reflexivity. Qed.
