(* ===== verification/Artifact.v ===== *)
(** * The assembly of a report ([app/collect.rs])

    What a collection, the partial publisher and a warm start render: the
    evidence artifact made of the repositories and the organization's state,
    the metadata of the run, the disclosure of how old the evidence is, and the
    publication candidate made of the rendered pages.  The renderer
    ([report/html.rs]), the display of a timestamp and the pages of the web
    crate are parameters. *)

From S2P Require Import Prelude Str Repository Checks Evidence Metrics Run WritePolicy Auth Errors Config.
From S2P Require Import Aggregate Projection InventoryAuthority Baseline Publication TeamMembership.

Open Scope N_scope.

Section Artifact.
  Context (to_lowercase : string -> string) (parse_timestamp : string -> option Z).
  (** The display of a timestamp, and [strftime] at the two formats of a run. *)
  Context (ts_text date_text run_text : Z -> string).

(** [RunMetadata::date] and [RunMetadata::timestamp]. *)
Definition run_date (r : RunMetadata) : string := date_text (started_at r).
Definition run_timestamp (r : RunMetadata) : string := run_text (started_at r).

(** ** The evidence artifact *)

Definition build_assessment_metadata (config : RuntimeConfig) (run : RunMetadata)
    (inventory_fetched_at : option string) (auth_metadata : AuthMetadata)
    (capabilities : CapabilitySet) (rate_limit_warnings : N) : AssessmentMetadata :=
  mkAssessmentMetadata (run_date run) (Config.org_name config) EVIDENCE_SCHEMA_VERSION
    (run_timestamp run) (run_id run) (md_token_tier auth_metadata) (md_token_scopes auth_metadata)
    (md_auth_mode auth_metadata) rate_limit_warnings (unavailable_capabilities capabilities)
    inventory_fetched_at false (run_coverage run).

Record OrgSnapshotParams := mkOrgSnapshotParams {
  sp_config : RuntimeConfig;
  sp_run : RunMetadata;
  sp_inventory : AdmittedInventory;
  sp_org_summary : OrgAlertSummary;
  sp_auth_metadata : AuthMetadata;
  sp_capabilities : CapabilitySet;
  sp_rate_limit_warnings : N;
}.

Definition build_org_state_snapshot (p : OrgSnapshotParams) : OrgStateSnapshot :=
  mkOrgStateSnapshot (archived_discovered (sp_inventory p))
    (build_assessment_metadata (sp_config p) (sp_run p) (admitted_fetched_at (sp_inventory p))
       (sp_auth_metadata p) (sp_capabilities p) (sp_rate_limit_warnings p))
    (sp_org_summary p).

Record BuildEvidenceParams := mkBuildEvidenceParams {
  be_repositories : list RepositoryEvidence;
  be_deleted : list DeletedRepoRecord;
  be_org_state : option OrgReadModel;
  be_config : RuntimeConfig;
  be_run : RunMetadata;
  be_inventory_fetched_at : option string;
  be_org_alert_summary : option OrgAlertSummary;
  be_auth_metadata : AuthMetadata;
  be_capabilities : CapabilitySet;
  be_rate_limit_warnings : N;
  be_team_rosters : list TeamRoster;
  be_team_rosters_already_enriched : bool;
  be_org_members : option (gset string);
}.

(** Two fields of the metrics set. *)
Definition with_owners_and_rosters (owners : list OwnerMetrics) (rosters : list TeamRoster)
    (m : AggregatedMetrics) : AggregatedMetrics :=
  mkAggregatedMetrics (security_policy_coverage m) (policy_counts m)
    (agg_secret_scanning_coverage m) (secret_scanning_counts m)
    (dependabot_security_updates_coverage m) (dependabot_security_updates_counts m)
    (agg_open_secret_alert_prevalence m) (secret_alert_counts m)
    (agg_branch_protection_coverage m) (branch_protection_counts m)
    (agg_codeowners_coverage m) (codeowners_counts m) owners (collection_health_counts m)
    (score_exclusion_counts m) rosters.

Definition with_archived (n : N) (s : CollectionStatistics) : CollectionStatistics :=
  mkCollectionStatistics (total_repos_count s) (public_repos s) (internal_repos s)
    (private_repos s) n.

(** [warm_start] and [coverage] set. *)
Definition with_run_state (warm : bool) (coverage : CollectionCoverage) (m : AssessmentMetadata)
    : AssessmentMetadata :=
  mkAssessmentMetadata (am_date m) (am_organization m) (am_schema_version m) (am_run_timestamp m)
    (am_run_id m) (am_token_tier m) (am_token_scopes m) (am_auth_mode m)
    (am_rate_limit_warnings m) (am_unavailable_capabilities m) (am_inventory_fetched_at m) warm coverage.

Definition build_evidence (p : BuildEvidenceParams) : EvidenceArtifact :=
  let stats := build_collection_statistics (be_repositories p) in
  let stats :=
    match be_org_state p with
    | Some o => with_archived (org_archived_repos o) stats
    | None => stats
    end in
  let aggregated := aggregate_metrics to_lowercase (be_repositories p) in
  let owners :=
    enrich_owner_metrics_with_lifecycle to_lowercase parse_timestamp (owner_metrics aggregated)
      (be_repositories p) (run_timestamp (be_run p)) in
  let owners := enrich_owner_metrics_with_org_membership to_lowercase owners (be_org_members p) in
  let rosters :=
    if be_team_rosters_already_enriched p then be_team_rosters p
    else enrich_team_rosters_with_org_membership to_lowercase (be_team_rosters p) (be_org_members p) in
  let alert_summary :=
    match be_org_state p with
    | Some o => Some (org_alert_summary o)
    | None => be_org_alert_summary p
    end in
  let observability :=
    build_secret_scanning_observability_summary (be_repositories p) alert_summary in
  let is_collection_run := match be_inventory_fetched_at p with Some _ => true | None => false end in
  let metadata :=
    match be_org_state p with
    | Some o => org_assessment_metadata o
    | None =>
      build_assessment_metadata (be_config p) (be_run p) (be_inventory_fetched_at p)
        (be_auth_metadata p) (be_capabilities p) (be_rate_limit_warnings p)
    end in
  let metadata :=
    if is_collection_run then with_run_state false (run_coverage (be_run p)) metadata else metadata in
  mkEvidenceArtifact metadata stats (with_owners_and_rosters owners rosters aggregated) observability
    (be_repositories p) (be_deleted p).

(** [count_unscanned_repos] of [report/view_model.rs]. *)
Definition count_unscanned_repos (evidence : EvidenceArtifact) : N :=
  countb (fun r => bool_decide (read_state_from_checks (checks r) = RS_Pending))
    (ea_repositories evidence).

(** ** What the report says of its age *)

Definition display_opt (at_ : option Z) : string :=
  match at_ with Some at_ => ts_text at_ | None => "unknown assessment time" end.

(** The loop over the repositories: how many are of unknown age, the oldest. *)
Definition age_step (reference : option Z) (acc : N * option Z) (repo : RepositoryEvidence)
    : N * option Z :=
  let '(unknown, oldest) := acc in
  match capture_from_checks parse_timestamp (checks repo), reference with
  | Captured at_, Some reference =>
    if (at_ <=? reference)%Z then
      let seconds := (as_second reference - as_second at_)%Z in
      (unknown, Some match oldest with Some previous => Z.max previous seconds | None => seconds end)
    else (unknown + 1, oldest)
  | _, _ => (unknown + 1, oldest)
  end.

Definition capture_ages (reference : option Z) (repositories : list RepositoryEvidence)
    : N * option Z := fold_left (age_step reference) repositories (0, None).

Definition reference_time (evidence : EvidenceArtifact) : option Z :=
  parse_timestamp (am_run_timestamp (ea_assessment_metadata evidence)).

Definition repository_capture_age_disclosure (evidence : EvidenceArtifact) : string :=
  let reference := reference_time evidence in
  let '(unknown, oldest) := capture_ages reference (ea_repositories evidence) in
  let age :=
    match oldest with
    | Some seconds => "oldest known " +:+ pretty seconds +:+ " seconds"
    | None => "no known capture age"
    end in
  "Repository capture age as of " +:+ display_opt reference +:+ ": " +:+ age +:+ "; unknown for "
    +:+ pretty unknown +:+ " of " +:+ pretty (N.of_nat (length (ea_repositories evidence)))
    +:+ " repositories".

(** The age shown at one repository. *)
Definition repository_age (reference : option Z) (repo : RepositoryEvidence) : string :=
  match capture_from_checks parse_timestamp (checks repo), reference with
  | Captured at_, Some reference =>
    if (at_ <=? reference)%Z then
      pretty (as_second reference - as_second at_)%Z +:+ " seconds (captured " +:+ ts_text at_ +:+ ")"
    else "Capture age unknown"
  | _, _ => "Capture age unknown"
  end.

Record PublicationDisclosure := mkPublicationDisclosure {
  summary : string;
  disclosed : list (string * string);
}.

(** ** The pages *)

Record RetainedRenderInput := mkRetainedRenderInput {
  ri_config : DashboardConfig;
  ri_evidence : EvidenceArtifact;
  ri_stage : PublicationStage;
  ri_disclosure : PublicationDisclosure;
}.

  (** [CachedPage::new], the pages cached once for the process, by path, and
      [populate_route_aliases] of the web crate. *)
  Context {Page : Type} (CachedPage_new : string -> string -> Page)
    (cached_asset : string -> Page) (populate_route_aliases : gmap string Page -> gmap string Page).
  (** [html::render_publication_streaming]: the pages it hands over, in order. *)
  Context (render_streaming : EvidenceArtifact -> DashboardConfig -> bool ->
    option PublicationDisclosure -> result ReportError (list (string * string))).

(** The assets whose page is computed once. *)
Definition CACHED_ASSETS : list string :=
  ["style.css"; "ws.js"; "favicon.svg"; "gh-report-web-client.js"; "gh-report-web-client_bg.wasm";
   "sort-init.js"].

(** The closure that receives a page. *)
Definition insert_page (cache : gmap string Page) (page : string * string) : gmap string Page :=
  let '(path, content) := page in
  <[path := if bool_decide (path ∈ CACHED_ASSETS) then cached_asset path
            else CachedPage_new path content]> cache.

Definition render_publication_cache (config : DashboardConfig) (evidence : EvidenceArtifact)
    (stage : PublicationStage) (banner : PublicationDisclosure)
    : result ReportError (gmap string Page) :=
  let? pages :=
    render_streaming evidence config (bool_decide (stage = WarmStart)) (Some banner) in
  Ok (populate_route_aliases (fold_left insert_page pages ∅)).

(** The renderer that a retained report is rendered with again. *)
Definition rerender (input : RetainedRenderInput) (text : string) : option (gmap string Page) :=
  ok (render_publication_cache (ri_config input) (ri_evidence input) (ri_stage input)
        (mkPublicationDisclosure text (disclosed (ri_disclosure input)))).
Definition disclosure_summary (input : RetainedRenderInput) : string := summary (ri_disclosure input).

Definition coverage_text (coverage : InventoryCoverage) : string :=
  match coverage with
  | IC_Unknown => "Inventory denominator unknown; unread count unknown"
  | IC_Known expected unread =>
    "Inventory: " +:+ pretty expected +:+ " repositories; " +:+ pretty unread +:+ " not yet read"
  end.

(** [build_sourced_publication_pages], at the time [now]. *)
Definition build_sourced_publication_pages (config : RuntimeConfig) (evidence : EvidenceArtifact)
    (stage : PublicationStage) (inventory : option AdmittedInventory)
    (source : PublicationProvenance) (now : Z)
    : result AppError (PublicationCandidate Page RetainedRenderInput) :=
  let coverage := coverage_text (inventory_coverage inventory (ea_repositories evidence)) in
  let banner :=
    stage_label stage +:+ ". " +:+ coverage +:+ ". " +:+ repository_capture_age_disclosure evidence
      +:+ ". Evidence may be stale; publication time is not capture time." in
  let reference := reference_time evidence in
  let disclosure :=
    mkPublicationDisclosure banner
      (map (fun repo => (repo_name (repository repo), repository_age reference repo))
         (ea_repositories evidence)) in
  let attempt :=
    "Refresh attempted at " +:+ ts_text now +:+ ". Attempt assessed at " +:+ display_opt reference
      +:+ ". " +:+ stage_label stage +:+ ". " +:+ coverage in
  let? rendered :=
    map_err AE_Report (render_publication_cache (dashboard_config config) evidence stage disclosure) in
  let quality := quality_from_evidence parse_timestamp evidence inventory in
  let quality :=
    mkPublicationQuality source (inventory_known quality) (q_repositories quality) (q_rosters quality) in
  Ok (mkPublicationCandidate rendered rendered quality
        (Some (mkRetainedRenderInput (dashboard_config config) evidence stage disclosure)) attempt stage).

(** ** What the service renders from the projection *)

(** The state the renders read and write: the projection, the counter of its
    captures and the publication. *)
Record ReportState := mkReportState {
  rs_projection : EvidenceProjection;
  rs_source : N;
  rs_sequence : N;
  rs_publication : PublicationState Page RetainedRenderInput;
}.

Definition with_sequence (n : N) (s : ReportState) : ReportState :=
  mkReportState (rs_projection s) (rs_source s) n (rs_publication s).
Definition with_publication (p : PublicationState Page RetainedRenderInput) (s : ReportState)
    : ReportState :=
  mkReportState (rs_projection s) (rs_source s) (rs_sequence s) p.

(** A capture advances the counter. *)
Definition capture (s : ReportState)
    : option (ProjectionCaptureToken * EvidenceProjection) * ReportState :=
  match projection_render_snapshot (rs_source s) (rs_sequence s) (rs_projection s) with
  | Some (token, p) => (Some (token, p), with_sequence (pt_sequence token) s)
  | None => (None, s)
  end.

Context (etag : Page -> string).

Definition commit (candidate : PublicationCandidate Page RetainedRenderInput) (s : ReportState)
    : ReportState :=
  with_publication (commit_cached_pages etag disclosure_summary rerender candidate (rs_publication s)) s.

Definition CapabilitySet_default : CapabilitySet := mkCapabilitySet CS_NotProbed CS_NotProbed CS_NotProbed.

(** [ProjectionRenderSnapshot::deleted]. *)
Definition snapshot_deleted (p : EvidenceProjection) : list DeletedRepoRecord :=
  map snd (deleted_snapshot p).

Definition warm_start_evidence (config : RuntimeConfig) (run : RunMetadata) (p : EvidenceProjection)
    : EvidenceArtifact :=
  build_evidence
    (mkBuildEvidenceParams (sorted_snapshot p) (snapshot_deleted p) (p_org_state p) config run None None
       (mkAuthMetadata TT_Unknown "cached" AM_Unknown) CapabilitySet_default 0
       (snapshot_team_rosters p) true None).

(** [warm_start_from_baseline], with the new run and the time of the render. *)
Definition warm_start_from_baseline (config : RuntimeConfig) (run : RunMetadata) (now : Z)
    (s : ReportState) : bool * ReportState :=
  match capture s with
  | (None, s) => (false, s)
  | (Some (token, p), s) =>
    if bool_decide (sorted_snapshot p = []) && negb (is_some_and (fun _ => true) (p_org_state p))
    then (false, s)
    else
      match build_sourced_publication_pages config (warm_start_evidence config run p) WarmStart None
              (P_Projection token) now with
      | Ok candidate => (true, commit candidate s)
      | Err _ => (false, s)
      end
  end.

(** [PartialPublishConfig]. *)
Record PartialPublishConfig := mkPartialPublishConfig {
  pp_config : RuntimeConfig;
  pp_run : RunMetadata;
  pp_inventory_fetched_at : option string;
  pp_inventory : AdmittedInventory;
  pp_org_alert_summary : option OrgAlertSummary;
  pp_auth_metadata : AuthMetadata;
  pp_capabilities : CapabilitySet;
}.

Definition partial_evidence (pp : PartialPublishConfig) (p : EvidenceProjection) : EvidenceArtifact :=
  build_evidence
    (mkBuildEvidenceParams
       (include_unread_repositories (sorted_snapshot p) (pp_inventory pp) (run_timestamp (pp_run pp)))
       (snapshot_deleted p) (p_org_state p) (pp_config pp) (pp_run pp) (pp_inventory_fetched_at pp)
       (pp_org_alert_summary pp) (pp_auth_metadata pp) (pp_capabilities pp) 0
       (snapshot_team_rosters p) true None).

Definition partial_render_once (pp : PartialPublishConfig) (now : Z) (s : ReportState) : ReportState :=
  match capture s with
  | (None, s) => s
  | (Some (token, p), s) =>
    match build_sourced_publication_pages (pp_config pp) (partial_evidence pp p) Intermediate
            (Some (pp_inventory pp)) (P_Projection token) now with
    | Ok candidate => commit candidate s
    | Err _ => s
    end
  end.

(** [team_rosters_from_projection]: the live rosters, then the ghosts that no
    live roster replaces. *)
Definition team_rosters_from_projection (p : EvidenceProjection) : list TeamRoster :=
  let live := team_rosters_snapshot p in
  let live_keys : gset string := list_to_set (map fst live) in
  let ghosts :=
    List.filter (fun kr => negb (bool_decide (fst kr ∈ live_keys))) (team_ghost_rosters_snapshot p) in
  map snd (live ++ ghosts).

(** ** The terminal render of a collection *)

(** What [finalize_and_publish] needs: the run's own observations. *)
Record FinalizeParams := mkFinalizeParams {
  fp_config : RuntimeConfig;
  fp_run : RunMetadata;
  fp_inventory : AdmittedInventory;
  fp_org_summary : OrgAlertSummary;
  fp_auth_metadata : AuthMetadata;
  fp_capabilities : CapabilitySet;
  fp_rate_limit_warnings : N;
}.

Definition org_snapshot_params (f : FinalizeParams) : OrgSnapshotParams :=
  mkOrgSnapshotParams (fp_config f) (fp_run f) (fp_inventory f) (fp_org_summary f)
    (fp_auth_metadata f) (fp_capabilities f) (fp_rate_limit_warnings f).

(** The rosters of the report and where they come from: those of the capture,
    or those [live] just read, with the members of the organization. *)
Definition terminal_sources (f : FinalizeParams) (token : ProjectionCaptureToken) (p : EvidenceProjection)
    (live : list TeamRoster * option (gset string) * LiveObservationToken)
    : list TeamRoster * bool * option (gset string) * PublicationProvenance :=
  if team_roster_read_from_projection (fp_config f)
  then (snapshot_team_rosters p, true, None, P_Projection token)
  else let '(rosters, org_members, live) := live in
       (rosters, false, org_members, P_LiveOverlay token live).

Definition terminal_evidence (f : FinalizeParams) (token : ProjectionCaptureToken) (p : EvidenceProjection)
    (live : list TeamRoster * option (gset string) * LiveObservationToken) : EvidenceArtifact :=
  let '(rosters, enriched, org_members, _) := terminal_sources f token p live in
  build_evidence
    (mkBuildEvidenceParams
       (include_unread_repositories (sorted_snapshot p) (fp_inventory f) (run_timestamp (fp_run f)))
       (snapshot_deleted p) (p_org_state p) (fp_config f) (fp_run f)
       (admitted_fetched_at (fp_inventory f)) (Some (fp_org_summary f)) (fp_auth_metadata f)
       (fp_capabilities f) (fp_rate_limit_warnings f) rosters enriched org_members).

(** What [finalize_and_publish] makes of the capture [(token, p)] and of what it
    read meanwhile: the candidate, whether it is a warm start, the unread count. *)
Definition terminal_pages (f : FinalizeParams) (token : ProjectionCaptureToken) (p : EvidenceProjection)
    (live : list TeamRoster * option (gset string) * LiveObservationToken) (now : Z)
    : result AppError (PublicationCandidate Page RetainedRenderInput * bool * N) :=
  let evidence := terminal_evidence f token p live in
  let '(_, source) := terminal_sources f token p live in
  let? pages := build_sourced_publication_pages (fp_config f) evidence Terminal
                  (Some (fp_inventory f)) source now in
  Ok (pages, am_warm_start (ea_assessment_metadata evidence), count_unscanned_repos evidence).
End Artifact.

(** ** Lemmas *)

(** A placeholder for a repository that was not read is pending. *)
Lemma placeholder_pending repo ts :
  read_state_from_checks (checks (failure_evidence_with_reason repo ts PENDING_REASON)) = RS_Pending.
Proof.
  unfold failure_evidence_with_reason, PENDING_REASON. by destruct (is_public repo).
Qed.

Definition pending (r : RepositoryEvidence) : bool :=
  bool_decide (read_state_from_checks (checks r) = RS_Pending).

Lemma include_unread_pending repos inventory ts :
  countb pending (include_unread_repositories repos inventory ts) =
    countb pending repos +
    countb (fun repo => negb (bool_decide
      (inventory_key repo ∈ map (fun r => inventory_key (repository r)) repos))) (active_repos inventory).
Proof.
  unfold include_unread_repositories. rewrite countb_app. f_equal.
  rewrite (countb_ext _ (fun repo => negb (bool_decide (inventory_key repo ∈
    (list_to_set (map (fun r => inventory_key (repository r)) repos) : gset string))))).
  2:{ intros repo _. f_equal. apply bool_decide_ext. by rewrite elem_of_list_to_set. }
  unfold countb at 2. induction (List.filter _ (active_repos inventory)) as [|repo l IH]; [done|].
  simpl. rewrite countb_cons IH. unfold pending at 1. rewrite placeholder_pending.
  rewrite bool_decide_eq_true_2 //. lia.
Qed.

(** The known ages of the repositories. *)
Definition known_age (parse_timestamp : string -> option Z) (reference : option Z)
    (repo : RepositoryEvidence) : option Z :=
  match capture_from_checks parse_timestamp (checks repo), reference with
  | Captured at_, Some reference =>
    if (at_ <=? reference)%Z then Some (as_second reference - as_second at_)%Z else None
  | _, _ => None
  end.

Definition fold_max (oldest : option Z) (ages : list Z) : option Z :=
  fold_left (fun o a => Some match o with Some p => Z.max p a | None => a end) ages oldest.

Lemma omap_length_le {A B} (f : A -> option B) l : (length (omap f l) <= length l)%nat.
Proof. induction l as [|a l IH]; [done|]. cbn. destruct (f a); simpl; lia. Qed.

Lemma capture_ages_known parse_timestamp reference repos : forall n o,
  fold_left (age_step parse_timestamp reference) repos (n, o) =
    (n + (N.of_nat (length repos) - N.of_nat (length (omap (known_age parse_timestamp reference) repos))),
     fold_max o (omap (known_age parse_timestamp reference) repos)).
Proof.
  induction repos as [|r repos IH]; intros n o; [simpl; f_equal; lia|]. cbn [fold_left].
  pose proof (omap_length_le (known_age parse_timestamp reference) repos) as Hle.
  assert (age_step parse_timestamp reference (n, o) r =
    match known_age parse_timestamp reference r with
    | Some a => (n, Some match o with Some p => Z.max p a | None => a end)
    | None => (n + 1, o)
    end) as ->.
  { unfold age_step, known_age.
    destruct (capture_from_checks _ _), reference; try done. by destruct (_ <=? _)%Z. }
  cbn. destruct (known_age parse_timestamp reference r); rewrite IH; simpl; f_equal; lia.
Qed.

Lemma fold_max_spec l : forall o, match fold_max o l with
  | None => o = None /\ l = []
  | Some m => (o = Some m \/ m ∈ l) /\ (forall x, o = Some x \/ x ∈ l -> (x <= m)%Z)
  end.
Proof.
  unfold fold_max. induction l as [|a l IH]; intros o; simpl.
  - destruct o; [|done]. split; [by left|]. intros x [[= <-]|Hx]; [done|set_solver].
  - specialize (IH (Some match o with Some p => Z.max p a | None => a end)).
    destruct (fold_left _ l _) as [m|]; [|naive_solver]. destruct IH as [Hin Hmax].
    assert (match o with Some p => Z.max p a | None => a end <= m)%Z as Hle by (apply Hmax; by left).
    split.
    + destruct Hin as [[= <-]|Hin]; [|set_solver]. destruct o as [p|]; [|set_solver].
      destruct (Z.max_spec p a) as [[_ ->]|[_ ->]]; [set_solver|by left].
    + intros x [-> |[->|Hx]%elem_of_cons]; [lia| |apply Hmax; by right]. destruct o; lia.
Qed.

(** The ages a report discloses: every repository is counted, either by a
    known age or as unknown, and the oldest known age is the greatest. *)
Lemma capture_age_exact parse_timestamp reference repos :
  let ages := omap (known_age parse_timestamp reference) repos in
  let '(unknown, oldest) := capture_ages parse_timestamp reference repos in
  unknown + N.of_nat (length ages) = N.of_nat (length repos) /\
  match oldest with
  | None => ages = []
  | Some m => m ∈ ages /\ Forall (fun a => (a <= m)%Z) ages
  end.
Proof.
  unfold capture_ages. rewrite capture_ages_known. cbn zeta beta iota.
  pose proof (omap_length_le (known_age parse_timestamp reference) repos) as Hle. set (ages := omap _ _) in *.
  split; [lia|]. pose proof (fold_max_spec ages None) as H. destruct (fold_max None ages) as [m|].
  - destruct H as [[?|Hin] Hmax]; [done|]. split; [done|]. apply Forall_forall. auto.
  - by destruct H.
Qed.

Section TerminalLemmas.
  Context (to_lowercase : string -> string) (parse_timestamp : string -> option Z).
  Context (date_text run_text : Z -> string).

Local Notation evidence_of := (terminal_evidence to_lowercase parse_timestamp date_text run_text).

Lemma terminal_repositories f token p live :
  ea_repositories (evidence_of f token p live) =
    include_unread_repositories (sorted_snapshot p) (fp_inventory f) (run_timestamp run_text (fp_run f)).
Proof. unfold terminal_evidence. by destruct (terminal_sources f token p live) as [[[??]?]?]. Qed.

Lemma elem_of_snapshot_keys p k : keyed p ->
  k ∈ map (fun r => inventory_key (repository r)) (sorted_snapshot p) <-> is_Some (p_repositories p !! k).
Proof.
  intros Hk. destruct (sorted_snapshot_exact p) as (_ & _ & Hin & _). rewrite elem_of_map. split.
  - intros (ev & [key Hev]%Hin & <-). by rewrite (Hk _ _ Hev); exists ev.
  - intros [ev Hev]. exists ev. split; [apply Hin; by exists k|]. by rewrite (Hk _ _ Hev).
Qed.

Lemma countb_pending_snapshot p :
  countb pending (sorted_snapshot p) = 0 <->
  map_Forall (fun _ ev => read_state_from_checks (checks ev) <> RS_Pending) (p_repositories p).
Proof.
  destruct (sorted_snapshot_exact p) as (_ & _ & Hin & _). rewrite countb_zero. unfold pending. split.
  - intros H k ev Hk. apply (bool_decide_eq_false_1 _), H, Hin. by exists k.
  - intros H ev [k Hk]%Hin. apply bool_decide_eq_false_2. by apply (H k).
Qed.

(** What the terminal report of a collection says of its completeness.  It
    lists the live evidence of the projection and one row for every admitted
    repository that has none; the unread count it is announced with is the
    number of live rows that still wait for a collection and of admitted
    repositories without a row, so it is zero exactly when every admitted
    repository has evidence and none of the evidence is a placeholder. *)
Lemma terminal_completeness f token p live : keyed p ->
  let evidence := evidence_of f token p live in
  let unread := List.filter (fun repo => bool_decide (p_repositories p !! inventory_key repo = None))
                  (active_repos (fp_inventory f)) in
  map repository (ea_repositories evidence) = map repository (sorted_snapshot p) ++ unread /\
  count_unscanned_repos evidence = countb pending (sorted_snapshot p) + N.of_nat (length unread) /\
  (count_unscanned_repos evidence = 0 <->
     map_Forall (fun _ ev => read_state_from_checks (checks ev) <> RS_Pending) (p_repositories p) /\
     forall repo, repo ∈ active_repos (fp_inventory f) -> is_Some (p_repositories p !! inventory_key repo)).
Proof.
  intros Hk. cbn zeta.
  assert (forall repo, negb (bool_decide (inventory_key repo ∈
      map (fun r => inventory_key (repository r)) (sorted_snapshot p))) =
    bool_decide (p_repositories p !! inventory_key repo = None)) as Hunread.
  { intros repo. rewrite -bool_decide_not. apply bool_decide_ext.
    by rewrite elem_of_snapshot_keys // eq_None_not_Some. }
  assert (count_unscanned_repos (evidence_of f token p live) = countb pending (sorted_snapshot p) +
    countb (fun repo => bool_decide (p_repositories p !! inventory_key repo = None))
      (active_repos (fp_inventory f))) as Hcount.
  { unfold count_unscanned_repos. rewrite terminal_repositories. fold pending.
    rewrite include_unread_pending. f_equal. apply countb_ext. intros repo _. apply Hunread. }
  split_and!; [|done|..].
  - rewrite terminal_repositories. unfold include_unread_repositories. rewrite map_app. f_equal.
    rewrite map_map /= map_id. apply List.filter_ext. intros repo. rewrite -Hunread. f_equal.
    apply bool_decide_ext. by rewrite elem_of_list_to_set.
  - rewrite Hcount -countb_pending_snapshot. split.
    + intros [-> H]%N.eq_add_0. split; [done|]. intros repo Hr.
      pose proof (proj1 (countb_zero _ _) H repo Hr) as Hb.
      by apply not_eq_None_Some, (bool_decide_eq_false_1 _).
    + intros [-> H]. rewrite N.add_0_l. apply countb_zero.
      intros repo Hr. apply bool_decide_eq_false_2. by apply not_eq_None_Some, H.
Qed.
End TerminalLemmas.

(** A collection whose inventory lists "a" and "b", over evidence of "a" and "c". *)
Definition sample_finalize (config : RuntimeConfig) : FinalizeParams :=
  mkFinalizeParams config
    (mkRunMetadata "r" 0 None "acme" "1" Run_InProgress CoverageUnknown)
    sample_admitted (Ghas.initial_summary CS_NotCollected None None) (mkAuthMetadata TT_Unknown "cached" AM_Unknown)
    CapabilitySet_default 0.

Definition sample_token : ProjectionCaptureToken := mkProjectionCaptureToken 0 1 ∅.

Lemma terminal_completeness_witness :
  match Config.RuntimeConfig_new "acme" false 4 "/var/lib/gh-report" with
  | Ok config =>
    let evidence :=
      terminal_evidence to_ascii_lowercase (fun _ => None) (fun _ => "d") (fun _ => "t")
        (sample_finalize config) sample_token sample_live ([], None, mkLiveObservationToken 0 1) in
    map repository (ea_repositories evidence) =
      map repository (sorted_snapshot sample_live) ++ [sample_repo "b" false] /\
    count_unscanned_repos evidence = countb pending (sorted_snapshot sample_live) + 1
  | Err _ => False
  end.
Proof.
  assert (is_some_and (fun _ => true) (ok (Config.RuntimeConfig_new "acme" false 4 "/var/lib/gh-report")) = true)
    as Hok by (vm_compute; reflexivity).
  destruct (Config.RuntimeConfig_new _ _ _ _) as [config|e]; [clear Hok|discriminate Hok].
  destruct (terminal_completeness to_ascii_lowercase (fun _ => None) (fun _ => "d") (fun _ => "t")
    (sample_finalize config) sample_token sample_live ([], None, mkLiveObservationToken 0 1)
    sample_live_keyed) as (Hrepos & Hcount & _).
  assert (List.filter (fun repo => bool_decide (p_repositories sample_live !! inventory_key repo = None))
    (active_repos sample_admitted) = [sample_repo "b" false]) as Hb by (vm_compute; reflexivity).
  cbn [fp_inventory sample_finalize] in Hrepos, Hcount. rewrite Hb in Hrepos, Hcount.
  split; [exact Hrepos|exact Hcount].
Defined.
