(* ===== verification/EphemeralStore.v ===== *)
(** * The in-process event store ([app/ephemeral_store.rs])

    Streams of envelopes by aggregate, kept in memory: create opens a stream
    under the next free number, append extends one whose length the caller
    states, load reads one and validates it.  The envelope is [cherry_pit_core]'s,
    a class with what the store relies on. *)

From S2P Require Import Prelude Str.

Open Scope N_scope.

(** [EventEnvelope], its constructor, which may refuse, the fields the store
    reads and the validation of a stream. *)
Class EventEnvelope (Env Event : Type) := {
  envelope_new : forall (event_id aggregate_id sequence : N) (timestamp : Z)
    (correlation_id causation_id : option N) (payload : Event), result string Env;
  env_aggregate : Env -> N;
  env_sequence : Env -> N;
  env_payload : Env -> Event;
  validate_stream : N -> list Env -> result string ();
}.

(** Its documented behaviour: an envelope keeps what it is made of, and a
    stream is valid when its envelopes are numbered from one for its aggregate. *)
Class EventEnvelopeLaws (Env Event : Type) `{!EventEnvelope Env Event} : Prop := {
  envelope_fields : forall eid id n t c c' p env, envelope_new eid id n t c c' p = Ok env ->
    env_aggregate env = id /\ env_sequence env = n /\ env_payload env = p;
  validate_numbered : forall id stream,
    (forall i env, stream !! i = Some env ->
       env_aggregate env = id /\ env_sequence env = N.of_nat i + 1) ->
    validate_stream id stream = Ok ();
}.

Inductive StoreError :=
| Infrastructure (reason : string)
| CorruptData (reason : string)
| ConcurrencyConflict (aggregate_id expected_sequence actual_sequence : N).

(** The identifiers of a [CorrelationContext]. *)
Record CorrelationContext := mkCorrelationContext {
  correlation_id : option N;
  causation_id : option N;
}.

Section EphemeralStore.
  Context {Env Event : Type} `{!EventEnvelope Env Event}.

Record EphemeralState := mkEphemeralState {
  streams : gmap N (list Env);
  next_id : N;
}.

(** [EphemeralEventStore::new]. *)
Definition ephemeral_new : EphemeralState := mkEphemeralState ∅ 1.

(** The loop of [build_envelopes], at the index [i]; [uuid] draws the
    identifiers of the events, at the time [now]. *)
Fixpoint build_from (uuid : nat -> N) (now : Z) (id start_sequence : N) (context : CorrelationContext)
    (i : nat) (events : list Event) : result StoreError (list Env) :=
  match events with
  | [] => Ok []
  | payload :: events =>
    let raw := start_sequence + clamp u64_max (N.of_nat i) + 1 in
    if u64_max <? raw then Err (Infrastructure "sequence overflow")
    else if raw =? 0 then Err (Infrastructure "sequence must be non-zero")
    else
      let? envelope :=
        map_err Infrastructure
          (envelope_new (uuid i) id raw now (correlation_id context) (causation_id context) payload) in
      let? envelopes := build_from uuid now id start_sequence context (S i) events in
      Ok (envelope :: envelopes)
  end.

Definition build_envelopes (uuid : nat -> N) (now : Z) (id start_sequence : N)
    (events : list Event) (context : CorrelationContext) : result StoreError (list Env) :=
  build_from uuid now id start_sequence context 0 events.

Definition ephemeral_load (id : N) (s : EphemeralState) : result StoreError (list Env) :=
  let stream := default [] (streams s !! id) in
  let? _ := map_err CorruptData (validate_stream id stream) in
  Ok stream.

(** The identifier is taken before the envelopes are made: a refusal skips it. *)
Definition ephemeral_create (uuid : nat -> N) (now : Z) (events : list Event)
    (context : CorrelationContext) (s : EphemeralState)
    : result StoreError (N * list Env) * EphemeralState :=
  match events with
  | [] => (Err (Infrastructure "cannot create aggregate with zero events"), s)
  | _ =>
    let id := next_id s in
    if u64_max <? id + 1 then (Err (Infrastructure "aggregate ID overflow"), s)
    else
      let s := mkEphemeralState (streams s) (id + 1) in
      match build_envelopes uuid now id 0 events context with
      | Err e => (Err e, s)
      | Ok envelopes =>
        (Ok (id, envelopes), mkEphemeralState (<[id := envelopes]> (streams s)) (next_id s))
      end
  end.

Definition ephemeral_append (uuid : nat -> N) (now : Z) (id expected_sequence : N)
    (events : list Event) (context : CorrelationContext) (s : EphemeralState)
    : result StoreError (list Env) * EphemeralState :=
  match events with
  | [] => (Ok [], s)
  | _ =>
    match streams s !! id with
    | None =>
      (Err (Infrastructure ("cannot append to aggregate " +:+ pretty id
         +:+ ": not created (use create() first)")), s)
    | Some stream =>
      let actual_sequence := match last stream with Some e => env_sequence e | None => 0 end in
      if negb (actual_sequence =? expected_sequence) then
        (Err (ConcurrencyConflict id expected_sequence actual_sequence), s)
      else
        match build_envelopes uuid now id expected_sequence events context with
        | Err e => (Err e, s)
        | Ok new_envelopes =>
          (Ok new_envelopes,
           mkEphemeralState (<[id := stream ++ new_envelopes]> (streams s)) (next_id s))
        end
    end
  end.

(** ** Sequences of operations *)

Inductive StoreOp :=
| OpLoad (id : N)
| OpCreate (uuid : nat -> N) (now : Z) (events : list Event) (context : CorrelationContext)
| OpAppend (uuid : nat -> N) (now : Z) (id expected_sequence : N) (events : list Event)
    (context : CorrelationContext).

Definition store_op (op : StoreOp) (s : EphemeralState) : EphemeralState :=
  match op with
  | OpLoad _ => s
  | OpCreate uuid now events context => snd (ephemeral_create uuid now events context s)
  | OpAppend uuid now id expected events context =>
    snd (ephemeral_append uuid now id expected events context s)
  end.

(** The states a new store can reach. *)
Definition reachable (s : EphemeralState) : Prop :=
  exists ops, s = fold_left (fun s op => store_op op s) ops ephemeral_new.

(** ** Lemmas *)

Context `{!EventEnvelopeLaws Env Event}.

(** The envelopes from [n] on of the aggregate [id]. *)
Definition numbered (id n : N) (stream : list Env) : Prop :=
  forall i env, stream !! i = Some env -> env_aggregate env = id /\ env_sequence env = n + N.of_nat i + 1.

Definition store_ok (s : EphemeralState) : Prop :=
  1 <= next_id s /\
  map_Forall (fun id stream => 1 <= id < next_id s /\ stream <> [] /\ numbered id 0 stream) (streams s).

Lemma numbered_app id n stream stream' :
  numbered id n stream -> numbered id (n + N.of_nat (length stream)) stream' ->
  numbered id n (stream ++ stream').
Proof.
  intros H H' i env [Hi|[Hge Hi]]%lookup_app_Some; [by apply H|].
  destruct (H' _ _ Hi) as [-> ->]. split; [done|]. lia.
Qed.

Lemma numbered_last id stream : numbered id 0 stream ->
  match last stream with Some e => env_sequence e | None => 0 end = N.of_nat (length stream).
Proof.
  intros H. destruct (last stream) as [e|] eqn:E.
  - rewrite last_lookup in E. destruct (H _ _ E) as [_ ->].
    destruct stream; [done|]. simpl. lia.
  - by apply last_None in E as ->.
Qed.

Lemma build_from_ok uuid now id start context events : forall i envelopes,
  build_from uuid now id start context i events = Ok envelopes ->
  numbered id (start + N.of_nat i) envelopes /\ map env_payload envelopes = events.
Proof.
  induction events as [|payload events IH]; intros i envelopes; simpl.
  - intros [= <-]. by split.
  - case_match eqn:Hmax; [done|]. case_match; [done|].
    assert (clamp u64_max (N.of_nat i) = N.of_nat i) as Hi.
    { apply N.ltb_ge in Hmax. revert Hmax. unfold clamp.
      destruct (N.leb_spec (N.of_nat i) u64_max); lia. }
    rewrite Hi. destruct (envelope_new _ _ _ _ _ _ _) as [env|] eqn:Henv; [|done]. simpl.
    destruct (build_from _ _ _ _ _ (S i) events) as [envs|] eqn:E; [|done]. intros [= <-].
    destruct (IH _ _ E) as [Hn <-]. destruct (envelope_fields _ _ _ _ _ _ _ _ Henv) as (Ha & Hs & <-).
    split; [|done]. intros [|j] e; simpl.
    + intros [= <-]. split; [done|]. lia.
    + intros He. destruct (Hn _ _ He) as [-> ->]. split; [done|]. lia.
Qed.

Lemma build_from_err uuid now id start context events : forall i e,
  build_from uuid now id start context i events = Err e -> exists reason, e = Infrastructure reason.
Proof.
  induction events as [|payload events IH]; intros i e; simpl; [done|].
  case_match; [intros [= <-]; by eexists|]. case_match; [intros [= <-]; by eexists|].
  destruct (envelope_new _ _ _ _ _ _ _); simpl; [|intros [= <-]; by eexists].
  destruct (build_from _ _ _ _ _ (S i) events) eqn:E; [done|]. intros [= <-]. by apply IH in E.
Qed.

Lemma build_nonempty uuid now id start context events envelopes :
  build_envelopes uuid now id start events context = Ok envelopes -> events <> [] -> envelopes <> [].
Proof. intros [_ <-]%build_from_ok. by destruct envelopes. Qed.

Lemma build_numbered uuid now id start context events envelopes :
  build_envelopes uuid now id start events context = Ok envelopes -> numbered id start envelopes.
Proof. intros [H _]%build_from_ok. by rewrite N.add_0_r in H. Qed.

Lemma create_ok uuid now events context s : store_ok s ->
  store_ok (snd (ephemeral_create uuid now events context s)).
Proof.
  intros [Hnext Hs]. unfold ephemeral_create. destruct events as [|p events]; [done|].
  destruct (u64_max <? next_id s + 1); [done|].
  assert (forall id stream, streams s !! id = Some stream ->
    1 <= id < next_id s + 1 /\ stream <> [] /\ numbered id 0 stream) as Hs'.
  { intros id stream Hid. destruct (Hs _ _ Hid) as (? & ? & ?). split; [lia|]. by split. }
  destruct (build_envelopes _ _ _ _ _ _) as [envelopes|] eqn:E; split; simpl; try lia; [|done].
  apply map_Forall_insert_2; [|done]. split; [lia|]. split.
  - by apply build_nonempty in E.
  - by apply build_numbered in E.
Qed.

Lemma append_ok uuid now id expected events context s : store_ok s ->
  store_ok (snd (ephemeral_append uuid now id expected events context s)).
Proof.
  intros [Hnext Hs]. unfold ephemeral_append. destruct events as [|p events]; [done|].
  destruct (streams s !! id) as [stream|] eqn:Hid; [|done]. destruct (Hs _ _ Hid) as (Hr & Hne & Hn).
  rewrite (numbered_last _ _ Hn). destruct (N.eqb_spec (N.of_nat (length stream)) expected) as [<-|]; [|done].
  destruct (build_envelopes _ _ _ _ _ _) as [envelopes|] eqn:E; [|done].
  split; [done|]. simpl. apply map_Forall_insert_2; [|done]. split; [done|]. split.
  - by destruct stream.
  - apply build_numbered in E. by apply numbered_app.
Qed.

Lemma reachable_ok s : reachable s -> store_ok s.
Proof.
  intros [ops ->]. assert (store_ok ephemeral_new) as H by (split; [simpl; lia|apply map_Forall_empty]).
  revert H. generalize ephemeral_new. induction ops as [|op ops IH]; intros s H; [done|].
  apply IH. destruct op; [done|by apply create_ok|by apply append_ok].
Qed.

(** What every reachable store promises.  Each stream is a nonempty
    sequence of envelopes numbered from one for its aggregate, so reading it
    never reports corrupt data and the next number to be given is fresh.  An
    append to it is refused as a conflict, and changes nothing, unless the
    caller states its exact length; otherwise, unless an envelope cannot be
    made, the events follow those that were there, so two appends made on the
    same reading can never both succeed. *)
Lemma stream_invariant s : reachable s ->
  streams s !! next_id s = None /\
  forall id stream, streams s !! id = Some stream ->
  ephemeral_load id s = Ok stream /\
  (forall i env, stream !! i = Some env -> env_sequence env = N.of_nat i + 1) /\
  forall uuid now expected events context r s', events <> [] ->
  ephemeral_append uuid now id expected events context s = (r, s') ->
  match r with
  | Ok new => expected = N.of_nat (length stream) /\ map env_payload new = events /\
      streams s' = <[id := stream ++ new]> (streams s) /\ ephemeral_load id s' = Ok (stream ++ new) /\
      fst (ephemeral_append uuid now id expected events context s') =
        Err (ConcurrencyConflict id expected (N.of_nat (length (stream ++ new))))
  | Err e => s' = s /\
      (e = ConcurrencyConflict id expected (N.of_nat (length stream)) /\ expected <> N.of_nat (length stream) \/
       (exists reason, e = Infrastructure reason) /\ expected = N.of_nat (length stream))
  end.
Proof.
  intros Hr. pose proof (reachable_ok _ Hr) as Hok.
  assert (forall s id stream, store_ok s -> streams s !! id = Some stream ->
    ephemeral_load id s = Ok stream) as Hload.
  { intros s0 id0 st [_ Hs] Hid. unfold ephemeral_load. rewrite Hid /=.
    destruct (Hs _ _ Hid) as (_ & _ & Hn). rewrite (validate_numbered _ _ Hn) //. }
  destruct Hok as [Hnext Hs]. split.
  { destruct (streams s !! next_id s) as [st|] eqn:E; [|done]. destruct (Hs _ _ E). lia. }
  intros id stream Hid. destruct (Hs _ _ Hid) as (_ & _ & Hn). split_and!.
  - by apply Hload.
  - intros i env Hi. by destruct (Hn _ _ Hi).
  - intros uuid now expected events context r s' Hne E.
    assert (store_ok s') as Hok'.
    { pose proof (append_ok uuid now id expected events context s (conj Hnext Hs)) as H. by rewrite E in H. }
    revert E. unfold ephemeral_append at 1. destruct events as [|p events]; [done|]. rewrite Hid.
    rewrite (numbered_last _ _ Hn). destruct (N.eqb_spec (N.of_nat (length stream)) expected) as [<-|Hneq]; simpl.
    2:{ intros [= <- <-]. split; [done|]. by left. }
    destruct (build_envelopes _ _ _ _ _ _) as [envelopes|e] eqn:Eb; intros [= <- <-].
    + assert (streams (mkEphemeralState (<[id:=stream ++ envelopes]> (streams s)) (next_id s)) !! id =
        Some (stream ++ envelopes)) as Hid' by apply lookup_insert_eq.
      assert (envelopes <> []) as Hnil by (by apply build_nonempty in Eb).
      apply build_from_ok in Eb as [Hnum Hpay]. split_and!; [done..|by apply Hload|].
      unfold ephemeral_append. rewrite Hid'. destruct Hok' as [_ Hs'].
      destruct (Hs' _ _ Hid') as (_ & _ & Hn'). rewrite (numbered_last _ _ Hn').
      destruct (N.eqb_spec (N.of_nat (length (stream ++ envelopes))) (N.of_nat (length stream))) as [Hl|]; [|done].
      rewrite length_app in Hl. destruct envelopes; [done|]. simpl in Hl. lia.
    + split; [done|]. right. split; [|done]. by apply build_from_err in Eb.
Qed.
End EphemeralStore.
Arguments EphemeralState : clear implicits.
Arguments StoreOp : clear implicits.

(** An envelope that is its fields. *)
Record TestEnvelope := mkTestEnvelope { te_aggregate : N; te_sequence : N; te_payload : string }.

Definition test_valid (id : N) (stream : list TestEnvelope) : bool :=
  forallb (fun '(i, e) => (te_aggregate e =? id) && (te_sequence e =? N.of_nat i + 1))
    (imap (fun i e => (i, e)) stream).

#[local] Instance test_envelope : EventEnvelope TestEnvelope string := {
  envelope_new _ id n _ _ _ p := Ok (mkTestEnvelope id n p);
  env_aggregate := te_aggregate;
  env_sequence := te_sequence;
  env_payload := te_payload;
  validate_stream id stream := if test_valid id stream then Ok () else Err "not numbered";
}.

#[local] Instance test_envelope_laws : EventEnvelopeLaws TestEnvelope string.
Proof.
  split.
  - intros ???????? [= <-]. by split_and!.
  - intros id stream H. simpl. unfold test_valid.
    rewrite (proj2 (forallb_forall _ _)) //. intros [i e] Hin. apply list_elem_of_In in Hin.
    apply elem_of_lookup_imap in Hin as (j & e' & [= -> ->] & Hj). destruct (H _ _ Hj) as [<- Hn].
    simpl in Hn. rewrite Hn !N.eqb_refl. done.
Qed.

Definition sample_context : CorrelationContext := mkCorrelationContext None None.

(** A stream of one event, to which two callers that read it append. *)
Lemma stream_invariant_witness :
  let s := snd (ephemeral_create (fun _ => 0) 0 ["opened"] sample_context ephemeral_new) in
  let s' := snd (ephemeral_append (fun _ => 0) 0 1 1 ["fired"] sample_context s) in
  ephemeral_load 1 s' = Ok [mkTestEnvelope 1 1 "opened"; mkTestEnvelope 1 2 "fired"] /\
  fst (ephemeral_append (fun _ => 0) 0 1 1 ["fired"] sample_context s') = Err (ConcurrencyConflict 1 1 2).
Proof.
  intros s s'. assert (reachable s) as Hr.
  { exists [OpCreate (fun _ => 0) 0%Z ["opened"] sample_context]. reflexivity. }
  destruct (stream_invariant s Hr) as [_ H].
  assert (streams s !! 1 = Some [mkTestEnvelope 1 1 "opened"]) as Hs by (vm_compute; reflexivity).
  destruct (H _ _ Hs) as (_ & _ & Ha).
  assert (ephemeral_append (fun _ => 0) 0 1 1 ["fired"] sample_context s =
    (Ok [mkTestEnvelope 1 2 "fired"], s')) as E by (vm_compute; reflexivity).
  assert (["fired"] <> []) as Hne by discriminate.
  destruct (Ha _ _ _ _ _ _ _ Hne E) as (_ & _ & _ & Hl & Hc). split; [exact Hl|exact Hc].
Defined.
