(* ===== verification/TeamRefresh.v ===== *)
(** * The team refresh ([app/team_refresh.rs])

    One tick of the task that keeps the rosters of teams: which teams to read,
    the reading of them, and the writes that record what was read and detach
    what is gone.  It composes the collector of [TeamMembership] with the
    writes of [AppState] under the policy of [WritePolicy]. *)

From S2P Require Import Prelude Str Repository Checks Evidence Metrics Run Projection WritePolicy.
From S2P Require Import Store Events Convert AppState.
From S2P Require Import Json Request Pagination Routes Budget RateLimit Auth Errors.
From S2P Require Import Client ClientRequests ClientState ClientAnswers ClientRuns TeamMembership.

Open Scope N_scope.

(** [WriteFailureContextOwned] ([app/write_policy.rs]), and its borrowed form. *)
Record WriteFailureContext := mkWriteFailureContext {
  wfc_org : option string;
  wfc_team_slug : option string;
  wfc_domain_key : option string;
  wfc_writer_id : option string;
}.
Definition WriteFailureContext_default : WriteFailureContext :=
  mkWriteFailureContext None None None None.

Record TickFailure := mkTickFailure {
  tick_error : AppError;
  tick_context : WriteFailureContext;
}.

(** [conflict_seq_fields]. *)
Definition tick_conflict_seq_fields (error : AppError) : option N * option N :=
  match error with
  | AE_Persistence (V_FencedConflict expected_seq actual_seq) => (expected_seq, actual_seq)
  | AE_RunOwnershipLost | AE_InvalidRunIdentity _ | AE_Inventory _ | AE_GitHubApi _
  | AE_Report _ | AE_Persistence _ | AE_Server _ | AE_Config _ => (None, None)
  end.

(** The fields [log_tick_failure] logs, at the level of a warning. *)
Definition log_tick_failure (error : AppError) (context : WriteFailureContext)
    : Level * (AppError * WriteFailureContext * (option N * option N)) :=
  (WARN, (error, context, tick_conflict_seq_fields error)).

Section TeamRefresh.
  Context {P : Pardosa} (jiff_string : Z -> option string).
  Context {B : Type} `{!Backend B NativeDomainEvent} `{!Backend B NativeOrgStateCaptured}
    `{!Backend B TeamEvent}.
  Context {V W : Type} `{!JsonValue V, !ClientEnv V W} (config : ClientConfig).
  Context (to_lowercase : string -> string) (format_timestamp : Auth.Timestamp -> string)
    (parse_team_member : V -> result string GhTeamMember)
    (parse_org_member : V -> result string GhOrgMember).
  (** What other tasks do to the service's state while the tick waits for
      GitHub. *)
  Context (meanwhile : AppWrites (B := B) -> AppWrites (B := B)).
  Notation M := (M V W).
  Notation AppWrites := (AppWrites (B := B)).

(** The body of the loop over the discovered teams. *)
Definition push_discovered (org : string) (team_pairs : list (string * string)) (slug : string)
    : list (string * string) :=
  if negb (existsb (fun p => eq_ignore_ascii_case (snd p) slug) team_pairs)
  then team_pairs ++ [("@" +:+ org +:+ "/" +:+ slug, slug)]
  else team_pairs.

Definition current_keys (org : string) (team_pairs : list (string * string)) : gset string :=
  list_to_set (omap (fun p => team_domain_key org (snd p)) team_pairs).

Definition write_team_event (org : string) (roster : TeamRoster) (fetched_at : string)
    (status : OrgMembershipFetchStatus) (detach : bool) (s : AppWrites)
    : result TickFailure () * AppWrites :=
  let '(outcome, s) :=
    if detach then write_with_policy (detach_team org roster fetched_at status) s
    else write_with_policy (record_team org roster fetched_at status) s in
  (map_err (fun write_failure =>
      mkTickFailure (AE_Persistence (failure_error write_failure))
        (mkWriteFailureContext (Some org) (Some (team_slug roster)) None None)) outcome, s).

(** [for roster in &rosters { .. }]. *)
Fixpoint write_rosters (org fetched_at : string) (status : OrgMembershipFetchStatus)
    (rosters : list TeamRoster) (s : AppWrites) : result TickFailure () * AppWrites :=
  match rosters with
  | [] => (Ok (), s)
  | roster :: rosters =>
    let detach := bool_decide (roster_status roster = TRS_Deleted) in
    let '(r, s) := write_team_event org roster fetched_at status detach s in
    match r with
    | Err failure => (Err failure, s)
    | Ok _ => write_rosters org fetched_at status rosters s
    end
  end.

(** [for (domain_key, stale_roster) in .. { .. }]. *)
Fixpoint detach_stale (org fetched_at : string) (status : OrgMembershipFetchStatus)
    (current_keys : gset string) (entries : list (string * TeamRoster)) (s : AppWrites)
    : result TickFailure () * AppWrites :=
  match entries with
  | [] => (Ok (), s)
  | (domain_key, stale_roster) :: entries =>
    if bool_decide (domain_key ∈ current_keys)
    then detach_stale org fetched_at status current_keys entries s
    else
      let '(r, s) := write_team_event org stale_roster fetched_at status true s in
      match r with
      | Err failure => (Err failure, s)
      | Ok _ => detach_stale org fetched_at status current_keys entries s
      end
  end.

(** The writes of a tick, once everything was read. *)
Definition tick_writes (org fetched_at : string) (status : OrgMembershipFetchStatus)
    (discovery : TeamDiscovery) (current_keys : gset string) (rosters : list TeamRoster)
    (s : AppWrites) : result TickFailure () * AppWrites :=
  let '(r, s) := write_rosters org fetched_at status rosters s in
  match r with
  | Err failure => (Err failure, s)
  | Ok _ =>
    if negb (authorizes_omission_detach discovery) then (Ok (), s)
    else
      detach_stale org fetched_at status current_keys
        (team_rosters_snapshot (projection_state s)) s
  end.

Definition run_team_refresh_tick (fetched_at : string) (s : AppWrites)
    : M (result TickFailure () * AppWrites) :=
  match ensure_write_admission s with
  | Err error => mret (Err (mkTickFailure (AE_Persistence error) WriteFailureContext_default), s)
  | Ok _ =>
    let org := Client.org_name config in
    let evidence_repos := sorted_snapshot (projection_state s) in
    team_discovery ← discover_org_teams config;
    let team_pairs :=
      fold_left (push_discovered org) (slugs team_discovery)
        (team_owner_slugs to_lowercase evidence_repos) in
    let current_keys := current_keys org team_pairs in
    rosters ← collect_team_rosters config to_lowercase format_timestamp parse_team_member team_pairs;
    org_members ← collect_org_members config to_lowercase parse_org_member;
    let org_membership_fetch_status :=
      match org_members with Some _ => Fetched | None => Degraded end in
    let rosters := enrich_team_rosters_with_org_membership to_lowercase rosters org_members in
    mret (tick_writes org fetched_at org_membership_fetch_status team_discovery current_keys rosters
            (meanwhile s))
  end.
End TeamRefresh.

(** ** Lemmas *)

(** What a bounded retry leaves of a view that failures do not change. *)
Lemma policy_view {E S T} `{!PersistenceError E} (op : S -> result E () * S) (view : S -> T) s r s' :
  (forall s e s', op s = (Err e, s') -> view s' = view s) ->
  write_with_policy op s = (r, s') ->
  match r with
  | Ok _ => exists s0, view s0 = view s /\ op s0 = (Ok (), s')
  | Err _ => view s' = view s
  end.
Proof.
  intros Hv E0. destruct (write_with_policy_spec op s) as (n & _ & Ht & _ & E1).
  rewrite E0 in E1. injection E1 as -> ->.
  assert (forall k, (k <= n)%nat -> view (state_before op k s) = view s) as Hk.
  { induction k as [|k IH]; intros Hk; [done|]. rewrite state_before_next -IH; [|lia].
    specialize (Ht k ltac:(lia)). unfold nth_result in Ht.
    destruct (op (state_before op k s)) as [[u|e] s1] eqn:E1; [done|]. by eapply Hv. }
  unfold reported, nth_result. rewrite Nat.add_1_r state_before_next.
  destruct (op (state_before op n s)) as [[[]|e] s1] eqn:E1; simpl.
  - exists (state_before op n s). by rewrite Hk.
  - rewrite -(Hk n); [|done]. by eapply Hv.
Qed.

Section Tick.
  Context {P : Pardosa} (jiff_string : Z -> option string).
  Context {B : Type} `{!Backend B NativeDomainEvent} `{!Backend B NativeOrgStateCaptured}
    `{!Backend B TeamEvent}.
  Notation AppWrites := (AppWrites (B := B)).

Lemma member_event_into m e : member_event m = Ok e -> team_member_into e = m.
Proof.
  unfold member_event. intros H. conv_chain H. unfold team_member_into; simpl.
  unfold non_empty, to_nes in E.
  destruct (check _ (login m)) as [l|] eqn:El; [|by case_match]. injection E as <-.
  rewrite /ne_str (check_Some _ _ _ El). by destruct m.
Qed.

Lemma members_event_into ms es : collect member_event ms = Ok es -> map team_member_into es = ms.
Proof.
  revert es. induction ms as [|m ms IH]; intros es; simpl; [by intros [= <-]|].
  intros H. conv_chain H. simpl. by rewrite (member_event_into _ _ E) (IH _ eq_refl).
Qed.

Lemma non_empty_str max field v s : non_empty max field v = Ok s -> ne_str s = v.
Proof.
  unfold non_empty, to_nes. destruct (check _ v) as [l|] eqn:El; [|by case_match].
  intros [= <-]. by rewrite /ne_str (check_Some _ _ _ El).
Qed.

(** A roster as the projection keeps it. *)
Definition stored_roster (org fetched_at : string) (r : TeamRoster) : TeamRoster :=
  mkTeamRoster ("@" +:+ org +:+ "/" +:+ team_slug r) (team_slug r) (roster_status r) (members r)
    (if is_empty fetched_at then None else Some fetched_at).

Lemma team_state_event_into org r f st e :
  team_state_event org r f st = Ok e ->
  team_event_into e = stored_roster org f r /\
  team_domain_key org (team_slug r) = Some (team_event_key e).
Proof.
  unfold team_state_event. intros H. conv_chain H.
  apply members_event_into in E. apply non_empty_str in E1, E2.
  unfold bounded_vec in E0. destruct (check _ a) as [v|] eqn:Ev; [|done]. injection E0 as <-.
  unfold bounded_string, to_es in E3. destruct (check _ f) as [t|] eqn:Et; [|done]. injection E3 as <-.
  apply check_Some in Ev, Et.
  unfold team_event_into, stored_roster, team_event_key, into_inner, Events.as_str;
    cbn [te_org te_team_slug te_members te_fetched_at te_status].
  rewrite E1 E2 Ev Et E. split; [done|].
  unfold team_domain_key. pose proof (ne_str_nonempty a1) as Ho. pose proof (ne_str_nonempty a2) as Hs.
  rewrite E1 in Ho. rewrite E2 in Hs. by rewrite Ho Hs.
Qed.

(** The event a write of the tick is. *)
Definition tick_event (org fetched_at : string) (st : OrgMembershipFetchStatus) (detach : bool)
    (r : TeamRoster) : result ErrorView TeamEvent :=
  team_state_event org (if detach then detach_tombstone_roster r else r) fetched_at st.

Lemma tick_event_key org f st detach r e : tick_event org f st detach r = Ok e ->
  team_domain_key org (team_slug r) = Some (team_event_key e).
Proof. intros [_ H]%team_state_event_into. by destruct detach. Qed.

Lemma record_team_view org r f st s x s' :
  record_team org r f st s = (x, s') ->
  match x with
  | Ok _ => exists e, tick_event org f st false r = Ok e /\
      projection_state s' = apply (projection_state s) (team_projection_event false e)
  | Err _ => projection_state s' = projection_state s
  end.
Proof.
  destruct x as [u|x]; intros E.
  - unfold record_team, admitted_write in E. destruct (write_admission s); [done|].
    unfold tick_event. destruct (team_state_event org r f st) as [e|x]; [|by destruct x].
    unfold record_primary in E.
    destruct (store_record _ _ (event_store s)) as [[v|x] st1]; [|by destruct (native_store_persistence x)].
    destruct (store_record _ e _) as [[v'|x] st2]; [|done]. injection E as _ <-. by exists e.
  - pose proof (run_op_latched (fun _ => None) jiff_string (W_RecordTeam org r f st) s) as Hl.
    cbn [run_op] in Hl. rewrite E in Hl. unfold latched_answer in Hl.
    destruct (write_admission s); [by injection Hl as _ ->|]. by destruct x; destruct Hl.
Qed.

Lemma detach_team_view org r f st s x s' :
  detach_team org r f st s = (x, s') ->
  match x with
  | Ok _ => exists e, tick_event org f st true r = Ok e /\
      projection_state s' = apply (projection_state s) (team_projection_event true e)
  | Err _ => projection_state s' = projection_state s
  end.
Proof.
  destruct x as [u|x]; intros E.
  - unfold detach_team, admitted_write in E. destruct (write_admission s); [done|].
    unfold tick_event. destruct (team_state_event org _ f st) as [e|x]; [|by destruct x]. cbv zeta in E.
    destruct (store_detach _ _ (event_store s)) as [[v|x] st1]; [|by destruct (native_store_persistence x)].
    destruct (store_detach _ e _) as [[v'|x] st2]; [|by destruct v, (native_store_persistence x)].
    injection E as _ <-. by exists e.
  - pose proof (run_op_latched (fun _ => None) jiff_string (W_DetachTeam org r f st) s) as Hl.
    cbn [run_op] in Hl. rewrite E in Hl. unfold latched_answer in Hl.
    destruct (write_admission s); [by injection Hl as _ ->|]. by destruct x; destruct Hl.
Qed.

(** One write of the tick, as the projection sees it. *)
Lemma write_team_event_view org r f st detach s x s' :
  write_team_event org r f st detach s = (x, s') ->
  match x with
  | Ok _ => exists e, tick_event org f st detach r = Ok e /\
      projection_state s' = apply (projection_state s) (team_projection_event detach e)
  | Err failure => projection_state s' = projection_state s /\
      tick_context failure = mkWriteFailureContext (Some org) (Some (team_slug r)) None None
  end.
Proof.
  unfold write_team_event. intros E.
  assert (exists y, (if detach then write_with_policy (detach_team org r f st) s
    else write_with_policy (record_team org r f st) s) = (y, s') /\
    x = map_err (fun w => mkTickFailure (AE_Persistence (failure_error w))
      (mkWriteFailureContext (Some org) (Some (team_slug r)) None None)) y) as (y & Ey & ->).
  { destruct (if detach then _ else _) as [y s1]. injection E as <- <-. by exists y. }
  destruct detach; apply (policy_view _ projection_state) in Ey;
    try (intros; by eapply (record_team_view _ _ _ _ _ (Err _)));
    try (intros; by eapply (detach_team_view _ _ _ _ _ (Err _))).
  - destruct y; [|done]. destruct Ey as (s0 & <- & H). by apply detach_team_view in H.
  - destruct y; [|done]. destruct Ey as (s0 & <- & H). by apply record_team_view in H.
Qed.

(** ** What a tick leaves of each team *)

Notation live s := (p_team_rosters (projection_state s)).

(** The roster of every team is kept under its key in this organization. *)
Definition keyed (org : string) (s : AppWrites) : Prop :=
  forall key r, live s !! key = Some r -> team_domain_key org (team_slug r) = Some key.

(** What writing a roster does to the team of [key], if it is that team's. *)
Definition roster_op (org fetched_at key : string) (r : TeamRoster) : option (fiber_op TeamRoster) :=
  if decide (team_domain_key org (team_slug r) = Some key) then
    Some (if decide (roster_status r = TRS_Deleted) then Removal
          else Observation (stored_roster org fetched_at r))
  else None.

Definition step_team (v : option TeamRoster) (o : option (fiber_op TeamRoster))
    : option TeamRoster :=
  match o with Some o => guarded_step roster_complete v o | None => v end.

(** One successful write, at every key. *)
Lemma written_live org f st detach r (s s' : AppWrites) e key :
  tick_event org f st detach r = Ok e ->
  projection_state s' = apply (projection_state s) (team_projection_event detach e) ->
  live s' !! key =
    if decide (team_domain_key org (team_slug r) = Some key) then
      guarded_step roster_complete (live s !! key)
        (if detach then Removal else Observation (stored_roster org f r))
    else live s !! key.
Proof.
  intros He Hp. pose proof (tick_event_key _ _ _ _ _ _ He) as Hk. rewrite Hp view_team Hk.
  apply team_state_event_into in He as [Hi _]. unfold team_projection_event.
  fold (team_event_key e). rewrite Hi. cbn [team_op].
  destruct detach; cbn [team_op]; repeat case_decide; try done; congruence.
Qed.

Lemma write_team_event_live org f st r detach s x s' key :
  write_team_event org r f st detach s = (x, s') ->
  live s' !! key =
    match x with
    | Ok _ =>
      if decide (team_domain_key org (team_slug r) = Some key) then
        guarded_step roster_complete (live s !! key)
          (if detach then Removal else Observation (stored_roster org f r))
      else live s !! key
    | Err _ => live s !! key
    end.
Proof.
  intros E%write_team_event_view. destruct x as [u|x].
  - destruct E as (e & He & Hp). by apply (written_live _ _ _ _ _ _ _ _ key He Hp).
  - by destruct E as [-> _].
Qed.

Lemma stored_slug org f r : team_slug (stored_roster org f r) = team_slug r.
Proof. done. Qed.

Lemma write_keeps_keyed org f st r detach s x s' :
  write_team_event org r f st detach s = (x, s') -> keyed org s -> keyed org s'.
Proof.
  intros E H key r'. rewrite (write_team_event_live _ _ _ _ _ _ _ _ key E).
  destruct x; [|apply H]. destruct (decide _) as [Hk|_]; [|apply H].
  destruct detach; [done|]. simpl. case_match; [|apply H]. by intros [= <-].
Qed.

(** The writes of the rosters: a team that is no longer shown was reported as
    deleted, and when all succeed every team is shown as its rosters say. *)
Lemma write_rosters_live org f st rosters s x s' :
  write_rosters org f st rosters s = (x, s') ->
  (keyed org s -> keyed org s') /\
  (forall key, live s' !! key = None -> is_Some (live s !! key) ->
     exists r, r ∈ rosters /\ roster_status r = TRS_Deleted /\
       team_domain_key org (team_slug r) = Some key) /\
  (x = Ok () -> forall key,
     live s' !! key = fold_left (fun v r => step_team v (roster_op org f key r)) rosters (live s !! key)).
Proof.
  revert s. induction rosters as [|r rosters IH]; intros s; cbn [write_rosters].
  { intros [= <- <-]. split_and!; [done| |done]. intros key -> [? ?]. done. }
  destruct (write_team_event _ _ _ _ _ _) as [y s1] eqn:E.
  pose proof (write_keeps_keyed _ _ _ _ _ _ _ _ E) as Hk1.
  pose proof (fun key => write_team_event_live _ _ _ _ _ _ _ _ key E) as Hl.
  assert (forall key, live s1 !! key = None -> is_Some (live s !! key) ->
    roster_status r = TRS_Deleted /\ team_domain_key org (team_slug r) = Some key) as Hgone.
  { intros key Hn [v Hv]. rewrite Hl in Hn. destruct y; [|congruence].
    destruct (decide _) as [Hk|_]; [|congruence].
    case_bool_decide as Hd; [done|]. rewrite Hv in Hn. simpl in Hn. by case_match. }
  destruct y as [[]|failure].
  - intros E2. destruct (IH _ E2) as (K2 & G2 & O2). split_and!; [auto| |].
    + intros key Hn Hs. destruct (live s1 !! key) as [v|] eqn:Ev.
      * destruct (G2 key Hn) as (r' & ? & ?); [by rewrite Ev|]. exists r'. set_solver.
      * exists r. split; [set_solver|]. by apply Hgone.
    + intros -> key. rewrite (O2 eq_refl key) Hl. cbn [fold_left]. f_equal.
      unfold step_team, roster_op. case_bool_decide; repeat case_decide; naive_solver.
  - intros [= <- <-]. split_and!; [done| |done].
    intros key Hn Hs. exists r. split; [set_solver|]. by apply Hgone.
Qed.

(** The detachment of the teams that were not seen. *)
Lemma detach_stale_live org f st keys entries s x s' :
  Forall (fun e => team_domain_key org (team_slug (snd e)) = Some (fst e)) entries ->
  detach_stale org f st keys entries s = (x, s') ->
  (forall key, live s' !! key = None -> is_Some (live s !! key) -> key ∉ keys) /\
  (x = Ok () -> forall key, live s' !! key =
     if decide (key ∉ keys /\ key ∈ map fst entries) then None else live s !! key).
Proof.
  intros Hall. revert s. induction Hall as [|[k r] entries Hk _ IH]; intros s; cbn [detach_stale].
  { intros [= <- <-]. split; [intros key -> [? ?]; done|]. intros _ key.
    rewrite decide_False //. set_solver. }
  simpl in Hk. case_bool_decide as Hin.
  { intros E. destruct (IH _ E) as [H1 H2]. split; [done|]. intros Hx key. rewrite (H2 Hx key).
    repeat case_decide; set_solver. }
  destruct (write_team_event _ _ _ _ _ _) as [y s1] eqn:E.
  pose proof (fun key => write_team_event_live _ _ _ _ _ _ _ _ key E) as Hl. rewrite Hk in Hl.
  assert (forall key, live s1 !! key = None -> is_Some (live s !! key) -> key ∉ keys) as Hgone.
  { intros key Hn [v Hv]. rewrite Hl in Hn. destruct y; [|congruence].
    destruct (decide _) as [[= <-]|_]; congruence. }
  destruct y as [[]|failure].
  - intros E2. destruct (IH _ E2) as [G2 O2]. split.
    + intros key Hn Hs. destruct (live s1 !! key) as [v|] eqn:Ev; [|by apply Hgone].
      apply G2; [done|by rewrite Ev].
    + intros Hx key. rewrite (O2 Hx key) Hl. cbn [map fst guarded_step].
      destruct (decide (key = k)) as [->|Hne].
      * rewrite (decide_True (P := Some k = Some k)) //.
        rewrite (decide_True (P := k ∉ keys /\ k ∈ k :: map fst entries)); [|set_solver].
        by case_decide.
      * rewrite (decide_False (P := Some k = Some key)); [|naive_solver].
        repeat case_decide; set_solver.
  - intros [= <- <-]. split; [apply Hgone|done].
Qed.

Lemma keyed_snapshot org (s : AppWrites) : keyed org s ->
  Forall (fun e => team_domain_key org (team_slug (snd e)) = Some (fst e))
    (team_rosters_snapshot (projection_state s)).
Proof.
  intros H. apply Forall_forall. intros [k r] Hin%elem_of_btree_entries. by apply H.
Qed.

Lemma in_snapshot key (s : AppWrites) :
  key ∈ map fst (team_rosters_snapshot (projection_state s)) <-> is_Some (live s !! key).
Proof.
  rewrite list_elem_of_fmap. split.
  - intros ([k r] & -> & Hin%elem_of_btree_entries). by exists r.
  - intros [r Hr]. exists (key, r). split; [done|]. by apply elem_of_btree_entries.
Qed.

(** All the writes of a tick. *)
Lemma tick_writes_live org f st d keys rosters s x s' :
  keyed org s -> tick_writes org f st d keys rosters s = (x, s') ->
  (forall key, live s' !! key = None -> is_Some (live s !! key) ->
     (exists r, r ∈ rosters /\ roster_status r = TRS_Deleted /\
        team_domain_key org (team_slug r) = Some key) \/
     (gap d = None /\ key ∉ keys)) /\
  (x = Ok () -> forall key, live s' !! key =
     if decide (gap d = None /\ key ∉ keys) then None
     else fold_left (fun v r => step_team v (roster_op org f key r)) rosters (live s !! key)).
Proof.
  intros Hk. unfold tick_writes.
  destruct (write_rosters _ _ _ _ _) as [y s1] eqn:E1.
  destruct (write_rosters_live _ _ _ _ _ _ _ E1) as (K1 & G1 & O1).
  destruct y as [[]|failure]; last first.
  { intros [= <- <-]. split; [|done]. intros key Hn Hs. left. by apply G1. }
  unfold authorizes_omission_detach. destruct (gap d) as [g|] eqn:Eg; cbn [negb].
  { intros [= <- <-]. split; [intros key Hn Hs; left; by apply G1|].
    intros _ key. destruct (decide _) as [[? _]|_]; [done|]. by apply O1. }
  intros E2. destruct (detach_stale_live _ _ _ _ _ _ _ _ (keyed_snapshot _ _ (K1 Hk)) E2) as [G2 O2].
  split.
  - intros key Hn Hs. destruct (live s1 !! key) as [v|] eqn:Ev.
    + right. split; [done|]. apply G2; [done|by rewrite Ev].
    + left. by apply G1.
  - intros Hx key. rewrite (O2 Hx key) -(O1 eq_refl key).
    pose proof (in_snapshot key s1) as Hin. destruct (decide (key ∉ keys /\ _)) as [[H1 H2]|H].
    { by rewrite decide_True. }
    destruct (decide (None = None /\ key ∉ keys)) as [[_ H1]|_]; [|done].
    destruct (live s1 !! key) eqn:Ev; [|done]. destruct H. split; [done|]. by apply Hin.
Qed.

(** ** The teams a tick reads *)

Lemma push_discovered_spec org found pairs :
  let out := fold_left (push_discovered org) found pairs in
  (forall p, p ∈ pairs -> p ∈ out) /\
  (forall p, p ∈ out -> p ∈ pairs \/ snd p ∈ found) /\
  (forall slug, slug ∈ found -> exists p, p ∈ out /\ eq_ignore_ascii_case (snd p) slug = true).
Proof.
  revert pairs. induction found as [|slug found IH]; intros pairs; cbn [fold_left].
  { split_and!; [done|by left|]. intros slug H. by apply not_elem_of_nil in H. }
  destruct (IH (push_discovered org pairs slug)) as (I1 & I2 & I3).
  assert ((forall p, p ∈ pairs -> p ∈ push_discovered org pairs slug) /\
    (forall p, p ∈ push_discovered org pairs slug -> p ∈ pairs \/ snd p = slug) /\
    exists p, p ∈ push_discovered org pairs slug /\ eq_ignore_ascii_case (snd p) slug = true)
    as (P1 & P2 & (q & Q1 & Q2)).
  { unfold push_discovered. destruct (existsb _ pairs) eqn:E; cbn [negb].
    - split_and!; [done|by left|]. apply existsb_exists in E as (p & Hp & He).
      exists p. split; [by apply list_elem_of_In|done].
    - split_and!; [set_solver| |].
      + intros p [Hp|Hp]%elem_of_app; [by left|right].
        by apply list_elem_of_singleton in Hp as ->.
      + eexists. split; [apply elem_of_app; right; by apply list_elem_of_singleton|].
        apply eq_ignore_ascii_case_refl. }
  split_and!.
  - auto.
  - intros p Hp. destruct (I2 p Hp) as [H|H]; [|set_solver]. destruct (P2 p H) as [?| ->]; set_solver.
  - intros sl [->|H]%elem_of_cons; [|by apply I3]. exists q. auto.
Qed.

(** ** Ticks *)

Section Ticks.
  Context {V W : Type} `{!JsonValue V, !ClientEnv V W, !JsonArrays V W} (config : ClientConfig).
  Context (to_lowercase : string -> string) (format_timestamp : Auth.Timestamp -> string)
    (parse_team_member : V -> result string GhTeamMember)
    (parse_org_member : V -> result string GhOrgMember).
  Context (meanwhile : AppWrites -> AppWrites).
  Implicit Type cl : Client V W.

Notation org := (Client.org_name config).
Notation tick := (run_team_refresh_tick config to_lowercase format_timestamp parse_team_member
  parse_org_member meanwhile).
Notation read_rosters := (collect_team_rosters config to_lowercase format_timestamp parse_team_member).
Notation read_org := (collect_org_members config to_lowercase parse_org_member).

(** The teams that CODEOWNERS files name, and all the teams of a tick. *)
Definition owner_teams (s : AppWrites) : list (string * string) :=
  team_owner_slugs to_lowercase (sorted_snapshot (projection_state s)).
Definition tick_teams (s : AppWrites) (d : TeamDiscovery) : list (string * string) :=
  fold_left (push_discovered org) (slugs d) (owner_teams s).

(** What an admitted tick read and did. *)
Lemma tick_run fetched_at s cl x s' cl' :
  tick fetched_at s cl = Some ((x, s'), cl') -> write_admission s = None ->
  exists d cl1 rosters cl2 set,
    discover_org_teams config cl = Some (d, cl1) /\
    read_rosters (tick_teams s d) cl1 = Some (rosters, cl2) /\
    read_org cl2 = Some (set, cl') /\
    tick_writes org fetched_at (match set with Some _ => Fetched | None => Degraded end) d
      (current_keys org (tick_teams s d))
      (enrich_team_rosters_with_org_membership to_lowercase rosters set) (meanwhile s) = (x, s').
Proof.
  unfold run_team_refresh_tick, ensure_write_admission. intros E Ha. rewrite Ha in E.
  apply bind_Some in E as (d & cl1 & E1 & E). apply bind_Some in E as (rs & cl2 & E2 & E).
  apply bind_Some in E as (set & cl3 & E3 & E). injection E as E <-.
  by exists d, cl1, rs, cl2, set.
Qed.

(** C21: what a successful tick leaves is what it read.  Every team shows its
    latest complete roster of those kept and just read, checked against the
    organization's members, or nothing when it was reported as deleted; and
    when the enumeration of teams was complete, a team whose key is not among
    those of the tick shows nothing. *)
Theorem tick_exact fetched_at s cl s' cl' :
  keyed org (meanwhile s) ->
  tick fetched_at s cl = Some ((Ok (), s'), cl') ->
  exists d cl1 rosters cl2 set,
    discover_org_teams config cl = Some (d, cl1) /\
    read_rosters (tick_teams s d) cl1 = Some (rosters, cl2) /\
    read_org cl2 = Some (set, cl') /\
    forall key, live s' !! key =
      if decide (gap d = None /\ key ∉ current_keys org (tick_teams s d)) then None
      else fold_left (fun v r => step_team v (roster_op org fetched_at key r))
             (enrich_team_rosters_with_org_membership to_lowercase rosters set)
             (live (meanwhile s) !! key).
Proof.
  intros Hk E. assert (write_admission s = None) as Ha.
  { unfold run_team_refresh_tick, ensure_write_admission in E. by destruct (write_admission s). }
  destruct (tick_run _ _ _ _ _ _ E Ha) as (d & cl1 & rs & cl2 & set & E1 & E2 & E3 & E4).
  exists d, cl1, rs, cl2, set. split_and!; [done..|].
  by apply (tick_writes_live _ _ _ _ _ _ _ _ _ Hk E4).
Qed.

(** C20: a tick, whether it succeeds or not, stops showing a team only for a
    reason that GitHub gave: a 404 on that team's members, or a list of the
    organization's teams that was walked to its end, whose every entry could be
    read, and that does not name the team (unless a CODEOWNERS file names a
    listed team by another spelling of its slug); nor does any CODEOWNERS file
    name it.  So a failed, truncated or unreadable answer never hides a team. *)
Theorem tick_detaches_gone_teams fetched_at s cl x s' cl' key :
  gone_ok config cl -> write_admission s = None -> keyed org (meanwhile s) ->
  tick fetched_at s cl = Some ((x, s'), cl') ->
  is_Some (live (meanwhile s) !! key) -> live s' !! key = None ->
  (exists slug safe, team_domain_key org slug = Some key /\
     sanitize_path_segment slug "team_slug" = Ok safe /\
     refused_page config (members_url config safe) 404 (trace cl')) \/
  (exists found, enumerated config found (trace cl') /\
     (forall p, p ∈ owner_teams s -> team_domain_key org (snd p) <> Some key) /\
     (forall slug, slug ∈ found -> team_domain_key org slug = Some key ->
        exists p, p ∈ tick_teams s (TeamDiscovery_complete found) /\ snd p <> slug /\
          eq_ignore_ascii_case (snd p) slug = true)).
Proof.
  intros Hg Ha Hk E Hs Hn.
  destruct (tick_run _ _ _ _ _ _ E Ha) as (d & cl1 & rs & cl2 & set & E1 & E2 & E3 & E4).
  pose proof (discovery_keeps_deleted _ _ _ _ E1) as Hd.
  apply effect_discover in E1 as (es1 & T1 & H1).
  assert (gone_ok config cl1) as Hg1 by (by eapply gone_ok_grow).
  destruct (rosters_collected _ _ _ _ _ _ _ _ Hg1 E2) as (_ & (es2 & T2) & Hall).
  apply org_members_grow in E3 as (es3 & T3).
  destruct (proj1 (tick_writes_live _ _ _ _ _ _ _ _ _ Hk E4) key Hn Hs)
    as [(r & Hr & Hdel & Hkey)|[Hgap Hkey]].
  - left. apply list_elem_of_fmap in Hr as (r0 & -> & Hr). simpl in Hdel, Hkey.
    apply list_elem_of_lookup_1 in Hr as [i Hr].
    destruct (Forall2_lookup_r _ _ _ _ _ Hall Hr) as (t & _ & _ & _ & Hrest).
    unfold roster_rests in Hrest. rewrite Hdel in Hrest. destruct Hrest as (_ & safe & Hsafe & Href).
    exists (team_slug r0), safe. split_and!; [done|done|]. rewrite T3. by apply refused_page_l.
  - right. exists (slugs d). destruct d as [found g]. simpl in *. subst g.
    destruct (push_discovered_spec org found (owner_teams s)) as (P1 & _ & P3).
    assert (forall p, p ∈ tick_teams s (mkTeamDiscovery found None) -> team_domain_key org (snd p) <> Some key) as Hno.
    { intros p Hp He. apply Hkey. unfold current_keys. apply elem_of_list_to_set, list_elem_of_omap. eauto. }
    split_and!.
    + destruct (H1 eq_refl) as (items & Hl & H2). exists items. split; [|done].
      rewrite T3 T2 T1 -!app_assoc. by apply listed_app.
    + intros p Hp. by apply Hno, P1.
    + intros slug Hin Hslug. destruct (P3 _ Hin) as (p & Hp & He). exists p.
      split_and!; [done| |done]. intros <-. by apply (Hno p Hp).
Qed.
End Ticks.
End Tick.

(** A team once answered with 404 stays deleted for the client, whatever GitHub
    would say: it is not asked again, even when the enumeration names it. *)
Lemma remembered_team_stays_deleted {V W} `{!JsonValue V, !ClientEnv V W} config lc fmt parse owner slug safe
    (cl : Client V W) :
  sanitize_path_segment slug "team_slug" = Ok safe -> safe ∈ deleted_team_slugs cl ->
  collect_one_team_roster config lc fmt parse owner slug cl =
    Some (degraded_roster owner slug TRS_Deleted, cl).
Proof.
  intros Hs Hin. unfold collect_one_team_roster. rewrite Hs.
  unfold is_known_deleted_team, gets, mbind, M_bind. by rewrite bool_decide_eq_true_2.
Qed.

(** ** Ticks against the scripted server *)

#[local] Existing Instance plain_pardosa.
#[local] Existing Instance plain_backend.

Notation sample_tick :=
  (run_team_refresh_tick sample_config to_ascii_lowercase sample_clock sample_team_member
     sample_org_member id "t2").

(** The service shows one team. *)
Definition showing (slug : string) : AppWrites (B := ()) :=
  snd (write_team_event "acme" (mkTeamRoster ("@acme/" +:+ slug) slug TRS_Complete [] None) "t1"
         Fetched false empty_writes).

Lemma showing_keyed slug : keyed "acme" (showing slug).
Proof.
  refine (write_keeps_keyed plain_jiff _ _ _ _ _ _ _ _ (surjective_pairing _) _).
  intros key r H. vm_compute in H. discriminate H.
Qed.

Definition key_of (slug : string) : string := default "" (team_domain_key "acme" slug).

(** What a tick shows of a team, before and after: its members and status. *)
Definition shown (slug : string) (s : AppWrites (B := ())) : option (TeamRosterStatus * nat) :=
  option_map (fun r => (roster_status r, length (members r)))
    (p_team_rosters (projection_state s) !! key_of slug).

Definition good_server : list SendResult :=
  [ok_page [] "[teams]"; ok_page [] "[team members]"; ok_page [] "[org members]"].

(** The outcome of a tick, and what it shows of both teams. *)
Definition tick_summary (s : AppWrites (B := ())) (answers : list SendResult)
    : option (bool * option (TeamRosterStatus * nat) * option (TeamRosterStatus * nat)) :=
  option_map (fun r => (match fst (fst r) with Ok _ => true | Err _ => false end,
                        shown "core" (snd (fst r)), shown "platform" (snd (fst r))))
    (sample_tick s (sample_client answers)).

Lemma tick_summary_run s answers b c p : tick_summary s answers = Some (b, c, p) ->
  exists x s' cl', sample_tick s (sample_client answers) = Some ((x, s'), cl') /\
    (b = true -> x = Ok ()) /\ shown "core" s' = c /\ shown "platform" s' = p.
Proof.
  unfold tick_summary. destruct (sample_tick _ _) as [[[x s'] cl']|]; [|done].
  intros [= <- <- <-]. exists x, s', cl'. split_and!; [done| |done|done]. by destruct x as [[]|].
Qed.

(** The enumeration names [platform] alone: [core] is detached, [platform]
    recorded, and who left the organization is flagged. *)
Lemma tick_exact_witness :
  exists s' cl', sample_tick (showing "core") (sample_client good_server) = Some ((Ok (), s'), cl') /\
    shown "core" s' = None /\ shown "platform" s' = Some (TRS_Complete, 2%nat) /\
    exists d cl1, discover_org_teams sample_config (sample_client good_server) = Some (d, cl1) /\
      forall key, gap d = None ->
        key ∉ current_keys "acme" (tick_teams sample_config to_ascii_lowercase (showing "core") d) ->
        p_team_rosters (projection_state s') !! key = None.
Proof.
  destruct (tick_summary_run (showing "core") good_server true None (Some (TRS_Complete, 2%nat)))
    as (x & s' & cl' & E & Hx & Hc & Hp); [vm_compute; reflexivity|].
  rewrite (Hx eq_refl) in E. exists s', cl'. split; [exact E|]. split; [exact Hc|]. split; [exact Hp|].
  destruct (tick_exact plain_jiff sample_config to_ascii_lowercase sample_clock sample_team_member
    sample_org_member id "t2" (showing "core") (sample_client good_server) s' cl'
    (showing_keyed "core") E) as (d & cl1 & rs & cl2 & set & E1 & _ & _ & H).
  exists d, cl1. split; [exact E1|]. intros key Hg Hkey. rewrite H.
  destruct (decide _) as [|Hn]; [reflexivity|]. destruct (Hn (conj Hg Hkey)).
Defined.

Definition refusing_server : list SendResult :=
  [ok_page [] "[teams]"; error_page 404 "gone"; ok_page [] "[org members]"].

(** [platform] is gone: GitHub lists it, but answers 404 for its members. *)
Lemma tick_detaches_gone_teams_witness :
  exists x s' cl', sample_tick (showing "platform") (sample_client refusing_server) = Some ((x, s'), cl') /\
    shown "platform" (showing "platform") = Some (TRS_Complete, 0%nat) /\
    shown "platform" s' = None /\
    ((exists slug safe, team_domain_key "acme" slug = Some (key_of "platform") /\
        sanitize_path_segment slug "team_slug" = Ok safe /\
        refused_page sample_config (members_url sample_config safe) 404 (trace cl')) \/
     (exists found, enumerated sample_config found (trace cl'))).
Proof.
  destruct (tick_summary_run (showing "platform") refusing_server true None None)
    as (x & s' & cl' & E & _ & _ & Hp); [vm_compute; reflexivity|].
  exists x, s', cl'. split; [exact E|]. split; [vm_compute; reflexivity|]. split; [exact Hp|].
  destruct (tick_detaches_gone_teams plain_jiff sample_config to_ascii_lowercase sample_clock
    sample_team_member sample_org_member id "t2" (showing "platform") (sample_client refusing_server)
    x s' cl' (key_of "platform") (sample_gone_ok _) eq_refl (showing_keyed "platform") E)
    as [H|(found & H & _)].
  - vm_compute. eexists. reflexivity.
  - unfold shown in Hp. destruct (p_team_rosters (projection_state s') !! _); [discriminate Hp|reflexivity].
  - left. exact H.
  - right. exists found. exact H.
Defined.

(** GitHub restored the team, and lists it again: the next tick does not ask
    for its members, and still does not show it. *)
Example restored_team_stays_hidden :
  match sample_tick (showing "platform") (sample_client refusing_server) with
  | Some ((_, s'), cl') =>
    option_map (fun r => (shown "platform" (snd (fst r)), count is_get (trace (snd r))))
      (sample_tick s' (with_world good_server cl'))
    = Some (None, count is_get (trace cl') + 2)%nat
  | None => False
  end.
Proof. vm_compute. reflexivity. Qed.

(** An enumeration that fails hides nothing. *)
Example failed_enumeration_hides_nothing :
  tick_summary (showing "core") [error_page 403 "forbidden"; ok_page [] "[org members]"]
  = Some (true, Some (TRS_Complete, 0%nat), None).
Proof. vm_compute. reflexivity. Qed.
