(* ===== verification/Webhook.v ===== *)
(** * The webhook receiver ([webhook/*.rs], [app/webhook_context.rs])

    A delivery from its headers and bytes to its status: the check of its
    signature, the mapping of its event to an action, the replay cache, the
    debounce of pushes, and the execution of the action.  The repository store
    is reached through the interface [EvidenceStore], which the write facade
    implements; the HMAC, the JSON deserializers, the two caches and the work
    queue belong to libraries. *)

From S2P Require Import Prelude Str Repository Evidence Projection WritePolicy Store Events.
From S2P Require Import Metrics Codeowners Convert AppState.

Open Scope N_scope.

(** [config]. *)
Definition DEFAULT_WEBHOOK_DEBOUNCE_SECS : N := 5.

(** ** Signatures ([webhook/signature.rs]) *)

(** [char::to_digit(16)]. *)
Definition hex_digit (c : Ascii.ascii) : option N :=
  let n := Ascii.N_of_ascii c in
  if in_range 48 57 n then Some (n - 48)
  else if in_range 97 102 n then Some (n - 87)
  else if in_range 65 70 n then Some (n - 55)
  else None.

(** [u8::from_str_radix(pair, 16)] on two bytes: a leading plus sign is
    accepted. *)
Definition parse_pair (a b : Ascii.ascii) : option N :=
  if Ascii.eqb a "+" then hex_digit b
  else hi ← hex_digit a; lo ← hex_digit b; Some (16 * hi + lo).

Fixpoint decode_pairs (s : string) : option (list N) :=
  match s with
  | EmptyString => Some []
  | String a (String b s) => v ← parse_pair a b; vs ← decode_pairs s; Some (v :: vs)
  | String _ EmptyString => None
  end.

Definition is_ascii (s : string) : bool :=
  forallb (fun b => b <? 128) (to_bytes s).

Definition hex_decode (s : string) : option (list N) :=
  if negb (is_ascii s) || negb (Nat.even (String.length s)) then None else decode_pairs s.

(** ** Payloads and actions ([webhook/events.rs]) *)

Record WebhookRepository := mkWebhookRepository {
  wr_id : N;
  wr_node_id : option string;
  wr_name : string;
  wr_full_name : option string;
  wr_visibility : option string;
  wr_default_branch : option string;
  wr_archived : bool;
  wr_html_url : option string;
}.

Record WebhookPayload := mkWebhookPayload {
  wp_repository : option WebhookRepository;
  wp_action : option string;
}.

Record PushRepository := mkPushRepository {
  pr_id : N;
  pr_name : string;
  pr_default_branch : string;
}.

Record PushCommit := mkPushCommit {
  pc_added : list string;
  pc_modified : list string;
  pc_removed : list string;
}.

Record PushEvent := mkPushEvent {
  ref_field : string;
  push_repository : PushRepository;
  commits : list PushCommit;
}.

Inductive WebhookError := InvalidJson (e : string) | MissingRepository.

Definition WebhookError_display (e : WebhookError) : string :=
  match e with
  | InvalidJson e => "invalid JSON: " +:+ e
  | MissingRepository => "missing repository field"
  end.

Inductive WebhookAction :=
| Enqueue (inventory_key : string) (repo : Repository)
| Remove (inventory_key : string)
| Ignore.

Definition SECURITY_PATHS : list string := ["SECURITY.md"; ".github/SECURITY.md"; "docs/SECURITY.md"].
Definition CODEOWNERS_PATHS : list string := [".github/CODEOWNERS"; "CODEOWNERS"].

Definition touches (file : string) : bool :=
  existsb (String.eqb file) SECURITY_PATHS || existsb (String.eqb file) CODEOWNERS_PATHS.

Definition is_security_relevant_push (payload : PushEvent) : bool :=
  match strip_prefix "refs/heads/" (ref_field payload) with
  | None => false
  | Some ref_name =>
    if negb (String.eqb ref_name (pr_default_branch (push_repository payload))) then false
    else
      existsb (fun commit => existsb touches (pc_added commit ++ pc_modified commit ++ pc_removed commit))
        (commits payload)
  end.

Definition build_repository_from_payload (payload : WebhookRepository) : Repository :=
  mkRepository (pretty (wr_id payload)) (wr_node_id payload) (wr_name payload)
    match wr_visibility payload with
    | Some v =>
      if String.eqb v "public" then Public else if String.eqb v "internal" then Internal else Private
    | None => Private
    end
    None (default "main" (wr_default_branch payload)) (wr_archived payload)
    (pretty (wr_id payload)) None false None None None false false (wr_html_url payload) [] None.

(** The repository of a push that the store does not know. *)
Definition push_fallback (inventory_key repo_name : string) : Repository :=
  mkRepository inventory_key None repo_name Private None "main" false inventory_key None false
    None None None false false None [] None.

(** ** What the handler needs of the rest of the service *)

(** The repository store: [projection_get] and [remove_repo]. *)
Class EvidenceStore (S : Type) := {
  es_get : string -> S -> option RepositoryEvidence;
  es_remove : string -> string -> string -> S -> result ErrorView () * S;
}.

(** What the store promises: a removal that succeeds hides the repository and
    no other, one that fails hides nothing. *)
Class EvidenceStoreLaws (S : Type) `{!EvidenceStore S} : Prop := {
  es_remove_ok : forall key name t s s', es_remove key name t s = (Ok (), s') ->
    es_get key s' = None /\ forall key', key' <> key -> es_get key' s' = es_get key' s;
  es_remove_err : forall key name t s e s', es_remove key name t s = (Err e, s') ->
    forall key', es_get key' s' = es_get key' s;
}.

(** What identifies a job; its correlation context is empty. *)
Record JobSpec := mkJobSpec {
  job_key : string;
  job_repo : Repository;
  job_run_timestamp : string;
  job_delivery : string;
  job_kind : string;
}.

Inductive EnqueueResult := Accepted | Deduplicated | QueueFull.

(** The libraries: [hmac], the deserializers of [serde_json], [moka]'s caches
    and the work queue of [cherry_pit_wq]. *)
Class WebhookEnv (R D Q : Type) := {
  hmac_sha256 : string -> string -> list N;
  parse_payload : string -> result string WebhookPayload;
  parse_push : string -> result string PushEvent;
  (** [cache.entry(key).or_insert(()).await.is_fresh()]. *)
  replay_or_insert : string -> R -> bool * R;
  (** A cache whose entries expire: the read and the write take the time. *)
  debounce_get : string -> N -> D -> option N;
  debounce_insert : string -> N -> N -> D -> D;
  enqueue : JobSpec -> Q -> EnqueueResult * Q;
}.

Record Webhook (S R D Q : Type) := mkWebhook {
  wh_store : S;
  wh_secret : option string;
  wh_replay : R;
  wh_debounce : D;
  wh_queue : Q;
}.
Arguments mkWebhook {S R D Q}. Arguments wh_store {S R D Q}. Arguments wh_secret {S R D Q}.
Arguments wh_replay {S R D Q}. Arguments wh_debounce {S R D Q}. Arguments wh_queue {S R D Q}.

(** A request: headers whose value is visible text, the body, and the clocks
    when it is handled: the text of the time, and the instant in nanoseconds. *)
Record Delivery := mkDelivery {
  d_header : string -> option string;
  d_body : string;
  d_now : string;
  d_instant : N;
}.

(** Status codes. *)
Definition OK : N := 200.
Definition ACCEPTED : N := 202.
Definition BAD_REQUEST : N := 400.
Definition UNAUTHORIZED : N := 401.
Definition NOT_FOUND : N := 404.
Definition INTERNAL_SERVER_ERROR : N := 500.
Definition BAD_GATEWAY : N := 502.
Definition SERVICE_UNAVAILABLE : N := 503.

Definition write_response_status (r : WriteResponse) : N :=
  match r with HttpNon2xx => BAD_GATEWAY | Fatal | BoundedRetry => INTERNAL_SERVER_ERROR end.

(** [resolve_webhook_secret], on the value of [WEBHOOK_SECRET]. *)
Definition resolve_webhook_secret (var : option string) : option string :=
  match var with Some s => if is_empty s then None else Some s | None => None end.

Section Webhook.
  Context {S R D Q : Type} `{!EvidenceStore S} `{!WebhookEnv R D Q}.
  Notation Webhook := (Webhook S R D Q).
  Implicit Type w : Webhook.

Definition with_store (s : S) w : Webhook :=
  mkWebhook s (wh_secret w) (wh_replay w) (wh_debounce w) (wh_queue w).
Definition with_replay (r : R) w : Webhook :=
  mkWebhook (wh_store w) (wh_secret w) r (wh_debounce w) (wh_queue w).
Definition with_debounce (d : D) w : Webhook :=
  mkWebhook (wh_store w) (wh_secret w) (wh_replay w) d (wh_queue w).
Definition with_queue (q : Q) w : Webhook :=
  mkWebhook (wh_store w) (wh_secret w) (wh_replay w) (wh_debounce w) q.

Definition verify_signature (secret body signature_header : string) : bool :=
  match strip_prefix "sha256=" signature_header with
  | None => false
  | Some hex_str =>
    match hex_decode hex_str with
    | None => false
    | Some expected => bool_decide (hmac_sha256 secret body = expected)
    end
  end.

Definition validate_request w (d : Delivery) : result N (string * string) :=
  match wh_secret w with
  | None => Err NOT_FOUND
  | Some secret =>
    match d_header d "x-hub-signature-256" with
    | None => Err UNAUTHORIZED
    | Some signature =>
      if negb (verify_signature secret (d_body d) signature) then Err UNAUTHORIZED
      else
        match d_header d "x-github-event" with
        | None => Err BAD_REQUEST
        | Some event_type =>
          match d_header d "x-github-delivery" with
          | None => Err BAD_REQUEST
          | Some delivery_id => Ok (event_type, delivery_id)
          end
        end
    end
  end.

(** ** Mapping events *)

Definition resolve_or_build_repo (inventory_key : string) (payload : WebhookRepository) (s : S)
    : Repository :=
  match es_get inventory_key s with
  | Some evidence => repository evidence
  | None => build_repository_from_payload payload
  end.

Definition resolve_repo_from_store (inventory_key repo_name : string) (s : S) : Repository :=
  match es_get inventory_key s with
  | Some evidence => repository evidence
  | None => push_fallback inventory_key repo_name
  end.

(** The payload's repository, or the error of the [?]s. *)
Definition required_repository (body : string)
    : result WebhookError (WebhookPayload * WebhookRepository) :=
  let? payload := map_err InvalidJson (parse_payload body) in
  match wp_repository payload with
  | Some r => Ok (payload, r)
  | None => Err MissingRepository
  end.

Definition map_repository_event (body : string) (s : S) : result WebhookError WebhookAction :=
  let? parsed := required_repository body in
  let '(payload, repo_payload) := parsed in
  let action := default EmptyString (wp_action payload) in
  let inventory_key := pretty (wr_id repo_payload) in
  if existsb (String.eqb action) ["deleted"; "archived"] then Ok (Remove inventory_key)
  else if existsb (String.eqb action) ["created"; "unarchived"; "publicized"; "privatized"] then
    Ok (Enqueue inventory_key (resolve_or_build_repo inventory_key repo_payload s))
  else Ok Ignore.

Definition map_push_event (body : string) (s : S) : result WebhookError WebhookAction :=
  let? payload := map_err InvalidJson (parse_push body) in
  if negb (is_security_relevant_push payload) then Ok Ignore
  else
    let inventory_key := pretty (pr_id (push_repository payload)) in
    Ok (Enqueue inventory_key
          (resolve_repo_from_store inventory_key (pr_name (push_repository payload)) s)).

Definition map_generic_enqueue_event (body : string) (s : S) : result WebhookError WebhookAction :=
  let? parsed := required_repository body in
  let inventory_key := pretty (wr_id (snd parsed)) in
  Ok (Enqueue inventory_key (resolve_or_build_repo inventory_key (snd parsed) s)).

Definition GENERIC_EVENTS : list string :=
  ["branch_protection_configuration"; "branch_protection_rule"; "dependabot_alert";
   "code_scanning_alert"; "secret_scanning_alert"; "member"].

Definition map_event_to_action (event_type body : string) (s : S)
    : result WebhookError WebhookAction :=
  if String.eqb event_type "repository" then map_repository_event body s
  else if existsb (String.eqb event_type) GENERIC_EVENTS then map_generic_enqueue_event body s
  else if String.eqb event_type "push" then map_push_event body s
  else Ok Ignore.

(** ** Executing actions *)

(** [accept_webhook_delivery]. *)
Definition accept_webhook_delivery (delivery_id : string) w : bool * Webhook :=
  let '(fresh, r) := replay_or_insert delivery_id (wh_replay w) in (fresh, with_replay r w).

(** [now.duration_since(last).as_secs()]. *)
Definition elapsed_secs (now last : N) : N := sat_sub now last / 1000000000.

(** [record_push_and_check_debounce]: whether the push is debounced. *)
Definition record_push_and_check_debounce (inventory_key : string) (now : N) (d : D) : bool * D :=
  match debounce_get inventory_key now d with
  | Some last =>
    if elapsed_secs now last <? DEFAULT_WEBHOOK_DEBOUNCE_SECS then (true, d)
    else (false, debounce_insert inventory_key now now d)
  | None => (false, debounce_insert inventory_key now now d)
  end.

Definition execute_remove (d : Delivery) (inventory_key : string) w : N * Webhook :=
  match es_get inventory_key (wh_store w) with
  | None => (OK, w)
  | Some _ =>
    let '(r, s) :=
      write_with_policy (es_remove inventory_key inventory_key (d_now d)) (wh_store w) in
    match r with
    | Err _ => (write_response_status HttpNon2xx, with_store s w)
    | Ok _ => (OK, with_store s w)
    end
  end.

(** [state.work_queue.enqueue(job)] and the status of its answer. *)
Definition submit (job : JobSpec) w : N * Webhook :=
  let '(answer, q) := enqueue job (wh_queue w) in
  (match answer with
   | Accepted => ACCEPTED
   | Deduplicated => OK
   | QueueFull => SERVICE_UNAVAILABLE
   end, with_queue q w).

Definition execute_enqueue (event_type delivery_id : string) (d : Delivery)
    (inventory_key : string) (repo : Repository) w : N * Webhook :=
  let job := mkJobSpec inventory_key repo (d_now d) delivery_id event_type in
  if String.eqb event_type "push" then
    let '(debounced, c) :=
      record_push_and_check_debounce inventory_key (d_instant d) (wh_debounce w) in
    let w := with_debounce c w in
    if (debounced : bool) then (OK, w) else submit job w
  else submit job w.

Definition execute (event_type delivery_id : string) (d : Delivery) (action : WebhookAction) w
    : N * Webhook :=
  match action with
  | Remove inventory_key => execute_remove d inventory_key w
  | Enqueue inventory_key repo => execute_enqueue event_type delivery_id d inventory_key repo w
  | Ignore => (OK, w)
  end.

Definition webhook_handler (d : Delivery) w : N * Webhook :=
  match validate_request w d with
  | Err status => (status, w)
  | Ok (event_type, delivery_id) =>
    match map_event_to_action event_type (d_body d) (wh_store w) with
    | Err _ => (BAD_REQUEST, w)
    | Ok action =>
      let '(fresh, w) := accept_webhook_delivery delivery_id w in
      if negb fresh then (OK, w) else execute event_type delivery_id d action w
    end
  end.
End Webhook.

(** ** Specification *)

(** The lowercase digits of a MAC. *)
Definition hex_char (n : N) : Ascii.ascii := byte (if n <? 10 then 48 + n else 87 + n).
Fixpoint hex_text (bs : list N) : string :=
  match bs with
  | [] => EmptyString
  | b :: bs => String (hex_char (b / 16)) (String (hex_char (b mod 16)) (hex_text bs))
  end.

(** What the decoder ignores: the case of the digits, and a plus sign where a
    pair's first digit is zero. *)
Fixpoint normal_hex (s : string) : string :=
  match s with
  | String a (String b s) =>
    String (if Ascii.eqb a "+" then "0"%char else lower_byte a) (String (lower_byte b) (normal_hex s))
  | s => s
  end.

(** The last push of each repository that was not debounced. *)
Definition debounce_reference (key : string) (now : N) (last : gmap string N)
    : bool * gmap string N :=
  match last !! key with
  | Some l => if now <? l + 5 * 1000000000 then (true, last) else (false, <[key := now]> last)
  | None => (false, <[key := now]> last)
  end.

(** A sequence of pushes through a debouncer. *)
Fixpoint debounce_all {C} (f : string -> N -> C -> bool * C) (pushes : list (string * N)) (c : C)
    : list bool :=
  match pushes with
  | [] => []
  | (key, now) :: pushes =>
    let '(b, c) := f key now c in b :: debounce_all f pushes c
  end.

(** Documented behaviour of the libraries: the replay cache remembers what was
    inserted into it; an entry of the debounce cache is there until it expires,
    ten seconds after it was written, and not evicted before (the capacities,
    100,000 entries, are not reached). *)
Class WebhookLaws (R D Q : Type) `{!WebhookEnv R D Q} := {
  hmac_bytes : forall secret body, Forall (fun b => b < 256) (hmac_sha256 secret body);
  replay_remembers : forall k r, fst (replay_or_insert k (snd (replay_or_insert k r))) = false;
  (** What the debounce cache holds: a value and the time it was written. *)
  debounce_entry : D -> string -> option (N * N);
  debounce_entry_insert : forall k v now d k',
    debounce_entry (debounce_insert k v now d) k' = if String.eqb k' k then Some (v, now) else debounce_entry d k';
  debounce_get_absent : forall k now d, debounce_entry d k = None -> debounce_get k now d = None;
  debounce_get_live : forall k now d v t, debounce_entry d k = Some (v, t) ->
    now < t + 10 * 1000000000 -> debounce_get k now d = Some v;
  debounce_get_expired : forall k now d v t, debounce_entry d k = Some (v, t) ->
    debounce_get k now d = Some v \/ debounce_get k now d = None;
}.

(** ** What a delivery means *)

(** The request carries the MAC of its body under the secret. *)
Definition signed_by {R D Q} `{!WebhookEnv R D Q} (secret : string) (d : Delivery) : Prop :=
  exists text, d_header d "x-hub-signature-256" = Some ("sha256=" +:+ text) /\
    normal_hex text = hex_text (hmac_sha256 secret (d_body d)).






(** ** Lemmas: signatures *)

Lemma hex_digit_char c n : hex_digit c = Some n <-> lower_byte c = hex_char n /\ n < 16.
Proof.
  assert (forall c, (match hex_digit c with
      | Some n => (n <? 16) && Ascii.eqb (lower_byte c) (hex_char n)
      | None => forallb (fun n => negb (Ascii.eqb (lower_byte c) (hex_char (N.of_nat n)))) (List.seq 0 16)
      end) = true) as H by (apply forall_chars; vm_compute; reflexivity).
  specialize (H c). split.
  - intros E. rewrite E in H. apply andb_prop in H as [H1%N.ltb_lt H2%Ascii.eqb_eq]. done.
  - intros [E Hn]. destruct (hex_digit c) as [m|].
    + apply andb_prop in H as [H1%N.ltb_lt H2%Ascii.eqb_eq]. f_equal. rewrite E in H2.
      assert (forallb (fun a => forallb (fun b =>
          negb (Ascii.eqb (hex_char (N.of_nat a)) (hex_char (N.of_nat b))) || (a =? b)%nat)
        (List.seq 0 16)) (List.seq 0 16) = true) as Hinj by (vm_compute; reflexivity).
      rewrite forallb_forall in Hinj.
      specialize (Hinj (N.to_nat n) ltac:(apply List.in_seq; lia)). rewrite forallb_forall in Hinj.
      specialize (Hinj (N.to_nat m) ltac:(apply List.in_seq; lia)).
      rewrite !N2Nat.id H2 Ascii.eqb_refl /= in Hinj. apply Nat.eqb_eq in Hinj. lia.
    + rewrite forallb_forall in H. specialize (H (N.to_nat n) ltac:(apply List.in_seq; lia)).
      by rewrite N2Nat.id E Ascii.eqb_refl in H.
Qed.

Lemma hex_char_inj a b : a < 16 -> b < 16 -> hex_char a = hex_char b -> a = b.
Proof.
  intros Ha Hb E. assert (forall n, n < 16 -> hex_digit (hex_char n) = Some n) as H.
  { intros n Hn. apply hex_digit_char. split; [|done].
    assert (forallb (fun n => Ascii.eqb (lower_byte (hex_char (N.of_nat n))) (hex_char (N.of_nat n)))
      (List.seq 0 16) = true) as Hl by (vm_compute; reflexivity).
    rewrite forallb_forall in Hl. specialize (Hl (N.to_nat n) ltac:(apply List.in_seq; lia)).
    rewrite N2Nat.id in Hl. by apply Ascii.eqb_eq. }
  assert (Some a = Some b) as [=]; [|done]. by rewrite -H // E H.
Qed.

Lemma plus_is_no_digit : hex_digit "+" = None.
Proof. reflexivity. Qed.

Lemma parse_pair_exact a b n : n < 256 ->
  parse_pair a b = Some n <->
  String (if Ascii.eqb a "+" then "0"%char else lower_byte a) (String (lower_byte b) EmptyString)
    = hex_text [n].
Proof.
  intros Hn. assert (n / 16 < 16) by (apply N.Div0.div_lt_upper_bound; lia).
  assert (n mod 16 < 16) by (apply N.mod_lt; lia).
  pose proof (N.div_mod n 16 ltac:(lia)) as Hdm.
  unfold parse_pair. simpl. destruct (Ascii.eqb_spec a "+") as [->|Hne].
  - split.
    + intros [Hb Hl]%hex_digit_char. rewrite Hb.
      rewrite N.div_small // N.mod_small //.
    + intros [= Hz Hb]. apply hex_digit_char.
      assert (n / 16 = 0) as Hz' by (by apply hex_char_inj).
      rewrite Hb. replace (n mod 16) with n by lia. split; [done|lia].
  - split.
    + intros E. destruct (hex_digit a) as [hi|] eqn:Ea; [|done].
      destruct (hex_digit b) as [lo|] eqn:Eb; [|done]. simpl in E. injection E as <-.
      apply hex_digit_char in Ea as [-> Hhi]. apply hex_digit_char in Eb as [-> Hlo].
      replace ((16 * hi + lo) / 16) with hi; [|apply N.div_unique with lo; lia].
      replace ((16 * hi + lo) mod 16) with lo; [done|apply N.mod_unique with hi; lia].
    + intros [= Ha Hb].
      assert (hex_digit a = Some (n / 16)) as -> by (by apply hex_digit_char).
      assert (hex_digit b = Some (n mod 16)) as -> by (by apply hex_digit_char).
      simpl. f_equal. lia.
Qed.

Lemma decode_pairs_exact bs : Forall (fun b => b < 256) bs ->
  forall s, decode_pairs s = Some bs <-> normal_hex s = hex_text bs.
Proof.
  intros Hbs. induction Hbs as [|n bs Hn Hbs IH]; intros s.
  - destruct s as [|a [|b s]]; simpl; [done|done|].
    split; [|done]. by destruct (parse_pair a b), (decode_pairs s).
  - destruct s as [|a [|b s]]; simpl; [done|done|].
    pose proof (parse_pair_exact a b n Hn) as Hp. simpl in Hp. split.
    + destruct (parse_pair a b) as [v|]; [|done]. destruct (decode_pairs s) as [vs|] eqn:E; [|done].
      simpl. intros [= -> ->]. apply IH in E as ->.
      destruct Hp as [Hp _]. specialize (Hp eq_refl). injection Hp as -> ->. done.
    + intros [= Ha Hb Hs]. destruct Hp as [_ ->]; [|by rewrite Ha Hb]. simpl.
      by rewrite (proj2 (IH s) Hs).
Qed.

Lemma hex_digit_ascii c n : hex_digit c = Some n -> Ascii.N_of_ascii c < 128.
Proof.
  assert (forall c, (match hex_digit c with Some _ => Ascii.N_of_ascii c <? 128 | None => true end) = true)
    as H by (apply forall_chars; vm_compute; reflexivity).
  intros E. specialize (H c). rewrite E in H. by apply N.ltb_lt.
Qed.

Lemma decode_pairs_ascii vs : forall s, decode_pairs s = Some vs ->
  is_ascii s = true /\ Nat.even (String.length s) = true.
Proof.
  induction vs as [|v vs IH]; intros [|a [|b s]]; simpl; try done.
  - by destruct (parse_pair a b), (decode_pairs s).
  - destruct (parse_pair a b) as [x|] eqn:Ep; [|done].
    destruct (decode_pairs s) as [xs|] eqn:Es; [|done]. intros [= -> ->].
    destruct (IH s Es) as [Ha He]. split; [|done].
    unfold is_ascii in *. simpl. rewrite Ha andb_true_r. unfold parse_pair in Ep.
    apply andb_true_intro. split; apply N.ltb_lt.
    + destruct (Ascii.eqb_spec a "+") as [->|]; [done|].
      destruct (hex_digit a) eqn:Ea; [|done]. by eapply hex_digit_ascii.
    + destruct (Ascii.eqb a "+"); [by eapply hex_digit_ascii|].
      destruct (hex_digit a); [|done]. simpl in Ep. destruct (hex_digit b) eqn:Eb; [|done].
      by eapply hex_digit_ascii.
Qed.

Lemma hex_decode_exact s bs : hex_decode s = Some bs <-> decode_pairs s = Some bs.
Proof.
  unfold hex_decode. destruct (negb (is_ascii s) || negb (Nat.even (String.length s))) eqn:E; [|done].
  split; [done|]. intros H. apply decode_pairs_ascii in H as [H1 H2]. by rewrite H1 H2 in E.
Qed.

(** ** Lemmas: removals *)

Section Proofs.
  Context {S R D Q : Type} `{!EvidenceStore S, !EvidenceStoreLaws S} `{!WebhookEnv R D Q, !WebhookLaws R D Q}.
  Notation Webhook := (Webhook S R D Q).
  Implicit Type w : Webhook.

(** [s'] shows the repositories [s] shows. *)
Definition same_view (s s' : S) : Prop := forall key, es_get key s' = es_get key s.

(** [s'] shows them all but [key]. *)
Definition removed_view (key : string) (s s' : S) : Prop :=
  es_get key s' = None /\ forall key', key' <> key -> es_get key' s' = es_get key' s.

Lemma retry_loop_remove key name t retries failure s r s' s0 : same_view s0 s ->
  retry_loop (es_remove key name t) retries failure s = (r, s') ->
  match r with Ok _ => removed_view key s0 s' | Err _ => same_view s0 s' end.
Proof.
  revert failure s. induction retries as [|n retries IH]; intros failure s Hv; simpl.
  { by intros [= <- <-]. }
  destruct (es_remove key name t s) as [[[]|e] s1] eqn:E.
  - intros [= <- <-]. destruct (es_remove_ok _ _ _ _ _ E) as [H1 H2]. split; [done|].
    intros k Hk. by rewrite H2.
  - pose proof (es_remove_err _ _ _ _ _ _ E) as H. assert (same_view s0 s1) by (intros k; by rewrite H).
    destruct (classify_attempt _ _) eqn:Ec; [|by eapply IH|by intros [= <- <-]].
    unfold classify_attempt in Ec. by repeat case_match.
Qed.

Lemma write_with_policy_remove key name t s r s' :
  write_with_policy (es_remove key name t) s = (r, s') ->
  match r with Ok _ => removed_view key s s' | Err _ => same_view s s' end.
Proof.
  unfold write_with_policy. destruct (es_remove key name t s) as [[[]|e] s1] eqn:E.
  - intros [= <- <-]. by apply es_remove_ok in E.
  - pose proof (es_remove_err _ _ _ _ _ _ E) as H.
    destruct (classify_attempt _ _) eqn:Ec.
    + unfold classify_attempt in Ec. by repeat case_match.
    + by apply retry_loop_remove.
    + by intros [= <- <-].
Qed.

(** ** Theorems *)

(** The signature check accepts exactly the MAC.  A signature passes when it
    is [sha256=] and the hexadecimal digits of the HMAC of the body under the
    secret, in either case, where the decoder also takes a plus sign for the
    first digit of a byte below sixteen; the digits the MAC is usually written
    with are among them. *)
Lemma signature_exact secret body header :
  (verify_signature secret body header = true <->
     exists text, header = "sha256=" +:+ text /\ normal_hex text = hex_text (hmac_sha256 secret body)) /\
  verify_signature secret body ("sha256=" +:+ hex_text (hmac_sha256 secret body)) = true.
Proof.
  assert (forall header, verify_signature secret body header = true <->
     exists text, header = "sha256=" +:+ text /\ normal_hex text = hex_text (hmac_sha256 secret body)) as H.
  { intros h. unfold verify_signature. split.
    - destruct (strip_prefix "sha256=" h) as [text|] eqn:Ep; [|done].
      apply strip_prefix_Some in Ep as ->. destruct (hex_decode text) as [bs|] eqn:Eh; [|done].
      intros Hb%bool_decide_eq_true. subst bs. exists text. split; [done|].
      apply decode_pairs_exact; [apply hmac_bytes|]. by apply hex_decode_exact.
    - intros (text & -> & E). rewrite (proj2 (strip_prefix_Some "sha256=" _ text) eq_refl).
      apply decode_pairs_exact in E; [|apply hmac_bytes]. apply hex_decode_exact in E. rewrite E.
      by apply bool_decide_eq_true. }
  split; [apply H|]. apply H. eexists; split; [done|].
  assert (forall bs, Forall (fun b => b < 256) bs -> normal_hex (hex_text bs) = hex_text bs) as Hn.
  { intros bs Hbs. induction Hbs as [|b bs Hb Hbs IH]; [done|]. cbn [hex_text normal_hex].
    assert (forallb (fun n => let c := hex_char (N.of_nat n) in
        Ascii.eqb (lower_byte c) c && negb (Ascii.eqb c "+")) (List.seq 0 16) = true) as Hl
      by (vm_compute; reflexivity).
    rewrite forallb_forall in Hl.
    assert (forall n, n < 16 -> lower_byte (hex_char n) = hex_char n /\ Ascii.eqb (hex_char n) "+" = false) as Hc.
    { intros n Hlt. specialize (Hl (N.to_nat n) ltac:(apply List.in_seq; lia)).
      rewrite N2Nat.id in Hl. cbv zeta in Hl.
      apply andb_prop in Hl as [?%Ascii.eqb_eq ?%negb_true_iff]. done. }
    destruct (Hc (b / 16)) as [-> ->]; [apply N.Div0.div_lt_upper_bound; lia|].
    destruct (Hc (b mod 16)) as [-> _]; [apply N.mod_lt; lia|]. by rewrite IH. }
  apply Hn, hmac_bytes.
Qed.

(** *** Events *)









(** Whether an event maps to an action does not depend on the store. *)
Lemma map_event_ok ev body s s' a : map_event_to_action ev body s = Ok a ->
  exists a', map_event_to_action ev body s' = Ok a'.
Proof.
  unfold map_event_to_action, map_repository_event, map_generic_enqueue_event, map_push_event,
    required_repository.
  repeat case_match; naive_solver.
Qed.

(** *** Effects *)

(** The removal of [key], attempted until it succeeds, fails for good, or has
    failed four times. *)
Definition removed (key now : string) (s : S) (status : N) (s' : S) : Prop :=
  let op := es_remove key key now in
  exists n, (n < 4)%nat /\
    (forall i, (i < n)%nat -> is_transient (nth_result op i s)) /\
    (is_transient (nth_result op n s) -> n = 3%nat) /\
    s' = state_before op (n + 1) s /\
    match nth_result op n s with
    | Ok _ => status = 200 /\ removed_view key s s'
    | Err _ => status = 502 /\ same_view s s'
    end.

(** The job is put to the queue, and the status is its answer. *)
Definition submitted (job : JobSpec) w (status : N) w' : Prop :=
  exists answer, enqueue job (wh_queue w) = (answer, wh_queue w') /\
    status = match answer with Accepted => 202 | Deduplicated => 200 | QueueFull => 503 end.

(** The last push of the repository that was not debounced is known, and came
    less than five seconds ago. *)
Definition within_window (key : string) (now : N) (c : D) : Prop :=
  exists last, debounce_get key now c = Some last /\ now < last + 5000000000.

(** What a delivery that was let through does. *)
Definition delivery_effect (event_type delivery_id : string) (d : Delivery)
    (action : WebhookAction) w (status : N) w' : Prop :=
  match action with
  | Ignore =>
    status = 200 /\ wh_store w' = wh_store w /\ wh_debounce w' = wh_debounce w /\ wh_queue w' = wh_queue w
  | Remove key =>
    wh_debounce w' = wh_debounce w /\ wh_queue w' = wh_queue w /\
    match es_get key (wh_store w) with
    | None => status = 200 /\ wh_store w' = wh_store w
    | Some _ => removed key (d_now d) (wh_store w) status (wh_store w')
    end
  | Enqueue key repo =>
    let job := mkJobSpec key repo (d_now d) delivery_id event_type in
    wh_store w' = wh_store w /\
    ((event_type <> "push" /\ wh_debounce w' = wh_debounce w /\ submitted job w status w') \/
     (event_type = "push" /\ within_window key (d_instant d) (wh_debounce w) /\
      status = 200 /\ wh_debounce w' = wh_debounce w /\ wh_queue w' = wh_queue w) \/
     (event_type = "push" /\ ~ within_window key (d_instant d) (wh_debounce w) /\
      wh_debounce w' = debounce_insert key (d_instant d) (d_instant d) (wh_debounce w) /\
      submitted job w status w'))
  end.

Lemma elapsed_within now last :
  elapsed_secs now last <? DEFAULT_WEBHOOK_DEBOUNCE_SECS = (now <? last + 5 * 1000000000).
Proof.
  unfold elapsed_secs, sat_sub, DEFAULT_WEBHOOK_DEBOUNCE_SECS.
  destruct (N.ltb_spec now (last + 5 * 1000000000)).
  - apply N.ltb_lt, N.Div0.div_lt_upper_bound. lia.
  - apply N.ltb_ge, N.div_le_lower_bound; lia.
Qed.

Lemma submit_effect job w status w' : submit job w = (status, w') ->
  wh_store w' = wh_store w /\ wh_debounce w' = wh_debounce w /\ submitted job w status w'.
Proof.
  unfold submit. destruct (enqueue job (wh_queue w)) as [answer q] eqn:E. intros [= <- <-].
  split_and!; [done|done|]. by exists answer.
Qed.

Lemma remove_effect key d w status w' :
  is_Some (es_get key (wh_store w)) -> execute_remove d key w = (status, w') ->
  removed key (d_now d) (wh_store w) status (wh_store w').
Proof.
  intros [e Eg]. unfold execute_remove. rewrite Eg.
  destruct (write_with_policy_spec (es_remove key key (d_now d)) (wh_store w)) as (n & Hn & Hi & Ht & E).
  pose proof (write_with_policy_remove _ _ _ _ _ _ E) as Hv. rewrite E. intros H. exists n.
  unfold reported in *. destruct (nth_result _ n _) as [[]|x] eqn:Er; injection H as <- <-;
    rewrite ?Er in Ht; by split_and!.
Qed.

Lemma execute_effect ev id d action w status w' :
  execute ev id d action w = (status, w') ->
  wh_secret w' = wh_secret w /\ wh_replay w' = wh_replay w /\
  delivery_effect ev id d action w status w'.
Proof.
  assert (forall job (v v' : Webhook), submit job v = (status, v') -> wh_secret v' = wh_secret v /\ wh_replay v' = wh_replay v) as Hsub.
  { intros job v v'. unfold submit. destruct (enqueue job _). by intros [= _ <-]. }
  destruct action as [key repo|key|]; simpl.
  - unfold execute_enqueue. destruct (String.eqb_spec ev "push") as [->|Hne].
    + unfold record_push_and_check_debounce.
      destruct (debounce_get key (d_instant d) (wh_debounce w)) as [last|] eqn:Eg.
      * rewrite elapsed_within. change (5 * 1000000000) with 5000000000.
        destruct (N.ltb_spec (d_instant d) (last + 5000000000)) as [Hlt|Hge].
        { intros [= <- <-]. split_and!; [done..|]. right. left. split_and!; [done| |done..]. by exists last. }
        intros E. destruct (Hsub _ _ _ E) as [-> ->]. apply submit_effect in E as (-> & -> & ?).
        split_and!; [done..|]. right. right. split_and!; [done| |done..].
        intros (l & Hl & ?). rewrite Eg in Hl. injection Hl as ->. lia.
      * intros E. destruct (Hsub _ _ _ E) as [-> ->]. apply submit_effect in E as (-> & -> & ?).
        split_and!; [done..|]. right. right. split_and!; [done| |done..].
        intros (l & Hl & ?). by rewrite Eg in Hl.
    + intros E. destruct (Hsub _ _ _ E) as [-> ->]. apply submit_effect in E as (-> & -> & ?).
      split_and!; [done..|]. by left.
  - intros E. assert (wh_secret w' = wh_secret w /\ wh_replay w' = wh_replay w /\
      wh_debounce w' = wh_debounce w /\ wh_queue w' = wh_queue w) as (-> & -> & -> & ->).
    { revert E. unfold execute_remove. repeat case_match; by intros [= _ <-]. }
    split_and!; [done..|]. destruct (es_get key (wh_store w)) eqn:Eg.
    + by apply remove_effect.
    + revert E. unfold execute_remove. rewrite Eg. by intros [= <- <-].
  - intros [= <- <-]. by split_and!.
Qed.

Lemma signed_by_spec secret d : signed_by secret d <->
  exists header, d_header d "x-hub-signature-256" = Some header /\
    verify_signature secret (d_body d) header = true.
Proof.
  unfold signed_by. split.
  - intros (text & Hd & Ht). eexists. split; [done|]. apply signature_exact. by exists text.
  - intros (h & Hd & (text & -> & Ht)%signature_exact). by exists text.
Qed.

Lemma handler_unsigned d w secret : wh_secret w = Some secret ->
  signed_by secret d \/ ~ signed_by secret d /\ webhook_handler d w = (UNAUTHORIZED, w).
Proof.
  intros Es. rewrite signed_by_spec. unfold webhook_handler, validate_request. rewrite Es.
  destruct (d_header d "x-hub-signature-256") as [h|]; [|right; split; [naive_solver|done]].
  destruct (verify_signature secret (d_body d) h) eqn:Ev; [left; by exists h|right].
  split; [|done]. intros (? & [= <-] & ?). congruence.
Qed.

Lemma handler_signed d w secret : wh_secret w = Some secret -> signed_by secret d ->
  webhook_handler d w =
    match d_header d "x-github-event", d_header d "x-github-delivery" with
    | Some ev, Some id =>
      match map_event_to_action ev (d_body d) (wh_store w) with
      | Ok action =>
        let '(fresh, w1) := accept_webhook_delivery id w in
        if negb fresh then (OK, w1) else execute ev id d action w1
      | Err _ => (BAD_REQUEST, w)
      end
    | _, _ => (BAD_REQUEST, w)
    end.
Proof.
  intros Es (h & Eh & Ev)%signed_by_spec. unfold webhook_handler, validate_request.
  rewrite Es Eh Ev /=. by destruct (d_header d "x-github-event"), (d_header d "x-github-delivery").
Qed.


(** A request sent again, at another time. *)
Definition resent (d : Delivery) (now : string) (instant : N) : Delivery :=
  mkDelivery (d_header d) (d_body d) now instant.

(** A delivery is executed at most once, and not again when it failed.
    Whatever became of a delivery that was let through, the same request sent
    again while its identifier is remembered is answered with 200 and changes
    nothing; so when a removal was answered with 502 the redelivery leaves the
    repository shown, and when a refresh was answered with 503 it is not
    queued. *)
Lemma redelivery_is_skipped d w now instant :
  let '(status, w1) := webhook_handler d w in
  status ∉ [BAD_REQUEST; UNAUTHORIZED; NOT_FOUND] ->
  exists r, webhook_handler (resent d now instant) w1 = (OK, with_replay r w1) /\
  forall event_type key, d_header d "x-github-event" = Some event_type ->
    map_event_to_action event_type (d_body d) (wh_store w) = Ok (Remove key) ->
    status = BAD_GATEWAY ->
    is_Some (es_get key (wh_store (with_replay r w1))).
Proof.
  destruct (webhook_handler d w) as [status w1] eqn:E. intros Hst.
  destruct (wh_secret w) as [secret|] eqn:Es; last first.
  { unfold webhook_handler, validate_request in E. rewrite Es in E. injection E as <- _. set_solver. }
  destruct (handler_unsigned d _ _ Es) as [Hs|[_ E']]; [|rewrite E' in E; injection E as <- _; set_solver].
  pose proof (handler_signed _ _ _ Es Hs) as E'. rewrite E in E'.
  destruct (d_header d "x-github-event") as [ev|] eqn:Ee; [|injection E' as -> _; set_solver].
  destruct (d_header d "x-github-delivery") as [id|] eqn:Ei; [|injection E' as -> _; set_solver].
  destruct (map_event_to_action ev (d_body d) (wh_store w)) as [action|x] eqn:Em;
    [|injection E' as -> _; set_solver].
  unfold accept_webhook_delivery in E'. destruct (replay_or_insert id (wh_replay w)) as [fresh r1] eqn:Er.
  assert (wh_secret w1 = Some secret /\ wh_replay w1 = r1 /\
    forall key, action = Remove key -> status = BAD_GATEWAY -> is_Some (es_get key (wh_store w1)))
    as (Hs1 & Hr & Hl).
  { destruct fresh.
    - apply eq_sym, execute_effect in E' as (-> & -> & He). split_and!; [done..|]. intros key -> ->.
      destruct He as (_ & _ & He). simpl in He. destruct (es_get key (wh_store w)) as [e|] eqn:Eg; [|by destruct He].
      destruct He as (n & _ & _ & _ & _ & He). destruct (nth_result _ _ _); destruct He as [? He]; [done|].
      exists e. by rewrite He.
    - injection E' as -> ->. by split_and!. }
  destruct (map_event_ok _ _ _ (wh_store w1) _ Em) as [action' Em'].
  exists (snd (replay_or_insert id r1)). split.
  - rewrite (handler_signed (resent d now instant) w1 secret Hs1 Hs) /= Ee Ei Em'.
    unfold accept_webhook_delivery. rewrite Hr.
    pose proof (replay_remembers id (wh_replay w)) as Hrem. rewrite Er /= in Hrem.
    destruct (replay_or_insert id r1) as [fresh' r2]. simpl in Hrem. by subst fresh'.
  - intros ev' key [= <-] Em'' Hbad. rewrite Em in Em''. injection Em'' as ->. by apply Hl.
Qed.

Lemma debounce_matches pushes : forall (c : D) (last : gmap string N),
  StronglySorted N.le (map snd pushes) ->
  (forall key, debounce_entry c key = option_map (fun l => (l, l)) (last !! key)) ->
  (forall key l, last !! key = Some l -> Forall (fun p => l <= snd p) pushes) ->
  debounce_all record_push_and_check_debounce pushes c = debounce_all debounce_reference pushes last.
Proof.
  induction pushes as [|[key now] pushes IH]; intros c last Hs Hc Hl; [done|]. simpl in Hs.
  inversion Hs as [|? ? Hs' Hle]; subst.
  assert (forall k l, last !! k = Some l -> Forall (fun p => l <= snd p) pushes) as Hl'
    by (intros k l E; specialize (Hl k l E); by inversion Hl).
  assert (debounce_all record_push_and_check_debounce pushes (debounce_insert key now now c)
    = debounce_all debounce_reference pushes (<[key := now]> last)) as Hins.
  { apply IH; [done| |].
    - intros k. rewrite debounce_entry_insert. destruct (String.eqb_spec k key) as [->|Hne].
      + by rewrite lookup_insert_eq.
      + rewrite lookup_insert_ne //; congruence.
    - intros k l. destruct (decide (key = k)) as [->|].
      + rewrite lookup_insert_eq. intros [= <-]. rewrite Forall_map in Hle. done.
      + rewrite lookup_insert_ne //. apply Hl'. }
  cbn [debounce_all]. unfold record_push_and_check_debounce, debounce_reference. specialize (Hc key) as Hk.
  destruct (last !! key) as [l|] eqn:El; simpl in Hk.
  - specialize (Hl key l El). inversion Hl as [|? ? Hnow _]; subst. simpl in Hnow.
    destruct (N.ltb_spec now (l + 5 * 1000000000)) as [Hlt|Hge].
    + rewrite (debounce_get_live _ _ _ _ _ Hk); [|lia].
      rewrite elapsed_within (proj2 (N.ltb_lt _ _) Hlt). f_equal. by apply IH.
    + destruct (debounce_get_expired key now c _ _ Hk) as [-> | ->]; [|by rewrite Hins].
      rewrite elapsed_within (proj2 (N.ltb_ge _ _) Hge). by rewrite Hins.
  - rewrite (debounce_get_absent _ _ _ Hk). by rewrite Hins.
Qed.

(** The debounce is the one the window describes, although the cache it
    uses forgets.  For pushes at times that do not go back, through a cache
    that starts empty and drops entries ten seconds after they were written, a
    push is debounced exactly when the repository's last push that was not came
    less than five seconds before it, so that debounced pushes never extend
    the window. *)
Lemma debounce_exact pushes (c : D) :
  StronglySorted N.le (map snd pushes) -> (forall key, debounce_entry c key = None) ->
  debounce_all record_push_and_check_debounce pushes c = debounce_all debounce_reference pushes ∅.
Proof.
  intros Hs Hc. apply debounce_matches; [done| |].
  - intros key. by rewrite Hc lookup_empty.
  - intros key l. by rewrite lookup_empty.
Qed.
End Proofs.

(** ** The write facade is such a store *)

Section Facade.
  Context {P : Pardosa} (parse_timestamp : string -> option Z) (jiff_string : Z -> option string).
  Context {B : Type} `{!Backend B NativeDomainEvent} `{!Backend B NativeOrgStateCaptured}
    `{!Backend B TeamEvent}.

(** [AppState::projection_get] and [AppState::remove_repo]. *)
#[local] Instance facade_store : EvidenceStore (AppWrites (P := P) (B := B)) := {
  es_get key s := projection_get key (projection_state s);
  es_remove := remove_repo parse_timestamp jiff_string;
}.

Lemma facade_laws : EvidenceStoreLaws (AppWrites (P := P) (B := B)).
Proof.
  split; intros key name t s; simpl; unfold remove_repo, admitted_write.
  - intros s'. destruct (write_admission s); [done|].
    destruct (repo_event _ key name t None) as [event|e] eqn:Ee; [|by destruct e].
    destruct (store_detach key event (event_store s)) as [[res|x] st];
      [|by destruct (native_store_persistence x)].
    intros [= <-]. unfold repo_event in Ee. conv_chain Ee.
    assert (ne_str a = key) as Hk.
    { unfold non_empty in E. destruct (to_nes _ _ key) eqn:En; [|done]. injection E as <-.
      by eapply to_nes_Ok. }
    simpl. unfold projection_get, fold_native_event. simpl. rewrite Hk.
    split; [by rewrite lookup_delete_eq|]. intros key' Hne. by rewrite lookup_delete_ne.
  - intros e s'. destruct (write_admission s); [by intros [= _ <-]|].
    destruct (repo_event _ key name t None) as [event|x] eqn:Ee.
    + destruct (store_detach key event (event_store s)) as [[res|x] st]; [done|].
      destruct (native_store_persistence x); by intros [= _ <-].
    + destruct x; by intros [= _ <-].
Qed.
End Facade.

(** ** A small service, to deliver to *)

(** A store that fails while its switch is off. *)
Record TestStore := mkTestStore { ts_up : bool; ts_repos : gmap string RepositoryEvidence }.

#[export] Instance test_store : EvidenceStore TestStore := {
  es_get key s := ts_repos s !! key;
  es_remove key _ _ s :=
    if ts_up s then (Ok (), mkTestStore true (delete key (ts_repos s)))
    else (Err V_BackendUnavailable, s);
}.

#[export] Instance test_store_laws : EvidenceStoreLaws TestStore.
Proof.
  split; intros key name t [[] repos]; simpl; [| |done|].
  - intros s' [= <-]. simpl. rewrite lookup_delete_eq. split; [done|].
    intros key' Hne. by rewrite lookup_delete_ne.
  - done.
  - by intros e s' [= <- <-].
Qed.

Definition test_repository : WebhookRepository :=
  mkWebhookRepository 7 None "web" None (Some "public") None false None.

(** A MAC that is not one, two payloads, caches without a bound and a queue
    with room for one job. *)
#[export] Instance test_env : WebhookEnv (gset string) (gmap string (N * N)) (list JobSpec) := {
  hmac_sha256 secret body := map (fun b => b mod 16) (to_bytes (secret +:+ body));
  parse_payload body :=
    if String.eqb body "deleted" then Ok (mkWebhookPayload (Some test_repository) (Some "deleted"))
    else Err "expected value";
  parse_push body :=
    if String.eqb body "push" then
      Ok (mkPushEvent "refs/heads/main" (mkPushRepository 7 "web" "main") [mkPushCommit [] ["SECURITY.md"] []])
    else Err "expected value";
  replay_or_insert key r := (negb (bool_decide (key ∈ r)), {[key]} ∪ r);
  debounce_get key now d :=
    match d !! key with
    | Some (v, t) => if now <? t + 10 * 1000000000 then Some v else None
    | None => None
    end;
  debounce_insert key v now d := <[key := (v, now)]> d;
  enqueue job q := match q with [] => (Accepted, [job]) | _ => (QueueFull, q) end;
}.

#[export] Instance test_laws : WebhookLaws (gset string) (gmap string (N * N)) (list JobSpec).
Proof.
  refine (Build_WebhookLaws _ _ _ _ _ _ (fun (d : gmap string (N * N)) key => d !! key) _ _ _ _).
  - intros secret body. simpl. apply Forall_map, Forall_forall. intros b _.
    apply (N.lt_trans _ 16); [by apply N.mod_lt|done].
  - intros k r. simpl. apply negb_false_iff, bool_decide_eq_true. set_solver.
  - intros k v now d k'. simpl. destruct (String.eqb_spec k' k) as [->|].
    + by rewrite lookup_insert_eq.
    + by rewrite lookup_insert_ne.
  - intros k now d E. simpl. by rewrite E.
  - intros k now d v t E H. simpl. rewrite E. by rewrite (proj2 (N.ltb_lt _ _) H).
  - intros k now d v t E. simpl. rewrite E. destruct (_ <? _); [by left|by right].
Defined.

Definition test_webhook (up : bool) : Webhook TestStore (gset string) (gmap string (N * N)) (list JobSpec) :=
  mkWebhook (mkTestStore up {["7" := sample_owned "web" "@acme/core" false]}) (Some "k") ∅ ∅ [].

Definition signed (event body : string) : Delivery :=
  mkDelivery (fun name =>
      if String.eqb name "x-hub-signature-256"
      then Some ("sha256=" +:+ hex_text (map (fun b => b mod 16) (to_bytes ("k" +:+ body))))
      else if String.eqb name "x-github-event" then Some event
      else if String.eqb name "x-github-delivery" then Some "d-1" else None)
    body "2026-01-01T00:00:00Z" 0.

Lemma signature_exact_witness :
  verify_signature (R := gset string) (D := gmap string (N * N)) (Q := list JobSpec)
    "k" "" "sha256=+B" = true.
Proof.
  apply (proj1 (signature_exact (R := gset string) (D := gmap string (N * N)) (Q := list JobSpec)
    "k" "" "sha256=+B")).
  exists "+B". split; [reflexivity|]. vm_compute. reflexivity.
Defined.


Lemma redelivery_is_skipped_witness :
  fst (webhook_handler (signed "repository" "deleted") (test_webhook false)) = BAD_GATEWAY /\
  exists r w1, webhook_handler (resent (signed "repository" "deleted") "2026-01-01T00:10:00Z" 600000000000)
      (snd (webhook_handler (signed "repository" "deleted") (test_webhook false))) = (OK, with_replay r w1) /\
    is_Some (es_get "7" (wh_store (with_replay r w1))).
Proof.
  assert (fst (webhook_handler (signed "repository" "deleted") (test_webhook false)) = BAD_GATEWAY) as E
    by (vm_compute; reflexivity).
  split; [exact E|].
  pose proof (redelivery_is_skipped (signed "repository" "deleted") (test_webhook false)
    "2026-01-01T00:10:00Z" 600000000000) as H.
  destruct (webhook_handler (signed "repository" "deleted") (test_webhook false)) as [status w1] eqn:E1.
  simpl in E. subst status. cbv beta iota in H.
  destruct H as (r & H & Hr); [rewrite !not_elem_of_cons; split_and!; [done..|apply not_elem_of_nil]|].
  exists r, w1. split; [exact H|]. apply (Hr "repository" "7"); [reflexivity|vm_compute; reflexivity|reflexivity].
Defined.

Lemma debounce_exact_witness :
  debounce_all (record_push_and_check_debounce (R := gset string) (Q := list JobSpec))
    [("7", 0); ("7", 4000000000); ("7", 5000000000); ("8", 5000000001); ("7", 16000000000)]
    (∅ : gmap string (N * N)) = [false; true; false; false; false].
Proof.
  rewrite (debounce_exact (R := gset string) (Q := list JobSpec)); [vm_compute; reflexivity| |].
  - simpl. repeat (constructor; [|repeat (constructor; [apply N.leb_le; reflexivity|]); constructor]).
    constructor.
  - intros key. apply lookup_empty.
Defined.

(** A refresh that the full queue refused is not queued when it is sent again. *)
Example full_queue_is_final :
  let w := with_queue [mkJobSpec "9" (push_fallback "9" "api") "" "d-0" "push"] (test_webhook true) in
  let '(first, w1) := webhook_handler (signed "push" "push") w in
  let w2 := with_queue [] w1 in
  (first, fst (webhook_handler (resent (signed "push" "push") "" 60000000000) w2)) = (SERVICE_UNAVAILABLE, OK).
Proof. vm_compute. reflexivity. Qed.

(** The collector evaluates a location that a push does not count for. *)
Example docs_codeowners_is_missed :
  "docs/CODEOWNERS" ∈ map fst codeowners_candidates /\ touches "docs/CODEOWNERS" = false.
Proof. split; [set_solver|reflexivity]. Qed.
