(* ===== verification/SweepTimeout.v ===== *)
(** * The time limit of a sweep ([app/collect.rs])

    Before a sweep waits for its batch it arms a schedule that fires when its
    time is over.  The schedules and the events they fire are kept in the
    process's own stores ([EphemeralStore]); the scheduler, the bus and
    [serde_json] are [cherry_pit]'s and serde's, a class. *)

From S2P Require Import Prelude Str Run WritePolicy Auth Errors Config Events Codec EphemeralStore.

Open Scope N_scope.

(** The payload of a schedule. *)
Record SweepTimeoutPayload := mkSweepTimeoutPayload {
  tp_run_id : string;
  tp_error : string;
  tp_elapsed_ms : N;
}.

Inductive SweepTimeoutDecodeError := DecodeFailed (reason : string) | InvalidField.

(** [ScheduleArmed]. *)
Record ScheduleArmed := mkScheduleArmed {
  sa_schedule_id : N;
  sa_fire_at : Z;
  sa_target : N;
  sa_event_id : N;
  sa_event_type : string;
  sa_payload : list N;
  sa_context : CorrelationContext;
}.

Section SweepTimeout.
  Context {P : Pardosa}.

(** [DurableScheduler] over its own state [Sch] and the store of the events it
    fires; [to_vec] and [from_slice] of the payload. *)
Class DurableScheduler (Sch Env : Type) := {
  schedule_arm : ScheduleArmed -> Sch * EphemeralState Env -> result string () * (Sch * EphemeralState Env);
  schedule_cancel : N -> CorrelationContext -> Sch * EphemeralState Env ->
    result string () * (Sch * EphemeralState Env);
  schedule_recover_due : (list N -> N -> result SweepTimeoutDecodeError SweepTimeoutEvent) -> Z ->
    Sch * EphemeralState Env -> result string () * (Sch * EphemeralState Env);
  payload_to_vec : SweepTimeoutPayload -> result string (list N);
  payload_from_slice : list N -> result string SweepTimeoutPayload;
}.

  Context {Sch Env : Type} `{!EventEnvelope Env SweepTimeoutEvent, !DurableScheduler Sch Env}.
  (** The [Display] of the store's errors. *)
  Context (store_error_text : StoreError -> string).
  Notation State := (Sch * EphemeralState Env)%type.

(** [SweepTimeoutDecoder::decode] of a fired schedule's payload and the
    identifier of its event. *)
Definition decode_timeout (payload : list N) (caller_event_id : N)
    : result SweepTimeoutDecodeError SweepTimeoutEvent :=
  let? p := map_err DecodeFailed (payload_from_slice payload) in
  match try_timeout_fired caller_event_id (tp_run_id p) (tp_error p) (tp_elapsed_ms p) with
  | Some event => Ok event
  | None => Err InvalidField
  end.

Definition sweep_timeout_target_aggregate : N := 1.

(** The text of the error is the reason of a failed load. *)
Definition sweep_timeout_persistence (reason : string) : AppError := AE_Persistence V_LoadFailed.

Definition ensure_sweep_timeout_target (uuid : N) (now : Z) (context : CorrelationContext) (s : State)
    : result AppError N * State :=
  let target := sweep_timeout_target_aggregate in
  match ephemeral_load target (snd s) with
  | Err e => (Err (sweep_timeout_persistence (store_error_text e)), s)
  | Ok (_ :: _) => (Ok target, s)
  | Ok [] =>
    let '(r, events) := ephemeral_create (fun _ => uuid) now [TargetOpened uuid] context (snd s) in
    let s := (fst s, events) in
    match r with
    | Err e => (Err (sweep_timeout_persistence (store_error_text e)), s)
    | Ok (created, _) =>
      if negb (created =? target)
      then (Err (sweep_timeout_persistence
                   ("sweep timeout target aggregate must be " +:+ pretty target +:+ ", got "
                      +:+ pretty created)), s)
      else (Ok target, s)
    end
  end.

Record ArmedSweepTimeout := mkArmedSweepTimeout { at_schedule_id : N; at_fire_at : Z }.

(** What the code draws and reads while it arms a schedule. *)
Record ArmInputs := mkArmInputs {
  ai_now : Z;
  ai_target_uuid : N;
  ai_schedule_id : N;
  ai_event_id : N;
}.

(** [arm_sweep_timeout]; the timestamp plus the limit, in nanoseconds, panics
    beyond [timestamp_max]. *)
Definition arm_sweep_timeout (timestamp_max : Z) (timeout : SweepTimeout) (run : RunMetadata)
    (context : CorrelationContext) (error : string) (inputs : ArmInputs) (s : State)
    : option (result AppError ArmedSweepTimeout * State) :=
  let fire_at := (ai_now inputs + Z.of_N (as_duration timeout))%Z in
  if (timestamp_max <? fire_at)%Z then None
  else
    let '(target, s) := ensure_sweep_timeout_target (ai_target_uuid inputs) (ai_now inputs) context s in
    Some
      match target with
      | Err e => (Err e, s)
      | Ok target =>
        match payload_to_vec (mkSweepTimeoutPayload (run_id run) error (elapsed_ms timeout)) with
        | Err e => (Err (sweep_timeout_persistence e), s)
        | Ok encoded =>
          let event :=
            mkScheduleArmed (ai_schedule_id inputs) fire_at target (ai_event_id inputs)
              "gh-report.sweep_timeout_fired" encoded context in
          let '(r, s) := schedule_arm event s in
          (match r with
           | Err e => Err (sweep_timeout_persistence e)
           | Ok _ => Ok (mkArmedSweepTimeout (ai_schedule_id inputs) fire_at)
           end, s)
        end
      end.

Definition cancel_sweep_timeout (context : CorrelationContext) (armed : ArmedSweepTimeout) (s : State)
    : result AppError () * State :=
  let '(r, s) := schedule_cancel (at_schedule_id armed) context s in
  (map_err sweep_timeout_persistence r, s).

Definition fire_due_sweep_timeout (armed : ArmedSweepTimeout) (s : State) : result AppError () * State :=
  let '(r, s) := schedule_recover_due decode_timeout (at_fire_at armed) s in
  (map_err sweep_timeout_persistence r, s).

Definition recover_due_sweep_timeouts (now : Z) (s : State) : result AppError () * State :=
  let '(r, s) := schedule_recover_due decode_timeout now s in
  (map_err sweep_timeout_persistence r, s).
End SweepTimeout.
