(* ===== verification/Evaluator.v ===== *)
(** * The evaluation of one repository ([app/collect.rs])

    What a worker does with a job: ask for the repository's details, run the
    six collectors, and assemble the evidence.  The collectors are those of the
    collector files, over the answers of one client. *)

From S2P Require Import Prelude Str Json GitHub Repository Checks Evidence Metrics Time RateLimit.
From S2P Require Import SecurityPolicy Ghas Dependabot BranchProtection Codeowners LastCommit.

Open Scope N_scope.

(** [JobContext]. *)
Record JobContext := mkJobContext { job_repo : Repository; job_run_timestamp : string }.

Inductive SettleOutcome := Free | Charged.

Section Evaluator.
  Context {V : Type} `{!JsonValue V, !GitHubClient V}.
  Context (parse_timestamp : string -> option Z) (b64 : string -> option string)
    (to_lowercase : string -> string).
  (** [take_not_modified], once the details of the repository were asked for:
      whether the answer was a revalidation. *)
  Context (take_not_modified : string -> bool).

(** The result kept for a repository nobody pushes to. *)
Definition infer_paused (repo : Repository) (ts : string) (dep : DependabotResult) : DependabotResult :=
  if bool_decide (dependabot_status dep = DS_Enabled)
     && is_dependabot_inactive parse_timestamp (pushed_at repo) ts
  then mkDependabotResult DS_Paused (Some "inferred_from_inactivity") ts
  else dep.

(** [LiveEvaluator::evaluate]: it never fails. *)
Definition evaluate (org_summary : option OrgAlertSummary) (repo : Repository) (ts : string)
    : result string RepositoryEvidence :=
  let dep := infer_paused repo ts (dependabot_evaluate repo ts) in
  Ok (mkRepositoryEvidence repo
    (mkRepositoryChecks (security_policy_evaluate repo ts)
       (secret_scanning_evaluate repo ts org_summary) dep
       (branch_protection_evaluate repo ts) (codeowners_evaluate b64 to_lowercase repo ts))
    (fetch_last_commit repo) (take_not_modified (repo_name repo))).

(** [JobExecutor for LiveEvaluator]. *)
Definition execute (org_summary : option OrgAlertSummary) (context : JobContext)
    : result string RepositoryEvidence :=
  evaluate org_summary (job_repo context) (job_run_timestamp context).

Definition charge_of (res : RepositoryEvidence) : SettleOutcome :=
  if repo_details_not_modified res then Free else Charged.

(** [effective_budget_ceiling]. *)
Definition effective_budget_ceiling (remaining : option N) : N :=
  match remaining with
  | None => API_BUDGET_LIMIT
  | Some r => ceiling_from_entitlement r
  end.
End Evaluator.

(** The inference only ever turns Enabled into Paused, and exactly for a
    repository that is inactive at the time of the run; so fresh evidence never
    claims Dependabot for a repository the reuse of evidence would refuse. *)
Lemma infer_paused_exact parse_timestamp repo ts dep :
  let dep' := infer_paused parse_timestamp repo ts dep in
  let inactive := is_dependabot_inactive parse_timestamp (pushed_at repo) ts in
  (dependabot_status dep' = DS_Enabled <-> dependabot_status dep = DS_Enabled /\ inactive = false) /\
  (dependabot_status dep' = DS_Paused <->
     dependabot_status dep = DS_Paused \/ dependabot_status dep = DS_Enabled /\ inactive = true) /\
  (dependabot_status dep <> DS_Enabled -> dep' = dep).
Proof.
  cbn zeta. unfold infer_paused. case_bool_decide as He; simpl.
  - destruct (is_dependabot_inactive _ _ _); simpl; rewrite ?He; naive_solver.
  - naive_solver.
Qed.
