(* ===== verification/Sweep.v ===== *)
(** * The sweep ([app/collect.rs])

    One collection from its first step to the publication of its report: the
    inventory is admitted, evidence that is still valid is reused, the rest is
    evaluated in a batch that the sweep waits for within its time, repositories
    that are gone are removed, the organization's state is written, the report
    is rendered and committed.  The sweep runs against the service of
    [Delivery], the client of [Client] and the publications of [Publication];
    what other tasks do while it waits is part of its inputs. *)

From S2P Require Import Prelude Str Json GitHub Repository Checks Evidence Metrics Run Projection WritePolicy.
From S2P Require Import Auth Errors Config Events Codec InventoryAuthority Baseline Publication.
From S2P Require Import Client ClientRuns TeamMembership Artifact EphemeralStore SweepTimeout Delivery.

Open Scope N_scope.

(** What a sweep needs of the write facade. *)
Class SweepStore (S : Type) := {
  sweep_delivery :: DeliveryStore S;
  sweep_deletion :: DeletionPort ErrorView S;
  port_record_org : OrgStateSnapshot -> S -> result ErrorView () * S;
  port_record_team : string -> TeamRoster -> string -> OrgMembershipFetchStatus -> S ->
    result ErrorView () * S;
}.

(** ** The phases of the saga *)

Inductive SweepPhase :=
| Init
| Resumed
| BaselineReused
| AwaitingBatch
| BatchDrained
| Completed
| PhaseFailed (error : string).
#[export] Instance SweepPhase_eq_dec : EqDecision SweepPhase.
Proof. solve_decision. Defined.

(** The clock of the sweep, the signature of the alert snapshot and the channel
    of the budget's pauses are left out. *)
Record SweepSaga := mkSweepSaga {
  phase : SweepPhase;
  completed : gmap string RepositoryEvidence;
  baseline_cache : gmap string RepositoryEvidence;
  resumed_count : N;
  baseline_reused : N;
  saga_run_timestamp : string;
  saga_org_summary : OrgAlertSummary;
}.

Definition with_phase (p : SweepPhase) (saga : SweepSaga) : SweepSaga :=
  mkSweepSaga p (completed saga) (baseline_cache saga) (resumed_count saga) (baseline_reused saga)
    (saga_run_timestamp saga) (saga_org_summary saga).

(** How the wait for the batch ends: the batch is done, or the time is over
    first, while the sweep waits for the barrier or, [stopping], for the
    partial publisher. *)
Inductive BatchEnding := BatchEnds | TimeIsOver (stopping : bool).

(** [OrgAlertContext], without its snapshot, [CollectionContext]. *)
Record CollectionContext := mkCollectionContext {
  ctx_capabilities : CapabilitySet;
  ctx_auth_metadata : AuthMetadata;
}.

Section Sweep.
  Context {P : Pardosa} {S T V W Page Sch Env Cache : Type}.
  Context `{!SweepStore S, !BatchTracker T, !JsonValue V, !ClientEnv V W}.
  Context `{!EventEnvelope Env SweepTimeoutEvent, !DurableScheduler Sch Env}.
  Context (client_config : ClientConfig).
  Context (to_lowercase : string -> string) (parse_timestamp : string -> option Z).
  Context (ts_text date_text run_text : Z -> string).
  Context (parse_team_member : V -> result string GhTeamMember)
    (parse_org_member : V -> result string GhOrgMember).
  (** [Uuid::parse_str], the [Display] of the store's and the storage's errors,
      the greatest timestamp. *)
  Context (parse_uuid : string -> result string N).
  Context (store_error_text : StoreError -> string) (persistence_text : ErrorView -> string).
  Context (timestamp_max : Z).
  (** The renderer and the pages, as in [Artifact]. *)
  Context (CachedPage_new : string -> string -> Page) (cached_asset : string -> Page)
    (populate_route_aliases : gmap string Page -> gmap string Page)
    (render_streaming : EvidenceArtifact -> DashboardConfig -> bool ->
       option PublicationDisclosure -> result ReportError (list (string * string)))
    (etag : Page -> string).
  (** The cache of repository details that outlives the client's runs. *)
  Context (cache_insert : string -> CachedRepoDetail V -> Cache -> Cache)
    (cache_entries : Cache -> list (string * CachedRepoDetail V)).
  Notation M := (M V W).
  Notation Publications := (PublicationState Page RetainedRenderInput).

(** The parts of the application's state that a sweep works on. *)
Record SweepWorld := mkSweepWorld {
  sw_service : Service S T;
  sw_source : N;
  sw_sequence : N;
  sw_live_sequence : N;
  sw_publication : Publications;
  sw_current_run : option RunMetadata;
  sw_last_completed : option RunMetadata;
  sw_org_summary : option OrgAlertSummary;
  sw_client : Client V W;
  sw_details : Cache;
  sw_scheduler : Sch * EphemeralState Env;
}.

Definition with_service svc w : SweepWorld :=
  mkSweepWorld svc (sw_source w) (sw_sequence w) (sw_live_sequence w) (sw_publication w)
    (sw_current_run w) (sw_last_completed w) (sw_org_summary w) (sw_client w) (sw_details w) (sw_scheduler w).
Definition with_render_sequence n w : SweepWorld :=
  mkSweepWorld (sw_service w) (sw_source w) n (sw_live_sequence w) (sw_publication w)
    (sw_current_run w) (sw_last_completed w) (sw_org_summary w) (sw_client w) (sw_details w) (sw_scheduler w).
Definition with_live_sequence n w : SweepWorld :=
  mkSweepWorld (sw_service w) (sw_source w) (sw_sequence w) n (sw_publication w)
    (sw_current_run w) (sw_last_completed w) (sw_org_summary w) (sw_client w) (sw_details w) (sw_scheduler w).
Definition with_reports p w : SweepWorld :=
  mkSweepWorld (sw_service w) (sw_source w) (sw_sequence w) (sw_live_sequence w) p
    (sw_current_run w) (sw_last_completed w) (sw_org_summary w) (sw_client w) (sw_details w) (sw_scheduler w).
Definition with_current_run r w : SweepWorld :=
  mkSweepWorld (sw_service w) (sw_source w) (sw_sequence w) (sw_live_sequence w) (sw_publication w)
    r (sw_last_completed w) (sw_org_summary w) (sw_client w) (sw_details w) (sw_scheduler w).
Definition with_last_completed r w : SweepWorld :=
  mkSweepWorld (sw_service w) (sw_source w) (sw_sequence w) (sw_live_sequence w) (sw_publication w)
    (sw_current_run w) r (sw_org_summary w) (sw_client w) (sw_details w) (sw_scheduler w).
Definition set_org_alert_summary s w : SweepWorld :=
  mkSweepWorld (sw_service w) (sw_source w) (sw_sequence w) (sw_live_sequence w) (sw_publication w)
    (sw_current_run w) (sw_last_completed w) (Some s) (sw_client w) (sw_details w) (sw_scheduler w).
Definition with_client c w : SweepWorld :=
  mkSweepWorld (sw_service w) (sw_source w) (sw_sequence w) (sw_live_sequence w) (sw_publication w)
    (sw_current_run w) (sw_last_completed w) (sw_org_summary w) c (sw_details w) (sw_scheduler w).
Definition with_details d w : SweepWorld :=
  mkSweepWorld (sw_service w) (sw_source w) (sw_sequence w) (sw_live_sequence w) (sw_publication w)
    (sw_current_run w) (sw_last_completed w) (sw_org_summary w) (sw_client w) d (sw_scheduler w).
Definition with_scheduler s w : SweepWorld :=
  mkSweepWorld (sw_service w) (sw_source w) (sw_sequence w) (sw_live_sequence w) (sw_publication w)
    (sw_current_run w) (sw_last_completed w) (sw_org_summary w) (sw_client w) (sw_details w) s.

Definition store_of (w : SweepWorld) : S := store (sw_service w).
Definition projection_of (w : SweepWorld) : EvidenceProjection := port_projection (E := ErrorView) (store_of w).
(** A write of the sweep to the store. *)
Definition write_store (s : S) (w : SweepWorld) : SweepWorld := with_service (after_write s (sw_service w)) w.

(** What happens around a sweep. *)
Record SweepInputs := mkSweepInputs {
  si_arm : ArmInputs;
  si_publish : BatchEnqueueResult;
  si_events : list (Event S);
  si_late : list (Event S);
  si_ending : BatchEnding;
  si_waiting_reports : Publications -> Publications;
  si_meanwhile : list (Event S);
  si_finalizing_reports : Publications -> Publications;
  si_fetched_at : string;
  si_rendered_at : Z;
  si_completed_at : Z;
}.

(** ** The first steps *)

(** [SweepSaga::new]. *)
Definition saga_new (run : RunMetadata) (org_alert : OrgAlertSummary) (w : SweepWorld)
    : SweepSaga * SweepWorld :=
  (mkSweepSaga Init ∅ ∅ 0 0 (run_timestamp run_text run) org_alert, set_org_alert_summary org_alert w).

Definition step_baseline (config : RuntimeConfig) (inventory : AdmittedInventory) (p : EvidenceProjection)
    (saga : SweepSaga) : SweepSaga :=
  let cache :=
    reuse_from_baseline parse_timestamp (active_repos inventory) (dom (completed saga))
      (saga_run_timestamp saga) p (force_refresh config) (saga_org_summary saga) in
  mkSweepSaga BaselineReused (completed saga) cache (resumed_count saga) (N.of_nat (size cache))
    (saga_run_timestamp saga) (saga_org_summary saga).

(** The repositories that have to be evaluated. *)
Definition pending_repositories (inventory : AdmittedInventory) (saga : SweepSaga) : list Repository :=
  List.filter (fun r => negb (bool_decide (is_Some (completed saga !! inventory_key r)))
                 && negb (bool_decide (is_Some (baseline_cache saga !! inventory_key r))))
    (active_repos inventory).

Definition RunId_parse (value : string) : result AppError N := map_err AE_InvalidRunIdentity (parse_uuid value).

(** The batch is dropped when the time is over: what it did by then.  [None]
    where it would have been done at once, or was not that far. *)
Definition dropped_batch (stopping : bool) (run_id expected : N) (publish : BatchEnqueueResult)
    (es late : list (Event S)) (w : Service S T) : option (Service S T) :=
  match ds_admission (store w) with
  | Err _ => None
  | Ok _ =>
    let '(started, w) := publish_batch run_id expected publish w in
    match started with
    | StartFenced _ => None
    | Published batch =>
      let '(_, w) := run_events es w in
      if (accepted (pb_result batch) =? 0) && negb (expected =? 0) then None
      else if stopping then
        if tracker_released (pb_tracker batch) w then
          let '(_, w) := retire_batch (pb_owner batch) w in
          let '(_, w) := run_events late w in
          Some w
        else None
      else Some w
    end
  end.

Definition step_enqueue_and_await (config : RuntimeConfig) (run : RunMetadata) (context : CorrelationContext)
    (inputs : SweepInputs) (inventory : AdmittedInventory) (saga : SweepSaga) (w : SweepWorld)
    : option (result AppError () * SweepSaga * SweepWorld) :=
  match pending_repositories inventory saga with
  | [] => Some (Ok (), with_phase BatchDrained saga, w)
  | pending =>
    let saga := with_phase AwaitingBatch saga in
    let expected := N.of_nat (length pending) in
    match RunId_parse (run_id run) with
    | Err e => Some (Err e, saga, w)
    | Ok run_uuid =>
      let timeout := sweep_timeout config in
      '(armed, scheduler) ←
        arm_sweep_timeout store_error_text timestamp_max timeout run context (timed_out_error timeout)
          (si_arm inputs) (sw_scheduler w);
      let w := with_scheduler scheduler w in
      match armed with
      | Err e => Some (Err e, saga, w)
      | Ok armed =>
        match si_ending inputs with
        | BatchEnds =>
          let '(answer, svc) :=
            enqueue_and_await_batch run_uuid expected (si_publish inputs) (si_events inputs)
              (si_late inputs) (sw_service w) in
          answer ← answer;
          let w := with_reports (si_waiting_reports inputs (sw_publication w)) (with_service svc w) in
          let '(cancelled, scheduler) := cancel_sweep_timeout context armed (sw_scheduler w) in
          let w := with_scheduler scheduler w in
          Some
            match cancelled, answer with
            | Err e, _ => (Err e, saga, w)
            | Ok _, Ok true => (Ok (), with_phase BatchDrained saga, w)
            | Ok _, Ok false =>
              (Ok (), with_phase (PhaseFailed "all jobs rejected by work queue") saga, w)
            | Ok _, Err e =>
              (Err e, with_phase (PhaseFailed (AppError_display persistence_text e)) saga, w)
            end
        | TimeIsOver stopping =>
          svc ←
            dropped_batch stopping run_uuid expected (si_publish inputs) (si_events inputs)
              (si_late inputs) (sw_service w);
          let w := with_reports (si_waiting_reports inputs (sw_publication w)) (with_service svc w) in
          let '(fired, scheduler) := fire_due_sweep_timeout armed (sw_scheduler w) in
          let w := with_scheduler scheduler w in
          Some
            match fired with
            | Err e => (Err e, saga, w)
            | Ok _ => (Ok (), with_phase (PhaseFailed (timed_out_error timeout)) saga, w)
            end
        end
      end
    end
  end.

(** ** The end of a sweep *)

(** [log_org_record_failure]: its level and fields. *)
Definition log_org_record_failure (failure : WriteFailure ErrorView)
    : Level * (string * WritePolicyCategory * WriteResponse) :=
  (match severity_for (category failure) with WARN => WARN | _ => ERROR end,
   (persist_error_variant (failure_error failure), category failure, failure_response failure)).

(** [resolve_team_rosters]: the rosters, whether they already carry the members,
    and those that are recorded on the way. *)
Definition resolve_team_rosters (config : RuntimeConfig) (p : EvidenceProjection)
    (evidence_repos : list RepositoryEvidence) : M (list TeamRoster * bool * list TeamRoster) :=
  let team_slugs := team_owner_slugs to_lowercase evidence_repos in
  if team_roster_read_from_projection config then
    let from_projection := team_rosters_from_projection p in
    let existing_owners : gset string :=
      list_to_set (map (fun r => to_lowercase (canonical_owner r)) from_projection) in
    let missing_slugs :=
      List.filter (fun os => negb (bool_decide (to_lowercase (fst os) ∈ existing_owners))) team_slugs in
    match missing_slugs with
    | [] => mret (from_projection, true, [])
    | _ =>
      fetched ← collect_team_rosters client_config to_lowercase ts_text parse_team_member missing_slugs;
      mret (from_projection ++ fetched, false, fetched)
    end
  else
    rosters ← collect_team_rosters client_config to_lowercase ts_text parse_team_member team_slugs;
    mret (rosters, false, []).

(** The rosters that were fetched are recorded, whatever becomes of it. *)
Definition record_fetched (fetched_at : string) (fetched : list TeamRoster) (w : SweepWorld) : SweepWorld :=
  fold_left (fun w roster =>
      write_store (snd (port_record_team (Client.org_name client_config) roster fetched_at Fetched (store_of w))) w)
    fetched w.

(** [observe_live] around the reads of the rosters and the members. *)
Definition observe_rosters (config : RuntimeConfig) (inputs : SweepInputs) (p : EvidenceProjection)
    (evidence_repos : list RepositoryEvidence) (w : SweepWorld)
    : option (result AppError (list TeamRoster * option (gset string) * LiveObservationToken) * SweepWorld) :=
  let sequence := sw_live_sequence w + 1 in
  if u64_max <? sequence then Some (Err (AE_Persistence V_Io), w)
  else
    let w := with_live_sequence sequence w in
    '((rosters, _, fetched), client) ← resolve_team_rosters config p evidence_repos (sw_client w);
    let w := record_fetched (si_fetched_at inputs) fetched (with_client client w) in
    '(org_members, client) ←
      collect_org_members client_config to_lowercase parse_org_member (sw_client w);
    Some (Ok (rosters, org_members, mkLiveObservationToken (sw_source w) sequence), with_client client w).

(** What other tasks do while the report is prepared. *)
Definition meanwhile (inputs : SweepInputs) (w : SweepWorld) : SweepWorld :=
  let '(_, svc) := run_events (si_meanwhile inputs) (sw_service w) in
  with_reports (si_finalizing_reports inputs (sw_publication w)) (with_service svc w).

Definition store_client_repo_detail_cache (entries : list (string * CachedRepoDetail V)) (d : Cache) : Cache :=
  fold_left (fun d kd => cache_insert (fst kd) (snd kd) d) entries d.

(** The last step of [finalize_and_publish]: the client's details are kept. *)
Definition keep_details (w : SweepWorld) : option SweepWorld :=
  '(entries, client) ← export_cache (sw_client w);
  Some (with_details (store_client_repo_detail_cache entries (sw_details w)) (with_client client w)).

(** From the rosters and members on: the pages, and the client's details. *)
Definition prepare_report (f : FinalizeParams) (inputs : SweepInputs) (token : ProjectionCaptureToken)
    (p : EvidenceProjection)
    (live : result AppError (list TeamRoster * option (gset string) * LiveObservationToken)) (w : SweepWorld)
    : option (result AppError (PublicationCandidate Page RetainedRenderInput * bool * N) * SweepWorld) :=
  let w := meanwhile inputs w in
  match live with
  | Err e => Some (Err e, w)
  | Ok live =>
    match terminal_pages to_lowercase parse_timestamp ts_text date_text run_text CachedPage_new
            cached_asset populate_route_aliases render_streaming f token p live
            (si_rendered_at inputs) with
    | Err e => Some (Err e, w)
    | Ok pages => w ← keep_details w; Some (Ok pages, w)
    end
  end.

(** [finalize_and_publish]. *)
Definition finalize_and_publish (f : FinalizeParams) (inputs : SweepInputs) (w : SweepWorld)
    : option (result AppError (PublicationCandidate Page RetainedRenderInput * bool * N) * SweepWorld) :=
  let org_snapshot := build_org_state_snapshot date_text run_text (org_snapshot_params f) in
  let '(r, s) := write_with_policy (port_record_org org_snapshot) (store_of w) in
  let w := write_store s w in
  match r with
  | Err write_failure => Some (Err (AE_Persistence (failure_error write_failure)), w)
  | Ok _ =>
    match projection_render_snapshot (sw_source w) (sw_sequence w) (projection_of w) with
    | None => Some (Err (AE_Persistence V_Io), w)
    | Some (token, p) =>
      let w := with_render_sequence (pt_sequence token) w in
      '(live, w) ←
        (if team_roster_read_from_projection (fp_config f)
         then Some (Ok ([], None, mkLiveObservationToken 0 0), w)
         else
           observe_rosters (fp_config f) inputs p
             (include_unread_repositories (sorted_snapshot p) (fp_inventory f)
                (run_timestamp run_text (fp_run f))) w);
      prepare_report f inputs token p live w
    end
  end.

(** The commit of a rendered report. *)
Definition commit_pages (candidate : PublicationCandidate Page RetainedRenderInput) (w : SweepWorld)
    : SweepWorld :=
  with_reports
    (commit_cached_pages etag disclosure_summary
       (rerender CachedPage_new cached_asset populate_route_aliases render_streaming)
       candidate (sw_publication w)) w.

(** [commit_terminal_publication], under [admitted_write]: its operation never
    fails, so that admission stays as it is. *)
Definition commit_terminal_publication (completed_at : Z) (run : RunMetadata)
    (candidate : PublicationCandidate Page RetainedRenderInput) (saga : SweepSaga) (w : SweepWorld)
    : result AppError () * RunMetadata * SweepSaga * SweepWorld :=
  match ds_admission (store_of w) with
  | Err e => (Err (AE_Persistence e), run, saga, w)
  | Ok _ =>
    let run := run_complete completed_at run in
    (Ok (), run, with_phase Completed saga, with_last_completed (Some run) (commit_pages candidate w))
  end.

Definition finalize_params (config : RuntimeConfig) (run : RunMetadata) (ctx : CollectionContext)
    (inventory : AdmittedInventory) (saga : SweepSaga) (w : SweepWorld) : FinalizeParams :=
  mkFinalizeParams config run inventory (saga_org_summary saga) (ctx_auth_metadata ctx)
    (ctx_capabilities ctx) (rate_limit_warnings (sw_client w)).

Definition step_finalize (config : RuntimeConfig) (run : RunMetadata) (ctx : CollectionContext)
    (inputs : SweepInputs) (inventory : AdmittedInventory) (saga : SweepSaga) (w : SweepWorld)
    : option (result AppError N * RunMetadata * SweepSaga * SweepWorld) :=
  let '(r, s) := reconcile_deleted_repositories inventory (run_timestamp run_text run) (store_of w) in
  let w := write_store s w in
  match r with
  | Err e => Some (Err (AE_Persistence e), run, saga, w)
  | Ok _ =>
    '(res, w) ← finalize_and_publish (finalize_params config run ctx inventory saga w) inputs w;
    match res with
    | Ok (pages, _, unscanned) =>
      let '(r, run, saga, w) := commit_terminal_publication (si_completed_at inputs) run pages saga w in
      Some (let? _ := r in Ok unscanned, run, saga, w)
    | Err e =>
      Some (Err e, run, with_phase (PhaseFailed (AppError_display persistence_text e)) saga, w)
    end
  end.

(** ** The saga *)

(** [run_to_completion]. *)
Definition run_to_completion (config : RuntimeConfig) (run : RunMetadata) (context : CorrelationContext)
    (ctx : CollectionContext) (inputs : SweepInputs) (inventory : AdmittedInventory) (saga : SweepSaga)
    (w : SweepWorld) : option (result AppError N * RunMetadata * SweepSaga * SweepWorld) :=
  let saga := step_baseline config inventory (projection_of w) (with_phase Resumed saga) in
  '(r, saga, w) ← step_enqueue_and_await config run context inputs inventory saga w;
  match r with
  | Err e => Some (Err e, run, saga, w)
  | Ok _ =>
    match phase saga with
    | PhaseFailed error => Some (Err (AE_Inventory (Inventory.ApiFetchFailed error)), run, saga, w)
    | _ => step_finalize config run ctx inputs inventory saga w
    end
  end.

Definition with_coverage (c : CollectionCoverage) (r : RunMetadata) : RunMetadata :=
  mkRunMetadata (run_id r) (started_at r) (completed_at r) (run_organization r) (run_schema_version r)
    (run_status r) c.

Definition run_collection_pipeline (config : RuntimeConfig) (run : RunMetadata) (context : CorrelationContext)
    (ctx : CollectionContext) (inputs : SweepInputs) (inventory : ValidatedInventory)
    (org_alert : OrgAlertSummary) (w : SweepWorld)
    : option (result AppError N * RunMetadata * SweepSaga * SweepWorld) :=
  let bounded_inventory := admit_inventory (max_repos config) inventory in
  let run := with_coverage (CoverageKnown (total_discovered bounded_inventory) (max_repos config)) run in
  let w := with_current_run (Some run) w in
  let '(saga, w) := saga_new run org_alert w in
  run_to_completion config run context ctx inputs bounded_inventory saga w.

Inductive CollectionOutcome :=
| CollectionCompleted (unscanned : N)
| CollectionCancelled
| CollectionFenced.

(** [run_collection_inner_with_pipeline] of a pipeline that was not cancelled. *)
Definition pipeline_outcome (r : result AppError N) : result AppError CollectionOutcome :=
  match r with
  | Ok unscanned => Ok (CollectionCompleted unscanned)
  | Err (AE_Persistence (V_FencedConflict _ _)) => Ok CollectionFenced
  | Err e => Err e
  end.

(** ** Before and around the saga *)

Definition bootstrap_github_credential (app_config : option GitHubAppConfig) (env : Environment)
    (gh : GhOutput) : result AppError GitHubCredential :=
  match app_config with
  | Some _ => Ok (from_installation_token "" 0%Z)
  | None => map_err AE_GitHubApi (credential_from_environment env gh)
  end.

(** The initializer of the client's cell. *)
Definition init_client (debug_assertions : bool) (default_base_url org : string) (env : Environment)
    (files : string -> KeyFile) (gh : GhOutput) (http : result GitHubApiError ()) (world : W)
    : result AppError (ClientConfig * Client V W) :=
  let? app_config := map_err AE_GitHubApi (app_config_from_environment env files) in
  let? credential := bootstrap_github_credential app_config env gh in
  map_err AE_GitHubApi (client_new debug_assertions credential default_base_url org app_config http world).

(** [prepare_collection], once the lock was taken ([locked]) and the client is
    there ([initialized]). *)
Definition prepare_client (entries : list (string * CachedRepoDetail V))
    : M (result AppError CollectionContext) :=
  clear_run_cache;;
  reset_halt;;
  seed_cache entries;;
  capabilities ← probe_capabilities client_config;
  if negb (can_run capabilities) then
    mret (Err (AE_GitHubApi (AuthorizationDenied
      "insufficient permissions to list org repositories; set GITHUB_TOKEN or run `gh auth login`")))
  else
    auth_metadata ← collect_auth_metadata client_config;
    mret (Ok (mkCollectionContext capabilities auth_metadata)).

Definition prepare_collection (locked : result ErrorView ()) (initialized : result AppError ()) (w : SweepWorld)
    : option (result AppError CollectionContext * SweepWorld) :=
  match locked, initialized with
  | Err e, _ => Some (Err (AE_Persistence e), w)
  | Ok _, Err e => Some (Err e, w)
  | Ok _, Ok _ =>
    '(r, client) ← prepare_client (cache_entries (sw_details w)) (sw_client w);
    Some (r, with_client client w)
  end.

(** What a run starts from: the lock, the client's cell, the inventory and the
    alerts that the collectors read, and, where the run is cancelled, the state
    the dropped pipeline left. *)
Record RunInputs := mkRunInputs {
  ri_due_at : Z;
  ri_locked : result ErrorView ();
  ri_initialized : result AppError ();
  ri_inventory : result AppError ValidatedInventory;
  ri_org_alerts : list Repository -> string -> OrgAlertSummary;
  ri_sweep : SweepInputs;
  ri_cancelled : option (SweepWorld -> SweepWorld);
}.

(** The lock file is released on every path. *)
Definition run_collection_inner (config : RuntimeConfig) (run : RunMetadata) (context : CorrelationContext)
    (inputs : RunInputs) (w : SweepWorld) : option (result AppError CollectionOutcome * SweepWorld) :=
  let '(recovered, scheduler) := recover_due_sweep_timeouts (ri_due_at inputs) (sw_scheduler w) in
  let w := with_scheduler scheduler w in
  match recovered with
  | Err e => Some (Err e, w)
  | Ok _ =>
    '(setup, w) ← prepare_collection (ri_locked inputs) (ri_initialized inputs) w;
    match setup, ri_inventory inputs with
    | Err e, _ | Ok _, Err e => Some (Err e, w)
    | Ok ctx, Ok inventory =>
      '(_, client) ←
        evict_stale_entries (map (fun r => (repo_name r, updated_at r)) (v_active_repos inventory))
          (sw_client w);
      let w := with_client client w in
      let org_alert := ri_org_alerts inputs (v_active_repos inventory) (run_timestamp run_text run) in
      match ri_cancelled inputs with
      | Some dropped => Some (Ok CollectionCancelled, dropped w)
      | None =>
        '(r, _, _, w) ←
          run_collection_pipeline config run context ctx (ri_sweep inputs) inventory org_alert w;
        Some (pipeline_outcome r, w)
      end
    end
  end.

(** [run_with_outcome], under the lock of the sweeps; the random bytes and the
    time of the run's metadata are drawn.  The gate of the budget is sized by
    [effective_budget_ceiling] of [Evaluator]. *)
Definition run_with_outcome (config : RuntimeConfig) (schema_version : string) (random : list N) (now : Z)
    (correlation : list N -> CorrelationContext) (inputs : RunInputs) (w : SweepWorld)
    : option (result AppError CollectionOutcome * SweepWorld) :=
  match ds_admission (store_of w) with
  | Err e => Some (Err (AE_Persistence e), w)
  | Ok _ =>
    let run := RunMetadata_new random now (Config.org_name config) schema_version in
    uuid ← correlation_context run;
    let w := with_current_run (Some run) w in
    '(r, w) ← run_collection_inner config run (correlation uuid) inputs w;
    Some (r, with_current_run None w)
  end.

(** [run]. *)
Definition run_discarding (r : result AppError CollectionOutcome) : result AppError () := let? _ := r in Ok ().

(** ** Lemmas *)

(** What a step of the sweep does not touch. *)
Definition same_reports (w w' : SweepWorld) : Prop :=
  sw_last_completed w' = sw_last_completed w /\ sw_publication w' = sw_publication w.

Lemma same_reports_trans w1 w2 w3 : same_reports w1 w2 -> same_reports w2 w3 -> same_reports w1 w3.
Proof. unfold same_reports. intros [-> ->]. done. Qed.

Lemma store_write s w : store_of (write_store s w) = s.
Proof.
  unfold store_of, write_store, after_write, drain_scheduled. simpl.
  repeat case_match; done.
Qed.

Lemma record_fetched_reports at_ fetched : forall w, same_reports w (record_fetched at_ fetched w).
Proof.
  unfold record_fetched. induction fetched as [|r l IH]; intros w; [done|]. cbn [fold_left].
  eapply same_reports_trans; [|apply IH]. done.
Qed.

Lemma observe_reports config inputs p repos w x w' :
  observe_rosters config inputs p repos w = Some (x, w') -> same_reports w w'.
Proof.
  unfold observe_rosters. case_match; [by intros [= _ <-]|].
  destruct (resolve_team_rosters _ _ _ _) as [[[[rs b] fetched] cl]|]; [|done]. simpl.
  destruct (collect_org_members _ _ _ _) as [[ms cl']|]; [|done]. simpl. intros [= _ <-].
  exact (record_fetched_reports _ _ _).
Qed.

(** How the wait of a sweep over [w] ended well: nothing was left to evaluate,
    or the batch was accounted for. *)
Definition batch_settled (run : RunMetadata) (inputs : SweepInputs) (pending : list Repository)
    (w : SweepWorld) (svc : Service S T) : Prop :=
  pending = [] /\ svc = sw_service w \/
  exists id, RunId_parse (run_id run) = Ok id /\
    enqueue_and_await_batch id (N.of_nat (length pending)) (si_publish inputs) (si_events inputs)
      (si_late inputs) (sw_service w) = (Some (Ok true), svc).

Lemma enqueue_spec config run context inputs inventory saga w r saga' w' :
  step_enqueue_and_await config run context inputs inventory saga w = Some (r, saga', w') ->
  sw_last_completed w' = sw_last_completed w /\
  (sw_publication w' = sw_publication w \/
   sw_publication w' = si_waiting_reports inputs (sw_publication w)) /\
  saga_org_summary saga' = saga_org_summary saga /\ phase saga' <> Completed /\
  (r = Ok () ->
     phase saga' = BatchDrained /\
       batch_settled run inputs (pending_repositories inventory saga) w (sw_service w') \/
     exists e, phase saga' = PhaseFailed e).
Proof.
  unfold step_enqueue_and_await, batch_settled. destruct (pending_repositories inventory saga) as [|p l].
  { intros [= <- <- <-]. split_and!; [done|by left|done|done|]. intros _. left. split; [done|by left]. }
  destruct (RunId_parse (run_id run)) as [id|e]; [|intros [= <- <- <-]; split_and!; auto; done].
  destruct (arm_sweep_timeout _ _ _ _ _ _ _ _) as [[[armed|e] sch]|]; [| |done]; cbn -[N.of_nat];
    [|intros [= <- <- <-]; split_and!; auto; done].
  destruct (si_ending inputs) as [|stopping].
  - destruct (enqueue_and_await_batch _ _ _ _ _ _) as [[answer|] svc] eqn:Eb; [|done]. cbn.
    destruct (cancel_sweep_timeout _ _ _) as [[c|e] sch'].
    2:{ intros [= <- <- <-]. split_and!; auto; done. }
    destruct answer as [[]|e]; intros [= <- <- <-]; split_and!; auto; try done.
    + intros _. left. split; [done|]. right. by exists id.
    + intros _. right. by eexists.
  - destruct (dropped_batch _ _ _ _ _ _ _) as [svc|]; [|done]. cbn.
    destruct (fire_due_sweep_timeout _ _) as [[c|e] sch']; intros [= <- <- <-]; split_and!; auto; try done.
    intros _. right. by eexists.
Qed.

Local Notation pages_of :=
  (terminal_pages to_lowercase parse_timestamp ts_text date_text run_text CachedPage_new cached_asset
     populate_route_aliases render_streaming).
Local Notation commit_to :=
  (commit_cached_pages etag disclosure_summary
     (rerender CachedPage_new cached_asset populate_route_aliases render_streaming)).

Lemma meanwhile_reports inputs w :
  sw_last_completed (meanwhile inputs w) = sw_last_completed w /\
  sw_publication (meanwhile inputs w) = si_finalizing_reports inputs (sw_publication w).
Proof. unfold meanwhile. by destruct (run_events _ _). Qed.

Lemma keep_details_reports w w' : keep_details w = Some w' -> same_reports w w'.
Proof. unfold keep_details. destruct (export_cache _) as [[es cl]|]; [|done]. by intros [= <-]. Qed.

Lemma prepare_report_spec f inputs token p live w res w' :
  prepare_report f inputs token p live w = Some (res, w') ->
  sw_last_completed w' = sw_last_completed w /\
  sw_publication w' = si_finalizing_reports inputs (sw_publication w) /\
  forall candidate ws unscanned, res = Ok (candidate, ws, unscanned) ->
  exists live', pages_of f token p live' (si_rendered_at inputs) = Ok (candidate, ws, unscanned).
Proof.
  unfold prepare_report. destruct (meanwhile_reports inputs w) as [Hl Hp].
  destruct live as [live|e]; [|by intros [= <- <-]].
  destruct (pages_of _ _ _ _ _) as [pages|e] eqn:Epages; [|by intros [= <- <-]].
  destruct (keep_details _) as [w4|] eqn:Ek; [|done]. intros [= <- <-].
  apply keep_details_reports in Ek as [-> ->]. split_and!; [done..|].
  intros c ws u [= ->]. by exists live.
Qed.

Lemma finalize_spec f inputs w res w' :
  finalize_and_publish f inputs w = Some (res, w') ->
  sw_last_completed w' = sw_last_completed w /\
  (sw_publication w' = sw_publication w \/
   sw_publication w' = si_finalizing_reports inputs (sw_publication w)) /\
  forall candidate ws unscanned, res = Ok (candidate, ws, unscanned) ->
  exists s token live,
    write_with_policy (port_record_org (build_org_state_snapshot date_text run_text (org_snapshot_params f)))
      (store_of w) = (Ok (), s) /\
    pages_of f token (port_projection (E := ErrorView) s) live (si_rendered_at inputs) =
      Ok (candidate, ws, unscanned).
Proof.
  unfold finalize_and_publish.
  destruct (write_with_policy _ (store_of w)) as [[[]|failure] s] eqn:Ew.
  2:{ intros [= <- <-]. split_and!; [done|by left|done]. }
  unfold projection_of. rewrite store_write. set (p := port_projection s).
  unfold projection_render_snapshot. destruct (next_render_capture _) as [n|].
  2:{ intros [= <- <-]. split_and!; [done|by left|done]. }
  set (token := mkProjectionCaptureToken _ _ _). set (w1 := with_render_sequence _ _). intros H.
  assert (exists live w2, same_reports w1 w2 /\ prepare_report f inputs token p live w2 = Some (res, w'))
    as (live & w2 & [Hl Hp] & Hrest).
  { revert H. destruct (team_roster_read_from_projection _).
    { intros H. eexists _, w1. split; [done|exact H]. }
    destruct (observe_rosters (fp_config f) inputs p _ w1) as [[live w2]|] eqn:Eo; [|done].
    intros H. exists live, w2. split; [exact (observe_reports _ _ _ _ _ _ _ Eo)|exact H]. }
  destruct (prepare_report_spec _ _ _ _ _ _ _ _ Hrest) as (Hl' & Hp' & Hok).
  rewrite Hl' Hp' Hl Hp. split_and!; [done|by right|].
  intros c ws u Hres. destruct (Hok _ _ _ Hres) as [live' Hpages]. by exists s, token, live'.
Qed.

(** The report of a sweep over [w], made from the store [svc] holds once the
    batch is settled: the repositories that are gone were removed, the state of
    the organization was written, and what is rendered is the projection that
    this write left. *)
Definition report_made (f : FinalizeParams) (inputs : SweepInputs) (detected_at : string) (svc : Service S T)
    (candidate : PublicationCandidate Page RetainedRenderInput) (unscanned : N) : Prop :=
  exists s1 s2 token live ws,
    reconcile_deleted_repositories (E := ErrorView) (fp_inventory f) detected_at (store svc) = (Ok (), s1) /\
    write_with_policy (port_record_org (build_org_state_snapshot date_text run_text (org_snapshot_params f)))
      s1 = (Ok (), s2) /\
    pages_of f token (port_projection (E := ErrorView) s2) live (si_rendered_at inputs) =
      Ok (candidate, ws, unscanned).

Lemma finalize_step_spec config run ctx inputs inventory saga w r run' saga' w' :
  phase saga <> Completed ->
  step_finalize config run ctx inputs inventory saga w = Some (r, run', saga', w') ->
  exists published,
    (published = sw_publication w \/ published = si_finalizing_reports inputs (sw_publication w)) /\
  match r with
  | Ok unscanned =>
    run' = run_complete (si_completed_at inputs) run /\ phase saga' = Completed /\
    sw_last_completed w' = Some run' /\ admitted (store_of w') /\
    exists candidate f, fp_inventory f = inventory /\ fp_run f = run /\ fp_config f = config /\
      sw_publication w' = commit_to candidate published /\
      report_made f inputs (run_timestamp run_text run) (sw_service w) candidate unscanned
  | Err e =>
    run' = run /\ phase saga' <> Completed /\
    sw_last_completed w' = sw_last_completed w /\ sw_publication w' = published
  end.
Proof.
  intros Hphase. unfold step_finalize.
  destruct (reconcile_deleted_repositories _ _ _) as [[[]|e] s1] eqn:Er.
  2:{ intros [= <- <- <- <-]. exists (sw_publication w). by split_and!; [left|..]. }
  set (w1 := write_store s1 w). set (f := finalize_params _ _ _ _ _ _).
  destruct (finalize_and_publish f inputs w1) as [[res w2]|] eqn:Ef; [|done].
  destruct (finalize_spec _ _ _ _ _ Ef) as (Hl & Hp & Hok). cbn [mbind option_bind].
  assert (sw_publication w1 = sw_publication w) as Hw1 by done. rewrite Hw1 in Hp.
  destruct res as [[[candidate ws] unscanned]|e].
  2:{ intros [= <- <- <- <-]. exists (sw_publication w2). by split_and!. }
  unfold commit_terminal_publication. destruct (ds_admission (store_of w2)) as [[]|e] eqn:Ea.
  2:{ intros [= <- <- <- <-]. exists (sw_publication w2). by split_and!. }
  intros [= <- <- <- <-]. exists (sw_publication w2). split; [done|]. split_and!; [done..|].
  exists candidate, f. split_and!; [done..|].
  destruct (Hok _ _ _ eq_refl) as (s2 & token & live & Hw & Hpages).
  exists s1, s2, token, live, ws. split; [done|]. split; [|done].
  unfold w1 in Hw. by rewrite store_write in Hw.
Qed.

(** The publications a sweep finds when it commits: those of the partial
    publisher and of other tasks, while it waited and while it rendered. *)
Definition found_publication (inputs : SweepInputs) (before found : Publications) : Prop :=
  exists waited, (waited = before \/ waited = si_waiting_reports inputs before) /\
    (found = waited \/ found = si_finalizing_reports inputs waited).

(** C26: when a sweep publishes.  A sweep that succeeds has settled its batch,
    with nothing left unwritten, removed the repositories that are gone and
    written the state of the organization; its report is rendered from the
    projection that write left, and committed as the last completed run while
    writes are still admitted.  A sweep that ends in an error, whichever step
    failed, commits nothing and completes no run: publications are only those
    of other tasks, and its phase is never Completed. *)
Theorem sweep_publishes_when_settled config run context ctx inputs inventory saga w r run' saga' w' :
  run_to_completion config run context ctx inputs inventory saga w = Some (r, run', saga', w') ->
  exists found, found_publication inputs (sw_publication w) found /\
  match r with
  | Ok unscanned =>
    run' = run_complete (si_completed_at inputs) run /\ phase saga' = Completed /\
    sw_last_completed w' = Some run' /\ admitted (store_of w') /\
    exists svc candidate f, fp_inventory f = inventory /\ fp_run f = run /\ fp_config f = config /\
      batch_settled run inputs
        (pending_repositories inventory (step_baseline config inventory (projection_of w) saga)) w svc /\
      report_made f inputs (run_timestamp run_text run) svc candidate unscanned /\
      sw_publication w' = commit_to candidate found
  | Err e =>
    run' = run /\ phase saga' <> Completed /\
    sw_last_completed w' = sw_last_completed w /\ sw_publication w' = found
  end.
Proof.
  unfold run_to_completion.
  set (saga1 := step_baseline config inventory (projection_of w) (with_phase Resumed saga)).
  change (pending_repositories inventory (step_baseline config inventory (projection_of w) saga))
    with (pending_repositories inventory saga1).
  destruct (step_enqueue_and_await _ _ _ _ _ _ _) as [[[r1 saga2] w1]|] eqn:Ee; [|done].
  destruct (enqueue_spec _ _ _ _ _ _ _ _ _ _ Ee) as (Hl & Hp & _ & Hph & Hok). cbn [mbind option_bind].
  destruct r1 as [[]|e].
  2:{ intros [= <- <- <- <-]. exists (sw_publication w1).
      split; [exists (sw_publication w1); by split; [|left]|by split_and!]. }
  destruct (Hok eq_refl) as [[Hd Hs]|[error Hf]].
  2:{ rewrite Hf. intros [= <- <- <- <-]. exists (sw_publication w1).
      split; [exists (sw_publication w1); by split; [|left]|]. rewrite Hf. by split_and!. }
  rewrite Hd. intros H. destruct (finalize_step_spec _ _ _ _ _ _ _ _ _ _ _ Hph H) as (found & Hfound & Hr).
  exists found. split; [by exists (sw_publication w1)|]. destruct r as [unscanned|e].
  - destruct Hr as (-> & ? & ? & ? & candidate & f & ? & ? & ? & ? & ?).
    split_and!; [done..|]. exists (sw_service w1), candidate, f. by split_and!.
  - destruct Hr as (-> & ? & Hl' & ?). rewrite Hl' Hl. by split_and!.
Qed.

(** The weaker statement that the runs around a sweep rest on. *)
Lemma completion_reports config run context ctx inputs inventory saga w r run' saga' w' :
  run_to_completion config run context ctx inputs inventory saga w = Some (r, run', saga', w') ->
  match r with
  | Ok _ => exists run'', sw_last_completed w' = Some run'' /\ run_status run'' = Run_Completed
  | Err _ => sw_last_completed w' = sw_last_completed w
  end.
Proof.
  unfold run_to_completion.
  destruct (step_enqueue_and_await _ _ _ _ _ _ _) as [[[r1 saga2] w1]|] eqn:Ee; [|done].
  destruct (enqueue_spec _ _ _ _ _ _ _ _ _ _ Ee) as (Hl & _ & _ & Hph & Hok). cbn [mbind option_bind].
  destruct r1 as [[]|e]; [|by intros [= <- <- <- <-]].
  destruct (Hok eq_refl) as [[Hd _]|[error Hf]]; [|rewrite Hf; by intros [= <- <- <- <-]].
  rewrite Hd. intros H.
  destruct (finalize_step_spec _ _ _ _ _ _ _ _ _ _ _ Hph H) as (found & _ & Hr). rewrite -Hl.
  destruct r as [u|e]; [destruct Hr as (-> & _ & -> & _); by eexists|by destruct Hr as (_ & _ & -> & _)].
Qed.

Lemma pipeline_reports config run context ctx inputs inventory org_alert w r run' saga' w' :
  run_collection_pipeline config run context ctx inputs inventory org_alert w = Some (r, run', saga', w') ->
  match r with
  | Ok _ => exists run'', sw_last_completed w' = Some run'' /\ run_status run'' = Run_Completed
  | Err _ => sw_last_completed w' = sw_last_completed w
  end.
Proof. unfold run_collection_pipeline. intros H. exact (completion_reports _ _ _ _ _ _ _ _ _ _ _ _ H). Qed.

Lemma prepare_reports locked initialized w r w' :
  prepare_collection locked initialized w = Some (r, w') -> same_reports w w'.
Proof.
  unfold prepare_collection. destruct locked; [|by intros [= _ <-]].
  destruct initialized; [|by intros [= _ <-]].
  destruct (prepare_client _ _) as [[x cl]|]; [|done]. by intros [= _ <-].
Qed.

(** A run leaves no current run behind, and completes one exactly when it says
    so: not when it failed, nor when another writer fenced it off. *)
Lemma run_outcome_exact config schema_version random now correlation inputs w r w' :
  run_with_outcome config schema_version random now correlation inputs w = Some (r, w') ->
  (~ admitted (store_of w) -> w' = w /\ exists e, r = Err e) /\
  (admitted (store_of w) -> sw_current_run w' = None) /\
  (ri_cancelled inputs = None ->
   match r with
   | Ok (CollectionCompleted _) =>
     exists run, sw_last_completed w' = Some run /\ run_status run = Run_Completed
   | _ => sw_last_completed w' = sw_last_completed w
   end).
Proof.
  unfold run_with_outcome, admitted. destruct (ds_admission (store_of w)) as [[]|e] eqn:Ea.
  2:{ intros [= <- <-]. split_and!; [by split; [|eexists]|done|done]. }
  destruct (correlation_context _) as [uuid|]; [|done]. cbn [mbind option_bind].
  set (w1 := with_current_run _ w). set (run := RunMetadata_new _ _ _ _).
  destruct (run_collection_inner _ _ _ _ w1) as [[r1 w2]|] eqn:Ei; [|done]. intros [= <- <-].
  split_and!; [done|done|]. intros Hc. revert Ei. unfold run_collection_inner.
  destruct (recover_due_sweep_timeouts _ _) as [[[]|e] sch]; [|by intros [= <- <-]].
  destruct (prepare_collection _ _ _) as [[setup w3]|] eqn:Ep; [|done]. cbn [mbind option_bind].
  apply prepare_reports in Ep as [Hp _].
  destruct setup as [ctx|e]; [|by intros [= <- <-]].
  destruct (ri_inventory inputs) as [inventory|e]; [|by intros [= <- <-]].
  destruct (evict_stale_entries _ _) as [[x cl]|]; [|done]. cbn [mbind option_bind]. rewrite Hc.
  match goal with |- context [run_collection_pipeline ?a ?b ?c ?d ?e ?f ?g ?h] =>
    destruct (run_collection_pipeline a b c d e f g h) as [[[[r2 run2] saga2] w4]|] eqn:El end; [|done].
  intros [= <- <-]. apply pipeline_reports in El. destruct r2 as [u|e]; [exact El|].
  simpl. change (sw_last_completed w4 = sw_last_completed w3) in El. cbn [sw_last_completed] in *.
  destruct e as [| | | | |[]| |]; simpl; by rewrite El Hp.
Qed.

End Sweep.
Arguments SweepWorld : clear implicits.
Arguments SweepInputs : clear implicits.
Arguments RunInputs : clear implicits.

(** ** A sweep over a small service *)

#[local] Instance told_sweep : SweepStore ToldStore := {
  sweep_delivery := told_store;
  sweep_deletion := {|
    port_projection _ := EvidenceProjection_default;
    port_mark_repo_deleted _ _ _ s := (Ok (), s);
  |};
  port_record_org _ s := (Ok (), s);
  port_record_team _ _ _ _ s := (Ok (), s);
}.

#[local] Existing Instance Convert.plain_pardosa.

(** An envelope that is its fields, and a scheduler that never fires. *)
#[local] Instance plain_envelope : EventEnvelope (N * N * SweepTimeoutEvent) SweepTimeoutEvent := {
  envelope_new _ id n _ _ _ p := Ok (id, n, p);
  env_aggregate e := fst (fst e);
  env_sequence e := snd (fst e);
  env_payload e := snd e;
  validate_stream _ _ := Ok ();
}.
#[local] Instance idle_scheduler : DurableScheduler () (N * N * SweepTimeoutEvent) := {
  schedule_arm _ s := (Ok (), s);
  schedule_cancel _ _ s := (Ok (), s);
  schedule_recover_due _ _ s := (Ok (), s);
  payload_to_vec _ := Ok [];
  payload_from_slice _ := Err "empty";
}.

Definition sample_run : RunMetadata :=
  mkRunMetadata "r" 0 None "acme" "1" Run_InProgress CoverageUnknown.

Definition sample_saga : SweepSaga :=
  mkSweepSaga Init ∅ ∅ 0 0 "t" (Ghas.initial_summary CS_NotCollected None None).

Definition sample_world (writes : list (option ErrorView)) :
    SweepWorld ToldStore N Json (list SendResult) string () (N * N * SweepTimeoutEvent) () :=
  mkSweepWorld (idle_service writes) 0 0 0 (mkPublicationState None None []) None None None
    (sample_client []) () ((), ephemeral_new).

(** Two jobs, whose outcomes arrive. *)
Definition sample_inputs : SweepInputs ToldStore string :=
  mkSweepInputs (mkArmInputs 0 1 2 3) (mkBatchEnqueueResult 2 2 0) [sample_success 7; sample_success 7] []
    BatchEnds (fun p => p) [] (fun p => p) "t" 0 0.

Definition sample_sweep (config : RuntimeConfig) (inputs : SweepInputs ToldStore string) writes :=
  run_to_completion (Page := string) (P := Convert.plain_pardosa) sample_config to_ascii_lowercase (fun _ => None)
    (fun _ => "t") (fun _ => "d") (fun _ => "t") sample_team_member sample_org_member (fun _ => Ok 7)
    (fun _ => "") (fun _ => "") 1000000000000000000 (fun _ content => content) (fun path => path)
    (fun pages => pages) (fun _ _ _ _ => Ok [("index.html", "report")]) (fun page => page)
    (fun _ _ d => d)
    config sample_run (mkCorrelationContext None None)
    (mkCollectionContext CapabilitySet_default (mkAuthMetadata TT_Unknown "cached" AM_Unknown))
    inputs sample_admitted sample_saga (sample_world writes).

Definition sweep_ended (r : option (result AppError N * RunMetadata * SweepSaga *
    SweepWorld ToldStore N Json (list SendResult) string () (N * N * SweepTimeoutEvent) ()))
    : option (bool * SweepPhase) :=
  match r with
  | Some (Ok _, _, saga, _) => Some (true, phase saga)
  | Some (Err _, _, saga, _) => Some (false, phase saga)
  | None => None
  end.

Definition ended_with (config : result ConfigError RuntimeConfig) writes : option (bool * SweepPhase) :=
  match config with Ok config => sweep_ended (sample_sweep config sample_inputs writes) | Err _ => None end.

(** A sweep whose two records are written publishes its report; one that
    loses a record publishes nothing. *)
Lemma sweep_publishes_when_settled_witness :
  ended_with (Config.RuntimeConfig_new "acme" false 4 "/var") [] = Some (true, Completed) /\
  match Config.RuntimeConfig_new "acme" false 4 "/var" with
  | Ok config =>
    match sample_sweep config sample_inputs [], sample_sweep config sample_inputs [Some V_Io] with
    | Some (Ok _, run', _, w'), Some (Err _, _, _, w'') =>
      sw_last_completed w' = Some run' /\ run' = run_complete 0 sample_run /\
      sw_last_completed w'' = None /\ sw_publication w'' = mkPublicationState None None []
    | _, _ => False
    end
  | Err _ => False
  end.
Proof.
  split; [vm_compute; reflexivity|].
  assert (ended_with (Config.RuntimeConfig_new "acme" false 4 "/var") [] = Some (true, Completed)) as Hgood
    by (vm_compute; reflexivity).
  assert (option_map fst (ended_with (Config.RuntimeConfig_new "acme" false 4 "/var") [Some V_Io]) = Some false)
    as Hbad by (vm_compute; reflexivity).
  unfold ended_with in Hgood, Hbad.
  destruct (Config.RuntimeConfig_new "acme" false 4 "/var") as [config|e]; [|discriminate Hgood].
  destruct (sample_sweep config sample_inputs []) as [[[[r run'] saga'] w']|] eqn:Eg; [|discriminate Hgood].
  destruct (sample_sweep config sample_inputs [Some V_Io]) as [[[[r2 run2] saga2] w2]|] eqn:Eb;
    [|discriminate Hbad].
  destruct r as [u|e]; [|discriminate Hgood]. destruct r2 as [u2|e2]; [discriminate Hbad|].
  destruct (sweep_publishes_when_settled _ _ _ _ _ _ _ _ _ _ _ _ _ _ _ _ _ _ _ _ _ _ _ _ _ _ _ _ _ _ Eg)
    as (found & _ & -> & _ & Hl & _).
  destruct (sweep_publishes_when_settled _ _ _ _ _ _ _ _ _ _ _ _ _ _ _ _ _ _ _ _ _ _ _ _ _ _ _ _ _ _ Eb)
    as (found2 & (waited & Hw & Hf) & _ & _ & Hl2 & Hp2).
  split; [exact Hl|]. split; [reflexivity|]. split; [exact Hl2|]. rewrite Hp2.
  destruct Hf as [->| ->], Hw as [->| ->]; reflexivity.
Defined.
