(* ===== verification/SweepReport.v ===== *)
(** * What the report of a sweep shows ([app/collect.rs], [app/state/mod.rs])

    The write facade of [AppState] is a store a sweep can run against, and
    what a report made over it lists: the repositories of the inventory, where
    the inventory has the authority to remove those that are gone. *)

From S2P Require Import Prelude Str Repository Checks Evidence Metrics Run Projection WritePolicy Errors.
From S2P Require Import Store Events Convert AppState InventoryAuthority Baseline Publication Artifact.
From S2P Require Import Client TeamRefresh Delivery Sweep.

Open Scope N_scope.

Section Facade.
  Context {P : Pardosa} (parse_timestamp : string -> option Z) (jiff_string : Z -> option string).
  Context {B : Type} `{!Backend B NativeDomainEvent} `{!Backend B NativeOrgStateCaptured}
    `{!Backend B TeamEvent}.
  Notation AppWrites := (AppWrites (P := P) (B := B)).

#[local] Instance facade_deletion : DeletionPort ErrorView AppWrites := {
  port_projection := projection_state;
  port_mark_repo_deleted := mark_repo_deleted parse_timestamp jiff_string;
}.

#[local] Instance facade_sweep : SweepStore AppWrites := {
  sweep_delivery := facade_delivery parse_timestamp jiff_string;
  sweep_deletion := facade_deletion;
  port_record_org := record_org;
  port_record_team := record_team;
}.

Lemma deleted_event_fold k n d event : deleted_repo_event parse_timestamp k n d = Ok event ->
  exists n' d', native_projection_event jiff_string false event = Some (RepositoryDeleted k n' d').
Proof.
  unfold deleted_repo_event. intros H. conv_chain H. match goal with E : non_empty _ "domain_key" _ = _ |- _ =>
    apply non_empty_str in E as <- end. by eexists _, _.
Qed.

#[local] Instance facade_deletion_laws : DeletionPortLaws ErrorView AppWrites.
Proof.
  assert (forall k n d s r s', mark_repo_deleted parse_timestamp jiff_string k n d s = (r, s') ->
    match r with
    | Ok _ => exists n' d', projection_state s' = apply (projection_state s) (RepositoryDeleted k n' d')
    | Err _ => projection_state s' = projection_state s
    end) as H.
  { intros k n d s r s'. unfold mark_repo_deleted, admitted_write.
    destruct (write_admission s); [by intros [= <- <-]|].
    destruct (deleted_repo_event _ _ _ _) as [event|e] eqn:Ee.
    2:{ destruct e; by intros [= <- <-]. }
    unfold record_primary. destruct (store_record _ _ _) as [[x|x] st].
    2:{ destruct (native_store_persistence x); by intros [= <- <-]. }
    intros [= <- <-]. destruct (deleted_event_fold _ _ _ _ Ee) as (n' & d' & Hf).
    exists n', d'. unfold fold_native_event. simpl. by rewrite Hf. }
  split.
  - intros k n d s [] s' E. destruct (H _ _ _ _ _ _ E) as (n' & d' & Hp). simpl. rewrite Hp. simpl.
    rewrite lookup_insert_eq. by split; [|eexists].
  - intros k n d s e s' E. exact (H _ _ _ _ _ _ E).
Qed.

(** The write of the organization's state leaves the repositories alone. *)
Lemma record_org_repositories snapshot (s : AppWrites) r s' : record_org snapshot s = (r, s') ->
  p_repositories (projection_state s') = p_repositories (projection_state s).
Proof.
  unfold record_org, admitted_write. destruct (write_admission s); [by intros [= <- <-]|].
  destruct (map_err conversion_persistence _) as [event|e]; [|destruct e; by intros [= <- <-]].
  unfold record_primary. destruct (store_record _ _ (event_store s)) as [[x|x] st].
  2:{ destruct (native_store_persistence x); by intros [= <- <-]. }
  destruct (store_record _ _ (org_event_store _)) as [[y|y] st']; intros [= <- <-]; [|done].
  unfold fold_org_event, org_projection_event. simpl. unfold apply_org_state. simpl. by destruct (negb _ || _).
Qed.
End Facade.

(** What the report relies on in the store. *)
Class SweepStoreLaws (S : Type) `{!SweepStore S} : Prop := {
  sweep_deletion_laws :: DeletionPortLaws ErrorView S;
  org_keeps_repositories : forall snapshot s r s', port_record_org snapshot s = (r, s') ->
    p_repositories (port_projection (E := ErrorView) s') = p_repositories (port_projection (E := ErrorView) s);
}.

#[global] Instance facade_sweep_laws {P : Pardosa} parse_timestamp jiff_string {B : Type}
    `{!Backend B NativeDomainEvent, !Backend B NativeOrgStateCaptured, !Backend B TeamEvent} :
  @SweepStoreLaws (AppWrites (P := P) (B := B)) (facade_sweep parse_timestamp jiff_string).
Proof.
  split; [exact (facade_deletion_laws parse_timestamp jiff_string)|].
  intros snapshot s r s'. exact (record_org_repositories snapshot s r s').
Qed.

(** The key a row of the report stands for. *)
Definition row_key (r : RepositoryEvidence) : string := inventory_key (repository r).

Section Report.
  Context {S T Page : Type} `{!SweepStore S, !SweepStoreLaws S}.
  Context (to_lowercase : string -> string) (parse_timestamp : string -> option Z)
    (ts_text date_text run_text : Z -> string)
    (CachedPage_new : string -> string -> Page) (cached_asset : string -> Page)
    (populate_route_aliases : gmap string Page -> gmap string Page)
    (render_streaming : EvidenceArtifact -> Config.DashboardConfig -> bool ->
       option PublicationDisclosure -> result ReportError (list (string * string))).
  Local Notation pages_of :=
    (terminal_pages to_lowercase parse_timestamp ts_text date_text run_text CachedPage_new cached_asset
       populate_route_aliases render_streaming).
  Local Notation report_made :=
    (report_made to_lowercase parse_timestamp ts_text date_text run_text CachedPage_new cached_asset
       populate_route_aliases render_streaming).
  Local Notation live s := (p_repositories (port_projection (E := ErrorView) s)).

(** A terminal candidate keeps the evidence it was rendered from. *)
Lemma candidate_evidence f token p live now candidate ws unscanned :
  pages_of f token p live now = Ok (candidate, ws, unscanned) ->
  exists input, render_input candidate = Some input /\
    ea_repositories (ri_evidence input) =
      include_unread_repositories (sorted_snapshot p) (fp_inventory f) (run_timestamp run_text (fp_run f)) /\
    unscanned = count_unscanned_repos (ri_evidence input).
Proof.
  unfold terminal_pages. destruct (terminal_sources f token p live) as [[[? ?] ?] source].
  unfold build_sourced_publication_pages. destruct (render_publication_cache _ _ _ _ _ _ _ _) as [pages|e]; [|done].
  intros [= <- _ <-]. eexists. split; [done|]. split; [|done]. apply terminal_repositories.
Qed.

Lemma row_of_unread repos inventory ts ev : ev ∈ include_unread_repositories repos inventory ts <->
  ev ∈ repos \/ exists repo, repo ∈ active_repos inventory /\ inventory_key repo ∉ map row_key repos /\
    ev = failure_evidence_with_reason repo ts PENDING_REASON.
Proof.
  unfold include_unread_repositories. rewrite elem_of_app elem_of_map. f_equiv. split.
  - intros (repo & [Hin Hb]%list_elem_of_In%filter_In & <-). exists repo.
    apply negb_true_iff, bool_decide_eq_false in Hb. rewrite elem_of_list_to_set in Hb.
    split; [by apply list_elem_of_In|done].
  - intros (repo & Hin & Hn & ->). exists repo. split; [|done]. apply list_elem_of_In, filter_In.
    split; [by apply list_elem_of_In|]. rewrite bool_decide_eq_false_2 // elem_of_list_to_set //.
Qed.

(** C27: what a report shows after its sweep has reconciled.  When the inventory
    is complete, uncapped and nonempty, the report lists exactly the
    repositories of the inventory, none that is gone and none left out; every
    row is the evidence that was live once the batch had settled, unchanged,
    or, where there was none, a placeholder that is pending; and the number of
    unread repositories that the sweep returns is the number of pending rows
    of that report. *)
Theorem sweep_report_exact f inputs detected_at (svc : Service S T) candidate unscanned keys :
  InventoryAuthority.keyed (port_projection (E := ErrorView) (store svc)) ->
  report_made f inputs detected_at svc candidate unscanned ->
  deletion_authority (fp_inventory f) = Some keys ->
  exists input, render_input candidate = Some input /\
    let rows := ea_repositories (ri_evidence input) in
    (forall k, k ∈ map row_key rows <-> k ∈ keys) /\
    (forall r, r ∈ rows ->
       live (store svc) !! row_key r = Some r \/
       live (store svc) !! row_key r = None /\ read_state_from_checks (checks r) = RS_Pending) /\
    unscanned = countb pending rows.
Proof.
  intros Hk (s1 & s2 & token & lv & ws & Hrec & Horg & Hpages) Ha.
  destruct (candidate_evidence _ _ _ _ _ _ _ _ Hpages) as (input & Hin & Hrows & Hcount).
  exists input. split; [done|]. cbv zeta. rewrite Hrows.
  assert (forall k, live s2 !! k = if bool_decide (k ∈ keys) then live (store svc) !! k else None) as Hlive.
  { intros k. rewrite -(reconcile_leaves_listed _ _ _ _ _ Hk Ha Hrec k). f_equal.
    destruct (policy_view _ (fun s => live s) _ _ _ (fun s e s' => org_keeps_repositories _ s (Err e) s') Horg)
      as (s0 & Hv & Hop). by rewrite (org_keeps_repositories _ _ _ _ Hop). }
  assert (InventoryAuthority.keyed (port_projection (E := ErrorView) s2)) as Hk2.
  { intros k ev Hev. rewrite Hlive in Hev. case_bool_decide; [by apply Hk|done]. }
  assert (forall k, k ∈ map row_key (sorted_snapshot (port_projection (E := ErrorView) s2)) <->
    is_Some (live s2 !! k)) as Hsnap by (intros k; by apply elem_of_snapshot_keys).
  assert (forall k, k ∈ keys <-> exists repo, repo ∈ active_repos (fp_inventory f) /\ inventory_key repo = k)
    as Hkeys.
  { revert Ha. unfold deletion_authority. case_match; [done|]. intros [= <-] k.
    by rewrite elem_of_list_to_set elem_of_map; split; intros (x & ? & ?); exists x. }
  destruct (sorted_snapshot_exact (port_projection (E := ErrorView) s2)) as (_ & _ & Hmem & _).
  split_and!.
  - intros k. rewrite elem_of_map. split.
    + intros (r & Hr & <-). apply row_of_unread in Hr as [Hr|(repo & Hrepo & _ & ->)].
      * apply Hmem in Hr as [k Hev]. rewrite /row_key (Hk2 _ _ Hev). unfold projection_get in Hev.
        rewrite Hlive in Hev. by case_bool_decide.
      * apply Hkeys. by exists repo.
    + intros (repo & Hrepo & <-)%Hkeys. destruct (live s2 !! inventory_key repo) as [ev|] eqn:E.
      * exists ev. split; [|by apply Hk2]. apply row_of_unread. left. apply Hmem. by eexists.
      * eexists. split; [apply row_of_unread; right; exists repo; split; [done|split; [|done]]|done].
        rewrite Hsnap E. by intros [].
  - intros r [Hr|(repo & Hrepo & Hn & ->)]%row_of_unread.
    + left. apply Hmem in Hr as [k Hev]. rewrite /row_key (Hk2 _ _ Hev). unfold projection_get in Hev.
      rewrite Hlive in Hev. by case_bool_decide.
    + right. split; [|by apply placeholder_pending]. rewrite Hsnap in Hn.
      apply eq_None_not_Some. intros Hs. apply Hn. rewrite Hlive bool_decide_eq_true_2; [done|].
      apply Hkeys. by exists repo.
  - rewrite Hcount. unfold count_unscanned_repos. by rewrite Hrows.
Qed.
End Report.

(** ** A report over a store that is its projection *)

#[local] Instance shown_delivery : DeliveryStore EvidenceProjection := {
  ds_admission _ := Ok ();
  ds_stop _ s := s;
  ds_get := projection_get;
  record_repo _ _ _ _ s := (Ok (), s);
}.
#[local] Instance shown_sweep : SweepStore EvidenceProjection := {
  sweep_delivery := shown_delivery;
  sweep_deletion := plain_port;
  port_record_org _ s := (Ok (), s);
  port_record_team _ _ _ _ s := (Ok (), s);
}.
#[local] Instance shown_laws : SweepStoreLaws EvidenceProjection.
Proof. split; [exact plain_port_laws|]. by intros snapshot s r s' [= _ <-]. Defined.

Definition sample_service : Service EvidenceProjection N := mkService sample_live None [] [] None None.
Definition sample_reconciled : EvidenceProjection :=
  snd (reconcile_deleted_repositories (E := ErrorView) (S := EvidenceProjection) sample_admitted "t" sample_live).
Definition sample_pages (config : Config.RuntimeConfig) :=
  terminal_pages (Page := string) to_ascii_lowercase (fun _ => None) (fun _ => "t") (fun _ => "d") (fun _ => "t")
    (fun _ content => content) (fun path => path) (fun pages => pages)
    (fun _ _ _ _ => Ok [("index.html", "report")]) (sample_finalize config) sample_token sample_reconciled
    ([], None, mkLiveObservationToken 0 1) 0.

Definition sample_report_inputs : SweepInputs EvidenceProjection string :=
  mkSweepInputs (SweepTimeout.mkArmInputs 0 1 2 3) (mkBatchEnqueueResult 0 0 0) [] [] BatchEnds (fun p => p) []
    (fun p => p) "t" 0 0.

(** The evidence of "a" and "c", an inventory of "a" and "b": the report lists
    "a" and "b". *)
Lemma sweep_report_exact_witness :
  match Config.RuntimeConfig_new "acme" false 4 "/var" with
  | Ok config =>
    match sample_pages config with
    | Ok (candidate, _, unscanned) =>
      exists input, render_input candidate = Some input /\
        (forall k, k ∈ map (fun r => inventory_key (repository r)) (ea_repositories (ri_evidence input)) <->
           k ∈ ({["b"; "a"]} : gset string)) /\
        unscanned = countb pending (ea_repositories (ri_evidence input))
    | Err _ => False
    end
  | Err _ => False
  end.
Proof.
  assert (is_some_and (fun c => is_some_and (fun _ => true) (ok (sample_pages c)))
    (ok (Config.RuntimeConfig_new "acme" false 4 "/var")) = true) as Hok by (vm_compute; reflexivity).
  destruct (Config.RuntimeConfig_new "acme" false 4 "/var") as [config|e]; [|discriminate Hok].
  simpl in Hok. destruct (sample_pages config) as [[[candidate ws] unscanned]|e] eqn:Ep; [|discriminate Hok].
  assert (deletion_authority sample_admitted = Some {["b"; "a"]}) as Ha by (vm_compute; reflexivity).
  destruct (sweep_report_exact (SweepStore0 := shown_sweep) (SweepStoreLaws0 := shown_laws) to_ascii_lowercase (fun _ => None) (fun _ => "t") (fun _ => "d") (fun _ => "t")
    (fun _ content => content) (fun path => path) (fun pages => pages)
    (fun _ _ _ _ => Ok [("index.html", "report")]) (sample_finalize config) sample_report_inputs "t"
    sample_service candidate unscanned {["b"; "a"]} sample_live_keyed) as (input & Hin & Hkeys & _ & Hcount).
  - exists sample_reconciled, sample_reconciled, sample_token, ([], None, mkLiveObservationToken 0 1), ws.
    split; [vm_compute; reflexivity|]. split; [reflexivity|exact Ep].
  - exact Ha.
  - exists input. split; [exact Hin|]. split; [exact Hkeys|exact Hcount].
Defined.
