(* ===== verification/Daemon.v ===== *)
(** * The daemon ([app/daemon.rs])

    The loops that start collections and team refreshes: the waits between
    them, the flags that hold for the first run only, the convergence after a
    fence, the shutdown.  A run, the reseeding of the stores and a tick of the
    team refresh are operations on the service's state; the outcomes are those
    of [Sweep] and [TeamRefresh].  What the loops do is recorded as actions. *)

From S2P Require Import Prelude Str Json Run WritePolicy Auth Errors Config Client TeamRefresh Sweep.

Open Scope N_scope.

(** ** Waits *)

(** [SHUTDOWN_DRAIN_TIMEOUT], in nanoseconds. *)
Definition SHUTDOWN_DRAIN_TIMEOUT : N := 3 * 1000000000.

Definition duration_millis (duration : N) : N := duration / 1000000.

Inductive NextTick := TickRun | TickCancel.

(** [next_collection_tick]: whether the channel says cancel before the wait,
    whether it changes during the wait, and what it says after it. *)
Definition next_collection_tick (cancelled changes cancelled_after : bool) : NextTick :=
  if cancelled then TickCancel
  else if changes then TickCancel
  else if cancelled_after then TickCancel else TickRun.

(** [1u64.checked_shl(n)]. *)
Definition checked_shl_one (n : N) : option N :=
  if n <? 64 then Some (N.shiftl 1 n mod 2 ^ 64) else None.

(** In seconds. *)
Definition collection_interval (consecutive_retries : N) : N :=
  if consecutive_retries =? 0 then COLLECTION_INTERVAL_SECS
  else
    let factor := default u64_max (checked_shl_one (sat_sub consecutive_retries 1)) in
    N.min (sat_mul u64_max COLLECTION_RETRY_INTERVAL_SECS factor) COLLECTION_INTERVAL_SECS.

(** ** Flags that hold once *)

(** The value of an [OneShotFlag]. *)
Definition consume (armed : bool) : bool * bool := (armed, false).
Definition peek (armed : bool) : bool := armed.

Record ForceFlags := mkForceFlags { force_flag : bool; force_refresh_flag : bool }.

Definition initial_run_config (config : RuntimeConfig) (flags : ForceFlags) : RuntimeConfig * ForceFlags :=
  let '(unlock, f) := consume (force_flag flags) in
  let '(refresh, g) := consume (force_refresh_flag flags) in
  (with_force unlock refresh config, mkForceFlags f g).

Definition scheduled_run_config (config : RuntimeConfig) (flags : ForceFlags) : RuntimeConfig :=
  with_force (peek (force_flag flags)) (peek (force_refresh_flag flags)) config.

(** ** Convergence after a fence *)

Record RearmPolicy := mkRearmPolicy { max_attempts : N; backoff_base : N }.
(** [RearmPolicy::DEFAULT]; the base in nanoseconds. *)
Definition RearmPolicy_DEFAULT : RearmPolicy := mkRearmPolicy 3 (2 * 1000000000).

Inductive RearmError (E : Type) :=
| ResyncFailed (attempts : N) (source : string)
| StillFenced (attempts : N)
| RunFailed (attempts : N) (source : E).
Arguments ResyncFailed {E}. Arguments StillFenced {E}. Arguments RunFailed {E}.

Inductive ConvergeStep (T E : Type) :=
| Converged (value : T)
| StepFenced
| StepFailed (source : E).
Arguments Converged {T E}. Arguments StepFenced {T E}. Arguments StepFailed {T E}.

(** What a convergence does, in order. *)
Inductive RearmAction :=
| Resynced (succeeded : bool)
| Attempted
| BackedOff (nanoseconds : N).

Section Converge.
  Context {St T E : Type} (policy : RearmPolicy).
  Context (resync : St -> result string () * St) (run : St -> ConvergeStep T E * St).

(** The loop of [converge_on_fence] at the attempt [attempt], of which [n] are
    left; [again] is the next turn, after the wait. *)
Fixpoint converge_from (n : nat) (attempt : N) (s : St)
    : result (RearmError E) T * list RearmAction * St :=
  match n with
  | O => (Err (StillFenced (max_attempts policy)), [], s)
  | S n =>
    let last := attempt =? max_attempts policy in
    let again s :=
      let '(r, actions, s) := converge_from n (attempt + 1) s in
      (r, BackedOff (backoff_base policy * attempt) :: actions, s) in
    let '(resynced, s) := resync s in
    match resynced with
    | Err source =>
      if last then (Err (ResyncFailed attempt source), [Resynced false], s)
      else let '(r, actions, s) := again s in (r, Resynced false :: actions, s)
    | Ok _ =>
      let '(step, s) := run s in
      let '(r, actions, s) :=
        match step with
        | Converged value => (Ok value, [], s)
        | StepFenced => if last then (Err (StillFenced attempt), [], s) else again s
        | StepFailed source => if last then (Err (RunFailed attempt source), [], s) else again s
        end in
      (r, Resynced true :: Attempted :: actions, s)
    end
  end.

(** [converge_on_fence]. *)
Definition converge_on_fence (s : St) : result (RearmError E) T * list RearmAction * St :=
  converge_from (N.to_nat (max_attempts policy)) 1 s.
End Converge.

(** The closure [rearm_after_fenced_conflict] hands to the combinator. *)
Definition classify_run (r : result AppError CollectionOutcome) : ConvergeStep CollectionOutcome AppError :=
  match r with
  | Ok CollectionFenced => StepFenced
  | Ok outcome => Converged outcome
  | Err source => StepFailed source
  end.

Definition rearm_after_fenced_conflict {St} (policy : RearmPolicy) (resync : St -> result string () * St)
    (run : St -> result AppError CollectionOutcome * St) (s : St)
    : result (RearmError AppError) CollectionOutcome * list RearmAction * St :=
  converge_on_fence policy resync (fun s => let '(r, s) := run s in (classify_run r, s)) s.

(** ** The collection loop *)

(** What the loop does: a run with a configuration, a wait of so many seconds,
    a convergence with its actions and the configurations of its runs. *)
Inductive LoopAction :=
| Ran (config : RuntimeConfig)
| Waited (seconds : N)
| Rearmed (actions : list RearmAction) (runs : list RuntimeConfig).

(** What the environment decides at a wait: whether it is cancelled, before,
    during or at its end, and what other tasks do to the service meanwhile. *)
Record WaitInputs (St : Type) := mkWaitInputs {
  wi_cancelled : bool;
  wi_changes : bool;
  wi_cancelled_after : bool;
  wi_meanwhile : St -> St;
}.
Arguments mkWaitInputs {St}. Arguments wi_cancelled {St}. Arguments wi_changes {St}.
Arguments wi_cancelled_after {St}. Arguments wi_meanwhile {St}.

Definition wait_outcome {St} (w : WaitInputs St) : NextTick :=
  next_collection_tick (wi_cancelled w) (wi_changes w) (wi_cancelled_after w).

Section CollectionLoop.
  Context {St : Type}.
  (** [ensure_write_admission], [collect::run_with_outcome] and
      [resync_event_store] on the service's state. *)
  Context (admitted : St -> bool) (run : RuntimeConfig -> St -> result AppError CollectionOutcome * St)
    (resync : St -> result string () * St).
  Context (config : RuntimeConfig).
  (** Whether [nats_store_config] succeeded. *)
  Context (nats_ok : bool).

(** [rearm_fenced_run]: each run draws its configuration from the flags. *)
Definition rearm_fenced_run (run_cfg : ForceFlags -> RuntimeConfig * ForceFlags) (flags : ForceFlags) (s : St)
    : option CollectionOutcome * list LoopAction * ForceFlags * St :=
  if negb nats_ok then (None, [], flags, s)
  else
    let reseed '(s, flags, runs) := let '(r, s) := resync s in (r, (s, flags, runs)) in
    let attempt '(s, flags, runs) :=
      let '(cfg, flags) := run_cfg flags in
      let '(r, s) := run cfg s in
      (r, (s, flags, runs ++ [cfg])) in
    let '(outcome, actions, (s, flags, runs)) :=
      rearm_after_fenced_conflict RearmPolicy_DEFAULT reseed attempt (s, flags, []) in
    (ok outcome, [Rearmed actions runs], flags, s).

(** What becomes of the count of retries after a run, whose convergence, where
    it was fenced, ended in [rearmed]. *)
Definition retries_after (consecutive_retries : N) (r : result AppError CollectionOutcome)
    (rearmed : option CollectionOutcome) : N :=
  let more := N.min (consecutive_retries + 1) u32_max in
  match r with
  | Ok (CollectionCompleted unscanned) => if unscanned =? 0 then 0 else more
  | Ok CollectionCancelled => consecutive_retries
  | Ok CollectionFenced =>
    match rearmed with
    | Some (CollectionCompleted unscanned) => if unscanned =? 0 then 0 else more
    | _ => more
    end
  | Err _ => more
  end.

(** A run of the loop with what follows it. *)
Definition run_and_settle (cfg : RuntimeConfig) (run_cfg : ForceFlags -> RuntimeConfig * ForceFlags)
    (consecutive_retries : N) (flags : ForceFlags) (s : St) : list LoopAction * N * ForceFlags * St :=
  let '(r, s) := run cfg s in
  let '(rearmed, actions, flags, s) :=
    match r with
    | Ok CollectionFenced => rearm_fenced_run run_cfg flags s
    | _ => (None, [], flags, s)
    end in
  (Ran cfg :: actions, retries_after consecutive_retries r rearmed, flags, s).

(** The loop of [spawn_collection_loop] over what happens at its waits. *)
Fixpoint scheduled_loop (waits : list (WaitInputs St)) (consecutive_retries : N) (flags : ForceFlags) (s : St)
    : list LoopAction * St :=
  match waits with
  | [] => ([], s)
  | w :: waits =>
    if negb (admitted s) then ([], s)
    else
      let waited := Waited (collection_interval consecutive_retries) in
      let s := wi_meanwhile w s in
      match wait_outcome w with
      | TickCancel => ([waited], s)
      | TickRun =>
        let cfg := scheduled_run_config config flags in
        if negb (admitted s) then ([waited], s)
        else
          let '(actions, retries, flags, s) :=
            run_and_settle cfg (fun flags => (scheduled_run_config config flags, flags))
              consecutive_retries flags s in
          let '(rest, s) := scheduled_loop waits retries flags s in
          (waited :: actions ++ rest, s)
      end
  end.

(** [spawn_collection_loop]: the initial run, then the loop. *)
Definition spawn_collection_loop (waits : list (WaitInputs St)) (flags : ForceFlags) (s : St)
    : list LoopAction * St :=
  let '(cfg, flags) := initial_run_config config flags in
  let '(actions, retries, flags, s) := run_and_settle cfg (initial_run_config config) 0 flags s in
  let '(rest, s) := scheduled_loop waits retries flags s in
  (actions ++ rest, s).
End CollectionLoop.

(** ** The team refresh loop *)

(** [ClientReady], or the wait goes on. *)
Inductive ClientReady := ClientExists | ClientCancelled | StillWaiting.

(** One poll of [await_github_client]: the channel says cancel, the client is
    there, the channel changes during the sleep. *)
Record ClientPoll := mkClientPoll { cp_cancelled : bool; cp_client : bool; cp_changes : bool }.

Fixpoint await_github_client (polls : list ClientPoll) : ClientReady :=
  match polls with
  | [] => StillWaiting
  | p :: polls =>
    if cp_cancelled p then ClientCancelled
    else if cp_client p then ClientExists
    else if cp_changes p then ClientCancelled
    else await_github_client polls
  end.

(** What the loop does: a tick, a failure it logs, a convergence. *)
Inductive TeamAction :=
| Ticked (fetched_at : string)
| TickFailureLogged (failure : TickFailure)
| TeamRearmed (actions : list RearmAction)
| TeamWaited (seconds : N).

(** [TeamRefreshFailureLogged]. *)
Inductive TeamRefreshFailureLogged := mkTeamRefreshFailureLogged.

Definition is_fenced (error : AppError) : bool :=
  match error with AE_Persistence (V_FencedConflict _ _) => true | _ => false end.

Definition rearm_after_fenced_team_refresh {St} (policy : RearmPolicy) (resync : St -> result string () * St)
    (run : St -> result TickFailure () * St) (s : St)
    : result (RearmError TeamRefreshFailureLogged) () * option TickFailure * list RearmAction * St :=
  let reseed '(s, last_failure) := let '(r, s) := resync s in (r, (s, last_failure)) in
  let attempt '(s, last_failure) :=
    let '(r, s) := run s in
    match r with
    | Ok _ => (Converged (), (s, last_failure))
    | Err failure =>
      (if is_fenced (tick_error failure) then StepFenced else StepFailed mkTeamRefreshFailureLogged,
       (s, Some failure))
    end in
  let '(outcome, actions, (s, last_failure)) := converge_on_fence policy reseed attempt (s, None) in
  (outcome, last_failure, actions, s).

Section TeamRefreshLoop.
  Context {St : Type} (admitted : St -> bool) (tick : string -> St -> result TickFailure () * St)
    (resync : St -> result string () * St) (stop_for_reconciliation : ErrorView -> St -> St).
  Context (nats_ok : bool).

(** [rearm_fenced_team_refresh_tick]. *)
Definition rearm_fenced_team_refresh_tick (fetched_at : string) (s : St) : list TeamAction * St :=
  if negb nats_ok then ([], s)
  else
    let '(outcome, last_failure, actions, s) :=
      rearm_after_fenced_team_refresh RearmPolicy_DEFAULT resync (tick fetched_at) s in
    match outcome, last_failure with
    | Ok _, _ => ([TeamRearmed actions], s)
    | Err _, Some failure =>
      match tick_error failure with
      | AE_Persistence V_Indeterminate =>
        ([TeamRearmed actions], stop_for_reconciliation V_Indeterminate s)
      | _ => ([TeamRearmed actions; TickFailureLogged failure], s)
      end
    | Err _, None => ([TeamRearmed actions], s)
    end.

Definition run_one_team_refresh_tick (fetched_at : string) (s : St) : list TeamAction * St :=
  if negb (admitted s) then ([], s)
  else
    let '(r, s) := tick fetched_at s in
    match r with
    | Ok _ => ([Ticked fetched_at], s)
    | Err failure =>
      match tick_error failure with
      | AE_Persistence V_Indeterminate => ([Ticked fetched_at], stop_for_reconciliation V_Indeterminate s)
      | AE_Persistence (V_FencedConflict _ _) =>
        let '(actions, s) := rearm_fenced_team_refresh_tick fetched_at s in
        (Ticked fetched_at :: actions, s)
      | _ => ([Ticked fetched_at; TickFailureLogged failure], s)
      end
    end.

(** A turn of the loop: its wait, the polls for the client, the time of the tick. *)
Record TeamTurn := mkTeamTurn {
  tt_wait : WaitInputs St;
  tt_polls : list ClientPoll;
  tt_fetched_at : string;
}.

Fixpoint team_refresh_loop (turns : list TeamTurn) (s : St) : list TeamAction * St :=
  match turns with
  | [] => ([], s)
  | t :: turns =>
    if negb (admitted s) then ([], s)
    else
      let waited := TeamWaited TEAM_REFRESH_INTERVAL_SECS in
      let s := wi_meanwhile (tt_wait t) s in
      match wait_outcome (tt_wait t), await_github_client (tt_polls t) with
      | TickCancel, _ | TickRun, (ClientCancelled | StillWaiting) => ([waited], s)
      | TickRun, ClientExists =>
        let '(actions, s) := run_one_team_refresh_tick (tt_fetched_at t) s in
        let '(rest, s) := team_refresh_loop turns s in
        (waited :: actions ++ rest, s)
      end
  end.

(** [spawn_team_refresh_loop]: the tick at startup does not wait. *)
Definition spawn_team_refresh_loop (polls : list ClientPoll) (fetched_at : string) (turns : list TeamTurn)
    (s : St) : list TeamAction * St :=
  match await_github_client polls with
  | ClientCancelled | StillWaiting => ([], s)
  | ClientExists =>
    let '(actions, s) := run_one_team_refresh_tick fetched_at s in
    let '(rest, s) := team_refresh_loop turns s in
    (actions ++ rest, s)
  end.
End TeamRefreshLoop.

(** ** Startup and shutdown *)

(** [resolve_port_with]. *)
Definition resolve_port_with (env_var : Environment) : result ConfigError N :=
  match env_var "PORT" with
  | Some val =>
    map_err (fun e => InvalidValue "PORT" ("invalid port: " +:+ ParseIntError_display e))
      (parse_unsigned u16_max val)
  | None => Ok 8080
  end.

(** [resolve_bind_address_with]. *)
Definition resolve_bind_address_with (env_var : Environment) : result ConfigError string :=
  match env_var "BIND_ADDRESS" with
  | Some val =>
    let trimmed := trim val in
    if is_empty trimmed
    then Err (InvalidValue "BIND_ADDRESS" "empty bind address; set to an IP like 127.0.0.1 or 0.0.0.0")
    else Ok trimmed
  | None => Ok DEFAULT_BIND_ADDRESS
  end.

(** How a background task ends within its budget. *)
Inductive TaskEnd := TaskReturned | TaskPanicked (error : string) | TaskRunning.
Inductive BackgroundDrainError := DrainJoin (error : string) | DrainTimeout.

(** [drain_task_after_cancel_with_timeout]: a task still running is aborted. *)
Definition drain_task_after_cancel_with_timeout (e : TaskEnd) : result BackgroundDrainError () * bool :=
  match e with
  | TaskReturned => (Ok (), false)
  | TaskPanicked error => (Err (DrainJoin error), false)
  | TaskRunning => (Err DrainTimeout, true)
  end.

(** The phases the daemon logs, with the reason of a drain. *)
Inductive DaemonPhase :=
| PhaseReady
| LoopsSpawned
| PhaseShutdownBegin
| PoolCancelled
| QueueClosed
| CancelSent
| DrainPool (reason : string)
| DrainDelivery (reason : string)
| DrainCollection (reason : string)
| DrainRefresh (reason : string)
| PhaseStopped.

Definition drain_reason (r : result BackgroundDrainError ()) : string :=
  match r with
  | Ok _ => "drained"
  | Err (DrainJoin _) => "join_error"
  | Err DrainTimeout => "timeout"
  end.

Definition pool_reason (drained : bool) : string := if drained then "drained" else "timeout".

(** [drain_shutdown_with_timeout], from what the pool, the delivery task and
    the two loops do within the budget. *)
Definition drain_shutdown_with_timeout (pool_drained delivery_drained : bool) (collection refresh : TaskEnd)
    : list DaemonPhase :=
  [PoolCancelled; QueueClosed; CancelSent;
   DrainPool (pool_reason pool_drained);
   DrainDelivery (pool_reason delivery_drained);
   DrainCollection (drain_reason (fst (drain_task_after_cancel_with_timeout collection)));
   DrainRefresh (drain_reason (fst (drain_task_after_cancel_with_timeout refresh)))].

(** What the steps of the startup answer. *)
Record DaemonInputs := mkDaemonInputs {
  di_env : Environment;
  di_address : string -> N -> result string ();
  di_listener : result string ();
  di_stores : result ErrorView ();
  di_fast_path : result string ();
  di_preflight : result string ();
  di_server : result string ();
  di_admitted_at_end : result ErrorView ();
  di_pool_drained : bool;
  di_delivery_drained : bool;
  di_collection : TaskEnd;
  di_refresh : TaskEnd;
}.

Definition server_error_runtime (error : string) : AppError := AE_Server (Runtime error).

(** What [run] checks before it touches the stores. *)
Definition resolve_serving (i : DaemonInputs) : result AppError () :=
  let? port := map_err AE_Config (resolve_port_with (di_env i)) in
  let? bind_address := map_err AE_Config (resolve_bind_address_with (di_env i)) in
  let? _ := map_err server_error_runtime (di_address i bind_address port) in
  map_err server_error_runtime (di_listener i).

Definition open_stores {Nats} (nats : result ConfigError Nats) (i : DaemonInputs) : result AppError () :=
  let? _ := map_err AE_Config nats in
  let? _ := map_err (fun _ => AE_Persistence V_LoadFailed) (di_stores i) in
  map_err (fun _ => AE_Persistence V_LoadFailed) (di_fast_path i).

(** The loops, unless the daemon only serves. *)
Definition spawn_loops (config : RuntimeConfig) (i : DaemonInputs) : result AppError (list DaemonPhase) :=
  if serve_only config then Ok []
  else
    let? _ := map_err (fun e => server_error_runtime ("write lease preflight failed: " +:+ e
                +:+ "; use --serve-only to run as a read replica")) (di_preflight i) in
    Ok [LoopsSpawned].

(** From the start of the server on. *)
Definition serve_and_drain (config : RuntimeConfig) (i : DaemonInputs) (spawned : list DaemonPhase)
    : result AppError () * list DaemonPhase :=
  let phases :=
    PhaseReady :: spawned ++ PhaseShutdownBegin ::
      drain_shutdown_with_timeout (di_pool_drained i) (di_delivery_drained i)
        (if serve_only config then TaskReturned else di_collection i)
        (if serve_only config then TaskReturned else di_refresh i) in
  match (let? _ := map_err AE_Persistence (di_admitted_at_end i) in
         map_err server_error_runtime (di_server i)) with
  | Err e => (Err e, phases)
  | Ok _ => (Ok (), phases ++ [PhaseStopped])
  end.

(** [run]: the error that ends it, or its return, with the phases; [nats] is
    what [nats_store_config] answers.  The warm start is left out: the daemon
    goes on whatever it returns. *)
Definition daemon_run {Nats} (config : RuntimeConfig) (nats : result ConfigError Nats) (i : DaemonInputs)
    : result AppError () * list DaemonPhase :=
  match resolve_serving i with
  | Err e => (Err e, [])
  | Ok _ =>
    match open_stores nats i with
    | Err e => (Err e, [])
    | Ok _ =>
      match spawn_loops config i with
      | Err e => (Err e, [PhaseReady])
      | Ok spawned => serve_and_drain config i spawned
      end
    end
  end.

(** ** Lemmas *)

(** The actions of the turns of a convergence from the turn [i] on; a turn
    says whether the reseeding succeeded, and so whether a run was made. *)
Fixpoint render_turns (base i : N) (turns : list bool) : list RearmAction :=
  match turns with
  | [] => []
  | t :: turns =>
    (if t then [Resynced true; Attempted] else [Resynced false]) ++
    match turns with [] => [] | _ => BackedOff (base * i) :: render_turns base (i + 1) turns end
  end.

Definition rearm_attempts {E} (e : RearmError E) : N :=
  match e with ResyncFailed n _ | StillFenced n | RunFailed n _ => n end.

Lemma render_cons base i t turns : turns <> [] ->
  render_turns base i (t :: turns) =
    (if t then [Resynced true; Attempted] else [Resynced false]) ++
      BackedOff (base * i) :: render_turns base (i + 1) turns.
Proof. by destruct turns. Qed.

Section ConvergeLemmas.
  Context {St T E : Type} (policy : RearmPolicy).
  Context (resync : St -> result string () * St) (run : St -> ConvergeStep T E * St).
  Notation Outcome := (result (RearmError E) T).
  Notation body t := (if t : bool then [Resynced true; Attempted] else [Resynced false]).

(** The outcome of at most [n] turns from [attempt] on, that left [s']. *)
Definition turns_made (attempt : N) (n : nat) (r : Outcome) (actions : list RearmAction) (s' : St) : Prop :=
  exists turns, actions = render_turns (backoff_base policy) attempt turns /\
    (0 < length turns <= n)%nat /\
    match r with
    | Ok value => last turns = Some true /\
        exists s1 s2, resync s1 = (Ok (), s2) /\ run s2 = (Converged value, s')
    | Err e => length turns = n /\ rearm_attempts e = max_attempts policy
    end.

Lemma turns_end t attempt e s' : rearm_attempts e = max_attempts policy ->
  turns_made attempt 1 (Err e) (body t) s'.
Proof. intros He. exists [t]. split; [by destruct t|]. split; [simpl; lia|done]. Qed.

Lemma turns_converged attempt n value s1 s2 s' : resync s1 = (Ok (), s2) ->
  run s2 = (Converged value, s') -> turns_made attempt (S n) (Ok value) [Resynced true; Attempted] s'.
Proof. intros Hs Hr. exists [true]. split; [done|]. split; [simpl; lia|]. split; [done|]. by exists s1, s2. Qed.

Lemma turns_again t attempt n r actions s' : turns_made (attempt + 1) n r actions s' ->
  turns_made attempt (S n) r (body t ++ BackedOff (backoff_base policy * attempt) :: actions) s'.
Proof.
  intros (turns & -> & Hl & Hr). exists (t :: turns).
  assert (turns <> []) as Hnil by (by destruct turns; simpl in *; [lia|]).
  rewrite render_cons //. split; [done|]. split; [simpl; lia|]. destruct r.
  - destruct Hr as [Hlast Hr]. split; [|done]. by destruct turns.
  - destruct Hr. split; [simpl; lia|done].
Qed.

Lemma converge_from_turns n : forall attempt s r actions s',
  (0 < n)%nat -> attempt + N.of_nat n = max_attempts policy + 1 ->
  converge_from policy resync run n attempt s = (r, actions, s') -> turns_made attempt n r actions s'.
Proof.
  induction n as [|n IH]; intros attempt s r actions s' Hn Ha; [lia|]. cbn [converge_from].
  assert (attempt =? max_attempts policy = bool_decide (n = 0%nat)) as ->.
  { case_bool_decide; [apply N.eqb_eq|apply N.eqb_neq]; lia. }
  assert (forall t s1 r1 actions1 s2, n <> 0%nat ->
    converge_from policy resync run n (attempt + 1) s1 = (r1, actions1, s2) ->
    turns_made attempt (S n) r1 (body t ++ BackedOff (backoff_base policy * attempt) :: actions1) s2) as Hagain.
  { intros t s1 r1 actions1 s2 Hne E1. apply turns_again, (IH _ s1); [lia..|done]. }
  destruct (resync s) as [[[]|source] s1] eqn:Er.
  - destruct (run s1) as [step s2] eqn:Erun. destruct step as [value| |source].
    1:{ intros [= <- <- <-]. by eapply turns_converged. }
    all: case_bool_decide as Hn0; [subst n; intros [= <- <- <-]; apply (turns_end true); simpl; lia|].
    all: destruct (converge_from _ _ _ n _ s2) as [[r1 actions1] s3] eqn:E1; intros [= <- <- <-].
    all: by eapply (Hagain true).
  - case_bool_decide as Hn0; [subst n; intros [= <- <- <-]; apply (turns_end false); simpl; lia|].
    destruct (converge_from _ _ _ n _ s1) as [[r1 actions1] s3] eqn:E1. intros [= <- <- <-].
    by eapply (Hagain false).
Qed.

(** C28: how a service converges after a fence.  Every run follows a reseeding
    of the stores that succeeded just before it, so no run is redriven on the
    state that lost the fence; there are at most as many turns as the policy
    allows, with a wait between two turns that grows with their number and
    none after the last; the service gives up only after all of them, and
    success is that of the last run, made in its last turn. *)
Theorem converge_exact s r actions s' : 0 < max_attempts policy ->
  converge_on_fence policy resync run s = (r, actions, s') ->
  exists turns, actions = render_turns (backoff_base policy) 1 turns /\
    0 < N.of_nat (length turns) <= max_attempts policy /\
    match r with
    | Ok value => last turns = Some true /\
        exists s1 s2, resync s1 = (Ok (), s2) /\ run s2 = (Converged value, s')
    | Err e => N.of_nat (length turns) = max_attempts policy /\ rearm_attempts e = max_attempts policy
    end.
Proof.
  intros Hm H. unfold converge_on_fence in H. apply converge_from_turns in H as (turns & Ha & Hl & Hr); [|lia..].
  exists turns. split; [done|]. split; [lia|]. destruct r; [done|]. destruct Hr. split; [lia|done].
Qed.
End ConvergeLemmas.

Lemma checked_shl_one_exact n : n < 64 -> checked_shl_one n = Some (2 ^ n).
Proof.
  intros Hn. unfold checked_shl_one. rewrite (proj2 (N.ltb_lt n 64) Hn) N.shiftl_1_l N.mod_small //.
  by apply N.pow_lt_mono_r.
Qed.

(** A minute after the first run that leaves work, doubling up to the hour. *)
Lemma collection_interval_exact n :
  collection_interval n = if n =? 0 then 3600 else N.min (60 * 2 ^ (n - 1)) 3600.
Proof.
  unfold collection_interval, COLLECTION_INTERVAL_SECS, COLLECTION_RETRY_INTERVAL_SECS.
  destruct (N.eqb_spec n 0) as [|Hn]; [done|]. unfold sat_sub.
  destruct (N.lt_ge_cases (n - 1) 64) as [Hlt|Hge].
  - rewrite checked_shl_one_exact //. cbn [default from_option]. unfold sat_mul, id, u64_max. lia.
  - unfold checked_shl_one. rewrite (proj2 (N.ltb_ge _ _) Hge). cbn [default from_option].
    assert (2 ^ 64 <= 2 ^ (n - 1)) by (by apply N.pow_le_mono_r).
    change (sat_mul u64_max 60 u64_max) with u64_max. unfold u64_max in *. lia.
Qed.

Lemma collection_interval_bounds n : 60 <= collection_interval n <= 3600.
Proof.
  rewrite collection_interval_exact. case_match; [lia|].
  assert (1 <= 2 ^ (n - 1)) by (change 1 with (2 ^ 0); apply N.pow_le_mono_r; lia). lia.
Qed.

(** The runs and the attempts of what the loop does. *)
Definition loop_runs (a : LoopAction) : list RuntimeConfig :=
  match a with Ran cfg => [cfg] | Waited _ => [] | Rearmed _ runs => runs end.
Definition runs_of (actions : list LoopAction) : list RuntimeConfig := concat (map loop_runs actions).
Definition is_attempt (a : RearmAction) : bool := match a with Attempted => true | _ => false end.

Definition disarmed : ForceFlags := mkForceFlags false false.

Lemma runs_of_app l l' : runs_of (l ++ l') = runs_of l ++ runs_of l'.
Proof. unfold runs_of. by rewrite map_app concat_app. Qed.

Section LoopLemmas.
  Context {St : Type} (admitted : St -> bool)
    (run : RuntimeConfig -> St -> result AppError CollectionOutcome * St)
    (resync : St -> result string () * St) (config : RuntimeConfig) (nats_ok : bool).
  Notation unforced := (with_force false false config).
  Notation Logged := (St * ForceFlags * list RuntimeConfig)%type.

(** A convergence over runs that are logged and never forced. *)
Lemma converge_logs (reseed : Logged -> result string () * Logged)
    (attempt : Logged -> ConvergeStep CollectionOutcome AppError * Logged) policy :
  (forall s runs r s', reseed (s, disarmed, runs) = (r, s') -> exists s0, s' = (s0, disarmed, runs)) ->
  (forall s runs r s', attempt (s, disarmed, runs) = (r, s') ->
     exists s0, s' = (s0, disarmed, runs ++ [unforced])) ->
  forall n i s runs r actions s',
  converge_from policy reseed attempt n i (s, disarmed, runs) = (r, actions, s') ->
  exists s0 k, s' = (s0, disarmed, runs ++ replicate k unforced) /\ (k <= n)%nat /\
    countb is_attempt actions = N.of_nat k.
Proof.
  intros Hr Ha. induction n as [|n IH]; intros i s runs r actions s'; cbn [converge_from].
  { intros [= <- <- <-]. exists s, 0%nat. by rewrite app_nil_r. }
  destruct (reseed _) as [[[]|e] s1] eqn:E1; destruct (Hr _ _ _ _ E1) as [s10 ->].
  - destruct (attempt _) as [step s2] eqn:E2. destruct (Ha _ _ _ _ E2) as [s20 ->].
    destruct step as [v| |e]; [intros [= <- <- <-]; exists s20, 1%nat; split_and!; [done|lia|done]|..].
    all: destruct (i =? max_attempts policy); [intros [= <- <- <-]; exists s20, 1%nat; split_and!; [done|lia|done]|].
    all: destruct (converge_from _ _ _ n _ _) as [[r1 actions1] s3] eqn:E3; intros [= <- <- <-].
    all: destruct (IH _ _ _ _ _ _ E3) as (s30 & k & -> & Hk & Hc); exists s30, (S k).
    all: rewrite -app_assoc !countb_cons Hc /=; split_and!; [done|lia|lia].
  - destruct (i =? max_attempts policy); [intros [= <- <- <-]; exists s10, 0%nat; rewrite app_nil_r; split_and!; [done|lia|done]|].
    destruct (converge_from _ _ _ n _ _) as [[r1 actions1] s3] eqn:E3; intros [= <- <- <-].
    destruct (IH _ _ _ _ _ _ E3) as (s30 & k & -> & Hk & Hc); exists s30, k.
    rewrite !countb_cons Hc /=. split_and!; [done|lia|lia].
Qed.

(** A convergence whose runs draw unforced configurations. *)
Lemma rearm_runs run_cfg s x actions flags s' : run_cfg disarmed = (unforced, disarmed) ->
  rearm_fenced_run run resync nats_ok run_cfg disarmed s = (x, actions, flags, s') ->
  flags = disarmed /\
  (actions = [] \/ exists acts k, actions = [Rearmed acts (replicate k unforced)] /\
     countb is_attempt acts = N.of_nat k /\ (k <= 3)%nat).
Proof.
  intros Hcfg. unfold rearm_fenced_run. destruct nats_ok; cbn [negb]; [|intros [= _ <- <- _]; by split; [|left]].
  unfold rearm_after_fenced_conflict, converge_on_fence.
  destruct (converge_from _ _ _ _ _ _) as [[r acts] [[s1 flags1] runs]] eqn:E.
  intros [= _ <- <- _]. apply converge_logs in E as (s0 & k & [= -> -> ->] & Hk & Hc).
  - split; [done|]. right. by exists acts, k.
  - intros s2 runs2 r2 s2'. destruct (resync s2) as [r3 s3]. intros [= _ <-]. by eexists.
  - intros s2 runs2 r2 s2'. rewrite Hcfg. destruct (run unforced s2) as [r3 s3]. intros [= _ <-]. by eexists.
Qed.

Definition rearm_bounded (a : LoopAction) : Prop :=
  match a with
  | Rearmed acts runs => countb is_attempt acts = N.of_nat (length runs) /\ (length runs <= 3)%nat
  | Waited seconds => 60 <= seconds <= 3600
  | Ran _ => True
  end.

(** A run, whatever its configuration, and the unforced ones that follow it. *)
Lemma settle_runs cfg run_cfg n s actions retries flags s' : run_cfg disarmed = (unforced, disarmed) ->
  run_and_settle run resync nats_ok cfg run_cfg n disarmed s = (actions, retries, flags, s') ->
  flags = disarmed /\ Forall rearm_bounded actions /\
  exists k, runs_of actions = cfg :: replicate k unforced.
Proof.
  intros Hcfg. unfold run_and_settle. destruct (run cfg s) as [r s1].
  assert (Forall rearm_bounded [Ran cfg] /\ exists k, runs_of [Ran cfg] = cfg :: replicate k unforced)
    as Hplain by (split; [by repeat constructor|by exists 0%nat]).
  destruct r as [[u| |]|e]; [by intros [= <- _ <- _]..| |by intros [= <- _ <- _]].
  destruct (rearm_fenced_run _ _ _ _ _ _) as [[[x acts] flags1] s2] eqn:E. intros [= <- _ <- _].
  apply rearm_runs in E as [-> Hacts]; [|done]. split; [done|].
  destruct Hacts as [->|(ra & k & -> & Hc & Hk)]; [done|].
  split; [|exists k; unfold runs_of; simpl; by rewrite app_nil_r].
  constructor; [done|]. constructor; [|constructor]. simpl. by rewrite length_replicate.
Qed.

Lemma scheduled_runs waits : forall n s actions s',
  scheduled_loop admitted run resync config nats_ok waits n disarmed s = (actions, s') ->
  Forall rearm_bounded actions /\ Forall (eq unforced) (runs_of actions).
Proof.
  induction waits as [|w waits IH]; intros n s actions s'; cbn [scheduled_loop].
  { intros [= <- _]. by repeat constructor. }
  destruct (admitted s); cbn [negb]; [|intros [= <- _]; by repeat constructor].
  pose proof (collection_interval_bounds n) as Hi.
  assert (Forall rearm_bounded [Waited (collection_interval n)] /\
    Forall (eq unforced) (runs_of [Waited (collection_interval n)])) as Hwait.
  { split; [by apply Forall_singleton|constructor]. }
  destruct (wait_outcome w); [|by intros [= <- _]].
  destruct (admitted _); cbn [negb]; [|by intros [= <- _]].
  destruct (run_and_settle _ _ _ _ _ _ _ _) as [[[acts retries] flags] s2] eqn:E.
  apply settle_runs in E as (-> & Hb & k & Hk); [|done].
  destruct (scheduled_loop _ _ _ _ _ waits _ _ _) as [rest s3] eqn:E2. intros [= <- _].
  apply IH in E2 as [Hb2 Hr2]. split.
  - constructor; [done|]. by apply Forall_app.
  - unfold runs_of in *. simpl. rewrite map_app concat_app Hk. apply Forall_app. split; [|done].
    constructor; [done|]. by apply Forall_replicate.
Qed.

(** A cancelled wait ends the loop: nothing that would follow it is run. *)
Lemma cancelled_wait waits1 w waits2 : wait_outcome w = TickCancel -> forall n flags s,
  runs_of (fst (scheduled_loop admitted run resync config nats_ok (waits1 ++ w :: waits2) n flags s)) =
  runs_of (fst (scheduled_loop admitted run resync config nats_ok waits1 n flags s)).
Proof.
  intros Hw. induction waits1 as [|w1 waits1 IH]; intros n flags s; cbn [app scheduled_loop].
  { rewrite Hw. by destruct (admitted s). }
  destruct (admitted s); cbn [negb]; [|done]. destruct (wait_outcome w1); [|done].
  destruct (admitted _); cbn [negb]; [|done].
  destruct (run_and_settle _ _ _ _ _ _ _ _) as [[[acts retries] flags1] s2].
  specialize (IH retries flags1 s2). destruct (scheduled_loop _ _ _ _ _ (waits1 ++ _) _ _ _) as [rest s3].
  destruct (scheduled_loop _ _ _ _ _ waits1 _ _ _) as [rest' s3']. simpl in *.
  change (runs_of (acts ++ rest) = runs_of (acts ++ rest')). by rewrite !runs_of_app IH.
Qed.

(** C29: what the collection loop starts and when.  The flags that force a run
    hold for the first run alone: every other run, those that converge the
    first one after a fence included, is unforced.  Every wait lasts between a
    minute and an hour; a fence leads to at most three more runs before the
    next wait; and once a wait is cancelled nothing is run any more. *)
Theorem collection_loop_runs waits flags s actions s' :
  spawn_collection_loop admitted run resync config nats_ok waits flags s = (actions, s') ->
  (exists rest, runs_of actions = with_force (force_flag flags) (force_refresh_flag flags) config :: rest /\
     Forall (eq unforced) rest) /\
  Forall rearm_bounded actions /\
  forall waits1 w waits2, waits = waits1 ++ w :: waits2 -> wait_outcome w = TickCancel ->
  runs_of actions = runs_of (fst (spawn_collection_loop admitted run resync config nats_ok waits1 flags s)).
Proof.
  unfold spawn_collection_loop. cbn [initial_run_config consume force_flag force_refresh_flag].
  change (mkForceFlags false false) with disarmed.
  destruct (run_and_settle _ _ _ _ _ _ _ _) as [[[acts retries] flags1] s1] eqn:E.
  apply settle_runs in E as (-> & Hb & k & Hk); [|done].
  destruct (scheduled_loop _ _ _ _ _ waits _ _ _) as [rest s2] eqn:E2. intros [= <- _].
  destruct (scheduled_runs _ _ _ _ _ E2) as [Hb2 Hr2]. split_and!.
  - exists (replicate k unforced ++ runs_of rest). rewrite runs_of_app Hk. split; [done|].
    apply Forall_app. split; [by apply Forall_replicate|done].
  - by apply Forall_app.
  - intros waits1 w waits2 -> Hw. pose proof (cancelled_wait waits1 w waits2 Hw retries disarmed s1) as Hc.
    rewrite E2 in Hc. destruct (scheduled_loop _ _ _ _ _ waits1 _ _ _) as [rest' s3]. simpl in *.
    by rewrite !runs_of_app Hc.
Qed.
End LoopLemmas.

(** One tick logs at most one failure, also after a convergence. *)
Definition logs_failure (a : TeamAction) : bool := match a with TickFailureLogged _ => true | _ => false end.

Lemma tick_logs_once {St} (admitted : St -> bool) tick resync stop nats_ok fetched_at s actions s' :
  run_one_team_refresh_tick admitted tick resync stop nats_ok fetched_at s = (actions, s') ->
  countb logs_failure actions <= 1.
Proof.
  unfold run_one_team_refresh_tick. destruct (admitted s); cbn [negb]; [|by intros [= <- _]].
  destruct (tick fetched_at s) as [[[]|failure] s1]; [by intros [= <- _]|].
  assert (forall acts s2, rearm_fenced_team_refresh_tick tick resync stop nats_ok fetched_at s1 = (acts, s2) ->
    countb logs_failure (Ticked fetched_at :: acts) <= 1) as Hr.
  { intros acts s2. unfold rearm_fenced_team_refresh_tick. destruct nats_ok; cbn [negb]; [|by intros [= <- _]].
    destruct (rearm_after_fenced_team_refresh _ _ _ _) as [[[outcome lf] ra] s3].
    destruct outcome; [by intros [= <- _]|]. destruct lf as [f|]; [|by intros [= <- _]].
    destruct (tick_error f) as [| | | | |[]| |]; by intros [= <- _]. }
  destruct (tick_error failure) as [| | | | |[]| |]; try by intros [= <- _].
  destruct (rearm_fenced_team_refresh_tick _ _ _ _ _ _) as [acts s2] eqn:E. intros [= <- _]. by eapply Hr.
Qed.

(** The daemon returns without an error exactly when every step of its startup
    succeeded, writes were admitted to the end and the server stopped well. *)
Lemma daemon_run_ok {Nats} config (nats : result ConfigError Nats) i :
  fst (daemon_run config nats i) = Ok () <->
  resolve_serving i = Ok () /\ open_stores nats i = Ok () /\
  (serve_only config = true \/ di_preflight i = Ok ()) /\ di_admitted_at_end i = Ok () /\ di_server i = Ok ().
Proof.
  unfold daemon_run, serve_and_drain, spawn_loops.
  destruct (resolve_serving i) as [[]|]; [|naive_solver].
  destruct (open_stores nats i) as [[]|]; [|naive_solver].
  destruct (serve_only config), (di_preflight i) as [[]|], (di_admitted_at_end i) as [[]|], (di_server i) as [[]|];
    simpl; naive_solver.
Qed.

(** A replica that only serves never spawns the loops, and a writer spawns them
    only after its lease was checked. *)
Lemma loops_need_lease {Nats} config (nats : result ConfigError Nats) i :
  LoopsSpawned ∈ snd (daemon_run config nats i) -> serve_only config = false /\ di_preflight i = Ok ().
Proof.
  unfold daemon_run, serve_and_drain, spawn_loops, drain_shutdown_with_timeout.
  destruct (resolve_serving i); [|by intros ?%elem_of_nil].
  destruct (open_stores nats i); [|by intros ?%elem_of_nil].
  destruct (serve_only config), (di_preflight i) as [[]|]; simpl;
    destruct (di_admitted_at_end i), (di_server i); simpl; rewrite ?elem_of_cons ?elem_of_nil; naive_solver.
Qed.

(** ** Samples *)

(** The first reseeding fails, the first run is fenced again, the second converges. *)
Definition sample_resync (s : N) : result string () * N := if s =? 0 then (Err "io", 1) else (Ok (), s + 1).
Definition sample_attempt (s : N) : ConvergeStep () string * N :=
  if s <? 3 then (StepFenced, s) else (Converged (), s).

Lemma converge_exact_witness :
  let '(r, actions, s') := converge_on_fence RearmPolicy_DEFAULT sample_resync sample_attempt 0 in
  r = Ok () /\ exists turns, actions = render_turns 2000000000 1 turns /\ last turns = Some true /\
    N.of_nat (length turns) <= 3.
Proof.
  assert (fst (fst (converge_on_fence RearmPolicy_DEFAULT sample_resync sample_attempt 0)) = Ok ()) as Hr
    by (vm_compute; reflexivity).
  destruct (converge_on_fence RearmPolicy_DEFAULT sample_resync sample_attempt 0) as [[r actions] s'] eqn:E.
  simpl in Hr. subst r. split; [reflexivity|].
  destruct (converge_exact RearmPolicy_DEFAULT sample_resync sample_attempt 0 (Ok ()) actions s'
    ltac:(reflexivity) E) as (turns & Ha & Hl & Hlast & _).
  exists turns. split; [exact Ha|]. split; [exact Hlast|]. exact (proj2 Hl).
Defined.

(** The first run is fenced; its convergence leaves a repository unread. *)
Definition sample_collect (_ : RuntimeConfig) (runs : N) : result AppError CollectionOutcome * N :=
  (if runs =? 0 then Ok CollectionFenced else Ok (CollectionCompleted (if runs =? 1 then 1 else 0)), runs + 1).

Definition quiet_wait (cancelled : bool) : WaitInputs N := mkWaitInputs cancelled false false (fun s => s).

Definition sample_loop (config : RuntimeConfig) : list LoopAction * N :=
  spawn_collection_loop (fun _ => true) sample_collect (fun s => (Ok (), s)) config true
    [quiet_wait false; quiet_wait true; quiet_wait false] (mkForceFlags true true) 0.

Lemma collection_loop_runs_witness :
  match Config.RuntimeConfig_new "acme" false 4 "/var" with
  | Ok config =>
    map (fun c => (force_unlock c, force_refresh c)) (runs_of (fst (sample_loop config))) =
      [(true, true); (false, false); (false, false)] /\
    Forall rearm_bounded (fst (sample_loop config)) /\
    exists rest, runs_of (fst (sample_loop config)) = with_force true true config :: rest
  | Err _ => False
  end.
Proof.
  assert (match Config.RuntimeConfig_new "acme" false 4 "/var" with
    | Ok config => map (fun c => (force_unlock c, force_refresh c)) (runs_of (fst (sample_loop config)))
    | Err _ => [] end = [(true, true); (false, false); (false, false)]) as Hok by (vm_compute; reflexivity).
  destruct (Config.RuntimeConfig_new "acme" false 4 "/var") as [config|e]; [|discriminate Hok].
  split; [exact Hok|].
  destruct (collection_loop_runs (fun _ => true) sample_collect (fun s => (Ok (), s)) config true
    [quiet_wait false; quiet_wait true; quiet_wait false] (mkForceFlags true true) 0
    (fst (sample_loop config)) (snd (sample_loop config)) (surjective_pairing _)) as ((rest & Hr & _) & Hb & _).
  split; [exact Hb|]. exists rest. exact Hr.
Defined.
