(* ===== verification/Slugs.v ===== *)
(** * Page names of owners ([report/view_model.rs])

    The slug of an owner, and the distinct slugs under which the pages of all
    the owners are written.  A slug is read off the bytes of the name: every
    byte of a character outside ASCII is neither a letter nor a digit, so the
    whole character becomes one dash, as it does character by character. *)

From S2P Require Import Prelude Str.

Open Scope N_scope.

(** ** One slug *)

Definition slug_char (c : Ascii.ascii) : bool := is_alphanumeric c || Ascii.eqb c "_".

(** The loop of [generate_slug]; [prev_dash] is its flag. *)
Fixpoint slug_loop (prev_dash : bool) (s : string) : string :=
  match s with
  | EmptyString => EmptyString
  | String c s =>
    if slug_char c then String c (slug_loop false s)
    else if prev_dash then slug_loop true s
    else String "-" (slug_loop true s)
  end.

Definition generate_slug (owner : string) : string :=
  let slug := slug_loop true (default owner (strip_prefix "@" owner)) in
  default slug (strip_suffix "-" slug).

Definition strip_org_prefix (owner : string) : string :=
  match split_once "/" owner with Some (_, after) => after | None => owner end.

(** ** Slugs of all the owners *)

Record SlugState := mkSlugState {
  assigned : gmap string string;
  used_slugs : gset string;
  fallback_counter : N;
}.

Definition suffixed (base : string) (suffix : N) : string := base +:+ "-" +:+ pretty suffix.

(** The search for a free suffix, of at most [fuel] turns. *)
Fixpoint free_suffix (fuel : nat) (used : gset string) (base : string) (suffix : N) : option string :=
  match fuel with
  | O => None
  | S fuel =>
    if decide (suffixed base suffix ∈ used) then free_suffix fuel used base (suffix + 1)
    else Some (suffixed base suffix)
  end.

(** The name the owner's page is given before collisions are resolved. *)
Definition base_slug (owner : string) (fallback : N) : string * N :=
  let base := generate_slug owner in
  if is_empty base then ("owner-" +:+ pretty (fallback + 1), fallback + 1) else (base, fallback).

(** One turn of [generate_unique_slugs]; as many candidates as there are used
    slugs, and one more, always hold a free one. *)
Definition assign_slug (st : SlugState) (owner : string) : option SlugState :=
  let '(base, fallback) := base_slug owner (fallback_counter st) in
  final_slug ←
    (if decide (base ∈ used_slugs st)
     then free_suffix (S (size (used_slugs st))) (used_slugs st) base 2
     else Some base);
  Some (mkSlugState (<[owner := final_slug]> (assigned st)) ({[final_slug]} ∪ used_slugs st) fallback).

Fixpoint assign_slugs (st : SlugState) (owners : list string) : option SlugState :=
  match owners with
  | [] => Some st
  | owner :: owners => st ← assign_slug st owner; assign_slugs st owners
  end.

Definition generate_unique_slugs (owners : list string) : option (gmap string string) :=
  assigned <$> assign_slugs (mkSlugState ∅ ∅ 0) owners.

Example slug_1 : generate_slug "@org/security-team" = "org-security-team".
Proof. reflexivity. Qed.
Example slug_2 : generate_slug "--a  b__c é-" = "a-b__c".
Proof. reflexivity. Qed.
Example slug_3 : strip_org_prefix "@org/security-team" = "security-team".
Proof. reflexivity. Qed.
Example slugs_1 :
  (fun m => (m !! "@a/b", m !! "a b", m !! "@@@", m !! "owner-1")) <$>
    generate_unique_slugs ["@a/b"; "a b"; "@@@"; "owner-1"]
  = Some (Some "a-b", Some "a-b-2", Some "owner-1", Some "owner-1-2").
Proof. vm_compute. reflexivity. Qed.

(** ** What a slug is *)

(** Letters, digits and underscores, single dashes between them: [prev_dash]
    says whether a dash may not come next. *)
Fixpoint slug_normal (prev_dash : bool) (s : string) : bool :=
  match s with
  | EmptyString => true
  | String c s =>
    if slug_char c then slug_normal false s
    else Ascii.eqb c "-" && negb prev_dash && slug_normal true s
  end.

Definition url_char (c : Ascii.ascii) : bool := slug_char c || Ascii.eqb c "-".

(** ** Lemmas *)

Lemma slug_loop_normal b s : slug_normal b (slug_loop b s) = true.
Proof.
  revert b. induction s as [|c s IH]; intros b; cbn [slug_loop]; [done|].
  destruct (slug_char c) eqn:Hc; cbn [slug_normal]; [by rewrite Hc|].
  destruct b; [done|]. cbn [slug_normal]. by rewrite (IH true).
Qed.

Lemma slug_loop_id b s : slug_normal b s = true -> slug_loop b s = s.
Proof.
  revert b. induction s as [|c s IH]; intros b; cbn [slug_loop slug_normal]; [done|].
  destruct (slug_char c); [by intros ->%IH|].
  destruct (Ascii.eqb_spec c "-") as [->|]; [|done]. destruct b; [done|]. by intros ->%IH.
Qed.

Lemma slug_normal_url b s : slug_normal b s = true -> all_bytes url_char s = true.
Proof.
  revert b. induction s as [|c s IH]; intros b; cbn [all_bytes slug_normal]; [done|].
  unfold url_char at 1. destruct (slug_char c); simpl; [apply IH|].
  destruct (Ascii.eqb c "-"); [|done]. destruct b; [done|]. apply IH.
Qed.

Lemma slug_normal_prefix b r s : slug_normal b (r +:+ s) = true -> slug_normal b r = true.
Proof.
  revert b. induction r as [|c r IH]; intros b; [done|].
  rewrite str_app_cons. cbn [slug_normal]. destruct (slug_char c); [apply IH|].
  rewrite !andb_true_iff. intros [? ?%IH]. done.
Qed.

Lemma slug_normal_no_double b r : slug_normal b (r +:+ "--") = false.
Proof.
  revert b. induction r as [|c r IH]; intros b; [by destruct b|].
  rewrite str_app_cons. cbn [slug_normal]. rewrite !IH. destruct (slug_char c); [done|].
  by rewrite andb_false_r.
Qed.

(** A slug is in normal form and does not end with a dash. *)
Lemma generate_slug_normal owner :
  slug_normal true (generate_slug owner) = true /\ strip_suffix "-" (generate_slug owner) = None.
Proof.
  unfold generate_slug. pose proof (slug_loop_normal true (default owner (strip_prefix "@" owner))) as Hn.
  destruct (strip_suffix "-" _) as [r|] eqn:E; [|done]. simpl.
  pose proof (proj1 (strip_suffix_Some _ _ _) E) as Hr. rewrite Hr in Hn.
  split; [by apply slug_normal_prefix in Hn|].
  destruct (strip_suffix "-" r) as [r'|] eqn:E'; [|done]. apply strip_suffix_Some in E' as ->.
  by rewrite -str_app_assoc slug_normal_no_double in Hn.
Qed.

Lemma normal_slug_fixed s :
  slug_normal true s = true -> strip_suffix "-" s = None -> generate_slug s = s.
Proof.
  intros Hn Hs. assert (strip_prefix "@" s = None) as Hat.
  { destruct s as [|c s]; [done|]. cbn [strip_prefix]. destruct (Ascii.eqb_spec "@"%char c) as [<-|]; done. }
  unfold generate_slug. rewrite Hat. cbn [default from_option]. rewrite (slug_loop_id _ _ Hn) Hs. done.
Qed.

Lemma generate_slug_idem owner : generate_slug (generate_slug owner) = generate_slug owner.
Proof. destruct (generate_slug_normal owner). by apply normal_slug_fixed. Qed.

(** Digits are characters of a slug. *)
Lemma pretty_N_url (n : N) : all_bytes url_char (pretty n) = true.
Proof.
  unfold pretty, pretty_N. case_decide; [done|].
  assert (forall s, all_bytes url_char s = true -> all_bytes url_char (pretty_N_go n s) = true) as Hgo;
    [|by apply Hgo].
  clear. induction (N.lt_wf_0 n) as [n _ IH]; intros s Hs.
  destruct (decide (0 < n)) as [Hn|].
  - rewrite pretty_N_go_step //. apply IH; [by apply N.div_lt|]. cbn [all_bytes]. rewrite Hs andb_true_r.
    unfold pretty_N_char. by repeat case_match.
  - assert (n = 0) as -> by lia. done.
Qed.

Lemma suffixed_inj base i j : suffixed base i = suffixed base j -> i = j.
Proof.
  unfold suffixed. intros H. apply (inj (String.append base)), (inj (String.append "-")) in H.
  by apply (inj pretty) in H.
Qed.

Lemma free_suffix_Some fuel used base suffix s : free_suffix fuel used base suffix = Some s ->
  s ∉ used /\ exists i, suffix <= i /\ s = suffixed base i /\
    forall j, suffix <= j -> j < i -> suffixed base j ∈ used.
Proof.
  revert suffix. induction fuel as [|fuel IH]; intros suffix; cbn [free_suffix]; [done|].
  case_decide as Hin.
  - intros (? & i & ? & -> & Hbelow)%IH. split; [done|]. exists i. split_and!; [lia|done|].
    intros j ??. destruct (decide (j = suffix)) as [->|]; [done|]. apply Hbelow; lia.
  - intros [= <-]. split; [done|]. exists suffix. split_and!; [lia|done|lia].
Qed.

Lemma free_suffix_None fuel used base suffix : free_suffix fuel used base suffix = None ->
  forall j, suffix <= j -> j < suffix + N.of_nat fuel -> suffixed base j ∈ used.
Proof.
  revert suffix. induction fuel as [|fuel IH]; intros suffix; cbn [free_suffix]; [lia|].
  case_decide as Hin; [|done]. intros Hnone j ??.
  destruct (decide (j = suffix)) as [->|]; [done|]. eapply IH; [done|lia|lia].
Qed.

(** The candidates differ, so the used slugs cannot hold one more than there
    are of them: the search ends. *)
Lemma free_suffix_total used base suffix : is_Some (free_suffix (S (size used)) used base suffix).
Proof.
  destruct (free_suffix _ _ _ _) as [s|] eqn:E; [by exists s|]. exfalso.
  set (l := (fun i => suffixed base (suffix + N.of_nat i)) <$> List.seq 0 (S (size used))).
  assert (NoDup l) as Hnd.
  { apply NoDup_fmap_2, NoDup_seq. intros i j Hij%suffixed_inj. lia. }
  assert (list_to_set l ⊆ used) as Hsub.
  { intros s. rewrite elem_of_list_to_set list_elem_of_fmap. intros (j & -> & Hj%elem_of_seq).
    eapply free_suffix_None; [done|lia|lia]. }
  apply subseteq_size in Hsub. rewrite size_list_to_set // in Hsub.
  unfold l in Hsub. rewrite length_fmap length_seq in Hsub. lia.
Qed.

(** ** The assignment *)

(** What a state holds: the slugs given out are used, each by one owner, and
    all of them are fit for a URL and for a file name. *)
Record slugs_ok (st : SlugState) : Prop := {
  assigned_used : forall o s, assigned st !! o = Some s -> s ∈ used_slugs st;
  assigned_inj : forall o o' s, assigned st !! o = Some s -> assigned st !! o' = Some s -> o = o';
  used_url : forall s, s ∈ used_slugs st -> all_bytes url_char s = true /\ s <> "";
}.

Lemma base_slug_url owner fallback :
  all_bytes url_char (fst (base_slug owner fallback)) = true /\ fst (base_slug owner fallback) <> "".
Proof.
  unfold base_slug. destruct (is_empty (generate_slug owner)) eqn:E; cbn [fst].
  - rewrite all_bytes_app pretty_N_url. done.
  - split; [|by intros Hs; rewrite Hs in E].
    eapply slug_normal_url, generate_slug_normal.
Qed.

(** A step always succeeds: the owner gets its base, or the base with the
    first free suffix. *)
Lemma assign_slug_exact st owner : exists st' s,
  assign_slug st owner = Some st' /\ s ∉ used_slugs st /\
  assigned st' = <[owner := s]> (assigned st) /\ used_slugs st' = {[s]} ∪ used_slugs st /\
  let base := fst (base_slug owner (fallback_counter st)) in
  (s = base \/ base ∈ used_slugs st /\ exists i, 2 <= i /\ s = suffixed base i /\
     forall j, 2 <= j -> j < i -> suffixed base j ∈ used_slugs st).
Proof.
  unfold assign_slug. destruct (base_slug owner (fallback_counter st)) as [base fallback].
  case_decide as Hin.
  - destruct (free_suffix_total (used_slugs st) base 2) as [s Hs]. rewrite Hs.
    apply free_suffix_Some in Hs as (Hnew & i & Hi & -> & Hbelow). simpl.
    eexists _, _. split_and!; [done..|]. right. split; [done|]. by exists i.
  - simpl. eexists _, _. split_and!; [done..|]. by left.
Qed.

Lemma assign_slug_ok st owner st' :
  slugs_ok st -> assign_slug st owner = Some st' -> slugs_ok st'.
Proof.
  intros [Hu Hi Hurl] Hstep.
  destruct (assign_slug_exact st owner) as (st'' & s & Hs & Hnew & Ha & Hused & Hwhich).
  simplify_eq. split; rewrite ?Ha ?Hused.
  - intros o t [[-> ->]|[? ?%Hu]]%lookup_insert_Some; set_solver.
  - intros o o' t [[-> ->]|[? Ho]]%lookup_insert_Some [[-> Ht]|[? Ho']]%lookup_insert_Some; simplify_eq.
    + done.
    + by apply Hu in Ho'.
    + by apply Hu in Ho.
    + by eapply Hi.
  - destruct (base_slug_url owner (fallback_counter st)) as [Hb Hne].
    intros t [->%elem_of_singleton|Ht]%elem_of_union; [|by apply Hurl].
    destruct Hwhich as [->|(_ & i & _ & -> & _)]; [done|]. unfold suffixed. split.
    + by rewrite !all_bytes_app Hb pretty_N_url.
    + by destruct (fst (base_slug _ _)).
Qed.

Lemma assign_slugs_ok owners : forall st, slugs_ok st ->
  exists st', assign_slugs st owners = Some st' /\ slugs_ok st' /\
    dom (assigned st') = dom (assigned st) ∪ list_to_set owners.
Proof.
  induction owners as [|o owners IH]; intros st Hst; [exists st; split_and!; [done..|set_solver]|].
  destruct (assign_slug_exact st o) as (st1 & s & Hs & _ & Ha & _ & _).
  cbn [assign_slugs]. rewrite Hs. cbn [mbind option_bind].
  destruct (IH st1) as (st2 & H2 & Hok & Hdom); [by eapply assign_slug_ok|].
  exists st2. split_and!; [done..|]. rewrite Hdom Ha dom_insert_L. set_solver.
Qed.

(** Owners whose slugs do not clash keep them. *)
Lemma assign_slugs_own owners : forall st st',
  assign_slugs st owners = Some st' ->
  NoDup (map generate_slug owners) -> "" ∉ map generate_slug owners ->
  (forall o, o ∈ owners -> generate_slug o ∉ used_slugs st) ->
  (forall o, o ∈ owners -> assigned st' !! o = Some (generate_slug o)) /\
  (forall o, o ∉ owners -> assigned st' !! o = assigned st !! o).
Proof.
  induction owners as [|o owners IH]; intros st st'; cbn [assign_slugs map].
  - intros [= <-] _ _ _. split; [set_solver|done].
  - destruct (assign_slug_exact st o) as (st1 & s & Hs & _ & Ha & Hu & Hwhich). rewrite Hs.
    cbn [mbind option_bind]. intros Hrest Hnd Hne Hfree. inversion_clear Hnd as [|?? Hno Hnd'].
    assert (s = generate_slug o) as ->.
    { unfold base_slug in Hwhich. destruct (is_empty (generate_slug o)) eqn:E.
      { destruct (generate_slug o) eqn:E'; [|done]. destruct Hne. left. }
      destruct Hwhich as [?|[Hin _]]; [done|]. destruct (Hfree o); [left|done]. }
    destruct (IH st1 st' Hrest Hnd') as [Hin Hout]; [set_solver| |].
    { intros o' Ho'. rewrite Hu. intros [Heq%elem_of_singleton|Hin]%elem_of_union.
      - destruct Hno. rewrite -Heq. by apply list_elem_of_fmap_2.
      - by apply (Hfree o'); [right|]. }
    rewrite Ha in Hout. split.
    + intros o' [->|Ho']%elem_of_cons; [|by apply Hin]. rewrite Hout ?lookup_insert_eq //.
      intros Ho. destruct Hno. by apply list_elem_of_fmap_2.
    + intros o' [Hne' Ho']%not_elem_of_cons. by rewrite Hout // lookup_insert_ne.
Qed.

(** The names exist, are fit for a URL, and differ. *)
Lemma unique_slugs_ok owners : exists st, assign_slugs (mkSlugState ∅ ∅ 0) owners = Some st /\ slugs_ok st /\
  dom (assigned st) = list_to_set owners.
Proof.
  destruct (assign_slugs_ok owners (mkSlugState ∅ ∅ 0)) as (st & Hst & Hok & Hdom).
  { split; cbn; [by intros ??[=]|by intros ???[=]|set_solver]. }
  exists st. split_and!; [done..|]. rewrite Hdom. cbn [assigned]. set_solver.
Qed.

(** ** Properties *)

(** C33: naming the pages of the owners always ends; every owner gets a name,
    made of letters, digits, underscores and dashes and never empty, and no two
    owners share one; owners whose slugs differ and are not empty get exactly
    their slugs. *)
Theorem unique_slugs_exact owners : exists m, generate_unique_slugs owners = Some m /\
  dom m = list_to_set owners /\
  (forall o s, m !! o = Some s -> all_bytes url_char s = true /\ s <> "") /\
  (forall o o' s, m !! o = Some s -> m !! o' = Some s -> o = o') /\
  (NoDup (map generate_slug owners) -> "" ∉ map generate_slug owners ->
   forall o, o ∈ owners -> m !! o = Some (generate_slug o)).
Proof.
  destruct (unique_slugs_ok owners) as (st & Hst & [Hu Hi Hurl] & Hdom).
  unfold generate_unique_slugs. rewrite Hst. exists (assigned st). split_and!; [done|done| |done|].
  - intros o s Ho. by apply Hurl, (Hu o).
  - intros Hnd Hne o Ho.
    eapply (assign_slugs_own owners (mkSlugState ∅ ∅ 0)); [done..| |done]. cbn. set_solver.
Qed.
