(* ===== verification/Diagnostics.v ===== *)
(** * Operator diagnostics ([report/view_model.rs])

    The admin page's model: the collection-health sections, the credential
    limitations, and the red flags derived from the collected evidence.  A red
    flag's text is part of the model.  The time at which the page is rendered is
    an argument; parsing an instant is a parameter. *)

From S2P Require Import Prelude Str Time Repository Checks Evidence Metrics Run Config Aggregate.

Open Scope N_scope.

(** ** Collection health *)

Definition collection_health_label (kind : CollectionHealthCheckKind) : string :=
  match kind with
  | CK_BranchProtection => "Branch Protection"
  | CK_SecretScanning => "Secret Scanning"
  | CK_Dependabot => "Dependabot"
  | CK_Codeowners => "CODEOWNERS"
  | CK_SecurityPolicy => "Security Policy"
  | CK_Inventory => "Inventory"
  | CK_Rulesets => "Rulesets"
  end.

Record CollectionHealthReasonRow := mkReasonRow {
  row_reason : CollectionFailureReason;
  row_label : string;
  row_count : N;
}.

Record CollectionHealthSection := mkHealthSection {
  section_kind : CollectionHealthCheckKind;
  section_label : string;
  section_rows : list CollectionHealthReasonRow;
  section_subtotal : N;
}.

(** The key of the [BTreeMap], in the order of the pair. *)
Definition HealthKey : Type := CollectionHealthCheckKind * CollectionFailureReason.
Definition key_rank (k : HealthKey) : N := 6 * check_kind_rank (fst k) + failure_reason_rank (snd k).

(** [*grouped.entry(key).or_insert(0) = total.saturating_add(count)], on the
    entries in key order. *)
Fixpoint add_grouped (key : HealthKey) (count : N) (m : list (HealthKey * N)) : list (HealthKey * N) :=
  match m with
  | [] => [(key, sat_add u32_max 0 count)]
  | (k, total) :: m' =>
    if key_rank key <? key_rank k then (key, sat_add u32_max 0 count) :: m
    else if decide (key = k) then (k, sat_add u32_max total count) :: m'
    else (k, total) :: add_grouped key count m'
  end.

Definition group_counts (counts : list CollectionHealthCount) : list (HealthKey * N) :=
  fold_left (fun m c => add_grouped (chc_check_kind c, chc_reason c) (chc_count c) m) counts [].

(** One turn of the loop over the groups: the row joins the last section when
    that has its kind. *)
Fixpoint push_row (kind : CollectionHealthCheckKind) (row : CollectionHealthReasonRow)
    (sections : list CollectionHealthSection) : list CollectionHealthSection :=
  match sections with
  | [] => [mkHealthSection kind (collection_health_label kind) [row] (row_count row)]
  | [s] =>
    if decide (section_kind s = kind) then
      [mkHealthSection (section_kind s) (section_label s) (section_rows s ++ [row])
         (sat_add u32_max (section_subtotal s) (row_count row))]
    else [s; mkHealthSection kind (collection_health_label kind) [row] (row_count row)]
  | s :: rest => s :: push_row kind row rest
  end.

Definition push_group (sections : list CollectionHealthSection) (g : HealthKey * N)
    : list CollectionHealthSection :=
  let '((kind, reason), count) := g in
  push_row kind (mkReasonRow reason (CollectionFailureReason_display reason) count) sections.

Definition build_collection_health_sections (counts : list CollectionHealthCount)
    : list CollectionHealthSection * N :=
  let grouped := group_counts counts in
  (fold_left push_group grouped [], fold_left (sat_add u32_max) (map snd grouped) 0).

(** ** Credentials *)

Definition capability_order (c : Capability) : N :=
  match c with Cap_OrgSecretScanningAlerts => 0 | Cap_PrivateBranchProtectionRead => 1 end.

Definition capability_le (a b : Capability) : Prop := capability_order a <= capability_order b.
#[export] Instance capability_le_dec : RelDecision capability_le.
Proof. intros a b. unfold capability_le. apply _. Defined.

Record CredentialCapabilityLimitation := mkCapabilityLimitation {
  ccl_capability : Capability;
  ccl_label : string;
}.

Record CredentialLimitationsViewModel := mkCredentialLimitations {
  cl_auth_mode : AuthMode;
  cl_auth_mode_label : string;
  cl_token_tier : TokenTier;
  cl_token_tier_label : string;
  cl_unavailable_capabilities : list CredentialCapabilityLimitation;
}.

Definition has_degraded_capabilities (v : CredentialLimitationsViewModel) : bool :=
  match cl_unavailable_capabilities v with [] => false | _ => true end.

Definition build_credential_limitations (metadata : AssessmentMetadata) : CredentialLimitationsViewModel :=
  let unavailable := sort_by capability_le (am_unavailable_capabilities metadata) in
  mkCredentialLimitations (am_auth_mode metadata) (AuthMode_display (am_auth_mode metadata))
    (am_token_tier metadata) (TokenTier_display (am_token_tier metadata))
    (map (fun c => mkCapabilityLimitation c (Capability_display c)) unavailable).

(** ** Red flags: the data *)

Inductive Severity := Critical | High | Medium.
#[export] Instance Severity_eq_dec : EqDecision Severity.
Proof. solve_decision. Defined.

Definition severity_css_class (s : Severity) : string :=
  match s with
  | Critical => "severity-critical" | High => "severity-high" | Medium => "severity-medium"
  end.
Definition severity_dot_class (s : Severity) : string :=
  match s with Critical => "status-fail" | High => "status-warn" | Medium => "status-unknown" end.
Definition severity_label (s : Severity) : string :=
  match s with Critical => "Critical" | High => "High" | Medium => "Medium" end.

Inductive RedFlagCategory := RC_Credential | RC_Integrity | RC_Posture.
Definition category_label (c : RedFlagCategory) : string :=
  match c with
  | RC_Credential => "Credential" | RC_Integrity => "Integrity" | RC_Posture => "Posture"
  end.

Inductive RedFlagId :=
| RF_TokenTierUnknown
| RF_DegradedCapability
| RF_BranchProtectionPermissionSuspected
| RF_BranchProtectionPermissionDenied
| RF_SecretScanningPermissionDenied
| RF_AuthModePat
| RF_RateLimitedCollection
| RF_UnstableCollectionResult
| RF_CodeownersTruncated
| RF_CollectionRunStale
| RF_SecretScanningUnobservable
| RF_BranchProtectionAbsent
| RF_IntegrityControlGap.
#[export] Instance RedFlagId_eq_dec : EqDecision RedFlagId.
Proof. solve_decision. Defined.

Inductive AffectedScope := AS_Count (count : N) | AS_Repos (names : list string) | AS_OrgWide.
Inductive FixTarget := FT_Token | FT_CloudRunConfig | FT_Repo (name : string) | FT_Investigate.
Record Remedy := mkRemedy { remedy_summary : string; fix_target : FixTarget }.

Record RedFlag := mkRedFlag {
  rf_id : RedFlagId;
  rf_severity : Severity;
  rf_category : RedFlagCategory;
  rf_title : string;
  rf_detail : string;
  rf_affected : AffectedScope;
  rf_remedy : Remedy;
}.

(** The derived orders, by declaration position. *)
Definition severity_rank (s : Severity) : N := match s with Critical => 0 | High => 1 | Medium => 2 end.
Definition category_rank (c : RedFlagCategory) : N :=
  match c with RC_Credential => 0 | RC_Integrity => 1 | RC_Posture => 2 end.
Definition id_rank (i : RedFlagId) : N :=
  match i with
  | RF_TokenTierUnknown => 0
  | RF_DegradedCapability => 1
  | RF_BranchProtectionPermissionSuspected => 2
  | RF_BranchProtectionPermissionDenied => 3
  | RF_SecretScanningPermissionDenied => 4
  | RF_AuthModePat => 5
  | RF_RateLimitedCollection => 6
  | RF_UnstableCollectionResult => 7
  | RF_CodeownersTruncated => 8
  | RF_CollectionRunStale => 9
  | RF_SecretScanningUnobservable => 10
  | RF_BranchProtectionAbsent => 11
  | RF_IntegrityControlGap => 12
  end.

(** [(flag.severity, flag.category, flag.id)] as one key: three categories,
    thirteen ids. *)
Definition flag_key (f : RedFlag) : N :=
  39 * severity_rank (rf_severity f) + 13 * category_rank (rf_category f) + id_rank (rf_id f).
Definition flag_le (a b : RedFlag) : Prop := flag_key a <= flag_key b.
#[export] Instance flag_le_dec : RelDecision flag_le.
Proof. intros a b. unfold flag_le. apply _. Defined.

Record RedFlagSeverityCounts := mkSeverityCounts { n_critical : N; n_high : N; n_medium : N }.

Definition count_severity (c : RedFlagSeverityCounts) (f : RedFlag) : RedFlagSeverityCounts :=
  let '(mkSeverityCounts critical high medium) := c in
  match rf_severity f with
  | Critical => mkSeverityCounts (sat_add u32_max critical 1) high medium
  | High => mkSeverityCounts critical (sat_add u32_max high 1) medium
  | Medium => mkSeverityCounts critical high (sat_add u32_max medium 1)
  end.
Definition red_flag_severity_counts (flags : list RedFlag) : RedFlagSeverityCounts :=
  fold_left count_severity flags (mkSeverityCounts 0 0 0).

(** The minimum in the declaration order, the most severe. *)
Definition max_red_flag_severity (flags : list RedFlag) : option Severity :=
  min_by_key severity_rank (map rf_severity flags).

(** ** Red flags: the conditions *)

Definition sum_collection_health (counts : list CollectionHealthCount)
    (predicate : CollectionHealthCount -> bool) : N :=
  fold_left (fun total c => sat_add u32_max total (chc_count c)) (List.filter predicate counts) 0.

Definition push_token_tier_unknown (flags : list RedFlag) (metadata : AssessmentMetadata) : list RedFlag :=
  if bool_decide (am_token_tier metadata <> TT_Unknown) then flags
  else flags ++
    [mkRedFlag RF_TokenTierUnknown High RC_Credential
      "Token capability tier is unknown"
      "Token tier could not be classified from OAuth scopes; optional checks may be silently skipped without being flagged as failures."
      AS_OrgWide
      (mkRemedy "Confirm the active token's effective permissions against the Required Permissions / Scopes table; fine-grained PATs and GitHub Apps are expected to show Unknown."
         FT_Token)].

(** The title and the detail. *)
Definition degraded_capability_text (c : Capability) : string * string :=
  match c with
  | Cap_OrgSecretScanningAlerts =>
    ("Org-level secret scanning alerts capability unavailable",
     "Organization-wide secret-scanning alert observability is degraded; alert-based coverage metrics may undercount.")
  | Cap_PrivateBranchProtectionRead =>
    ("Private/internal branch-protection reads capability unavailable",
     "Private and internal repositories cannot be distinguished from not-found responses; branch protection scores Unknown for them.")
  end.

Definition degraded_flag (c : Capability) : RedFlag :=
  let '(title, detail) := degraded_capability_text c in
  mkRedFlag RF_DegradedCapability High RC_Credential title detail AS_OrgWide
    (mkRemedy "Grant the missing scope or permission listed under Capability probes, or accept the degraded coverage for this credential tier."
       FT_Token).

Definition push_degraded_capabilities (flags : list RedFlag) (metadata : AssessmentMetadata) : list RedFlag :=
  flags ++ map degraded_flag (sort_by capability_le (am_unavailable_capabilities metadata)).

Definition push_branch_protection_permission_suspected (flags : list RedFlag) (metrics : AggregatedMetrics)
    : list RedFlag :=
  let count := sum_collection_health (collection_health_counts metrics) (fun c =>
    bool_decide (chc_check_kind c = CK_BranchProtection) && bool_decide (chc_reason c = CF_PermissionSuspected)) in
  if count =? 0 then flags
  else flags ++
    [mkRedFlag RF_BranchProtectionPermissionSuspected Medium RC_Credential
      "Branch protection reads suspected permission-denied"
      "One or more branch-protection checks returned an ambiguous not-found response consistent with insufficient read access on a private repository."
      (AS_Count count)
      (mkRemedy "Verify the token has Repository administration: read (or classic repo scope) and retry collection."
         FT_Token)].

Definition push_branch_protection_permission_denied (flags : list RedFlag) (metrics : AggregatedMetrics)
    : list RedFlag :=
  let count := sum_collection_health (collection_health_counts metrics) (fun c =>
    bool_decide (chc_check_kind c = CK_BranchProtection) && bool_decide (chc_reason c = CF_PermissionDenied)) in
  if count =? 0 then flags
  else flags ++
    [mkRedFlag RF_BranchProtectionPermissionDenied Medium RC_Credential
      "Branch protection reads denied by permissions"
      "One or more repositories returned an explicit permission-denied response for branch protection; branch-protection posture for those repos is not observable."
      (AS_Count count)
      (mkRemedy "Grant the token Repository administration: read (or classic repo scope) and retry collection."
         FT_Token)].

Definition push_secret_scanning_permission_denied (flags : list RedFlag) (metrics : AggregatedMetrics)
    : list RedFlag :=
  let count := sum_collection_health (collection_health_counts metrics) (fun c =>
    bool_decide (chc_check_kind c = CK_SecretScanning) && bool_decide (chc_reason c = CF_PermissionDenied)) in
  if count =? 0 then flags
  else flags ++
    [mkRedFlag RF_SecretScanningPermissionDenied Medium RC_Credential
      "Secret scanning reads denied by permissions"
      "One or more repositories returned an explicit permission-denied response for secret scanning; alert coverage for those repos is incomplete."
      (AS_Count count)
      (mkRemedy "Grant Secret scanning alerts: read (or classic repo + security_events scope) and retry collection."
         FT_Token)].

Definition push_auth_mode_pat (flags : list RedFlag) (metadata : AssessmentMetadata) : list RedFlag :=
  if negb (bool_decide (am_auth_mode metadata = AM_Pat)) then flags
  else flags ++
    [mkRedFlag RF_AuthModePat Medium RC_Credential
      "Running on Personal Access Token authentication"
      "PAT is a fallback credential class; GitHub App authentication is the recommended production mode."
      AS_OrgWide
      (mkRemedy "Switch production deployments to GitHub App authentication."
         FT_CloudRunConfig)].

Definition push_rate_limited_collection (flags : list RedFlag) (metrics : AggregatedMetrics)
    : list RedFlag :=
  let count := sum_collection_health (collection_health_counts metrics) (fun c =>
    bool_decide (chc_reason c = CF_RateLimited)) in
  if count =? 0 then flags
  else flags ++
    [mkRedFlag RF_RateLimitedCollection High RC_Integrity
      "Collection requests were rate-limited"
      "One or more checks were rate-limited by the GitHub API; the affected repositories' results are incomplete for this run."
      (AS_Count count)
      (mkRemedy "Re-run collection after the rate-limit window resets, or reduce the concurrent worker count."
         FT_Investigate)].

Definition push_unstable_collection_result (flags : list RedFlag) (metrics : AggregatedMetrics)
    : list RedFlag :=
  let count := sum_collection_health (collection_health_counts metrics) (fun c =>
    bool_decide (chc_reason c = CF_Transient) || bool_decide (chc_reason c = CF_Invalid)) in
  if count =? 0 then flags
  else flags ++
    [mkRedFlag RF_UnstableCollectionResult Medium RC_Integrity
      "Collection responses were transient or invalid"
      "One or more checks failed with a retryable or malformed response; the affected repositories' results may not reflect current state."
      (AS_Count count)
      (mkRemedy "Re-run collection; if the condition persists, inspect collector logs for the affected check."
         FT_Investigate)].

Definition push_codeowners_truncated (flags : list RedFlag) (metrics : AggregatedMetrics) : list RedFlag :=
  let count := co_truncated (codeowners_counts metrics) in
  if count =? 0 then flags
  else flags ++
    [mkRedFlag RF_CodeownersTruncated Medium RC_Integrity
      "CODEOWNERS parsing was truncated"
      "One or more CODEOWNERS files were found but not parsed (encoding mismatch, oversized payload, or decode failure); owner coverage for those repos is incomplete."
      (AS_Count count)
      (mkRemedy "Inspect the affected CODEOWNERS files for encoding or size issues and re-run collection."
         FT_Investigate)].

Definition count_secret_scanning_unobservable (repos : list RepositoryEvidence) : N :=
  clamp u32_max (countb (fun repo =>
    bool_decide (SecretScanningResult_status (secret_scanning (checks repo)) = SSS_Enabled)
    && negb (alerts_observable (secret_scanning (checks repo)))) repos).

Definition push_secret_scanning_unobservable (flags : list RedFlag) (repos : list RepositoryEvidence)
    : list RedFlag :=
  let count := count_secret_scanning_unobservable repos in
  if count =? 0 then flags
  else flags ++
    [mkRedFlag RF_SecretScanningUnobservable Medium RC_Integrity
      "Secret scanning enabled but alerts not observable"
      "One or more repositories report secret scanning enabled but alert data is not observable; the enabled status is cosmetic for those repos."
      (AS_Count count)
      (mkRemedy "Verify organization-level secret-scanning alert access and re-run collection."
         FT_Token)].

Record PostureScanResults := mkPostureScan { absent : list string; integrity_gap : list string }.

Definition repo_full_name (metadata : AssessmentMetadata) (repo : RepositoryEvidence) : string :=
  am_organization metadata +:+ "/" +:+ repo_name (repository repo).

(** One turn of the loop of [scan_branch_protection_posture]. *)
Definition scan_posture (metadata : AssessmentMetadata) (scan : PostureScanResults) (repo : RepositoryEvidence)
    : PostureScanResults :=
  match branch_protection (checks repo) with
  | BPR_Unprotected _ gap _ =>
    let name := repo_full_name metadata repo in
    match gap with
    | HG_Absent true _ => mkPostureScan (absent scan ++ [name]) (integrity_gap scan)
    | HG_Absent _ _ | HG_NeitherBlocked | HG_ForcePushAllowed | HG_DeletionAllowed =>
      mkPostureScan (absent scan) (integrity_gap scan ++ [name])
    end
  | _ => scan
  end.

Definition scan_branch_protection_posture (metadata : AssessmentMetadata) (repos : list RepositoryEvidence)
    : PostureScanResults :=
  let scan := fold_left (scan_posture metadata) repos (mkPostureScan [] []) in
  mkPostureScan (sort_by String.le (absent scan)) (sort_by String.le (integrity_gap scan)).

Record PostureFlagSpec := mkPostureSpec {
  spec_id : RedFlagId;
  spec_severity : Severity;
  spec_title : string;
  spec_detail : string;
  spec_remedy_summary : string;
}.

Definition push_posture_flag (flags : list RedFlag) (affected_repos : list string) (spec : PostureFlagSpec)
    : list RedFlag :=
  match affected_repos with
  | [] => flags
  | primary :: _ =>
    flags ++
      [mkRedFlag (spec_id spec) (spec_severity spec) RC_Posture (spec_title spec) (spec_detail spec)
         (AS_Repos affected_repos) (mkRemedy (spec_remedy_summary spec) (FT_Repo primary))]
  end.

Definition absent_spec : PostureFlagSpec :=
  mkPostureSpec RF_BranchProtectionAbsent High
    "Branch protection is absent"
    "GitHub confirms no branch protection is configured on the default branch — this is a definitive absence, not a permission-limited read."
    "Configure branch protection on the default branch to block force pushes and branch deletion.".

Definition integrity_gap_spec : PostureFlagSpec :=
  mkPostureSpec RF_IntegrityControlGap Medium
    "Default branch history is rewritable or deletable"
    "Force pushes or branch deletion are not blocked on the default branch, allowing history rewrites or accidental or malicious deletion."
    "Enable force-push and deletion restrictions on the default branch protection rule.".

Definition push_branch_protection_posture_flags (flags : list RedFlag) (metadata : AssessmentMetadata)
    (repos : list RepositoryEvidence) : list RedFlag :=
  let scan := scan_branch_protection_posture metadata repos in
  push_posture_flag (push_posture_flag flags (absent scan) absent_spec) (integrity_gap scan) integrity_gap_spec.

Section RedFlags.
  (** [value.parse::<Timestamp>().ok()], and [Timestamp::now()] in nanoseconds. *)
  Context (parse_timestamp : string -> option Z) (now : Z).

(** The threshold of twice the interval, in seconds, fits 64 bits. *)
Definition is_collection_run_stale (run_timestamp : string) : bool :=
  match parse_iso8601 parse_timestamp run_timestamp with
  | None => false
  | Some run_ts =>
    let threshold_secs := sat_mul u64_max COLLECTION_INTERVAL_SECS 2 in
    (Z.of_N threshold_secs * 1000000000 <? now - run_ts)%Z
  end.

Definition push_collection_run_stale (flags : list RedFlag) (metadata : AssessmentMetadata) : list RedFlag :=
  if negb (is_collection_run_stale (am_run_timestamp metadata)) then flags
  else flags ++
    [mkRedFlag RF_CollectionRunStale High RC_Integrity
      "Collection run is stale"
      "The last completed collection run is more than twice the scheduled collection interval old; the daemon may be stuck and this report may not reflect current state."
      AS_OrgWide
      (mkRemedy "Check daemon liveness/readiness and Cloud Run min-instances, then restart the collection process if it is stuck."
         FT_Investigate)].

Definition build_red_flags (metadata : AssessmentMetadata) (metrics : AggregatedMetrics)
    (repos : list RepositoryEvidence) : list RedFlag :=
  let flags := push_token_tier_unknown [] metadata in
  let flags := push_degraded_capabilities flags metadata in
  let flags := push_branch_protection_permission_suspected flags metrics in
  let flags := push_branch_protection_permission_denied flags metrics in
  let flags := push_secret_scanning_permission_denied flags metrics in
  let flags := push_auth_mode_pat flags metadata in
  let flags := push_rate_limited_collection flags metrics in
  let flags := push_unstable_collection_result flags metrics in
  let flags := push_codeowners_truncated flags metrics in
  let flags := push_collection_run_stale flags metadata in
  let flags := push_secret_scanning_unobservable flags repos in
  let flags := push_branch_protection_posture_flags flags metadata repos in
  sort_by flag_le flags.

(** ** The page *)

Record AdminDiagnosticsViewModel := mkAdminDiagnostics {
  collection_health_sections : list CollectionHealthSection;
  technical_issues_total : N;
  credentials : CredentialLimitationsViewModel;
  red_flags : list RedFlag;
}.

Definition has_technical_issues (v : AdminDiagnosticsViewModel) : bool := 0 <? technical_issues_total v.

Definition build_admin_diagnostics (metadata : AssessmentMetadata) (metrics : AggregatedMetrics)
    (repos : list RepositoryEvidence) : AdminDiagnosticsViewModel :=
  let '(sections, total) := build_collection_health_sections (collection_health_counts metrics) in
  mkAdminDiagnostics sections total (build_credential_limitations metadata)
    (build_red_flags metadata metrics repos).
End RedFlags.

(** ** What the sections report *)

Definition as_group (c : CollectionHealthCount) : HealthKey * N := ((chc_check_kind c, chc_reason c), chc_count c).

(** The sum of the counts at the keys [p] selects, with no bound. *)
Definition counted (p : HealthKey -> bool) (m : list (HealthKey * N)) : N :=
  foldr (fun e acc => (if p (fst e) then snd e else 0) + acc) 0 m.

Definition at_key (k : HealthKey) (k' : HealthKey) : bool := bool_decide (k' = k).
Definition of_kind (kind : CollectionHealthCheckKind) (k : HealthKey) : bool := bool_decide (fst k = kind).

Definition section_groups (s : CollectionHealthSection) : list (HealthKey * N) :=
  map (fun r => ((section_kind s, row_reason r), row_count r)) (section_rows s).

Definition group_lt (a b : HealthKey * N) : Prop := key_rank (fst a) < key_rank (fst b).
Definition kind_lt (a b : CollectionHealthSection) : Prop :=
  check_kind_rank (section_kind a) < check_kind_rank (section_kind b).
Definition reason_lt (a b : CollectionHealthReasonRow) : Prop :=
  failure_reason_rank (row_reason a) < failure_reason_rank (row_reason b).

(** A section as it is built: labelled, not empty, with the sum of its rows. *)
Definition section_wf (s : CollectionHealthSection) : Prop :=
  section_label s = collection_health_label (section_kind s) /\ section_rows s <> [] /\
  Forall (fun r => row_label r = CollectionFailureReason_display (row_reason r)) (section_rows s) /\
  section_subtotal s = N.min (counted (fun _ => true) (section_groups s)) u32_max.

(** ** Lemmas: grouping *)

Lemma check_kind_rank_inj a b : check_kind_rank a = check_kind_rank b -> a = b.
Proof. by destruct a, b. Qed.

Lemma failure_reason_rank_inj a b : failure_reason_rank a = failure_reason_rank b -> a = b.
Proof. by destruct a, b. Qed.

Lemma failure_reason_rank_bound r : failure_reason_rank r < 6.
Proof. by destruct r. Qed.

Lemma key_rank_inj a b : key_rank a = key_rank b -> a = b.
Proof.
  destruct a as [k r], b as [k' r']. unfold key_rank. cbn [fst snd]. intros H.
  pose proof (failure_reason_rank_bound r). pose proof (failure_reason_rank_bound r').
  f_equal; [apply check_kind_rank_inj|apply failure_reason_rank_inj]; lia.
Qed.

Lemma counted_cons p e m : counted p (e :: m) = (if p (fst e) then snd e else 0) + counted p m.
Proof. done. Qed.

Lemma counted_app p m m' : counted p (m ++ m') = counted p m + counted p m'.
Proof. induction m as [|e m IH]; [done|]. cbn [app]. rewrite !counted_cons IH. lia. Qed.

(** Saturation only caps the sums. *)
Lemma add_grouped_counted p key count m :
  N.min (counted p (add_grouped key count m)) u32_max
  = N.min ((if p key then count else 0) + counted p m) u32_max.
Proof.
  unfold sat_add. induction m as [|[k total] m IH]; cbn [add_grouped].
  - rewrite counted_cons. unfold sat_add. cbn [fst snd counted foldr]. destruct (p key); lia.
  - destruct (key_rank key <? key_rank k); [|case_decide as Hk]; rewrite !counted_cons; unfold sat_add; cbn [fst snd].
    + destruct (p key), (p k); lia.
    + subst k. destruct (p key); lia.
    + destruct (p key), (p k); lia.
Qed.

Lemma add_grouped_keys key count m e :
  e ∈ map fst (add_grouped key count m) <-> e = key \/ e ∈ map fst m.
Proof.
  induction m as [|[k total] m IH]; cbn [add_grouped]; [set_solver|].
  destruct (key_rank key <? key_rank k); [|case_decide as Hk]; cbn [map fst]; set_solver.
Qed.

Lemma add_grouped_sorted key count m :
  StronglySorted group_lt m -> Forall (fun e => snd e <= u32_max) m ->
  StronglySorted group_lt (add_grouped key count m) /\
  Forall (fun e => snd e <= u32_max) (add_grouped key count m).
Proof.
  induction 1 as [|[k total] m Hm IH Hk]; cbn [add_grouped]; intros Hb.
  - split; [by repeat constructor|]. apply Forall_singleton, sat_add_le.
  - inversion_clear Hb as [|?? Hb1 Hb2]. destruct (N.ltb_spec (key_rank key) (key_rank k)) as [Hlt|Hge].
    + split; [|constructor; [apply sat_add_le|by constructor]].
      constructor; [by constructor|]. constructor; [done|].
      eapply Forall_impl; [exact Hk|]. unfold group_lt. cbn. lia.
    + case_decide as Hkey.
      * split; constructor; [done|done|apply sat_add_le|done].
      * destruct (IH Hb2) as [IH1 IH2]. split; constructor; [done| |done|done].
        apply Forall_forall. intros e He.
        assert (fst e = key \/ fst e ∈ map fst m) as [Hek|Hek].
        { apply (add_grouped_keys key count). by apply list_elem_of_fmap_2. }
        -- unfold group_lt. rewrite Hek. cbn.
           assert (key_rank key <> key_rank k) by by intros ?%key_rank_inj. lia.
        -- apply list_elem_of_fmap in Hek as (e' & Hee & He'). rewrite Forall_forall in Hk.
           apply Hk in He'. unfold group_lt in *. by rewrite Hee.
Qed.

Lemma group_counts_exact counts :
  StronglySorted group_lt (group_counts counts) /\
  Forall (fun e => snd e <= u32_max) (group_counts counts) /\
  (forall k, k ∈ map fst (group_counts counts) <-> k ∈ map (fst ∘ as_group) counts) /\
  forall p, N.min (counted p (group_counts counts)) u32_max = N.min (counted p (map as_group counts)) u32_max.
Proof.
  unfold group_counts. induction counts as [|c counts IH] using rev_ind; [by repeat constructor|].
  rewrite fold_left_app. cbn [fold_left]. destruct IH as (Hs & Hb & Hk & Hc).
  destruct (add_grouped_sorted (chc_check_kind c, chc_reason c) (chc_count c) _ Hs Hb) as [Hs' Hb'].
  split_and!; [done|done| |].
  - intros k. rewrite add_grouped_keys Hk map_app elem_of_app. cbn [map compose as_group fst].
    rewrite list_elem_of_singleton. tauto.
  - intros p. rewrite add_grouped_counted map_app counted_app. cbn [map counted foldr as_group fst snd].
    specialize (Hc p). destruct (p _); lia.
Qed.

(** ** Lemmas: sections *)

Definition new_section (kind : CollectionHealthCheckKind) (row : CollectionHealthReasonRow)
    : CollectionHealthSection :=
  mkHealthSection kind (collection_health_label kind) [row] (row_count row).

Definition row_ok (row : CollectionHealthReasonRow) : Prop :=
  row_label row = CollectionFailureReason_display (row_reason row) /\ row_count row <= u32_max.

Lemma new_section_wf kind row : row_ok row -> section_wf (new_section kind row).
Proof.
  intros [Hl Hc]. unfold new_section. split_and!; [done|done|by apply Forall_singleton|].
  cbn. rewrite N.add_0_r N.min_l //.
Qed.

Definition row_group (kind : CollectionHealthCheckKind) (row : CollectionHealthReasonRow) : HealthKey * N :=
  ((kind, row_reason row), row_count row).

Lemma section_groups_snoc s row label subtotal :
  section_groups (mkHealthSection (section_kind s) label (section_rows s ++ [row]) subtotal)
  = section_groups s ++ [row_group (section_kind s) row].
Proof. unfold section_groups. cbn [section_kind section_rows]. by rewrite map_app. Qed.

Lemma push_section_wf s row : row_ok row -> section_wf s ->
  section_wf (mkHealthSection (section_kind s) (section_label s) (section_rows s ++ [row])
    (sat_add u32_max (section_subtotal s) (row_count row))).
Proof.
  intros [Hrow _] (Hl & Hne & Hlab & Hsub). split_and!.
  - by cbn [section_label section_kind].
  - cbn [section_rows]. by destruct (section_rows s).
  - cbn [section_rows]. apply Forall_app. split; [done|]. by apply Forall_singleton.
  - rewrite section_groups_snoc counted_app counted_cons. cbn [section_subtotal row_group snd].
    rewrite Hsub. unfold sat_add. cbn [counted foldr]. lia.
Qed.

Definition kind_le (kind : CollectionHealthCheckKind) (s : CollectionHealthSection) : Prop :=
  check_kind_rank (section_kind s) <= check_kind_rank kind.

(** A row of a kind not before those of the sections goes at their end. *)
Lemma push_row_exact kind row sections : row_ok row ->
  StronglySorted kind_lt sections -> Forall section_wf sections -> Forall (kind_le kind) sections ->
  let sections' := push_row kind row sections in
  flat_map section_groups sections' = flat_map section_groups sections ++ [row_group kind row] /\
  StronglySorted kind_lt sections' /\ Forall section_wf sections' /\ Forall (kind_le kind) sections' /\
  (forall s, Forall (kind_lt s) sections -> check_kind_rank (section_kind s) < check_kind_rank kind ->
     Forall (kind_lt s) sections').
Proof.
  intros Hrow. induction 1 as [|s sections Hs IH Hlt]; cbn [push_row]; intros Hwf Hle.
  - split_and!; [done|by repeat constructor|by apply Forall_singleton, new_section_wf|
                 by apply Forall_singleton; unfold kind_le|].
    intros s _ Hs. by apply Forall_singleton.
  - inversion_clear Hwf as [|?? Hs0 Hwf']. inversion_clear Hle as [|?? Hle0 Hle'].
    destruct sections as [|s' rest].
    + case_decide as Hk.
      * split_and!.
        -- cbn [flat_map]. by rewrite section_groups_snoc !app_nil_r Hk.
        -- by repeat constructor.
        -- by apply Forall_singleton, push_section_wf.
        -- by apply Forall_singleton.
        -- intros t Ht _. inversion_clear Ht. by apply Forall_singleton.
      * assert (check_kind_rank (section_kind s) <> check_kind_rank kind) as Hne
          by by intros ?%check_kind_rank_inj.
        unfold kind_le in Hle0. split_and!.
        -- cbn [flat_map]. by rewrite !app_nil_r.
        -- constructor; [by repeat constructor|]. apply Forall_singleton. unfold kind_lt. cbn. lia.
        -- constructor; [done|]. by apply Forall_singleton, new_section_wf.
        -- constructor; [done|]. by apply Forall_singleton; unfold kind_le.
        -- intros t Ht Hk'. inversion_clear Ht. constructor; [done|]. by apply Forall_singleton.
    + destruct (IH Hwf' Hle') as (Hflat & Hsorted & Hwf2 & Hle2 & Hbelow). split_and!.
      * cbn [flat_map] in *. rewrite Hflat. by rewrite app_assoc.
      * constructor; [done|]. apply Hbelow; [done|].
        inversion_clear Hlt as [|?? H1 _]. inversion_clear Hle' as [|?? H2 _].
        unfold kind_lt, kind_le in *. lia.
      * by constructor.
      * by constructor.
      * intros t Ht Hk'. inversion_clear Ht. constructor; [done|]. by apply Hbelow.
Qed.

Lemma sections_of_groups groups :
  StronglySorted group_lt groups -> Forall (fun e => snd e <= u32_max) groups ->
  let sections := fold_left push_group groups [] in
  flat_map section_groups sections = groups /\
  StronglySorted kind_lt sections /\ Forall section_wf sections /\
  Forall (fun s => exists g, g ∈ groups /\ fst (fst g) = section_kind s) sections.
Proof.
  induction groups as [|g groups IH] using rev_ind; [by repeat constructor|].
  intros Hs Hb. rewrite fold_left_app. cbn [fold_left].
  apply Forall_app in Hb as [Hb Hg]. inversion_clear Hg as [|?? Hg' _].
  assert (StronglySorted group_lt groups /\ Forall (fun e => group_lt e g) groups) as [Hs1 Hs2].
  { clear -Hs. induction groups as [|e groups IH]; [by repeat constructor|].
    cbn [app] in Hs. inversion_clear Hs as [|?? Hs' He]. destruct (IH Hs') as [IH1 IH2].
    apply Forall_app in He as [He1 He2]. inversion_clear He2. split; by constructor. }
  destruct (IH Hs1 Hb) as (Hflat & Hsorted & Hwf & Hfrom). clear IH.
  destruct g as [[kind reason] count]. cbn [push_group snd] in *.
  destruct (push_row_exact kind (mkReasonRow reason (CollectionFailureReason_display reason) count)
              (fold_left push_group groups [])) as (Hf & Hso & Hw & _ & _); [done..| |].
  - eapply Forall_impl; [exact Hfrom|]. intros s (e & He & Hk). rewrite Forall_forall in Hs2.
    apply Hs2 in He. destruct e as [[k r] n]. unfold group_lt, key_rank, kind_le in *. cbn in *. subst k.
    pose proof (failure_reason_rank_bound r). pose proof (failure_reason_rank_bound reason). lia.
  - split_and!; [by rewrite Hf Hflat|done|done|].
    apply Forall_forall. intros s Hin. assert (exists g, g ∈ section_groups s) as [g Hg].
    { rewrite Forall_forall in Hw. apply Hw in Hin as (_ & Hne & _). unfold section_groups.
      destruct (section_rows s) as [|r rows]; [done|]. eexists. left. }
    assert (g ∈ groups ++ [(kind, reason, count)]) as Hg'2.
    { rewrite -Hflat -Hf. apply list_elem_of_In, in_flat_map. exists s.
      split; by apply list_elem_of_In. }
    exists g. split; [done|]. unfold section_groups in Hg.
    apply list_elem_of_fmap in Hg as (r & -> & _). done.
Qed.

Lemma counted_none p m : (forall e, e ∈ m -> p (fst e) = false) -> counted p m = 0.
Proof.
  induction m as [|e m IH]; intros H; [done|]. rewrite counted_cons H; [|left].
  rewrite IH //. intros e' ?. apply H. by right.
Qed.

Lemma counted_ext p q m : (forall e, e ∈ m -> p (fst e) = q (fst e)) -> counted p m = counted q m.
Proof.
  induction m as [|e m IH]; intros H; [done|]. rewrite !counted_cons H; [|left].
  rewrite IH //. intros e' ?. apply H. by right.
Qed.

(** A key occurs once, so its sum is its count. *)
Lemma counted_at_key m k n : StronglySorted group_lt m -> (k, n) ∈ m -> counted (at_key k) m = n.
Proof.
  induction 1 as [|e m Hm IH He]; [by intros ?%elem_of_nil|]. rewrite counted_cons. unfold at_key at 1.
  rewrite Forall_forall in He. intros [<-|Hin]%elem_of_cons.
  - rewrite bool_decide_eq_true_2 // counted_none; [cbn; lia|].
    intros e' He'%He. apply bool_decide_eq_false. intros Heq. unfold group_lt in He'. rewrite Heq in He'.
    cbn in He'. lia.
  - rewrite IH // bool_decide_eq_false_2 //. intros Heq. apply He in Hin. unfold group_lt in Hin.
    rewrite Heq in Hin. cbn in Hin. lia.
Qed.

Lemma counted_of_section sections s : StronglySorted kind_lt sections -> s ∈ sections ->
  counted (of_kind (section_kind s)) (flat_map section_groups sections)
  = counted (fun _ => true) (section_groups s).
Proof.
  assert (forall t e, e ∈ section_groups t -> fst (fst e) = section_kind t) as Hkind.
  { intros t e He. unfold section_groups in He. by apply list_elem_of_fmap in He as (r & -> & _). }
  assert (forall t u, section_kind t = section_kind u ->
            counted (of_kind (section_kind u)) (section_groups t) = counted (fun _ => true) (section_groups t))
    as Hown.
  { intros t u Htu. apply counted_ext. intros e He%Hkind. unfold of_kind. apply bool_decide_eq_true. by rewrite He. }
  assert (forall t u, kind_lt t u \/ kind_lt u t ->
            counted (of_kind (section_kind u)) (section_groups t) = 0) as Hother.
  { intros t u Htu. apply counted_none. intros e He%Hkind. unfold of_kind. apply bool_decide_eq_false.
    intros Heq. unfold kind_lt in Htu. rewrite -Heq He in Htu. clear -Htu. lia. }
  induction 1 as [|t sections Hs IH Ht]; [by intros ?%elem_of_nil|]. rewrite Forall_forall in Ht.
  cbn [flat_map]. rewrite counted_app. intros [<-|Hin]%elem_of_cons.
  - rewrite Hown //. rewrite (counted_none _ (flat_map _ _)); [lia|].
    intros e He. apply list_elem_of_In, in_flat_map in He as (u & Hu & He).
    apply list_elem_of_In in Hu, He. apply Hkind in He. apply Ht in Hu. unfold of_kind.
    apply bool_decide_eq_false. intros Heq. unfold kind_lt in Hu. rewrite -Heq He in Hu. lia.
  - rewrite Hother; [rewrite IH //; lia|]. left. by apply Ht.
Qed.

Lemma section_rows_sorted sections s :
  StronglySorted group_lt (flat_map section_groups sections) -> s ∈ sections ->
  StronglySorted reason_lt (section_rows s).
Proof.
  intros Hs (l1 & l2 & ->)%list_elem_of_split. rewrite flat_map_app in Hs. cbn [flat_map] in Hs.
  apply StronglySorted_app_1_r, StronglySorted_app_1_l in Hs. revert Hs. unfold section_groups.
  induction (section_rows s) as [|r rows IH]; cbn [map]; intros Hs; [constructor|].
  inversion_clear Hs as [|?? Hs' Hr]. constructor; [by apply IH|].
  apply Forall_forall. intros r' Hr'. rewrite Forall_forall in Hr.
  apply (list_elem_of_fmap_2 (fun r => ((section_kind s, row_reason r), row_count r))), Hr in Hr'.
  unfold group_lt, key_rank, reason_lt in *. cbn in Hr'. lia.
Qed.

Lemma fold_sat_counted m : forall acc, acc <= u32_max ->
  fold_left (sat_add u32_max) (map snd m) acc = N.min (acc + counted (fun _ => true) m) u32_max.
Proof.
  induction m as [|e m IH]; intros acc Hacc; cbn [map fold_left].
  - cbn. rewrite N.add_0_r N.min_l //.
  - rewrite IH; [|apply sat_add_le]. rewrite counted_cons. unfold sat_add. lia.
Qed.

Lemma sum_health_counted counts p :
  sum_collection_health counts p
  = N.min (foldr (fun c acc => (if p c then chc_count c else 0) + acc) 0 counts) u32_max.
Proof.
  unfold sum_collection_health. change 0 with (N.min 0 u32_max) at 1.
  assert (forall acc, fold_left (fun total c => sat_add u32_max total (chc_count c)) (List.filter p counts)
            (N.min acc u32_max)
          = N.min (acc + foldr (fun c acc => (if p c then chc_count c else 0) + acc) 0 counts) u32_max)
    as ->; [|done].
  induction counts as [|c counts IH]; intros acc; cbn [List.filter foldr]; [by rewrite N.add_0_r|].
  destruct (p c); [|by rewrite IH].
  cbn [fold_left]. rewrite sat_add_clamp IH. f_equal. lia.
Qed.

(** ** Properties: sections *)

(** The collection-health sections of the admin page: one section for each
    kind of check that has a count, in declaration order, with its label; in it
    one row for each reason counted, in declaration order; a row shows the sum
    of all the counts of its kind and reason, the subtotal the sum of those of
    its kind, and the total the sum of all, each capped at 32 bits however the
    counts were grouped. *)
Lemma health_sections_exact counts :
  let '(sections, total) := build_collection_health_sections counts in
  let sum p := N.min (counted p (map as_group counts)) u32_max in
  StronglySorted kind_lt sections /\
  Forall (fun s => section_label s = collection_health_label (section_kind s) /\
    section_rows s <> [] /\ StronglySorted reason_lt (section_rows s) /\
    section_subtotal s = sum (of_kind (section_kind s))) sections /\
  (forall kind reason n,
     (exists s row, s ∈ sections /\ row ∈ section_rows s /\ section_kind s = kind /\
        row_reason row = reason /\ row_count row = n) <->
     (exists c, c ∈ counts /\ chc_check_kind c = kind /\ chc_reason c = reason) /\
     n = sum (at_key (kind, reason))) /\
  total = sum (fun _ => true).
Proof.
  unfold build_collection_health_sections. destruct (group_counts_exact counts) as (Hs & Hb & Hk & Hc).
  destruct (sections_of_groups (group_counts counts) Hs Hb) as (Hflat & Hsorted & Hwf & _).
  cbn zeta in *. set (sections := fold_left push_group _ _) in *. clearbody sections. split_and!.
  - done.
  - apply Forall_forall. intros s Hin. rewrite Forall_forall in Hwf. destruct (Hwf s Hin) as (Hl & Hne & _ & Hsub).
    split_and!; [done|done| |].
    + eapply section_rows_sorted; [|done]. by rewrite Hflat.
    + by rewrite Hsub -(counted_of_section _ s Hsorted Hin) Hflat Hc.
  - intros kind reason n. transitivity (((kind, reason), n) ∈ group_counts counts).
    + rewrite -Hflat list_elem_of_In in_flat_map. unfold section_groups. split.
      * intros (s & row & Hin & Hrow & <- & <- & <-). exists s. split; [by apply list_elem_of_In|].
        by apply list_elem_of_In, (list_elem_of_fmap_2 (fun r => ((section_kind s, row_reason r), row_count r))).
      * intros (s & Hin%list_elem_of_In & Hg%list_elem_of_In).
        apply list_elem_of_fmap in Hg as (row & [= -> -> ->] & Hrow). by exists s, row.
    + split.
      * intros Hin. split.
        -- apply (list_elem_of_fmap_2 fst), Hk, list_elem_of_fmap in Hin as (c & [= -> ->] & Hin). by exists c.
        -- rewrite -Hc (counted_at_key _ _ n) //. rewrite Forall_forall in Hb. apply Hb in Hin. cbn in Hin. lia.
      * intros [(c & Hin & <- & <-) ->].
        assert ((chc_check_kind c, chc_reason c) ∈ map fst (group_counts counts)) as Hkey.
        { apply Hk. by apply (list_elem_of_fmap_2 (fst ∘ as_group)). }
        apply list_elem_of_fmap in Hkey as ([k m] & Hkm & Hm). cbn in Hkm. subst k.
        rewrite -Hc (counted_at_key _ _ m) //. rewrite Forall_forall in Hb. pose proof (Hb _ Hm) as Hmb.
        cbn in Hmb. rewrite N.min_l //.
  - by rewrite fold_sat_counted // N.add_0_l Hc.
Qed.

(** ** What raises a flag *)

Definition b2n (b : bool) : N := if b then 1 else 0.

Definition has_health (metrics : AggregatedMetrics) (p : CollectionHealthCount -> bool) : bool :=
  existsb (fun c => p c && (0 <? chc_count c)) (collection_health_counts metrics).

Definition at_kind_and_reason (kind : CollectionHealthCheckKind) (reason : CollectionFailureReason)
    (c : CollectionHealthCount) : bool :=
  bool_decide (chc_check_kind c = kind) && bool_decide (chc_reason c = reason).

Definition confirmed_absent (repo : RepositoryEvidence) : bool :=
  match branch_protection (checks repo) with BPR_Unprotected _ (HG_Absent true _) _ => true | _ => false end.
Definition history_gap (repo : RepositoryEvidence) : bool :=
  match branch_protection (checks repo) with
  | BPR_Unprotected _ (HG_Absent true _) _ => false
  | BPR_Unprotected _ _ _ => true
  | _ => false
  end.
Definition enabled_unobservable (repo : RepositoryEvidence) : bool :=
  bool_decide (SecretScanningResult_status (secret_scanning (checks repo)) = SSS_Enabled)
  && negb (alerts_observable (secret_scanning (checks repo))).

Definition severity_of (i : RedFlagId) : Severity :=
  match i with
  | RF_TokenTierUnknown | RF_DegradedCapability | RF_RateLimitedCollection | RF_CollectionRunStale
  | RF_BranchProtectionAbsent => High
  | _ => Medium
  end.
Definition category_of (i : RedFlagId) : RedFlagCategory :=
  match i with
  | RF_TokenTierUnknown | RF_DegradedCapability | RF_BranchProtectionPermissionSuspected
  | RF_BranchProtectionPermissionDenied | RF_SecretScanningPermissionDenied | RF_AuthModePat => RC_Credential
  | RF_RateLimitedCollection | RF_UnstableCollectionResult | RF_CodeownersTruncated
  | RF_CollectionRunStale | RF_SecretScanningUnobservable => RC_Integrity
  | RF_BranchProtectionAbsent | RF_IntegrityControlGap => RC_Posture
  end.

(** The repositories a posture flag names: all those of its gap, sorted. *)
Definition posture_repos (metadata : AssessmentMetadata) (gap : RepositoryEvidence -> bool)
    (repos : list RepositoryEvidence) : list string :=
  sort_by String.le (map (repo_full_name metadata) (List.filter gap repos)).

Section RaisedFlags.
  Context (parse_timestamp : string -> option Z) (now : Z).
  Context (metadata : AssessmentMetadata) (metrics : AggregatedMetrics) (repos : list RepositoryEvidence).

(** How many flags of each id the evidence calls for. *)
Definition raised (i : RedFlagId) : N :=
  match i with
  | RF_TokenTierUnknown => b2n (bool_decide (am_token_tier metadata = TT_Unknown))
  | RF_DegradedCapability => N.of_nat (length (am_unavailable_capabilities metadata))
  | RF_BranchProtectionPermissionSuspected =>
    b2n (has_health metrics (at_kind_and_reason CK_BranchProtection CF_PermissionSuspected))
  | RF_BranchProtectionPermissionDenied =>
    b2n (has_health metrics (at_kind_and_reason CK_BranchProtection CF_PermissionDenied))
  | RF_SecretScanningPermissionDenied =>
    b2n (has_health metrics (at_kind_and_reason CK_SecretScanning CF_PermissionDenied))
  | RF_AuthModePat => b2n (bool_decide (am_auth_mode metadata = AM_Pat))
  | RF_RateLimitedCollection => b2n (has_health metrics (fun c => bool_decide (chc_reason c = CF_RateLimited)))
  | RF_UnstableCollectionResult =>
    b2n (has_health metrics (fun c =>
      bool_decide (chc_reason c = CF_Transient) || bool_decide (chc_reason c = CF_Invalid)))
  | RF_CodeownersTruncated => b2n (0 <? co_truncated (codeowners_counts metrics))
  | RF_CollectionRunStale => b2n (is_collection_run_stale parse_timestamp now (am_run_timestamp metadata))
  | RF_SecretScanningUnobservable => b2n (existsb enabled_unobservable repos)
  | RF_BranchProtectionAbsent => b2n (existsb confirmed_absent repos)
  | RF_IntegrityControlGap => b2n (existsb history_gap repos)
  end.

(** ** Lemmas: red flags *)

Lemma sum_health_zero p : (sum_collection_health (collection_health_counts metrics) p =? 0) = negb (has_health metrics p).
Proof.
  rewrite sum_health_counted. unfold has_health. induction (collection_health_counts metrics) as [|c l IH]; [done|].
  cbn [foldr existsb]. destruct (N.ltb_spec 0 (chc_count c)), (p c); cbn [andb orb negb] in *.
  - apply N.eqb_neq. unfold u32_max. lia.
  - by rewrite N.add_0_l.
  - rewrite -IH. f_equal. lia.
  - by rewrite N.add_0_l.
Qed.

Lemma unobservable_zero : (count_secret_scanning_unobservable repos =? 0) = negb (existsb enabled_unobservable repos).
Proof.
  unfold count_secret_scanning_unobservable. rewrite clamp_min. fold enabled_unobservable.
  induction repos as [|r l IH]; [done|]. rewrite countb_cons. cbn [existsb].
  destruct (enabled_unobservable r); cbn [orb negb].
  - apply N.eqb_neq. unfold u32_max. lia.
  - by rewrite -IH N.add_0_l.
Qed.

Lemma scan_posture_exact :
  scan_branch_protection_posture metadata repos
  = mkPostureScan (posture_repos metadata confirmed_absent repos) (posture_repos metadata history_gap repos).
Proof.
  unfold scan_branch_protection_posture, posture_repos.
  assert (forall a g, fold_left (scan_posture metadata) repos (mkPostureScan a g)
    = mkPostureScan (a ++ map (repo_full_name metadata) (List.filter confirmed_absent repos))
        (g ++ map (repo_full_name metadata) (List.filter history_gap repos))) as ->; [|done].
  induction repos as [|r l IH]; intros a g; cbn [fold_left List.filter map]; [by rewrite !app_nil_r|].
  unfold scan_posture at 2, confirmed_absent at 1, history_gap at 1.
  destruct (branch_protection (checks r)) as [|? [[]| | |]|]; cbn [absent integrity_gap];
    rewrite IH ?map_cons -?app_assoc //.
Qed.

Definition flag_wf (f : RedFlag) : Prop :=
  rf_severity f = severity_of (rf_id f) /\ rf_category f = category_of (rf_id f) /\
  (rf_id f = RF_BranchProtectionAbsent -> rf_affected f = AS_Repos (posture_repos metadata confirmed_absent repos)) /\
  (rf_id f = RF_IntegrityControlGap -> rf_affected f = AS_Repos (posture_repos metadata history_gap repos)).

(** A step that adds the flags of the id [i], as many as are called for. *)
Definition raises (i : RedFlagId) (step : list RedFlag -> list RedFlag) : Prop :=
  exists extra, (forall flags, step flags = flags ++ extra) /\ N.of_nat (length extra) = raised i /\
    Forall (fun f => rf_id f = i /\ flag_wf f) extra.

(** Of the flags so far, those of the ids [is], as many as are called for. *)
Definition flags_of (ids : list RedFlagId) (flags : list RedFlag) : Prop :=
  Forall flag_wf flags /\
  forall i, countb (fun f => bool_decide (rf_id f = i)) flags = if decide (i ∈ ids) then raised i else 0.

Lemma flags_of_raise ids flags i step :
  raises i step -> i ∉ ids -> flags_of ids flags -> flags_of (i :: ids) (step flags).
Proof.
  intros (extra & Hstep & Hlen & Hextra) Hi [Hwf Hcount]. rewrite Hstep. split.
  - apply Forall_app. split; [done|]. eapply Forall_impl; [exact Hextra|]. by intros f [_ ?].
  - intros j. rewrite countb_app Hcount. destruct (decide (i = j)) as [->|Hne].
    + rewrite decide_False // N.add_0_l decide_True; [|left]. rewrite -Hlen. unfold countb. do 2 f_equal.
      clear -Hextra. induction Hextra as [|f l [Hf _] _ IH]; [done|]. cbn [List.filter].
      by rewrite bool_decide_eq_true_2 // IH.
    + rewrite (proj2 (countb_zero _ extra)).
      * rewrite N.add_0_r. apply decide_ext. set_solver.
      * intros f Hf. rewrite Forall_forall in Hextra. apply Hextra in Hf as [Hf _].
        apply bool_decide_eq_false. by rewrite Hf.
Qed.

(** One flag, when its condition holds. *)
Lemma raises_if i b f (step : list RedFlag -> list RedFlag) :
  raised i = b2n b -> rf_id f = i -> flag_wf f ->
  (forall flags, step flags = if negb b then flags else flags ++ [f]) -> raises i step.
Proof.
  intros Hr Hi Hf Hstep. exists (if b then [f] else []). split_and!.
  - intros flags. rewrite Hstep. destruct b; [done|]. by rewrite app_nil_r.
  - rewrite Hr. by destruct b.
  - destruct b; [|done]. by apply Forall_singleton.
Qed.

Ltac raise_health := eapply raises_if;
  [cbn [raised]; reflexivity| | |intros flags; cbv beta zeta delta [
     push_branch_protection_permission_suspected push_branch_protection_permission_denied
     push_secret_scanning_permission_denied push_rate_limited_collection push_unstable_collection_result];
     fold (at_kind_and_reason); rewrite sum_health_zero; reflexivity];
  [reflexivity|by split_and!].

Lemma push_bp_suspected_raises : raises RF_BranchProtectionPermissionSuspected
  (fun flags => push_branch_protection_permission_suspected flags metrics).
Proof. raise_health. Qed.

Lemma push_bp_denied_raises : raises RF_BranchProtectionPermissionDenied (fun flags => push_branch_protection_permission_denied flags metrics).
Proof. raise_health. Qed.

Lemma push_ss_denied_raises : raises RF_SecretScanningPermissionDenied (fun flags => push_secret_scanning_permission_denied flags metrics).
Proof. raise_health. Qed.

Lemma push_rate_limited_raises : raises RF_RateLimitedCollection (fun flags => push_rate_limited_collection flags metrics).
Proof. raise_health. Qed.

Lemma push_unstable_raises : raises RF_UnstableCollectionResult (fun flags => push_unstable_collection_result flags metrics).
Proof. raise_health. Qed.

Lemma push_tier_raises : raises RF_TokenTierUnknown (fun flags => push_token_tier_unknown flags metadata).
Proof.
  eapply raises_if; [cbn [raised]; reflexivity| | |].
  3: { intros flags. unfold push_token_tier_unknown. by rewrite bool_decide_not. }
  all: [> done|by split_and!].
Qed.

Lemma push_pat_raises : raises RF_AuthModePat (fun flags => push_auth_mode_pat flags metadata).
Proof.
  eapply raises_if; [cbn [raised]; reflexivity| | |intros flags; reflexivity];
  [done|by split_and!].
Qed.

Lemma push_stale_raises :
  raises RF_CollectionRunStale (fun flags => push_collection_run_stale parse_timestamp now flags metadata).
Proof.
  eapply raises_if; [cbn [raised]; reflexivity| | |intros flags; reflexivity];
  [done|by split_and!].
Qed.

Lemma push_truncated_raises : raises RF_CodeownersTruncated (fun flags => push_codeowners_truncated flags metrics).
Proof.
  eapply raises_if; [cbn [raised]; reflexivity| | |].
  3: { intros flags. unfold push_codeowners_truncated. cbv zeta.
       rewrite (_ : (co_truncated _ =? 0) = negb (0 <? co_truncated (codeowners_counts metrics))); [reflexivity|].
       by destruct (co_truncated _). }
  all: [> done|by split_and!].
Qed.

Lemma push_unobservable_raises :
  raises RF_SecretScanningUnobservable (fun flags => push_secret_scanning_unobservable flags repos).
Proof.
  eapply raises_if; [cbn [raised]; reflexivity| | |].
  3: { intros flags. unfold push_secret_scanning_unobservable. cbv zeta.
       rewrite unobservable_zero. reflexivity. }
  all: [> done|by split_and!].
Qed.

Lemma push_degraded_raises :
  raises RF_DegradedCapability (fun flags => push_degraded_capabilities flags metadata).
Proof.
  exists (map degraded_flag (sort_by capability_le (am_unavailable_capabilities metadata))). split_and!; [done| |].
  - cbn [raised]. by rewrite length_map (Permutation_length (sort_by_Permutation _ _)).
  - apply Forall_forall. intros f Hf. apply list_elem_of_fmap in Hf as (c & -> & _). by destruct c; split_and!.
Qed.

(** A posture flag is raised when some repository has its gap. *)
Lemma push_posture_raises spec gap :
  raised (spec_id spec) = b2n (existsb gap repos) ->
  flag_wf (mkRedFlag (spec_id spec) (spec_severity spec) RC_Posture (spec_title spec) (spec_detail spec)
    (AS_Repos (posture_repos metadata gap repos))
    (mkRemedy (spec_remedy_summary spec) (FT_Repo (default "" (head (posture_repos metadata gap repos)))))) ->
  raises (spec_id spec) (fun flags => push_posture_flag flags (posture_repos metadata gap repos) spec).
Proof.
  intros Hr Hwf.
  assert (existsb gap repos = match posture_repos metadata gap repos with [] => false | _ => true end) as Hex.
  { pose proof (Permutation_length (sort_by_Permutation String.le (map (repo_full_name metadata) (List.filter gap repos))))
      as Hlen. fold (posture_repos metadata gap repos) in Hlen. rewrite length_map in Hlen.
    assert (existsb gap repos = match List.filter gap repos with [] => false | _ => true end) as ->.
    { clear. induction repos as [|r l IH]; [done|]. cbn [existsb List.filter]. by destruct (gap r). }
    by destruct (List.filter gap repos), (posture_repos metadata gap repos). }
  refine (raises_if _ _ _ _ Hr _ Hwf _); [done|]. intros flags. unfold push_posture_flag. rewrite Hex.
  by destruct (posture_repos metadata gap repos).
Qed.

Definition all_ids : list RedFlagId :=
  [ RF_IntegrityControlGap; RF_BranchProtectionAbsent; RF_SecretScanningUnobservable; RF_CollectionRunStale;
    RF_CodeownersTruncated; RF_UnstableCollectionResult; RF_RateLimitedCollection; RF_AuthModePat;
    RF_SecretScanningPermissionDenied; RF_BranchProtectionPermissionDenied;
    RF_BranchProtectionPermissionSuspected; RF_DegradedCapability; RF_TokenTierUnknown ].

Lemma build_red_flags_flags_of : flags_of all_ids (build_red_flags parse_timestamp now metadata metrics repos).
Proof.
  assert (forall ids l, flags_of ids l -> flags_of ids (sort_by flag_le l)) as Hsort.
  { intros ids l [Hwf Hc]. split; [by rewrite sort_by_Permutation|]. intros i. rewrite -Hc.
    apply countb_Permutation, sort_by_Permutation. }
  unfold build_red_flags, push_branch_protection_posture_flags. cbv zeta. apply Hsort.
  rewrite scan_posture_exact. cbn [absent integrity_gap].
  assert (forall (ids : list RedFlagId) i, bool_decide (i ∉ ids) = true -> i ∉ ids) as Hnew 
    by (intros ids i H; by apply (bool_decide_eq_true_1 _) in H).
  apply (flags_of_raise _ _ _ _ (push_posture_raises integrity_gap_spec history_gap eq_refl ltac:(by split_and!)));
    [by apply Hnew|].
  apply (flags_of_raise _ _ _ _ (push_posture_raises absent_spec confirmed_absent eq_refl ltac:(by split_and!)));
    [by apply Hnew|].
  apply (flags_of_raise _ _ _ _ push_unobservable_raises); [by apply Hnew|].
  apply (flags_of_raise _ _ _ _ push_stale_raises); [by apply Hnew|].
  apply (flags_of_raise _ _ _ _ push_truncated_raises); [by apply Hnew|].
  apply (flags_of_raise _ _ _ _ push_unstable_raises); [by apply Hnew|].
  apply (flags_of_raise _ _ _ _ push_rate_limited_raises); [by apply Hnew|].
  apply (flags_of_raise _ _ _ _ push_pat_raises); [by apply Hnew|].
  apply (flags_of_raise _ _ _ _ push_ss_denied_raises); [by apply Hnew|].
  apply (flags_of_raise _ _ _ _ push_bp_denied_raises); [by apply Hnew|].
  apply (flags_of_raise _ _ _ _ push_bp_suspected_raises); [by apply Hnew|].
  apply (flags_of_raise _ _ _ _ push_degraded_raises); [by apply Hnew|].
  apply (flags_of_raise _ _ _ _ push_tier_raises); [by apply Hnew|].
  split; [done|]. intros i. destruct (decide (i ∈ [])) as [H|]; [by apply elem_of_nil in H|done].
Qed.
End RaisedFlags.

Lemma flag_le_refl_total : Total flag_le.
Proof. intros a b. unfold flag_le. lia. Qed.
Lemma flag_le_transitive : Transitive flag_le.
Proof. intros a b c. unfold flag_le. lia. Qed.

Lemma raised_all_ids i : i ∈ all_ids.
Proof. apply (bool_decide_eq_true_1 _). by destruct i. Qed.

(** ** Properties: red flags *)

(** The red flags of the admin page are sorted by severity, category and
    id; of each id there are exactly as many as the evidence calls for: one for
    each unavailable capability, and one for every other id when its condition
    holds, however large the counts; the severity and the category of a flag
    are those of its id, none is critical; a posture flag names, sorted,
    exactly the repositories with its gap. *)
Lemma red_flags_exact parse_timestamp now metadata metrics repos :
  let flags := build_red_flags parse_timestamp now metadata metrics repos in
  StronglySorted flag_le flags /\
  (forall i, countb (fun f => bool_decide (rf_id f = i)) flags
             = raised parse_timestamp now metadata metrics repos i) /\
  (forall f, f ∈ flags ->
     rf_severity f = severity_of (rf_id f) /\ rf_severity f <> Critical /\
     rf_category f = category_of (rf_id f) /\
     (rf_id f = RF_BranchProtectionAbsent ->
        rf_affected f = AS_Repos (posture_repos metadata confirmed_absent repos)) /\
     (rf_id f = RF_IntegrityControlGap ->
        rf_affected f = AS_Repos (posture_repos metadata history_gap repos))).
Proof.
  intros flags. destruct (build_red_flags_flags_of parse_timestamp now metadata metrics repos) as [Hwf Hc].
  split_and!.
  - unfold flags, build_red_flags. apply sort_by_sorted; [exact flag_le_refl_total|exact flag_le_transitive].
  - intros i. rewrite Hc decide_True //. apply raised_all_ids.
  - intros f Hf. rewrite Forall_forall in Hwf. apply Hwf in Hf as (Hs & Hcat & Ha & Hi).
    split_and!; [done| |done..]. rewrite Hs. by destruct (rf_id f).
Qed.
