(* ===== verification/ViewModel.v ===== *)
(** * The report's view model ([report/view_model.rs])

    What the dashboard and the report show of a report artifact: tiers, bars,
    rates, exclusions, the governance score, the coverage and warm-start
    notices, the page of the retired repositories.  Rates are [f64] values of
    the Standard Library's [SpecFloat]; the logarithm and the exponential of
    the mean, the parsing and printing of instants and the percent encoding are
    parameters. *)

From S2P Require Import Prelude Str Time Repository Checks Evidence Metrics Run Config Aggregate Codeowners.
From S2P Require Import Projection Publication Artifact Diagnostics.
From Stdlib Require Import Floats.SpecFloat.

Open Scope N_scope.

(** ** Tiers and bars *)

Inductive CoverageTier := Tier_Pass | Tier_Warn | Tier_Fail | Tier_Na.
#[export] Instance CoverageTier_eq_dec : EqDecision CoverageTier.
Proof. solve_decision. Defined.

Definition tier_css_class (t : CoverageTier) : string :=
  match t with
  | Tier_Pass => "tier-pass" | Tier_Warn => "tier-warn" | Tier_Fail => "tier-fail" | Tier_Na => "tier-na"
  end.
Definition tier_status_dot_class (t : CoverageTier) : string :=
  match t with
  | Tier_Pass => "status-pass" | Tier_Warn => "status-warn" | Tier_Fail => "status-fail"
  | Tier_Na => "status-unknown"
  end.

(** [CoverageTier::from_rate]. *)
Definition tier_from_rate (rate : option spec_float) (tiers : CoverageTiers) : CoverageTier :=
  match rate with
  | None => Tier_Na
  | Some r =>
    if SFleb (pass_threshold tiers) r then Tier_Pass
    else if SFleb (warn_threshold tiers) r then Tier_Warn else Tier_Fail
  end.

(** [r.clamp(0.0, 100.0)]. *)
Definition clamp_rate (r : spec_float) : spec_float :=
  let r := if SFltb r (f64_of_N 0) then f64_of_N 0 else r in
  if SFltb (f64_of_N 100) r then f64_of_N 100 else r.

Definition WIDTH_CLASSES : list string :=
  [ "w-0"; "w-5"; "w-10"; "w-15"; "w-20"; "w-25"; "w-30"; "w-35"; "w-40"; "w-45"; "w-50"; "w-55";
    "w-60"; "w-65"; "w-70"; "w-75"; "w-80"; "w-85"; "w-90"; "w-95"; "w-100" ].

(** The last index not above the bucket; the first when there is none. *)
Definition width_index (bucket : spec_float) : nat :=
  default O (head (List.filter (fun candidate => SFleb (f64_of_N (N.of_nat candidate)) bucket)
                     (rev (List.seq 0 (length WIDTH_CLASSES))))).

Definition rate_to_width_class (rate : option spec_float) : string :=
  match rate with
  | None => "w-0"
  | Some r =>
    let bucket := f64_round (f64_div (clamp_rate r) (f64_of_N 5)) in
    nth (width_index bucket) WIDTH_CLASSES ""
  end.

(** ** Pages *)

Inductive DashboardHref := Href_Root | Href_Nested.
Definition href_as_str (h : DashboardHref) : string :=
  match h with Href_Root => "." | Href_Nested => ".." end.

Inductive DrillDownPage :=
| Page_BranchProtection | Page_SecurityPolicy | Page_SecretScanning | Page_DependabotStatus
| Page_Codeowners | Page_AlertFree | Page_LifecycleRetirement.
Definition DrillDownPage_ALL : list DrillDownPage :=
  [ Page_BranchProtection; Page_SecurityPolicy; Page_SecretScanning; Page_DependabotStatus;
    Page_Codeowners; Page_AlertFree; Page_LifecycleRetirement ].

Definition file_name (p : DrillDownPage) : string :=
  match p with
  | Page_BranchProtection => "branch_protection.html"
  | Page_SecurityPolicy => "security_policy.html"
  | Page_SecretScanning => "secret_scanning.html"
  | Page_DependabotStatus => "dependabot_status.html"
  | Page_Codeowners => "codeowners.html"
  | Page_AlertFree => "alert_free.html"
  | Page_LifecycleRetirement => "lifecycle_retirement.html"
  end.

Record DrillDownLink := mkDrillDownLink { link_page : DrillDownPage; link_depth : DashboardHref }.
Definition drill_down_link (p : DrillDownPage) (depth : DashboardHref) : DrillDownLink := mkDrillDownLink p depth.
Definition DrillDownLink_display (l : DrillDownLink) : string :=
  (match link_depth l with Href_Root => "" | Href_Nested => "../" end) +:+ file_name (link_page l).

(** [PublicationDisclosure] and the menu of every page. *)
Record PublicationDisclosure := mkPublicationDisclosure {
  disclosure_summary : string;
  disclosure_repositories : list (string * string);
}.

Record TopNav := mkTopNav {
  nav_publication : option PublicationDisclosure;
  nav_base : string;
  nav_dashboard_href : DashboardHref;
  nav_show_owners : bool;
  nav_orphaned_count : N;
  nav_deleted_count : N;
  nav_technical_issues_total : N;
}.
Definition nav_has_technical_issues (n : TopNav) : bool := 0 <? nav_technical_issues_total n.

(** ** Exclusions and cells *)

Definition unmeasured_text (total : N) : string := pretty total +:+ " unmeasured".

Record ControlExclusion := mkControlExclusion { ce_total : N; ce_formatted : string }.
Definition ControlExclusion_empty : ControlExclusion := mkControlExclusion 0 "0 unmeasured".
Definition ControlExclusion_unmeasured (total : N) : ControlExclusion :=
  mkControlExclusion total (unmeasured_text total).

(** [parts.join(", ")]. *)
Fixpoint join_comma (parts : list string) : string :=
  match parts with
  | [] => ""
  | [p] => p
  | p :: rest => p +:+ ", " +:+ join_comma rest
  end.

Definition format_exclusion (check_kind : CollectionHealthCheckKind) (counts : list ScoreExclusionCount)
    : ControlExclusion :=
  let entries := List.filter (fun c => bool_decide (sec_check_kind c = check_kind)) counts in
  let total := fold_left (fun total c => sat_add u32_max total (sec_count c)) entries 0 in
  let parts := map (fun c => pretty (sec_count c) +:+ " " +:+ ExclusionReason_display (sec_reason c)) entries in
  mkControlExclusion total
    (match parts with
     | [] => "0 unmeasured"
     | _ => pretty total +:+ " unmeasured (" +:+ join_comma parts +:+ ")"
     end).

(** [AlertFreeExclusion]: the count; its text is derived. *)
Definition alert_free_excluded_formatted (count : N) : string := unmeasured_text count.

Record ControlCell := mkControlCell {
  cell_rate : option spec_float;
  cell_rate_formatted : string;
  cell_rate_table_formatted : string;
  cell_tier : CoverageTier;
  cell_width_class : string;
  cell_excluded_total : N;
  cell_excluded_formatted : string;
}.

(** [ControlCell::from_rate]. *)
Definition cell_from_rate (rate_metric : option RateMetric) (tiers : CoverageTiers)
    (exclusion : ControlExclusion) : ControlCell :=
  let r := rate_metric ≫= rate in
  mkControlCell r
    (match rate_metric with None => "N/A" | Some m => RateMetric_display m end)
    (match rate_metric with None => "N/A" | Some m => to_table_string m end)
    (tier_from_rate r tiers) (rate_to_width_class r) (ce_total exclusion) (ce_formatted exclusion).

(** [extra_u32]; the values of the map are counts. *)
Definition extra_u32 (extra : gmap string N) (key : string) : N :=
  match extra !! key with
  | Some v => if v <=? u32_max then v else 0
  | None => 0
  end.

(** ** Texts *)

Definition coverage_control_how_to_fix (key : string) : option string :=
  if bool_decide (key = "security_policy") then Some
    "Add a SECURITY.md file to the repo root, .github/, or docs/ — or use the Security tab's Reporting → Security policy → Start setup for a guided pull request."
  else if bool_decide (key = "secret_scanning") then Some
    "Enable it under Settings → Security → Advanced Security: click Enable → Enable Secret Protection next to Secret Protection (turns on scanning and push protection together). Counts all non-archived repositories, mirroring the organisation-wide Secret Scanning figure."
  else if bool_decide (key = "dependabot_security_updates") then Some
    "Enable it under Settings → Security → Advanced Security: click Enable next to Dependabot alerts (this also governs Dependabot security updates), or apply it org-wide via a security configuration."
  else if bool_decide (key = "branch_protection") then Some
    "Add a branch protection rule (Settings → Branches) or ruleset (Settings → Rules → Rulesets) on the default branch: block force pushes and disallow branch deletion."
  else if bool_decide (key = "codeowners") then Some
    "Add .github/CODEOWNERS naming a GitHub team (not an individual) with write access to the repo, e.g. `*   @your-org/team-slug` — teams survive membership changes."
  else None.

Definition LIFECYCLE_RETIREMENT_LABEL : string :=
  "Lifecycle: Retirement".
Definition LIFECYCLE_RETIREMENT_TOOLTIP : string :=
  "Archived / (archived + stale-active) — fraction of stale-lifecycle repos that have been archived. Stale = no update in 2+ years. Higher is better. One of seven controls behind the Org Governance score. It asks whether dead work has been retired, the later stage of the repository lifecycle arc. One of two Lifecycle controls, and distinct from the per-owner Lifecycle: Freshness, which asks whether work is still happening and divides by all of an owner's repos rather than by stale-lifecycle repos only.".
Definition ALERT_FREE_TOOLTIP : string :=
  "Percentage of observable repositories with no open secret scanning alerts (secret scanning enabled and alerts observable). Higher is better. One of seven controls behind the Org Governance score. N/A when no repositories are observable.".
Definition NON_STALE_TOOLTIP : string :=
  "(total - stale) / total for this owner's repos — the share not stale, where stale means not updated in 2+ years. One of seven controls behind the Team Health score. It asks whether work is still happening, the earlier stage of the repository lifecycle arc. One of two Lifecycle controls, and distinct from the org-wide Lifecycle: Retirement, which asks whether dead work has been retired and divides by stale-lifecycle repos only rather than by all of this owner's repos.".
Definition NON_ORPHANED_TOOLTIP : string :=
  "owned / (owned + attributed) for this owner — the share of this owner's repos that carry real CODEOWNERS ownership, rather than being orphans (no CODEOWNERS owner at all) merely attributed to this owner because their last committer is on its roster. Rises as more repos gain a CODEOWNERS owner; one of seven controls behind the Team Health score. Distinct from the org-wide orphaned-repos count, which counts every unowned repo in the organization rather than this owner's share.".

Definition coverage_control_column_tooltip (key : string) : option string :=
  if bool_decide (key = "security_policy") then Some
    "Security policy presence — a SECURITY.md file (repo root, .github/, or docs/) or GitHub's security-policy setting enabled. Same per-repo check behind both this column and the org-wide Security Policy Coverage metric (non-public repos excluded as not applicable)."
  else if bool_decide (key = "secret_scanning") then Some
    "GitHub secret scanning presence — catches leaked credentials pushed to the repo. Same per-repo check behind both this column and the org-wide Secret Scanning Coverage metric (that metric's rate counts all non-archived repositories; the check itself runs regardless of visibility)."
  else if bool_decide (key = "dependabot_security_updates") then Some
    "Dependabot security updates presence — when enabled, GitHub opens automatic pull requests for vulnerable dependencies. Same per-repo check behind both this column and the org-wide Dependabot Status metric."
  else if bool_decide (key = "branch_protection") then Some
    "Branch protection history integrity — force pushes and branch deletion blocked on the default branch. Same per-repo check behind both this column and the org-wide Branch Protection metric."
  else if bool_decide (key = "non_stale") then Some
    NON_STALE_TOOLTIP
  else if bool_decide (key = "non_orphaned") then Some
    NON_ORPHANED_TOOLTIP
  else if bool_decide (key = "codeowners") then Some
    "CODEOWNERS presence — a CODEOWNERS file in a recognized location (.github/CODEOWNERS or CODEOWNERS) identifying responsible teams or individuals. Same per-repo check behind both this column and the org-wide CODEOWNERS Coverage metric."
  else if bool_decide (key = "alert_free") then Some
    "Alert-free status — zero open secret scanning alerts on repositories where secret scanning is enabled and alerts are observable. Same per-repo check behind both this column and the org-wide Alert-Free Status metric (repositories where alerts are not observable are excluded as not applicable)."
  else None.

(** The five texts of [ControlHowToFix]. *)
Record ControlHowToFix := mkControlHowToFix {
  fix_policy : string;
  fix_secret_scanning : string;
  fix_dependabot : string;
  fix_branch_protection : string;
  fix_codeowners : string;
}.
Definition dashboard_control_how_to_fix : ControlHowToFix :=
  let text key := default "" (coverage_control_how_to_fix key) in
  mkControlHowToFix (text "security_policy") (text "secret_scanning") (text "dependabot_security_updates")
    (text "branch_protection") (text "codeowners").

Definition compose_team_access_guidance (cfg : TeamAccessGuidance) : string * list HelpLink :=
  let contact := default "your GitHub organization's administrators" (contact cfg) in
  let governance :=
    default "an identity provider or admin process outside this repository" (governance_model cfg) in
  ("To add a member to a team, contact " +:+ contact +:+ " with the person's GitHub username and "
   +:+ "the team they should join — team membership is typically governed by " +:+ governance +:+ ", "
   +:+ "not a configuration file.", help_links cfg).

(** ** Notices *)

Record CoverageNotice := mkCoverageNotice { notice_summary : string; notice_detail : string }.

Definition coverage_notice_derive (coverage : CollectionCoverage) (report_rows : N) : option CoverageNotice :=
  match coverage with
  | CoverageKnown total limit =>
    let selected := clamp usize_max limit in
    if selected <? total then
      Some (mkCoverageNotice
        ("Capped " +:+ pretty selected +:+ " of " +:+ pretty total +:+ " repositories")
        (pretty selected +:+ " of " +:+ pretty total +:+ " repositories selected for sweep; max_repos="
         +:+ pretty limit +:+ "; " +:+ pretty report_rows
         +:+ " non-archived report rows (may include unread and retained evidence)"))
    else None
  | CoverageUnknown => None
  end.

Definition coverage_notice_to_html (n : CoverageNotice) : string :=
  "<strong>Coverage:</strong> Capped (" +:+ notice_detail n +:+ ")".

Definition derive_warm_start_badge (warm_start : bool) (unscanned : N) : option string :=
  if warm_start || (0 <? unscanned) then
    let unread_note :=
      if unscanned =? 0 then ""
      else if unscanned =? 1 then " · 1 repo not scanned"
      else " · " +:+ pretty unscanned +:+ " repos not scanned" in
    Some ("Cached · next update in progress" +:+ unread_note)
  else None.

(** ** Rates of the dashboard *)

(** [(f64::from(n) / f64::from(d)) * 100.0], when [d] is not zero. *)
Definition percentage (n d : N) : option spec_float :=
  if 0 <? d then Some (f64_mul (f64_div (f64_of_N n) (f64_of_N d)) (f64_of_N 100)) else None.

Definition percentage_text (r : option spec_float) (n d : N) : string :=
  let ratio := " (" +:+ pretty n +:+ "/" +:+ pretty d +:+ ")" in
  match r with
  | None => "N/A" +:+ ratio
  | Some s => f64_fixed 1 s +:+ "%" +:+ ratio
  end.

Record AlertFreeCoverage := mkAlertFreeCoverage {
  af_rate : option spec_float;
  af_tier : CoverageTier;
  af_formatted : string;
  af_width_class : string;
}.

(** The two numbers of [compute_alert_free_coverage]. *)
Definition alert_free_numbers (m : AggregatedMetrics) : N * N :=
  let numerator := repos_without_open_alerts (secret_alert_counts m) in
  (numerator, N.max (sat_add u32_max numerator (repos_with_open_alerts (secret_alert_counts m)))
                (denominator (agg_open_secret_alert_prevalence m))).

Definition compute_alert_free_coverage (evidence : EvidenceArtifact) (tiers : CoverageTiers)
    : AlertFreeCoverage :=
  let '(numerator, denominator) := alert_free_numbers (ea_metrics evidence) in
  let rate := percentage numerator denominator in
  mkAlertFreeCoverage rate (tier_from_rate rate tiers) (percentage_text rate numerator denominator)
    (rate_to_width_class rate).

(** [alert_free_is_bright_red], of the rate. *)
Definition alert_free_is_bright_red (r : option spec_float) : bool :=
  negb (match r with Some r => SFeqb r (f64_of_N 100) | None => false end).

Section Score.
  (** [f64::ln] and [f64::exp], whose precision the language leaves open. *)
  Context (ln exp : spec_float -> spec_float).

Definition f64_add := SFadd 53 1024.

Definition floor_rate (r : spec_float) : spec_float :=
  if SFeqb r (f64_of_N 0) then f64_div (f64_of_N 1) (f64_of_N 10) else r.

Definition compute_health_score (rates : list (option spec_float)) : option spec_float :=
  let available := map (fun r => floor_rate (clamp_rate r)) (omap id rates) in
  match available with
  | [] => None
  | _ =>
    let n := f64_of_N (clamp u32_max (N.of_nat (length available))) in
    let log_sum := fold_left (fun sum r => f64_add sum (ln r)) available (S754_zero true) in
    let geo_mean := exp (f64_div log_sum n) in
    Some (f64_div (f64_round (f64_mul geo_mean (f64_of_N 10))) (f64_of_N 10))
  end.

Record HealthDisplay := mkHealthDisplay {
  hd_score : option spec_float;
  hd_tier : CoverageTier;
  hd_score_formatted : string;
  hd_table_formatted : string;
  hd_width_class : string;
}.

(** A score as a percentage. *)
Definition score_text (digits : N) (score : option spec_float) : string :=
  match score with None => "N/A" | Some s => f64_fixed digits s +:+ "%" end.

Definition health_display (metrics : AggregatedMetrics) (stale_rate alert_free_rate : option spec_float)
    (tiers : CoverageTiers) : HealthDisplay :=
  let score := compute_health_score
    [ rate (security_policy_coverage metrics); rate (agg_secret_scanning_coverage metrics);
      rate (dependabot_security_updates_coverage metrics); rate (agg_branch_protection_coverage metrics);
      rate (agg_codeowners_coverage metrics); stale_rate; alert_free_rate ] in
  mkHealthDisplay score (tier_from_rate score tiers) (score_text 1 score) (score_text 0 score)
    (rate_to_width_class score).
End Score.

(** ** Rows of a denominator *)

(** [UnmeasuredReason::label], [ControlOutcome::label] and
    [CoverageControl::population_description] of [aggregate/metrics.rs]. *)
Definition unmeasured_label (r : UnmeasuredReason) : string :=
  match r with
  | UR_PermissionDenied => "Permission denied"
  | UR_Unknown => "Unknown"
  | UR_NotApplicable => "Not applicable"
  end.
Definition outcome_label (o : ControlOutcome) : string := match o with Met => "Met" | Unmet => "Not met" end.
Definition population_description (c : CoverageControl) : string :=
  match c with
  | CtlSecurityPolicy => "every public repository, archived included"
  | CtlSecretScanning | CtlDependabot | CtlCodeowners | CtlBranchProtection => "every non-archived repository"
  end.

Record DenominatorRepoRow := mkDenominatorRow {
  dr_repo_name : string;
  dr_repo_url : string;
  dr_visibility : string;
  dr_archived : bool;
  dr_outcome : ControlOutcome;
}.
Definition outcome_css_class (o : ControlOutcome) : string :=
  match o with Met => "status-pass" | Unmet => "status-fail" end.

Record UnmeasuredRepoRow := mkUnmeasuredRow {
  ur_repo_name : string;
  ur_repo_url : string;
  ur_visibility : string;
  ur_archived : bool;
  ur_reason_label : string;
}.

(** Sorting rows by the repository's name. *)
Definition dr_le (a b : DenominatorRepoRow) : Prop := String.le (dr_repo_name a) (dr_repo_name b).
#[export] Instance dr_le_dec : RelDecision dr_le.
Proof. intros a b. unfold dr_le. apply _. Defined.
Definition ur_le (a b : UnmeasuredRepoRow) : Prop := String.le (ur_repo_name a) (ur_repo_name b).
#[export] Instance ur_le_dec : RelDecision ur_le.
Proof. intros a b. unfold ur_le. apply _. Defined.

Definition DEFAULT_GITHUB_WEB_BASE_URL : string := "https://github.com".

(** [build_repo_display] of [report/html.rs]: the name and the address. *)
Definition build_repo_display (repo : RepositoryEvidence) (org_encoded name_encoded : string) : string * string :=
  (repo_name (repository repo),
   DEFAULT_GITHUB_WEB_BASE_URL +:+ "/" +:+ org_encoded +:+ "/" +:+ name_encoded).

Section View.
  (** [value.parse::<Timestamp>().ok()], the texts [strftime] gives an instant,
      [utf8_percent_encode(s, PATH_SEGMENT)], [f64::ln] and [f64::exp], and the
      time at which the report is rendered. *)
  Context (parse_timestamp : string -> option Z) (minute_text : Z -> string).
  Context (path_encode : string -> string) (ln exp : spec_float -> spec_float) (now : Z).

(** [format_run_timestamp]. *)
Definition format_run_timestamp (ts : string) : string :=
  match parse_iso8601 parse_timestamp ts with Some dt => minute_text dt | None => ts end.

Record ArchivalCoverage := mkArchivalCoverage {
  ac_archived : N;
  ac_stale_active : N;
  ac_rate : option spec_float;
  ac_tier : CoverageTier;
  ac_formatted : string;
  ac_width_class : string;
}.

Definition stale_active (run_timestamp : string) (r : RepositoryEvidence) : bool :=
  negb (archived (repository r))
  && is_repo_stale parse_timestamp (updated_at (repository r)) run_timestamp.

Definition compute_archival_coverage (evidence : EvidenceArtifact) (tiers : CoverageTiers) : ArchivalCoverage :=
  let archived := archived_repos (ea_collection_statistics evidence) in
  let stale_active_repos :=
    clamp u32_max (countb (stale_active (am_run_timestamp (ea_assessment_metadata evidence)))
                     (ea_repositories evidence)) in
  let stale_denominator := sat_add u32_max archived stale_active_repos in
  let stale_rate := percentage archived stale_denominator in
  mkArchivalCoverage archived stale_active_repos stale_rate (tier_from_rate stale_rate tiers)
    (percentage_text stale_rate archived stale_denominator) (rate_to_width_class stale_rate).

(** ** The page of the retired repositories *)

Record LifecycleRetirementViewModel := mkLifecycleRetirement {
  lr_organization : string;
  lr_control_name : string;
  lr_population_description : string;
  lr_page_file_name : string;
  lr_numerator : N;
  lr_denominator : N;
  lr_coverage_formatted : string;
  lr_uninventoried_archived : N;
  lr_eligible : list DenominatorRepoRow;
}.

Definition denominator_row (org : string) (repo : RepositoryEvidence) (archived : bool) (outcome : ControlOutcome)
    : DenominatorRepoRow :=
  let '(repo_name, repo_url) :=
    build_repo_display repo (path_encode org) (path_encode (repo_name (repository repo))) in
  mkDenominatorRow repo_name repo_url (Visibility_display (visibility (repository repo))) archived outcome.

(** One turn of the loop over the repositories. *)
Definition push_retirement (org run_timestamp : string) (eligible : list DenominatorRepoRow)
    (repo : RepositoryEvidence) : list DenominatorRepoRow :=
  if archived (repository repo) then eligible ++ [denominator_row org repo true Met]
  else if is_repo_stale parse_timestamp (updated_at (repository repo)) run_timestamp then
    eligible ++ [denominator_row org repo false Unmet]
  else eligible.

Definition lifecycle_retirement_from_evidence (evidence : EvidenceArtifact) (tiers : CoverageTiers)
    : LifecycleRetirementViewModel :=
  let org := am_organization (ea_assessment_metadata evidence) in
  let run_timestamp := am_run_timestamp (ea_assessment_metadata evidence) in
  let coverage := compute_archival_coverage evidence tiers in
  let eligible := sort_by dr_le (fold_left (push_retirement org run_timestamp) (ea_repositories evidence) []) in
  let archived_in_details := clamp u32_max (countb dr_archived eligible) in
  let uninventoried_archived := sat_sub (ac_archived coverage) archived_in_details in
  mkLifecycleRetirement org LIFECYCLE_RETIREMENT_LABEL
    (if 0 <? uninventoried_archived then
       "stale-lifecycle repositories (archived repositories counted from organization statistics and active repositories not updated in 2+ years)"
     else
       "stale-lifecycle repositories (archived repositories and active repositories not updated in 2+ years)")
    (file_name Page_LifecycleRetirement) (ac_archived coverage)
    (sat_add u32_max (ac_archived coverage) (ac_stale_active coverage)) (ac_formatted coverage)
    uninventoried_archived eligible.

(** ** The view model *)

(** The fields the renderer fills in afterwards, the owners, the podium and the
    count of orphans, are those of the pages that carry them. *)
Record ReportViewModel := mkReportViewModel {
  rv_organization : string;
  rv_date : string;
  rv_date_time : string;
  rv_run_id : string;
  rv_total_repos : N;
  rv_total_all_repos : N;
  rv_scope_non_archived_label : string;
  rv_coverage_notice : option string;
  rv_policy_coverage_formatted : string;
  rv_dependabot_coverage_formatted : string;
  rv_secret_scanning_coverage_formatted : string;
  rv_branch_protection_coverage_formatted : string;
  rv_codeowners_coverage_formatted : string;
  rv_policy_coverage_table_formatted : string;
  rv_dependabot_coverage_table_formatted : string;
  rv_secret_scanning_coverage_table_formatted : string;
  rv_branch_protection_coverage_table_formatted : string;
  rv_codeowners_coverage_table_formatted : string;
  rv_policy_excluded_total : N;
  rv_policy_excluded_formatted : string;
  rv_secret_scanning_excluded_total : N;
  rv_secret_scanning_excluded_formatted : string;
  rv_dependabot_excluded_total : N;
  rv_dependabot_excluded_formatted : string;
  rv_branch_protection_excluded_total : N;
  rv_branch_protection_excluded_formatted : string;
  rv_codeowners_excluded_total : N;
  rv_codeowners_excluded_formatted : string;
  rv_policy_via_setting : N;
  rv_policy_via_file : N;
  rv_policy_missing : N;
  rv_policy_unknown : N;
  rv_dependabot_observable_repos : N;
  rv_dependabot_paused : N;
  rv_dependabot_disabled : N;
  rv_dependabot_unknown : N;
  rv_secret_scanning_observable_repos : N;
  rv_secret_scanning_disabled : N;
  rv_secret_scanning_permission_denied : N;
  rv_secret_scanning_unknown : N;
  rv_branch_protection_fail : N;
  rv_branch_protection_unknown : N;
  rv_codeowners_conforming : N;
  rv_codeowners_non_conforming : N;
  rv_codeowners_absent : N;
  rv_codeowners_unknown : N;
  rv_codeowners_truncated : N;
  rv_public_repos : N;
  rv_internal_repos : N;
  rv_private_repos : N;
  rv_rate_limit_warnings : N;
  rv_org_alert_collection_status : string;
  rv_org_alert_total_open_secret_alerts : N;
  rv_conforming_codeowners_path : string;
  rv_non_conforming_codeowners_path : string;
  rv_team_access_guidance : string;
  rv_team_access_help_links : list HelpLink;
  rv_policy_tier : CoverageTier;
  rv_secret_scanning_tier : CoverageTier;
  rv_dependabot_tier : CoverageTier;
  rv_branch_protection_tier : CoverageTier;
  rv_codeowners_tier : CoverageTier;
  rv_policy_width_class : string;
  rv_secret_scanning_width_class : string;
  rv_dependabot_width_class : string;
  rv_branch_protection_width_class : string;
  rv_codeowners_width_class : string;
  rv_policy_how_to_fix : string;
  rv_secret_scanning_how_to_fix : string;
  rv_dependabot_how_to_fix : string;
  rv_branch_protection_how_to_fix : string;
  rv_codeowners_how_to_fix : string;
  rv_branch_protection_drill_down : DrillDownLink;
  rv_security_policy_drill_down : DrillDownLink;
  rv_secret_scanning_drill_down : DrillDownLink;
  rv_dependabot_drill_down : DrillDownLink;
  rv_codeowners_drill_down : DrillDownLink;
  rv_alert_free_drill_down : DrillDownLink;
  rv_lifecycle_retirement_drill_down : DrillDownLink;
  rv_health_score : option spec_float;
  rv_health_tier : CoverageTier;
  rv_health_score_formatted : string;
  rv_health_score_table_formatted : string;
  rv_health_width_class : string;
  rv_lifecycle_retirement_label : string;
  rv_lifecycle_retirement_tooltip : string;
  rv_stale_rate : option spec_float;
  rv_stale_rate_formatted : string;
  rv_stale_tier : CoverageTier;
  rv_stale_width_class : string;
  rv_archived_repos : N;
  rv_stale_active_repos : N;
  rv_alert_free_rate : option spec_float;
  rv_alert_free_formatted : string;
  rv_alert_free_tier : CoverageTier;
  rv_alert_free_width_class : string;
  rv_alert_free_tooltip : string;
  rv_alert_free_exclusion : N;
  rv_deleted_count : N;
  rv_warm_start : bool;
  rv_warm_start_badge : option string;
  rv_admin_diagnostics : AdminDiagnosticsViewModel;
}.

(** [ReportViewModel::from_evidence]. *)
Definition report_from_evidence (evidence : EvidenceArtifact) (tiers : CoverageTiers) : ReportViewModel :=
  let metadata := ea_assessment_metadata evidence in
  let stats := ea_collection_statistics evidence in
  let m := ea_metrics evidence in
  let exclusion kind := format_exclusion kind (score_exclusion_counts m) in
  let archival := compute_archival_coverage evidence tiers in
  let alert_free := compute_alert_free_coverage evidence tiers in
  let health := health_display ln exp m (ac_rate archival) (af_rate alert_free) tiers in
  let team_access := compose_team_access_guidance TeamAccessGuidance_default in
  {|
    rv_organization := am_organization metadata;
    rv_date := am_date metadata;
    rv_date_time := format_run_timestamp (am_run_timestamp metadata);
    rv_run_id := am_run_id metadata;
    rv_total_repos := total_repos_count stats;
    rv_total_all_repos :=
      match coverage_total (am_coverage metadata) with
       | None => sat_add u32_max (total_repos_count stats) (ac_archived archival)
       | Some total => clamp u32_max total
       end;
    rv_scope_non_archived_label :=
      if coverage_is_capped (am_coverage metadata) then "non-archived report rows" else "non-archived";
    rv_coverage_notice :=
      option_map coverage_notice_to_html
         (coverage_notice_derive (am_coverage metadata) (total_repos_count stats));
    rv_policy_coverage_formatted := RateMetric_display (security_policy_coverage m);
    rv_dependabot_coverage_formatted := RateMetric_display (dependabot_security_updates_coverage m);
    rv_secret_scanning_coverage_formatted := RateMetric_display (agg_secret_scanning_coverage m);
    rv_branch_protection_coverage_formatted := RateMetric_display (agg_branch_protection_coverage m);
    rv_codeowners_coverage_formatted := RateMetric_display (agg_codeowners_coverage m);
    rv_policy_coverage_table_formatted := to_table_string (security_policy_coverage m);
    rv_dependabot_coverage_table_formatted := to_table_string (dependabot_security_updates_coverage m);
    rv_secret_scanning_coverage_table_formatted := to_table_string (agg_secret_scanning_coverage m);
    rv_branch_protection_coverage_table_formatted := to_table_string (agg_branch_protection_coverage m);
    rv_codeowners_coverage_table_formatted := to_table_string (agg_codeowners_coverage m);
    rv_policy_excluded_total := ce_total (exclusion CK_SecurityPolicy);
    rv_policy_excluded_formatted := ce_formatted (exclusion CK_SecurityPolicy);
    rv_secret_scanning_excluded_total := ce_total (exclusion CK_SecretScanning);
    rv_secret_scanning_excluded_formatted := ce_formatted (exclusion CK_SecretScanning);
    rv_dependabot_excluded_total := ce_total (exclusion CK_Dependabot);
    rv_dependabot_excluded_formatted := ce_formatted (exclusion CK_Dependabot);
    rv_branch_protection_excluded_total := ce_total (exclusion CK_BranchProtection);
    rv_branch_protection_excluded_formatted := ce_formatted (exclusion CK_BranchProtection);
    rv_codeowners_excluded_total := ce_total (exclusion CK_Codeowners);
    rv_codeowners_excluded_formatted := ce_formatted (exclusion CK_Codeowners);
    rv_policy_via_setting := via_setting (policy_counts m);
    rv_policy_via_file := via_file (policy_counts m);
    rv_policy_missing := policy_missing (policy_counts m);
    rv_policy_unknown := policy_unknown (policy_counts m);
    rv_dependabot_observable_repos :=
      extra_u32 (extra (dependabot_security_updates_coverage m)) "observable_repositories";
    rv_dependabot_paused := dep_paused (dependabot_security_updates_counts m);
    rv_dependabot_disabled := dep_disabled (dependabot_security_updates_counts m);
    rv_dependabot_unknown := dep_unknown (dependabot_security_updates_counts m);
    rv_secret_scanning_observable_repos := extra_u32 (extra (agg_secret_scanning_coverage m)) "observable_repositories";
    rv_secret_scanning_disabled := secret_disabled (secret_scanning_counts m);
    rv_secret_scanning_permission_denied := secret_permission_denied (secret_scanning_counts m);
    rv_secret_scanning_unknown := secret_unknown (secret_scanning_counts m);
    rv_branch_protection_fail := branch_fail (branch_protection_counts m);
    rv_branch_protection_unknown := branch_unknown (branch_protection_counts m);
    rv_codeowners_conforming := co_conforming (codeowners_counts m);
    rv_codeowners_non_conforming := co_non_conforming (codeowners_counts m);
    rv_codeowners_absent := co_absent (codeowners_counts m);
    rv_codeowners_unknown := co_unknown (codeowners_counts m);
    rv_codeowners_truncated := co_truncated (codeowners_counts m);
    rv_public_repos := public_repos stats;
    rv_internal_repos := internal_repos stats;
    rv_private_repos := private_repos stats;
    rv_rate_limit_warnings := am_rate_limit_warnings metadata;
    rv_org_alert_collection_status :=
      CollectionStatus_display (obs_collection_status (ea_secret_scanning_observability evidence));
    rv_org_alert_total_open_secret_alerts := obs_total_open_secret_alerts (ea_secret_scanning_observability evidence);
    rv_conforming_codeowners_path := CONFORMING_CODEOWNERS_PATH;
    rv_non_conforming_codeowners_path := NON_CONFORMING_CODEOWNERS_PATH;
    rv_team_access_guidance := fst team_access;
    rv_team_access_help_links := snd team_access;
    rv_policy_tier := tier_from_rate (rate (security_policy_coverage m)) tiers;
    rv_secret_scanning_tier := tier_from_rate (rate (agg_secret_scanning_coverage m)) tiers;
    rv_dependabot_tier := tier_from_rate (rate (dependabot_security_updates_coverage m)) tiers;
    rv_branch_protection_tier := tier_from_rate (rate (agg_branch_protection_coverage m)) tiers;
    rv_codeowners_tier := tier_from_rate (rate (agg_codeowners_coverage m)) tiers;
    rv_policy_width_class := rate_to_width_class (rate (security_policy_coverage m));
    rv_secret_scanning_width_class := rate_to_width_class (rate (agg_secret_scanning_coverage m));
    rv_dependabot_width_class := rate_to_width_class (rate (dependabot_security_updates_coverage m));
    rv_branch_protection_width_class := rate_to_width_class (rate (agg_branch_protection_coverage m));
    rv_codeowners_width_class := rate_to_width_class (rate (agg_codeowners_coverage m));
    rv_policy_how_to_fix := fix_policy dashboard_control_how_to_fix;
    rv_secret_scanning_how_to_fix := fix_secret_scanning dashboard_control_how_to_fix;
    rv_dependabot_how_to_fix := fix_dependabot dashboard_control_how_to_fix;
    rv_branch_protection_how_to_fix := fix_branch_protection dashboard_control_how_to_fix;
    rv_codeowners_how_to_fix := fix_codeowners dashboard_control_how_to_fix;
    rv_branch_protection_drill_down := drill_down_link Page_BranchProtection Href_Root;
    rv_security_policy_drill_down := drill_down_link Page_SecurityPolicy Href_Root;
    rv_secret_scanning_drill_down := drill_down_link Page_SecretScanning Href_Root;
    rv_dependabot_drill_down := drill_down_link Page_DependabotStatus Href_Root;
    rv_codeowners_drill_down := drill_down_link Page_Codeowners Href_Root;
    rv_alert_free_drill_down := drill_down_link Page_AlertFree Href_Root;
    rv_lifecycle_retirement_drill_down := drill_down_link Page_LifecycleRetirement Href_Root;
    rv_health_score := hd_score health;
    rv_health_tier := hd_tier health;
    rv_health_score_formatted := hd_score_formatted health;
    rv_health_score_table_formatted := hd_table_formatted health;
    rv_health_width_class := hd_width_class health;
    rv_lifecycle_retirement_label := LIFECYCLE_RETIREMENT_LABEL;
    rv_lifecycle_retirement_tooltip := LIFECYCLE_RETIREMENT_TOOLTIP;
    rv_stale_rate := ac_rate archival;
    rv_stale_rate_formatted := ac_formatted archival;
    rv_stale_tier := ac_tier archival;
    rv_stale_width_class := ac_width_class archival;
    rv_archived_repos := ac_archived archival;
    rv_stale_active_repos := ac_stale_active archival;
    rv_alert_free_rate := af_rate alert_free;
    rv_alert_free_formatted := af_formatted alert_free;
    rv_alert_free_tier := af_tier alert_free;
    rv_alert_free_width_class := af_width_class alert_free;
    rv_alert_free_tooltip := ALERT_FREE_TOOLTIP;
    rv_alert_free_exclusion := alerts_unobservable (secret_alert_counts m);
    rv_deleted_count := clamp u32_max (N.of_nat (length (ea_deleted evidence)));
    rv_warm_start := am_warm_start metadata;
    rv_warm_start_badge :=
      derive_warm_start_badge (am_warm_start metadata) (count_unscanned_repos evidence);
    rv_admin_diagnostics :=
      build_admin_diagnostics parse_timestamp now metadata m (ea_repositories evidence)
  |}.

(** The updates of the renderer: the warm-start state and the guidance. *)
Definition update_warm_start (vm_warm_start_badge : option string) (warm_start : bool) : bool * option string :=
  (warm_start,
   if warm_start && bool_decide (vm_warm_start_badge = None) then Some "Cached · next update in progress"
   else vm_warm_start_badge).
End View.

(** ** Lemmas: rates *)

(** The rate of [k] tenths of a percent. *)
Definition tenths (k : N) : spec_float := f64_div (f64_of_N k) (f64_of_N 10).

(** To the nearest, halves up, of [a / b]. *)
Definition round_half_up (a b : N) : N := (2 * a + b) / (2 * b).

#[export] Instance spec_float_eq_dec : EqDecision spec_float.
Proof. solve_decision. Defined.

Definition shown_right (k : N) : bool :=
  bool_decide (f64_fixed 1 (tenths k) = fixed_text 1 k)
  && bool_decide (f64_fixed 0 (tenths k) = pretty (Z.to_N (round_half_even (Z.of_N k) 10)))
  && bool_decide (rate_to_width_class (Some (tenths k)) = "w-" +:+ pretty (5 * round_half_up k 50))
  && bool_decide (tier_from_rate (Some (tenths k)) CoverageTiers_default
                  = if 800 <=? k then Tier_Pass else if 500 <=? k then Tier_Warn else Tier_Fail).

Lemma all_tenths_shown : forallb shown_right (below 1001) = true.
Proof. vm_compute. reflexivity. Qed.

Definition rate_right (d n : N) : bool :=
  (d <? n) || bool_decide (rate (RateMetric_new n d) = Some (tenths (round_half_up (1000 * n) d))).

Lemma all_rates_right : forallb (fun d => forallb (rate_right (d + 1)) (below 51)) (below 50) = true.
Proof. vm_compute. reflexivity. Qed.

(** ** Properties *)

(** A rate of any number of tenths of a percent, from 0 to 100, is shown
    without a rounding error of binary floating point: with one decimal exactly,
    as a whole percentage rounded half to even, its bar at the nearest multiple
    of five, its tier by the thresholds of 80 and 50; and the rate of [n] out of
    [d], up to 50, is the number of tenths nearest to it. *)
Lemma rates_shown_exactly :
  (forall k, k <= 1000 ->
     f64_fixed 1 (tenths k) = fixed_text 1 k /\
     f64_fixed 0 (tenths k) = pretty (Z.to_N (round_half_even (Z.of_N k) 10)) /\
     rate_to_width_class (Some (tenths k)) = "w-" +:+ pretty (5 * round_half_up k 50) /\
     tier_from_rate (Some (tenths k)) CoverageTiers_default
     = if 800 <=? k then Tier_Pass else if 500 <=? k then Tier_Warn else Tier_Fail) /\
  (forall n d, 0 < d -> d <= 50 -> n <= d ->
     rate (RateMetric_new n d) = Some (tenths (round_half_up (1000 * n) d)) /\
     round_half_up (1000 * n) d <= 1000).
Proof.
  split.
  - intros k Hk. pose proof (forall_below _ _ all_tenths_shown k ltac:(lia)) as H. unfold shown_right in H.
    rewrite !andb_true_iff !bool_decide_eq_true in H. tauto.
  - intros n d Hd Hd' Hn. split.
    + pose proof (forall_below _ _ all_rates_right (d - 1) ltac:(lia)) as H. cbn beta in H.
      pose proof (forall_below _ _ H n ltac:(lia)) as Hr. unfold rate_right in Hr.
      rewrite N.sub_add in Hr; [|lia]. rewrite (proj2 (N.ltb_ge d n)) in Hr; [|done].
      by apply bool_decide_eq_true in Hr.
    + unfold round_half_up. apply N.lt_succ_r, N.Div0.div_lt_upper_bound. nia.
Qed.

(** A score is shown exactly when some control has a rate; controls without one
    do not count. *)
Lemma health_score_none ln exp rates :
  compute_health_score ln exp rates = None <-> Forall (fun r => r = None) rates.
Proof.
  unfold compute_health_score. destruct (map _ (omap id rates)) as [|a l] eqn:E; (split; [intros H|intros H]).
  - apply map_eq_nil in E. clear H. induction rates as [|[r|] rates IH]; [done|done|].
    constructor; [done|]. by apply IH.
  - done.
  - done.
  - exfalso. assert (omap id rates = []) as Hn; [|by rewrite Hn in E].
    clear E. induction H as [|r rates -> _ IH]; done.
Qed.

Lemma health_score_skips ln exp l l' :
  compute_health_score ln exp (l ++ None :: l') = compute_health_score ln exp (l ++ l').
Proof. unfold compute_health_score. by rewrite !omap_app. Qed.
