(* ===== verification/Orphans.v ===== *)
(** * Orphaned and deleted repositories ([report/html.rs])

    Which repositories have no owner and to which team they are attributed; the
    deleted repositories, the teams that CODEOWNERS files still name although
    they are gone, and the owners that are patterns.  Lowercasing, instants and
    percent encoding are parameters. *)

From S2P Require Import Prelude Str Time Repository Checks Evidence Metrics Run Request.
From S2P Require Import Projection Publication Slugs ViewModel.

Open Scope N_scope.

(** ** The orphan predicate and its attribution *)

Definition is_orphaned (repo : RepositoryEvidence) : bool :=
  let codeowners := codeowners (checks repo) in
  match CodeownersResult_status codeowners with
  | COS_Absent => true
  | COS_Unknown => false
  | COS_Conforming | COS_NonConforming =>
    match CodeownersResult_parsed codeowners with
    | Some p => match unique_owners p with [] => true | _ => false end
    | None => false
    end
  end.

(** The first roster with the committer among its members. *)
Definition attributed_roster (committer_login : option string) (team_rosters : list TeamRoster)
    : option TeamRoster :=
  login ← committer_login;
  List.find (fun r => existsb (fun m => eq_ignore_ascii_case (Metrics.login m) login) (members r)) team_rosters.

Definition EM_DASH : string := "—".

Record LastCommitDisplay := mkLastCommitDisplay {
  lc_login : string;
  lc_url : string;
  lc_date : string;
  lc_unregistered : bool;
}.

Record OrphanedRepoRow := mkOrphanedRow {
  or_repo_name : string;
  or_repo_url : string;
  or_visibility : string;
  or_description : string;
  or_language : string;
  or_is_empty : bool;
  or_last_committer_login : string;
  or_last_committer_url : string;
  or_last_committer_unregistered : bool;
  or_last_commit_date : string;
  or_is_stale : bool;
  or_attributed_team : option string;
  or_attributed_team_slug : option string;
}.

Record OrphanedTeamGroup := mkOrphanedGroup {
  og_team : string;
  og_team_short : string;
  og_slug : string;
  og_rows : list OrphanedRepoRow;
}.

Record OrphanedViewModel := mkOrphanedViewModel {
  ov_rows : list OrphanedRepoRow;
  ov_organization : string;
  ov_orphaned_count : N;
  ov_has_stale_repos : bool;
  ov_by_team : list OrphanedTeamGroup;
}.

Record DeletedRepoRow := mkDeletedRow { del_repo_name : string; del_detected_at : string }.
Record GhostTeamRow := mkGhostRow {
  gt_team_slug : string;
  gt_team_url : string;
  gt_referencing_repos : list string;
}.
Record WildcardOwnerRow := mkWildcardRow { wo_owner : string; wo_referencing_repos : list string }.
Record DeletedViewModel := mkDeletedViewModel {
  dv_rows : list DeletedRepoRow;
  dv_organization : string;
  dv_deleted_count : N;
  dv_ghost_teams : list GhostTeamRow;
  dv_wildcard_owners : list WildcardOwnerRow;
}.
Definition has_owner_anomalies (v : DeletedViewModel) : bool :=
  match dv_ghost_teams v, dv_wildcard_owners v with [], [] => false | _, _ => true end.

(** [s.get(..10)]: none when it is shorter or the tenth byte ends inside a
    character. *)
Definition get_prefix (n : nat) (s : string) : option string :=
  if (String.length s <? n)%nat then None
  else
    match to_bytes s !! n with
    | Some b => if is_continuation b then None else Some (take_bytes n s)
    | None => Some (take_bytes n s)
    end.

(** Sorting by a text computed from each element. *)
Definition by_key {A} (key : A -> string) (a b : A) : Prop := String.le (key a) (key b).
#[export] Instance by_key_dec {A} (key : A -> string) : RelDecision (by_key key).
Proof. intros a b. unfold by_key. apply _. Defined.
Definition sort_by_key {A} (key : A -> string) (l : list A) : list A := sort_by (by_key key) l.

(** Sorting by a pair of texts. *)
Definition by_keys {A} (key key' : A -> string) (a b : A) : Prop :=
  key a <> key b /\ String.le (key a) (key b) \/ key a = key b /\ String.le (key' a) (key' b).
#[export] Instance by_keys_dec {A} (key key' : A -> string) : RelDecision (by_keys key key').
Proof. intros a b. unfold by_keys. apply _. Defined.

Section Orphans.
  (** [str::to_lowercase], [value.parse::<Timestamp>().ok()], the date [strftime]
      gives an instant, [utf8_percent_encode(s, PATH_SEGMENT)]. *)
  Context (to_lowercase : string -> string) (parse_timestamp : string -> option Z).
  Context (date_text : Z -> string) (path_encode : string -> string).

Definition format_date_prefix (iso_ts : option string) : string :=
  match iso_ts ≫= parse_iso8601 parse_timestamp with
  | Some dt => date_text dt
  | None => match iso_ts ≫= get_prefix 10 with Some d => d | None => EM_DASH end
  end.

Definition extract_last_commit_display (repo : RepositoryEvidence) : LastCommitDisplay :=
  match last_commit repo with
  | Some info =>
    let login :=
      match committer_name info with
      | Some n => n
      | None => default EM_DASH (committer_login info)
      end in
    let url :=
      match committer_login info with
      | Some l => DEFAULT_GITHUB_WEB_BASE_URL +:+ "/" +:+ path_encode l
      | None => ""
      end in
    mkLastCommitDisplay login url (format_date_prefix (commit_date info))
      (is_empty url && negb (bool_decide (login = EM_DASH)))
  | None => mkLastCommitDisplay EM_DASH "" EM_DASH false
  end.

(** ** The page of the orphans *)

Definition orphaned_row (org_encoded run_timestamp : string) (team_rosters : list TeamRoster)
    (repo : RepositoryEvidence) : OrphanedRepoRow :=
  let r := repository repo in
  let commit := extract_last_commit_display repo in
  let '(name, url) := build_repo_display repo org_encoded (path_encode (repo_name r)) in
  let attributed := attributed_roster (last_commit repo ≫= committer_login) team_rosters in
  mkOrphanedRow name url (Visibility_display (visibility r)) (default EM_DASH (description r))
    (default EM_DASH (language r)) (repo_is_empty r) (lc_login commit) (lc_url commit)
    (lc_unregistered commit) (lc_date commit)
    (is_repo_stale parse_timestamp (updated_at r) run_timestamp)
    (canonical_owner <$> attributed) (generate_slug ∘ canonical_owner <$> attributed).

(** [by_team.entry(team).or_default().push(row)], and the groups of the map,
    sorted by team. *)
Definition push_team_row (by_team : gmap string (list OrphanedRepoRow)) (row : OrphanedRepoRow)
    : gmap string (list OrphanedRepoRow) :=
  match or_attributed_team row with
  | Some team => <[team := default [] (by_team !! team) ++ [row]]> by_team
  | None => by_team
  end.

Definition team_group (e : string * list OrphanedRepoRow) : OrphanedTeamGroup :=
  let '(team, rows) := e in
  let team_rows := sort_by_key (to_lowercase ∘ or_repo_name) rows in
  mkOrphanedGroup team (strip_org_prefix team)
    (default "" (head team_rows ≫= or_attributed_team_slug)) team_rows.

Definition build_orphaned_by_team (rows : list OrphanedRepoRow) : list OrphanedTeamGroup :=
  map team_group (btree_entries (fold_left push_team_row rows ∅)).

Definition orphan_candidate (repo : RepositoryEvidence) : bool :=
  negb (archived (repository repo)) && is_orphaned repo.

Definition build_orphaned_view_model (repositories : list RepositoryEvidence)
    (organization run_timestamp : string) (team_rosters : list TeamRoster) : OrphanedViewModel :=
  let org_encoded := path_encode organization in
  let rows :=
    sort_by (by_keys (to_lowercase ∘ or_last_committer_login) (to_lowercase ∘ or_repo_name))
      (map (orphaned_row org_encoded run_timestamp team_rosters)
         (List.filter orphan_candidate repositories)) in
  mkOrphanedViewModel rows organization (clamp u32_max (N.of_nat (length rows)))
    (existsb or_is_stale rows) (build_orphaned_by_team rows).

(** ** Addresses of owners *)

Definition build_owner_github_url (owner_type : OwnerType) (canonical_owner org_encoded : string)
    : option string :=
  match owner_type with
  | Team =>
    slug ← team_slug_from_canonical_owner canonical_owner;
    Some (DEFAULT_GITHUB_WEB_BASE_URL +:+ "/orgs/" +:+ org_encoded +:+ "/teams/" +:+ path_encode slug)
  | User =>
    login ← strip_prefix "@" canonical_owner;
    if is_empty login then None else Some (DEFAULT_GITHUB_WEB_BASE_URL +:+ "/" +:+ path_encode login)
  | AmbiguousTeamShaped => None
  end.

(** ** The page of the deleted *)

Definition referencing_names (repos : list RepositoryEvidence) : list string :=
  sort_by_key to_lowercase (map (fun r => repo_name (repository r)) repos).

(** The entry of the map under the team's name in lower case. *)
Definition referenced_by (owner_repo_map : OwnerRepoMap) (roster : TeamRoster) : option (list RepositoryEvidence) :=
  snd <$> owner_repo_map !! to_lowercase (canonical_owner roster).

Definition ghost_row (owner_repo_map : OwnerRepoMap) (org_encoded : string) (roster : TeamRoster) : GhostTeamRow :=
  mkGhostRow (team_slug roster)
    (default "" (build_owner_github_url Team (canonical_owner roster) org_encoded))
    (match referenced_by owner_repo_map roster with Some repos => referencing_names repos | None => [] end).

Definition is_ghost (owner_repo_map : OwnerRepoMap) (roster : TeamRoster) : bool :=
  bool_decide (roster_status roster = TRS_Deleted)
  && (match referenced_by owner_repo_map roster with Some _ => true | None => false end).

(** The entries in key order; the map's own order is immaterial, as an owner's
    name in lower case is its key. *)
Definition build_deleted_view_model (deleted : list DeletedRepoRecord) (organization : string)
    (repositories : list RepositoryEvidence) (team_rosters : list TeamRoster) : DeletedViewModel :=
  let rows :=
    sort_by_key (to_lowercase ∘ del_repo_name)
      (map (fun d => mkDeletedRow (deleted_repo_name d) (deleted_detected_at d)) deleted) in
  let org_encoded := path_encode organization in
  let owner_repo_map := build_owner_repo_map to_lowercase repositories in
  let ghost_teams :=
    sort_by_key (to_lowercase ∘ gt_team_slug)
      (map (ghost_row owner_repo_map org_encoded) (List.filter (is_ghost owner_repo_map) team_rosters)) in
  let wildcard_owners :=
    sort_by_key (to_lowercase ∘ wo_owner)
      (map (fun e => mkWildcardRow (fst (snd e)) (referencing_names (snd (snd e))))
         (List.filter (fun e => is_wildcard_owner (fst e)) (btree_entries owner_repo_map))) in
  mkDeletedViewModel rows organization (clamp u32_max (N.of_nat (length rows))) ghost_teams wildcard_owners.
End Orphans.

(** ** Lemmas: groups *)

Definition attributed_to (team : string) (row : OrphanedRepoRow) : bool :=
  bool_decide (or_attributed_team row = Some team).

(** Under each team, in order, the rows attributed to it. *)
Definition grouped_rows (rows : list OrphanedRepoRow) (m : gmap string (list OrphanedRepoRow)) : Prop :=
  forall team, m !! team = match List.filter (attributed_to team) rows with [] => None | l => Some l end.

Lemma push_team_rows rows : grouped_rows rows (fold_left push_team_row rows ∅).
Proof.
  induction rows as [|row rows IH] using rev_ind; intros team; [by rewrite lookup_empty|].
  rewrite fold_left_app List.filter_app. cbn [fold_left List.filter]. unfold push_team_row at 1, attributed_to at 2.
  destruct (or_attributed_team row) as [t|].
  - destruct (decide (t = team)) as [->|Hne].
    + rewrite lookup_insert_eq bool_decide_eq_true_2 // IH.
      by destruct (List.filter (attributed_to team) rows).
    + rewrite lookup_insert_ne // IH bool_decide_eq_false_2; [|by intros [= ?]]. by rewrite app_nil_r.
  - rewrite bool_decide_eq_false_2 // app_nil_r. apply IH.
Qed.

Lemma key_lt_sorted {A} (m : gmap string A) :
  StronglySorted (fun p q => String.le (fst p) (fst q) /\ fst p <> fst q) (btree_entries m).
Proof.
  assert (NoDup (map fst (btree_entries m))) as Hnd.
  { unfold btree_entries. rewrite sort_by_Permutation. apply NoDup_fst_map_to_list. }
  assert (StronglySorted key_le (btree_entries m)) as Hs by (apply sort_by_sorted; apply _).
  induction Hs as [|e l Hs IH He]; [constructor|]. inversion_clear Hnd as [|?? Hnew Hnd'].
  constructor; [by apply IH|]. rewrite !Forall_forall in He *. intros e' He'. split; [by apply He|].
  intros Heq. apply Hnew. rewrite Heq. by apply list_elem_of_fmap_2.
Qed.

Lemma by_key_total {A} (key : A -> string) : Total (by_key key).
Proof. intros a b. apply (total String.le). Qed.
Lemma by_key_trans {A} (key : A -> string) : Transitive (by_key key).
Proof. intros a b c. unfold by_key. apply transitivity. Qed.

Lemma by_keys_total {A} (key key' : A -> string) : Total (by_keys key key').
Proof.
  intros a b. unfold by_keys. destruct (decide (key a = key b)) as [Heq|Hne].
  - destruct (total String.le (key' a) (key' b)); [left|right]; right; by split.
  - destruct (total String.le (key a) (key b)); [left|right]; left; by split.
Qed.

Lemma by_keys_trans {A} (key key' : A -> string) : Transitive (by_keys key key').
Proof.
  intros a b c. unfold by_keys. intros [[Hab Hle]|[Hab Hle]] [[Hbc Hle']|[Hbc Hle']].
  - left. split; [|by trans (key b)]. intros Heq. apply Hab. rewrite Heq in Hle *. by apply (anti_symm String.le).
  - left. rewrite -Hbc. by split.
  - left. rewrite Hab. by split.
  - right. rewrite Hab. split; [done|]. by trans (key' b).
Qed.

(** ** Properties *)

(** The page of the orphans lists exactly the repositories that are not
    archived and have no owner, sorted by last committer and then by name; a
    repository listed there is owned by nobody.  The groups, in strict order of
    the teams, are exactly the teams to which some repository is attributed,
    each with the repositories attributed to it, sorted by name; a team is
    attributed when its roster is the first with the last committer in it. *)
Lemma orphans_exact lc parse_timestamp date_text path_encode repositories org run_timestamp rosters :
  let v := build_orphaned_view_model lc parse_timestamp date_text path_encode repositories org run_timestamp
             rosters in
  Permutation (ov_rows v)
    (map (orphaned_row parse_timestamp date_text path_encode (path_encode org) run_timestamp rosters)
       (List.filter orphan_candidate repositories)) /\
  StronglySorted (by_keys (lc ∘ or_last_committer_login) (lc ∘ or_repo_name)) (ov_rows v) /\
  (forall repo, orphan_candidate repo = true -> owners_of repo = []) /\
  StronglySorted (fun g h => String.le (og_team g) (og_team h) /\ og_team g <> og_team h) (ov_by_team v) /\
  (forall team, (exists g, g ∈ ov_by_team v /\ og_team g = team) <->
     exists row, row ∈ ov_rows v /\ or_attributed_team row = Some team) /\
  (forall g, g ∈ ov_by_team v ->
     Permutation (og_rows g) (List.filter (attributed_to (og_team g)) (ov_rows v)) /\
     StronglySorted (by_key (lc ∘ or_repo_name)) (og_rows g)).
Proof.
  intros v. cbn [v build_orphaned_view_model ov_rows ov_by_team]. set (rows := sort_by _ _) in v |- *.
  split_and!.
  - apply sort_by_Permutation.
  - apply sort_by_sorted; [apply by_keys_total|apply by_keys_trans].
  - intros repo [_ Ho]%andb_true_iff. unfold is_orphaned, owners_of in *.
    destruct (codeowners (checks repo)) as [[p| |]|l [p| |]| |]; cbn in *; try done; by destruct (unique_owners p).
  - unfold build_orphaned_by_team.
    induction (key_lt_sorted (fold_left push_team_row rows ∅)) as [|[t l] es Hs IH He]; [constructor|].
    cbn [map team_group]. constructor; [done|]. rewrite !Forall_forall in He *.
    intros g ([t' l'] & -> & Hin)%list_elem_of_fmap. apply He in Hin. by cbn in *.
  - intros team. unfold build_orphaned_by_team. split.
    + intros (g & ([t l] & -> & Hin%elem_of_btree_entries)%list_elem_of_fmap & Ht). cbn in Ht. subst t.
      rewrite push_team_rows in Hin. destruct (List.filter (attributed_to team) rows) as [|row rest] eqn:E; [done|].
      exists row. assert (In row (List.filter (attributed_to team) rows)) as [Hr Ha]%List.filter_In
        by (rewrite E; by left).
      split; [by apply list_elem_of_In|]. by apply bool_decide_eq_true in Ha.
    + intros (row & Hrow & Ha). destruct (fold_left push_team_row rows ∅ !! team) as [l|] eqn:E.
      * exists (team_group lc (team, l)). split; [|done]. apply list_elem_of_fmap_2. by apply elem_of_btree_entries.
      * exfalso. rewrite push_team_rows in E. assert (In row (List.filter (attributed_to team) rows)) as Hin.
        { apply List.filter_In. split; [by apply list_elem_of_In|]. by apply bool_decide_eq_true. }
        by destruct (List.filter (attributed_to team) rows).
  - intros g ([t l] & -> & Hin%elem_of_btree_entries)%list_elem_of_fmap. cbn [team_group og_team og_rows].
    rewrite push_team_rows in Hin. unfold sort_by_key. split.
    + rewrite sort_by_Permutation. by destruct (List.filter (attributed_to t) rows); simplify_eq.
    + apply sort_by_sorted; [apply by_key_total|apply by_key_trans].
Qed.
