(* ===== verification/OwnerPages.v ===== *)
(** * Pages of the owners ([report/html.rs])

    The owners with their controls, the seventh control joined at render time,
    the Team Health score, the podium, the page of each owner with its
    repositories and its team's members.  Parameters as in [Orphans] and
    [ViewModel]; the time of the rendering is an argument. *)

From S2P Require Import Prelude Str Time Repository Checks Evidence Metrics Run Auth Config Aggregate.
From S2P Require Import Projection Publication Slugs ViewModel Orphans.
From Stdlib Require Import Floats.SpecFloat.

Open Scope N_scope.

(** ** Controls *)

Inductive ControlKey :=
| Key_SecurityPolicy | Key_SecretScanning | Key_Dependabot | Key_BranchProtection
| Key_NonStale | Key_NonOrphaned | Key_AlertFree | Key_Codeowners.
#[export] Instance ControlKey_eq_dec : EqDecision ControlKey.
Proof. solve_decision. Defined.

Definition control_as_str (k : ControlKey) : string :=
  match k with
  | Key_SecurityPolicy => "security_policy"
  | Key_SecretScanning => "secret_scanning"
  | Key_Dependabot => "dependabot_security_updates"
  | Key_BranchProtection => "branch_protection"
  | Key_NonStale => "non_stale"
  | Key_NonOrphaned => "non_orphaned"
  | Key_AlertFree => "alert_free"
  | Key_Codeowners => "codeowners"
  end.

Definition drill_down_page (k : ControlKey) : option DrillDownPage :=
  match k with
  | Key_BranchProtection => Some Page_BranchProtection
  | Key_Codeowners => Some Page_Codeowners
  | Key_SecurityPolicy | Key_SecretScanning | Key_Dependabot | Key_NonStale | Key_NonOrphaned
  | Key_AlertFree => None
  end.

(** [ControlKey::display_name]. *)
Definition display_label (k : ControlKey) : string :=
  match k with
  | Key_SecurityPolicy => "Security Policy"
  | Key_SecretScanning => "Secret Scanning"
  | Key_Dependabot => "Dependabot Status"
  | Key_BranchProtection => "Branch Protection"
  | Key_NonStale => "Lifecycle: Freshness"
  | Key_NonOrphaned => "Ownership"
  | Key_AlertFree => "Alert-Free"
  | Key_Codeowners => "CODEOWNERS"
  end.

Definition OWNERS_OVERVIEW_CONTROLS : list ControlKey :=
  [ Key_SecurityPolicy; Key_SecretScanning; Key_Dependabot; Key_BranchProtection; Key_NonStale;
    Key_NonOrphaned ].
Definition OWNER_DETAIL_SUMMARY_CARD_CONTROLS : list ControlKey :=
  [ Key_SecurityPolicy; Key_SecretScanning; Key_Dependabot; Key_BranchProtection ].
Definition REPO_STATUS_DOT_CONTROLS : list ControlKey :=
  [ Key_SecurityPolicy; Key_SecretScanning; Key_AlertFree; Key_Dependabot; Key_BranchProtection;
    Key_Codeowners ].
Definition SEC_SCORE_MAP_CONTROLS : list ControlKey :=
  [ Key_SecurityPolicy; Key_SecretScanning; Key_Dependabot; Key_BranchProtection; Key_NonStale;
    Key_AlertFree ].
Definition NON_ORPHANED_CONTROL : ControlKey := Key_NonOrphaned.

Definition control_key_to_check_kind (key : string) : option CollectionHealthCheckKind :=
  if bool_decide (key = "security_policy") then Some CK_SecurityPolicy
  else if bool_decide (key = "secret_scanning") then Some CK_SecretScanning
  else if bool_decide (key = "dependabot_security_updates") then Some CK_Dependabot
  else if bool_decide (key = "branch_protection") then Some CK_BranchProtection
  else if bool_decide (key = "codeowners") then Some CK_Codeowners
  else None.

Definition control_cell (rate_metric : option RateMetric) (score_exclusion_counts : list ScoreExclusionCount)
    (key : string) (tiers : CoverageTiers) : ControlCell :=
  let exclusion :=
    if bool_decide (key = control_as_str Key_AlertFree) then
      ControlExclusion_unmeasured
        (match rate_metric with Some m => extra_u32 (extra m) "unobservable" | None => 0 end)
    else
      match control_key_to_check_kind key with
      | None => ControlExclusion_empty
      | Some check_kind => format_exclusion check_kind score_exclusion_counts
      end in
  cell_from_rate rate_metric tiers exclusion.

Definition build_control_cell (per_control_coverage : gmap string RateMetric)
    (score_exclusion_counts : list ScoreExclusionCount) (key : string) (tiers : CoverageTiers) : ControlCell :=
  control_cell (per_control_coverage !! key) score_exclusion_counts key tiers.

Record ControlColumn := mkControlColumn { column_name : string; column_tooltip : string }.
Definition control_column (k : ControlKey) : ControlColumn :=
  mkControlColumn (display_label k) (default "" (coverage_control_column_tooltip (control_as_str k))).

(** ** The join with the attribution of orphans *)

Inductive NonOrphanedControl := Measured (metric : RateMetric) | Unresolved.
Definition non_orphaned_rate (c : NonOrphanedControl) : option spec_float :=
  match c with Measured metric => rate metric | Unresolved => None end.
Definition measured (c : NonOrphanedControl) : option RateMetric :=
  match c with Measured metric => Some metric | Unresolved => None end.

Definition required_control_cell (control : NonOrphanedControl)
    (score_exclusion_counts : list ScoreExclusionCount) (key : string) (tiers : CoverageTiers) : ControlCell :=
  control_cell (measured control) score_exclusion_counts key tiers.

Record AttributedOwner := mkAttributedOwner { ao_metrics : OwnerMetrics; ao_non_orphaned : NonOrphanedControl }.

Definition roster_of (owner_name : string) (team_rosters : list TeamRoster) : option TeamRoster :=
  List.find (fun r => eq_ignore_ascii_case (canonical_owner r) owner_name) team_rosters.
Definition group_of (owner_name : string) (groups : list OrphanedTeamGroup) : option OrphanedTeamGroup :=
  List.find (fun g => eq_ignore_ascii_case (og_team g) owner_name) groups.

Definition attribution_ran (t : OwnerType) (status : option TeamRosterStatus) : bool :=
  match t, status with
  | User, _ => true
  | (Team | AmbiguousTeamShaped), Some TRS_Complete => true
  | (Team | AmbiguousTeamShaped), (None | Some (TRS_Deleted | TRS_PermissionDenied | TRS_TransientError)) => false
  end.

(** The closure of [AttributedOwner::attribute_all]. *)
Definition attribute_owner (orphaned_by_team : list OrphanedTeamGroup) (team_rosters : list TeamRoster)
    (metrics : OwnerMetrics) : AttributedOwner :=
  let status := roster_status <$> roster_of (owner metrics) team_rosters in
  let non_orphaned :=
    if attribution_ran (owner_type metrics) status then
      let attributed :=
        match group_of (owner metrics) orphaned_by_team with
        | Some g => clamp u32_max (N.of_nat (length (og_rows g)))
        | None => 0
        end in
      let owned := total_repos metrics in
      Measured (RateMetric_new owned (sat_add u32_max owned attributed))
    else Unresolved in
  mkAttributedOwner metrics non_orphaned.
Definition attribute_all (owner_metrics : list OwnerMetrics) (orphaned_by_team : list OrphanedTeamGroup)
    (team_rosters : list TeamRoster) : list AttributedOwner :=
  map (attribute_owner orphaned_by_team team_rosters) owner_metrics.

(** ** Scores of repositories *)

(** The score, its text, its tier and its bar. *)
Definition ScoreDisplay : Type := option spec_float * string * CoverageTier * string.

Definition alert_free_category (r : SecretScanningResult) : ScoreCategory :=
  if alerts_observable r then
    match has_open_alerts r with
    | Some false => SC_Pass
    | Some true => SC_Fail
    | None => SC_Excluded ER_Unknown
    end
  else SC_Excluded ER_NotApplicable.

Definition repo_categories (c : RepositoryChecks) : list ScoreCategory :=
  [ ScoreCategory_of_policy (security_policy c); ScoreCategory_of_secret (secret_scanning c);
    alert_free_category (secret_scanning c);
    ScoreCategory_of_dependabot (dependabot_status (dependabot_security_updates c));
    score_category (branch_protection c); ScoreCategory_of_codeowners (codeowners c) ].

(** One turn of the loop; six categories cannot overflow the counters. *)
Definition count_category (pt : N * N) (cat : ScoreCategory) : N * N :=
  let '(pass, total) := pt in
  match cat with
  | SC_Pass => (pass + 1, total + 1)
  | SC_Fail => (pass, total + 1)
  | SC_Excluded _ => (pass, total)
  end.

Definition compute_repo_score (c : RepositoryChecks) (tiers : CoverageTiers) : ScoreDisplay :=
  let '(pass, total) := fold_left count_category (repo_categories c) (0, 0) in
  match percentage pass total with
  | None => (None, "N/A", Tier_Na, "w-0")
  | Some score =>
    let score_rounded := f64_div (f64_round (f64_mul score (f64_of_N 10))) (f64_of_N 10) in
    (Some score_rounded, f64_fixed 1 score_rounded +:+ "%", tier_from_rate (Some score_rounded) tiers,
     rate_to_width_class (Some score_rounded))
  end.

(** ** Status dots *)

Inductive DotState := Dot_Fail | Dot_Partial | Dot_Pass | Dot_Unknown | Dot_Pending | Dot_NotApplicable.
Record StatusDot := mkStatusDot { dot_state : DotState; dot_label : string }.

Definition dot_css_class (d : StatusDot) : string :=
  match dot_state d with
  | Dot_Fail => "status-fail"
  | Dot_Partial => "status-warn"
  | Dot_Pass => "status-pass"
  | Dot_Unknown => "status-unknown"
  | Dot_Pending => "status-pending"
  | Dot_NotApplicable => "status-na"
  end.
Definition dot_sort_key (d : StatusDot) : string :=
  match dot_state d with
  | Dot_Fail => "fail"
  | Dot_Partial => "partial"
  | Dot_Pass => "pass"
  | Dot_Unknown | Dot_Pending | Dot_NotApplicable => "indeterminate"
  end.

Definition is_pending_repo (c : RepositoryChecks) : bool :=
  bool_decide (read_state_from_checks c = RS_Pending).

Definition unknown_or_pending_dot (pending : bool) : StatusDot :=
  if pending then mkStatusDot Dot_Pending "Pending" else mkStatusDot Dot_Unknown "unknown".

Definition build_status_dots (c : RepositoryChecks) : list StatusDot :=
  let pending := is_pending_repo c in
  let policy_dot :=
    match SecurityPolicyResult_status (security_policy c) with
    | SPS_Pass => mkStatusDot Dot_Pass "pass"
    | SPS_Fail => mkStatusDot Dot_Fail "fail"
    | SPS_Unknown => unknown_or_pending_dot pending
    | SPS_NotApplicable => mkStatusDot Dot_NotApplicable "N/A"
    end in
  let secret_dot :=
    match SecretScanningResult_status (secret_scanning c) with
    | SSS_Enabled => mkStatusDot Dot_Pass "enabled"
    | SSS_Disabled => mkStatusDot Dot_Fail "disabled"
    | SSS_PermissionDenied => mkStatusDot Dot_Unknown "permission denied"
    | SSS_Unknown => unknown_or_pending_dot pending
    end in
  let alert_dot :=
    if pending || bool_decide (SecretScanningResult_status (secret_scanning c) = SSS_Unknown) then
      unknown_or_pending_dot pending
    else if alerts_observable (secret_scanning c) then
      match has_open_alerts (secret_scanning c) with
      | Some false => mkStatusDot Dot_Pass "alert-free"
      | Some true => mkStatusDot Dot_Fail "open alerts"
      | None => unknown_or_pending_dot pending
      end
    else mkStatusDot Dot_NotApplicable "N/A" in
  let dependabot_dot :=
    match dependabot_status (dependabot_security_updates c) with
    | DS_Enabled => mkStatusDot Dot_Pass "enabled"
    | DS_Paused => mkStatusDot Dot_Partial "paused"
    | DS_Disabled => mkStatusDot Dot_Fail "disabled"
    | DS_Unknown => unknown_or_pending_dot pending
    end in
  let branch_dot :=
    match branch_protection c with
    | BPR_Protected _ _ => mkStatusDot Dot_Pass "protected"
    | BPR_Unprotected _ _ _ => mkStatusDot Dot_Fail "unprotected"
    | BPR_Unobservable _ _ _ _ => unknown_or_pending_dot pending
    end in
  let codeowners_dot :=
    match CodeownersResult_status (codeowners c) with
    | COS_Conforming => mkStatusDot Dot_Pass "conforming"
    | COS_NonConforming => mkStatusDot Dot_Fail "non-conforming"
    | COS_Absent => mkStatusDot Dot_Fail "absent"
    | COS_Unknown => unknown_or_pending_dot pending
    end in
  [policy_dot; secret_dot; alert_dot; dependabot_dot; branch_dot; codeowners_dot].

(** ** Rosters *)

Inductive RosterFreshness :=
| FreshnessObserved (fetched_at age_label : string) (beyond_refresh_interval : bool)
| FreshnessUnknown.

Definition humanise_roster_age (elapsed_secs : N) : string :=
  let text count unit := pretty count +:+ " " +:+ unit +:+ (if count =? 1 then "" else "s") +:+ " ago" in
  if elapsed_secs <? 60 then "just now"
  else if elapsed_secs <? 3600 then text (elapsed_secs / 60) "minute"
  else if elapsed_secs <? 86400 then text (elapsed_secs / 3600) "hour"
  else text (elapsed_secs / 86400) "day".

Record TeamMemberRow := mkMemberRow {
  tm_login : string;
  tm_role : TeamMemberRole;
  tm_profile_url : string;
  tm_in_org : option bool;
}.
Definition departed (m : TeamMemberRow) : bool := bool_decide (tm_in_org m = Some false).

Record TeamRosterViewModel := mkRosterViewModel {
  tv_is_complete : bool;
  tv_status_label : string;
  tv_degraded_notice : option string;
  tv_members : list TeamMemberRow;
  tv_member_count : N;
  tv_freshness : RosterFreshness;
}.

Inductive RosterSection := RosterTeam (v : TeamRosterViewModel) | RosterNotApplicable | RosterUnresolved.

Definition roster_status_display (s : TeamRosterStatus) : bool * string * option string :=
  match s with
  | TRS_Complete => (true, "Complete", None)
  | TRS_Deleted =>
    (false, "Unresolved",
     Some ("Roster fetch: Unresolved — HTTP 404 does not establish whether this team exists. "
           +:+ "Check the CODEOWNERS team reference and membership-read permissions."))
  | TRS_PermissionDenied =>
    (false, "Permission denied", Some "Roster fetch: Permission denied — this list may be incomplete.")
  | TRS_TransientError =>
    (false, "Temporarily unavailable",
     Some "Roster fetch: Temporarily unavailable — this list may be incomplete.")
  end.

(** ** View models *)

Record OwnerOverviewRow := mkOverviewRow {
  ow_owner : string;
  ow_owner_short : string;
  ow_slug : string;
  ow_owner_type : OwnerType;
  ow_repo_count : N;
  ow_controls : list ControlCell;
  ow_sec_score : option spec_float;
  ow_sec_score_formatted : string;
  ow_sec_score_table_formatted : string;
  ow_sec_score_tier : CoverageTier;
  ow_sec_score_width_class : string;
}.

Record OwnersViewModel := mkOwnersViewModel {
  os_rows : list OwnerOverviewRow;
  os_control_columns : list ControlColumn;
  os_team_health_tooltip : string;
}.

Record TopSecurityTeam := mkTopTeam {
  ts_owner : string;
  ts_owner_short : string;
  ts_sec_score_formatted : string;
  ts_slug : string;
  ts_rank_class : string;
  ts_rank_emoji : string;
  ts_sec_score_tier : CoverageTier;
  ts_sec_score_width_class : string;
}.

Record OwnerRepoRow := mkOwnerRepoRow {
  rr_repo_name : string;
  rr_repo_url : string;
  rr_visibility : string;
  rr_controls : list StatusDot;
  rr_description : string;
  rr_language : string;
  rr_is_fork : bool;
  rr_is_empty : bool;
  rr_license : string;
  rr_pushed_at : string;
  rr_created_at : string;
  rr_last_commit : LastCommitDisplay;
  rr_is_stale : bool;
  rr_repo_score : ScoreDisplay;
}.

Record SummaryCard := mkSummaryCard {
  sc_key : string;
  sc_drill_down_href : option DrillDownLink;
  sc_label : string;
  sc_cell : ControlCell;
  sc_how_to_fix : string;
}.

Record OwnerDetailViewModel := mkOwnerDetail {
  od_owner : string;
  od_owner_short : string;
  od_owner_type_label : string;
  od_breadcrumb_label : string;
  od_repo_rows : list OwnerRepoRow;
  od_control_columns : list ControlColumn;
  od_summary_cards : list SummaryCard;
  od_has_stale_repos : bool;
  od_sec_score : ScoreDisplay;
  od_team_health_tooltip : string;
  od_non_stale_cell : ControlCell;
  od_non_stale_label : string;
  od_non_stale_tooltip : string;
  od_non_orphaned_cell : ControlCell;
  od_non_orphaned_label : string;
  od_non_orphaned_tooltip : string;
  od_alert_free_cell : ControlCell;
  od_roster : RosterSection;
  od_github_url : option string;
  od_security_url : option string;
  od_orphan_repo_rows : list OrphanedRepoRow;
  od_orphan_unresolved : bool;
  od_owner_in_org : option bool;
}.
Definition owner_departed (v : OwnerDetailViewModel) : bool := bool_decide (od_owner_in_org v = Some false).

Definition team_health_tooltip : string :=
  let roster := join_comma (map display_label (SEC_SCORE_MAP_CONTROLS ++ [NON_ORPHANED_CONTROL])) in
  "Geometric mean of measured control rates across seven controls for this owner's repos — " +:+ roster +:+ ". The four control-presence columns, the " +:+ display_label Key_NonStale +:+ " column, and the " +:+ display_label NON_ORPHANED_CONTROL +:+ " column below show six of those inputs; Alert-Free feeds the score but is not shown as a column. Unmeasured controls are excluded from each rate's denominator. Excludes CODEOWNERS, which is always 100% at the owner level by construction. This is the owner-level set; the org-wide Governance score is a different seven-control set. N/A when no control is scorable.".

Section OwnerPages.
  (** As in [Orphans] and [ViewModel], and the encoding of a value of a query;
      [render_time] is [jiff::Timestamp::now()] in nanoseconds. *)
  Context (to_lowercase : string -> string) (parse_timestamp : string -> option Z).
  Context (date_text : Z -> string) (path_encode query_encode : string -> string).
  Context (ln exp : spec_float -> spec_float) (render_time : Z).

(** ** The overview *)

Definition compute_owner_sec_score (metrics : OwnerMetrics) (non_orphaned : NonOrphanedControl)
    (tiers : CoverageTiers) : ScoreDisplay :=
  let sec_rates :=
    map (fun key => per_control_coverage metrics !! control_as_str key ≫= rate) SEC_SCORE_MAP_CONTROLS
    ++ [non_orphaned_rate non_orphaned] in
  let sec_score := compute_health_score ln exp sec_rates in
  (sec_score, score_text 1 sec_score, tier_from_rate sec_score tiers, rate_to_width_class sec_score).

Definition overview_cell (o : AttributedOwner) (tiers : CoverageTiers) (key : ControlKey) : ControlCell :=
  let m := ao_metrics o in
  if decide (key = Key_NonOrphaned) then
    required_control_cell (ao_non_orphaned o) (owner_score_exclusion_counts m) (control_as_str key) tiers
  else
    build_control_cell (per_control_coverage m) (owner_score_exclusion_counts m) (control_as_str key) tiers.

Definition overview_row (slugs : gmap string string) (tiers : CoverageTiers) (o : AttributedOwner)
    : OwnerOverviewRow :=
  let m := ao_metrics o in
  let '(sec_score, formatted, tier, width) := compute_owner_sec_score m (ao_non_orphaned o) tiers in
  mkOverviewRow (display_name m) (strip_org_prefix (display_name m))
    (default "unknown" (slugs !! display_name m)) (owner_type m) (total_repos m)
    (map (overview_cell o tiers) OWNERS_OVERVIEW_CONTROLS) sec_score formatted (score_text 0 sec_score) tier width.

(** The names of the pages; the search for them always ends
    ([Slugs.unique_slugs_exact]). *)
Definition owner_slugs (attributed_owners : list AttributedOwner) : gmap string string :=
  default ∅ (generate_unique_slugs (map (fun o => display_name (ao_metrics o)) attributed_owners)).

Definition build_owners_view_model (attributed_owners : list AttributedOwner) (tiers : CoverageTiers)
    : option OwnersViewModel :=
  match attributed_owners with
  | [] => None
  | _ =>
    Some (mkOwnersViewModel (map (overview_row (owner_slugs attributed_owners) tiers) attributed_owners)
            (map control_column OWNERS_OVERVIEW_CONTROLS) team_health_tooltip)
  end.

(** ** The podium *)

(** [s < 100.0], and [s == 100.0]. *)
Definition below_full (score : option spec_float) : bool :=
  match score with Some s => SFltb s (f64_of_N 100) | None => false end.
Definition is_full (score : option spec_float) : bool :=
  match score with Some s => SFeqb s (f64_of_N 100) | None => false end.

(** [b.partial_cmp(a).unwrap_or(Equal)] does not put [a] after [b]. *)
Definition ranks_before (a b : OwnerOverviewRow) : Prop :=
  let score r := default (f64_of_N 0) (ow_sec_score r) in
  SFcompare (score b) (score a) <> Some Gt.
#[local] Instance ranks_before_dec : RelDecision ranks_before.
Proof. intros a b. unfold ranks_before. apply _. Defined.

Definition eligible_team (r : OwnerOverviewRow) : bool :=
  bool_decide (ow_owner_type r = Team) && below_full (ow_sec_score r).

Definition podium_order (n : nat) : list (nat * string * string) :=
  match n with
  | O => []
  | 1%nat => [(0%nat, "rank-gold", "🥇")]
  | 2%nat => [(1%nat, "rank-silver", "🥈"); (0%nat, "rank-gold", "🥇")]
  | _ => [(1%nat, "rank-silver", "🥈"); (0%nat, "rank-gold", "🥇"); (2%nat, "rank-bronze", "🥉")]
  end.

(** [top3[idx]]: the index is within the list by the choice of the order. *)
Definition build_top_security_teams (owners : OwnersViewModel) : list TopSecurityTeam :=
  let ranked := sort_by ranks_before (List.filter eligible_team (os_rows owners)) in
  let top3 := firstn 3 ranked in
  omap (fun p =>
      let '(idx, rank_class, rank_emoji) := p in
      r ← top3 !! idx;
      Some (mkTopTeam (ow_owner r) (ow_owner_short r) (ow_sec_score_formatted r) (ow_slug r) rank_class
              rank_emoji (ow_sec_score_tier r) (ow_sec_score_width_class r)))
    (podium_order (length top3)).

Definition count_ascended_teams (owners : OwnersViewModel) : N :=
  countb (fun r => bool_decide (ow_owner_type r = Team) && is_full (ow_sec_score r)) (os_rows owners).

(** ** Rosters *)

Definition derive_roster_freshness (roster : TeamRoster) : RosterFreshness :=
  match fetched_at roster with
  | None => FreshnessUnknown
  | Some fetched_at =>
    match parse_timestamp fetched_at with
    | None => FreshnessUnknown
    | Some fetched =>
      let elapsed_secs := (as_second render_time - as_second fetched)%Z in
      if (elapsed_secs <? 0)%Z then FreshnessUnknown
      else
        FreshnessObserved fetched_at (humanise_roster_age (Z.to_N elapsed_secs))
          (TEAM_REFRESH_INTERVAL_SECS <? Z.to_N elapsed_secs)
    end
  end.

Definition member_row (m : TeamMember) : TeamMemberRow :=
  mkMemberRow (login m) (role m) (DEFAULT_GITHUB_WEB_BASE_URL +:+ "/" +:+ path_encode (login m)) (member_in_org m).

Definition build_team_roster_view_model (roster : TeamRoster) : TeamRosterViewModel :=
  let members := sort_by_key (to_lowercase ∘ tm_login) (map member_row (members roster)) in
  let '(is_complete, status_label, degraded_notice) := roster_status_display (roster_status roster) in
  mkRosterViewModel is_complete status_label degraded_notice members
    (clamp u32_max (N.of_nat (length members))) (derive_roster_freshness roster).

Definition build_team_security_url (t : OwnerType) (canonical_owner org_encoded : string) : option string :=
  match t with
  | Team =>
    slug ← team_slug_from_canonical_owner canonical_owner;
    let query := "archived:false tool:github team:" +:+ slug in
    Some (DEFAULT_GITHUB_WEB_BASE_URL +:+ "/orgs/" +:+ org_encoded +:+ "/security/overview?query="
          +:+ query_encode query)
  | _ => None
  end.

(** ** The page of one owner *)

Record OwnerDetailBuildContext := mkDetailContext {
  cx_owner_repo_map : OwnerRepoMap;
  cx_tiers : CoverageTiers;
  cx_organization : string;
  cx_run_timestamp : string;
  cx_team_rosters : list TeamRoster;
  cx_orphaned_by_team : list OrphanedTeamGroup;
}.

Definition build_owner_repo_row (org_encoded run_timestamp : string) (tiers : CoverageTiers)
    (repo : RepositoryEvidence) : OwnerRepoRow :=
  let r := repository repo in
  let '(repo_name, repo_url) := build_repo_display repo org_encoded (path_encode (repo_name r)) in
  mkOwnerRepoRow repo_name repo_url (Visibility_display (visibility r)) (build_status_dots (checks repo))
    (default EM_DASH (description r)) (default EM_DASH (language r)) (fork r) (repo_is_empty r)
    (default EM_DASH (license_spdx r))
    (format_date_prefix parse_timestamp date_text (pushed_at r))
    (format_date_prefix parse_timestamp date_text (created_at r))
    (extract_last_commit_display parse_timestamp date_text path_encode repo)
    (is_repo_stale parse_timestamp (updated_at r) run_timestamp) (compute_repo_score (checks repo) tiers).

Definition summary_card (metrics : OwnerMetrics) (tiers : CoverageTiers) (key : ControlKey) : SummaryCard :=
  mkSummaryCard (control_as_str key) ((fun page => drill_down_link page Href_Nested) <$> drill_down_page key)
    (display_label key)
    (build_control_cell (per_control_coverage metrics) (owner_score_exclusion_counts metrics)
       (control_as_str key) tiers)
    (default "" (coverage_control_how_to_fix (control_as_str key))).

Definition build_owner_summary_cards (metrics : OwnerMetrics) (tiers : CoverageTiers) : list SummaryCard :=
  map (summary_card metrics tiers) OWNER_DETAIL_SUMMARY_CARD_CONTROLS.

Definition build_one_owner_detail_view_model (o : AttributedOwner) (slug : string)
    (control_columns : list ControlColumn) (ctx : OwnerDetailBuildContext) : string * OwnerDetailViewModel :=
  let m := ao_metrics o in
  let tiers := cx_tiers ctx in
  let cell key :=
    build_control_cell (per_control_coverage m) (owner_score_exclusion_counts m) (control_as_str key) tiers in
  let org_encoded := path_encode (cx_organization ctx) in
  let repo_rows :=
    sort_by_key (to_lowercase ∘ rr_repo_name)
      (match cx_owner_repo_map ctx !! owner m with
       | Some (_, repos) => map (build_owner_repo_row org_encoded (cx_run_timestamp ctx) tiers) repos
       | None => []
       end) in
  let roster_entry := roster_of (owner m) (cx_team_rosters ctx) in
  let roster :=
    match owner_type m, roster_entry with
    | User, _ => RosterNotApplicable
    | (Team | AmbiguousTeamShaped), Some r => RosterTeam (build_team_roster_view_model r)
    | (Team | AmbiguousTeamShaped), None => RosterUnresolved
    end in
  let orphan_repo_rows :=
    match group_of (owner m) (cx_orphaned_by_team ctx) with Some g => og_rows g | None => [] end in
  let orphan_unresolved :=
    bool_decide (owner_type m <> User) && (match roster_entry with None => true | Some _ => false end) in
  (slug,
   mkOwnerDetail (display_name m) (strip_org_prefix (display_name m)) (OwnerType_display (owner_type m))
     (display_name m) repo_rows control_columns (build_owner_summary_cards m tiers)
     (existsb rr_is_stale repo_rows) (compute_owner_sec_score m (ao_non_orphaned o) tiers) team_health_tooltip
     (cell Key_NonStale) (display_label Key_NonStale) NON_STALE_TOOLTIP
     (required_control_cell (ao_non_orphaned o) (owner_score_exclusion_counts m)
        (control_as_str NON_ORPHANED_CONTROL) tiers)
     (display_label NON_ORPHANED_CONTROL) NON_ORPHANED_TOOLTIP (cell Key_AlertFree) roster
     (build_owner_github_url path_encode (owner_type m) (owner m) org_encoded)
     (build_team_security_url (owner_type m) (owner m) org_encoded) orphan_repo_rows orphan_unresolved
     (owner_in_org m)).

Definition build_owner_detail_view_models (attributed_owners : list AttributedOwner)
    (ctx : OwnerDetailBuildContext) : list (string * OwnerDetailViewModel) :=
  let slugs := owner_slugs attributed_owners in
  let control_columns := map control_column REPO_STATUS_DOT_CONTROLS in
  omap (fun o =>
      slug ← slugs !! display_name (ao_metrics o);
      Some (build_one_owner_detail_view_model o slug control_columns ctx))
    attributed_owners.
End OwnerPages.

(** ** Lemmas: dots *)

(** What a dot says of the control, as a score counts it. *)
Definition dot_counts (d : StatusDot) : option bool :=
  match dot_state d with
  | Dot_Pass => Some true
  | Dot_Fail | Dot_Partial => Some false
  | Dot_Unknown | Dot_Pending | Dot_NotApplicable => None
  end.
Definition category_counts (c : ScoreCategory) : option bool :=
  match c with SC_Pass => Some true | SC_Fail => Some false | SC_Excluded _ => None end.

Lemma unknown_dot_counts b : dot_counts (unknown_or_pending_dot b) = None.
Proof. by destruct b. Qed.

(** A repository is not pending once its alerts were read. *)
Lemma observed_alerts_not_pending c : alerts_observable (secret_scanning c) = true -> is_pending_repo c = false.
Proof.
  intros Ha. unfold is_pending_repo. apply bool_decide_eq_false. unfold read_state_from_checks. cbv zeta.
  assert (forallb (fun reason => bool_decide (reason = Some PENDING_REASON))
    [SecretScanningResult_reason (secret_scanning c); dependabot_reason (dependabot_security_updates c);
     then_some (is_pending (branch_protection c)) PENDING_REASON] = false) as ->; [|by case_match].
  cbn [forallb]. rewrite bool_decide_eq_false_2 //.
  unfold alerts_observable in Ha. destruct (secret_scanning c) as [[? []|]| |]; cbn in *; done.
Qed.

Lemma dots_agree c : map dot_counts (build_status_dots c) = map category_counts (repo_categories c).
Proof.
  unfold build_status_dots, repo_categories. cbn [map]. repeat f_equal.
  - destruct (security_policy c); cbn; by rewrite ?unknown_dot_counts.
  - unfold ScoreCategory_of_secret. destruct (SecretScanningResult_status _); cbn; by rewrite ?unknown_dot_counts.
  - unfold alert_free_category. destruct (alerts_observable (secret_scanning c)) eqn:Ha.
    + rewrite (observed_alerts_not_pending _ Ha) bool_decide_eq_false_2; cbn [orb].
      * by destruct (has_open_alerts _) as [[]|].
      * unfold alerts_observable in Ha. by destruct (secret_scanning c) as [| |[] []].
    + destruct (_ || _); [by rewrite unknown_dot_counts|done].
  - destruct (dependabot_status _); cbn; by rewrite ?unknown_dot_counts.
  - destruct (branch_protection c); cbn; by rewrite ?unknown_dot_counts.
  - destruct (codeowners c); cbn; by rewrite ?unknown_dot_counts.
Qed.

(** ** Lemmas: scores *)

Definition counts_as (v : bool) (o : option bool) : bool := bool_decide (o = Some v).

Lemma count_categories l p t :
  fold_left count_category l (p, t)
  = (p + countb (counts_as true) (map category_counts l),
     t + countb (counts_as true) (map category_counts l) + countb (counts_as false) (map category_counts l)).
Proof.
  revert p t. induction l as [|c l IH]; intros p t; cbn [fold_left map]; [by rewrite !countb_nil !N.add_0_r|].
  destruct c; cbn [count_category category_counts]; rewrite IH !countb_cons; unfold counts_as; repeat case_bool_decide;
    try done; f_equal; lia.
Qed.

Lemma countb_partition2 {A} (p q : A -> bool) l :
  (forall a, p a && q a = false) -> countb p l + countb q l <= N.of_nat (length l).
Proof.
  intros Hd. induction l as [|a l IH]; [done|]. rewrite !countb_cons. cbn [length].
  specialize (Hd a). destruct (p a), (q a); try done; lia.
Qed.

Definition score_rounds (total pass : N) : bool :=
  (total <? pass)
  || match percentage pass total with
     | Some s =>
       bool_decide (f64_div (f64_round (f64_mul s (f64_of_N 10))) (f64_of_N 10)
                    = tenths (round_half_up (1000 * pass) total))
     | None => total =? 0
     end.

Lemma all_scores_round : forallb (fun total => forallb (score_rounds total) (below 7)) (below 7) = true.
Proof. vm_compute. reflexivity. Qed.

(** ** Properties: dots and scores *)

(** The score of a repository is that of its dots: there are as many dots
    as columns; the repository has a score exactly when some dot passes, fails
    or is partial, and then it is the share of passing dots among them as a
    percentage, to the nearest tenth. *)
Lemma repo_score_matches_dots c tiers :
  let dots := map dot_counts (build_status_dots c) in
  let pass := countb (counts_as true) dots in
  let fail := countb (counts_as false) dots in
  length dots = length REPO_STATUS_DOT_CONTROLS /\
  fst (fst (fst (compute_repo_score c tiers)))
  = (if pass + fail =? 0 then None else Some (tenths (round_half_up (1000 * pass) (pass + fail)))) /\
  (pass + fail = 0 -> compute_repo_score c tiers = (None, "N/A", Tier_Na, "w-0")).
Proof.
  intros dots pass fail. split; [done|]. unfold compute_repo_score. rewrite count_categories -dots_agree.
  change (map dot_counts (build_status_dots c)) with dots. fold pass fail. rewrite !N.add_0_l.
  assert (pass + fail <= 6) as Hle.
  { apply (countb_partition2 (counts_as true) (counts_as false) dots). by intros [[]|]. }
  pose proof (forall_below _ _ all_scores_round (pass + fail) ltac:(lia)) as H. cbn beta in H.
  pose proof (forall_below _ _ H pass ltac:(lia)) as Hr. unfold score_rounds in Hr.
  rewrite (proj2 (N.ltb_ge (pass + fail) pass)) in Hr; [|lia]. cbn [orb] in Hr.
  destruct (percentage pass (pass + fail)) as [s|] eqn:E; unfold percentage in E.
  - destruct (N.ltb_spec 0 (pass + fail)) as [Hpos|]; [|done]. cbn [fst].
    rewrite (proj2 (N.eqb_neq _ _)); [|lia]. apply bool_decide_eq_true in Hr. rewrite Hr.
    split; [done|lia].
  - destruct (N.ltb_spec 0 (pass + fail)) as [Hpos|Hz]; [done|].
    rewrite (proj2 (N.eqb_eq _ _)); [|lia]. done.
Qed.
