(* ===== verification/Denominators.v ===== *)
(** * The pages behind the cards ([report/html.rs])

    The repositories each coverage card of the dashboard was computed over: the
    pages of the five controls, of the alert-free status and of the retired
    repositories. *)

From S2P Require Import Prelude Str Errors Time Repository Checks Evidence Metrics Run Auth Config Aggregate.
From S2P Require Import Projection Publication Artifact ViewModel OwnerPages.
From Stdlib Require Import Floats.SpecFloat.

Open Scope N_scope.

Record DenominatorDrillDown := mkDrillDown {
  dd_control : CoverageControl;
  dd_page : DrillDownPage;
  dd_display_name : string;
}.

Definition DENOMINATOR_DRILL_DOWNS : list DenominatorDrillDown :=
  [ mkDrillDown CtlSecurityPolicy Page_SecurityPolicy (display_label Key_SecurityPolicy);
    mkDrillDown CtlSecretScanning Page_SecretScanning (display_label Key_SecretScanning);
    mkDrillDown CtlDependabot Page_DependabotStatus (display_label Key_Dependabot);
    mkDrillDown CtlCodeowners Page_Codeowners (display_label Key_Codeowners);
    mkDrillDown CtlBranchProtection Page_BranchProtection (display_label Key_BranchProtection) ].

Definition show_archived_column (page : DrillDownPage) : bool :=
  match page with
  | Page_Codeowners | Page_DependabotStatus => false
  | Page_SecurityPolicy | Page_SecretScanning | Page_AlertFree | Page_BranchProtection
  | Page_LifecycleRetirement => true
  end.

Record ControlDenominatorViewModel := mkDenominatorViewModel {
  cd_organization : string;
  cd_control_name : string;
  cd_population_description : string;
  cd_page_file_name : string;
  cd_eligible : list DenominatorRepoRow;
  cd_unmeasured : list UnmeasuredRepoRow;
  cd_numerator : N;
  cd_denominator : N;
  cd_coverage_formatted : string;
}.

Section Denominators.
  (** [utf8_percent_encode(s, PATH_SEGMENT)]. *)
  Context (path_encode : string -> string).

Definition unmeasured_row (org : string) (repo : RepositoryEvidence) (reason_label : string) : UnmeasuredRepoRow :=
  let r := repository repo in
  let '(name, url) := build_repo_display repo (path_encode org) (path_encode (repo_name r)) in
  mkUnmeasuredRow name url (Visibility_display (visibility r)) (archived r) reason_label.

Definition measured_row (org : string) (repo : RepositoryEvidence) (outcome : ControlOutcome) : DenominatorRepoRow :=
  denominator_row path_encode org repo (archived (repository repo)) outcome.

(** One turn of a loop that sorts repositories into eligible and unmeasured. *)
Definition push_membership (org : string) (rows : list DenominatorRepoRow * list UnmeasuredRepoRow)
    (entry : RepositoryEvidence * DenominatorMembership)
    : list DenominatorRepoRow * list UnmeasuredRepoRow :=
  let '(eligible, unmeasured) := rows in
  let '(repo, membership) := entry in
  match membership with
  | Eligible outcome => (eligible ++ [measured_row org repo outcome], unmeasured)
  | Excluded reason => (eligible, unmeasured ++ [unmeasured_row org repo (unmeasured_label reason)])
  end.

Definition build_control_denominator_view_model (evidence : EvidenceArtifact) (entry : DenominatorDrillDown)
    : ControlDenominatorViewModel :=
  let org := am_organization (ea_assessment_metadata evidence) in
  let population := control_denominator_population (dd_control entry) (ea_repositories evidence) in
  let '(eligible, unmeasured) := fold_left (push_membership org) population ([], []) in
  mkDenominatorViewModel org (dd_display_name entry) (population_description (dd_control entry))
    (file_name (dd_page entry)) (sort_by dr_le eligible) (sort_by ur_le unmeasured)
    (denominator_met_count population) (denominator_repo_count population)
    (RateMetric_display (control_coverage (dd_control entry) (ea_metrics evidence))).

(** ** The alert-free status *)

(** The verdict on one repository, or the reason there is none. *)
Definition alert_free_membership (ss : SecretScanningResult) : ControlOutcome + string :=
  if bool_decide (SecretScanningResult_status ss = SSS_Enabled) && alerts_observable ss then
    match has_open_alerts ss with
    | Some true => inl Unmet
    | Some false => inl Met
    | None => inr (unmeasured_label UR_Unknown)
    end
  else
    inr
      (if status_mismatch ss then "Secret scanning disabled (status mismatch)"
       else if bool_decide (SecretScanningResult_status ss = SSS_Disabled) then "Secret scanning disabled"
       else if bool_decide (SecretScanningResult_status ss = SSS_PermissionDenied) then "Permission denied"
       else if bool_decide (SecretScanningResult_status ss = SSS_Unknown) then "Unknown"
       else if negb (alerts_observable ss) then
         match SecretScanningResult_failure_reason ss with
         | Some (SF_PermissionDenied | SF_PermissionSuspected) => "Permission denied"
         | _ => "Alerts unobservable"
         end
       else "Not applicable").

Definition push_alert_free (org : string) (rows : list DenominatorRepoRow * list UnmeasuredRepoRow)
    (repo : RepositoryEvidence) : list DenominatorRepoRow * list UnmeasuredRepoRow :=
  let '(eligible, unmeasured) := rows in
  if archived (repository repo) then rows
  else
    match alert_free_membership (secret_scanning (checks repo)) with
    | inl outcome => (eligible ++ [measured_row org repo outcome], unmeasured)
    | inr reason => (eligible, unmeasured ++ [unmeasured_row org repo reason])
    end.

(** [u32::try_from(n)], with the text of the error. *)
Definition count_or_fail (what : string) (n : N) : result ReportError N :=
  if n <=? u32_max then Ok n
  else Err (TemplateRenderFailed
    ("alert-free " +:+ what +:+ " count " +:+ pretty n
     +:+ " exceeds u32::MAX: out of range integral type conversion attempted")).

Definition is_met_row (r : DenominatorRepoRow) : bool := match dr_outcome r with Met => true | Unmet => false end.

Definition build_alert_free_view_model (evidence : EvidenceArtifact) : result ReportError ControlDenominatorViewModel :=
  let org := am_organization (ea_assessment_metadata evidence) in
  let '(eligible, unmeasured) := fold_left (push_alert_free org) (ea_repositories evidence) ([], []) in
  let eligible := sort_by dr_le eligible in
  let unmeasured := sort_by ur_le unmeasured in
  let? numerator := count_or_fail "met" (countb is_met_row eligible) in
  let? denominator := count_or_fail "total" (N.of_nat (length eligible)) in
  Ok (mkDenominatorViewModel org "Alert-Free Status"
        "repositories where secret scanning is enabled and alerts are observable"
        (file_name Page_AlertFree) eligible unmeasured numerator denominator
        (percentage_text (percentage numerator denominator) numerator denominator)).
End Denominators.

(** ** Lemmas: rows *)

Definition membership_rows (org : string) (path_encode : string -> string)
    (population : list (RepositoryEvidence * DenominatorMembership))
    : list DenominatorRepoRow * list UnmeasuredRepoRow :=
  (omap (fun e => match snd e with Eligible o => Some (measured_row path_encode org (fst e) o) | _ => None end)
     population,
   omap (fun e => match snd e with
                  | Excluded r => Some (unmeasured_row path_encode org (fst e) (unmeasured_label r))
                  | _ => None
                  end) population).

Lemma push_membership_rows path_encode org population eligible unmeasured :
  fold_left (push_membership path_encode org) population (eligible, unmeasured)
  = (eligible ++ fst (membership_rows org path_encode population),
     unmeasured ++ snd (membership_rows org path_encode population)).
Proof.
  revert eligible unmeasured. induction population as [|[r m] l IH]; intros e u; cbn [fold_left];
    [by rewrite !app_nil_r|].
  destruct m; cbn [push_membership]; rewrite IH; cbn; by rewrite -?app_assoc.
Qed.

Lemma measured_row_name path_encode org repo o :
  dr_repo_name (measured_row path_encode org repo o) = repo_name (repository repo) /\
  dr_outcome (measured_row path_encode org repo o) = o.
Proof. done. Qed.

Lemma membership_rows_exact path_encode org population :
  let '(eligible, unmeasured) := membership_rows org path_encode population in
  N.of_nat (length eligible) = countb (fun e => is_eligible (snd e)) population /\
  countb is_met_row eligible = countb (fun e => is_met (snd e)) population /\
  Permutation (map dr_repo_name eligible ++ map ur_repo_name unmeasured)
    (map (fun e => repo_name (repository (fst e))) population).
Proof.
  unfold membership_rows. induction population as [|[r m] l (IH1 & IH2 & IH3)]; [done|].
  rewrite !countb_cons. destruct m as [o|reason]; cbn [omap list_omap snd fst is_eligible is_met map app length].
  - rewrite countb_cons -IH2. destruct o; (split_and!; [lia|reflexivity|by constructor]).
  - split_and!; [lia|lia|]. rewrite -Permutation_middle. by constructor.
Qed.

Definition dr_le_total : Total dr_le := fun a b => total String.le (dr_repo_name a) (dr_repo_name b).
Lemma dr_le_trans : Transitive dr_le.
Proof. intros a b c. unfold dr_le. apply transitivity. Qed.

(** The alert-free page sorts the active repositories the same way. *)
Lemma push_alert_free_rows path_encode org repos : forall e u,
  let '(eligible, unmeasured) := fold_left (push_alert_free path_encode org) repos (e, u) in
  N.of_nat (length eligible)
  = N.of_nat (length e) + countb (fun r => alerts_observable (secret_scanning (checks r))) (active repos) /\
  countb is_met_row eligible
  = countb is_met_row e
    + countb (fun r => bool_decide (has_open_alerts (secret_scanning (checks r)) = Some false)) (active repos) /\
  Permutation (map dr_repo_name eligible ++ map ur_repo_name unmeasured)
    ((map dr_repo_name e ++ map ur_repo_name u) ++ map (fun r => repo_name (repository r)) (active repos)).
Proof.
  unfold active. induction repos as [|r l IH]; intros e u; cbn [fold_left List.filter].
  - rewrite !countb_nil. cbn [map]. rewrite app_nil_r. split_and!; [lia|lia|done].
  - unfold push_alert_free at 2. destruct (archived (repository r)); cbn [negb]; [apply IH|].
    rewrite !countb_cons. cbn [map].
    assert (has_open_alerts (secret_scanning (checks r))
      = match alert_free_membership (secret_scanning (checks r)) with
        | inl Met => Some false | inl Unmet => Some true | inr _ => None
        end) as Hmem.
    { unfold alert_free_membership, alerts_observable.
      destruct (has_open_alerts (secret_scanning (checks r))) as [b|] eqn:E; [|by rewrite andb_false_r].
      rewrite bool_decide_eq_true_2; [by destruct b|]. by eapply alerts_only_when_enabled. }
    unfold alerts_observable at 1. rewrite Hmem.
    destruct (alert_free_membership _) as [o|reason].
    + specialize (IH (e ++ [measured_row path_encode org r o]) u).
      destruct (fold_left _ l _) as [eligible unmeasured]. destruct IH as (H1 & H2 & H3).
      rewrite length_app in H1. rewrite countb_app countb_cons countb_nil in H2. rewrite map_app in H3.
      split_and!.
      * rewrite H1. cbn [length]. destruct o; cbn beta iota; lia.
      * rewrite H2. destruct o; cbn [is_met_row measured_row denominator_row build_repo_display dr_outcome];
          case_bool_decide; try done; lia.
      * rewrite H3. cbn. rewrite -!app_assoc. apply Permutation_app_head. cbn. by rewrite Permutation_middle.
    + specialize (IH e (u ++ [unmeasured_row path_encode org r reason])).
      destruct (fold_left _ l _) as [eligible unmeasured]. destruct IH as (H1 & H2 & H3).
      rewrite map_app in H3. cbn beta iota. case_bool_decide; [done|]. split_and!; [lia|lia|].
      rewrite H3. cbn. by rewrite -!app_assoc.
Qed.

(** Fewer repositories than 32 bits count always fit. *)
Lemma alert_free_page_builds path_encode evidence : N.of_nat (length (ea_repositories evidence)) <= u32_max ->
  exists v, build_alert_free_view_model path_encode evidence = Ok v.
Proof.
  intros Hlen. unfold build_alert_free_view_model.
  pose proof (push_alert_free_rows path_encode (am_organization (ea_assessment_metadata evidence))
    (ea_repositories evidence) [] []) as Hrows.
  destruct (fold_left _ (ea_repositories evidence) ([], [])) as [eligible unmeasured].
  destruct Hrows as (Hel & Hmet & _). cbn [length] in Hel. rewrite countb_nil in Hmet.
  rewrite (countb_Permutation _ _ _ (sort_by_Permutation _ _)) (Permutation_length (sort_by_Permutation _ _)).
  pose proof (filter_length_le (fun r => negb (archived (repository r))) (ea_repositories evidence)) as Hact.
  fold (active (ea_repositories evidence)) in Hact.
  pose proof (countb_le_length (fun r => alerts_observable (secret_scanning (checks r))) (active (ea_repositories evidence))).
  pose proof (countb_le_length is_met_row eligible).
  unfold count_or_fail. rewrite (proj2 (N.leb_le (countb is_met_row eligible) _)); [|lia].
  rewrite (proj2 (N.leb_le (N.of_nat (length eligible)) _)); [|lia]. by eexists.
Qed.

(** The card's numbers, counted over the active repositories. *)
Lemma alert_free_numbers_exact lc repos : N.of_nat (length repos) <= u32_max ->
  alert_free_numbers (aggregate_metrics lc repos)
  = (countb (fun r => bool_decide (has_open_alerts (secret_scanning (checks r)) = Some false)) (active repos),
     countb (fun r => alerts_observable (secret_scanning (checks r))) (active repos)).
Proof.
  intros Hlen. unfold alert_free_numbers. destruct (alert_prevalence_partition lc repos Hlen) as (_ & -> & _).
  change (secret_alert_counts (aggregate_metrics lc repos)) with (count_secret_alert_observability (active repos)).
  pose proof (filter_length_le (fun r => negb (archived (repository r))) repos) as Hact. fold (active repos) in Hact.
  rewrite count_alerts_exact; [|lia]. cbn [repos_with_open_alerts repos_without_open_alerts].
  set (no := countb (fun r => bool_decide (_ = Some false)) _).
  set (op := countb (fun r => bool_decide (_ = Some true)) _).
  assert (countb (fun r => alerts_observable (secret_scanning (checks r))) (active repos) = op + no) as Hsum.
  { apply countb_split; intros r; unfold alerts_observable; by destruct (has_open_alerts _) as [[]|]. }
  pose proof (countb_le_length (fun r => alerts_observable (secret_scanning (checks r))) (active repos)).
  rewrite sat_add_small; [f_equal; lia|lia].
Qed.

(** ** Properties *)

(** C31: a control's page and its card speak of the same repositories.  On the
    page of the evidence of any collection, of no more repositories than a [u32]
    counts, the repositories of the control's population are listed once each,
    sorted, as eligible or as unmeasured; the page's numerator counts the met
    among the eligible, its denominator all of them; the card's rate has the same numerator and the same denominator,
    except that a population in which nothing was measurable is 0 out of 1 on
    the card; and the page shows the card's rate.  The exception is the floor
    that [coverage_metric] documents (metrics.rs:244): a control that applies
    and could not be measured counts as a failure, and only an empty population
    is not available.  OPERATIONS.md:353 says otherwise of it, and
    metrics.rs:82 of the denominator of the security policy. *)
Theorem control_page_matches_card lc parse_timestamp date_text run_text path_encode p entry :
  N.of_nat (length (be_repositories p)) <= u32_max ->
  let evidence := build_evidence lc parse_timestamp date_text run_text p in
  let v := build_control_denominator_view_model path_encode evidence entry in
  let card := control_coverage (dd_control entry) (ea_metrics evidence) in
  Permutation (map dr_repo_name (cd_eligible v) ++ map ur_repo_name (cd_unmeasured v))
    (map (fun r => repo_name (repository r)) (population (dd_control entry) (be_repositories p))) /\
  StronglySorted dr_le (cd_eligible v) /\
  cd_numerator v = countb is_met_row (cd_eligible v) /\
  cd_denominator v = N.of_nat (length (cd_eligible v)) /\
  numerator card = cd_numerator v /\
  denominator card
  = (if cd_denominator v =? 0 then (if population (dd_control entry) (be_repositories p) then 0 else 1)
     else cd_denominator v) /\
  cd_coverage_formatted v = RateMetric_display card.
Proof.
  intros Hlen evidence v card. unfold v, build_control_denominator_view_model.
  rewrite push_membership_rows. cbn [app].
  pose proof (membership_rows_exact path_encode (am_organization (ea_assessment_metadata evidence))
    (control_denominator_population (dd_control entry) (ea_repositories evidence))) as Hrows.
  change (ea_repositories evidence) with (be_repositories p) in *.
  destruct (membership_rows _ _ _) as [eligible unmeasured]. destruct Hrows as (Hel & Hmet & Hperm).
  cbn [fst snd cd_eligible cd_unmeasured cd_numerator cd_denominator cd_coverage_formatted].
  destruct (coverage_matches_population lc (dd_control entry) (be_repositories p) Hlen) as [Hn Hd].
  assert (card = control_coverage (dd_control entry) (aggregate_metrics lc (be_repositories p))) as Hcard
    by by destruct (dd_control entry).
  pose proof (countb_le_length (fun e => is_eligible (snd e))
    (control_denominator_population (dd_control entry) (be_repositories p))) as Hle1.
  pose proof (countb_le_length (fun e => is_met (snd e))
    (control_denominator_population (dd_control entry) (be_repositories p))) as Hle2.
  assert (N.of_nat (length (control_denominator_population (dd_control entry) (be_repositories p))) <= u32_max)
    as Hpop.
  { unfold control_denominator_population. rewrite length_map.
    pose proof (filter_length_le (in_population (dd_control entry)) (be_repositories p)). lia. }
  split_and!.
  - rewrite !sort_by_Permutation Hperm. unfold control_denominator_population. by rewrite map_map.
  - apply sort_by_sorted; [apply dr_le_total|apply dr_le_trans].
  - rewrite (countb_Permutation _ _ _ (sort_by_Permutation _ _)) Hmet. unfold denominator_met_count, filter_count.
    apply count_as_u32_small. lia.
  - rewrite (Permutation_length (sort_by_Permutation _ _)) Hel. unfold denominator_repo_count, filter_count.
    apply count_as_u32_small. lia.
  - by rewrite Hcard Hn.
  - rewrite Hcard Hd. unfold control_denominator_population at 2. fold (population (dd_control entry) (be_repositories p)).
    by destruct (population _ _).
  - done.
Qed.

(** The alert-free page and its card agree: for the evidence of any
    collection the page is built without an error, lists every active
    repository once, and shows the very text of the card, whose numerator and
    denominator it counts out. *)
Lemma alert_free_page_matches_card lc parse_timestamp date_text run_text path_encode p tiers :
  N.of_nat (length (be_repositories p)) <= u32_max ->
  let evidence := build_evidence lc parse_timestamp date_text run_text p in
  exists v, build_alert_free_view_model path_encode evidence = Ok v /\
  Permutation (map dr_repo_name (cd_eligible v) ++ map ur_repo_name (cd_unmeasured v))
    (map (fun r => repo_name (repository r)) (active (be_repositories p))) /\
  cd_numerator v = countb is_met_row (cd_eligible v) /\
  cd_denominator v = N.of_nat (length (cd_eligible v)) /\
  alert_free_numbers (ea_metrics evidence) = (cd_numerator v, cd_denominator v) /\
  cd_coverage_formatted v = af_formatted (compute_alert_free_coverage evidence tiers).
Proof.
  intros Hlen evidence. unfold build_alert_free_view_model.
  change (ea_repositories evidence) with (be_repositories p).
  pose proof (push_alert_free_rows path_encode (am_organization (ea_assessment_metadata evidence))
    (be_repositories p) [] []) as Hrows.
  destruct (fold_left (push_alert_free path_encode _) (be_repositories p) ([], [])) as [eligible unmeasured].
  destruct Hrows as (Hel & Hmet & Hperm). cbn [length] in Hel. rewrite countb_nil in Hmet.
  rewrite (countb_Permutation _ _ _ (sort_by_Permutation _ _)) (Permutation_length (sort_by_Permutation _ _)).
  pose proof (filter_length_le (fun r => negb (archived (repository r))) (be_repositories p)) as Hact.
  fold (active (be_repositories p)) in Hact.
  pose proof (countb_le_length (fun r => alerts_observable (secret_scanning (checks r))) (active (be_repositories p))).
  pose proof (countb_le_length is_met_row eligible).
  unfold count_or_fail. rewrite (proj2 (N.leb_le (countb is_met_row eligible) _)); [|lia].
  rewrite (proj2 (N.leb_le (N.of_nat (length eligible)) _)); [|lia].
  eexists. split; [reflexivity|]. cbn [cd_eligible cd_unmeasured cd_numerator cd_denominator cd_coverage_formatted].
  assert (alert_free_numbers (ea_metrics evidence) = (countb is_met_row eligible, N.of_nat (length eligible))) as Hnum.
  { change (alert_free_numbers (ea_metrics evidence))
      with (alert_free_numbers (aggregate_metrics lc (be_repositories p))).
    by rewrite alert_free_numbers_exact // Hmet Hel !N.add_0_l. }
  split_and!.
  - by rewrite !sort_by_Permutation Hperm.
  - by rewrite (countb_Permutation _ _ _ (sort_by_Permutation _ _)).
  - by rewrite (Permutation_length (sort_by_Permutation _ _)).
  - done.
  - unfold compute_alert_free_coverage. by rewrite Hnum.
Qed.

(** A collection of the sample fleet. *)
Definition sample_build (config : RuntimeConfig) : BuildEvidenceParams :=
  mkBuildEvidenceParams sample_fleet [] None config
    (mkRunMetadata "r" 0 None "acme" "1" Run_InProgress CoverageUnknown) None None
    (mkAuthMetadata TT_Unknown "cached" AM_Unknown) CapabilitySet_default 0 [] false None.

Definition with_sample_config (P : RuntimeConfig -> Prop) : Prop :=
  match RuntimeConfig_new "acme" false 4 "/var/lib/gh-report" with Ok config => P config | Err _ => False end.

Lemma control_page_matches_card_witness : with_sample_config (fun config =>
  let evidence := build_evidence to_ascii_lowercase (fun _ => None) (fun _ => "d") (fun _ => "t") (sample_build config) in
  let v := build_control_denominator_view_model id evidence
             (mkDrillDown CtlSecretScanning Page_SecretScanning "Secret Scanning") in
  cd_denominator v = N.of_nat (length (cd_eligible v))).
Proof.
  unfold with_sample_config.
  assert (is_some_and (fun _ => true) (ok (RuntimeConfig_new "acme" false 4 "/var/lib/gh-report")) = true)
    as Hok by (vm_compute; reflexivity).
  destruct (RuntimeConfig_new _ _ _ _) as [config|e]; [clear Hok|discriminate Hok].
  apply (control_page_matches_card to_ascii_lowercase (fun _ => None) (fun _ => "d") (fun _ => "t") id
    (sample_build config) (mkDrillDown CtlSecretScanning Page_SecretScanning "Secret Scanning")).
  exact sample_fleet_small.
Defined.

Lemma alert_free_page_matches_card_witness : with_sample_config (fun config =>
  let evidence := build_evidence to_ascii_lowercase (fun _ => None) (fun _ => "d") (fun _ => "t") (sample_build config) in
  exists v, build_alert_free_view_model id evidence = Ok v /\
    cd_coverage_formatted v = af_formatted (compute_alert_free_coverage evidence CoverageTiers_default)).
Proof.
  unfold with_sample_config.
  assert (is_some_and (fun _ => true) (ok (RuntimeConfig_new "acme" false 4 "/var/lib/gh-report")) = true)
    as Hok by (vm_compute; reflexivity).
  destruct (RuntimeConfig_new _ _ _ _) as [config|e]; [clear Hok|discriminate Hok].
  destruct (alert_free_page_matches_card to_ascii_lowercase (fun _ => None) (fun _ => "d") (fun _ => "t") id
    (sample_build config) CoverageTiers_default sample_fleet_small) as (v & Hv & _ & _ & _ & _ & Ht).
  exists v. split; [exact Hv|exact Ht].
Defined.
