(* ===== verification/Dashboard.v ===== *)
(** * The dashboard's pages ([report/html.rs])

    Which pages are rendered from a report artifact, under which path, from
    which view model, and in which order they are handed on.  Rendering a
    template is a parameter that can fail; the static assets are texts. *)

From S2P Require Import Prelude Str Errors Time Repository Checks Evidence Metrics Run Auth Config Aggregate.
From S2P Require Import Projection Publication Artifact Slugs Diagnostics ViewModel Orphans OwnerPages Denominators.
From Stdlib Require Import Floats.SpecFloat.

Open Scope N_scope.

(** The view model after the renderer's updates of it. *)
Record DashboardView := mkDashboardView {
  db_report : ReportViewModel;
  db_warm_start : bool;
  db_warm_start_badge : option string;
  db_owners : option OwnersViewModel;
  db_orphaned_count : N;
  db_team_access_guidance : string;
  db_team_access_help_links : list HelpLink;
  db_top_security_teams : list TopSecurityTeam;
}.

(** The templates, with what each is given. *)
Inductive Template :=
| ReportTemplate (vm : DashboardView) (nav : TopNav) (title : string) (warm_start : bool)
    (coverage_badge : option CoverageNotice)
| IndexTemplate (vm : DashboardView) (nav : TopNav) (title : string) (warm_start : bool) (ascended_count : N)
    (build_footer : string) (coverage_badge : option CoverageNotice)
| AdminTemplate (vm : DashboardView) (nav : TopNav) (title : string) (warm_start : bool)
| OwnersTemplate (vm : OwnersViewModel) (total_repos : N) (nav : TopNav) (title : string) (warm_start : bool)
| OwnerDetailTemplate (vm : OwnerDetailViewModel) (nav : TopNav) (title : string) (warm_start : bool)
| OrphansTemplate (vm : OrphanedViewModel) (nav : TopNav) (title : string) (warm_start : bool)
| DeletedTemplate (vm : DeletedViewModel) (nav : TopNav) (title : string) (warm_start : bool)
| DenominatorTemplate (control : CoverageControl) (vm : ControlDenominatorViewModel) (nav : TopNav)
    (title : string) (warm_start show_archived_column : bool)
| AlertFreeDenominatorTemplate (vm : ControlDenominatorViewModel) (nav : TopNav) (title : string)
    (warm_start show_archived_column : bool)
| LifecycleRetirementDenominatorTemplate (vm : LifecycleRetirementViewModel) (nav : TopNav)
    (title : string) (warm_start : bool).

(** The pages handed to the sink so far, and whether the rendering goes on. *)
Definition Pages : Type := list (string * string).
Definition Render : Type := Pages -> result ReportError () * Pages.

Definition sink (path content : string) : Render := fun pages => (Ok (), pages ++ [(path, content)]).
Definition and_then (a b : Render) : Render := fun pages =>
  match a pages with
  | (Ok _, pages) => b pages
  | (Err e, pages) => (Err e, pages)
  end.
Fixpoint all_in_turn (steps : list Render) : Render :=
  match steps with
  | [] => fun pages => (Ok (), pages)
  | step :: steps => and_then step (all_in_turn steps)
  end.

(** ** The build's footer *)

Inductive BuildSha := BuildSha_Known (sha : string) | BuildSha_Unknown.

Definition is_ascii_hexdigit (c : Ascii.ascii) : bool :=
  let n := Ascii.N_of_ascii c in in_range 48 57 n || in_range 65 70 n || in_range 97 102 n.

Definition BuildSha_parse (raw : string) : BuildSha :=
  let candidate := trim raw in
  if (7 <=? String.length candidate)%nat && (String.length candidate <=? 40)%nat
     && all_bytes is_ascii_hexdigit candidate
  then BuildSha_Known (to_ascii_lowercase (take_bytes 7 candidate)) else BuildSha_Unknown.
Definition BuildSha_label (b : BuildSha) : string :=
  match b with BuildSha_Known sha => sha | BuildSha_Unknown => "unknown" end.

(** The version and the commit are those of the build's environment. *)
Definition build_footer_text (version git_sha : string) : string :=
  "gh-report v" +:+ version +:+ " · build " +:+ BuildSha_label (BuildSha_parse git_sha).

Section Dashboard.
  (** Rendering a template, the texts of the three static assets and of the
      build's footer; and the parameters of the view models. *)
  Context (render : Template -> result string string) (STYLESHEET WS_CLIENT_JS FAVICON_SVG build_footer : string).
  Context (to_lowercase : string -> string) (parse_timestamp : string -> option Z).
  Context (minute_text date_text : Z -> string) (path_encode query_encode : string -> string).
  Context (ln exp : spec_float -> spec_float) (now : Z).

Definition render_template (t : Template) : result ReportError string := map_err TemplateRenderFailed (render t).

Definition render_page (path : string) (t : Template) : Render := fun pages =>
  match render_template t with
  | Ok html => sink path html pages
  | Err e => (Err e, pages)
  end.

Definition sink_static_assets : Render :=
  all_in_turn
    [ sink "style.css" STYLESHEET; sink "ws.js" WS_CLIENT_JS; sink "favicon.svg" FAVICON_SVG;
      sink "gh-report-web-client.js" ""; sink "gh-report-web-client_bg.wasm" ""; sink "sort-init.js" "" ].

(** ** The pages of the owners *)

Definition nested (nav : TopNav) : TopNav :=
  mkTopNav (nav_publication nav) "../" Href_Nested (nav_show_owners nav) (nav_orphaned_count nav)
    (nav_deleted_count nav) (nav_technical_issues_total nav).

Definition render_owner_pages (evidence : EvidenceArtifact) (tiers : CoverageTiers) (owners : OwnersViewModel)
    (attributed_owners : list AttributedOwner) (orphaned_vm : OrphanedViewModel) (nav : TopNav)
    (warm_start : bool) : Render :=
  let metadata := ea_assessment_metadata evidence in
  let ctx :=
    mkDetailContext (build_owner_repo_map to_lowercase (ea_repositories evidence)) tiers
      (am_organization metadata) (am_run_timestamp metadata) (team_rosters (ea_metrics evidence))
      (ov_by_team orphaned_vm) in
  let detail_vms :=
    build_owner_detail_view_models to_lowercase parse_timestamp date_text path_encode query_encode ln exp now
      attributed_owners ctx in
  and_then
    (render_page "owners.html"
       (OwnersTemplate owners (total_repos_count (ea_collection_statistics evidence)) nav
          ("Owner Coverage — " +:+ am_organization metadata) warm_start))
    (all_in_turn
       (map (fun sv =>
            let '(slug, detail_vm) := sv in
            render_page ("owners/" +:+ slug +:+ ".html")
              (OwnerDetailTemplate detail_vm (nested nav) (od_owner detail_vm +:+ " — Owner Detail") warm_start))
          detail_vms)).

(** ** The secondary pages *)

Definition render_denominator_pages (evidence : EvidenceArtifact) (nav : TopNav) (warm_start : bool) : Render :=
  all_in_turn
    (map (fun entry =>
         render_page (file_name (dd_page entry))
           (DenominatorTemplate (dd_control entry)
              (build_control_denominator_view_model path_encode evidence entry) nav
              (dd_display_name entry +:+ " Coverage — " +:+ am_organization (ea_assessment_metadata evidence))
              warm_start (show_archived_column (dd_page entry))))
       DENOMINATOR_DRILL_DOWNS).

Definition render_alert_free_page (evidence : EvidenceArtifact) (nav : TopNav) (warm_start : bool) : Render :=
  fun pages =>
    match build_alert_free_view_model path_encode evidence with
    | Err e => (Err e, pages)
    | Ok vm =>
      render_page (file_name Page_AlertFree)
        (AlertFreeDenominatorTemplate vm nav
           ("Alert-Free Status Coverage — " +:+ am_organization (ea_assessment_metadata evidence)) warm_start
           (show_archived_column Page_AlertFree)) pages
    end.

Definition render_secondary_pages (evidence : EvidenceArtifact) (tiers : CoverageTiers)
    (orphaned_vm : OrphanedViewModel) (deleted_vm : DeletedViewModel) (nav : TopNav) (warm_start : bool) : Render :=
  let org := am_organization (ea_assessment_metadata evidence) in
  let lr_vm := lifecycle_retirement_from_evidence parse_timestamp path_encode evidence tiers in
  all_in_turn
    [ render_page "orphans.html"
        (OrphansTemplate orphaned_vm nav ("Orphan Repositories — " +:+ org) warm_start);
      render_page "deleted.html"
        (DeletedTemplate deleted_vm nav ("Deleted Repositories and Teams — " +:+ org) warm_start);
      render_denominator_pages evidence nav warm_start;
      render_alert_free_page evidence nav warm_start;
      render_page (file_name Page_LifecycleRetirement)
        (LifecycleRetirementDenominatorTemplate lr_vm nav (lr_control_name lr_vm +:+ " Coverage — " +:+ org)
           warm_start) ].

(** ** The dashboard *)

(** The first three pages are rendered before any is handed on. *)
Definition render_main_pages (report index admin : Template) : Render := fun pages =>
  let rendered :=
    let? report := render_template report in
    let? index := render_template index in
    let? admin := render_template admin in
    Ok (report, index, admin) in
  match rendered with
  | Err e => (Err e, pages)
  | Ok (report, index, admin) =>
    all_in_turn [sink "report.html" report; sink "index.html" index; sink "admin.html" admin] pages
  end.

Definition attributed_owners_of (evidence : EvidenceArtifact) (orphaned_vm : OrphanedViewModel)
    : list AttributedOwner :=
  attribute_all (owner_metrics (ea_metrics evidence)) (ov_by_team orphaned_vm) (team_rosters (ea_metrics evidence)).

Definition orphans_of (evidence : EvidenceArtifact) : OrphanedViewModel :=
  let metadata := ea_assessment_metadata evidence in
  build_orphaned_view_model to_lowercase parse_timestamp date_text path_encode (ea_repositories evidence)
    (am_organization metadata) (am_run_timestamp metadata) (team_rosters (ea_metrics evidence)).

Definition render_publication_streaming (evidence : EvidenceArtifact) (config : DashboardConfig)
    (warm_start : bool) (publication : option PublicationDisclosure) : Render :=
  let tiers := tiers config in
  let metadata := ea_assessment_metadata evidence in
  let orphaned_vm := orphans_of evidence in
  let attributed_owners := attributed_owners_of evidence orphaned_vm in
  let owners_vm := build_owners_view_model ln exp attributed_owners tiers in
  let deleted_vm :=
    build_deleted_view_model to_lowercase path_encode (ea_deleted evidence) (am_organization metadata)
      (ea_repositories evidence) (team_rosters (ea_metrics evidence)) in
  let report := report_from_evidence parse_timestamp minute_text ln exp now evidence tiers in
  let '(vm_warm_start, badge) := update_warm_start (rv_warm_start_badge report) warm_start in
  let '(guidance, help_links) := compose_team_access_guidance (team_access (org_help config)) in
  let vm :=
    mkDashboardView report vm_warm_start badge owners_vm (ov_orphaned_count orphaned_vm) guidance help_links
      (match owners_vm with Some ov => build_top_security_teams ov | None => [] end) in
  let nav :=
    mkTopNav publication "" Href_Root (match owners_vm with Some _ => true | None => false end)
      (ov_orphaned_count orphaned_vm) (rv_deleted_count report)
      (technical_issues_total (rv_admin_diagnostics report)) in
  let coverage_badge :=
    coverage_notice_derive (am_coverage metadata) (total_repos_count (ea_collection_statistics evidence)) in
  let org := rv_organization report in
  all_in_turn
    [ render_main_pages
        (ReportTemplate vm nav (org +:+ " GitHub Governance Overview") warm_start coverage_badge)
        (IndexTemplate vm nav (org +:+ " Security Dashboard")
           (warm_start || (match badge with Some _ => true | None => false end))
           (match owners_vm with Some ov => count_ascended_teams ov | None => 0 end) build_footer coverage_badge)
        (AdminTemplate vm nav (org +:+ " Admin Diagnostics") warm_start);
      sink_static_assets;
      match owners_vm with
      | Some owners =>
        render_owner_pages evidence tiers owners attributed_owners orphaned_vm nav warm_start
      | None => all_in_turn []
      end;
      render_secondary_pages evidence tiers orphaned_vm deleted_vm nav warm_start ].

Definition render_dashboard_streaming (evidence : EvidenceArtifact) (config : DashboardConfig) : Render :=
  render_publication_streaming evidence config (am_warm_start (ea_assessment_metadata evidence)) None.

Definition render_dashboard (evidence : EvidenceArtifact) (config : DashboardConfig)
    : result ReportError (gmap string string) :=
  match render_dashboard_streaming evidence config [] with
  | (Ok _, pages) => Ok (collect_map pages)
  | (Err e, _) => Err e
  end.
End Dashboard.

(** ** Lemmas: what a rendering hands on *)

(** A page: its path, and what its text satisfies. *)
Definition PageSpec : Type := string * (string -> Prop).
Definition any_text (path : string) : PageSpec := (path, fun _ => True).
Definition text_of (render : Template -> result string string) (path : string) (t : Template) : PageSpec :=
  (path, fun html => render t = Ok html).

Definition page_ok (spec : PageSpec) (page : string * string) : Prop :=
  fst page = fst spec /\ snd spec (snd page).

(** [r] ends well and hands on these pages, in this order. *)
Definition emits (r : Render) (specs : list PageSpec) : Prop :=
  forall pages, exists new, r pages = (Ok (), pages ++ new) /\ Forall2 page_ok specs new.

Lemma emits_sink path content : emits (sink path content) [any_text path].
Proof. intros pages. exists [(path, content)]. by split; [|repeat constructor]. Qed.

Lemma emits_and_then a b l l' : emits a l -> emits b l' -> emits (and_then a b) (l ++ l').
Proof.
  intros Ha Hb pages. destruct (Ha pages) as (new & Hn & Hl). destruct (Hb (pages ++ new)) as (new' & Hn' & Hl').
  exists (new ++ new'). unfold and_then. rewrite Hn Hn' app_assoc. split; [done|by apply Forall2_app].
Qed.

Lemma emits_all steps specs : Forall2 emits steps specs -> emits (all_in_turn steps) (concat specs).
Proof.
  induction 1 as [|r l steps specs Hr _ IH]; cbn [all_in_turn concat].
  - intros pages. exists []. by rewrite app_nil_r.
  - by apply emits_and_then.
Qed.

Lemma emits_map {A} (step : A -> Render) (spec : A -> PageSpec) (l : list A) :
  (forall a, emits (step a) [spec a]) -> emits (all_in_turn (map step l)) (map spec l).
Proof.
  intros H. assert (map spec l = concat (map (fun a => [spec a]) l)) as ->.
  { induction l as [|a l IH]; [done|]. cbn. by rewrite IH. }
  apply emits_all. apply Forall2_fmap_l, Forall2_fmap_r, Forall_Forall2_diag, Forall_true. exact H.
Qed.

Lemma pages_paths specs pages : Forall2 page_ok specs pages -> map fst pages = map fst specs.
Proof. induction 1 as [|[p Q] [p' html] specs pages [E _] _ IH]; [done|]. cbn in *. by rewrite E IH. Qed.

Lemma pages_text spec specs pages :
  Forall2 page_ok specs pages -> spec ∈ specs -> exists html, (fst spec, html) ∈ pages /\ snd spec html.
Proof.
  intros H Hin. apply list_elem_of_lookup_1 in Hin as [i Hi].
  destruct (Forall2_lookup_l _ _ _ _ _ H Hi) as ([p html] & Hp & E & HQ). cbn in *. subst p. exists html.
  split; [by eapply list_elem_of_lookup_2|done].
Qed.

Section PageSet.
  Context (render : Template -> result string string) (Hrender : forall t, exists html, render t = Ok html).

Lemma emits_page path t : emits (render_page render path t) [text_of render path t].
Proof.
  intros pages. unfold render_page, render_template. destruct (Hrender t) as [html E]. rewrite E.
  exists [(path, html)]. by split; [|repeat constructor].
Qed.

Lemma emits_any path t : emits (render_page render path t) [any_text path].
Proof.
  intros pages. unfold render_page, render_template. destruct (Hrender t) as [html ->].
  apply (emits_sink path html).
Qed.

Lemma emits_main report index admin :
  emits (render_main_pages render report index admin) (map any_text ["report.html"; "index.html"; "admin.html"]).
Proof.
  intros pages. unfold render_main_pages, render_template.
  destruct (Hrender report) as [r ->], (Hrender index) as [i ->], (Hrender admin) as [a ->]. cbn [map_err].
  apply (emits_all _ (map (fun path => [any_text path]) ["report.html"; "index.html"; "admin.html"])).
  repeat (apply Forall2_cons_2; [apply emits_sink|]). apply Forall2_nil_2.
Qed.
End PageSet.

(** The paths of the dashboard, given the names of the owners' pages. *)
Definition owner_page (slug : string) : string := "owners/" +:+ slug +:+ ".html".

Definition static_paths : list string :=
  ["style.css"; "ws.js"; "favicon.svg"; "gh-report-web-client.js"; "gh-report-web-client_bg.wasm"; "sort-init.js"].

Definition dashboard_paths (slugs : list string) : list string :=
  ["report.html"; "index.html"; "admin.html"] ++ static_paths
  ++ (match slugs with [] => [] | _ => "owners.html" :: map owner_page slugs end)
  ++ ["orphans.html"; "deleted.html"]
  ++ map (fun entry => file_name (dd_page entry)) DENOMINATOR_DRILL_DOWNS
  ++ [file_name Page_AlertFree; file_name Page_LifecycleRetirement].

Definition fixed_paths : list string :=
  ["report.html"; "index.html"; "admin.html"] ++ static_paths ++ ["owners.html"; "orphans.html"; "deleted.html"]
  ++ map (fun entry => file_name (dd_page entry)) DENOMINATOR_DRILL_DOWNS
  ++ [file_name Page_AlertFree; file_name Page_LifecycleRetirement].

Lemma fixed_paths_distinct : NoDup fixed_paths.
Proof. apply (bool_decide_eq_true_1 _). by vm_compute. Qed.

Lemma owner_page_not_fixed slug : owner_page slug ∉ fixed_paths.
Proof. unfold owner_page. cbn. rewrite !not_elem_of_cons. repeat (split; [discriminate|]). apply not_elem_of_nil. Qed.

Lemma owner_page_inj : Inj (=) (=) owner_page.
Proof.
  intros a b H. unfold owner_page in H. apply (inj (String.append "owners/")) in H.
  assert (strip_suffix ".html" (a +:+ ".html") = strip_suffix ".html" (b +:+ ".html")) as Hs by by rewrite H.
  rewrite !(proj2 (strip_suffix_Some _ _ _) eq_refl) in Hs. by injection Hs.
Qed.

Lemma dashboard_paths_distinct slugs : NoDup slugs -> NoDup (dashboard_paths slugs).
Proof.
  intros Hs. assert (Permutation (dashboard_paths slugs)
    (match slugs with [] => [] | _ => map owner_page slugs end ++ 
     match slugs with [] => filter (fun p => p <> "owners.html") fixed_paths | _ => fixed_paths end)) as ->.
  { unfold dashboard_paths, fixed_paths. destruct slugs as [|s slugs]; [by vm_compute|].
    set (o := map owner_page _). change ("owners.html" :: o) with (["owners.html"] ++ o). solve_Permutation. }
  apply NoDup_app. split_and!.
  - destruct slugs; [constructor|]. apply NoDup_fmap_2; [apply owner_page_inj|done].
  - intros p Hp Hf. destruct slugs as [|s slugs]; [by apply elem_of_nil in Hp|].
    apply list_elem_of_fmap in Hp as (s' & -> & _). by apply owner_page_not_fixed in Hf.
  - destruct slugs; [apply NoDup_filter|]; apply fixed_paths_distinct.
Qed.

(** ** Lemmas: the owners' pages *)

Definition owner_names (attributed_owners : list AttributedOwner) : list string :=
  map (fun o => display_name (ao_metrics o)) attributed_owners.

Lemma owner_slugs_ok attributed_owners :
  (forall o, o ∈ attributed_owners -> is_Some (owner_slugs attributed_owners !! display_name (ao_metrics o))) /\
  (forall n n' s, owner_slugs attributed_owners !! n = Some s -> owner_slugs attributed_owners !! n' = Some s ->
     n = n').
Proof.
  unfold owner_slugs. fold (owner_names attributed_owners).
  destruct (unique_slugs_ok (owner_names attributed_owners)) as (st & Hst & [_ Hinj _] & Hdom).
  unfold generate_unique_slugs. rewrite Hst. cbn [fmap option_fmap option_map default from_option].
  split; [|exact Hinj]. intros o Ho. apply elem_of_dom. rewrite Hdom elem_of_list_to_set.
  by apply (list_elem_of_fmap_2 (fun o => display_name (ao_metrics o))).
Qed.

(** The slugs of the owners, in their order. *)
Definition slugs_of (attributed_owners : list AttributedOwner) : list string :=
  omap (fun n => owner_slugs attributed_owners !! n) (owner_names attributed_owners).

Lemma slugs_distinct attributed_owners :
  NoDup (owner_names attributed_owners) -> NoDup (slugs_of attributed_owners).
Proof.
  intros Hnd. unfold slugs_of. destruct (owner_slugs_ok attributed_owners) as [_ Hinj].
  revert Hnd. generalize (owner_names attributed_owners) as names. clear -Hinj. intros names.
  induction 1 as [|n names Hn Hnd IH]; [constructor|]. cbn.
  destruct (owner_slugs attributed_owners !! n) as [s|] eqn:E; [|done]. constructor; [|done].
  intros (n' & Hn' & Hs)%list_elem_of_omap. apply Hn. by rewrite (Hinj n n' s E Hs).
Qed.

Lemma enriched_names lc parse_timestamp date_text run_text p :
  NoDup (map display_name (owner_metrics (ea_metrics (build_evidence lc parse_timestamp date_text run_text p)))).
Proof.
  unfold build_evidence. cbn [ea_metrics with_owners_and_rosters owner_metrics aggregate_metrics].
  unfold enrich_owner_metrics_with_org_membership, enrich_owner_metrics_with_lifecycle.
  rewrite !map_map. erewrite map_ext; [apply (owner_names_distinct lc (be_repositories p))|].
  intros o. cbn beta. destruct (build_owner_repo_map _ _ !! owner o) as [[n rs]|];
    destruct (negb _); try done; by destruct (lifecycle_rates _ _ _).
Qed.

Lemma attribute_all_metrics owners groups rosters : map ao_metrics (attribute_all owners groups rosters) = owners.
Proof. unfold attribute_all. rewrite map_map. cbn. apply map_id. Qed.

Lemma slugs_of_owners attributed_owners :
  slugs_of attributed_owners
  = omap (fun o => owner_slugs attributed_owners !! display_name (ao_metrics o)) attributed_owners.
Proof.
  unfold slugs_of, owner_names. generalize (owner_slugs attributed_owners) as m. intros m.
  induction attributed_owners as [|o l IH]; [done|]. cbn. by rewrite IH.
Qed.

Lemma slugs_of_length attributed_owners : length (slugs_of attributed_owners) = length attributed_owners.
Proof.
  rewrite slugs_of_owners. destruct (owner_slugs_ok attributed_owners) as [Hsome _]. revert Hsome.
  generalize (owner_slugs attributed_owners) as m. intros m.
  induction attributed_owners as [|o l IH]; intros Hsome; [done|]. cbn.
  destruct (Hsome o ltac:(left)) as [s ->]. cbn. rewrite IH //. intros o' Ho'. apply Hsome. by right.
Qed.

(** *** The owners in their order *)

Definition owner_slug (owners : list AttributedOwner) (o : AttributedOwner) : string :=
  default "unknown" (owner_slugs owners !! display_name (ao_metrics o)).

Lemma slugs_of_map owners : slugs_of owners = map (owner_slug owners) owners.
Proof.
  rewrite slugs_of_owners. destruct (owner_slugs_ok owners) as [Hsome _]. revert Hsome. unfold owner_slug.
  generalize (owner_slugs owners) as m. intros m. induction owners as [|o l IH]; intros Hsome; [done|]. cbn.
  destruct (Hsome o ltac:(left)) as [s ->]. cbn. rewrite IH //. intros o' Ho'. apply Hsome. by right.
Qed.

Lemma overview_rows ln exp owners ts vm :
  build_owners_view_model ln exp owners ts = Some vm ->
  os_rows vm = map (overview_row ln exp (owner_slugs owners) ts) owners.
Proof. destruct owners; [done|by intros [= <-]]. Qed.

Lemma overview_row_shows ln exp slugs ts o :
  let row := overview_row ln exp slugs ts o in
  ow_owner row = display_name (ao_metrics o) /\ ow_repo_count row = total_repos (ao_metrics o) /\
  ow_slug row = default "unknown" (slugs !! display_name (ao_metrics o)) /\
  compute_owner_sec_score ln exp (ao_metrics o) (ao_non_orphaned o) ts
  = (ow_sec_score row, ow_sec_score_formatted row, ow_sec_score_tier row, ow_sec_score_width_class row).
Proof. unfold overview_row. by destruct (compute_owner_sec_score _ _ _ _ _) as [[[]]]. Qed.

Lemma no_overview ln exp owners ts : build_owners_view_model ln exp owners ts = None -> owners = [].
Proof. by destruct owners. Qed.

Section Emits.
  Context (render : Template -> result string string) (Hrender : forall t, exists html, render t = Ok html).
  Context (lc : string -> string) (parse_timestamp : string -> option Z) (date_text : Z -> string).
  Context (path_encode query_encode : string -> string) (ln exp : spec_float -> spec_float) (now : Z).

(** The view model of the owner's page. *)
Definition detail_of (ctx : OwnerDetailBuildContext) (o : AttributedOwner) : OwnerDetailViewModel :=
  snd (build_one_owner_detail_view_model lc parse_timestamp date_text path_encode query_encode ln exp now o ""
         (map control_column REPO_STATUS_DOT_CONTROLS) ctx).

Lemma detail_view_models owners ctx :
  build_owner_detail_view_models lc parse_timestamp date_text path_encode query_encode ln exp now owners ctx
  = map (fun o => (owner_slug owners o, detail_of ctx o)) owners.
Proof.
  unfold build_owner_detail_view_models. destruct (owner_slugs_ok owners) as [Hsome _]. revert Hsome.
  unfold owner_slug. generalize (owner_slugs owners) as m. intros m.
  induction owners as [|o l IH]; intros Hsome; [done|]. cbn.
  destruct (Hsome o ltac:(left)) as [s ->]. cbn. rewrite IH //. intros o' Ho'. apply Hsome. by right.
Qed.

Definition detail_context (evidence : EvidenceArtifact) (ts : CoverageTiers) (orphaned_vm : OrphanedViewModel)
    : OwnerDetailBuildContext :=
  mkDetailContext (build_owner_repo_map lc (ea_repositories evidence)) ts
    (am_organization (ea_assessment_metadata evidence)) (am_run_timestamp (ea_assessment_metadata evidence))
    (team_rosters (ea_metrics evidence)) (ov_by_team orphaned_vm).

(** The overview of the owners and their pages. *)
Definition owner_specs (evidence : EvidenceArtifact) (ts : CoverageTiers) (orphaned_vm : OrphanedViewModel)
    (nav : TopNav) (warm_start : bool) (owners : list AttributedOwner) : list PageSpec :=
  match build_owners_view_model ln exp owners ts with
  | None => []
  | Some vm =>
    text_of render "owners.html"
      (OwnersTemplate vm (total_repos_count (ea_collection_statistics evidence)) nav
         ("Owner Coverage — " +:+ am_organization (ea_assessment_metadata evidence)) warm_start)
    :: map (fun o =>
         text_of render (owner_page (owner_slug owners o))
           (OwnerDetailTemplate (detail_of (detail_context evidence ts orphaned_vm) o) (nested nav)
              (display_name (ao_metrics o) +:+ " — Owner Detail") warm_start)) owners
  end.

Definition dashboard_specs (owners : list PageSpec) : list PageSpec :=
  map any_text (["report.html"; "index.html"; "admin.html"] ++ static_paths) ++ owners ++
  map any_text (["orphans.html"; "deleted.html"]
    ++ map (fun entry => file_name (dd_page entry)) DENOMINATOR_DRILL_DOWNS
    ++ [file_name Page_AlertFree; file_name Page_LifecycleRetirement]).

Lemma dashboard_specs_paths evidence ts orphaned_vm nav warm_start owners :
  map fst (dashboard_specs (owner_specs evidence ts orphaned_vm nav warm_start owners))
  = dashboard_paths (slugs_of owners).
Proof.
  assert (forall l, map fst (map any_text l) = l) as Hany by (intros l; rewrite map_map; apply map_id).
  unfold dashboard_specs, dashboard_paths. rewrite !(map_app fst) !Hany -app_assoc. do 3 f_equal.
  rewrite slugs_of_map. unfold owner_specs, build_owners_view_model. destruct owners as [|o l]; [done|].
  cbn [map fst text_of]. do 2 f_equal. rewrite !map_map. by apply map_ext.
Qed.

Lemma emits_owner_pages evidence ts owners orphaned_vm nav warm_start :
  emits (match build_owners_view_model ln exp owners ts with
         | Some vm =>
           render_owner_pages render lc parse_timestamp date_text path_encode query_encode ln exp now evidence ts vm
             owners orphaned_vm nav warm_start
         | None => all_in_turn []
         end)
    (owner_specs evidence ts orphaned_vm nav warm_start owners).
Proof.
  unfold owner_specs. destruct (build_owners_view_model _ _ _ _) as [vm|].
  - unfold render_owner_pages. rewrite detail_view_models map_map.
    apply (emits_and_then _ _ [_]); [exact (emits_page render Hrender _ _)|]. apply emits_map. intros o.
    exact (emits_page render Hrender _ _).
  - intros pages. exists []. by rewrite app_nil_r.
Qed.

Lemma emits_secondary evidence ts orphaned_vm deleted_vm nav warm_start :
  N.of_nat (length (ea_repositories evidence)) <= u32_max ->
  emits (render_secondary_pages render parse_timestamp path_encode evidence ts orphaned_vm deleted_vm nav warm_start)
    (map any_text (["orphans.html"; "deleted.html"]
     ++ map (fun entry => file_name (dd_page entry)) DENOMINATOR_DRILL_DOWNS
     ++ [file_name Page_AlertFree; file_name Page_LifecycleRetirement])).
Proof.
  intros Hlen. apply (emits_all _ (map (map any_text) [["orphans.html"]; ["deleted.html"];
    map (fun entry => file_name (dd_page entry)) DENOMINATOR_DRILL_DOWNS; [file_name Page_AlertFree];
    [file_name Page_LifecycleRetirement]])).
  apply Forall2_cons_2; [exact (emits_any render Hrender _ _)|].
  apply Forall2_cons_2; [exact (emits_any render Hrender _ _)|].
  apply Forall2_cons_2.
  { rewrite (map_map _ any_text). apply emits_map. intros entry. exact (emits_any render Hrender _ _). }
  apply Forall2_cons_2.
  { intros pages. unfold render_alert_free_page. destruct (alert_free_page_builds path_encode evidence Hlen) as [v ->].
    exact (emits_any render Hrender _ _ pages). }
  apply Forall2_cons_2; [exact (emits_any render Hrender _ _)|apply Forall2_nil_2].
Qed.

Lemma emits_dashboard stylesheet ws_js favicon footer minute_text evidence config warm_start publication :
  N.of_nat (length (ea_repositories evidence)) <= u32_max ->
  let orphaned_vm := orphans_of lc parse_timestamp date_text path_encode evidence in
  let owners := attributed_owners_of evidence orphaned_vm in
  exists nav,
  emits (render_publication_streaming render stylesheet ws_js favicon footer lc parse_timestamp minute_text
    date_text path_encode query_encode ln exp now evidence config warm_start publication)
    (dashboard_specs (owner_specs evidence (tiers config) orphaned_vm nav warm_start owners)).
Proof.
  intros Hlen orphaned_vm owners. unfold render_publication_streaming. cbv zeta.
  destruct (update_warm_start _ _) as [vm_warm_start badge].
  destruct (compose_team_access_guidance _) as [guidance links].
  fold orphaned_vm. fold owners. eexists.
  match goal with |- emits _ (dashboard_specs ?o) => set (specs := o) end.
  assert (dashboard_specs specs
    = concat [map any_text ["report.html"; "index.html"; "admin.html"]; map any_text static_paths; specs;
        map any_text (["orphans.html"; "deleted.html"]
        ++ map (fun entry => file_name (dd_page entry)) DENOMINATOR_DRILL_DOWNS
        ++ [file_name Page_AlertFree; file_name Page_LifecycleRetirement])]) as ->.
  { unfold dashboard_specs. cbn [concat]. by rewrite app_nil_r (map_app any_text ["report.html"; "index.html"; "admin.html"]) -app_assoc. }
  apply emits_all. apply Forall2_cons_2; [by apply emits_main|].
  apply Forall2_cons_2.
  { apply (emits_all _ (map (fun p => [any_text p]) static_paths)). repeat (apply Forall2_cons_2; [apply emits_sink|]).
    apply Forall2_nil_2. }
  apply Forall2_cons_2; [exact (emits_owner_pages _ _ _ _ _ _)|].
  apply Forall2_cons_2; [by apply emits_secondary|apply Forall2_nil_2].
Qed.
End Emits.

(** ** Properties *)

Definition rendering_total (render : Template -> result string string) : Prop :=
  forall t, exists html, render t = Ok html.

(** What the page of the owner [m] shows: that owner; the repositories [m] owns
    with their dots and scores, once each where no repository names an owner
    twice; and for a team the members of the roster of that name, if there is
    one. *)
Definition shows_owner (lc : string -> string) (ts : CoverageTiers) (repos : list RepositoryEvidence)
    (rosters : list TeamRoster) (m : OwnerMetrics) (v : OwnerDetailViewModel) : Prop :=
  od_owner v = display_name m /\ od_owner_in_org v = owner_in_org m /\
  (Forall (fun r => NoDup (map lc (owners_of r))) repos ->
   Permutation (map (fun row => (rr_repo_name row, rr_controls row, rr_repo_score row)) (od_repo_rows v))
     (map (fun r => (repo_name (repository r), build_status_dots (checks r), compute_repo_score (checks r) ts))
        (List.filter (owns lc (owner m)) (active repos)))) /\
  if decide (owner_type m = User) then od_roster v = RosterNotApplicable
  else
    (exists r t, r ∈ rosters /\ eq_ignore_ascii_case (canonical_owner r) (owner m) = true /\
       od_roster v = RosterTeam t /\ Permutation (map tm_login (tv_members t)) (map login (members r))) \/
    ((forall r, r ∈ rosters -> eq_ignore_ascii_case (canonical_owner r) (owner m) = false) /\
     od_roster v = RosterUnresolved).

(** The row of the owner [m] links to the owner's page, and both show one score. *)
Definition links_to_page (render : Template -> result string string) (pages : Pages) (warm_start : bool) lc ts repos rosters (m : OwnerMetrics)
    (row : OwnerOverviewRow) : Prop :=
  ow_owner row = display_name m /\ ow_repo_count row = total_repos m /\
  exists v nav html, (owner_page (ow_slug row), html) ∈ pages /\
    render (OwnerDetailTemplate v nav (display_name m +:+ " — Owner Detail") warm_start) = Ok html /\
    shows_owner lc ts repos rosters m v /\
    od_sec_score v = (ow_sec_score row, ow_sec_score_formatted row, ow_sec_score_tier row, ow_sec_score_width_class row).

Lemma detail_shows lc parse_timestamp date_text path_encode query_encode ln exp now evidence ts orphaned_vm o :
  shows_owner lc ts (ea_repositories evidence) (team_rosters (ea_metrics evidence)) (ao_metrics o)
    (detail_of lc parse_timestamp date_text path_encode query_encode ln exp now
       (detail_context lc evidence ts orphaned_vm) o).
Proof.
  unfold shows_owner, detail_of, build_one_owner_detail_view_model.
  cbn [snd od_owner od_owner_in_org od_repo_rows od_roster detail_context cx_owner_repo_map cx_team_rosters].
  split_and!; [done|done| |].
  - intros Hnd. rewrite -(owner_map_repos lc _ (owner (ao_metrics o)) Hnd) /repos_at /sort_by_key sort_by_Permutation.
    destruct (build_owner_repo_map _ _ !! _) as [[n rs]|]; [|done]. by rewrite map_map.
  - case_decide as Hu; [by rewrite Hu|]. unfold roster_of. destruct (List.find _ _) as [r|] eqn:E; [left|right].
    + apply find_some in E as [Hr Hn]. exists r, (build_team_roster_view_model lc parse_timestamp path_encode now r).
      split_and!; [by apply list_elem_of_In|done|by destruct (owner_type _)|].
      unfold build_team_roster_view_model, sort_by_key. destruct (roster_status_display _) as [[? ?] ?].
      cbn [tv_members]. by rewrite sort_by_Permutation map_map.
    + split; [|by destruct (owner_type _)]. intros r Hr%list_elem_of_In. by apply (find_none _ _ E).
Qed.

(** C30: for the evidence of any collection, of no more repositories than a
    [u32] counts, if every template renders, the dashboard is built without an
    error and hands on exactly the fixed pages and one page for each owner, no
    path twice, so that collecting them loses none.  If there are owners, the
    overview of them is among the pages, and holds one row for each, in their
    order; the row links to the page of that owner, which shows that owner's
    repositories with their dots and scores, its roster, and the score of the
    row.  Every drill-down page is there. *)
Theorem dashboard_pages_exact render stylesheet ws_js favicon footer lc parse_timestamp minute_text date_text
    run_text path_encode query_encode ln exp now p config warm_start publication :
  rendering_total render -> N.of_nat (length (be_repositories p)) <= u32_max ->
  let evidence := build_evidence lc parse_timestamp date_text run_text p in
  let owners := attributed_owners_of evidence (orphans_of lc parse_timestamp date_text path_encode evidence) in
  exists pages,
    render_publication_streaming render stylesheet ws_js favicon footer lc parse_timestamp minute_text date_text
      path_encode query_encode ln exp now evidence config warm_start publication [] = (Ok (), pages) /\
    map fst pages = dashboard_paths (slugs_of owners) /\ NoDup (map fst pages) /\
    length (slugs_of owners) = length (owner_metrics (ea_metrics evidence)) /\
    match build_owners_view_model ln exp owners (tiers config) with
    | None => owner_metrics (ea_metrics evidence) = []
    | Some vm =>
      (exists total nav title html, ("owners.html", html) ∈ pages /\
         render (OwnersTemplate vm total nav title warm_start) = Ok html) /\
      Forall2 (links_to_page render pages warm_start lc (tiers config) (be_repositories p) (team_rosters (ea_metrics evidence)))
        (owner_metrics (ea_metrics evidence)) (os_rows vm)
    end /\
    (forall page, file_name page ∈ map fst pages).
Proof.
  intros Hrender Hlen evidence owners.
  assert (map ao_metrics owners = owner_metrics (ea_metrics evidence)) as Hmetrics by apply attribute_all_metrics.
  assert (NoDup (dashboard_paths (slugs_of owners))) as Hnd.
  { apply dashboard_paths_distinct, slugs_distinct. unfold owner_names.
    rewrite -(map_map ao_metrics display_name) Hmetrics. apply enriched_names. }
  destruct (emits_dashboard render Hrender lc parse_timestamp date_text path_encode query_encode ln exp now
    stylesheet ws_js favicon footer minute_text evidence config warm_start publication Hlen) as [nav Hemits].
  fold owners in Hemits. destruct (Hemits []) as (pages & Hrun & Hpages). exists pages.
  apply pages_paths in Hpages as Hpaths. rewrite dashboard_specs_paths in Hpaths.
  rewrite Hpaths. split_and!; [done|done|done|by rewrite slugs_of_length -Hmetrics length_map| |].
  - assert (forall spec, spec ∈ owner_specs render lc parse_timestamp date_text path_encode query_encode ln exp
        now evidence (tiers config) (orphans_of lc parse_timestamp date_text path_encode evidence) nav warm_start owners ->
      exists html, (fst spec, html) ∈ pages /\ snd spec html) as Htext.
    { intros spec Hin. apply (pages_text _ _ _ Hpages). unfold dashboard_specs. set_solver. }
    unfold owner_specs in Htext. destruct (build_owners_view_model ln exp owners (tiers config)) as [vm|] eqn:Hvm;
      [|by rewrite -Hmetrics (no_overview _ _ _ _ Hvm)]. split.
    + destruct (Htext _ ltac:(left)) as (html & Hin & Ht). eexists _, _, _, html; split; [exact Hin|exact Ht].
    + rewrite (overview_rows _ _ _ _ _ Hvm) -Hmetrics.
      apply Forall2_fmap_l, Forall2_fmap_r, Forall_Forall2_diag, Forall_forall. intros o Ho.
      destruct (Htext _ ltac:(right; apply (list_elem_of_fmap_2 _ _ _ Ho))) as (html & Hin & Ht).
      destruct (overview_row_shows ln exp (owner_slugs owners) (tiers config) o) as (R1 & R2 & R3 & R4).
      split; [exact R1|]. split; [exact R2|]. rewrite /links_to_page R3. eexists _, _, html.
      split_and!; [exact Hin|exact Ht|apply detail_shows|exact R4].
  - intros page. unfold dashboard_paths. rewrite !elem_of_app.
    assert (file_name page ∈ map (fun entry => file_name (dd_page entry)) DENOMINATOR_DRILL_DOWNS
            ++ [file_name Page_AlertFree; file_name Page_LifecycleRetirement]) as Hin.
    { apply (bool_decide_eq_true_1 _). by destruct page. }
    rewrite elem_of_app in Hin. tauto.
Qed.

Lemma dashboard_pages_exact_witness : with_sample_config (fun config =>
  let evidence := build_evidence to_ascii_lowercase (fun _ => None) (fun _ => "d") (fun _ => "t") (sample_build config) in
  exists pages vm,
    render_publication_streaming (fun _ => Ok "page") "css" "js" "svg" "footer" to_ascii_lowercase (fun _ => None)
      (fun _ => "m") (fun _ => "d") id id id id 0%Z evidence DashboardConfig_default true None [] = (Ok (), pages) /\
    NoDup (map fst pages) /\
    Forall2 (links_to_page (fun _ => Ok "page") pages true to_ascii_lowercase (tiers DashboardConfig_default)
        (be_repositories (sample_build config))
        (team_rosters (ea_metrics evidence)))
      (owner_metrics (ea_metrics evidence)) (os_rows vm) /\ map ow_owner (os_rows vm) = ["@Org/Team"]).
Proof.
  unfold with_sample_config.
  assert (is_some_and (fun _ => true) (ok (RuntimeConfig_new "acme" false 4 "/var/lib/gh-report")) = true)
    as Hok by (vm_compute; reflexivity).
  destruct (RuntimeConfig_new _ _ _ _) as [config|e]; [clear Hok|discriminate Hok].
  destruct (dashboard_pages_exact (fun _ => Ok "page") "css" "js" "svg" "footer" to_ascii_lowercase (fun _ => None)
    (fun _ => "m") (fun _ => "d") (fun _ => "t") id id id id 0%Z (sample_build config) DashboardConfig_default true None
    (fun t => ex_intro _ "page" eq_refl) sample_fleet_small) as (pages & Hrun & _ & Hnd & _ & Hvm & _).
  destruct (build_owners_view_model _ _ _ _) as [vm|] eqn:E; [|vm_compute in Hvm; discriminate Hvm].
  exists pages, vm. split; [exact Hrun|]. split; [exact Hnd|]. split; [exact (proj2 Hvm)|].
  rewrite (overview_rows _ _ _ _ _ E). vm_compute. reflexivity.
Defined.

(** ** A link that leads nowhere *)

(** A repository without owners whose last committer is in the team. *)
Definition sample_orphan : RepositoryEvidence :=
  let r := sample_owned "b" "@org/team" false in
  mkRepositoryEvidence (repository r)
    (mkRepositoryChecks (security_policy (checks r)) (secret_scanning (checks r))
       (dependabot_security_updates (checks r)) (branch_protection (checks r)) (COR_Absent "t"))
    (Some (mkLastCommitInfo (Some "dev") None None)) false.
Definition sample_roster : TeamRoster :=
  mkTeamRoster "@org/team" "team" TRS_Complete [mkTeamMember "dev" Member None] None.

(** The group of a team on the orphans' page links to the slug of the roster's
    name, in lower case; the team's page has the slug of the name as CODEOWNERS
    spells it.  With the spelling "@Org/Team" the link leads to no page. *)
Lemma orphan_group_link_dead :
  let repos := [sample_owned "a" "@Org/Team" false; sample_orphan] in
  let v := build_orphaned_view_model to_ascii_lowercase (fun _ => None) (fun _ => "d") id repos "org" "t" [sample_roster] in
  let owners := attribute_all (build_owner_metrics to_ascii_lowercase repos) (ov_by_team v) [sample_roster] in
  map og_slug (ov_by_team v) = ["org-team"] /\ slugs_of owners = ["Org-Team"] /\
  owner_page "org-team" ∉ dashboard_paths (slugs_of owners).
Proof.
  cbv zeta. split_and!; [by vm_compute|by vm_compute|].
  apply (bool_decide_eq_true_1 _). by vm_compute.
Qed.
