(* ===== verification/TableSort.v ===== *)
(** * Sorting the tables of the pages ([gh-report-web-client])

    The program that runs in the reader's browser makes the tables of the pages
    sortable: [sort.rs] decides how two cells compare, [dom.rs] wires the
    headers and reorders the rows.  A table is data here: its header cells, its
    rows with their cells, and what is written back to it.  Rust's reading of a
    floating-point number is written out ([parse_f64]).  The scheduler that runs
    an effect some time after the signal it reads has changed is a step of its
    own. *)

From S2P Require Import Prelude Str Metrics ViewModel OwnerPages.
From Stdlib Require Import Floats.SpecFloat.

Open Scope N_scope.

(** ** Reading a number: [str::parse::<f64>]

    [Sign? ( 'inf' | 'infinity' | 'nan' | Number )], where a number has at least
    one digit before or after its point and perhaps an exponent; the value is
    the nearest double. *)

Definition digit_of (c : Ascii.ascii) : option N :=
  let n := Ascii.N_of_ascii c in if in_range 48 57 n then Some (n - 48) else None.

(** The digits in front, read into [acc], how many they are, and the rest. *)
Fixpoint take_digits (acc count : N) (s : string) : N * N * string :=
  match s with
  | String c r =>
    match digit_of c with
    | Some d => take_digits (10 * acc + d) (count + 1) r
    | None => (acc, count, s)
    end
  | EmptyString => (acc, count, s)
  end.

(** [m * 10^e], rounded to the nearest double. *)
Definition f64_of_decimal (negative : bool) (m : N) (e : Z) : spec_float :=
  match m with
  | N0 => S754_zero negative
  | Npos m =>
    match e with
    | Z.neg p => SFdiv 53 1024 (S754_finite negative m 0) (S754_finite false (10 ^ p) 0)
    | _ => binary_round 53 1024 negative (Z.to_pos (Z.pos m * 10 ^ e)) 0
    end
  end.

Definition parse_exponent (s : string) : option Z :=
  match s with
  | EmptyString => Some 0%Z
  | String c r =>
    if bool_decide (lower_byte c = byte 101) then
      let '(negative, r) :=
        match strip_prefix "-" r, strip_prefix "+" r with
        | Some r, _ => (true, r)
        | None, Some r => (false, r)
        | None, None => (false, r)
        end in
      let '(n, count, rest) := take_digits 0 0 r in
      if (0 <? count) && is_empty rest
      then Some (if negative then - Z.of_N n else Z.of_N n)%Z
      else None
    else None
  end.

Definition parse_number (negative : bool) (s : string) : option spec_float :=
  let '(m, n1, s1) := take_digits 0 0 s in
  let '(m, n2, s2) :=
    match strip_prefix "." s1 with Some r => take_digits m 0 r | None => (m, 0, s1) end in
  if n1 + n2 =? 0 then None
  else option_map (fun e => f64_of_decimal negative m (e - Z.of_N n2)) (parse_exponent s2).

Definition parse_inf_nan (negative : bool) (s : string) : option spec_float :=
  if eq_ignore_ascii_case s "inf" || eq_ignore_ascii_case s "infinity"
  then Some (S754_infinity negative)
  else if eq_ignore_ascii_case s "nan" then Some S754_nan else None.

Definition parse_f64 (s : string) : option spec_float :=
  let '(negative, r) :=
    match strip_prefix "-" s, strip_prefix "+" s with
    | Some r, _ => (true, r)
    | None, Some r => (false, r)
    | None, None => (false, s)
    end in
  match parse_number negative r with
  | Some x => Some x
  | None => parse_inf_nan negative r
  end.

Example parse_f64_examples :
  map parse_f64 ["42"; "3.5"; ".5"; "5."; "1e2"; "-0"; "+7"; "."; "e5"; ""; "-"; "1e"; "-INF"; "NaN"; "1_0"]
  = [Some (f64_of_N 42); Some (f64_div (f64_of_N 7) (f64_of_N 2));
     Some (f64_div (f64_of_N 1) (f64_of_N 2)); Some (f64_of_N 5); Some (f64_of_N 100);
     Some (S754_zero true); Some (f64_of_N 7); None; None; None; None; None;
     Some (S754_infinity true); Some S754_nan; None].
Proof. vm_compute. reflexivity. Qed.

(** ** Comparing cells *)

Inductive SortType := Numeric | Date | Text | Status.
#[export] Instance SortType_eq_dec : EqDecision SortType.
Proof. solve_decision. Defined.

Inductive SortDirection := Ascending | Descending.
#[export] Instance SortDirection_eq_dec : EqDecision SortDirection.
Proof. solve_decision. Defined.

Definition toggled (d : SortDirection) : SortDirection :=
  match d with Ascending => Descending | Descending => Ascending end.

Definition parse_sort_type (attr : option string) : option SortType :=
  match attr with
  | Some a =>
    if bool_decide (a = "numeric") then Some Numeric
    else if bool_decide (a = "date") then Some Date
    else if bool_decide (a = "text") then Some Text
    else if bool_decide (a = "status") then Some Status
    else None
  | None => None
  end.

(** [s.trim_end_matches('%')]. *)
Definition trim_end_percent (s : string) : string :=
  String.rev (trim_with ["%"] (String.length s) (String.rev s)).

Definition neg_infinity : spec_float := S754_infinity true.

Definition parse_numeric (s : string) : option spec_float :=
  let trimmed := trim s in
  if is_empty trimmed then Some neg_infinity
  else
    let token := default trimmed (head (split_whitespace trimmed)) in
    let token := trim_end_percent token in
    if eq_ignore_ascii_case token "n/a" then Some neg_infinity
    else
      let cleaned := filter_bytes (fun c => negb (bool_decide (c = byte 44))) token in
      if is_empty cleaned then Some neg_infinity else parse_f64 cleaned.

Definition is_iso_date_prefix (s : string) : bool :=
  match map digit_of (map (fun n => default (byte 0) (String.get n s)) (List.seq 0 10)) with
  | [Some _; Some _; Some _; Some _; None; Some _; Some _; None; Some _; Some _] =>
    bool_decide (String.get 4 s = Some (byte 45)) && bool_decide (String.get 7 s = Some (byte 45))
  | _ => false
  end.

Definition detect_sort_type (cells : list string) : SortType :=
  let step '(saw_any, all_numeric, all_date) raw :=
    let trimmed := trim raw in
    if is_empty trimmed then (saw_any, all_numeric, all_date)
    else (true, all_numeric && bool_decide (is_Some (parse_numeric trimmed)),
          all_date && is_iso_date_prefix trimmed) in
  let '(saw_any, all_numeric, all_date) := fold_left step cells (false, true, true) in
  if negb saw_any then Text
  else if all_numeric then Numeric
  else if all_date then Date
  else Text.

(** [x.is_infinite() && x.is_sign_negative()]. *)
Definition is_neg_infinity (x : spec_float) : bool :=
  match x with S754_infinity s => s | _ => false end.

Definition compare_numeric (a b : string) : comparison :=
  match parse_numeric a, parse_numeric b with
  | Some x, Some y =>
    if is_neg_infinity x && is_neg_infinity y then String.compare a b
    else default Eq (SFcompare x y)
  | Some _, None => Gt
  | None, Some _ => Lt
  | None, None => String.compare a b
  end.

Inductive KnownStatus := KS_Fail | KS_Partial | KS_Pass.

Definition known_status (value : string) : option KnownStatus :=
  if bool_decide (value = "fail") then Some KS_Fail
  else if bool_decide (value = "partial") then Some KS_Partial
  else if bool_decide (value = "pass") then Some KS_Pass
  else None.

(** The derived order: that of the declaration. *)
Definition KnownStatus_rank (s : KnownStatus) : N :=
  match s with KS_Fail => 0 | KS_Partial => 1 | KS_Pass => 2 end.

Definition directed (ordering : comparison) (direction : SortDirection) : comparison :=
  match direction with Ascending => ordering | Descending => CompOpp ordering end.

Definition compare_status (a b : string) (direction : SortDirection) : comparison :=
  match known_status a, known_status b with
  | Some a, Some b => directed (KnownStatus_rank a ?= KnownStatus_rank b) direction
  | Some _, None => Lt
  | None, Some _ => Gt
  | None, None => Eq
  end.

Definition compare_cells_directed (a b : string) (sort_type : SortType)
    (direction : SortDirection) : comparison :=
  match sort_type with
  | Status => compare_status a b direction
  | Numeric => directed (compare_numeric a b) direction
  | Date | Text => directed (String.compare a b) direction
  end.

(** ** Tables and their wiring *)

Record Cell := mkCell {
  (** Whether [dyn_into::<HtmlElement>] succeeds. *)
  cell_is_html : bool;
  cell_sort_value : option string;
  cell_text_content : option string;
}.

(** A row of the body; [row_id] is the identity of its element. *)
Record Row := mkRow { row_id : N; row_cells : list Cell }.
#[export] Instance Cell_eq_dec : EqDecision Cell.
Proof. solve_decision. Defined.
#[export] Instance Row_eq_dec : EqDecision Row.
Proof. solve_decision. Defined.

Record HeaderCell := mkHeaderCell {
  th_is_html : bool;
  th_nosort : bool;
  th_sort_type : option string;
  th_aria_sort : option string;
}.

(** The first row of the table's head, if there is one, and its first body. *)
Record Table := mkTable { t_header : option (list HeaderCell); t_body : option (list Row) }.

Record SortState := mkSortState {
  column : N; direction : SortDirection; sort_type : SortType;
}.

Definition cell_at (r : Row) (column : N) : option Cell := row_cells r !! N.to_nat column.

Definition cell_text (r : Row) (column : N) : string :=
  match cell_at r column with
  | None => ""
  | Some cell =>
    if cell_is_html cell then
      match cell_sort_value cell with
      | Some v => v
      | None => default "" (cell_text_content cell)
      end
    else default "" (cell_text_content cell)
  end.

(** The text a row is sorted by. *)
Definition row_key (s : SortState) (r : Row) : string :=
  match sort_type s with
  | Status => default "" (cell_at r (column s) ≫= cell_sort_value)
  | Numeric | Date | Text => cell_text r (column s)
  end.

Definition resolve_sort_type (table : Table) (th : HeaderCell) (column : N) : SortType :=
  match parse_sort_type (th_sort_type th) with
  | Some t => t
  | None =>
    match t_body table with
    | None => Text
    | Some rows => detect_sort_type (map (fun r => cell_text r column) rows)
    end
  end.

(** [sort_by] with the comparator of the code: a stable sort, whose result is
    determined where the comparator is a total order. *)
Definition row_le (s : SortState) (r r' : Row) : Prop :=
  compare_cells_directed (row_key s r) (row_key s r') (sort_type s) (direction s) <> Gt.
#[export] Instance row_le_dec s : RelDecision (row_le s).
Proof. intros r r'. unfold row_le. solve_decision. Defined.

(** [tbody.append_child(row)], which the browser provides. *)
Class Dom := { append_child : list Row -> Row -> list Row }.

(** An element that is in the body already moves to its end. *)
Class DomLaws `{Dom} : Prop := {
  append_child_moves rows row : append_child rows row = filter (fun r => r <> row) rows ++ [row];
}.

Section Wiring.
Context {dom : Dom}.

Definition apply_sort (table : Table) (s : SortState) : Table :=
  match t_body table with
  | None => table
  | Some rows =>
    let texts := sort_by (row_le s) rows in
    mkTable (t_header table) (Some (fold_left append_child texts rows))
  end.

(** The value a header cell is to carry. *)
Definition aria_value (state : option SortState) (i : N) : string :=
  match state with
  | Some s =>
    if column s =? i then
      match direction s with Ascending => "ascending" | Descending => "descending" end
    else "none"
  | None => "none"
  end.

Definition sortable (th : HeaderCell) : bool := th_is_html th && negb (th_nosort th).

Definition reflect_aria_sort (table : Table) (state : option SortState) : Table :=
  let mark i th :=
    if sortable th then
      mkHeaderCell (th_is_html th) (th_nosort th) (th_sort_type th)
        (Some (aria_value state (N.of_nat i)))
    else th in
  mkTable (option_map (imap mark) (t_header table)) (t_body table).

(** A wired table: the signal, the listeners attached (the column and the sort
    type that each captured) and whether the effect has still to run. *)
Record Page := mkPage {
  page_table : Table;
  sort_state : option SortState;
  listeners : list (N * SortType);
  effect_pending : bool;
}.

(** [wire_table]; [Effect::new] schedules a first run. *)
Definition wire_table (table : Table) : Page :=
  match t_header table with
  | None => mkPage table None [] false
  | Some ths =>
    let listen i th :=
      if sortable th
      then Some (N.of_nat i, resolve_sort_type table th (N.of_nat i)) else None in
    mkPage table None (omap id (imap listen ths)) true
  end.

Definition toggle_sort_state (state : option SortState) (col : N) (t : SortType) : SortState :=
  let d :=
    match state with
    | Some s => if column s =? col then toggled (direction s) else Ascending
    | None => Ascending
    end in
  mkSortState col d t.

(** The body of the effect. *)
Definition run_effect (p : Page) : Page :=
  let table :=
    match sort_state p with Some s => apply_sort (page_table p) s | None => page_table p end in
  mkPage (reflect_aria_sort table (sort_state p)) (sort_state p) (listeners p) false.

Definition toggle_page (p : Page) (l : N * SortType) : Page :=
  mkPage (page_table p) (Some (toggle_sort_state (sort_state p) (fst l) (snd l))) (listeners p) true.

(** A click on a header, a key pressed on it, and the scheduler's run of the
    effect. *)
Inductive page_event := Click (l : N * SortType) | Keydown (l : N * SortType) (key : string) | Tick.

Inductive page_step : Page -> page_event -> Page -> Prop :=
| Step_click p l : l ∈ listeners p -> page_step p (Click l) (toggle_page p l)
| Step_key p l key : l ∈ listeners p ->
    page_step p (Keydown l key)
      (if bool_decide (key = "Enter" \/ key = " ") then toggle_page p l else p)
| Step_effect p : effect_pending p = true -> page_step p Tick (run_effect p).
End Wiring.

(** ** Comparators *)

(** What a three-way comparison owes: it tells equals apart from others, turns
    around with its arguments, and is transitive. *)
Class CmpLaws {A} (f : A -> A -> comparison) : Prop := {
  cmp_eq a b : f a b = Eq <-> a = b;
  cmp_anti a b : f b a = CompOpp (f a b);
  cmp_trans a b c : f a b <> Gt -> f b c <> Gt -> f a c <> Gt;
}.

Definition lex {A B} (f : A -> A -> comparison) (g : B -> B -> comparison)
    (p q : A * B) : comparison :=
  match f (fst p) (fst q) with Eq => g (snd p) (snd q) | c => c end.

#[export] Instance Z_cmp : CmpLaws Z.compare.
Proof.
  split; [apply Z.compare_eq_iff|intros; apply Z.compare_antisym|].
  intros a b c. rewrite !Z.compare_le_iff. lia.
Qed.

#[export] Instance String_cmp : CmpLaws String.compare.
Proof.
  split; [|intros; apply String.compare_antisym|apply string_compare_trans].
  intros a b. split; [apply String.compare_eq_iff|]. intros ->.
  pose proof (String.compare_antisym b b) as H. by destruct (String.compare b b).
Qed.

#[export] Instance lex_cmp {A B} (f : A -> A -> comparison) (g : B -> B -> comparison) :
  CmpLaws f -> CmpLaws g -> CmpLaws (lex f g).
Proof.
  intros Hf Hg. unfold lex. split.
  - intros [a b] [a' b']. simpl. destruct (f a a') eqn:E.
    + apply cmp_eq in E as ->. rewrite cmp_eq. naive_solver.
    + split; [done|]. intros [= -> ->]. by rewrite (proj2 (cmp_eq a' a')) in E.
    + split; [done|]. intros [= -> ->]. by rewrite (proj2 (cmp_eq a' a')) in E.
  - intros [a b] [a' b']. simpl. rewrite (cmp_anti a a'). destruct (f a a'); simpl; try done.
    apply cmp_anti.
  - intros [a b] [a' b'] [a'' b'']. simpl.
    pose proof (cmp_trans a a' a'') as Ht. pose proof (cmp_anti a' a'') as Hr.
    destruct (f a a') eqn:E1; [apply cmp_eq in E1 as ->| |done].
    { destruct (f a' a'') eqn:E2; try done. apply cmp_trans. }
    destruct (f a' a'') eqn:E2; [apply cmp_eq in E2 as ->; by rewrite E1| |done].
    destruct (f a a'') eqn:E3; [|done|by intros; apply Ht].
    apply cmp_eq in E3 as ->. by rewrite E1 in Hr.
Qed.

Lemma cmp_refl {A} (f : A -> A -> comparison) `{!CmpLaws f} a : f a a = Eq.
Proof. by apply cmp_eq. Qed.

(** The order that a direction gives. *)
Lemma directed_trans {A} (f : A -> A -> comparison) `{!CmpLaws f} d a b c :
  directed (f a b) d <> Gt -> directed (f b c) d <> Gt -> directed (f a c) d <> Gt.
Proof.
  destruct d; simpl; [apply cmp_trans|]. rewrite -!cmp_anti. intros H1 H2. by eapply cmp_trans.
Qed.

Lemma directed_anti {A} (f : A -> A -> comparison) `{!CmpLaws f} d a b :
  directed (f b a) d = CompOpp (directed (f a b) d).
Proof. rewrite (cmp_anti a b). by destruct d, (f a b). Qed.

(** ** The order of the cells, as an order of keys

    A float that is a number has a place: its class, then its exponent and
    mantissa. *)

Definition float_place (x : spec_float) : Z * (Z * Z) :=
  match x with
  | S754_infinity true => (-2, (0, 0))
  | S754_finite true m e => (-1, (- e, - Z.pos m))
  | S754_zero _ => (0, (0, 0))
  | S754_finite false m e => (1, (e, Z.pos m))
  | S754_infinity false => (2, (0, 0))
  | S754_nan => (3, (0, 0))
  end%Z.

Definition place_compare := lex Z.compare (lex Z.compare Z.compare).

Lemma SFcompare_place x y : x <> S754_nan -> y <> S754_nan ->
  SFcompare x y = Some (place_compare (float_place x) (float_place y)).
Proof.
  intros Hx Hy. destruct x as [sx|sx| |sx mx ex], y as [sy|sy| |sy my ey];
    try done; try (destruct sx; done); try (destruct sy; done); try (by destruct sx, sy).
  destruct sx, sy; try done; unfold place_compare, lex; simpl.
  rewrite (Z.compare_opp ex ey) (Z.compare_antisym ex ey). by destruct (ex ?= ey)%Z.
Qed.

(** The key of a cell: cells that read as a number have theirs, those that do
    not come below and are told apart by their text, as are those that stand
    for no number. *)
Definition cell_key (t : SortType) (d : SortDirection) (a : string) : Z * (Z * Z) * string :=
  match t with
  | Date | Text => (0, (0, 0), a)%Z
  | Numeric =>
    match parse_numeric a with
    | None => (-3, (0, 0), a)%Z
    | Some x => (float_place x, if is_neg_infinity x then a else "")
    end
  | Status =>
    match known_status a with
    | Some s =>
      let r := Z.of_N (KnownStatus_rank s) in
      ((match d with Ascending => r | Descending => 2 - r end)%Z, (0, 0)%Z, "")
    | None => (3, (0, 0), "")%Z
    end
  end.

Definition key_compare := lex place_compare String.compare.
#[export] Instance key_compare_cmp : CmpLaws key_compare.
Proof. apply _. Qed.

(** Whether a cell has a place in a column of the type. *)
Definition orderly (t : SortType) (a : string) : Prop :=
  t = Numeric -> parse_numeric a <> Some S754_nan.
#[export] Instance orderly_dec t a : Decision (orderly t a).
Proof. unfold orderly. apply _. Defined.

Definition key_direction (t : SortType) (d : SortDirection) : SortDirection :=
  match t with Status => Ascending | _ => d end.

Lemma compare_numeric_key d a b : orderly Numeric a -> orderly Numeric b ->
  compare_numeric a b = key_compare (cell_key Numeric d a) (cell_key Numeric d b).
Proof.
  intros Ha Hb. specialize (Ha eq_refl). specialize (Hb eq_refl).
  unfold compare_numeric, cell_key, key_compare, lex.
  destruct (parse_numeric a) as [x|] eqn:Ea, (parse_numeric b) as [y|] eqn:Eb; simpl.
  - destruct (is_neg_infinity x) eqn:Ix, (is_neg_infinity y) eqn:Iy; simpl.
    1: { destruct x as [|[]| |]; try done. by destruct y as [|[]| |]. }
    all: rewrite SFcompare_place; [|naive_solver..]; simpl.
    all: destruct (place_compare (float_place x) (float_place y)) eqn:E; try done.
    all: apply cmp_eq in E; by destruct x as [|[]| |[]], y as [|[]| |[]].
  - destruct x as [|[]| |[]]; try done; naive_solver.
  - destruct y as [|[]| |[]]; try done; naive_solver.
  - done.
Qed.

Lemma compare_cells_key t d a b : orderly t a -> orderly t b ->
  compare_cells_directed a b t d
  = directed (key_compare (cell_key t d a) (cell_key t d b)) (key_direction t d).
Proof.
  intros Ha Hb. destruct t; simpl.
  - by rewrite (compare_numeric_key d).
  - done.
  - done.
  - unfold compare_status, key_compare, lex, place_compare, lex.
    destruct (known_status a) as [[]|], (known_status b) as [[]|], d; done.
Qed.

(** ** The comparator orders the cells of a column *)

Lemma compare_cells_refl t d a : orderly t a -> compare_cells_directed a a t d = Eq.
Proof. intros Ha. rewrite compare_cells_key // cmp_refl. by destruct (key_direction t d). Qed.

Lemma compare_cells_anti t d a b : orderly t a -> orderly t b ->
  compare_cells_directed b a t d = CompOpp (compare_cells_directed a b t d).
Proof. intros Ha Hb. rewrite !compare_cells_key //. by apply directed_anti, _. Qed.

Lemma compare_cells_trans t d a b c : orderly t a -> orderly t b -> orderly t c ->
  compare_cells_directed a b t d <> Gt -> compare_cells_directed b c t d <> Gt ->
  compare_cells_directed a c t d <> Gt.
Proof. intros Ha Hb Hc. rewrite !compare_cells_key //. by apply directed_trans, _. Qed.

(** A cell that reads as the float NaN equals every number, so that the
    comparator is no order on such a column. *)
Lemma nan_breaks_the_order :
  compare_cells_directed "2" "nan" Numeric Ascending = Eq
  /\ compare_cells_directed "nan" "1" Numeric Ascending = Eq
  /\ compare_cells_directed "2" "1" Numeric Ascending = Gt.
Proof. vm_compute. split_and!; reflexivity. Qed.

(** A text that does not read as a number has no number: it sorts below every
    cell that stands for minus infinity, whatever their texts. *)
Lemma unparseable_below_na :
  parse_numeric "x" = None /\ parse_numeric "N/A" = Some neg_infinity
  /\ compare_numeric "x" "N/A" = Lt /\ String.compare "x" "N/A" = Gt.
Proof. vm_compute. split_and!; reflexivity. Qed.

(** Cells without a number come last when the column descends and first when it
    ascends. *)
Lemma no_number_below a b d x :
  parse_numeric b = Some x -> x <> S754_nan -> is_neg_infinity x = false ->
  (parse_numeric a = None \/ parse_numeric a = Some neg_infinity) ->
  compare_cells_directed a b Numeric d = directed Lt d.
Proof.
  intros Hb Hn Hi Ha. simpl. f_equal. unfold compare_numeric. rewrite Hb.
  destruct Ha as [-> | ->]; [done|]. rewrite Hi andb_false_r.
  by destruct x as [|[]| |].
Qed.

(** ** What the cells of a column say

    The reading of a cell as a number, the order of the cells of a column and
    the detection of a column's type, told without the functions above. *)

Inductive Reading := Unreadable | NoNumber | Number (x : spec_float).

(** [token] is [w] without the percent signs at its end. *)
Definition percent_off (w token : string) : Prop :=
  (exists p, w = token +:+ p /\ all_bytes (Ascii.eqb "%") p = true) /\
  forall t p, w = t +:+ p -> all_bytes (Ascii.eqb "%") p = true -> (String.length token <= String.length t)%nat.

Inductive commas_out : string -> string -> Prop :=
| CO_nil : commas_out "" ""
| CO_drop s t : commas_out s t -> commas_out (String "," s) t
| CO_keep c s t : c <> ","%char -> commas_out s t -> commas_out (String c s) (String c t).

(** The number that digits stand for; minus infinity is none. *)
Definition digits_read (digits : string) (r : Reading) : Prop :=
  if decide (digits = "") then r = NoNumber
  else match parse_f64 digits with
       | None => r = Unreadable
       | Some (S754_infinity true) => r = NoNumber
       | Some x => r = Number x
       end.

(** A cell is read from its first word. *)
Inductive reads_as (a : string) : Reading -> Prop :=
| RA_blank : trim a = "" -> reads_as a NoNumber
| RA_na w ws token :
    trim a <> "" -> split_whitespace (trim a) = w :: ws -> percent_off w token ->
    to_ascii_lowercase token = "n/a" -> reads_as a NoNumber
| RA_digits w ws token digits r :
    trim a <> "" -> split_whitespace (trim a) = w :: ws -> percent_off w token ->
    to_ascii_lowercase token <> "n/a" -> commas_out token digits -> digits_read digits r ->
    reads_as a r.

Definition text_before (a b : string) : Prop := String.compare a b <> Gt.

(** Numbers by their value, below them the cells without a number and below
    these the unreadable ones, each by their text. *)
Definition number_before (a b : string) : Prop :=
  exists r r', reads_as a r /\ reads_as b r' /\
  match r, r' with
  | Number x, Number y => SFleb x y = true
  | NoNumber, NoNumber | Unreadable, Unreadable => text_before a b
  | Unreadable, _ | NoNumber, Number _ => True
  | _, _ => False
  end.

Definition status_place (v : string) : option N :=
  if decide (v = "fail") then Some 0
  else if decide (v = "partial") then Some 1
  else if decide (v = "pass") then Some 2
  else None.

(** Known states by their place, and then the others. *)
Definition status_before (d : SortDirection) (a b : string) : Prop :=
  match status_place a, status_place b with
  | Some i, Some j => match d with Ascending => i <= j | Descending => j <= i end
  | None, Some _ => False
  | _, None => True
  end.

Definition cell_before (t : SortType) (d : SortDirection) (a b : string) : Prop :=
  match t, d with
  | Status, _ => status_before d a b
  | Numeric, Ascending => number_before a b
  | Numeric, Descending => number_before b a
  | (Date | Text), Ascending => text_before a b
  | (Date | Text), Descending => text_before b a
  end.

(** [dddd-dd-dd], and anything after it. *)
Definition iso_date (s : string) : Prop :=
  exists y m d rest, s = y +:+ "-" +:+ m +:+ "-" +:+ d +:+ rest /\
    String.length y = 4%nat /\ String.length m = 2%nat /\ String.length d = 2%nat /\
    all_bytes (fun c => in_range 48 57 (Ascii.N_of_ascii c)) (y +:+ m +:+ d) = true.

(** The type of a column of texts that does not declare one. *)
Definition detected (texts : list string) (t : SortType) : Prop :=
  let filled := List.filter (fun x => negb (is_empty x)) (map trim texts) in
  match t with
  | Numeric => filled <> [] /\ Forall (fun x => ~ reads_as x Unreadable) filled
  | Date => Exists (fun x => reads_as x Unreadable) filled /\ Forall iso_date filled
  | Text => filled = [] \/
      Exists (fun x => reads_as x Unreadable) filled /\ Exists (fun x => ~ iso_date x) filled
  | Status => False
  end.

(** *** Lemmas: the readings *)

Lemma percent_off_unique w t t' : percent_off w t -> percent_off w t' -> t = t'.
Proof.
  intros [(p & E & Hp) Hmin] [(p' & E' & Hp') Hmin'].
  apply (str_app_inj_length _ p _ p'); [by rewrite -E -E'|].
  pose proof (Hmin _ _ E' Hp'). pose proof (Hmin' _ _ E Hp). lia.
Qed.

Lemma commas_out_unique s t t' : commas_out s t -> commas_out s t' -> t = t'.
Proof.
  intros H. revert t'. induction H as [|s t _ IH|c s t Hc _ IH]; intros t' H'; inversion H'; subst; try done; auto.
  f_equal. auto.
Qed.

Lemma digits_read_unique digits r r' : digits_read digits r -> digits_read digits r' -> r = r'.
Proof. unfold digits_read. case_decide; [congruence|]. repeat case_match; congruence. Qed.

(** A cell reads one way. *)
Lemma reads_as_unique a r r' : reads_as a r -> reads_as a r' -> r = r'.
Proof.
  intros [E|w ws token Ht Hw Hp Hn|w ws token digits r0 Ht Hw Hp Hn Hc Hd]
    [E'|w' ws' token' Ht' Hw' Hp' Hn'|w' ws' token' digits' r0' Ht' Hw' Hp' Hn' Hc' Hd'];
    try done; rewrite Hw in Hw'; injection Hw' as <- <-;
    rewrite (percent_off_unique _ _ _ Hp' Hp) in Hn' *; try done.
  rewrite (percent_off_unique _ _ _ Hp' Hp) in Hc'. rewrite (commas_out_unique _ _ _ Hc' Hc) in Hd'.
  by eapply digits_read_unique.
Qed.

Lemma trim_with_shorter ws fuel s : (String.length (trim_with ws fuel s) <= String.length s)%nat.
Proof. destruct (trim_with_suffix ws fuel s) as [w E]. rewrite {2}E str_length_app. lia. Qed.

Lemma trim_percent_prefix fuel s : exists p, s = p +:+ trim_with ["%"] fuel s /\ all_bytes (Ascii.eqb "%") p = true.
Proof.
  revert s. induction fuel as [|fuel IH]; intros s; [by exists ""|]. cbn [trim_with].
  destruct (strip_any ["%"] s) as [r|] eqn:E; [|by exists ""].
  apply strip_any_Some in E as (w & ->%list_elem_of_singleton & ->). destruct (IH r) as (p & E & Hp).
  exists ("%" +:+ p). rewrite -str_app_assoc -E. by split.
Qed.

Lemma trim_percent_least fuel s t p : (String.length s <= fuel)%nat -> s = p +:+ t ->
  all_bytes (Ascii.eqb "%") p = true -> (String.length (trim_with ["%"] fuel s) <= String.length t)%nat.
Proof.
  revert s p. induction fuel as [|fuel IH]; intros s p Hf -> Hp; [cbn [trim_with]; lia|]. cbn [trim_with].
  destruct (strip_any ["%"] (p +:+ t)) as [r|] eqn:E.
  - apply strip_any_Some in E as (w & ->%list_elem_of_singleton & E). rewrite E str_length_app in Hf.
    destruct p as [|c p].
    + pose proof (trim_with_shorter ["%"] fuel r). change ("" +:+ t) with t in E. rewrite E str_length_app. lia.
    + injection E as _ E. apply (IH r p); [simpl in Hf; lia|done|].
      by apply andb_prop in Hp as [_ ?].
  - destruct p as [|c p]; [done|]. apply andb_prop in Hp as [<-%Ascii.eqb_eq _].
    by destruct (strip_any_None ["%"] "%" (p +:+ t) ltac:(left)).
Qed.

Lemma all_bytes_rev p s : all_bytes p (String.rev s) = all_bytes p s.
Proof.
  induction s as [|c s IH]; [done|]. change (String c s) with (String c EmptyString +:+ s).
  rewrite str_rev_app !all_bytes_app IH andb_comm. done.
Qed.

Lemma str_length_rev s : String.length (String.rev s) = String.length s.
Proof.
  induction s as [|c s IH]; [done|]. change (String c s) with (String c EmptyString +:+ s).
  rewrite str_rev_app !str_length_app IH. simpl. lia.
Qed.

Lemma trim_percent_spec w : percent_off w (trim_end_percent w).
Proof.
  unfold trim_end_percent. split.
  - destruct (trim_percent_prefix (String.length w) (String.rev w)) as (p & E & Hp). exists (String.rev p).
    rewrite all_bytes_rev -str_rev_app -E str_rev_involutive. done.
  - intros t p -> Hp. rewrite str_length_rev -(str_length_rev t).
    apply trim_percent_least with (p := String.rev p); rewrite ?str_length_rev ?all_bytes_rev ?str_rev_app; done.
Qed.

Lemma commas_filtered s : commas_out s (filter_bytes (fun c => negb (bool_decide (c = byte 44))) s).
Proof.
  induction s as [|c s IH]; [constructor|]. cbn [filter_bytes]. case_bool_decide as H; simpl.
  - subst c. by constructor.
  - by constructor.
Qed.

(** The reading of a parsed cell. *)
Definition reading_of (o : option spec_float) : Reading :=
  match o with
  | None => Unreadable
  | Some x => if is_neg_infinity x then NoNumber else Number x
  end.

Lemma parse_numeric_reads a : reads_as a (reading_of (parse_numeric a)).
Proof.
  unfold parse_numeric. destruct (is_empty (trim a)) eqn:Et; [apply RA_blank; by destruct (trim a)|].
  assert (trim a <> "") as Ha by (by destruct (trim a)).
  pose proof (split_whitespace_not_nil _ Ha (trim_no_leading a)) as Hs.
  destruct (split_whitespace (trim a)) as [|w ws] eqn:Ew; [done|]. cbn [head default from_option id].
  pose proof (trim_percent_spec w) as Hp. unfold eq_ignore_ascii_case.
  change (to_ascii_lowercase "n/a") with "n/a". case_bool_decide as Hn; [by eapply RA_na|].
  eapply RA_digits; [done..|apply commas_filtered|]. unfold digits_read.
  destruct (filter_bytes _ _) as [|c s]; [done|]. cbn [is_empty]. case_decide; [done|].
  destruct (parse_f64 _) as [[|[]| |]|]; done.
Qed.

Lemma reads_as_spec a r : reads_as a r <-> r = reading_of (parse_numeric a).
Proof. split; [intros H; eapply reads_as_unique; [done|]|intros ->]; apply parse_numeric_reads. Qed.

Lemma compare_numeric_before a b : orderly Numeric a -> orderly Numeric b ->
  compare_numeric a b <> Gt -> number_before a b.
Proof.
  intros Ha Hb H. specialize (Ha eq_refl). specialize (Hb eq_refl). eexists _, _.
  split; [apply parse_numeric_reads|]. split; [apply parse_numeric_reads|]. unfold compare_numeric in H.
  destruct (parse_numeric a) as [x|], (parse_numeric b) as [y|]; simpl; try done.
  - destruct (is_neg_infinity x) eqn:Ix, (is_neg_infinity y) eqn:Iy; simpl in *; try done.
    + destruct y as [|[]| |]; try done. by destruct x as [|[]| |[]].
    + unfold SFleb. rewrite SFcompare_place in H *; [|naive_solver..]. simpl in H.
      by destruct (place_compare _ _).
  - by destruct (is_neg_infinity y).
Qed.

Lemma status_place_spec v : status_place v = option_map KnownStatus_rank (known_status v).
Proof.
  destruct (decide (v = "fail")) as [->|H1]; [reflexivity|].
  destruct (decide (v = "partial")) as [->|H2]; [reflexivity|].
  destruct (decide (v = "pass")) as [->|H3]; [reflexivity|].
  unfold status_place, known_status. by rewrite !decide_False // !bool_decide_eq_false_2.
Qed.

Lemma compare_cells_before t d a b : orderly t a -> orderly t b ->
  compare_cells_directed a b t d <> Gt -> cell_before t d a b.
Proof.
  intros Ha Hb. destruct t; simpl.
  - destruct d; simpl; [by apply compare_numeric_before|]. intros H. apply compare_numeric_before; [done..|].
    pose proof (compare_cells_anti Numeric Ascending a b Ha Hb) as E. simpl in E. by rewrite E.
  - destruct d; simpl; [done|]. unfold text_before. by rewrite (cmp_anti a b).
  - destruct d; simpl; [done|]. unfold text_before. by rewrite (cmp_anti a b).
  - unfold status_before, compare_status. rewrite !status_place_spec.
    destruct (known_status a) as [[]|], (known_status b) as [[]|], d; simpl; try done; lia.
Qed.

(** *** Lemmas: the detection of a type *)

Section IsoDate.
Lemma digit_of_spec c : in_range 48 57 (Ascii.N_of_ascii c) = bool_decide (is_Some (digit_of c)).
Proof. unfold digit_of. by destruct (in_range _ _ _). Qed.

#[local] Arguments digit_of : simpl never.
#[local] Arguments in_range : simpl never.
#[local] Arguments byte : simpl never.
#[local] Arguments Ascii.N_of_ascii : simpl never.

Lemma iso_date_spec x : iso_date x <-> is_iso_date_prefix x = true.
Proof.
  unfold is_iso_date_prefix. cbn [List.seq map]. split.
  - intros (y & m & d & rest & -> & Hy & Hm & Hd & Hall).
    destruct y as [|c0 [|c1 [|c2 [|c3 [|]]]]]; try discriminate Hy.
    destruct m as [|c5 [|c6 [|]]]; try discriminate Hm.
    destruct d as [|c8 [|c9 [|]]]; try discriminate Hd.
    change "-" with (String (byte 45) ""). lazy [String.append] in *. simpl in *. rewrite !digit_of_spec !andb_true_iff !bool_decide_eq_true in Hall.
    destruct (digit_of c0), (digit_of c1), (digit_of c2), (digit_of c3), (digit_of c5), (digit_of c6),
      (digit_of c8), (digit_of c9); try (exfalso; unfold is_Some in Hall; naive_solver). done.
  - intros H.
    destruct x as [|c0 [|c1 [|c2 [|c3 [|c4 [|c5 [|c6 [|c7 [|c8 [|c9 rest]]]]]]]]]];
      simpl in H; change (digit_of (byte 0)) with (@None N) in H;
      repeat match type of H with
        | context [digit_of ?c] => let E := fresh "E" in destruct (digit_of c) eqn:E
        end; try discriminate H.
    apply andb_prop in H as [[= ->]%bool_decide_eq_true [= ->]%bool_decide_eq_true].
    exists (String c0 (String c1 (String c2 (String c3 "")))), (String c5 (String c6 "")),
      (String c8 (String c9 "")), rest.
    split_and!; [reflexivity..|]. lazy [String.append]. cbn [all_bytes].
    by rewrite !digit_of_spec E E0 E1 E2 E4 E5 E7 E8.
Qed.

End IsoDate.

Lemma detect_fold texts saw num date :
  fold_left (fun '(saw_any, all_numeric, all_date) raw =>
      let trimmed := trim raw in
      if is_empty trimmed then (saw_any, all_numeric, all_date)
      else (true, all_numeric && bool_decide (is_Some (parse_numeric trimmed)),
            all_date && is_iso_date_prefix trimmed)) texts (saw, num, date)
  = let filled := List.filter (fun x => negb (is_empty x)) (map trim texts) in
    (saw || negb (bool_decide (filled = [])),
     num && forallb (fun x => bool_decide (is_Some (parse_numeric x))) filled,
     date && forallb is_iso_date_prefix filled).
Proof.
  revert saw num date. induction texts as [|a texts IH]; intros saw num date; cbn [fold_left map List.filter].
  - by rewrite !andb_true_r orb_false_r.
  - destruct (is_empty (trim a)) eqn:E; cbn [negb]; [apply IH|]. rewrite IH. cbv zeta. cbn [forallb].
    rewrite !andb_assoc (bool_decide_eq_false_2 (_ :: _ = [])) //= orb_true_r.
    done.
Qed.

Lemma unreadable_spec x : reads_as x Unreadable <-> parse_numeric x = None.
Proof. rewrite reads_as_spec. destruct (parse_numeric x) as [y|]; simpl; [by destruct (is_neg_infinity y)|done]. Qed.

Lemma Exists_unreadable l : Exists (fun x => reads_as x Unreadable) l <->
  forallb (fun x => bool_decide (is_Some (parse_numeric x))) l = false.
Proof.
  induction l as [|x l IH]; simpl; [rewrite Exists_nil; done|]. rewrite Exists_cons IH unreadable_spec.
  destruct (parse_numeric x); simpl; naive_solver.
Qed.

Lemma Forall_readable l : Forall (fun x => ~ reads_as x Unreadable) l <->
  forallb (fun x => bool_decide (is_Some (parse_numeric x))) l = true.
Proof.
  induction l as [|x l IH]; simpl; [by rewrite Forall_nil|]. rewrite Forall_cons IH unreadable_spec.
  destruct (parse_numeric x); simpl; naive_solver.
Qed.

Lemma Forall_iso l : Forall iso_date l <-> forallb is_iso_date_prefix l = true.
Proof.
  induction l as [|x l IH]; simpl; [by rewrite Forall_nil|]. by rewrite Forall_cons IH iso_date_spec andb_true_iff.
Qed.

Lemma Exists_not_iso l : Exists (fun x => ~ iso_date x) l <-> forallb is_iso_date_prefix l = false.
Proof.
  induction l as [|x l IH]; simpl; [by rewrite Exists_nil|].
  rewrite Exists_cons IH iso_date_spec andb_false_iff not_true_iff_false. done.
Qed.

Lemma detect_spec texts t : detected texts t <-> t = detect_sort_type texts.
Proof.
  unfold detected, detect_sort_type. rewrite (detect_fold texts false true true). cbv zeta.
  set (filled := List.filter _ _). cbn [orb andb].
  pose proof (Exists_unreadable filled) as H1. pose proof (Exists_not_iso filled) as H2.
  pose proof (Forall_readable filled) as H3. pose proof (Forall_iso filled) as H4.
  case_bool_decide as Hf; cbn [negb].
  - rewrite Hf in H1 H2 H3 H4 |- *. destruct t; simpl in *; naive_solver.
  - destruct (forallb (fun x => _) filled), (forallb is_iso_date_prefix filled), t; naive_solver.
Qed.

(** ** Reordering the rows *)

Section Wired.
Context {dom : Dom} {dom_laws : DomLaws}.

Lemma append_children ts rows :
  NoDup ts -> fold_left append_child ts rows = filter (fun r => r ∉ ts) rows ++ ts.
Proof.
  intros Hd. revert rows. induction Hd as [|t ts Ht Hd IH]; intros rows; simpl.
  - rewrite app_nil_r. symmetry.
    induction rows as [|r rows IHr]; [done|]. rewrite filter_cons_True; [|set_solver]. by f_equal.
  - rewrite IH append_child_moves filter_app list_filter_filter filter_cons_True // filter_nil.
    rewrite -app_assoc /=. f_equal. apply list_filter_iff. intros r. set_solver.
Qed.

Lemma apply_sort_body table s rows :
  t_body table = Some rows -> NoDup rows ->
  t_body (apply_sort table s) = Some (sort_by (row_le s) rows).
Proof.
  intros Hb Hd. unfold apply_sort. rewrite Hb /=. f_equal.
  rewrite append_children; [|by rewrite sort_by_Permutation].
  rewrite (_ : filter _ rows = []) //.
  assert (forall r, r ∈ rows -> r ∈ sort_by (row_le s) rows) as Hin.
  { intros r. by rewrite sort_by_Permutation. }
  revert Hin. generalize (sort_by (row_le s) rows). intros ts Hin. clear Hb Hd.
  induction rows as [|r rows IH]; [done|].
  rewrite filter_cons_False; [|intros Hni; by apply Hni, Hin, list_elem_of_here].
  apply IH. intros r' Hr'. by apply Hin, list_elem_of_further.
Qed.

Lemma sorted_rows s rows :
  Forall (fun r => orderly (sort_type s) (row_key s r)) rows ->
  StronglySorted (row_le s) (sort_by (row_le s) rows).
Proof.
  intros Ho. eapply sort_by_sorted_on; [| |exact Ho]; unfold row_le; cbn beta.
  - intros r r' Hr Hr'. rewrite (compare_cells_anti _ _ _ (row_key s r')) //.
    destruct (compare_cells_directed _ _ _ _); naive_solver.
  - intros r r' r'' Hr Hr' Hr''. by apply compare_cells_trans.
Qed.

(** Rows whose cells tie keep their order. *)
Lemma sorted_rows_stable s rows k :
  let tied r := bool_decide (orderly (sort_type s) (row_key s r)
    /\ cell_key (sort_type s) (direction s) (row_key s r) = k) in
  List.filter tied (sort_by (row_le s) rows) = List.filter tied rows.
Proof.
  intros tied. apply sort_by_stable. intros r r' Hr%bool_decide_eq_true Hr'%bool_decide_eq_true.
  destruct Hr as [Ho Hk], Hr' as [Ho' Hk']. unfold row_le.
  rewrite compare_cells_key // Hk Hk' cmp_refl. by destruct (key_direction _ _).
Qed.

(** ** What the reader sees *)

(** The text a row shows in a column of the type. *)
Definition shown_text (t : SortType) (c : N) (r : Row) : string :=
  match row_cells r !! N.to_nat c with
  | None => ""
  | Some cell =>
    match t with
    | Status => match cell_sort_value cell with Some v => v | None => "" end
    | _ =>
      match (if cell_is_html cell then cell_sort_value cell else None), cell_text_content cell with
      | Some v, _ | None, Some v => v
      | None, None => ""
      end
    end
  end.

Definition declared (th : HeaderCell) : option SortType :=
  if decide (th_sort_type th = Some "numeric") then Some Numeric
  else if decide (th_sort_type th = Some "date") then Some Date
  else if decide (th_sort_type th = Some "text") then Some Text
  else if decide (th_sort_type th = Some "status") then Some Status
  else None.

(** The header of the column is sortable, and sorts by the type it declares, or
    else by the type its column had when the page was loaded. *)
Definition sorts_by (ths : list HeaderCell) (rows : list Row) (c : N) (t : SortType) : Prop :=
  exists th, ths !! N.to_nat c = Some th /\ th_is_html th = true /\ th_nosort th = false /\
    match declared th with
    | Some t' => t = t'
    | None => detected (map (shown_text Text c) rows) t
    end.

(** What the reader did: the headers that were clicked, or on which Enter or the
    space bar was pressed. *)
Definition activation (e : page_event) : option (N * SortType) :=
  match e with
  | Click l => Some l
  | Keydown l key => if decide (key = "Enter" \/ key = " ") then Some l else None
  | Tick => None
  end.

(** How often, latest first, one column was activated in a row. *)
Fixpoint streak (c : N) (latest_first : list (N * SortType)) : nat :=
  match latest_first with
  | (c', _) :: rest => if decide (c' = c) then S (streak c rest) else O
  | [] => O
  end.

(** The column activated last, ascending at first and turned around by each
    further activation of it. *)
Definition chosen (es : list page_event) : option SortState :=
  let latest_first := rev (omap activation es) in
  match latest_first with
  | [] => None
  | (c, t) :: _ =>
    Some (mkSortState c (if Nat.odd (streak c latest_first) then Ascending else Descending) t)
  end.

(** What the header of a column says of the state. *)
Definition says (state : option SortState) (c : N) : string :=
  let at_column := option_map (fun s => (column s, direction s)) state in
  if decide (at_column = Some (c, Ascending)) then "ascending"
  else if decide (at_column = Some (c, Descending)) then "descending"
  else "none".

Inductive page_run : Page -> list page_event -> Page -> Prop :=
| Run_nil p : page_run p [] p
| Run_cons p e p' es p'' : page_step p e p' -> page_run p' es p'' -> page_run p (e :: es) p''.

(** The table shows [state]: the rows are in its order, and each sortable header
    says so. *)
Definition shows (rows : list Row) (state : option SortState) (p : Page) : Prop :=
  (exists rows', t_body (page_table p) = Some rows' /\
     match state with
     | Some s =>
       StronglySorted (fun r r' => cell_before (sort_type s) (direction s)
         (shown_text (sort_type s) (column s) r) (shown_text (sort_type s) (column s) r')) rows'
     | None => rows' = rows
     end) /\
  (forall ths i th, t_header (page_table p) = Some ths -> ths !! i = Some th ->
     th_is_html th = true -> th_nosort th = false ->
     th_aria_sort th = Some (says state (N.of_nat i))).

Record page_ok (table : Table) (rows : list Row) (past : list page_event) (p : Page) : Prop := {
  ok_body : exists rows', t_body (page_table p) = Some rows' /\ Permutation rows' rows;
  ok_listeners : listeners p = listeners (wire_table table);
  ok_state : sort_state p = chosen past;
  ok_listened : forall s, sort_state p = Some s -> (column s, sort_type s) ∈ listeners p;
  ok_unsorted : sort_state p = None -> t_body (page_table p) = Some rows;
  ok_shown : effect_pending p = false -> shows rows (sort_state p) p;
}.

Definition columns_orderly (table : Table) (rows : list Row) : Prop :=
  forall l r d, l ∈ listeners (wire_table table) -> r ∈ rows ->
    orderly (snd l) (row_key (mkSortState (fst l) d (snd l)) r).

Lemma row_key_shown s r : row_key s r = shown_text (sort_type s) (column s) r.
Proof.
  unfold row_key, shown_text, cell_text, cell_at.
  destruct (sort_type s), (row_cells r !! N.to_nat (column s)) as [[[] [] []]|]; done.
Qed.

Lemma says_aria state c : says state c = aria_value state c.
Proof.
  unfold says, aria_value. destruct state as [s|]; [|done]. simpl.
  destruct (N.eqb_spec (column s) c), (direction s) eqn:?; repeat case_decide; congruence.
Qed.

Lemma chosen_snoc past e :
  chosen (past ++ [e]) = match activation e with
                         | Some l => Some (toggle_sort_state (chosen past) (fst l) (snd l))
                         | None => chosen past
                         end.
Proof.
  unfold chosen. rewrite omap_app rev_app_distr. simpl.
  destruct (activation e) as [[c t]|]; [|done]. simpl. rewrite decide_True //.
  unfold toggle_sort_state. destruct (rev (omap activation past)) as [|[c' t'] l]; [done|].
  cbn [fst snd column direction]. destruct (N.eqb_spec c' c) as [->|Hne].
  - rewrite Nat.odd_succ -Nat.negb_odd. by destruct (Nat.odd _).
  - cbn [streak]. by rewrite decide_False.
Qed.

Lemma declared_spec th : declared th = parse_sort_type (th_sort_type th).
Proof.
  unfold declared, parse_sort_type. destruct (th_sort_type th) as [a|]; [|done].
  by repeat (case_decide; case_bool_decide; try congruence).
Qed.

Lemma listeners_spec table ths rows c t :
  t_header table = Some ths -> t_body table = Some rows ->
  (c, t) ∈ listeners (wire_table table) <-> sorts_by ths rows c t.
Proof.
  intros Hh Hb. unfold wire_table. rewrite Hh. cbn [listeners]. unfold sorts_by.
  assert (forall th, (t = resolve_sort_type table th c) <->
    match declared th with Some t' => t = t' | None => detected (map (shown_text Text c) rows) t end) as Hres.
  { intros th. unfold resolve_sort_type. rewrite declared_spec Hb. destruct (parse_sort_type _); [done|].
    rewrite detect_spec (map_ext (fun r => cell_text r c) (shown_text Text c)); [done|]. intros r.
    exact (row_key_shown (mkSortState c Ascending Text) r). }
  rewrite list_elem_of_omap. split.
  - intros (o & Ho & E). simpl in E. subst o. apply list_elem_of_lookup_1 in Ho as [i Hi].
    rewrite list_lookup_imap in Hi. destruct (ths !! i) as [th|] eqn:Et; [|done]. simpl in Hi.
    unfold sortable in Hi. destruct (th_is_html th) eqn:E1, (th_nosort th) eqn:E2; try done.
    injection Hi as Hc Ht. exists th. rewrite -Hc Nat2N.id. split_and!; [done..|].
    rewrite -Hc in Hres. by apply Hres.
  - intros (th & Hth & E1 & E2 & Ht%Hres). exists (Some (c, t)). split; [|done].
    apply list_elem_of_lookup. exists (N.to_nat c). rewrite list_lookup_imap Hth /= N2Nat.id.
    unfold sortable. by rewrite E1 E2 -Ht.
Qed.

Lemma reflect_headers table state ths i th :
  t_header (reflect_aria_sort table state) = Some ths -> ths !! i = Some th ->
  th_is_html th = true -> th_nosort th = false ->
  th_aria_sort th = Some (says state (N.of_nat i)).
Proof.
  unfold reflect_aria_sort. simpl. destruct (t_header table) as [ths0|]; [|done].
  intros [= <-]. rewrite list_lookup_imap says_aria. destruct (ths0 !! i) as [th0|]; [|done].
  intros [= <-]. unfold sortable. destruct (th_is_html th0) eqn:E1, (th_nosort th0) eqn:E2; simpl; congruence.
Qed.

Lemma toggle_page_ok table rows past p l e :
  activation e = Some l -> page_ok table rows past p -> l ∈ listeners p ->
  page_ok table rows (past ++ [e]) (toggle_page p l).
Proof.
  intros He [Hb Hl Hs Hi Hu Hv] Hin. split; simpl; try done.
  - by rewrite chosen_snoc He Hs.
  - intros s [= <-]. unfold toggle_sort_state. simpl. by destruct l.
Qed.

Lemma idle_page_ok table rows past p e :
  activation e = None -> page_ok table rows past p -> page_ok table rows (past ++ [e]) p.
Proof. intros He [Hb Hl Hs Hi Hu Hv]. split; try done. by rewrite chosen_snoc He. Qed.

Lemma run_effect_ok table rows past p :
  NoDup rows -> columns_orderly table rows -> page_ok table rows past p ->
  page_ok table rows past (run_effect p).
Proof.
  intros Hd Ho [(rows' & Hb & Hp) Hl Hs Hi Hu Hv].
  assert (NoDup rows') as Hd' by (by rewrite Hp).
  unfold run_effect. destruct (sort_state p) as [s|] eqn:Es; simpl.
  - specialize (Hi s eq_refl). split; simpl; rewrite ?(apply_sort_body _ _ _ Hb Hd').
    + eexists. split; [done|]. by rewrite sort_by_Permutation.
    + done.
    + done.
    + by intros ? [= <-].
    + done.
    + intros _. split; simpl; rewrite ?(apply_sort_body _ _ _ Hb Hd').
      * eexists. split; [done|].
        assert (Forall (fun r => orderly (sort_type s) (row_key s r)) (sort_by (row_le s) rows')) as Hord.
        { rewrite Forall_forall. intros r Hr. rewrite sort_by_Permutation Hp in Hr. rewrite Hl in Hi.
          pose proof (Ho _ r (direction s) Hi Hr). by destruct s. }
        pose proof Hord as Hord'. rewrite sort_by_Permutation in Hord'. apply sorted_rows in Hord'.
        revert Hord Hord'. generalize (sort_by (row_le s) rows'). intros l Hord Hsorted.
        induction Hsorted as [|r l Hsorted IH Hr]; [constructor|]. apply Forall_cons in Hord as [H1 H2].
        constructor; [by apply IH|]. rewrite !Forall_forall in H2 Hr *. intros r' Hr'.
        rewrite -!row_key_shown. by apply compare_cells_before; [|apply H2|apply Hr].
      * exact (reflect_headers (apply_sort (page_table p) s) (Some s)).
  - split; simpl; try done.
    + by exists rows'.
    + intros _. split; simpl; [|exact (reflect_headers (page_table p) None)].
      exists rows. by rewrite Hu.
Qed.

Lemma page_run_ok table rows past p es p' :
  NoDup rows -> columns_orderly table rows -> page_ok table rows past p -> page_run p es p' ->
  page_ok table rows (past ++ es) p'.
Proof.
  intros Hd Ho Hok Hr. revert past Hok. induction Hr as [p|p e p' es p'' He _ IH]; intros past Hok.
  { by rewrite app_nil_r. }
  rewrite (app_assoc past [e] es : past ++ e :: es = _). apply IH.
  destruct He as [p l Hl|p l key Hl|p Hpend].
  - by apply toggle_page_ok.
  - case_bool_decide as Hk.
    + apply toggle_page_ok; [by rewrite /= decide_True|done|done].
    + apply idle_page_ok; [by rewrite /= decide_False|done].
  - apply idle_page_ok; [done|]. by apply run_effect_ok.
Qed.

(** C32: a table shows the sort that the reader chose.  The headers that react
    are the sortable ones, each sorting by the type it declares or else the type
    its cells had.  Whatever the reader does, the rows are the rows of the table,
    each once.  Once the effect of the last click or key has run, they are in the
    order of the column activated last: ascending the first time, turned around
    each time it is activated again in a row; numbers by their value, with cells
    without a number below them and unreadable ones below these, states by their
    place with the unknown ones last either way, anything else as text; before
    any activation the rows are as they were.  (The table has a header row and a
    body, whose rows are distinct elements.)  Each sortable header then says in
    [aria-sort] whether it is sorted by, and how.  It is assumed that no cell of
    a column sorted by number reads as the float NaN, which has no place in any
    order ([nan_breaks_the_order]).  Of unreadable cells the documentation says
    both that they count as minus infinity and that ties among them and the
    cells without a number are broken by their text; the order here is the
    code's ([unparseable_below_na]). *)
Theorem table_shows_its_state table rows ths es p :
  t_header table = Some ths -> t_body table = Some rows -> NoDup rows ->
  (forall c r, sorts_by ths rows c Numeric -> r ∈ rows -> ~ reads_as (shown_text Numeric c r) (Number S754_nan)) ->
  page_run (wire_table table) es p ->
  (forall c t, (c, t) ∈ listeners p <-> sorts_by ths rows c t) /\
  (exists rows', t_body (page_table p) = Some rows' /\ Permutation rows' rows) /\
  (effect_pending p = false -> shows rows (chosen es) p).
Proof.
  intros Hh Hb Hd Hn Hr.
  assert (columns_orderly table rows) as Ho.
  { intros [c t] r d Hl Hin Ht. simpl in Ht |- *. subst t. rewrite row_key_shown. intros E.
    apply (Hn c r); [by apply (listeners_spec table)|done|]. apply reads_as_spec. by rewrite E. }
  assert (page_ok table rows [] (wire_table table)) as Hinit.
  { unfold wire_table. rewrite Hh. split; simpl; try done; [by exists rows|].
    unfold wire_table. by rewrite Hh. }
  destruct (page_run_ok _ _ _ _ _ _ Hd Ho Hinit Hr) as [H1 H2 H3 _ _ H6]. simpl in H3. split_and!.
  - intros c t. rewrite H2. by apply listeners_spec.
  - done.
  - by rewrite -H3.
Qed.

End Wired.

(** ** A table of three rows *)

Definition browser : Dom := {| append_child rows row := filter (fun r => r <> row) rows ++ [row] |}.
Lemma browser_laws : @DomLaws browser.
Proof. split. done. Qed.
#[local] Existing Instance browser.
#[local] Existing Instance browser_laws.

Definition sample_cell (text : string) : Cell := mkCell true None (Some text).
Definition sample_row (i : N) (text : string) : Row := mkRow i [sample_cell text].
Definition sample_table : Table :=
  mkTable (Some [mkHeaderCell true false None None])
    (Some [sample_row 0 "50% (1/2)"; sample_row 1 "N/A (0/0)"; sample_row 2 "9% (1/11)"]).

(** Two clicks, or a click and a key, sort by number and descend. *)
Lemma table_shows_its_state_witness :
  let l := (0, Numeric) in
  let p := run_effect (toggle_page (run_effect (toggle_page (wire_table sample_table) l)) l) in
  let rows := default [] (t_body sample_table) in
  option_map (map row_id) (t_body (page_table p)) = Some [0; 2; 1] /\
  shows rows (Some (mkSortState 0 Descending Numeric)) p.
Proof.
  intros l p rows. split; [vm_compute; reflexivity|].
  destruct (table_shows_its_state sample_table rows (default [] (t_header sample_table))
    [Click l; Tick; Keydown l "Enter"; Tick] p) as (_ & _ & H).
  - reflexivity.
  - reflexivity.
  - apply (bool_decide_unpack _). vm_compute. exact I.
  - intros c r (th & Hth & _) Hr H%reads_as_spec.
    destruct (N.to_nat c) as [|n] eqn:Ec; [|by destruct n].
    assert (c = 0) as -> by lia.
    assert (forallb (fun r => bool_decide (parse_numeric (shown_text Numeric 0 r) <> Some S754_nan)) rows = true)
      as Hall by (vm_compute; reflexivity).
    rewrite forallb_forall in Hall. apply list_elem_of_In, Hall, bool_decide_eq_true in Hr.
    destruct (parse_numeric _) as [x|]; [|done]. simpl in H. destruct (is_neg_infinity x); congruence.
  - eapply Run_cons; [apply Step_click; by apply list_elem_of_here|].
    eapply Run_cons; [by apply Step_effect|].
    eapply Run_cons; [apply Step_key; by apply list_elem_of_here|].
    eapply Run_cons; [by apply Step_effect|]. apply Run_nil.
  - exact (H eq_refl).
Defined.

(** Clicking one header turns its direction around each time, beginning with the
    ascending one; another header begins anew. *)
Lemma clicks_alternate state col t n :
  option_map column state <> Some col ->
  Nat.iter (S n) (fun s => Some (toggle_sort_state s col t)) state
  = Some (mkSortState col (if Nat.even n then Ascending else Descending) t).
Proof.
  intros Hc. induction n as [|n IH].
  - simpl. unfold toggle_sort_state. destruct state as [s|]; [|done]. simpl in Hc.
    destruct (N.eqb_spec (column s) col); [congruence|done].
  - change (Nat.iter (S (S n)) ?f state) with (f (Nat.iter (S n) f state)). rewrite IH.
    rewrite Nat.even_succ -Nat.negb_even. unfold toggle_sort_state. cbn [column direction].
    rewrite N.eqb_refl. by destruct (Nat.even n).
Qed.

(** Where an order puts what satisfies [p] before what does not, a sorted list
    is those followed by these. *)
Lemma sorted_partition {A} (R : relation A) (p : A -> bool) l :
  StronglySorted R l -> (forall a b, p a = false -> p b = true -> ~ R a b) ->
  l = List.filter p l ++ List.filter (fun a => negb (p a)) l.
Proof.
  intros Hs Hp. induction Hs as [|a l Hs IH Ha]; [done|]. simpl.
  destruct (p a) eqn:E; simpl; [by f_equal|].
  assert (List.filter p l = []) as Hnil.
  { clear IH Hs. induction Ha as [|b l Hb _ IH]; [done|]. simpl.
    destruct (p b) eqn:Eb; [by destruct (Hp a b)|done]. }
  rewrite Hnil /= in IH |- *. by f_equal.
Qed.

Lemma list_filter_Permutation {A} (p : A -> bool) l l' :
  Permutation l l' -> Permutation (List.filter p l) (List.filter p l').
Proof.
  induction 1 as [|a l l' _ IH|a b l|l l' l'' _ IH _ IH']; simpl; [done| | |by etrans].
  - destruct (p a); [by constructor|done].
  - destruct (p a), (p b); try done. apply perm_swap.
Qed.

(** The dots of an owner's page in a column of statuses: those with a known
    state first, in the order of the direction; the others after them, in the
    order they had, whichever way the column is sorted. *)
Lemma status_unknown_last s rows :
  sort_type s = Status ->
  let known r := bool_decide (is_Some (known_status (row_key s r))) in
  exists front, sort_by (row_le s) rows = front ++ List.filter (fun r => negb (known r)) rows /\
    Permutation front (List.filter known rows).
Proof.
  intros Ht known.
  assert (forall r r', negb (known r) = true -> negb (known r') = true -> row_le s r r') as Htie.
  { intros r r'. unfold known, row_le. rewrite Ht /= /compare_status !negb_true_iff !bool_decide_eq_false.
    destruct (known_status (row_key s r)), (known_status (row_key s r')); naive_solver. }
  exists (List.filter known (sort_by (row_le s) rows)). split.
  - rewrite -(sort_by_stable _ (fun r => negb (known r)) rows Htie).
    apply sorted_partition with (R := row_le s).
    + apply sorted_rows. apply Forall_true. intros r. unfold orderly. by rewrite Ht.
    + intros r r' Hr Hr'. unfold known, row_le in *. rewrite Ht /= /compare_status.
      rewrite bool_decide_eq_true in Hr'. rewrite bool_decide_eq_false in Hr.
      destruct Hr' as [k ->]. destruct (known_status (row_key s r)); [by destruct Hr|by intros H].
  - apply list_filter_Permutation, sort_by_Permutation.
Qed.

(** ** The cells that the pages write *)

(** The text of [k] tenths, as [{}] writes a float: the fewest digits that read
    back as it. *)
Definition shortest_tenths (k : N) : string :=
  pretty (k / 10) +:+ (if k mod 10 =? 0 then "" else "." +:+ pretty (k mod 10)).

(** What a control's cell of the owners' page is sorted by. *)
Definition rate_cell (k : option N) : string :=
  match k with Some k => shortest_tenths k | None => "N/A" end.

Definition reads_back (k : N) : bool :=
  bool_decide (parse_numeric (shortest_tenths k) = Some (tenths k)).
Definition steps_up (k : N) : bool :=
  bool_decide (place_compare (float_place (tenths k)) (float_place (tenths (k + 1))) = Lt)
  && negb (is_neg_infinity (tenths k)) && negb (bool_decide (tenths k = S754_nan)).

Lemma all_read_back : forallb reads_back (below 1001) = true.
Proof. vm_compute. reflexivity. Qed.
Lemma all_step_up : forallb steps_up (below 1001) = true.
Proof. vm_compute. reflexivity. Qed.

Lemma tenths_reads_back k : k <= 1000 -> parse_numeric (shortest_tenths k) = Some (tenths k).
Proof.
  intros Hk. pose proof (forall_below _ _ all_read_back k ltac:(lia)) as H.
  by apply bool_decide_eq_true in H.
Qed.

Lemma tenths_step k : k <= 1000 ->
  place_compare (float_place (tenths k)) (float_place (tenths (k + 1))) = Lt
  /\ is_neg_infinity (tenths k) = false /\ tenths k <> S754_nan.
Proof.
  intros Hk. pose proof (forall_below _ _ all_step_up k ltac:(lia)) as H. unfold steps_up in H.
  rewrite !andb_true_iff !negb_true_iff bool_decide_eq_true bool_decide_eq_false in H. tauto.
Qed.

Lemma cmp_lt_trans {A} (f : A -> A -> comparison) `{!CmpLaws f} a b c :
  f a b = Lt -> f b c = Lt -> f a c = Lt.
Proof.
  intros H1 H2. destruct (f a c) eqn:E; [|done|].
  - apply cmp_eq in E as ->. by rewrite cmp_anti H1 in H2.
  - by destruct (cmp_trans a b c); rewrite ?H1 ?H2.
Qed.

Lemma tenths_increase k n : k + N.of_nat n <= 1000 -> n <> O ->
  place_compare (float_place (tenths k)) (float_place (tenths (k + N.of_nat n))) = Lt.
Proof.
  intros Hk Hn. induction n as [|n IH]; [done|]. destruct (decide (n = O)) as [-> |Hn'].
  - apply tenths_step. lia.
  - eapply (cmp_lt_trans place_compare); [apply IH; [lia|done]|].
    rewrite (_ : k + N.of_nat (S n) = k + N.of_nat n + 1); [|lia]. apply tenths_step. lia.
Qed.

Lemma tenths_compare k k' : k <= 1000 -> k' <= 1000 ->
  place_compare (float_place (tenths k)) (float_place (tenths k')) = (k ?= k').
Proof.
  intros Hk Hk'. destruct (N.compare_spec k k') as [-> |Hlt|Hgt].
  - apply cmp_eq. done.
  - rewrite (_ : k' = k + N.of_nat (N.to_nat (k' - k))); [|lia]. apply tenths_increase; lia.
  - rewrite (cmp_anti (float_place (tenths k'))).
    rewrite (_ : k = k' + N.of_nat (N.to_nat (k - k'))); [|lia]. rewrite tenths_increase //; lia.
Qed.

Lemma compare_add_1 k j : (k ?= j) = (k + 1 ?= j + 1).
Proof. destruct (N.compare_spec k j), (N.compare_spec (k + 1) (j + 1)); try done; lia. Qed.

(** The position of a rate: those not measured are below every other. *)
Definition rate_rank (k : option N) : N := match k with Some k => k + 1 | None => 0 end.

(** Clicking a control's header of the owners' page sorts by the rates, with the
    owners without a rate first when it ascends and last when it descends: for
    rates from 0 to 100 in tenths of a percent, the comparison of the cells'
    texts is that of the numbers. *)
Lemma rate_cells_sort_by_rate a b d :
  (forall k, a = Some k -> k <= 1000) -> (forall k, b = Some k -> k <= 1000) ->
  compare_cells_directed (rate_cell a) (rate_cell b) Numeric d = directed (rate_rank a ?= rate_rank b) d.
Proof.
  intros Ha Hb. simpl. f_equal. unfold compare_numeric.
  assert (parse_numeric "N/A" = Some neg_infinity) as Hna by (vm_compute; reflexivity).
  destruct a as [k|], b as [j|]; simpl rate_cell; rewrite ?Hna ?tenths_reads_back; auto.
  - destruct (tenths_step k (Ha k eq_refl)) as (_ & Hi & Hn).
    destruct (tenths_step j (Hb j eq_refl)) as (_ & Hj & Hm).
    clear Hna. rewrite Hi andb_false_l SFcompare_place // tenths_compare; [|by apply Ha|by apply Hb].
    apply compare_add_1.
  - destruct (tenths_step k (Ha k eq_refl)) as (_ & Hi & Hn). rewrite Hi. clear Ha Hb Hna.
    revert Hi Hn. generalize (tenths k). intros x Hi Hn. simpl. destruct x as [|[]| |]; try done; by destruct k.
  - destruct (tenths_step j (Hb j eq_refl)) as (_ & Hi & Hn). rewrite Hi. clear Ha Hb Hna.
    revert Hi Hn. generalize (tenths j). intros x Hi Hn. simpl. destruct x as [|[]| |]; try done; by destruct j.
Qed.

(** The dots of a repository's row sort by what they show: failing, partial and
    passing are the known states, every other dot is indeterminate. *)
Lemma dots_sort_by_state d :
  known_status (dot_sort_key d)
  = match dot_state d with
    | Dot_Fail => Some KS_Fail
    | Dot_Partial => Some KS_Partial
    | Dot_Pass => Some KS_Pass
    | Dot_Unknown | Dot_Pending | Dot_NotApplicable => None
    end.
Proof. unfold dot_sort_key. by destruct (dot_state d). Qed.
