(* ===== verification/Markdown.v ===== *)
(** * The Markdown renderer ([report/markdown.rs])

    The operations guide is rendered from Markdown to HTML.  A position in the
    source's lines is the list of the lines from there on; what the code pushes
    to its buffer is the string returned.  The code walks over characters, and
    every character it treats on its own is an ASCII one, so that walking over
    the bytes of UTF-8 gives the same text.  The loops run on fuel, the number
    of bytes or lines left, which [render_inline_eq] and [render_eq] show to be
    enough. *)

From S2P Require Import Prelude Str.

Open Scope N_scope.

(** ** Escaping *)

(** A double quote. *)
Definition dq : string := bytes [34].

Definition push_escaped_char (c : Ascii.ascii) : string :=
  if bool_decide (c = byte 38) then "&amp;"
  else if bool_decide (c = byte 60) then "&lt;"
  else if bool_decide (c = byte 62) then "&gt;"
  else if bool_decide (c = byte 34) then "&quot;"
  else String c EmptyString.

Fixpoint push_escaped_str (s : string) : string :=
  match s with
  | EmptyString => EmptyString
  | String c s => push_escaped_char c +:+ push_escaped_str s
  end.

(** ** Inline markup *)

Definition is_ascii_punctuation (c : Ascii.ascii) : bool :=
  let n := Ascii.N_of_ascii c in
  in_range 33 47 n || in_range 58 64 n || in_range 91 96 n || in_range 123 126 n.

(** [try_render_link] after the opening bracket: the text, the address and what
    follows the link. *)
Definition link_parts (after_open : string) : option (string * string * string) :=
  match split_once "]" after_open with
  | None => None
  | Some (link_text, after_bracket) =>
    match strip_prefix "(" after_bracket with
    | None => None
    | Some after_paren_open =>
      match split_once ")" after_paren_open with
      | None => None
      | Some (url, remainder) => Some (link_text, url, remainder)
      end
    end
  end.

Definition link_html (url text_html : string) : string :=
  "<a href=" +:+ dq +:+ push_escaped_str url +:+ dq +:+ ">" +:+ text_html +:+ "</a>".

(** One turn of the loop of [render_inline], from its first character [c] and
    what follows it: [inner] renders a text inside, [loop] what is left. *)
Definition inline_turn (inner loop : string -> string) (c : Ascii.ascii) (rest : string) : string :=
  let literal := push_escaped_char c +:+ loop rest in
  if bool_decide (c = byte 92) then
    match rest with
    | String next rest' =>
      if is_ascii_punctuation next then push_escaped_char next +:+ loop rest'
      else String c EmptyString +:+ loop rest
    | EmptyString => String c EmptyString +:+ loop rest
    end
  else if bool_decide (c = byte 96) then
    match split_once "`" rest with
    | Some (code, rest) => "<code>" +:+ push_escaped_str code +:+ "</code>" +:+ loop rest
    | None => literal
    end
  else if bool_decide (c = byte 42) then
    match strip_prefix "*" rest with
    | Some rest2 =>
      match split_once "**" rest2 with
      | Some (text, rest) => "<strong>" +:+ inner text +:+ "</strong>" +:+ loop rest
      | None => literal
      end
    | None =>
      match split_once "*" rest with
      | Some (text, rest) => "<em>" +:+ inner text +:+ "</em>" +:+ loop rest
      | None => literal
      end
    end
  else if bool_decide (c = byte 91) then
    match link_parts rest with
    | Some (text, url, remainder) => link_html url (inner text) +:+ loop remainder
    | None => literal
    end
  else literal.

Fixpoint inline (fuel : nat) (text : string) : string :=
  match fuel, text with
  | S fuel, String c rest => inline_turn (inline fuel) (inline fuel) c rest
  | _, _ => EmptyString
  end.

Definition render_inline (text : string) : string := inline (String.length text) text.


(** ** Lines *)

Definition slug_byte (c : Ascii.ascii) : string :=
  let n := Ascii.N_of_ascii c in
  if (n =? 32) || (n =? 9) || (n =? 10) || (n =? 12) || (n =? 13) then "-"
  else if is_alphanumeric c || (n =? 45) then String (lower_byte c) EmptyString
  else EmptyString.

Fixpoint slugify_heading (text : string) : string :=
  match text with
  | EmptyString => EmptyString
  | String c text => slug_byte c +:+ slugify_heading text
  end.

Definition fence_lang (line : string) : option string := option_map trim (strip_prefix "```" line).

Definition is_fence_line (line : string) : bool := starts_with "```" (trim_start line).

(** The bytes in front that are [c], and what follows them. *)
Fixpoint count_leading (c : Ascii.ascii) (s : string) : nat * string :=
  match s with
  | String a r =>
    if bool_decide (a = c) then let '(n, r) := count_leading c r in (S n, r) else (O, s)
  | EmptyString => (O, s)
  end.

Definition trim_end_hashes (s : string) : string :=
  String.rev (snd (count_leading (byte 35) (String.rev s))).

Definition parse_heading (line : string) : option (nat * string) :=
  let '(hashes, rest) := count_leading (byte 35) line in
  if (hashes =? 0)%nat || (6 <? hashes)%nat then None
  else
    match strip_prefix " " rest with
    | Some text => Some (hashes, trim_end (trim_end_hashes (trim_end text)))
    | None => None
    end.

Definition strip_unordered_marker (line : string) : option string := strip_prefix "- " (trim_start line).

Fixpoint skip_digits (s : string) : nat * string :=
  match s with
  | String a r =>
    if in_range 48 57 (Ascii.N_of_ascii a)
    then let '(n, r) := skip_digits r in (S n, r) else (O, s)
  | EmptyString => (O, s)
  end.

Definition strip_ordered_marker (line : string) : option string :=
  let '(digits_len, rest) := skip_digits (trim_start line) in
  if (digits_len =? 0)%nat then None else strip_prefix ". " rest.

Definition strip_blockquote_marker (line : string) : option string :=
  match strip_prefix ">" (trim_start line) with
  | Some trimmed => Some (default trimmed (strip_prefix " " trimmed))
  | None => None
  end.

Definition is_table_separator_row (line : string) : bool :=
  let trimmed := trim line in
  starts_with "|" trimmed
  && all_bytes (fun c =>
       let n := Ascii.N_of_ascii c in (n =? 124) || (n =? 45) || (n =? 58) || (n =? 32)) trimmed.

Definition is_table_start (lines : list string) : bool :=
  match lines with
  | line :: next :: _ => contains "|" line && is_table_separator_row next
  | _ => false
  end.

Definition split_table_row (line : string) : list string :=
  let trimmed := trim line in
  let trimmed := default trimmed (strip_prefix "|" trimmed) in
  let trimmed := default trimmed (strip_suffix "|" trimmed) in
  map trim (split_char (byte 124) trimmed).

(** ** Blocks *)

(** [(b'0' + level) as char]. *)
Definition level_digit (level : nat) : string := String (byte (48 + N.of_nat level)) EmptyString.

Definition render_heading (level : nat) (text : string) : string :=
  "<h" +:+ level_digit level +:+ " id=" +:+ dq +:+ slugify_heading text +:+ dq +:+ ">"
  +:+ render_inline text +:+ "</h" +:+ level_digit level +:+ ">" +:+ String nl EmptyString.

Definition code_lines (lines : list string) : string := join_char nl (map push_escaped_str lines).

Definition render_code_block (lang : string) (lines : list string) : string :=
  "<pre><code"
  +:+ (if is_empty lang then EmptyString
       else " class=" +:+ dq +:+ "language-" +:+ push_escaped_str lang +:+ dq)
  +:+ ">" +:+ code_lines lines +:+ "</code></pre>" +:+ String nl EmptyString.

Definition concat_with {A} (f : A -> string) (l : list A) : string :=
  foldr (fun a s => f a +:+ s) EmptyString l.

Definition header_cell (cell : string) : string := "<th>" +:+ render_inline cell +:+ "</th>".
Definition body_cell (cell : string) : string := "<td>" +:+ render_inline cell +:+ "</td>".
Definition body_row (line : string) : string :=
  "<tr>" +:+ concat_with body_cell (split_table_row line) +:+ "</tr>" +:+ String nl EmptyString.

Definition is_table_row (line : string) : bool := contains "|" line && negb (is_empty (trim line)).

(** The lines in front that satisfy [p], and those from the first that does
    not. *)
Fixpoint span {A} (p : A -> bool) (l : list A) : list A * list A :=
  match l with
  | [] => ([], [])
  | a :: r => if p a then let '(f, r) := span p r in (a :: f, r) else ([], l)
  end.

Definition render_table (start : string) (after_separator : list string) : string * list string :=
  let '(rows, rest) := span is_table_row after_separator in
  ("<table class=" +:+ dq +:+ "data-table" +:+ dq +:+ ">" +:+ String nl EmptyString
   +:+ "<thead>" +:+ String nl EmptyString +:+ "<tr>"
   +:+ concat_with header_cell (split_table_row start)
   +:+ "</tr>" +:+ String nl EmptyString +:+ "</thead>" +:+ String nl EmptyString
   +:+ "<tbody>" +:+ String nl EmptyString
   +:+ concat_with body_row rows
   +:+ "</tbody>" +:+ String nl EmptyString +:+ "</table>" +:+ String nl EmptyString,
   rest).

Inductive ListKind := Ordered | Unordered.

Definition list_strip (kind : ListKind) : string -> option string :=
  match kind with Ordered => strip_ordered_marker | Unordered => strip_unordered_marker end.
Definition list_tag (kind : ListKind) : string := match kind with Ordered => "ol" | Unordered => "ul" end.

(** The stripped lines up to the first that has no marker, and the rest. *)
Fixpoint strip_span (strip : string -> option string) (lines : list string) :
    list string * list string :=
  match lines with
  | [] => ([], [])
  | line :: rest =>
    match strip line with
    | Some item => let '(items, rest) := strip_span strip rest in (item :: items, rest)
    | None => ([], lines)
    end
  end.

Definition list_item (item : string) : string :=
  "<li>" +:+ render_inline (trim item) +:+ "</li>" +:+ String nl EmptyString.

Definition render_list (kind : ListKind) (lines : list string) : string * list string :=
  let '(items, rest) := strip_span (list_strip kind) lines in
  ("<" +:+ list_tag kind +:+ ">" +:+ String nl EmptyString
   +:+ concat_with list_item items
   +:+ "</" +:+ list_tag kind +:+ ">" +:+ String nl EmptyString, rest).

(** The content of a block of several lines: a space goes before a line when
    there is content already. *)
Definition push_line (content line : string) : string :=
  if is_empty content then trim line else content +:+ " " +:+ trim line.

Definition render_blockquote (lines : list string) : string * list string :=
  let '(items, rest) := strip_span strip_blockquote_marker lines in
  ("<blockquote><p>" +:+ render_inline (fold_left push_line items EmptyString)
   +:+ "</p></blockquote>" +:+ String nl EmptyString, rest).

Definition is_block_boundary (lines : list string) : bool :=
  match lines with
  | [] => false
  | line :: _ =>
    is_empty (trim line)
    || bool_decide (is_Some (fence_lang line))
    || bool_decide (is_Some (parse_heading line))
    || is_table_start lines
    || bool_decide (is_Some (strip_blockquote_marker line))
    || bool_decide (is_Some (strip_unordered_marker line))
    || bool_decide (is_Some (strip_ordered_marker line))
  end.

Fixpoint paragraph_lines (lines : list string) : list string * list string :=
  match lines with
  | [] => ([], [])
  | line :: rest =>
    if is_block_boundary lines then ([], lines)
    else let '(ls, rest) := paragraph_lines rest in (line :: ls, rest)
  end.

(** The first line belongs to the paragraph whatever it is. *)
Definition render_paragraph (first : string) (rest : list string) : string * list string :=
  let '(more, rest) := paragraph_lines rest in
  ("<p>" +:+ render_inline (fold_left push_line (first :: more) EmptyString)
   +:+ "</p>" +:+ String nl EmptyString, rest).

(** One turn of the loop of [render]: what it pushes, and the lines left. *)
Definition render_turn (line : string) (rest : list string) : string * list string :=
  let lines := line :: rest in
  if is_empty (trim line) then (EmptyString, rest)
  else
    match fence_lang line with
    | Some lang =>
      let '(code, after) := span (fun l => negb (is_fence_line l)) rest in
      (render_code_block lang code, tail after)
    | None =>
      match parse_heading line with
      | Some (level, text) => (render_heading level text, rest)
      | None =>
        if is_table_start lines then render_table line (tail rest)
        else if bool_decide (is_Some (strip_blockquote_marker line)) then render_blockquote lines
        else if bool_decide (is_Some (strip_unordered_marker line)) then render_list Unordered lines
        else if bool_decide (is_Some (strip_ordered_marker line)) then render_list Ordered lines
        else render_paragraph line rest
      end
    end.

Fixpoint render_lines (fuel : nat) (lines : list string) : string :=
  match fuel, lines with
  | S fuel, line :: rest =>
    let '(out, rest) := render_turn line rest in out +:+ render_lines fuel rest
  | _, _ => EmptyString
  end.

Definition render (source : string) : string :=
  let lines := lines source in render_lines (length lines) lines.

(** ** The loops reach their ends *)

Lemma split_once_length p s l r : split_once p s = Some (l, r) ->
  (String.length l + String.length p + String.length r = String.length s)%nat.
Proof. intros ->%split_once_Some. rewrite !str_length_app. lia. Qed.

Lemma strip_prefix_length p s r : strip_prefix p s = Some r ->
  (String.length p + String.length r = String.length s)%nat.
Proof. intros ->%strip_prefix_Some. by rewrite str_length_app. Qed.

Lemma link_parts_spec s text url rest : link_parts s = Some (text, url, rest) ->
  exists after, split_once "]" s = Some (text, after) /\
    exists open, strip_prefix "(" after = Some open /\ split_once ")" open = Some (url, rest).
Proof.
  unfold link_parts. destruct (split_once "]" s) as [[t a]|]; [|done].
  destruct (strip_prefix "(" a) as [o|] eqn:Eo; [|done].
  destruct (split_once ")" o) as [[u r]|] eqn:Er; [|done]. intros [= -> -> ->].
  exists a. split; [done|]. by exists o.
Qed.

(** A turn hands on texts no longer than what follows its character. *)
Lemma inline_turn_ext inner loop inner' loop' c rest :
  (forall s, (String.length s <= String.length rest)%nat -> inner s = inner' s) ->
  (forall s, (String.length s <= String.length rest)%nat -> loop s = loop' s) ->
  inline_turn inner loop c rest = inline_turn inner' loop' c rest.
Proof.
  intros Hi Hl. unfold inline_turn. rewrite (Hl rest); [|done].
  repeat case_bool_decide; try done.
  - destruct rest as [|next rest]; [done|]. rewrite (Hl rest) //=. lia.
  - destruct (split_once "`" rest) as [[code r]|] eqn:E; [|done].
    apply split_once_length in E. rewrite (Hl r) //. lia.
  - destruct (strip_prefix "*" rest) as [r2|] eqn:E2; [apply strip_prefix_length in E2|].
    + destruct (split_once "**" r2) as [[text r]|] eqn:E; [|done].
      apply split_once_length in E. rewrite (Hi text) ?(Hl r) //; lia.
    + destruct (split_once "*" rest) as [[text r]|] eqn:E; [|done].
      apply split_once_length in E. rewrite (Hi text) ?(Hl r) //; lia.
  - destruct (link_parts rest) as [[[text url] r]|] eqn:E; [|done].
    apply link_parts_spec in E as (a & Ha & o & Ho & Hr).
    apply split_once_length in Ha, Hr. apply strip_prefix_length in Ho.
    rewrite (Hi text) ?(Hl r) //; lia.
Qed.

Lemma inline_fuel n m text :
  (String.length text <= n)%nat -> (String.length text <= m)%nat -> inline n text = inline m text.
Proof.
  revert m text. induction n as [|n IH]; intros m [|c rest] Hn Hm; simpl in *; try lia; try by destruct m.
  destruct m as [|m]; [lia|]. simpl. apply inline_turn_ext; intros s Hs; apply IH; lia.
Qed.

(** [render_inline] is the loop of the code: the fuel is never used up. *)
Lemma render_inline_eq c rest :
  render_inline (String c rest) = inline_turn render_inline render_inline c rest.
Proof. simpl. apply inline_turn_ext; intros s Hs; by apply inline_fuel. Qed.

Lemma span_length {A} (p : A -> bool) l f r : span p l = (f, r) -> l = f ++ r.
Proof.
  revert f r. induction l as [|a l IH]; simpl; intros f r; [by intros [= <- <-]|].
  destruct (p a); [|by intros [= <- <-]]. destruct (span p l) as [f' r'].
  intros [= <- <-]. by rewrite (IH f' r').
Qed.

Lemma strip_span_length strip l items r : strip_span strip l = (items, r) -> (length r <= length l)%nat.
Proof.
  revert items r. induction l as [|a l IH]; simpl; intros items r; [by intros [= <- <-]|].
  destruct (strip a); [|by intros [= <- <-]]. destruct (strip_span strip l) as [f' r'].
  intros [= <- <-]. specialize (IH f' r' eq_refl). lia.
Qed.

Lemma paragraph_lines_app l ls r : paragraph_lines l = (ls, r) -> l = ls ++ r.
Proof.
  revert ls r. induction l as [|a l IH]; intros ls r; [by intros [= <- <-]|]. cbn [paragraph_lines].
  destruct (is_block_boundary (a :: l)); [by intros [= <- <-]|].
  destruct (paragraph_lines l) as [f' r']. intros [= <- <-]. by rewrite (IH f' r').
Qed.

(** A turn of the outer loop consumes at least its first line.  A list and a
    quotation do so because their first line was found to carry the marker. *)
Lemma strip_span_consumes strip line rest items r :
  is_Some (strip line) -> strip_span strip (line :: rest) = (items, r) -> (length r <= length rest)%nat.
Proof.
  intros [x Hx]. simpl. rewrite Hx. destruct (strip_span strip rest) as [f' r'] eqn:E.
  intros [= <- <-]. by eapply strip_span_length.
Qed.

Lemma render_turn_consumes line rest : (length (snd (render_turn line rest)) <= length rest)%nat.
Proof.
  unfold render_turn. destruct (is_empty (trim line)); [done|].
  destruct (fence_lang line) as [lang|].
  { destruct (span _ rest) as [code after] eqn:E. apply span_length in E as ->. simpl.
    rewrite length_app. destruct after; simpl; lia. }
  destruct (parse_heading line) as [[level text]|]; [done|].
  destruct (is_table_start (line :: rest)).
  { unfold render_table. destruct (span _ (tail rest)) as [rows after] eqn:E. simpl.
    apply span_length in E. apply (f_equal length) in E. rewrite length_app in E.
    destruct rest; simpl in *; lia. }
  case_bool_decide as Hq.
  { unfold render_blockquote. destruct (strip_span _ _) as [items after] eqn:E.
    by eapply strip_span_consumes. }
  case_bool_decide as Hu.
  { unfold render_list. destruct (strip_span _ _) as [items after] eqn:E.
    by eapply strip_span_consumes. }
  case_bool_decide as Ho.
  { unfold render_list. destruct (strip_span _ _) as [items after] eqn:E.
    by eapply strip_span_consumes. }
  unfold render_paragraph. destruct (paragraph_lines rest) as [more after] eqn:E.
  apply paragraph_lines_app in E as ->. simpl. rewrite length_app. lia.
Qed.

Lemma render_lines_fuel n m lines :
  (length lines <= n)%nat -> (length lines <= m)%nat -> render_lines n lines = render_lines m lines.
Proof.
  revert m lines. induction n as [|n IH]; intros m [|line rest] Hn Hm; simpl in *; try lia; try by destruct m.
  destruct m as [|m]; [lia|]. simpl. pose proof (render_turn_consumes line rest).
  destruct (render_turn line rest) as [out rest']. simpl in *. f_equal. apply IH; lia.
Qed.

Definition render_all (lines : list string) : string := render_lines (length lines) lines.

(** [render] is the loop of the code, which ends: every turn leaves fewer lines. *)
Lemma render_eq line rest :
  render_all (line :: rest)
  = let '(out, rest') := render_turn line rest in out +:+ render_all rest'.
Proof.
  unfold render_all. simpl. pose proof (render_turn_consumes line rest).
  destruct (render_turn line rest) as [out rest']. simpl in *. f_equal. by apply render_lines_fuel.
Qed.

(** ** The HTML that may be written

    Text in which the four characters with a meaning in HTML stand only as
    their references; elements that are closed in the order they were opened,
    with attributes whose values are such text in quotes; and no link inside a
    link. *)

Definition special (c : Ascii.ascii) : bool :=
  bool_decide (c = byte 38) || bool_decide (c = byte 60) || bool_decide (c = byte 62)
  || bool_decide (c = byte 34).

Definition references : list string := ["&amp;"; "&lt;"; "&gt;"; "&quot;"].

Inductive Escaped : string -> Prop :=
| Escaped_nil : Escaped EmptyString
| Escaped_char c s : special c = false -> Escaped s -> Escaped (String c s)
| Escaped_reference r s : r ∈ references -> Escaped s -> Escaped (r +:+ s).

Definition element_names : list string :=
  ["h1"; "h2"; "h3"; "h4"; "h5"; "h6"; "p"; "pre"; "code"; "strong"; "em"; "table"; "thead";
   "tbody"; "tr"; "th"; "td"; "ul"; "ol"; "li"; "blockquote"].

(** The attributes of an element: none, or one. *)
Inductive Attributes (names : list string) : string -> Prop :=
| No_attribute : Attributes names EmptyString
| One_attribute name value : name ∈ names -> Escaped value ->
    Attributes names (" " +:+ name +:+ "=" +:+ dq +:+ value +:+ dq).

Definition element (name attributes body : string) : string :=
  "<" +:+ name +:+ attributes +:+ ">" +:+ body +:+ "</" +:+ name +:+ ">".

(** [Html links s]: [s] is such HTML; [links] says whether a link may stand
    there. *)
Inductive Html : bool -> string -> Prop :=
| Html_nil links : Html links EmptyString
| Html_char links c s : special c = false -> Html links s -> Html links (String c s)
| Html_reference links r s : r ∈ references -> Html links s -> Html links (r +:+ s)
| Html_element links name attributes body s :
    name ∈ element_names -> Attributes ["id"; "class"] attributes ->
    Html links body -> Html links s -> Html links (element name attributes body +:+ s)
| Html_link attributes body s :
    Attributes ["href"] attributes -> Html false body -> Html true s ->
    Html true (element "a" attributes body +:+ s).

Lemma Escaped_app a b : Escaped a -> Escaped b -> Escaped (a +:+ b).
Proof.
  intros Ha Hb. induction Ha as [|c s Hc _ IH|r s Hr _ IH]; [done|by constructor|].
  rewrite -str_app_assoc. by constructor.
Qed.

Lemma Html_app l a b : Html l a -> Html l b -> Html l (a +:+ b).
Proof.
  intros Ha. revert b.
  induction Ha as [|l c s Hc _ IH|l r s Hr _ IH|l n at' bd s Hn Hat Hbd _ _ IH|at' bd s Hat Hbd _ _ IH];
    intros b Hb.
  - done.
  - rewrite str_app_cons. apply Html_char; [done|by apply IH].
  - rewrite -str_app_assoc. apply Html_reference; [done|by apply IH].
  - rewrite -str_app_assoc. apply Html_element; [done..|by apply IH].
  - rewrite -str_app_assoc. apply Html_link; [done..|by apply IH].
Qed.

Lemma Html_escaped l s : Escaped s -> Html l s.
Proof. induction 1; by constructor. Qed.

Lemma Html_links s : Html false s -> Html true s.
Proof.
  remember false as l eqn:El. intros Hs.
  induction Hs as [|l c s Hc _ IH|l r s Hr _ IH|l n at' bd s Hn Hat Hbd IHb _ IH|]; subst; try done.
  - constructor.
  - apply Html_char; auto.
  - apply Html_reference; auto.
  - apply Html_element; auto.
Qed.

(** What stands where links may not stand may stand anywhere. *)
Lemma Html_anywhere l s : Html false s -> Html l s.
Proof. destruct l; [apply Html_links|done]. Qed.

Lemma Html_one l name attributes body :
  name ∈ element_names -> Attributes ["id"; "class"] attributes ->
  Html l body -> Html l (element name attributes body).
Proof. intros. rewrite -(str_app_nil_r (element _ _ _)). apply Html_element; try done. constructor. Qed.

Lemma plain_escaped s : all_bytes (fun c => negb (special c)) s = true -> Escaped s.
Proof.
  induction s as [|c s IH]; simpl; [constructor|]. rewrite andb_true_iff negb_true_iff.
  intros [Hc Hs]. constructor; auto.
Qed.

Lemma reference_escaped r : r ∈ references -> Escaped r.
Proof. intros Hr. rewrite -(str_app_nil_r r). apply Escaped_reference; [done|constructor]. Qed.

Lemma escaped_char c : Escaped (push_escaped_char c).
Proof.
  unfold push_escaped_char. repeat case_bool_decide.
  1-4: apply reference_escaped; set_solver.
  apply plain_escaped. simpl. unfold special. by rewrite !bool_decide_eq_false_2.
Qed.

Lemma escaped_str s : Escaped (push_escaped_str s).
Proof. induction s as [|c s IH]; simpl; [constructor|]. by apply Escaped_app; [apply escaped_char|]. Qed.

Lemma open_close l name body : name ∈ element_names -> Html l body ->
  Html l ("<" +:+ name +:+ ">" +:+ body +:+ "</" +:+ name +:+ ">").
Proof. intros Hn Hb. apply (Html_one l name EmptyString body Hn); [constructor|done]. Qed.

Lemma name_in name : bool_decide (name ∈ element_names) = true -> name ∈ element_names.
Proof. apply bool_decide_eq_true_1. Qed.

(** ** What the renderer writes is such HTML *)

Lemma one_attribute names name value : name ∈ names -> Escaped value ->
  Attributes names (" " +:+ name +:+ "=" +:+ dq +:+ value +:+ dq).
Proof. apply One_attribute. Qed.

Lemma html_newline l : Html l (String nl EmptyString).
Proof. apply Html_char; [done|constructor]. Qed.

Lemma concat_with_html {A} l (f : A -> string) xs :
  (forall a, Html l (f a)) -> Html l (concat_with f xs).
Proof. intros Hf. induction xs as [|a xs IH]; simpl; [constructor|]. by apply Html_app. Qed.

Lemma link_html_ok url body rest :
  Html false body -> Html true rest -> Html true (link_html url body +:+ rest).
Proof.
  intros Hb Hr.
  assert (Attributes ["href"] (" " +:+ "href" +:+ "=" +:+ dq +:+ push_escaped_str url +:+ dq)) as Ha.
  { apply One_attribute; [apply list_elem_of_here|apply escaped_str]. }
  pose proof (Html_link _ _ _ Ha Hb Hr) as H.
  unfold link_html. unfold element in H. rewrite -!str_app_assoc in H |- *. exact H.
Qed.

(** Links are written only where the text has a closing bracket. *)
Definition may_link (s : string) : bool := contains_char (byte 93) s.

Lemma html_weaken s s' x :
  (may_link s = true -> may_link s' = true) -> Html (may_link s) x -> Html (may_link s') x.
Proof.
  intros Hw Hx. destruct (may_link s'), (may_link s); try done; [by apply Html_links|].
  by specialize (Hw eq_refl).
Qed.

Lemma may_link_app a b : may_link (a +:+ b) = may_link a || may_link b.
Proof. apply contains_char_app. Qed.
Lemma may_link_cons c s : may_link s = true -> may_link (String c s) = true.
Proof. unfold may_link. simpl. intros ->. by rewrite orb_true_r. Qed.

(** The parts that a delimiter splits have no bracket the whole has not. *)
Lemma may_link_split p s l r : split_once p s = Some (l, r) ->
  (may_link l = true -> may_link s = true) /\ (may_link r = true -> may_link s = true).
Proof.
  intros ->%split_once_Some. rewrite !may_link_app. split; intros ->; [done|].
  by rewrite !orb_true_r.
Qed.

Lemma may_link_strip p s r : strip_prefix p s = Some r -> may_link r = true -> may_link s = true.
Proof. intros ->%strip_prefix_Some. rewrite may_link_app. intros ->. by rewrite orb_true_r. Qed.

(** What stands before the first delimiter does not hold it. *)
Lemma split_once_char_first c s l r :
  split_once (String c EmptyString) s = Some (l, r) -> contains_char c l = false.
Proof.
  revert l r. induction s as [|d s IH]; intros l r; [done|]. simpl.
  destruct (Ascii.eqb c d) eqn:E; [by intros [= <- <-]|].
  destruct (split_once (String c EmptyString) s) as [[l' r']|]; [|done].
  intros [= <- <-]. simpl. rewrite Ascii.eqb_sym E. by eapply IH.
Qed.

Section InlineHtml.
  (** The recursive calls write such HTML. *)
  Variables (inner loop : string -> string).
  Hypothesis inner_ok : forall s, Html (may_link s) (inner s).
  Hypothesis loop_ok : forall s, Html (may_link s) (loop s).

Lemma loop_part s s' : (may_link s' = true -> may_link s = true) -> Html (may_link s) (loop s').
Proof. intros Hw. by apply (html_weaken s'). Qed.

Lemma literal_html c rest : Html (may_link (String c rest)) (push_escaped_char c +:+ loop rest).
Proof.
  apply Html_app; [apply Html_escaped, escaped_char|]. apply loop_part, may_link_cons.
Qed.

Lemma tagged_html name s body rest : name ∈ element_names ->
  Html (may_link s) body -> (may_link rest = true -> may_link s = true) ->
  Html (may_link s) (("<" +:+ name +:+ ">") +:+ body +:+ ("</" +:+ name +:+ ">") +:+ loop rest).
Proof.
  intros Hn Hb Hr. pose proof (Html_element (may_link s) name EmptyString body (loop rest) Hn
    (No_attribute _) Hb (loop_part _ _ Hr)) as H.
  unfold element in H. rewrite -!str_app_assoc in H |- *. exact H.
Qed.

Lemma inline_turn_html c rest : Html (may_link (String c rest)) (inline_turn inner loop c rest).
Proof.
  unfold inline_turn. pose proof (literal_html c rest) as Hlit.
  repeat case_bool_decide; try done.
  - destruct rest as [|next rest]; [|destruct (is_ascii_punctuation next)].
    + apply Html_app; [|by apply loop_part, may_link_cons]. subst. by apply Html_escaped, plain_escaped.
    + apply Html_app; [apply Html_escaped, escaped_char|].
      apply loop_part. intros H'. by apply may_link_cons, may_link_cons.
    + apply Html_app; [|by apply loop_part, may_link_cons]. subst. by apply Html_escaped, plain_escaped.
  - destruct (split_once "`" rest) as [[code r]|] eqn:E; [|done].
    apply may_link_split in E as [_ Hr].
    apply (tagged_html "code"); [set_solver|apply Html_escaped, escaped_str|].
    intros H'. by apply may_link_cons, Hr.
  - destruct (strip_prefix "*" rest) as [r2|] eqn:E2; [pose proof (may_link_strip _ _ _ E2) as H2|].
    + destruct (split_once "**" r2) as [[text r]|] eqn:E; [|done].
      apply may_link_split in E as [Ht Hr].
      apply (tagged_html "strong"); [set_solver| |].
      * apply (html_weaken text); [|done]. intros H'. by apply may_link_cons, H2, Ht.
      * intros H'. by apply may_link_cons, H2, Hr.
    + destruct (split_once "*" rest) as [[text r]|] eqn:E; [|done].
      apply may_link_split in E as [Ht Hr].
      apply (tagged_html "em"); [set_solver| |].
      * apply (html_weaken text); [|done]. intros H'. by apply may_link_cons, Ht.
      * intros H'. by apply may_link_cons, Hr.
  - destruct (link_parts rest) as [[[text url] r]|] eqn:E; [|done].
    apply link_parts_spec in E as (a & Ha & o & Ho & Hr).
    assert (may_link (String c rest) = true) as ->.
    { apply may_link_cons. apply split_once_Some in Ha as ->. rewrite !may_link_app. by rewrite orb_true_r. }
    apply split_once_char_first in Ha. apply link_html_ok.
    + pose proof (inner_ok text) as Hi. unfold may_link in Hi. by rewrite Ha in Hi.
    + pose proof (loop_ok r) as Hl. destruct (may_link r); [done|by apply Html_links].
Qed.
End InlineHtml.

Lemma inline_html fuel text : Html (may_link text) (inline fuel text).
Proof.
  revert text. induction fuel as [|fuel IH]; intros [|c rest]; simpl; try constructor.
  by apply inline_turn_html.
Qed.

Lemma render_inline_html text : Html true (render_inline text).
Proof.
  pose proof (inline_html (String.length text) text) as H. unfold render_inline.
  destruct (may_link text); [done|by apply Html_links].
Qed.

(** *** Blocks *)

Lemma html_element_then name attributes body s :
  name ∈ element_names -> Attributes ["id"; "class"] attributes -> Html true body -> Html true s ->
  Html true ("<" +:+ name +:+ attributes +:+ ">" +:+ body +:+ "</" +:+ name +:+ ">" +:+ s).
Proof.
  intros Hn Ha Hb Hs. pose proof (Html_element true name attributes body s Hn Ha Hb Hs) as H.
  unfold element in H. rewrite -!str_app_assoc in H |- *. exact H.
Qed.

(** Elements without attributes, the end of the line among what may follow. *)
Lemma html_tagged name body s :
  name ∈ element_names -> Html true body -> Html true s ->
  Html true ("<" +:+ name +:+ ">" +:+ body +:+ "</" +:+ name +:+ ">" +:+ s).
Proof. intros Hn Hb Hs. apply (html_element_then name EmptyString); try done. constructor. Qed.

Lemma slug_escaped text : Escaped (slugify_heading text).
Proof.
  assert (forall c, Escaped (slug_byte c)) as Hb.
  { intros c. apply plain_escaped.
    apply (forall_chars (fun c => all_bytes (fun c => negb (special c)) (slug_byte c))).
    vm_compute. reflexivity. }
  induction text as [|c text IH]; simpl; [constructor|]. by apply Escaped_app; [apply Hb|].
Qed.

Lemma parse_heading_level line level text :
  parse_heading line = Some (level, text) -> "h" +:+ level_digit level ∈ element_names.
Proof.
  unfold parse_heading. destruct (count_leading (byte 35) line) as [hashes rest].
  destruct (hashes =? 0)%nat eqn:E0; [done|]. destruct (6 <? hashes)%nat eqn:E6; [done|].
  cbn [orb]. destruct (strip_prefix " " rest); [|done]. intros [= -> _].
  apply Nat.eqb_neq in E0. apply Nat.ltb_ge in E6.
  assert (forallb (fun n => bool_decide ("h" +:+ level_digit n ∈ element_names)) [1; 2; 3; 4; 5; 6]%nat = true)
    as Hall by (vm_compute; reflexivity).
  rewrite forallb_forall in Hall. eapply bool_decide_eq_true_1, Hall.
  destruct level as [|[|[|[|[|[|[|level]]]]]]]; simpl; try lia; tauto.
Qed.

Lemma heading_html level text :
  "h" +:+ level_digit level ∈ element_names -> Html true (render_heading level text).
Proof.
  intros Hn.
  assert (Attributes ["id"; "class"] (" " +:+ "id" +:+ "=" +:+ dq +:+ slugify_heading text +:+ dq)) as Ha.
  { apply One_attribute; [set_solver|apply slug_escaped]. }
  pose proof (html_element_then _ _ _ _ Hn Ha (render_inline_html text) (html_newline true)) as H.
  unfold render_heading. rewrite -!str_app_assoc in H |- *. exact H.
Qed.

Lemma join_escaped lines : Escaped (join_char nl (map push_escaped_str lines)).
Proof.
  induction lines as [|l [|l' lines] IH]; [constructor|apply escaped_str|].
  change (Escaped (push_escaped_str l +:+ String nl (join_char nl (map push_escaped_str (l' :: lines))))).
  apply Escaped_app; [apply escaped_str|]. by apply Escaped_char.
Qed.

Lemma code_block_html lang lines : Html true (render_code_block lang lines).
Proof.
  unfold render_code_block.
  set (attributes := if is_empty lang then _ else _).
  assert (Attributes ["id"; "class"] attributes) as Ha.
  { unfold attributes. destruct (is_empty lang); [constructor|].
    apply (One_attribute _ "class" ("language-" +:+ push_escaped_str lang)); [set_solver|].
    apply Escaped_app; [by apply plain_escaped|apply escaped_str]. }
  assert (Html true ("<" +:+ "code" +:+ attributes +:+ ">" +:+ code_lines lines +:+ "</" +:+ "code" +:+ ">" +:+ EmptyString)) as Hc.
  { apply html_element_then; [set_solver|done|apply Html_escaped, join_escaped|constructor]. }
  pose proof (html_tagged "pre" _ _ ltac:(set_solver) Hc (html_newline true)) as H.
  clearbody attributes. rewrite -!str_app_assoc in H |- *. exact H.
Qed.

Lemma cells_html tag cells : tag ∈ element_names ->
  Html true (concat_with (fun cell => "<" +:+ tag +:+ ">" +:+ render_inline cell +:+ "</" +:+ tag +:+ ">" +:+ EmptyString) cells).
Proof.
  intros Ht. apply concat_with_html. intros cell. apply html_tagged; [done|apply render_inline_html|constructor].
Qed.

Lemma table_html start lines : Html true (fst (render_table start lines)).
Proof.
  unfold render_table. destruct (span is_table_row lines) as [rows rest]. cbn [fst].
  assert (Html true (concat_with header_cell (split_table_row start))) as Hh.
  { apply (cells_html "th"). set_solver. }
  assert (Html true (concat_with body_row rows)) as Hr.
  { apply concat_with_html. intros row. apply (html_tagged "tr"); [set_solver| |apply html_newline].
    apply (cells_html "td"). set_solver. }
  pose proof (html_tagged "tr" _ _ ltac:(set_solver) Hh (html_newline true)) as H1.
  pose proof (html_tagged "thead" _ _ ltac:(set_solver) (Html_app _ _ _ (html_newline true) H1) (html_newline true)) as H2.
  pose proof (html_tagged "tbody" _ _ ltac:(set_solver) (Html_app _ _ _ (html_newline true) Hr) (html_newline true)) as H3.
  assert (Attributes ["id"; "class"] (" " +:+ "class" +:+ "=" +:+ dq +:+ "data-table" +:+ dq)) as Ha.
  { apply One_attribute; [set_solver|by apply plain_escaped]. }
  pose proof (html_element_then "table" _ _ _ ltac:(set_solver) Ha
    (Html_app _ _ _ (html_newline true) (Html_app _ _ _ H2 H3)) (html_newline true)) as H.
  rewrite -!str_app_assoc in H |- *. exact H.
Qed.

Lemma list_html kind lines : Html true (fst (render_list kind lines)).
Proof.
  unfold render_list. destruct (strip_span _ lines) as [items rest]. cbn [fst].
  assert (Html true (concat_with list_item items)) as Hi.
  { apply concat_with_html. intros item. apply (html_tagged "li"); [set_solver|apply render_inline_html|apply html_newline]. }
  assert (list_tag kind ∈ element_names) as Hn by (destruct kind; set_solver).
  pose proof (html_tagged (list_tag kind) _ _ Hn (Html_app _ _ _ (html_newline true) Hi) (html_newline true)) as H.
  rewrite -!str_app_assoc in H |- *. exact H.
Qed.

Lemma blockquote_html lines : Html true (fst (render_blockquote lines)).
Proof.
  unfold render_blockquote. destruct (strip_span _ lines) as [items rest]. cbn [fst].
  pose proof (html_tagged "p" _ EmptyString ltac:(set_solver)
    (render_inline_html (fold_left push_line items EmptyString)) (Html_nil true)) as Hp.
  pose proof (html_tagged "blockquote" _ _ ltac:(set_solver) Hp (html_newline true)) as H.
  rewrite -!str_app_assoc in H |- *. exact H.
Qed.

Lemma paragraph_html first rest : Html true (fst (render_paragraph first rest)).
Proof.
  unfold render_paragraph. destruct (paragraph_lines rest) as [more rest']. cbn [fst].
  exact (html_tagged "p" _ _ ltac:(set_solver) (render_inline_html _) (html_newline true)).
Qed.

Lemma render_turn_html line rest : Html true (fst (render_turn line rest)).
Proof.
  unfold render_turn. destruct (is_empty (trim line)); [constructor|].
  destruct (fence_lang line) as [lang|].
  { destruct (span _ rest) as [code after]. apply code_block_html. }
  destruct (parse_heading line) as [[level text]|] eqn:E.
  { by apply heading_html, (parse_heading_level line level text). }
  destruct (is_table_start (line :: rest)); [apply table_html|].
  repeat case_bool_decide; [apply blockquote_html|apply list_html..|apply paragraph_html].
Qed.

Lemma render_lines_html fuel lines : Html true (render_lines fuel lines).
Proof.
  revert lines. induction fuel as [|fuel IH]; intros [|line rest]; simpl; try constructor.
  pose proof (render_turn_html line rest) as H. destruct (render_turn line rest) as [out rest'].
  by apply Html_app.
Qed.

(** ** Text comes through *)

(** Escaping loses nothing. *)
Lemma escaped_char_inj c d x y :
  push_escaped_char c +:+ x = push_escaped_char d +:+ y -> c = d /\ x = y.
Proof.
  unfold push_escaped_char.
  repeat case_bool_decide; subst; intros Heq; try (by split; [|injection Heq]);
    try (by injection Heq; intros; subst; split); exfalso;
    first [discriminate Heq|injection Heq; intros; subst];
    match goal with H : ?a <> ?b |- _ => by destruct (H eq_refl) end.
Qed.

Lemma push_escaped_str_inj a b : push_escaped_str a = push_escaped_str b -> a = b.
Proof.
  assert (forall c x, push_escaped_char c +:+ x <> EmptyString) as Hne.
  { intros c x. unfold push_escaped_char. by repeat case_bool_decide. }
  revert b. induction a as [|c a IH]; intros [|d b] H; simpl in H; [done| | |].
  - symmetry in H. by apply Hne in H.
  - by apply Hne in H.
  - apply escaped_char_inj in H as [-> H]. f_equal. by apply IH.
Qed.

Lemma push_escaped_app a b : push_escaped_str (a +:+ b) = push_escaped_str a +:+ push_escaped_str b.
Proof.
  induction a as [|c a IH]; [done|]. rewrite str_app_cons. simpl. rewrite IH. by rewrite str_app_assoc.
Qed.

(** A code block holds its lines, escaped. *)
Lemma code_lines_eq code : code_lines code = push_escaped_str (join_char nl code).
Proof.
  unfold code_lines. induction code as [|l [|l' code] IH]; [done..|].
  change (push_escaped_str l +:+ String nl (join_char nl (map push_escaped_str (l' :: code)))
          = push_escaped_str (l +:+ String nl (join_char nl (l' :: code)))).
  rewrite IH push_escaped_app. done.
Qed.

(** The characters that begin markup inside a line. *)
Definition inline_markup (c : Ascii.ascii) : bool :=
  bool_decide (c = byte 92) || bool_decide (c = byte 96) || bool_decide (c = byte 42)
  || bool_decide (c = byte 91).

Lemma plain_text_escaped text :
  all_bytes (fun c => negb (inline_markup c)) text = true -> render_inline text = push_escaped_str text.
Proof.
  induction text as [|c text IH]; [done|]. cbn [all_bytes]. rewrite andb_true_iff negb_true_iff.
  unfold inline_markup. rewrite !orb_false_iff !bool_decide_eq_false. intros [[[[H1 H2] H3] H4] Hs].
  rewrite render_inline_eq. unfold inline_turn. rewrite !bool_decide_eq_false_2 //.
  by rewrite (IH Hs).
Qed.

(** *** Trimming keeps what is not white space *)

Lemma app_at_char c w : forall a x r,
  contains_char c w = false -> a +:+ String c x = w +:+ r ->
  exists a', a = w +:+ a' /\ r = a' +:+ String c x.
Proof.
  induction w as [|d w IH]; intros a x r Hw Ha; [by exists a|].
  simpl in Hw. apply orb_false_iff in Hw as [Hd Hw]. rewrite str_app_cons in Ha.
  destruct a as [|e a].
  - change ("" +:+ String c x) with (String c x) in Ha. injection Ha as -> _. by rewrite Ascii.eqb_refl in Hd.
  - rewrite str_app_cons in Ha. injection Ha as -> Ha. apply (IH _ _ _ Hw) in Ha as (a' & -> & ->).
    by exists a'.
Qed.

Lemma strip_any_at_char c ws a x r :
  Forall (fun w => contains_char c w = false) ws -> strip_any ws (a +:+ String c x) = Some r ->
  exists a', r = a' +:+ String c x.
Proof.
  induction 1 as [|w ws Hw _ IH]; [done|]. simpl.
  destruct (strip_prefix w (a +:+ String c x)) as [r'|] eqn:E; [|done].
  intros [= <-]. apply strip_prefix_Some, (app_at_char c) in E as (a' & _ & ->); [by exists a'|done].
Qed.

Lemma trim_with_at_char c ws fuel : forall a x,
  Forall (fun w => contains_char c w = false) ws ->
  exists a', trim_with ws fuel (a +:+ String c x) = a' +:+ String c x.
Proof.
  induction fuel as [|fuel IH]; intros a x Hws; [by exists a|]. simpl.
  destruct (strip_any ws (a +:+ String c x)) as [r|] eqn:E; [|by exists a].
  apply strip_any_at_char in E as [a' ->]; [|done]. by apply IH.
Qed.

Definition not_white (c : Ascii.ascii) : bool :=
  forallb (fun w => negb (contains_char c w)) white_space
  && forallb (fun w => negb (contains_char c w)) (map String.rev white_space).

Lemma not_white_Forall c ws :
  forallb (fun w => negb (contains_char c w)) ws = true -> Forall (fun w => contains_char c w = false) ws.
Proof.
  rewrite forallb_forall Forall_forall. intros H w Hw%list_elem_of_In%H. by apply negb_true_iff.
Qed.

(** A line with a character that is no white space is not blank. *)
Lemma trim_not_empty c a x : not_white c = true -> is_empty (trim (a +:+ String c x)) = false.
Proof.
  unfold not_white. rewrite andb_true_iff. intros [H1%not_white_Forall H2%not_white_Forall].
  unfold trim, trim_start.
  destruct (trim_with_at_char c white_space (String.length (a +:+ String c x)) a x H1) as [a' ->].
  unfold trim_end. rewrite str_rev_app.
  assert (String.rev (String c x) = String.rev x +:+ String c EmptyString) as ->.
  { change (String c x) with (String c EmptyString +:+ x). by rewrite str_rev_app. }
  rewrite -str_app_assoc. change (String c EmptyString +:+ String.rev a') with (String c (String.rev a')).
  destruct (trim_with_at_char c (map String.rev white_space) (String.length (a' +:+ String c x))
    (String.rev x) (String.rev a') H2) as [b ->].
  rewrite str_rev_app. destruct (String.rev (String c (String.rev a')) +:+ String.rev b) eqn:E; [|done].
  apply (f_equal String.length) in E. rewrite str_length_app in E.
  assert (String.length (String.rev (String c (String.rev a'))) <> O) as Hl.
  { change (String c (String.rev a')) with (String c EmptyString +:+ String.rev a').
    rewrite str_rev_app str_length_app. simpl. lia. }
  simpl in E. lia.
Qed.

Lemma span_until {A} (p : A -> bool) f a r :
  Forall (fun b => p b = true) f -> p a = false -> span p (f ++ a :: r) = (f, a :: r).
Proof. intros Hf Ha. induction Hf as [|b f Hb _ IH]; simpl; [by rewrite Ha|]. by rewrite Hb IH. Qed.

Lemma fenced_block lang code after :
  Forall (fun l => is_fence_line l = false) code ->
  render_all (("```" +:+ lang) :: code ++ "```" :: after)
  = render_code_block (trim lang) code +:+ render_all after.
Proof.
  intros Hc. rewrite render_eq. unfold render_turn.
  rewrite (trim_not_empty (byte 96) "" ("``" +:+ lang)) //.
  assert (fence_lang ("```" +:+ lang) = Some (trim lang)) as ->.
  { unfold fence_lang. by rewrite (proj2 (strip_prefix_Some "```" _ lang) eq_refl). }
  rewrite span_until //. eapply Forall_impl; [exact Hc|]. by intros l ->.
Qed.

(** ** Property *)

(** C34: whatever text is rendered, what comes out is well-formed HTML of the
    renderer's own making: text in which [&], [<], [>] and the quote stand only
    as references, and elements and links closed in the order they were
    opened, their attributes confined to their quotes and no link inside a
    link, so that nothing of the source becomes markup by itself.  And the text
    is kept: a line without markup is only escaped, a fenced block holds
    exactly the lines up to its closing fence, and escaping loses nothing. *)
Theorem render_writes_html :
  (forall source, Html true (render source)) /\
  (forall text, all_bytes (fun c => negb (inline_markup c)) text = true ->
     render_inline text = push_escaped_str text) /\
  (forall lang code after, Forall (fun l => is_fence_line l = false) code ->
     render_all (("```" +:+ lang) :: code ++ "```" :: after)
     = render_code_block (trim lang) code +:+ render_all after /\
     code_lines code = push_escaped_str (join_char nl code)) /\
  (forall a b, push_escaped_str a = push_escaped_str b -> a = b).
Proof.
  split; [|split; [exact plain_text_escaped|split; [|exact push_escaped_str_inj]]].
  - intros source. apply render_lines_html.
  - intros lang code after Hc. split; [by apply fenced_block|apply code_lines_eq].
Qed.

Lemma render_writes_html_witness :
  render_inline "a < b" = "a &lt; b" /\
  render_all ["```sh"; "x > y & z"; "```"; "end"]
  = render_code_block "sh" ["x > y & z"] +:+ render_all ["end"].
Proof.
  destruct render_writes_html as (_ & Hplain & Hfence & _). split.
  - rewrite (Hplain "a < b"); vm_compute; reflexivity.
  - destruct (Hfence "sh" ["x > y & z"] ["end"]) as [H _].
    + apply Forall_singleton. vm_compute. reflexivity.
    + rewrite (_ : trim "sh" = "sh") in H; [exact H|vm_compute; reflexivity].
Defined.
