(* ===== verification/LintTool.v ===== *)
(** * The lint on error enumerations ([non-exhaustive-check])

    A gate of the build: no public error enumeration may be marked
    [#[non_exhaustive]].  Parsing Rust is [syn]'s: a parsed file is a tree of
    items, and the arguments of an attribute are a stream that the operations of
    the class [Syn] read.  What the tool decides is modelled: which enumerations
    it looks at, the three-valued reading of a [cfg] predicate, and the verdict.
    The walk over directories and the printing are left out, with the
    order of what is printed. *)

From S2P Require Import Prelude Str.

Open Scope N_scope.

(** ** What [syn] gives *)

Section Syn.
  (** The arguments of an attribute. *)
  Context {Tokens : Type}.

Record Attribute := mkAttribute { attr_path : list string; attr_args : option Tokens }.

Inductive Vis := Vis_Public | Vis_Restricted | Vis_Inherited.

Record ItemEnum := mkItemEnum {
  enum_attrs : list Attribute;
  enum_vis : Vis;
  enum_ident : string;
  enum_line : N;
}.

Inductive Item :=
| Item_Enum (e : ItemEnum)
| Item_Mod (attrs : list Attribute) (content : option (list Item))
| Item_Other.

(** The parsers of [syn] that the tool calls; each leaves the tokens it did not
    read.  [parse_terminated] reads items separated by commas to the end of a
    stream, with the rest of the parsing given to it; [parse_args_with] asks
    that a parser leaves nothing. *)
Class Syn := {
  peek_lit_bool : Tokens -> option bool;
  after_lit_bool : Tokens -> Tokens;
  parse_any_ident : Tokens -> option (string * Tokens);
  peek_eq : Tokens -> bool;
  parse_eq : Tokens -> option Tokens;
  parse_lit_str : Tokens -> option Tokens;
  peek_paren : Tokens -> bool;
  parenthesized : Tokens -> option (Tokens * Tokens);
  parse_terminated : forall {A}, (Tokens -> option (A * Tokens)) -> Tokens -> option (list A);
  peek_comma : Tokens -> bool;
  parse_comma : Tokens -> option Tokens;
  at_end : Tokens -> bool;
  parse_paths : Tokens -> option (list (list string));
}.

(** ** [CfgTruth] *)

Inductive CfgTruth := Cfg_False | Cfg_True | Cfg_Unknown.
#[export] Instance CfgTruth_eq_dec : EqDecision CfgTruth.
Proof. solve_decision. Defined.

(** [all] and [any]: decided by one decisive value, unknown while one is. *)
Definition cfg_all_any (all : bool) (values : list CfgTruth) : CfgTruth :=
  let decisive := if all then Cfg_False else Cfg_True in
  if existsb (fun v => bool_decide (v = decisive)) values then decisive
  else if existsb (fun v => bool_decide (v = Cfg_Unknown)) values then Cfg_Unknown
  else if all then Cfg_True else Cfg_False.

Definition cfg_not (v : CfgTruth) : CfgTruth :=
  match v with Cfg_False => Cfg_True | Cfg_True => Cfg_False | Cfg_Unknown => Cfg_Unknown end.

(** What a name applied to the values of its arguments is worth. *)
Definition cfg_apply (name : string) (values : list CfgTruth) : option CfgTruth :=
  if bool_decide (name = "all") then Some (cfg_all_any true values)
  else if bool_decide (name = "any") then Some (cfg_all_any false values)
  else if bool_decide (name = "not") then
    match values with [v] => Some (cfg_not v) | _ => None end
  else None.

Context `{Syn}.

(** [CfgTruth::parse]; [fuel] bounds the nesting of the parentheses. *)
Fixpoint parse_cfg (fuel : nat) (input : Tokens) : option (CfgTruth * Tokens) :=
  match fuel with
  | O => None
  | S fuel =>
    match peek_lit_bool input with
    | Some b => Some (if b then Cfg_True else Cfg_False, after_lit_bool input)
    | None =>
      match parse_any_ident input with
      | None => None
      | Some (name, input) =>
        if peek_eq input then
          match parse_eq input ≫= parse_lit_str with
          | Some input => Some (Cfg_Unknown, input)
          | None => None
          end
        else if peek_paren input then
          match parenthesized input with
          | None => None
          | Some (content, input) =>
            match parse_terminated (parse_cfg fuel) content with
            | None => None
            | Some values => option_map (fun v => (v, input)) (cfg_apply name values)
            end
          end
        else Some (if bool_decide (name = "test") then Cfg_False else Cfg_Unknown, input)
      end
    end
  end.

Definition attr_path_is (attr : Attribute) (name : string) : bool :=
  bool_decide (attr_path attr = [name]).

(** A predicate, perhaps a comma, and nothing more. *)
Definition parse_cfg_args (fuel : nat) (input : Tokens) : option CfgTruth :=
  match parse_cfg fuel input with
  | None => None
  | Some (value, input) =>
    match (if peek_comma input then parse_comma input else Some input) with
    | Some input => if at_end input then Some value else None
    | None => None
    end
  end.

Definition is_cfg_disabled_without_test (fuel : nat) (attr : Attribute) : bool :=
  attr_path_is attr "cfg"
  && bool_decide ((attr_args attr ≫= parse_cfg_args fuel) = Some Cfg_False).

(** ** Enumerations *)

(** Every enumeration at the top or in an inline module that is compiled
    without tests. *)
Fixpoint item_enums (fuel : nat) (item : Item) : list ItemEnum :=
  match item with
  | Item_Enum e => [e]
  | Item_Mod attrs content =>
    if existsb (is_cfg_disabled_without_test fuel) attrs then []
    else match content with Some items => flat_map (item_enums fuel) items | None => [] end
  | Item_Other => []
  end.
Definition collect_enums (fuel : nat) (items : list Item) : list ItemEnum :=
  flat_map (item_enums fuel) items.

Definition derive_idents (attr : Attribute) : list string :=
  if negb (attr_path_is attr "derive") then []
  else
    match attr_args attr ≫= parse_paths with
    | Some paths => omap last paths
    | None => []
    end.

Definition is_violation (fuel : nat) (e : ItemEnum) : bool :=
  match enum_vis e with
  | Vis_Public =>
    if existsb (is_cfg_disabled_without_test fuel) (enum_attrs e) then false
    else
      let has_non_exhaustive := existsb (fun a => attr_path_is a "non_exhaustive") (enum_attrs e) in
      let derives := flat_map derive_idents (enum_attrs e) in
      existsb (fun d => bool_decide (d = "Error")) derives && has_non_exhaustive
  | Vis_Restricted | Vis_Inherited => false
  end.

Definition enum_span_line (e : ItemEnum) : option N :=
  if enum_line e =? 0 then None else Some (enum_line e).

(** ** A run *)

Record Violation := mkViolation { v_path : string; v_line : option N; v_enum_name : string }.

(** One file: how many enumerations it has, and its violations. *)
Definition scan_file (fuel : nat) (path : string) (items : list Item) : N * list Violation :=
  let enums := collect_enums fuel items in
  (N.of_nat (length enums),
   map (fun e => mkViolation path (enum_span_line e) (enum_ident e)) (List.filter (is_violation fuel) enums)).

(** The exit code, and the violations, before they are put in order. *)
Definition lint (fuel : nat) (files : list (string * list Item)) : N * list Violation :=
  let violations := flat_map (fun f => snd (scan_file fuel f.1 f.2)) files in
  match violations with
  | [] => (0, [])
  | _ => (1, violations)
  end.
End Syn.
Arguments Attribute : clear implicits.
Arguments ItemEnum : clear implicits.
Arguments Item : clear implicits.
Arguments Syn : clear implicits.

(** ** What a predicate means *)

Inductive Predicate :=
| P_Bool (b : bool)
| P_Option (name : string)
| P_KeyValue (name : string)
| P_All (ps : list Predicate)
| P_Any (ps : list Predicate)
| P_Not (p : Predicate).

(** In a build that sets the options for which [set] holds; of a key with a
    value only the key is looked at here, so that [set] may answer as it likes. *)
Fixpoint holds (set : string -> bool) (set_value : string -> bool) (p : Predicate) : bool :=
  match p with
  | P_Bool b => b
  | P_Option name => set name
  | P_KeyValue name => set_value name
  | P_All ps => forallb (holds set set_value) ps
  | P_Any ps => existsb (holds set set_value) ps
  | P_Not p => negb (holds set set_value p)
  end.

(** A predicate that no build without tests satisfies. *)
Definition never_without_test (p : Predicate) : Prop :=
  forall set set_value, set "test" = false -> holds set set_value p = false.

Section Reading.
  Context {Tokens : Type} `{S : Syn Tokens}.

(** [reads s p s']: the predicate [p] stands at the front of [s], and [s']
    follows it. *)
Inductive reads : Tokens -> Predicate -> Tokens -> Prop :=
| Reads_bool s b : peek_lit_bool s = Some b -> reads s (P_Bool b) (after_lit_bool s)
| Reads_option s name s' : peek_lit_bool s = None -> parse_any_ident s = Some (name, s') ->
    peek_eq s' = false -> peek_paren s' = false -> reads s (P_Option name) s'
| Reads_key_value s name s1 s2 s3 : peek_lit_bool s = None -> parse_any_ident s = Some (name, s1) ->
    parse_eq s1 = Some s2 -> parse_lit_str s2 = Some s3 -> reads s (P_KeyValue name) s3
| Reads_all s s1 content s2 ps : peek_lit_bool s = None -> parse_any_ident s = Some ("all", s1) ->
    parenthesized s1 = Some (content, s2) -> reads_list content ps -> reads s (P_All ps) s2
| Reads_any s s1 content s2 ps : peek_lit_bool s = None -> parse_any_ident s = Some ("any", s1) ->
    parenthesized s1 = Some (content, s2) -> reads_list content ps -> reads s (P_Any ps) s2
| Reads_not s s1 content s2 p : peek_lit_bool s = None -> parse_any_ident s = Some ("not", s1) ->
    parenthesized s1 = Some (content, s2) -> reads_list content [p] -> reads s (P_Not p) s2
with reads_list : Tokens -> list Predicate -> Prop :=
| Reads_end s : at_end s = true -> reads_list s []
| Reads_last s p s' : reads s p s' -> at_end s' = true -> reads_list s [p]
| Reads_more s p s1 s2 ps : reads s p s1 -> parse_comma s1 = Some s2 -> reads_list s2 ps ->
    reads_list s (p :: ps).

(** The whole of an attribute's arguments, perhaps with a last comma. *)
Definition reads_args (s : Tokens) (p : Predicate) : Prop :=
  exists s1, reads s p s1 /\
    (at_end s1 = true \/ exists s2, parse_comma s1 = Some s2 /\ at_end s2 = true).

(** What [parse_terminated] has read, by the parser it was given. *)
Inductive terminated {A} (f : Tokens -> option (A * Tokens)) : Tokens -> list A -> Prop :=
| Terminated_end s : at_end s = true -> terminated f s []
| Terminated_last s a s' : f s = Some (a, s') -> at_end s' = true -> terminated f s [a]
| Terminated_more s a s1 s2 l : f s = Some (a, s1) -> parse_comma s1 = Some s2 ->
    terminated f s2 l -> terminated f s (a :: l).

Class SynLaws : Prop := {
  parse_terminated_spec : forall {A} (f : Tokens -> option (A * Tokens)) s l,
    parse_terminated f s = Some l -> terminated f s l;
}.

(** *** The three values *)

Fixpoint truth (p : Predicate) : CfgTruth :=
  match p with
  | P_Bool b => if b then Cfg_True else Cfg_False
  | P_Option name => if bool_decide (name = "test") then Cfg_False else Cfg_Unknown
  | P_KeyValue _ => Cfg_Unknown
  | P_All ps => cfg_all_any true (map truth ps)
  | P_Any ps => cfg_all_any false (map truth ps)
  | P_Not p => cfg_not (truth p)
  end.

(** A value that is known is the predicate's in every build without tests. *)
Definition agrees (v : CfgTruth) (b : bool) : Prop :=
  match v with Cfg_False => b = false | Cfg_True => b = true | Cfg_Unknown => True end.

Lemma all_any_agrees all vs bs : Forall2 agrees vs bs ->
  agrees (cfg_all_any all vs) (if all then forallb id bs else existsb id bs).
Proof.
  intros Hf. unfold cfg_all_any.
  destruct (existsb _ vs) eqn:Ed.
  - apply existsb_exists in Ed as (v & Hv%list_elem_of_In & Heq%bool_decide_eq_true).
    apply list_elem_of_lookup in Hv as [i Hi]. destruct (Forall2_lookup_l _ _ _ _ _ Hf Hi) as (b & Hb & Hab).
    apply list_elem_of_lookup_2, list_elem_of_In in Hb. rewrite Heq in Hab. destruct all; simpl in *.
    + apply not_true_is_false. intros Ht. rewrite forallb_forall in Ht. specialize (Ht b Hb). by rewrite Hab in Ht.
    + apply existsb_exists. by exists b.
  - destruct (existsb _ vs) eqn:Eu at 1; [done|].
    assert (Forall2 (fun v b => v = (if all then Cfg_True else Cfg_False)) vs bs) as Hv.
    { clear -Hf Ed Eu. induction Hf as [|v b vs bs Hab _ IH]; [constructor|]. simpl in *.
      apply orb_false_iff in Ed as [Hd Ed], Eu as [Hu Eu]. constructor; [|by apply IH].
      apply bool_decide_eq_false in Hd, Hu. by destruct all, v. }
    clear Ed Eu. induction Hf as [|v b vs bs Hab Hf IH]; [by destruct all|].
    inversion_clear Hv as [|???? Hvb Hvs]. specialize (IH Hvs). subst v. destruct all; simpl in *; subst b; done.
Qed.

Lemma holds_all set sv ps : forallb (holds set sv) ps = forallb id (map (holds set sv) ps).
Proof. induction ps as [|p ps IH]; [done|]. simpl. by rewrite IH. Qed.
Lemma holds_any set sv ps : existsb (holds set sv) ps = existsb id (map (holds set sv) ps).
Proof. induction ps as [|p ps IH]; [done|]. simpl. by rewrite IH. Qed.

Fixpoint truth_agrees set sv (Htest : set "test" = false) (p : Predicate) {struct p} :
  agrees (truth p) (holds set sv p).
Proof.
  destruct p as [b|name|name|ps|ps|p]; simpl.
  - by destruct b.
  - case_bool_decide; [by subst|done].
  - done.
  - rewrite holds_all. apply (all_any_agrees true).
    induction ps as [|p ps IH]; simpl; constructor; [apply truth_agrees, Htest|exact IH].
  - rewrite holds_any. apply (all_any_agrees false).
    induction ps as [|p ps IH]; simpl; constructor; [apply truth_agrees, Htest|exact IH].
  - pose proof (truth_agrees set sv Htest p) as H. destruct (truth p); simpl in *; [by rewrite H|by rewrite H|done].
Qed.

Lemma truth_false p : truth p = Cfg_False -> never_without_test p.
Proof. intros Ht set sv Hs. pose proof (truth_agrees set sv Hs p) as H. by rewrite Ht in H. Qed.

Section Laws.
  Context {Laws : SynLaws}.

Lemma terminated_reads fuel s vs :
  (forall s v s', parse_cfg fuel s = Some (v, s') -> exists p, reads s p s' /\ truth p = v) ->
  terminated (parse_cfg fuel) s vs -> exists ps, reads_list s ps /\ map truth ps = vs.
Proof.
  intros IH. induction 1 as [s He|s v s' Hv He|s v s1 s2 l Hv Hc _ (ps & Hps & <-)].
  - exists []. split; [by constructor|done].
  - apply IH in Hv as (p & Hp & <-). exists [p]. split; [by eapply Reads_last|done].
  - apply IH in Hv as (p & Hp & <-). exists (p :: ps). split; [by eapply Reads_more|done].
Qed.

(** What [CfgTruth::parse] returns is the three-valued truth of the predicate
    that stands there. *)
Lemma parse_cfg_reads fuel s v s' :
  parse_cfg fuel s = Some (v, s') -> exists p, reads s p s' /\ truth p = v.
Proof.
  revert s v s'. induction fuel as [|fuel IH]; intros s v s'; [done|]. simpl.
  destruct (peek_lit_bool s) as [b|] eqn:Eb.
  { intros [= <- <-]. exists (P_Bool b). split; [by constructor|done]. }
  destruct (parse_any_ident s) as [[name s1]|] eqn:Ei; [|done].
  destruct (peek_eq s1) eqn:Eeq.
  { destruct (parse_eq s1) as [s2|] eqn:E2; [|done]. simpl.
    destruct (parse_lit_str s2) as [s3|] eqn:E3; [|done]. intros [= <- <-].
    exists (P_KeyValue name). split; [by eapply Reads_key_value|done]. }
  destruct (peek_paren s1) eqn:Ep.
  2: { intros [= <- <-]. exists (P_Option name). split; [by constructor|done]. }
  destruct (parenthesized s1) as [[content s2]|] eqn:Ec; [|done].
  destruct (parse_terminated (parse_cfg fuel) content) as [vs|] eqn:Et; [|done].
  apply parse_terminated_spec, terminated_reads in Et as (ps & Hps & <-); [|exact IH].
  unfold cfg_apply.
  destruct (bool_decide_reflect (name = "all")) as [-> |_].
  { intros [= <- <-]. exists (P_All ps). split; [by eapply Reads_all|done]. }
  destruct (bool_decide_reflect (name = "any")) as [-> |_].
  { intros [= <- <-]. exists (P_Any ps). split; [by eapply Reads_any|done]. }
  destruct (bool_decide_reflect (name = "not")) as [-> |_]; [|done].
  destruct ps as [|p [|? ?]]; [done| |done]. intros [= <- <-].
  exists (P_Not p). split; [by eapply Reads_not|done].
Qed.

(** An attribute that switches a declaration off in every build without tests. *)
Definition switched_off (attr : Attribute Tokens) : Prop :=
  attr_path attr = ["cfg"] /\
  exists args p, attr_args attr = Some args /\ reads_args args p /\ never_without_test p.

Lemma disabled_switched_off fuel attr :
  is_cfg_disabled_without_test fuel attr = true -> switched_off attr.
Proof.
  unfold is_cfg_disabled_without_test, attr_path_is. rewrite andb_true_iff !bool_decide_eq_true.
  intros [Hp Ha]. split; [done|]. destruct (attr_args attr) as [args|]; [|done]. simpl in Ha.
  unfold parse_cfg_args in Ha. destruct (parse_cfg fuel args) as [[v s1]|] eqn:E; [|done].
  apply parse_cfg_reads in E as (p & Hr & Ht). exists args, p. split; [done|].
  destruct (peek_comma s1); [destruct (parse_comma s1) as [s2|] eqn:E2; [|done]|].
  - destruct (at_end s2) eqn:Ee; [|done]. injection Ha as ->. split; [|by apply truth_false].
    exists s1. split; [done|]. right. by exists s2.
  - destruct (at_end s1) eqn:Ee; [|done]. injection Ha as ->. split; [|by apply truth_false].
    exists s1. split; [done|]. by left.
Qed.

(** *** Declarations *)

(** [declares items attributes e]: [e] stands in [items], inside modules with
    these attributes. *)
Inductive declares : list (Item Tokens) -> list (list (Attribute Tokens)) -> ItemEnum Tokens -> Prop :=
| Declares_here items e : Item_Enum e ∈ items -> declares items [] e
| Declares_inside items attrs content outer e :
    Item_Mod attrs (Some content) ∈ items -> declares content outer e -> declares items (attrs :: outer) e.

(** An enumeration that is looked at unless a module around it is switched off. *)
Lemma declared_collected fuel items outer e :
  declares items outer e ->
  Exists (Exists switched_off) outer \/ e ∈ collect_enums fuel items.
Proof.
  induction 1 as [items e Hin|items attrs content outer e Hin _ IH].
  - right. unfold collect_enums. apply list_elem_of_In, in_flat_map. exists (Item_Enum e).
    split; [by apply list_elem_of_In|by left].
  - destruct (existsb (is_cfg_disabled_without_test fuel) attrs) eqn:E.
    { left. left. apply existsb_exists in E as (a & Ha%list_elem_of_In & Hd).
      apply Exists_exists. exists a. split; [done|by eapply disabled_switched_off]. }
    destruct IH as [IH|IH]; [left; by right|right].
    unfold collect_enums in *. apply list_elem_of_In, in_flat_map.
    exists (Item_Mod attrs (Some content)). split; [by apply list_elem_of_In|].
    simpl. rewrite E. by apply list_elem_of_In.
Qed.

(** What is looked at stands in the file. *)
Fixpoint item_enums_declared fuel (item : Item Tokens) {struct item} :
  forall items e, item ∈ items -> e ∈ item_enums fuel item -> exists outer, declares items outer e.
Proof.
  destruct item as [e'|attrs content|]; intros items e Hin He; simpl in He.
  - apply list_elem_of_singleton in He as ->. exists []. by constructor.
  - destruct (existsb _ attrs); [by apply not_elem_of_nil in He|].
    destruct content as [content|]; [|by apply not_elem_of_nil in He].
    assert (forall all, (forall i, i ∈ content -> i ∈ all) ->
      e ∈ flat_map (item_enums fuel) content -> exists outer, declares all outer e) as Hall.
    { clear He Hin. induction content as [|i0 content IH]; intros all Hsub He; simpl in He.
      - by apply not_elem_of_nil in He.
      - apply elem_of_app in He as [He|He].
        + apply (item_enums_declared fuel i0); [apply Hsub, list_elem_of_here|exact He].
        + apply IH; [|exact He]. intros i Hi. by apply Hsub, list_elem_of_further. }
    destruct (Hall content (fun i Hi => Hi) He) as [outer Hd].
    exists (attrs :: outer). by eapply Declares_inside.
  - by apply not_elem_of_nil in He.
Qed.

Lemma collected_declared fuel items e : e ∈ collect_enums fuel items -> exists outer, declares items outer e.
Proof.
  intros He. apply list_elem_of_In, in_flat_map in He as (i & Hi & He).
  apply (item_enums_declared fuel i); by apply list_elem_of_In.
Qed.

(** A public enumeration that derives something called [Error] and is marked. *)
Definition marked_error (e : ItemEnum Tokens) : Prop :=
  enum_vis e = Vis_Public /\
  (exists a args paths path, a ∈ enum_attrs e /\ attr_path a = ["derive"] /\ attr_args a = Some args /\
     parse_paths args = Some paths /\ path ∈ paths /\ last path = Some "Error") /\
  (exists a, a ∈ enum_attrs e /\ attr_path a = ["non_exhaustive"]).

Lemma derive_idents_spec a d : d ∈ derive_idents a <->
  attr_path a = ["derive"] /\ exists args paths path, attr_args a = Some args /\
    parse_paths args = Some paths /\ path ∈ paths /\ last path = Some d.
Proof.
  unfold derive_idents, attr_path_is. destruct (bool_decide_reflect (attr_path a = ["derive"])) as [Hp|Hp]; simpl.
  2: { split; [by intros H%not_elem_of_nil|by intros [? _]]. }
  destruct (attr_args a) as [args|]; simpl; [|split; [by intros H%not_elem_of_nil|naive_solver]].
  destruct (parse_paths args) as [paths|] eqn:E; [|split; [by intros H%not_elem_of_nil|naive_solver]].
  rewrite list_elem_of_omap. naive_solver.
Qed.

Lemma violation_iff fuel e :
  is_violation fuel e = true <->
  marked_error e /\ existsb (is_cfg_disabled_without_test fuel) (enum_attrs e) = false.
Proof.
  unfold is_violation, marked_error. destruct (enum_vis e); [|naive_solver..].
  destruct (existsb (is_cfg_disabled_without_test fuel) (enum_attrs e)); [naive_solver|].
  rewrite andb_true_iff !existsb_exists. setoid_rewrite in_flat_map. unfold attr_path_is.
  split.
  - intros [(d & (a & Ha & Hd) & ->%bool_decide_eq_true) (b & Hb & Hn%bool_decide_eq_true)]. apply list_elem_of_In in Ha, Hb.
    apply list_elem_of_In, derive_idents_spec in Hd as (Hp & args & paths & path & H).
    split_and!; [done| |by exists b|done]. exists a, args, paths, path. naive_solver.
  - intros [(_ & (a & args & paths & path & Ha & Hp & Harg & Hpp & Hin & Hl) & (b & Hb & Hn)) _]. split.
    + exists "Error". split; [|by apply bool_decide_eq_true]. exists a. split; [by apply list_elem_of_In|].
      apply list_elem_of_In, derive_idents_spec. split; [done|]. by exists args, paths, path.
    + exists b. split; [by apply list_elem_of_In|by apply bool_decide_eq_true].
Qed.

(** What the gate accepts.  When it exits with success, every public
    enumeration that derives something called [Error] and is marked
    [non_exhaustive], in whatever inline modules of whatever file it is
    declared, is compiled only with tests: it or a module around it carries a
    [cfg] whose predicate is false in every build that does not set [test],
    whatever its other options.  When it exits with an error, each violation it
    reports is such an enumeration of the file named, at its line, and none of
    its own predicates is found false. *)
Lemma lint_exact fuel files :
  (fst (lint fuel files) = 0 ->
   forall path items outer e, (path, items) ∈ files -> declares items outer e -> marked_error e ->
     Exists (Exists switched_off) (enum_attrs e :: outer)) /\
  (fst (lint fuel files) <> 0 ->
   snd (lint fuel files) <> [] /\
   forall v, v ∈ snd (lint fuel files) -> exists path items outer e,
     (path, items) ∈ files /\ declares items outer e /\ marked_error e /\
     existsb (is_cfg_disabled_without_test fuel) (enum_attrs e) = false /\
     v = mkViolation path (enum_span_line e) (enum_ident e)).
Proof.
  assert (forall v, v ∈ flat_map (fun f => snd (scan_file fuel f.1 f.2)) files <->
    exists path items e, (path, items) ∈ files /\ e ∈ collect_enums fuel items /\
      is_violation fuel e = true /\ v = mkViolation path (enum_span_line e) (enum_ident e)) as Hv.
  { intros v. rewrite list_elem_of_In in_flat_map. split.
    - intros ([path items] & Hf%list_elem_of_In & Hv). simpl in Hv.
      apply in_map_iff in Hv as (e & <- & [He%list_elem_of_In Hvi]%filter_In). by exists path, items, e.
    - intros (path & items & e & Hf & He & Hvi & ->). exists (path, items).
      split; [by apply list_elem_of_In|]. simpl. apply in_map_iff. exists e. split; [done|].
      apply filter_In. split; [by apply list_elem_of_In|done]. }
  unfold lint. destruct (flat_map _ files) as [|v0 vs] eqn:E; simpl.
  - split; [|done]. intros _ path items outer e Hf Hd Hm.
    destruct (declared_collected fuel items outer e Hd) as [Hoff|Hin]; [by right|].
    destruct (existsb (is_cfg_disabled_without_test fuel) (enum_attrs e)) eqn:Ed.
    + left. apply existsb_exists in Ed as (a & Ha%list_elem_of_In & Ho).
      apply Exists_exists. exists a. split; [done|by eapply disabled_switched_off].
    + exfalso. apply (not_elem_of_nil (mkViolation path (enum_span_line e) (enum_ident e))).
      apply Hv. exists path, items, e. split_and!; try done. by apply violation_iff.
  - split; [done|]. intros _. split; [done|]. intros v Hin.
    apply Hv in Hin as (path & items & e & Hf & He & [Hm Hno]%violation_iff & ->).
    destruct (collected_declared fuel items e He) as [outer Hd]. by exists path, items, outer, e.
Qed.
End Laws.
End Reading.

(** ** A file with an enumeration of the tests *)

Inductive Token := T_Name (s : string) | T_Str | T_Eq | T_Comma | T_Paren (ts : list Token) | T_Path (p : list string).

Fixpoint comma_separated {A} (f : list Token -> option (A * list Token)) (n : nat) (s : list Token) : option (list A) :=
  match n, s with
  | _, [] => Some []
  | O, _ => None
  | S n, _ =>
    match f s with
    | Some (a, []) => Some [a]
    | Some (a, T_Comma :: rest) => option_map (cons a) (comma_separated f n rest)
    | _ => None
    end
  end.

#[local] Instance token_syn : Syn (list Token) := {|
  peek_lit_bool s :=
    match s with T_Name "true" :: _ => Some true | T_Name "false" :: _ => Some false | _ => None end;
  after_lit_bool s := tail s;
  parse_any_ident s := match s with T_Name n :: s => Some (n, s) | _ => None end;
  peek_eq s := match s with T_Eq :: _ => true | _ => false end;
  parse_eq s := match s with T_Eq :: s => Some s | _ => None end;
  parse_lit_str s := match s with T_Str :: s => Some s | _ => None end;
  peek_paren s := match s with T_Paren _ :: _ => true | _ => false end;
  parenthesized s := match s with T_Paren c :: s => Some (c, s) | _ => None end;
  parse_terminated A f s := comma_separated f (length s) s;
  peek_comma s := match s with T_Comma :: _ => true | _ => false end;
  parse_comma s := match s with T_Comma :: s => Some s | _ => None end;
  at_end s := match s with [] => true | _ => false end;
  parse_paths s := Some (omap (fun t => match t with T_Path p => Some p | _ => None end) s);
|}.

#[local] Instance token_syn_laws : SynLaws (S := token_syn).
Proof.
  split. intros A f s l. change (comma_separated f (length s) s = Some l -> terminated f s l).
  generalize (length s). intros n. revert s l. induction n as [|n IH]; intros [|t s] l; simpl; try done.
  1,2: intros [= <-]; by apply Terminated_end.
  destruct (f (t :: s)) as [[a [|[] rest]]|] eqn:E; try done.
  - intros [= <-]. by eapply Terminated_last.
  - destruct (comma_separated f n rest) as [l'|] eqn:Ec; [|done]. intros [= <-].
    eapply Terminated_more; [exact E|done|by apply IH].
Qed.

Definition attribute (path : string) (args : list Token) : Attribute (list Token) :=
  mkAttribute [path] (Some args).
Definition test_error (attrs : list (Attribute (list Token))) : ItemEnum (list Token) :=
  mkItemEnum (attrs ++ [attribute "derive" [T_Path ["thiserror"; "Error"]]; attribute "non_exhaustive" []])
    Vis_Public "E" 7.
(** [all(test, feature = "x")]. *)
Definition test_predicate : list Token :=
  [T_Name "all"; T_Paren [T_Name "test"; T_Comma; T_Name "feature"; T_Eq; T_Str]].
Definition sample_items : list (Item (list Token)) :=
  [Item_Mod [attribute "cfg" test_predicate] (Some [Item_Enum (test_error [])])].

Lemma lint_exact_witness :
  lint 3 [("src/lib.rs", sample_items)] = (0, []) /\
  Exists (Exists switched_off) (enum_attrs (test_error []) :: [[attribute "cfg" test_predicate]]) /\
  snd (lint 3 [("src/lib.rs", [Item_Enum (test_error [])])]) = [mkViolation "src/lib.rs" (Some 7) "E"].
Proof.
  assert (Hl : lint 3 [("src/lib.rs", sample_items)] = (0, [])) by (vm_compute; reflexivity).
  split; [exact Hl|]. split; [|vm_compute; reflexivity].
  destruct (lint_exact 3 [("src/lib.rs", sample_items)]) as [H _].
  apply (H (f_equal fst Hl) "src/lib.rs" sample_items).
  - apply list_elem_of_here.
  - eapply Declares_inside; [apply list_elem_of_here|]. apply Declares_here, list_elem_of_here.
  - split; [reflexivity|]. split.
    + exists (attribute "derive" [T_Path ["thiserror"; "Error"]]), [T_Path ["thiserror"; "Error"]],
        [["thiserror"; "Error"]], ["thiserror"; "Error"].
      split; [apply list_elem_of_here|]. split; [reflexivity|]. split; [reflexivity|].
      split; [reflexivity|]. split; [apply list_elem_of_here|reflexivity].
    + exists (attribute "non_exhaustive" []). split; [|reflexivity].
      apply list_elem_of_further, list_elem_of_here.
Defined.
