(* ===== verification/CloudLogging.v ===== *)
(** * The log lines ([infra/cloud_logging.rs])

    One JSON object for each event: the severity, the message, the time, the
    target and the two correlation ids, then the fields of the event.  The
    time of day is worked out by the code itself, without a library: it is
    compared here with a calendar that counts the seconds one by one. *)

From S2P Require Import Prelude Str Metrics.

Open Scope N_scope.

(** ** The time of a line *)

(** [u64::cast_signed] and [i64::cast_unsigned]. *)
Definition cast_signed (n : N) : Z :=
  if n <? 2 ^ 63 then Z.of_N n else (Z.of_N n - 2 ^ 64)%Z.
Definition cast_unsigned (z : Z) : N := Z.to_N (z mod 2 ^ 64).

(** The year, month and day of a day of an era of 400 years, which starts on
    the first of March. *)
Definition civil_of_era (era : Z) (doe : N) : Z * N * N :=
  let yoe := (doe - doe / 1460 + doe / 36524 - doe / 146096) / 365 in
  let y := (cast_signed yoe + era * 400)%Z in
  let doy := doe - (365 * yoe + yoe / 4 - yoe / 100) in
  let mp := (5 * doy + 2) / 153 in
  let d := doy - (153 * mp + 2) / 5 + 1 in
  let m := if mp <? 10 then mp + 3 else mp - 9 in
  ((if m <=? 2 then (y + 1)%Z else y), m, d).

(** The date of a number of days after the first of January 1970. *)
Definition civil_date (days : N) : Z * N * N :=
  let z := (cast_signed days + 719468)%Z in
  civil_of_era (z / 146097) (cast_unsigned (z mod 146097)).

(** [{:02}] and its kin. *)
Definition padded (width n : N) : string := pad_zeros width (pretty n).
Definition padded_i64 (width : N) (z : Z) : string := pad_zeros width (pretty z).

(** [{y:04}-{m:02}-{d:02}T{hour:02}:{minute:02}:{second:02}.{micros:06}Z]. *)
Definition rfc3339_text (date : Z * N * N) (hour minute second micros : N) : string :=
  let '(y, m, d) := date in
  padded_i64 4 y +:+ "-" +:+ padded 2 m +:+ "-" +:+ padded 2 d +:+ "T" +:+ padded 2 hour
  +:+ ":" +:+ padded 2 minute +:+ ":" +:+ padded 2 second +:+ "." +:+ padded 6 micros +:+ "Z".

(** [format_rfc3339_now]: [now] is the time since the Unix epoch in seconds and
    microseconds, absent on a clock that stands before it. *)
Definition format_rfc3339_now (now : option (N * N)) : string :=
  let '(secs, micros) := default (0, 0) now in
  let days := secs / 86400 in
  let day_secs := secs mod 86400 in
  rfc3339_text (civil_date days) (day_secs / 3600) ((day_secs mod 3600) / 60) (day_secs mod 60) micros.

(** ** The calendar *)

Definition is_leap (y : Z) : bool :=
  (y mod 4 =? 0)%Z && (negb (y mod 100 =? 0)%Z || (y mod 400 =? 0)%Z).

Definition month_length (y : Z) (m : N) : N :=
  match m with
  | 4 | 6 | 9 | 11 => 30
  | 2 => if is_leap y then 29 else 28
  | _ => 31
  end.

Definition next_day (date : Z * N * N) : Z * N * N :=
  let '(y, m, d) := date in
  if d <? month_length y m then (y, m, d + 1)
  else if m <? 12 then (y, m + 1, 1)
  else ((y + 1)%Z, 1, 1).

(** A clock that shows the date, the hour, the minute and the second. *)
Definition Clock : Type := (Z * N * N) * N * N * N.

Definition tick (c : Clock) : Clock :=
  let '(date, hour, minute, second) := c in
  if second <? 59 then (date, hour, minute, second + 1)
  else if minute <? 59 then (date, hour, minute + 1, 0)
  else if hour <? 23 then (date, hour + 1, 0, 0)
  else (next_day date, 0, 0, 0).

(** The clock after so many seconds since midnight, the first of January 1970. *)
Definition clock_after (secs : N) : Clock := N.iter secs tick ((1970%Z, 1, 1), 0, 0, 0).

Definition clock_text (c : Clock) (micros : N) : string :=
  let '(date, hour, minute, second) := c in rfc3339_text date hour minute second micros.

(** ** The line of an event *)

(** [tracing::Level]. *)
Inductive Level := ERROR | WARN | INFO | DEBUG | TRACE.

Definition severity (l : Level) : string :=
  match l with ERROR => "ERROR" | WARN => "WARNING" | INFO => "INFO" | DEBUG | TRACE => "DEBUG" end.

(** The method of [Visit] a field is recorded by; [record_debug] gets the text
    of its [Debug] form. *)
Inductive FieldValue (F : Type) :=
| Rec_f64 (value : F)
| Rec_i64 (value : Z)
| Rec_u64 (value : N)
| Rec_bool (value : bool)
| Rec_str (value : string)
| Rec_debug (formatted : string).
Arguments Rec_f64 {F} _.
Arguments Rec_i64 {F} _.
Arguments Rec_u64 {F} _.
Arguments Rec_bool {F} _.
Arguments Rec_str {F} _.
Arguments Rec_debug {F} _.

Record Event (F : Type) := mkEvent {
  ev_level : Level;
  ev_target : string;
  ev_fields : list (string * FieldValue F);
}.
Arguments mkEvent {F} _ _ _.
Arguments ev_level {F} _.
Arguments ev_target {F} _.
Arguments ev_fields {F} _.

(** [serde_json], [uuid], the clock and the standard output. *)
Class LogEnv (V F W : Type) := {
  json_str : string -> V;
  json_f64 : F -> V;
  json_i64 : Z -> V;
  json_u64 : N -> V;
  json_bool : bool -> V;
  from_str : string -> option V;
  map_to_string : gmap string V -> string;
  now_v7 : W -> string * W;
  since_epoch : W -> option (N * N) * W;
  writeln : string -> W -> W;
}.

Section Lines.
  Context {V F W : Type} `{!LogEnv V F W}.
  (** The environment variable [K_REVISION]. *)
  Context (k_revision : option string).

(** The two [OnceLock]s of the process. *)
Record Process := mkProcess {
  RUN_ID : option string;
  INSTANCE_ID : option string;
}.

Definition run_id (p : Process) (w : W) : string * Process * W :=
  match RUN_ID p with
  | Some id => (id, p, w)
  | None => let '(id, w) := now_v7 w in (id, mkProcess (Some id) (INSTANCE_ID p), w)
  end.

Definition instance_id (p : Process) (w : W) : string * Process * W :=
  match INSTANCE_ID p with
  | Some id => (id, p, w)
  | None =>
    let '(id, w) := match k_revision with Some revision => (revision, w) | None => now_v7 w end in
    (id, mkProcess (RUN_ID p) (Some id), w)
  end.

Record JsonVisitor := mkJsonVisitor {
  fields : gmap string V;
  message : option string;
}.

Definition insert_field (name : string) (v : V) (visitor : JsonVisitor) : JsonVisitor :=
  mkJsonVisitor (<[name := v]> (fields visitor)) (message visitor).

Definition record_str (name value : string) (visitor : JsonVisitor) : JsonVisitor :=
  if String.eqb name "message" then mkJsonVisitor (fields visitor) (Some value)
  else if String.eqb name "error_chain" then
    insert_field name (default (json_str value) (from_str value)) visitor
  else insert_field name (json_str value) visitor.

(** The quote character. *)
Definition quote : string := bytes [34%N].

Definition record_debug (name formatted : string) (visitor : JsonVisitor) : JsonVisitor :=
  if String.eqb name "message" then
    mkJsonVisitor (fields visitor)
      (Some (default formatted (strip_prefix quote formatted ≫= strip_suffix quote)))
  else insert_field name (json_str formatted) visitor.

Definition record_field (visitor : JsonVisitor) (f : string * FieldValue F) : JsonVisitor :=
  let '(name, value) := f in
  match value with
  | Rec_f64 value => insert_field name (json_f64 value) visitor
  | Rec_i64 value => insert_field name (json_i64 value) visitor
  | Rec_u64 value => insert_field name (json_u64 value) visitor
  | Rec_bool value => insert_field name (json_bool value) visitor
  | Rec_str value => record_str name value visitor
  | Rec_debug formatted => record_debug name formatted visitor
  end.

Definition record (e : Event F) : JsonVisitor := foldl record_field (mkJsonVisitor ∅ None) (ev_fields e).

(** [CloudLoggingLayer::on_event] up to the object of the line. *)
Definition log_object (e : Event F) (p : Process) (w : W) : gmap string V * Process * W :=
  let visitor := record e in
  let '(now, w) := since_epoch w in
  let timestamp := format_rfc3339_now now in
  let target := ev_target e in
  let json : gmap string V := ∅ in
  let json := <["severity" := json_str (severity (ev_level e))]> json in
  let json := <["message" := json_str (default target (message visitor))]> json in
  let json := <["time" := json_str timestamp]> json in
  let json := <["target" := json_str target]> json in
  let '(run, p, w) := run_id p w in
  let json := <["run_id" := json_str run]> json in
  let '(instance, p, w) := instance_id p w in
  let json := <["instance_id" := json_str instance]> json in
  let json := foldl (fun json '(k, v) => <[k := v]> json) json (map_to_list (fields visitor)) in
  (json, p, w).

Definition on_event (e : Event F) (p : Process) (w : W) : Process * W :=
  let '(json, p, w) := log_object e p w in
  (p, writeln (map_to_string json) w).

(** The objects of the lines that some events write in turn. *)
Fixpoint log_objects (es : list (Event F)) (p : Process) (w : W) : list (gmap string V) * Process * W :=
  match es with
  | [] => ([], p, w)
  | e :: es =>
    let '(json, p1, w1) := log_object e p w in
    let '(jsons, p2, w2) := log_objects es p1 (writeln (map_to_string json) w1) in
    (json :: jsons, p2, w2)
  end.
End Lines.

(** ** The dates of the code are those of the calendar *)

Definition shift (years : Z) (date : Z * N * N) : Z * N * N :=
  let '(y, m, d) := date in ((y + years)%Z, m, d).

Lemma is_leap_shift y k : is_leap (y + 400 * k) = is_leap y.
Proof.
  unfold is_leap. assert (forall n, (n * (400 / n) = 400)%Z -> (n <> 0)%Z -> ((y + 400 * k) mod n = y mod n)%Z) as H.
  { intros n Hn H0. rewrite -{1}Hn -Z.mul_assoc (Z.mul_comm n) Z.mod_add //. }
  rewrite !H //.
Qed.

(** A year is counted from its first of March: the date of a day of it is
    relative to the calendar year of that day. *)
Definition rel_date (doy : N) : Z * N * N :=
  let mp := (5 * doy + 2) / 153 in
  let m := if mp <? 10 then mp + 3 else mp - 9 in
  (if m <=? 2 then 1%Z else 0%Z, m, doy - (153 * mp + 2) / 5 + 1).

(** The day after it, told whether its February has 29 days. *)
Definition next_rel (leap : bool) (date : Z * N * N) : Z * N * N :=
  let '(y, m, d) := date in
  let length := match m with 4 | 6 | 9 | 11 => 30 | 2 => if leap then 29 else 28 | _ => 31 end in
  if d <? length then (y, m, d + 1)
  else if m <? 12 then (y, m + 1, 1)
  else ((y + 1)%Z, 1, 1).

Lemma next_day_rel y doy :
  next_day (shift y (rel_date doy)) = shift y (next_rel (is_leap (1 + y)) (rel_date doy)).
Proof.
  unfold rel_date. cbv zeta. generalize (doy - (153 * ((5 * doy + 2) / 153) + 2) / 5 + 1). intros d.
  set (m := if _ <? 10 then _ else _). clearbody m. unfold next_day, shift, next_rel.
  assert (month_length ((if m <=? 2 then 1%Z else 0%Z) + y) m =
    match m with 4 | 6 | 9 | 11 => 30 | 2 => if is_leap (1 + y) then 29 else 28 | _ => 31 end) as ->.
  { unfold month_length. by repeat case_match. }
  destruct (d <? _); [done|]. destruct (m <? 12); [done|]. f_equal. f_equal. lia.
Qed.

Definition year_length (leap : bool) : N := if leap then 366 else 365.

Definition rel_step (leap : bool) (doy : N) : bool :=
  (year_length leap <=? doy) ||
  bool_decide (next_rel leap (rel_date doy) =
    if doy + 1 <? year_length leap then rel_date (doy + 1) else shift 1 (rel_date 0)).

Lemma rel_steps : forallb (fun doy => rel_step true doy && rel_step false doy) (below 366) = true.
Proof. vm_compute. reflexivity. Qed.

Lemma rel_next leap doy : doy < year_length leap ->
  next_rel leap (rel_date doy) =
  if doy + 1 <? year_length leap then rel_date (doy + 1) else shift 1 (rel_date 0).
Proof.
  intros H. assert (doy < N.of_nat 366) as Hb by (unfold year_length in H; destruct leap; lia).
  pose proof (forall_below _ _ rel_steps doy Hb) as [Ht Hf]%andb_true_iff.
  assert (rel_step leap doy = true) as Hs by by destruct leap.
  unfold rel_step in Hs. rewrite (proj2 (N.leb_gt _ _) H) in Hs. by apply bool_decide_eq_true in Hs.
Qed.

(** The year of a day of an era, and the first day of a year of it. *)
Definition era_year (doe : N) : N := (doe - doe / 1460 + doe / 36524 - doe / 146096) / 365.
Definition year_start (yoe : N) : N := 365 * yoe + yoe / 4 - yoe / 100 + yoe / 400.

Lemma civil_of_era_rel era doe : era_year doe < 400 ->
  civil_of_era era doe =
  shift (cast_signed (era_year doe) + era * 400) (rel_date (doe - year_start (era_year doe))).
Proof.
  intros H. unfold year_start. rewrite (N.div_small _ 400) // N.add_0_r. revert H.
  unfold civil_of_era, rel_date, shift, era_year. cbv zeta. intros _.
  f_equal. f_equal. case_match; lia.
Qed.

Lemma era_year_mono a b : a <= b -> b < 146097 -> era_year a <= era_year b.
Proof.
  intros Hab Hb. unfold era_year. apply N.Div0.div_le_mono.
  zify; Z.div_mod_to_equations; lia.
Qed.

Definition year_right (yoe : N) : bool :=
  (era_year (year_start yoe) =? yoe) && (era_year (year_start (yoe + 1) - 1) =? yoe)
  && (year_start (yoe + 1) =? year_start yoe + year_length (is_leap (1 + Z.of_N yoe))).

Lemma years_right : forallb year_right (below 400) = true.
Proof. vm_compute. reflexivity. Qed.

Lemma year_start_bound yoe : yoe <= 400 -> year_start yoe <= 146097.
Proof. unfold year_start. intros H. zify; Z.div_mod_to_equations; lia. Qed.

Lemma year_exact yoe : yoe < 400 ->
  (forall doe, year_start yoe <= doe -> doe < year_start (yoe + 1) -> doe < 146097 -> era_year doe = yoe) /\
  year_start (yoe + 1) = year_start yoe + year_length (is_leap (1 + Z.of_N yoe)).
Proof.
  intros H. pose proof (forall_below _ _ years_right yoe ltac:(lia)) as Hr.
  unfold year_right in Hr. rewrite !andb_true_iff !N.eqb_eq in Hr. destruct Hr as [[Ha Hb] Hc].
  split; [|done]. intros doe H1 H2 H3.
  pose proof (year_start_bound (yoe + 1) ltac:(lia)).
  assert (year_start (yoe + 1) - 1 < 146097) as Hlt by lia.
  pose proof (era_year_mono _ _ H1 H3). pose proof (era_year_mono doe (year_start (yoe + 1) - 1) ltac:(lia) Hlt). lia.
Qed.

Lemma era_year_bounds doe : doe < 146097 ->
  era_year doe < 400 /\ year_start (era_year doe) <= doe < year_start (era_year doe + 1).
Proof.
  intros H. assert (era_year doe < 400) as Hy.
  { pose proof (era_year_mono doe 146096 ltac:(lia) ltac:(lia)) as Hm. change (era_year 146096) with 399 in Hm. lia. }
  split; [done|].
  split; apply N.nlt_ge || apply N.lt_nge; intros Hc.
  - destruct (N.eq_dec (era_year doe) 0) as [E|E]; [rewrite E in Hc; by apply N.nlt_0_r in Hc|].
    pose proof (forall_below _ _ years_right (era_year doe - 1) ltac:(lia)) as Hr.
    unfold year_right in Hr. rewrite !andb_true_iff !N.eqb_eq N.sub_add in Hr; [|lia]. destruct Hr as [[_ Hb] _].
    pose proof (era_year_mono doe (year_start (era_year doe) - 1) ltac:(lia)) as Hm. rewrite Hb in Hm.
    pose proof (year_start_bound (era_year doe) ltac:(lia)). lia.
  - destruct (N.eq_dec (era_year doe) 399) as [E|E].
    { rewrite E in Hc. change (year_start (399 + 1)) with 146097 in Hc. lia. }
    pose proof (forall_below _ _ years_right (era_year doe + 1) ltac:(lia)) as Hr.
    unfold year_right in Hr. rewrite !andb_true_iff !N.eqb_eq in Hr. destruct Hr as [[Ha _] _].
    pose proof (era_year_mono _ _ Hc H). lia.
Qed.

Lemma civil_next era doe : doe < 146097 ->
  next_day (civil_of_era era doe) =
  if doe <? 146096 then civil_of_era era (doe + 1) else civil_of_era (era + 1) 0.
Proof.
  intros H. destruct (era_year_bounds _ H) as [Hy [Hlo Hhi]]. set (yoe := era_year doe) in *.
  destruct (year_exact yoe Hy) as [Hin Hlen].
  assert (forall e n, n < 146097 -> civil_of_era e n =
    shift (cast_signed (era_year n) + e * 400) (rel_date (n - year_start (era_year n)))) as Hrel.
  { intros e n Hn. apply civil_of_era_rel. by apply era_year_bounds. }
  rewrite (Hrel era doe H) -/yoe next_day_rel.
  assert (forall n, n <= 400 -> cast_signed n = Z.of_N n) as Hcast.
  { intros n Hn. unfold cast_signed. rewrite (proj2 (N.ltb_lt _ _)) //. lia. }
  rewrite Hcast; [|lia].
  assert (is_leap (1 + (Z.of_N yoe + era * 400)) = is_leap (1 + Z.of_N yoe)) as ->.
  { rewrite Z.add_assoc (Z.mul_comm era). apply is_leap_shift. }
  set (leap := is_leap (1 + Z.of_N yoe)) in *.
  rewrite rel_next; [|lia].
  destruct (N.ltb_spec (doe - year_start yoe + 1) (year_length leap)) as [Hs|Hs].
  - pose proof (year_start_bound (yoe + 1) ltac:(lia)).
    rewrite (proj2 (N.ltb_lt doe 146096)); [|lia].
    rewrite Hrel; [|lia]. rewrite (Hin (doe + 1)); [|lia..]. rewrite Hcast; [|lia]. do 2 f_equal. lia.
  - destruct (N.ltb_spec doe 146096) as [Hd|Hd].
    + assert (yoe + 1 < 400) as Hy1.
      { destruct (N.eq_dec yoe 399) as [E|E]; [|lia]. rewrite E in Hhi Hlo Hlen Hs.
        change (year_start (399 + 1)) with 146097 in *. change (year_start 399) with 145731 in *. lia. }
      assert (doe + 1 = year_start (yoe + 1)) as E by lia.
      rewrite Hrel; [|lia].
      assert (era_year (doe + 1) = yoe + 1) as ->.
      { rewrite E. pose proof (forall_below _ _ years_right (yoe + 1) ltac:(lia)) as Hr.
        unfold year_right in Hr. rewrite !andb_true_iff !N.eqb_eq in Hr. tauto. }
      rewrite E N.sub_diag Hcast; [|lia]. destruct (rel_date 0) as [[y m] d]. unfold shift. do 2 f_equal. lia.
    + assert (yoe = 399) as E by (unfold yoe; assert (doe = 146096) as -> by lia; done).
      rewrite (Hrel (era + 1)%Z 0) //. change (era_year 0) with 0. change (year_start 0) with 0. rewrite N.sub_diag Hcast; [|lia].
      destruct (rel_date 0) as [[y m] d]. unfold shift. do 2 f_equal. rewrite E. lia.
Qed.

Lemma civil_date_succ days : days < 2 ^ 62 -> civil_date (days + 1) = next_day (civil_date days).
Proof.
  intros H. unfold civil_date. set (z := (cast_signed days + 719468)%Z).
  assert (cast_signed (days + 1) + 719468 = z + 1)%Z as ->.
  { unfold z, cast_signed. rewrite !(proj2 (N.ltb_lt _ _)); lia. }
  assert (forall x, cast_unsigned (x mod 146097) = Z.to_N (x mod 146097)) as Hu.
  { intros x. unfold cast_unsigned. rewrite Z.mod_small //. pose proof (Z.mod_pos_bound x 146097). lia. }
  rewrite !Hu civil_next; [|pose proof (Z.mod_pos_bound z 146097); lia].
  destruct (N.ltb_spec (Z.to_N (z mod 146097)) 146096).
  - f_equal; [|]; Z.div_mod_to_equations; lia.
  - f_equal; Z.div_mod_to_equations; lia.
Qed.

Lemma civil_date_exact days : days < 2 ^ 62 -> civil_date days = N.iter days next_day (1970%Z, 1, 1).
Proof.
  induction days as [|days IH] using N.peano_ind; intros H; [done|].
  rewrite N.iter_succ -IH; [|lia]. rewrite -N.add_1_r. apply civil_date_succ. lia.
Qed.

Lemma day_fields h m s : m < 60 -> s < 60 ->
  (3600 * h + 60 * m + s) / 3600 = h /\
  ((3600 * h + 60 * m + s) mod 3600) / 60 = m /\
  (3600 * h + 60 * m + s) mod 60 = s.
Proof.
  intros Hm Hs. split_and!.
  - symmetry. apply (N.div_unique _ _ _ (60 * m + s)); lia.
  - rewrite -(N.mod_unique (3600 * h + 60 * m + s) 3600 h (60 * m + s)); [|lia|lia].
    symmetry. apply (N.div_unique _ _ _ s); lia.
  - symmetry. apply (N.mod_unique _ _ (60 * h + m)); lia.
Qed.

Lemma clock_after_exact secs :
  clock_after secs =
  (N.iter (secs / 86400) next_day (1970%Z, 1, 1), (secs mod 86400) / 3600, ((secs mod 86400) mod 3600) / 60,
   (secs mod 86400) mod 60).
Proof.
  induction secs as [|secs IH] using N.peano_ind; [done|].
  unfold clock_after in *. rewrite N.iter_succ IH. unfold tick. rewrite -N.add_1_r.
  set (day := secs mod 86400).
  assert (day < 86400) as Hday by (apply N.mod_lt; lia).
  assert (secs = 86400 * (secs / 86400) + day) as Hs by (apply N.div_mod; lia).
  destruct (N.eq_dec day 86399) as [E|E].
  - assert ((secs + 1) / 86400 = secs / 86400 + 1) as -> by (symmetry; apply (N.div_unique _ _ _ 0); lia).
    assert ((secs + 1) mod 86400 = 0) as -> by (symmetry; apply (N.mod_unique _ _ (secs / 86400 + 1)); lia).
    rewrite E (N.add_1_r (secs / 86400)) N.iter_succ. reflexivity.
  - assert ((secs + 1) / 86400 = secs / 86400) as -> by (symmetry; apply (N.div_unique _ _ _ (day + 1)); lia).
    assert ((secs + 1) mod 86400 = day + 1) as -> by (symmetry; apply (N.mod_unique _ _ (secs / 86400)); lia).
    generalize dependent day. clear IH. intros day Hday _ E.
    assert (exists h m s, day = 3600 * h + 60 * m + s /\ m < 60 /\ s < 60) as (h & m & s & -> & Hm & Hsec).
    { exists (day / 3600), ((day mod 3600) / 60), ((day mod 3600) mod 60).
      pose proof (N.div_mod day 3600 ltac:(lia)). pose proof (N.div_mod (day mod 3600) 60 ltac:(lia)).
      pose proof (N.mod_lt day 3600 ltac:(lia)). pose proof (N.mod_lt (day mod 3600) 60 ltac:(lia)).
      split; [lia|split; [|lia]]. apply N.Div0.div_lt_upper_bound. lia. }
    assert (forall h' m' s', m' < 60 -> s' < 60 -> 3600 * h + 60 * m + s + 1 = 3600 * h' + 60 * m' + s' ->
      (3600 * h + 60 * m + s + 1) / 3600 = h' /\ ((3600 * h + 60 * m + s + 1) mod 3600) / 60 = m' /\
      (3600 * h + 60 * m + s + 1) mod 60 = s') as Hnext.
    { intros h' m' s' ?? ->. by apply day_fields. }
    destruct (day_fields h m s) as (-> & -> & ->); [done..|].
    destruct (N.ltb_spec s 59); [destruct (Hnext h m (s + 1)) as (-> & -> & ->); lia || done|].
    destruct (N.ltb_spec m 59); [destruct (Hnext h (m + 1) 0) as (-> & -> & ->); lia || done|].
    destruct (N.ltb_spec h 23); [destruct (Hnext (h + 1) 0 0) as (-> & -> & ->); lia || done|lia].
Qed.

(** ** The texts sort as the times do *)

Lemma compare_app a b c d : String.length a = String.length b ->
  String.compare (a +:+ c) (b +:+ d) =
  match String.compare a b with Eq => String.compare c d | r => r end.
Proof.
  revert b. induction a as [|x a IH]; intros [|y b] H; simpl in *; try done.
  destruct (Ascii.compare x y); [|done..]. apply IH. lia.
Qed.

(** The decimal digits of a number, in so many places. *)
Fixpoint places (w : nat) (n : N) : string :=
  match w with
  | O => ""
  | S w => places w (n / 10) +:+ String (pretty_N_char (n mod 10)) ""
  end.

Lemma places_length w n : String.length (places w n) = w.
Proof.
  revert n. induction w as [|w IH]; intros n; simpl; [done|]. rewrite str_length_app IH. simpl. lia.
Qed.

Lemma digit_compare : forallb (fun a => forallb (fun b =>
  bool_decide (Ascii.compare (pretty_N_char a) (pretty_N_char b) = N.compare a b)) (below 10)) (below 10) = true.
Proof. vm_compute. reflexivity. Qed.

Lemma places_compare w a b : a < 10 ^ N.of_nat w -> b < 10 ^ N.of_nat w ->
  String.compare (places w a) (places w b) = N.compare a b.
Proof.
  revert a b. induction w as [|w IH]; intros a b Ha Hb.
  { simpl in *. assert (a = b) as -> by lia. by rewrite N.compare_refl. }
  cbn [places]. rewrite compare_app; [|by rewrite !places_length].
  assert (forall x, x < 10 ^ N.of_nat (S w) -> x / 10 < 10 ^ N.of_nat w) as Hdiv.
  { intros x Hx. apply N.Div0.div_lt_upper_bound. by rewrite Nnat.Nat2N.inj_succ N.pow_succ_r' in Hx. }
  rewrite IH; [|by apply Hdiv..].
  pose proof (N.mod_lt a 10 ltac:(lia)). pose proof (N.mod_lt b 10 ltac:(lia)).
  pose proof (forall_below _ _ digit_compare (a mod 10) ltac:(lia)) as Hd. cbn beta in Hd.
  pose proof (forall_below _ _ Hd (b mod 10) ltac:(lia)) as Hc. apply bool_decide_eq_true in Hc.
  cbn [String.compare]. rewrite Hc.
  pose proof (N.div_mod a 10 ltac:(lia)). pose proof (N.div_mod b 10 ltac:(lia)).
  clear IH Ha Hb Hdiv Hd Hc. generalize dependent (a mod 10). generalize dependent (b mod 10).
  generalize (a / 10) (b / 10). intros qa qb rb Hrb Eb ra Hra Ea.
  destruct (N.compare_spec qa qb); [destruct (N.compare_spec ra rb)| |];
    symmetry; rewrite ?N.compare_eq_iff ?N.compare_lt_iff ?N.compare_gt_iff; lia.
Qed.

Lemma pretty_go_app n s : pretty_N_go n s = pretty_N_go n "" +:+ s.
Proof.
  revert s. induction n as [n IH] using (well_founded_induction N.lt_wf_0). intros s.
  destruct (N.eq_dec n 0) as [->|Hn]; [by rewrite !pretty_N_go_0|].
  rewrite !(pretty_N_go_step n); [|lia..].
  assert (n / 10 < n) as Hd by (apply N.div_lt; lia).
  rewrite (IH _ Hd (String _ s)) (IH _ Hd (String _ "")). by rewrite -str_app_assoc.
Qed.

Lemma pad_zeros_app w s c : (String.length s + String.length c <= w)%nat ->
  pad_zeros (N.of_nat w) (s +:+ c) = pad_zeros (N.of_nat (w - String.length c)) s +:+ c.
Proof.
  intros H. unfold pad_zeros. rewrite !Nnat.Nat2N.id str_length_app.
  replace (w - String.length c - String.length s)%nat with (w - (String.length s + String.length c))%nat by lia.
  generalize (w - (String.length s + String.length c))%nat as k. induction k as [|k IH]; [done|].
  simpl. by rewrite IH.
Qed.

Lemma zeros_snoc w :
  String "0" (Nat.iter w (String "0") "") = Nat.iter w (String "0") "" +:+ "0".
Proof. induction w as [|w IH]; [done|]. exact (f_equal (String "0") IH). Qed.

Lemma places_padded_go w n : n < 10 ^ N.of_nat w ->
  (String.length (pretty_N_go n "") <= w)%nat /\ pad_zeros (N.of_nat w) (pretty_N_go n "") = places w n.
Proof.
  revert n. induction w as [|w IH]; intros n Hn.
  { simpl in Hn. assert (n = 0) as -> by lia. by rewrite pretty_N_go_0. }
  destruct (N.eq_dec n 0) as [->|H0].
  { rewrite pretty_N_go_0. split; [simpl; lia|]. destruct (IH 0) as [_ Hp]; [apply N.neq_0_lt_0; by apply N.pow_nonzero|].
    rewrite pretty_N_go_0 in Hp. cbn [places]. change (0 / 10) with 0. change (0 mod 10) with 0. rewrite -Hp.
    unfold pad_zeros. rewrite !Nnat.Nat2N.id. simpl. rewrite Nat.sub_0_r.
    apply zeros_snoc. }
  assert (n / 10 < 10 ^ N.of_nat w) as Hd.
  { apply N.Div0.div_lt_upper_bound. by rewrite Nnat.Nat2N.inj_succ N.pow_succ_r' in Hn. }
  destruct (IH _ Hd) as [Hl Hp]. rewrite pretty_N_go_step; [|lia]. rewrite pretty_go_app str_length_app. split; [simpl; lia|].
  rewrite pad_zeros_app; [|simpl; lia]. simpl String.length. rewrite Nat.sub_1_r. simpl Nat.pred. by rewrite Hp.
Qed.

Lemma padded_places w n : n < 10 ^ N.of_nat (S w) -> padded (N.of_nat (S w)) n = places (S w) n.
Proof.
  intros H. destruct (places_padded_go _ _ H) as [_ <-]. unfold padded.
  destruct (N.eq_dec n 0) as [->|H0]; [|unfold pretty, pretty_N; by rewrite decide_False].
  rewrite pretty_N_go_0. change (pretty 0) with "0". unfold pad_zeros. rewrite !Nnat.Nat2N.id. simpl.
  rewrite Nat.sub_0_r. symmetry. apply (Nat.iter_succ_r w (String "0") "").
Qed.

Lemma compare_padded w a b r1 r2 : a < 10 ^ N.of_nat (S w) -> b < 10 ^ N.of_nat (S w) ->
  String.compare (padded (N.of_nat (S w)) a +:+ r1) (padded (N.of_nat (S w)) b +:+ r2) =
  match N.compare a b with Eq => String.compare r1 r2 | r => r end.
Proof.
  intros Ha Hb. rewrite !padded_places // compare_app; [|by rewrite !places_length].
  by rewrite places_compare.
Qed.

(** The ranges of the hands of the clock, and the order of its times. *)
Definition clock_ok (c : Clock) : Prop :=
  let '(y, m, d, hour, minute, second) := c in
  (1970 <= y)%Z /\ m <= 12 /\ d <= 31 /\ hour < 24 /\ minute < 60 /\ second < 60.

Definition clock_key (c : Clock) (micros : N) : N :=
  let '(y, m, d, hour, minute, second) := c in
  (((((Z.to_N y * 13 + m) * 32 + d) * 24 + hour) * 60 + minute) * 60 + second) * 1000000 + micros.

Definition clock_year (c : Clock) : Z := let '(y, _, _, _, _, _) := c in y.

Lemma tick_ok c : clock_ok c -> clock_ok (tick c) /\ clock_key c 0 < clock_key (tick c) 0 /\
  (clock_year c <= clock_year (tick c))%Z.
Proof.
  destruct c as [[[[[y m] d] hour] minute] second]. unfold clock_ok, tick. intros (Hy & Hm & Hd & Hh & Hmi & Hs).
  destruct (N.ltb_spec second 59); [unfold clock_key, clock_year; lia|].
  destruct (N.ltb_spec minute 59); [unfold clock_key, clock_year; lia|].
  destruct (N.ltb_spec hour 23); [unfold clock_key, clock_year; lia|].
  unfold next_day. assert (month_length y m <= 31) by (unfold month_length; by repeat case_match).
  destruct (N.ltb_spec d (month_length y m)); [unfold clock_key, clock_year; lia|].
  destruct (N.ltb_spec m 12); unfold clock_key, clock_year; lia.
Qed.

Lemma clock_after_succ s : clock_after (N.succ s) = tick (clock_after s).
Proof. unfold clock_after. apply N.iter_succ. Qed.

Lemma clock_after_ok s : clock_ok (clock_after s).
Proof. induction s as [|s IH] using N.peano_ind; [done|]. rewrite clock_after_succ. by apply tick_ok. Qed.

Lemma clock_after_later s n :
  clock_key (clock_after s) 0 < clock_key (clock_after (s + N.succ n)) 0 /\
  (clock_year (clock_after s) <= clock_year (clock_after (s + N.succ n)))%Z.
Proof.
  induction n as [|n [IH1 IH2]] using N.peano_ind; rewrite N.add_succ_r clock_after_succ.
  - rewrite N.add_0_r. apply tick_ok, clock_after_ok.
  - destruct (tick_ok _ (clock_after_ok (s + N.succ n))) as (_ & H1 & H2). split; [by etrans|by etrans].
Qed.

Lemma compare_separator c r1 r2 :
  String.compare (String c "" +:+ r1) (String c "" +:+ r2) = String.compare r1 r2.
Proof.
  simpl. pose proof (Ascii.compare_antisym c c) as H. by destruct (Ascii.compare c c).
Qed.

(** The next field of two texts: it decides, or it is the same. *)
Ltac compare_field w :=
  rewrite ?compare_separator (compare_padded w); [|simpl; lia..];
  match goal with |- context [N.compare ?a ?b] => destruct (N.compare_spec a b) as [?|?|?]; [|done|exfalso; lia] end.

Lemma clock_text_order c1 u1 c2 u2 : clock_ok c1 -> clock_ok c2 ->
  (clock_year c1 <= 9999)%Z -> (clock_year c2 <= 9999)%Z -> u1 < 1000000 -> u2 < 1000000 ->
  clock_key c1 u1 < clock_key c2 u2 ->
  String.compare (clock_text c1 u1) (clock_text c2 u2) = Lt.
Proof.
  destruct c1 as [[[[[y1 m1] d1] h1] i1] s1], c2 as [[[[[y2 m2] d2] h2] i2] s2].
  unfold clock_ok, clock_year, clock_key. intros (Hy1 & Hm1 & Hd1 & Hh1 & Hi1 & Hs1) (Hy2 & Hm2 & Hd2 & Hh2 & Hi2 & Hs2).
  intros Hl1 Hl2 Hu1 Hu2 Hk. unfold clock_text, rfc3339_text.
  assert (forall y, (1970 <= y)%Z -> padded_i64 4 y = padded 4 (Z.to_N y)) as Hy.
  { intros [|p|p] ?; [lia| |lia]. reflexivity. }
  rewrite !Hy //.
  compare_field 3%nat. compare_field 1%nat. compare_field 1%nat. compare_field 1%nat. compare_field 1%nat.
  compare_field 1%nat. rewrite compare_separator (compare_padded 5); [|simpl; lia..].
  by rewrite (proj2 (N.compare_lt_iff u1 u2)); [|lia].
Qed.

Lemma format_exact secs micros : secs <= u64_max ->
  format_rfc3339_now (Some (secs, micros)) = clock_text (clock_after secs) micros.
Proof.
  intros H. unfold format_rfc3339_now, clock_text. cbn [default from_option id].
  rewrite clock_after_exact civil_date_exact.
  2:{ apply N.Div0.div_lt_upper_bound. unfold u64_max in H. lia. }
  done.
Qed.

Lemma clock_before_10000 s : s < 253402300800 -> (clock_year (clock_after s) <= 9999)%Z.
Proof.
  intros H. assert (clock_year (clock_after 253402300799) = 9999%Z) as Hlast.
  { rewrite clock_after_exact -civil_date_exact; [vm_compute; reflexivity|vm_compute; done]. }
  destruct (N.eq_dec s 253402300799) as [->|Hs]; [lia|].
  destruct (clock_after_later s (253402300798 - s)) as [_ Hy].
  replace (s + N.succ (253402300798 - s)) with 253402300799 in Hy by lia. lia.
Qed.

Lemma clock_key_micros c u : clock_key c u = clock_key c 0 + u.
Proof. destruct c as [[[[[y m] d] h] i] s]. unfold clock_key. lia. Qed.

Lemma clock_key_steps c : clock_key c 0 mod 1000000 = 0.
Proof.
  destruct c as [[[[[y m] d] h] i] s]. unfold clock_key. rewrite N.add_0_r. apply N.Div0.mod_mul.
Qed.

Lemma clock_key_later s1 u1 s2 u2 : u1 < 1000000 -> s1 * 1000000 + u1 < s2 * 1000000 + u2 -> u2 < 1000000 ->
  clock_key (clock_after s1) u1 < clock_key (clock_after s2) u2.
Proof.
  intros H1 H H2. rewrite !(clock_key_micros _ u1) (clock_key_micros _ u2).
  destruct (N.eq_dec s1 s2) as [->|Hs]; [lia|].
  destruct (clock_after_later s1 (s2 - N.succ s1)) as [Hk _].
  replace (s1 + N.succ (s2 - N.succ s1)) with s2 in Hk by lia.
  pose proof (clock_key_steps (clock_after s1)). pose proof (clock_key_steps (clock_after s2)).
  pose proof (N.div_mod (clock_key (clock_after s1) 0) 1000000 ltac:(lia)).
  pose proof (N.div_mod (clock_key (clock_after s2) 0) 1000000 ltac:(lia)). lia.
Qed.

(** C35: the time of a log line.  The text is the one of the calendar: what a
    clock shows that started at midnight of the first of January 1970 and has
    ticked once a second since, for every number of seconds a [u64] holds; and
    up to the year 9999 the texts sort as the times do, so that lines sorted by
    their time are in the order in which they were written. *)
Theorem log_time_exact s1 u1 : s1 <= u64_max ->
  format_rfc3339_now (Some (s1, u1)) = clock_text (clock_after s1) u1 /\
  forall s2 u2, u1 < 1000000 -> u2 < 1000000 -> s2 < 253402300800 ->
    s1 * 1000000 + u1 < s2 * 1000000 + u2 ->
    String.compare (format_rfc3339_now (Some (s1, u1))) (format_rfc3339_now (Some (s2, u2))) = Lt.
Proof.
  intros H. split; [by apply format_exact|].
  intros s2 u2 Hu1 Hu2 Hs2 Hlt. rewrite !format_exact //; [|unfold u64_max; lia].
  apply clock_text_order; try done; [apply clock_after_ok..| | |by apply clock_key_later];
    apply clock_before_10000; lia.
Qed.

Lemma log_time_exact_witness :
  clock_text (clock_after 1709210096) 7 = "2024-02-29T12:34:56.000007Z" /\
  String.compare (format_rfc3339_now (Some (951782399, 999999))) (format_rfc3339_now (Some (951782400, 0))) = Lt.
Proof.
  split.
  - destruct (log_time_exact 1709210096 7) as [<- _]; [vm_compute; discriminate|vm_compute; reflexivity].
  - apply (log_time_exact 951782399 999999); vm_compute; done.
Defined.

(** ** What a line holds *)

Section LineFacts.
  Context {V F W : Type} `{!LogEnv V F W}.
  Context (k_revision : option string).
  Local Notation log_object := (log_object (V := V) (F := F) (W := W) k_revision).

Lemma insert_all (m json : gmap string V) :
  foldl (fun json '(k, v) => <[k := v]> json) json (map_to_list m) = m ∪ json.
Proof.
  assert (forall l (j : gmap string V), NoDup l.*1 ->
    foldl (fun json '(k, v) => <[k := v]> json) j l = list_to_map l ∪ j) as H.
  { induction l as [|[k v] l IH]; intros j; simpl; [by rewrite left_id_L|].
    intros [Hk Hl]%NoDup_cons. rewrite IH // -insert_union_r; [|by apply not_elem_of_list_to_map_1].
    by rewrite insert_union_l. }
  rewrite H; [|apply NoDup_fst_map_to_list]. by rewrite list_to_map_to_list.
Qed.

(** A line is the six keys that every line has, unless the event has a field of
    that name, and the fields of the event. *)
Lemma log_object_exact e p w json p' w' : log_object e p w = (json, p', w') ->
  exists now run instance w1 w2, since_epoch w = (now, w1) /\
    run_id p w1 = (run, mkProcess (Some run) (INSTANCE_ID p), w2) /\
    p' = mkProcess (Some run) (Some instance) /\
    (forall id, INSTANCE_ID p = Some id -> instance = id) /\
    json = fields (record e) ∪
      {["severity" := json_str (severity (ev_level e));
        "message" := json_str (default (ev_target e) (message (record e)));
        "time" := json_str (format_rfc3339_now now);
        "target" := json_str (ev_target e);
        "run_id" := json_str run;
        "instance_id" := json_str instance]}.
Proof.
  unfold log_object. destruct (since_epoch w) as [now w1].
  destruct (run_id p w1) as [[run p1] w2] eqn:Er.
  assert (p1 = mkProcess (Some run) (INSTANCE_ID p)) as ->.
  { revert Er. unfold run_id. destruct (RUN_ID p) eqn:E; [intros [= <- <- _]; destruct p; simpl in *; by subst|].
    destruct (now_v7 w1) as [id w3]. by intros [= <- <- _]. }
  destruct (instance_id _ _ _) as [[instance p2] w3] eqn:Ei. rewrite insert_all. intros [= <- <- <-].
  exists now, run, instance, w1, w2. split; [done|]. split; [done|].
  revert Ei. unfold instance_id. simpl. destruct (INSTANCE_ID p) as [id|].
  - intros [= <- <- _]. split; [done|]. split; [by intros ? [= ->]|]. by f_equal.
  - destruct (match k_revision with Some _ => _ | None => _ end) as [id w4]. intros [= <- <- _].
    split; [done|]. split; [done|]. by f_equal.
Qed.

(** All the lines of a process show the same run and the same instance, except
    those whose event has a field of that name: such a field replaces the id. *)
Lemma lines_share_ids es p w jsons p' w' : log_objects k_revision es p w = (jsons, p', w') ->
  exists run instance, (forall id, RUN_ID p = Some id -> run = id) /\
    (forall id, INSTANCE_ID p = Some id -> instance = id) /\
    Forall2 (fun e json =>
      json !! "run_id" = Some (default (json_str run) (fields (record e) !! "run_id")) /\
      json !! "instance_id" = Some (default (json_str instance) (fields (record e) !! "instance_id")))
      es jsons.
Proof.
  revert p w jsons p' w'. induction es as [|e es IH]; intros p w jsons p' w'; simpl.
  - intros [= <- _ _]. exists (default "" (RUN_ID p)), (default "" (INSTANCE_ID p)).
    split; [by intros id ->|]. split; [by intros id ->|constructor].
  - destruct (log_object e p w) as [[json p1] w1] eqn:E.
    destruct (log_objects _ es _ _) as [[jsons1 p2] w2] eqn:El. intros [= <- _ _].
    destruct (log_object_exact _ _ _ _ _ _ E) as (now & run & instance & w3 & w4 & _ & Hr & -> & Hi & ->).
    destruct (IH _ _ _ _ _ El) as (run' & instance' & H1 & H2 & Hall).
    rewrite (H1 run) // (H2 instance) // in Hall. exists run, instance. split_and!; [|done|].
    + intros id Hid. revert Hr. unfold run_id. rewrite Hid. by intros [= ->].
    + constructor; [|done]. rewrite !lookup_union !lookup_insert. simpl.
      split; [by destruct (_ !! "run_id")|by destruct (_ !! "instance_id")].
Qed.

(** The line of [info!(page_count = count, run_id = %run.run_id, "evidence
    published")] shows the sweep's own id, whatever that of the process is. *)
Lemma published_line_shows_the_sweep target count sweep p w json p' w' :
  log_object (mkEvent INFO target
    [("message", Rec_debug "evidence published"); ("page_count", Rec_u64 count); ("run_id", Rec_debug sweep)])
    p w = (json, p', w') ->
  json !! "run_id" = Some (json_str sweep) /\ json !! "severity" = Some (json_str "INFO").
Proof. intros (now & run & instance & w1 & w2 & _ & _ & _ & _ & ->)%log_object_exact. by vm_compute. Qed.
End LineFacts.
