(* ===== verification/BuildVersion.v ===== *)
(** * The build script ([build.rs], [build_env.rs])

    The script takes a version from the environment, from git or from the
    package, and a commit, and prints them to Cargo as directives, one on each
    line of its standard output.  Both come from outside, so a text with a line
    break would be read as a directive of its own; the lemmas show that none
    gets through.  Running git is a parameter. *)

From S2P Require Import Prelude Str Auth.

Open Scope N_scope.

(** ** Accepted values ([build_env.rs]) *)

Definition is_ascii_hexdigit (c : Ascii.ascii) : bool :=
  let n := Ascii.N_of_ascii c in in_range 48 57 n || in_range 97 102 n || in_range 65 70 n.

(** A commit is its hexadecimal digits, or is left out. *)
Definition sanitize_git_sha (raw : string) : string :=
  let candidate := trim raw in
  let provisioned :=
    in_range 7 40 (N.of_nat (String.length candidate)) && all_bytes is_ascii_hexdigit candidate in
  if provisioned then candidate else "".

Definition UNRESOLVED_PACKAGE_VERSION : string := "0.0.0".

Inductive VersionRejection := RecordSeparator | EmptyAfterPrefix.
#[export] Instance VersionRejection_eq_dec : EqDecision VersionRejection.
Proof. solve_decision. Defined.

Definition reason (r : VersionRejection) : string :=
  match r with
  | RecordSeparator => "contains a record separator"
  | EmptyAfterPrefix => "is empty after version prefix normalization"
  end.

Definition is_separator (c : Ascii.ascii) : bool := Ascii.eqb c nl || Ascii.eqb c cr.

(** [EmittableVersion::new]; the version is the text it holds. *)
Definition EmittableVersion_new (candidate : string) : result VersionRejection string :=
  let normalized := default candidate (strip_prefix "v" candidate) in
  if negb (all_bytes (fun c => negb (is_separator c)) normalized) then Err RecordSeparator
  else if is_empty normalized then Err EmptyAfterPrefix
  else Ok normalized.

(** [package] is [env!(CARGO_PKG_VERSION)]. *)
Definition package_fallback (package : string) : string :=
  match EmittableVersion_new package with
  | Ok validated => validated
  | Err _ => UNRESOLVED_PACKAGE_VERSION
  end.

Definition version_rejection_diagnostic (source : string) (rejection : VersionRejection) : string :=
  "cargo:warning=gh-report build: rejected " +:+ source +:+ " version candidate: " +:+ reason rejection.

(** ** The script ([build.rs]) *)

(** How [git describe --tags --always --dirty] ended: whether it succeeded and
    its standard output, or [None] when it could not be run. *)
Definition GitOutput : Type := option (bool * string).

Definition git_describe (output : GitOutput) : option string :=
  match output with
  | Some (true, stdout) =>
    let trimmed := trim stdout in
    if is_empty trimmed then None else Some trimmed
  | _ => None
  end.

(** A candidate from the outside: the version it gives, or the line printed. *)
Definition try_version (source : string) (candidate : option string) : option string * list string :=
  match candidate with
  | None => (None, [])
  | Some text =>
    match EmittableVersion_new text with
    | Ok accepted => (Some accepted, [])
    | Err rejection => (None, [version_rejection_diagnostic source rejection])
    end
  end.

(** [resolve_version]: the version, and the lines printed on the way; [set_var]
    is the variable when it is set and not empty. *)
Definition resolve_version (env : Environment) (git : GitOutput) (package : string)
    : string * list string :=
  match try_version "APP_VERSION" (set_var env "APP_VERSION") with
  | (Some accepted, printed) => (accepted, printed)
  | (None, printed) =>
    match try_version "git-describe" (git_describe git) with
    | (Some accepted, printed') => (accepted, printed ++ printed')
    | (None, printed') => (package_fallback package, printed ++ printed')
    end
  end.

(** [main]: the lines it prints, in order. *)
Definition printed_lines (env : Environment) (git : GitOutput) (package : string) : list string :=
  let '(version, printed) := resolve_version env git package in
  let git_sha := sanitize_git_sha (default "" (env "APP_GIT_SHA")) in
  printed ++
  ["cargo:rustc-env=GH_REPORT_VERSION=" +:+ version;
   "cargo:rerun-if-env-changed=APP_VERSION";
   "cargo:rustc-env=GH_REPORT_GIT_SHA=" +:+ git_sha;
   "cargo:rerun-if-env-changed=APP_GIT_SHA";
   "cargo:rerun-if-changed=build.rs";
   "cargo:rerun-if-changed=build_env.rs"].

(** What [println!] leaves on the standard output. *)
Definition println (line : string) : string := line +:+ String nl EmptyString.
Definition build_output (env : Environment) (git : GitOutput) (package : string) : string :=
  foldr (fun line out => println line +:+ out) "" (printed_lines env git package).

(** ** Properties *)

(** A text that fits on one line. *)
Definition plain : string -> bool := all_bytes (fun c => negb (is_separator c)).

Lemma plain_app a b : plain (a +:+ b) = plain a && plain b.
Proof. apply all_bytes_app. Qed.

Lemma plain_no_separator c s : is_separator c = true -> plain s = true -> contains_char c s = false.
Proof.
  intros Hc. induction s as [|a s IH]; [done|]. cbn [plain all_bytes contains_char].
  intros [Ha Hs]%andb_true_iff. rewrite IH; [|done]. rewrite orb_false_r.
  apply Ascii.eqb_neq. intros ->. by rewrite Hc in Ha.
Qed.

Lemma accepted_version candidate version : EmittableVersion_new candidate = Ok version <->
  version = default candidate (strip_prefix "v" candidate) /\ plain version = true /\ version <> "".
Proof.
  unfold EmittableVersion_new, plain. set (v := default candidate _).
  destruct (all_bytes _ v) eqn:Hv; cbn [negb];
    [|by split; [|intros (-> & E & _); rewrite Hv in E]].
  destruct (is_empty v) eqn:Ev.
  - split; [done|]. intros (-> & _ & Hne). by destruct v.
  - split; [intros [= <-]|by intros (-> & _ & _)]. repeat split; [done|]. by intros E; rewrite E in Ev.
Qed.

Lemma package_fallback_plain package : plain (package_fallback package) = true.
Proof.
  unfold package_fallback. destruct (EmittableVersion_new package) as [v|] eqn:E; [|done].
  by apply accepted_version in E as (_ & H & _).
Qed.

Lemma git_sha_exact raw : let sha := sanitize_git_sha raw in
  sha = "" \/
  sha = trim raw /\ (7 <= String.length sha <= 40)%nat /\ all_bytes is_ascii_hexdigit sha = true.
Proof.
  cbn zeta. unfold sanitize_git_sha. destruct (_ && _) eqn:E; [|by left].
  right. apply andb_true_iff in E as [Hl Hd]. unfold in_range in Hl.
  apply andb_true_iff in Hl as [H1%N.leb_le H2%N.leb_le]. repeat split; [lia|lia|done].
Qed.

Lemma git_sha_plain raw : plain (sanitize_git_sha raw) = true.
Proof.
  destruct (git_sha_exact raw) as [-> | (_ & _ & H)]; [done|]. revert H. apply all_bytes_impl.
  intros c. apply implb_true_iff. revert c.
  by apply (forall_chars (fun c => implb (is_ascii_hexdigit c) (negb (is_separator c)))).
Qed.

Lemma tried_plain source candidate version printed : plain source = true ->
  try_version source candidate = (version, printed) ->
  Forall (fun l => plain l = true) printed /\ (forall v, version = Some v -> plain v = true).
Proof.
  intros Hs. unfold try_version. destruct candidate as [text|]; [|by intros [= <- <-]].
  destruct (EmittableVersion_new text) as [v|rejection] eqn:E; intros [= <- <-].
  - apply accepted_version in E as (_ & H & _). split; [done|]. by intros ? [= <-].
  - split; [|done]. constructor; [|done].
    unfold version_rejection_diagnostic. rewrite !plain_app Hs. by destruct rejection.
Qed.

Lemma resolved_plain env git package version printed :
  resolve_version env git package = (version, printed) ->
  plain version = true /\ Forall (fun l => plain l = true) printed.
Proof.
  unfold resolve_version.
  destruct (try_version "APP_VERSION" _) as [o1 p1] eqn:E1.
  destruct (tried_plain "APP_VERSION" _ _ _ eq_refl E1) as [H1 V1].
  destruct o1 as [v|]; [intros [= <- <-]; auto|].
  destruct (try_version "git-describe" _) as [o2 p2] eqn:E2.
  destruct (tried_plain "git-describe" _ _ _ eq_refl E2) as [H2 V2].
  destruct o2 as [v|]; intros [= <- <-]; split; auto using package_fallback_plain, Forall_app_2.
Qed.

Lemma printed_plain env git package : Forall (fun l => plain l = true) (printed_lines env git package).
Proof.
  unfold printed_lines. destruct (resolve_version env git package) as [version printed] eqn:E.
  apply resolved_plain in E as [Hv Hp]. apply Forall_app_2; [done|].
  repeat (constructor; [rewrite ?plain_app ?Hv ?git_sha_plain; reflexivity|]). constructor.
Qed.

Lemma chomp_cr_plain l : plain l = true -> chomp_cr l = l.
Proof.
  intros H. unfold chomp_cr. destruct (strip_suffix _ l) as [r|] eqn:E; [|done].
  apply strip_suffix_Some in E as ->. rewrite plain_app in H. by apply andb_true_iff in H as [_ H].
Qed.

Lemma lines_println l out : plain l = true -> lines (println l +:+ out) = l :: lines out.
Proof.
  intros H. unfold lines, println. rewrite -str_app_assoc.
  rewrite split_char_app; [|by apply plain_no_separator]. cbn [lines_of].
  destruct (split_char nl out) as [|p ps] eqn:E; [by destruct (split_char_nonempty nl out)|].
  by rewrite chomp_cr_plain.
Qed.

(** Cargo reads back exactly the lines the script means to print, whatever the
    environment and git hold: no value starts a line of its own. *)
Lemma directives_not_injected env git package :
  lines (build_output env git package) = printed_lines env git package.
Proof.
  unfold build_output. induction (printed_plain env git package) as [|l ls Hl _ IH]; [done|].
  cbn [foldr]. by rewrite lines_println // IH.
Qed.

(** The version comes from the first source that has an acceptable one. *)
Lemma version_from_environment env git package text version :
  set_var env "APP_VERSION" = Some text -> EmittableVersion_new text = Ok version ->
  resolve_version env git package = (version, []).
Proof. intros H E. unfold resolve_version. rewrite H. cbn [try_version]. by rewrite E. Qed.

Example injection_rejected :
  printed_lines
    (fun k => if String.eqb k "APP_VERSION" then Some ("v1" +:+ String nl "cargo:rustc-link-arg=x")
              else if String.eqb k "APP_GIT_SHA" then Some ("abc1234" +:+ String nl "") else None)
    (Some (true, "v2.0-3" +:+ String nl "")) "0.0.0"
  = ["cargo:warning=gh-report build: rejected APP_VERSION version candidate: contains a record separator";
     "cargo:rustc-env=GH_REPORT_VERSION=2.0-3"; "cargo:rerun-if-env-changed=APP_VERSION";
     "cargo:rustc-env=GH_REPORT_GIT_SHA=abc1234"; "cargo:rerun-if-env-changed=APP_GIT_SHA";
     "cargo:rerun-if-changed=build.rs"; "cargo:rerun-if-changed=build_env.rs"].
Proof. reflexivity. Qed.
