(* ===== verification/Binary.v ===== *)
(** * The program ([bin/gh-report.rs], [infra/signal.rs], [server.rs])

    What the command line turns into: the configuration of the daemon, the line
    that shows it, and the two things the program does, serving and printing
    the baseline of an organization; the signal that ends it; and the bounds on
    what the server accepts.  Parsing the command line, the runtimes, the log
    subscribers' own state and the storages behind an address are libraries'. *)

From S2P Require Import Prelude Str Metrics Projection Baseline StoreSession Events Convert Errors.
From S2P Require Import AppState Config Startup StateReads NatsConnect Daemon.
From Stdlib Require Import Floats.SpecFloat.

Open Scope N_scope.

(** ** The command line *)

Inductive LogFormat := Text | JsonLines.

Inductive PardosaBackendArg := ArgPgno | ArgNats.
Definition PardosaBackend_from (value : PardosaBackendArg) : PardosaBackend :=
  match value with ArgPgno => Pgno | ArgNats => Nats end.

Inductive RateRegulatorArg := ArgTokenBucket | ArgBudgetGate.
Definition RateRegulatorKind_from (value : RateRegulatorArg) : RateRegulatorKind :=
  match value with ArgTokenBucket => TokenBucket | ArgBudgetGate => BudgetGate end.

Record Cli := mkCli {
  cli_log_format : LogFormat;
  cli_org : option string;
  cli_no_resume : bool;
  cli_force_unlock : bool;
  cli_force_refresh : bool;
  cli_team_roster_live_fetch : bool;
  cli_serve_only : bool;
  cli_store_dir : string;
  cli_pardosa_backend : PardosaBackendArg;
  cli_rate_regulator : RateRegulatorArg;
  cli_nats_url : string;
  cli_nats_creds : option string;
  cli_dump_baseline : bool;
  cli_max_workers : N;
  cli_max_repos : N;
  cli_pass_threshold : spec_float;
  cli_warn_threshold : spec_float;
}.

Definition DEFAULT_MAX_WORKERS : N := 16.
Definition default_pass_threshold : spec_float := f64_of_N 80.
Definition default_warn_threshold : spec_float := f64_of_N 50.

(** The options when only the organization is given. *)
Definition cli_defaults (org : option string) : Cli :=
  mkCli Text org false false false false false "store" ArgPgno ArgTokenBucket DEFAULT_NATS_URL None false
    DEFAULT_MAX_WORKERS DEFAULT_MAX_REPOS default_pass_threshold default_warn_threshold.

(** [Path::join] on Unix: an absolute path stands for itself, and a separator is
    put in unless one is there or nothing is before it. *)
Definition path_join (base p : string) : string :=
  if starts_with "/" p then p
  else if is_empty base || ends_with "/" base then base +:+ p
  else base +:+ "/" +:+ p.

Definition events_dir (store org : string) : string := path_join (path_join store "events") org.

(** The fields that [main] sets on the configuration that [with_force_unlock]
    built. *)
Definition with_cli (cli : Cli) (c : RuntimeConfig) : RuntimeConfig :=
  mkRuntimeConfig (org_name c) (no_resume c) (max_workers c) (store_dir c)
    (PardosaBackend_from (cli_pardosa_backend cli)) (cli_nats_url cli) (cli_nats_creds cli)
    (force_unlock c) (cli_force_refresh cli) (dashboard_config c)
    (negb (cli_team_roster_live_fetch cli)) (RateRegulatorKind_from (cli_rate_regulator cli))
    (sweep_timeout c) (cli_max_repos cli) (cli_serve_only cli).

Definition daemon_config (f64_display : spec_float -> string) (org : string) (cli : Cli)
    : result ConfigError RuntimeConfig :=
  let? dashboard := DashboardConfig_new f64_display (cli_pass_threshold cli) (cli_warn_threshold cli) in
  let? c := with_force_unlock org (cli_no_resume cli) (cli_max_workers cli) (cli_store_dir cli)
              (cli_force_unlock cli) dashboard in
  Ok (with_cli cli c).

(** The subscriber of the log lines. *)
Inductive Subscriber := FmtSubscriber (filter : string) | CloudLoggingSubscriber (filter : string).

Definition subscriber_of (filter_from_env : option string) (format : LogFormat) : Subscriber :=
  let env_filter := default "info" filter_from_env in
  match format with
  | Text => FmtSubscriber env_filter
  | JsonLines => CloudLoggingSubscriber env_filter
  end.

(** The line "effective startup config". *)
Record StartupLine := mkStartupLine {
  line_org : string;
  line_backend : PardosaBackend;
  line_nats_url : string;
  line_nats_creds_path : string;
}.

(** What [main] returns. *)
Inductive MainError :=
| ME_Message (text : string)
| ME_Config (e : ConfigError)
| ME_Start (e : StartError)
| ME_App (e : AppError).

(** What it did: a line printed to the standard output, or a daemon that ran,
    with its subscriber and the line that shows its configuration. *)
Inductive MainEffect :=
| Printed (json : string)
| Served (subscriber : Subscriber) (line : StartupLine) (phases : list DaemonPhase).

Section Main.
  Context {Pd : Pardosa} {Url Options Client L : Type} `{!NatsLibs Url Options Client} `{!NatsLocator L}.
  Context (jiff_string : Z -> option string).
  Context {A Session Reader : Type} `{!Adapter A Session Reader}.
  Context `{!Schema NativeDomainEvent} `{!Schema NativeOrgStateCaptured} `{!Schema TeamEvent}.
  Context (process_id : N) (acquire : PardosaBackend -> A -> result string ()).
  (** The storages at an address, the displays of the standard types, and
      [serde_json::to_string_pretty]. *)
  Notation Address := (string * PardosaBackend * NatsStoreConfig (L := L))%type.
  Context (storages_at : Address -> Storages (A := A)).
  Context (f64_display : spec_float -> string) (io_error_display : StartError -> string).
  Context (to_string_pretty : Baseline -> result string string).

(** ** Addresses

    Where the stores are looked for; the outer [None] is the panic of
    [for_org]. *)

(** When the baseline is printed. *)
Definition dump_address (org : string) (cli : Cli) : option (result ConfigError Address) :=
  option_map
    (result_map (fun nats => (events_dir (cli_store_dir cli) org, PardosaBackend_from (cli_pardosa_backend cli),
                              with_credentials_path (cli_nats_creds cli) nats)))
    (for_org org (cli_nats_url cli)).

(** In [daemon::run]. *)
Definition daemon_address (config : RuntimeConfig) : option (result ConfigError Address) :=
  option_map
    (result_map (fun nats => (events_dir (store_dir config) (org_name config), pardosa_backend config, nats)))
    (nats_store_config config).

(** ** [main] *)

(** The runtime that [main] supervises: there is one for NATS only. *)
Definition has_nats_runtime (cli : Cli) : bool :=
  match cli_pardosa_backend cli with ArgNats => true | ArgPgno => false end.

Definition dump_over (address : Address) (nats_runtime : bool) : result MainError MainEffect :=
  let '(_, kind_backend, _) := address in
  let? app_state :=
    map_err ME_Start
      (fst (with_stores_and_runtime jiff_string process_id acquire kind_backend nats_runtime (storages_at address))) in
  match snapshot_fast_path_init jiff_string app_state with
  | (Err e, _) => Err (ME_Message ("projection init failed: " +:+ io_error_display e))
  | (Ok _, app_state) =>
    match dump_baseline_json to_string_pretty (projection_state app_state) with
    | Ok json => Ok (Printed json)
    | Err e => Err (ME_Message ("serialise baseline: " +:+ e))
    end
  end.

Definition dump_baseline (cli : Cli) : option (result MainError MainEffect) :=
  match cli_org cli with
  | None => Some (Err (ME_Message
      "--org is required when using --dump-baseline (δ.3c-ii: event/projection stores are per-org)"))
  | Some org =>
    match dump_address org cli with
    | None => None
    | Some (Err e) => Some (Err (ME_Config e))
    | Some (Ok address) => Some (dump_over address (has_nats_runtime cli))
    end
  end.

Definition startup_line (config : RuntimeConfig) : StartupLine :=
  mkStartupLine (org_name config) (pardosa_backend config) (sanitize_nats_url (nats_url config))
    (default "" (nats_creds config)).

(** The daemon, whose own steps answer as [inputs] say. *)
Definition serve (filter_from_env : option string) (inputs : DaemonInputs) (cli : Cli)
    : option (result MainError MainEffect) :=
  match cli_org cli with
  | None => Some (Err (ME_Message "--org is required when running the daemon"))
  | Some org =>
    match daemon_config f64_display org cli with
    | Err e => Some (Err (ME_Config e))
    | Ok config =>
      match nats_store_config (L := L) config with
      | None => match resolve_serving inputs with Err e => Some (Err (ME_App e)) | Ok _ => None end
      | Some nats =>
        let '(r, phases) := daemon_run config nats inputs in
        Some (result_map
          (fun _ => Served (subscriber_of filter_from_env (cli_log_format cli)) (startup_line config) phases)
          (map_err ME_App r))
      end
    end
  end.

(** [main]: [runtimes] is whether the runtimes could be built. *)
Definition main (runtimes : result string ()) (filter_from_env : option string) (inputs : DaemonInputs)
    (cli : Cli) : option (result MainError MainEffect) :=
  match runtimes with
  | Err e => Some (Err (ME_Message e))
  | Ok _ => if cli_dump_baseline cli then dump_baseline cli else serve filter_from_env inputs cli
  end.

(** ** Properties *)

(** What the daemon is configured with. *)
Lemma daemon_config_exact org cli c : daemon_config f64_display org cli = Ok c ->
  org_name c = trim org /\ trim org <> "" /\
  max_workers c = N.min (N.max (cli_max_workers cli) 2) 128 /\
  validate_tiers f64_display (mkCoverageTiers (cli_pass_threshold cli) (cli_warn_threshold cli)) = Ok () /\
  store_dir c = cli_store_dir cli /\ nats_url c = cli_nats_url cli /\ nats_creds c = cli_nats_creds cli /\
  pardosa_backend c = PardosaBackend_from (cli_pardosa_backend cli) /\ serve_only c = cli_serve_only cli.
Proof.
  unfold daemon_config, DashboardConfig_new, with_force_unlock, RuntimeConfig_new.
  destruct (validate_tiers _ _) as [[]|] eqn:Ht; [|done].
  destruct (is_empty (trim org)) eqn:He; [done|]. intros [= <-]. split_and!; try done.
  intros E. by rewrite E in He.
Qed.

(** The baseline is printed from the stores that the daemon of the organization
    writes, when its name has no white space around it. *)
Lemma dump_finds_the_daemons_stores org cli c : daemon_config f64_display org cli = Ok c ->
  trim org = org -> dump_address org cli = daemon_address c.
Proof.
  intros (Hn & _ & _ & _ & Hd & Hu & Hc & Hb & _)%daemon_config_exact E.
  unfold dump_address, daemon_address, nats_store_config. rewrite Hn Hd Hu Hc Hb E.
  by destruct (for_org org (cli_nats_url cli)) as [[]|].
Qed.

Lemma str_app_cancel a x y : a +:+ x = a +:+ y -> x = y.
Proof. induction a as [|c a IH]; [done|]. intros [= H]. by apply IH. Qed.

Lemma path_join_inj base p p' : starts_with "/" p = false -> starts_with "/" p' = false ->
  path_join base p = path_join base p' -> p = p'.
Proof.
  intros H H'. unfold path_join. rewrite H H'. case_match; [apply str_app_cancel|].
  intros E%str_app_cancel. by injection E.
Qed.

(** Otherwise it is printed from other stores: the daemon trims the name, and
    the dump takes it as it is. *)
Lemma dump_looks_elsewhere org cli c d d' b b' n n' : daemon_config f64_display org cli = Ok c ->
  trim org <> org -> starts_with "/" org = false -> starts_with "/" (trim org) = false ->
  dump_address org cli = Some (Ok (d, b, n)) -> daemon_address c = Some (Ok (d', b', n')) ->
  d <> d' /\ subject n <> subject n'.
Proof.
  intros (Hn & _ & _ & _ & Hd & Hu & _)%daemon_config_exact Hne Ha Ha' E E'.
  unfold dump_address, daemon_address, nats_store_config in *. rewrite Hn Hu Hd in E'.
  destruct (for_org org _) as [[m|]|] eqn:F; [|done|done]. injection E as <- <- <-.
  destruct (for_org (trim org) _) as [[m'|]|] eqn:F'; [|done|done]. injection E' as <- <- <-.
  split; [intros E%path_join_inj; auto|]. cbn [with_credentials_path subject]. intros E.
  assert (store_of RepoStore org (cli_nats_url cli) = Some m) as S1 by (unfold store_of; by rewrite F).
  assert (store_of RepoStore (trim org) (cli_nats_url cli) = Some m') as S2 by (unfold store_of; by rewrite F').
  destruct (addresses_isolated _ _ _ _ _ _ _ _ S1 S2 (or_introl E)) as [_ E1]. congruence.
Qed.

(** The line that shows the configuration is the same whatever user and
    password the address of the server holds. *)
Lemma startup_line_shows_no_secret c c' u v :
  url_parse (nats_url c) = Some u -> url_parse (nats_url c') = Some v -> same_server u v ->
  org_name c = org_name c' -> pardosa_backend c = pardosa_backend c' -> nats_creds c = nats_creds c' ->
  startup_line c = startup_line c'.
Proof.
  intros Hu Hv (H1 & H2 & H3 & H4) Eo Eb Ec. unfold startup_line, sanitize_nats_url.
  by rewrite Eo Eb Ec Hu Hv H1 H2 H3 H4.
Qed.

(** What is printed is the baseline of the repositories that the journals at the
    address fold to, and the daemon is never started. *)
Lemma dump_prints_the_fold runtimes filter inputs cli effect : cli_dump_baseline cli = true ->
  main runtimes filter inputs cli = Some (Ok effect) ->
  exists org dir b nats (s : AppWrites (B := A)) p json,
    cli_org cli = Some org /\ dump_address org cli = Some (Ok (dir, b, nats)) /\
    fst (with_stores_and_runtime jiff_string process_id acquire b (has_nats_runtime cli)
           (storages_at (dir, b, nats))) = Ok s /\
    projection_from_stores jiff_string s = Ok p /\
    to_string_pretty (build_baseline (map snd (btree_entries (p_repositories p)))) = Ok json /\
    effect = Printed json.
Proof.
  intros Hd. unfold main. rewrite Hd. destruct runtimes; [|done].
  unfold dump_baseline. destruct (cli_org cli) as [org|] eqn:Ho; [|done].
  destruct (dump_address org cli) as [[[[dir b] n]|]|] eqn:Ha; [|done|done]. unfold dump_over.
  destruct (fst _) as [s|] eqn:Es; [|done]. cbn [map_err].
  unfold snapshot_fast_path_init, refresh_projection.
  destruct (projection_from_stores jiff_string s) as [p|] eqn:E; [|done].
  unfold dump_baseline_json. cbn [projection_state with_projection].
  destruct (to_string_pretty _) as [json|] eqn:J; [|done]. intros [= <-].
  by exists org, dir, b, n, s, p, json.
Qed.
End Main.

Example default_configuration :
  result_map (fun c => (org_name c, max_workers c, pardosa_backend c, max_repos c, team_roster_read_from_projection c))
    (daemon_config (fun _ => "") " acme " (cli_defaults (Some " acme ")))
  = Ok ("acme", 16, Pgno, 1000, true).
Proof. reflexivity. Qed.

Example dump_directory : events_dir "store" " acme" = "store/events/ acme".
Proof. reflexivity. Qed.

(** The command that the manual gives for a store of its own. *)
Example documented_dump_directory :
  events_dir "/data/gh/events/MyOrg" "MyOrg" = "/data/gh/events/MyOrg/events/MyOrg".
Proof. reflexivity. Qed.

(** ** The signal that ends it ([infra/signal.rs]) *)

Inductive ShutdownSignal := Terminate | Interrupt.
Definition signal_as_str (s : ShutdownSignal) : string :=
  match s with Terminate => "SIGTERM" | Interrupt => "SIGINT" end.

Inductive SignalSource := SourceTerminate | SourceInterrupt.
Definition shutdown_signal_from_source (source : SignalSource) : ShutdownSignal :=
  match source with SourceTerminate => Terminate | SourceInterrupt => Interrupt end.
Definition fallback_shutdown_signal : ShutdownSignal := Interrupt.

(** Which of the two listeners returns first; the listener for Ctrl-C can
    return an error. *)
Inductive FirstReturn := CtrlCReturns (r : result string ()) | SigtermReceived.

(** [wait_for_shutdown_signal] on Unix, with its warnings: [ctrl_c] is what the
    listener returns when it is awaited alone. *)
Definition wait_for_shutdown_signal (sigterm : result string ()) (first : FirstReturn) (ctrl_c : result string ())
    : ShutdownSignal * list string :=
  match sigterm with
  | Ok _ =>
    let source := match first with CtrlCReturns _ => SourceInterrupt | SigtermReceived => SourceTerminate end in
    (shutdown_signal_from_source source, [])
  | Err _ =>
    (fallback_shutdown_signal,
     "SIGTERM handler install failed, using ctrl-c only"
       :: match ctrl_c with Err _ => ["failed to listen for ctrl-c"] | Ok _ => [] end)
  end.

(** SIGTERM is only reported when it was received. *)
Lemma terminate_was_received sigterm first ctrl_c :
  fst (wait_for_shutdown_signal sigterm first ctrl_c) = Terminate <->
  sigterm = Ok () /\ first = SigtermReceived.
Proof. by destruct sigterm as [[]|], first; split; [intros ?|intros [? ?]|..]; try done; intros [? ?]. Qed.

(** A listener that fails passes for a signal. *)
Lemma failed_listener_interrupts e : forall ctrl_c,
  wait_for_shutdown_signal (Ok ()) (CtrlCReturns (Err e)) ctrl_c = (Interrupt, []).
Proof. done. Qed.

(** ** What the server accepts ([server.rs]) *)

Definition MAX_WEBHOOK_BODY_BYTES : N := 1024 * 1024.

Record LayerLimits := mkLayerLimits { max_body_bytes : N; max_inflight_requests : N }.
Definition server_layer_limits : LayerLimits := mkLayerLimits MAX_WEBHOOK_BODY_BYTES 1024.

(** The two groups of routes the program adds, with the limit each nests in the
    ceiling. *)
Inductive ExtraRoute := StatusRoute | WebhookRoute.
Definition route_body_limit (r : ExtraRoute) : N :=
  match r with StatusRoute => 1024 | WebhookRoute => MAX_WEBHOOK_BODY_BYTES end.

Definition body_admitted (r : ExtraRoute) (len : N) : bool :=
  (len <=? max_body_bytes server_layer_limits) && (len <=? route_body_limit r).

(** The ceiling never decides: every body within a route's own limit passes. *)
Lemma ceiling_is_wide_enough r len : body_admitted r len = (len <=? route_body_limit r).
Proof.
  unfold body_admitted. destruct (len <=? route_body_limit r) eqn:E; [|by rewrite andb_false_r].
  apply N.leb_le in E. rewrite andb_true_r. apply N.leb_le. destruct r; cbn in *; unfold MAX_WEBHOOK_BODY_BYTES in *; lia.
Qed.
